(* ===== verification/_CoqProject ===== *)
-Q . S2P
Prelude.v
GoErrors.v
GoText.v
GoEncoding.v
WireHID.v
WireNFC.v
WireBLE.v
GoIO.v
UsbProtocol.v
Descriptors.v
UsbSession.v
Registry.v
UsbBackend.v
NfcTransport.v
BleTransport.v
Ctap1.v
ReportDesc.v
HidConnection.v
HidNative.v
LinuxInventory.v
LinuxDevice.v
LinuxProps.v
LinuxIO.v
LinuxSim.v
WindowsNative.v
WindowsInventory.v
WindowsDevice.v
WindowsProps.v
WindowsSim.v
DarwinBinding.v
DarwinProps.v
DarwinConnection.v
DarwinConnProps.v
DarwinRegistry.v
DarwinRegistryProps.v
DarwinLifecycle.v
DarwinLifeProps.v
DarwinSim.v
Diagnostics.v
DiagnosticsProps.v
Ctap2.v
PinProtocol.v
Manager.v
ManagerSim.v
ClientCore.v
ClientFlows.v
Locator.v
ClientProps.v
FlowProps.v
ClientSim.v
CliApp.v
CliProps.v
CliSim.v
CliService.v
GoFmt.v
CliCommands.v
CliCommandProps.v
CliCommandSim.v
CliTree.v
GoHeap.v
Copies.v
CopyProps.v
CopySim.v
PowerNative.v
PowerObserver.v
PowerUnsupported.v
PowerDiagnostics.v
PowerReducer.v
PowerProps.v
PowerSim.v
HidPlatform.v
HidPlatformProps.v
HidPlatformSim.v
ProbeNative.v
ProbeDiagnostics.v
ProbeProps.v
ProbeSteps.v
ProbeSafety.v
ErrorTexts.v
ErrorTextProps.v
