(* ===== verification/Prelude.v ===== *)
(** * fido-go: a verification development

    fido-go is a Go SDK for FIDO authenticators.  A client facade speaks CTAP1
    and CTAP2 over sessions; sessions are opened by transport backends (USB
    HID, NFC through PC/SC, BLE) that a registry holds; the USB backend runs
    CTAPHID over the repository's own HID package, which supervises native
    devices, with a binding for each operating system below it.  A diagnostic
    runner and the fidoctl command sit on top.  This library models that code
    and proves what makes it correct.

    ** How the code is modelled

    Bytes and machine words are integers [Z] with their wrap-around written
    out ([u8], [u16], [u32] of this file); a Go slice is a list.  A function
    that can fail returns [res] ([Ok] or [Err] with a [goerror], the tree of
    error values on which [errors.Is] and [errors.As] are [Is] and [As],
    GoErrors).  Code that talks to its environment is a state transformer
    over a world ([M W A], GoIO): a class per component lists the calls the
    source makes (connection, context, clock, random source, CBOR library,
    cryptographic primitives), the theorems hold for every instance, and
    their hypotheses state the behaviour they need of it.  [None] means that
    the fuel of a loop ran out; theorems named _terminates, _returns or
    _total, or the functional theorems themselves, show it does not.
    Concurrent code (the exchange mutex, HID connections, the HID package)
    is a step relation whose steps are the locked regions and the beginnings
    and ends of native calls.

    ** Files, in dependency order

    - Prelude: bytes, machine words, big-endian fields, generic list lemmas.
    - GoErrors: error values; pkg/transport/errors.go (categories) and
      classifyHIDError of pkg/transport/usb/hid_backend.go.
    - GoText: the parts of Go's strconv and strings the code uses (Atoi, Itoa,
      Cut, Split, TrimSpace, ToLower, ...), written out on strings.
    - GoEncoding: encoding/hex and encoding/base64, with their round trips.
    - GoFmt: strconv.Quote and the verbs of fmt that messages use.
    - WireHID, WireNFC, WireBLE: pkg/wire/{hid,nfc,ble}, the three framings:
      [Fragment] cuts a message, [Add] of the Assembler joins it.
    - GoIO: the monad of effectful code, [steps_by] for relations every run
      respects and [total] for runs that always return, with the tactics
      [walk] and [totally].
    - UsbProtocol: the CTAPHID message layer of pkg/transport/usb
      (hid_protocol.go, hid_exchange.go, validateHIDCommand of hid.go).
    - Descriptors: pkg/transport/descriptor.go and the data of pkg/hid.
    - UsbSession: hidSession (hid_session.go, hid_init.go, hid_lifetime.go,
      hid_error.go): handshake, exchange, settlement, retirement, the
      exchange mutex.  Module SimHID is a simulated device.
    - Registry: pkg/transport/registry.go over the record [Backend], the
      interface the three transports below implement ([AsBackend]).
    - UsbBackend: the injected backend (backend.go) and the HID backend
      (hid_backend.go) over the class HidLayer.
    - NfcTransport, BleTransport: pkg/transport/{nfc,ble}, with the PC/SC
      adapter and a ledger of its contexts and cards.
    - Ctap1: pkg/ctap1, with a card-side ISO 7816 parser as reference.
    - ReportDesc: pkg/hid/internal/reportdesc, the strict parser, the
      usage-only scan and the inventory fallback.
    - HidConnection: pkg/hid/{connection,read,write,errors}.go, one opened
      collection as a transition system ([step]).
    - HidNative: pkg/hid/{metadata,resources,native}.go, Enumerate, Open and
      the resource accounting as a transition system ([nstep]) in which
      connections take the steps of HidConnection.
    - LinuxInventory, LinuxDevice: pkg/hid/internal/linux (inventory_linux.go;
      device_linux.go and open_linux.go) over the classes LinuxFS (directory and
      attribute reads) and LinuxFd (open, poll, read, write, ioctl, pipe);
      LinuxProps holds the ledger of file descriptors (FdLedger) and the
      theorems on identity and ownership, LinuxIO the inventory and the read
      loop over a hidraw queue (HidrawQueue), LinuxSim a host for witnesses.
    - WindowsNative, WindowsInventory, WindowsDevice: the three files of
      pkg/hid/internal/windows over the class Win32; WindowsProps states the
      laws of the calls it needs (QueryLaws, HandleLaws, IoLaws, OpenLaws)
      with the theorems, WindowsSim a host for witnesses.
    - DarwinBinding: pkg/hid/internal/darwin/darwin.go over the class IOHid,
      the functions of native.h; DarwinProps its theorems under StorageLaws.
      DarwinConnection: connection_darwin.c behind those functions, the
      threads of one connection and its callers as a transition system
      ([step]); DarwinConnProps its theorems and report I/O over it (the law
      EvidenceLaw is what connection_write_evidence proves of the C side);
      DarwinLifecycle has what is around them, hid_connect with the storage,
      the two threads and the device, and hid_disconnect ([life_step]);
      DarwinLifeProps shows that the threads then run DarwinConnection.
      DarwinSim is a host and its runs for witnesses.  DarwinRegistry is
      inventory_darwin.c over the class IORegistry, DarwinRegistryProps its
      ledger (RegistryLaws) and its theorems.
    - Diagnostics: internal/diagnostics, the scenario registry, the selection
      and the runner over the class Runtime; DiagnosticsProps its theorems.
    - Ctap2: pkg/ctap2, commands, responses and their validation over the
      class Cbor.
    - PinProtocol: internal/client/ctap2/protocol.go over the class Crypto;
      CBC, HMAC and HKDF are defined; Module Authenticator is the other side,
      written from CTAP 2.1 and not from the program.
    - Manager: internal/client/ctap2/manager.go; Module CredentialStore is the
      reference authenticator of the listing theorem, Module PinStore that of
      the PIN theorems: the PIN subcommands of CTAP 2.1 with their retries and
      statuses, over the keys, decryption and verification of
      PinProtocol.Authenticator.
    - ManagerSim: a simulated authenticator, both stores together, for the
      witnesses of Manager.
    - ClientCore: pkg/protocol, pkg/middleware and the core of pkg/client:
      construction and options, raw invocation, tracing, the capability
      cache.  A client is a record; the cache is threaded beside the world
      ([St]).
    - ClientFlows: the flows of pkg/client (operations.go, interaction.go,
      register.go, authenticate.go, reset.go, pin.go, credentials.go,
      ctap2_surface.go) over ClientCore and Manager.
    - Locator: pkg/client/{locator,default_locator}.go over Registry.
    - ClientProps, FlowProps: the theorems on the facade; ClientSim: sessions
      with canned answers for their witnesses.
    - CliApp: internal/cli/fidoctl/app.go, the service layer of the command:
      sessions, capability checks, reset and registration with reconnection,
      over Locator, ClientFlows and the class Terminal.  CliProps states what
      it needs of its surroundings (Environment) and proves its theorems;
      CliSim is a desk with two authenticators for the witnesses.
    - CliService, CliCommands: cmd/fidoctl over the class Service, which the
      service layer implements (app_service), and the class Console
      (arguments, environment, terminal, streams): Modules Output, Secrets,
      Flags, Errors and Commands.  CliCommandProps proves the theorems,
      CliCommandSim is a terminal session for the witnesses.
      CliTree is the tree of commands with the flags that root.go and its
      neighbours hand to cobra, and what each command makes of their values.
    - ErrorTexts: the Error methods of all packages, an instance of the class
      ErrorText over which the other files are stated.  ErrorTextProps finds
      the exit status of families of errors with it.
    - GoHeap: memory.  Slices, maps and pointers are locations of a heap;
      [Value R V] relates data in a heap to the value it stands for, [makes]
      is what a defensive copy promises.  Copies holds the code that is about
      sharing, over such a heap: the Clone methods of pkg/ctap2,
      cloneCapabilities and the cache of pkg/client/capabilities.go, the
      conversions of credentials, the trace recorder (tracing.go), secrets.go
      and authorization.go.  The other files treat the same data as immutable
      values, which the theorems of CopyProps justify; CopySim holds the runs
      of the witnesses.
    - PowerNative: internal/diagnostics/power/observer_darwin.c, the reducer
      of power notifications, the owner thread as a step relation and the
      functions the Go half calls; PowerObserver: types.go, errors.go and
      observer_darwin.go; PowerUnsupported: the observer of other systems;
      PowerDiagnostics: the adapter of pkg/hid/internal/darwin.  PowerReducer
      and PowerProps prove the theorems, PowerSim is a night's sleep for the
      witnesses.
    - HidPlatform: the driver contract of pkg/hid/internal/driver as the class
      Platform, native_{linux,windows,darwin,unsupported}.go as its instances,
      and the package over a platform as a transition system ([system_step]):
      the steps of HidNative whose native calls are those of the binding.
      HidPlatformProps states what a binding promises (PlatformLaws), proves it
      of each binding and uses it; HidPlatformSim is a run on Linux.
    - ProbeNative: diagnostics_darwin.c and the writer thread of
      connection_darwin.c in builds with the hid_diagnostics tag: the storage
      of probes and connections, and the turns of the threads.
      ProbeDiagnostics: diagnostics_darwin.go over it, with the callers and
      the waiting loop.  ProbeProps counts the references of probes and shows
      that every turn keeps the masks, ProbeSteps lifts this to whatever
      threads and callers do, ProbeSafety has the theorems and a
      probed write of a synthetic device for the witnesses.

    A definition has the name of the Go function or type it models; where
    two methods of a file share a name, or a loop or a closure needs one of
    its own, its doc comment says which code it is.

    ** What the theorems show

    - Framing: cutting and joining are inverse (fragment_assemble,
      ble_fragment_assemble, fragment_chain), joining is sound against a
      direct reading of the packets (assemble_sound), chained NFC answers
      are joined in order (responses_assemble).
    - CTAPHID: a message is read exactly, device errors are reported, reading
      terminates, one exchange is whole (readHIDMessage_*,
      exchangeHIDMessage_correct), commands are admitted exactly.
    - USB sessions: a command is never replayed (exchange_once), a failed
      exchange settles or retires the session (exchange_settles), an
      established session answers (exchange_answers), delivery evidence is
      sound (exchange_evidence), handshakes are bounded and set a usable
      channel, exchanges exclude each other.
    - HID package: the driver contract on every interleaving
      (conn_driver_contract), order and shape of reports (conn_reads_fifo),
      soundness of write outcomes (conn_write_evidence), retirement is final
      and cleanup happens once (conn_retirement); exact accounting
      (native_accounting), one owner for each device (native_open_owns), an
      inventory that tells what it knows (enumerate_exact); parsed
      descriptors are safe to open (parse_safe, inventory_fallback).
    - Linux binding: the inventory is the list of the hidraw nodes that pass
      the checks of the code (linux_inventory_exact), an identifier opens the
      device it was made for or nothing (linux_open_exact), no descriptor is
      leaked or closed twice on any path (linux_open_owned), a read returns
      the first complete report of the queue or why there is none, and always
      returns (linux_read_exact).
    - Windows binding: an open leaves one handle or none
      (windows_open_owned), an overlapped operation is never left pending and
      its outcome is what the system reported (windows_io_settled), a filtered
      inventory does not open what it is not asked for
      (windows_inventory_selective).
    - macOS binding: an endpoint ID is an address and has one spelling
      (darwin_address_exact), an open owns one connection or nothing
      (darwin_open_owned), an inventory is the bounded list of the
      collections of its entries (darwin_inventory_exact), outcomes of writes
      are evidence (darwin_io_evidence); the connection is a FIFO with a final
      failure (connection_reads_exact), calls the device once for each write
      it reports as submitted and answers every caller
      (connection_write_evidence).  hid_connect and hid_disconnect leave nothing
      behind on any interleaving, and nothing is used after it is gone
      (connection_lifecycle); they return, since no join waits for a thread
      that was not told to stop (connection_calls_return).  The C inventory
      holds what its entries hold and gives back exactly that
      (inventory_storage_exact).
    - Over any binding that keeps the driver contract, the package owns
      exactly the devices of the connections that are not cleaned up, and calls
      no device it does not own (hid_devices_owned).
    - Transports: the registry is the list of its backends
      (registry_refines), opening selects one endpoint (native_open_exact),
      PC/SC handles never leak (pcsc_no_leak), exchanges are correct or
      return (nfc_exchange_correct, ble_exchange_correct,
      injected_exchange_returns).
    - CTAP1 and CTAP2: messages round-trip through a card's parser or are
      accepted exactly (apdu_roundtrip, register_decode_exact,
      authenticate_exact, messages_exact).
    - PIN and credentials: a PIN that is set or changed is the one the
      authenticator keeps, and what it refuses changes nothing but the retries
      (new_pin_accepted), the right PIN buys its token with the permissions
      asked for and another buys none (pin_token_agrees), listings are complete and in order
      (list_credentials_exact), repetition is bounded and justified
      (retry_discipline).
    - Facade: requests are routed through the middleware (invoke_routes),
      traces are exact and hide secrets (trace_redacts), capabilities are
      learnt once and every call returns (facade_capabilities_stable), so a
      PIN set through the facade stays invisible to it (set_pin_unseen);
      registrations and authentications send what was asked - a registration
      one message, field by field - return what came back and never drop
      Required user verification over CTAP2 (register_ctap2_exact,
      authenticate_ctap2_exact), while over CTAP1 the
      selection has no effect (ctap1_selection_ignored); authenticator data
      is parsed exactly (authenticator_data_exact); credential management
      runs under the authorization asked for (credential_authorization); a
      locator opens one device and leaks no session (locator_open_exact).
    - Diagnostics: a scenario's verdict is a function of its facts, its body
      and its cleanups, all of which run (scenario_result_exact), and a run
      reports every selected scenario once, in order (run_exact).
    - Command line: every operation of the service returns and closes each
      client it opened (cli_operations); a reset that loses its device without
      having been given an identifier is repeated on whichever device is
      there (reset_reaches_another_device).  A reset is sent only after its
      confirmation (reset_confirmed), the exit status tells how a command
      ended and the result format is judged late, after a reset or a new PIN
      (command_status), a PIN of
      the environment wins over the stdin flag (pin_change_secrets), and
      binary flags read back what the tool prints (decodeBinary_roundtrip).
      What an authenticator answered exits with 5 through any wrapping, and a
      flag that is not taken with 1 or 5, by its own text
      (exit_status_by_text).
    - Memory: capabilities given to a caller share nothing with the cache,
      whatever the caller writes where it can (capabilities_isolated, with
      capabilities_refine for the cache of values), the trace recorder is a
      list of immutable entries (recorder_refines), clearing a secret
      overwrites every byte it reaches and nothing else (secrets_wiped).
    - Power observer: the reducer accepts exactly the event sequences of one
      sleep and wake cycle (reduce_events_exact), a wait that succeeds has
      seen such a cycle since the observer was armed (wait_qualifies), and an
      observer is torn down once on every interleaving (power_torn_down).
    - Diagnostic probes: on every interleaving of threads and callers, a
      probe lives exactly as long as somebody has it and a writer is at the
      device with SIGURG blocked (probe_safe), a wait returns and its
      snapshot shows the phases it succeeded on (probe_wait_evidence), and
      the snapshot of a probed write tells what was done
      (probed_write_exact).

    ** Fuel

    Loops over device input take fuel.  readHIDMessage's is the number of
    packets still to come ([mu] of its termination theorem); more_rps and
    more_credentials get the number the authenticator announced, one turn
    for each entry; parse_items and scan_items get the length of the
    descriptor, of which each turn consumes at least one byte (Parse_total,
    scanUsages_total); read_response of the injected USB backend gets the
    number of packets missing.  read of the Linux binding gets the length of
    the report queue plus the number of interrupted polls plus one, the wait
    loops of CliApp the number of ticks after which the context is over plus
    one (theorems linux_read_exact and cli_operations).  The loops over device
    interfaces of the Windows binding get 129 turns, one for each index up to
    the limit of 128 at which the source stops (windows_inventory_selective
    shows that they return); the loop over the macOS registry as many as its
    iterator has services, and one (inventory_storage_exact).  The wait loop of a HID read and the retry
    loops of the source have no fuel: the first is a step relation, the
    others count attempts.  A blocking call of the power observer is given
    the schedule of the owner thread for as long as it waits, and has no
    result when that ends first; likewise a wait for a probe is given its
    rounds, each with what others do meanwhile, and returns as soon as its
    context has ended in one of them (probe_wait_evidence).

    ** Not modelled

    Below the bindings: the system calls of Linux and Windows, and IOKit and
    the allocator on macOS; they are parameters.  The call of Platform that ends a native
    operation is one step of [system], so that the worlds of two native calls
    that overlap are not interleaved there; DarwinConnection does interleave
    them.  The examples and tools are not part of the SDK.  The CBOR
    library, the AES block, SHA-256 and P-256 are parameters with their
    documented laws.  The command line is modelled as cobra has parsed it; the
    console aligns tables and encodes JSON, the texts of errors are those of
    ErrorTexts only where a theorem needs them (elsewhere any ErrorText), and
    the table of printable characters beyond Latin-1 is a parameter
    (PrintTable).  Wiping and defensive copies are modelled in Copies;
    the flows treat the data as immutable values, and the buffers of the CTAP2
    manager and of the command line that are wiped before they are freed have
    no counterpart, since nothing refers to them.  A session that returns a
    response together with an error, which Go allows and no session of the
    repository does, is left out (ClientCore.Trace).  JSON tags are left
    out, the arguments of messages no theorem is about, and the
    mutexes around the capability cache and the trace recorder, whose locked
    regions are single operations in Copies. *)
From Stdlib Require Export ZArith Lia.
From stdpp Require Export base list strings gmap option.

#[global] Open Scope Z_scope.

(** ** Bytes and machine integers

    A byte slice is a [list Z]; [bytes_ok] says every element is a byte.
    A w-bit unsigned integer is a [Z] and a Go conversion such as [byte(x)]
    or [uint16(x)] is the truncation [wrap w x]. *)
Abbreviation bytes := (list Z).
Abbreviation last := list.last.

Definition wrap (w x : Z) : Z := x mod 2 ^ w.
Definition u8 (x : Z) : Z := wrap 8 x.
Definition u16 (x : Z) : Z := wrap 16 x.
Definition u32 (x : Z) : Z := wrap 32 x.
Definition u64 (x : Z) : Z := wrap 64 x.

Definition byte_ok (b : Z) : Prop := 0 <= b < 256.
Definition bytes_ok (bs : bytes) : Prop := Forall byte_ok bs.

(** [len(slice)] of Go, an [int]. *)
Definition len {A} (l : list A) : Z := Z.of_nat (length l).

(** [slice[i:j]] of Go for in-range bounds. *)
Definition slice {A} (i j : nat) (l : list A) : list A := take (j - i) (drop i l).

(** [encoding/binary.BigEndian]: [PutUint16], [PutUint32], [Uint16], [Uint32].
    The readers look at the first two (four) bytes of their argument. *)
Definition put_u16 (v : Z) : bytes := [u8 (Z.shiftr v 8); u8 v].
Definition put_u32 (v : Z) : bytes :=
  [u8 (Z.shiftr v 24); u8 (Z.shiftr v 16); u8 (Z.shiftr v 8); u8 v].
Definition get_u16 (b : bytes) : Z := Z.lor (b !!! 1%nat) (Z.shiftl (b !!! 0%nat) 8).
Definition get_u32 (b : bytes) : Z :=
  Z.lor (Z.lor (b !!! 3%nat) (Z.shiftl (b !!! 2%nat) 8))
        (Z.lor (Z.shiftl (b !!! 1%nat) 16) (Z.shiftl (b !!! 0%nat) 24)).

(** [copy(dst, src)] into a zeroed buffer of [n] bytes. *)
Definition pad_to (n : nat) (bs : bytes) : bytes := take n bs ++ replicate (n - length bs) 0.

(** [subtle.ConstantTimeCompare]/[bytes.Equal] on slices. *)
Definition bytes_eqb (a b : bytes) : bool := bool_decide (a = b).

(** A boolean property of bytes is decided by running over all of them. *)
Lemma byte_forall (P : Z → bool) :
  forallb P (map Z.of_nat (seq 0 256)) = true → ∀ b, byte_ok b → P b = true.
Proof.
  intros Hall b Hb. unfold byte_ok in Hb. rewrite forallb_forall in Hall. apply Hall.
  apply in_map_iff. exists (Z.to_nat b). split; [lia|]. apply in_seq. lia.
Qed.

Lemma len_nonneg {A} (l : list A) : 0 <= len l.
Proof. unfold len; lia. Qed.
Lemma len_app {A} (l k : list A) : len (l ++ k) = len l + len k.
Proof. unfold len; rewrite length_app; lia. Qed.
Lemma len_nil {A} : len (@nil A) = 0.
Proof. reflexivity. Qed.
Lemma len_cons {A} (x : A) l : len (x :: l) = 1 + len l.
Proof. unfold len; simpl; lia. Qed.
Lemma len_zero {A} (l : list A) : len l = 0 ↔ l = [].
Proof. unfold len; destruct l; simpl; split; try done; lia. Qed.

Lemma u8_range x : 0 <= u8 x < 256.
Proof. unfold u8, wrap; apply Z.mod_pos_bound; lia. Qed.
Lemma u8_small x : 0 <= x < 256 → u8 x = x.
Proof. intros; unfold u8, wrap; apply Z.mod_small; lia. Qed.
Lemma u16_range x : 0 <= u16 x < 65536.
Proof. unfold u16, wrap; apply Z.mod_pos_bound; lia. Qed.
Lemma u16_small x : 0 <= x < 65536 → u16 x = x.
Proof. intros; unfold u16, wrap; apply Z.mod_small; lia. Qed.
Lemma u32_small x : 0 <= x < 2 ^ 32 → u32 x = x.
Proof. intros; unfold u32, wrap; apply Z.mod_small; lia. Qed.

(** Disjoint bit fields: [a | b << n] is [a + b * 2^n] when [a < 2^n]. *)
Lemma lor_shiftl_add n a b : 0 <= n → 0 <= a < 2 ^ n → Z.lor a (Z.shiftl b n) = a + b * 2 ^ n.
Proof.
  intros Hn Ha. rewrite Z.shiftl_mul_pow2 by lia.
  assert (Hland : Z.land a (b * 2 ^ n) = 0).
  { apply Z.bits_inj'. intros k Hk. rewrite Z.land_spec, Z.bits_0.
    destruct (Z.lt_ge_cases k n).
    - rewrite Z.mul_pow2_bits_low by lia. apply andb_false_r.
    - destruct (Z.eq_dec a 0) as [->|]; [by rewrite Z.bits_0|].
      rewrite (Z.bits_above_log2 a k); [done|lia|].
      apply Z.lt_le_trans with n; [apply Z.log2_lt_pow2; lia|lia]. }
  rewrite <-Z.lxor_lor by done. by rewrite <-Z.add_nocarry_lxor.
Qed.

Lemma get_u16_val b0 b1 rest :
  0 <= b1 < 256 → get_u16 (b0 :: b1 :: rest) = b1 + b0 * 256.
Proof. intros. unfold get_u16; simpl. by rewrite lor_shiftl_add by lia. Qed.

Lemma get_put_u16 v rest : 0 <= v < 65536 → get_u16 (put_u16 v ++ rest) = v.
Proof.
  intros. unfold put_u16. cbn [app]. rewrite get_u16_val by apply u8_range.
  unfold u8, wrap. rewrite Z.shiftr_div_pow2 by lia.
  rewrite (Z.mod_small (v / _)) by (split; [apply Z.div_pos; lia|apply Z.div_lt_upper_bound; lia]).
  pose proof (Z.div_mod v (2 ^ 8)). change (2 ^ 8) with 256 in *. lia.
Qed.

Lemma get_u32_val b0 b1 b2 b3 rest :
  byte_ok b1 → byte_ok b2 → byte_ok b3 →
  get_u32 (b0 :: b1 :: b2 :: b3 :: rest) = b3 + b2 * 2 ^ 8 + b1 * 2 ^ 16 + b0 * 2 ^ 24.
Proof.
  unfold byte_ok; intros. unfold get_u32; simpl.
  rewrite (lor_shiftl_add 8) by lia.
  assert (H24 : Z.lor (Z.shiftl b1 16) (Z.shiftl b0 24) = Z.shiftl (b1 + b0 * 2 ^ 8) 16).
  { rewrite <-(lor_shiftl_add 8) by lia. rewrite Z.shiftl_lor, Z.shiftl_shiftl by lia. done. }
  rewrite H24, lor_shiftl_add by lia. lia.
Qed.

Lemma get_put_u32 v rest : 0 <= v < 2 ^ 32 → get_u32 (put_u32 v ++ rest) = v.
Proof.
  intros. unfold put_u32. cbn [app]. rewrite get_u32_val by apply u8_range.
  unfold u8, wrap. rewrite !Z.shiftr_div_pow2 by lia.
  rewrite (Z.mod_small (v / 2 ^ 24)) by (split; [apply Z.div_pos; lia|apply Z.div_lt_upper_bound; lia]).
  change (2 ^ 8) with 256. change (2 ^ 16) with (256 * 256). change (2 ^ 24) with (256 * 256 * 256).
  rewrite <-!Z.div_div by lia.
  pose proof (Z.div_mod v 256). pose proof (Z.div_mod (v / 256) 256).
  pose proof (Z.div_mod (v / 256 / 256) 256). lia.
Qed.

(** Automation shared by the components: [errs] classifies errors, [io]
    unfolds the runs of effectful code. *)
Create HintDb errs.
Create HintDb io.

(** A value below a power of two does not have that bit. *)
Lemma land_pow2_small x k : 0 <= k → 0 <= x < 2 ^ k → Z.land x (2 ^ k) = 0.
Proof.
  intros Hk Hx. apply Z.bits_inj'. intros i Hi. rewrite Z.land_spec, Z.bits_0.
  destruct (decide (i = k)) as [->|].
  - destruct (decide (x = 0)) as [->|]; [by rewrite Z.bits_0|].
    rewrite (Z.bits_above_log2 x k); [done|lia|]. apply Z.log2_lt_pow2; lia.
  - rewrite Z.pow2_bits_false by lia. apply andb_false_r.
Qed.

(** Filling a buffer up to a limit is taking a prefix of the concatenation. *)
Lemma take_fill {A} (n m : nat) (buf body : list A) :
  (length buf ≤ n)%nat → (n - length buf ≤ m ∨ length body ≤ m)%nat →
  buf ++ take ((n - length buf) `min` m) body = take n (buf ++ body).
Proof.
  intros Hn Hm. rewrite take_app, (take_ge buf) by lia. f_equal.
  destruct (decide (n - length buf ≤ m)%nat); [by rewrite Nat.min_l by lia|].
  rewrite Nat.min_r by lia. rewrite !take_ge by lia. done.
Qed.

Lemma take_take_app {A} n (x y : list A) : take n (take n x ++ y) = take n (x ++ y).
Proof.
  rewrite !take_app, length_take, take_take, Nat.min_id. f_equal. f_equal. lia.
Qed.

Lemma length_pad_to n bs : length (pad_to n bs) = n.
Proof. unfold pad_to. rewrite length_app, length_take, length_replicate. lia. Qed.

Lemma take_pad_to n k bs : (length bs ≤ n)%nat → k = length bs → take k (pad_to n bs) = bs.
Proof.
  intros Hn ->. unfold pad_to. rewrite (take_ge bs) by lia. apply take_app_length.
Qed.

Lemma len_pad_to n bs : 0 <= n → len (pad_to (Z.to_nat n) bs) = n.
Proof. intros. unfold len. rewrite length_pad_to. lia. Qed.

Lemma len_take {A} n (l : list A) : 0 <= n <= len l → len (take (Z.to_nat n) l) = n.
Proof. unfold len. intros. rewrite length_take. lia. Qed.

Lemma len_drop {A} n (l : list A) : 0 <= n <= len l → len (drop (Z.to_nat n) l) = len l - n.
Proof. unfold len. intros. rewrite length_drop. lia. Qed.

Lemma length_len {A} (l : list A) : length l = Z.to_nat (len l).
Proof. unfold len; lia. Qed.

Create Rewrite HintDb lens.
#[export] Hint Rewrite @len_app @len_cons @len_nil @length_app @length_pad_to : lens.
