(* ===== verification/GoErrors.v ===== *)
(** * Go errors and the transport error categories

    [goerror] is the tree of error values the program builds: sentinels made
    by [errors.New], formatted errors with their [%w] operands, joins, and the
    structured error types of the packages, each with its [Unwrap].  [As] and
    [Is] are [errors.As] and [errors.Is].  The second half is
    [src/pkg/transport/errors.go] and the classification of native HID errors
    of [src/pkg/transport/usb/hid_backend.go]. *)
From S2P Require Import Prelude.

Inductive ctx_err := Canceled | DeadlineExceeded.

(** ExchangeStage of [transport/usb/hid_error.go]. *)
Inductive stage := StageINIT | StagePING | StageRequest | StageResponse.

(** WriteOutcome of [hid/report.go]. *)
Inductive outcome := OutcomeUnknown | OutcomeNotSubmitted | OutcomeCompleted.

(** Kind of [hid/internal/driver]. *)
Inductive driver_kind :=
  | KindIO | KindClosed | KindRemoved | KindPermission | KindBusy | KindUnsupported
  | KindInvalidArgument | KindInvalidReport | KindStaleEndpoint | KindTimeout
  | KindResourceLimit | KindOther (k : Z).

#[global] Instance ctx_err_dec : EqDecision ctx_err. Proof. solve_decision. Defined.
#[global] Instance stage_dec : EqDecision stage. Proof. solve_decision. Defined.
#[global] Instance outcome_dec : EqDecision outcome. Proof. solve_decision. Defined.
#[global] Instance driver_kind_dec : EqDecision driver_kind. Proof. solve_decision. Defined.

(** An error made outside the repository, with the two behaviours the program
    observes: its [Temporary] method, when it has one, and [os.IsPermission]. *)
Record foreign := Foreign {
  fe_name : string;
  fe_temporary : option bool;
  fe_permission : bool;
}.

(** A sentinel is named by the Go variable that holds it.  [EMsg] is an
    [errors.New] or [fmt.Errorf] value no variable holds; messages are the
    format strings of the source. *)
Inductive goerror :=
  | ESent (name : string)
  | ECtx (c : ctx_err)
  | EForeign (f : foreign)
  | EMsg (msg : string)
  | EFmt (msg : string) (operands : list goerror)
  | EJoin (errs : list goerror)
  | ETransport (op : string) (err : goerror)
  | EInvalidHIDCommand (command : Z)
  | EHID (code : Z)
  | ELocalWait (cause : goerror)
  | EExchange (s : stage) (packets : Z) (o : outcome) (ambiguous : bool) (cause : goerror)
  | EStatus (sw1 sw2 : Z)
  | EAppletSelection (sw1 sw2 : Z)
  | ECtap1 (sw : Z)
  | ECtap2 (code : Z)
  | EErrno (code : Z)
  | ENative (domain : string) (code : Z) (msg : string)
  | EHidOp (op endpoint : string) (kind : goerror) (native : option goerror) (cause : goerror)
  | EDriver (op : string) (kind : driver_kind) (domain : string) (code : Z) (msg : string)
            (cause : option goerror)
  | EUnknownFamily (family : string)
  | EUnsupportedProtocol (family : string)
  | EDuplicateRawInvoker (family : string)
  | EUnsupportedMethod (method operation : string)
  | EMethodUnavailable (method operation reason : string)
  | EDisposition (inconclusive : bool) (reason : string)
  | EDeviceNotFound (id : string)
  | ECTAP2Unavailable (id : string).

(** The [Error] method of error values; ErrorTexts has those of the program. *)
Class ErrorText := Error : goerror → string.

Fixpoint first_some {A} (l : list (option A)) : option A :=
  match l with [] => None | Some a :: _ => Some a | None :: l => first_some l end.

(** [Unwrap() error] and [Unwrap() []error]. *)
Definition unwrap (e : goerror) : list goerror :=
  match e with
  | EFmt _ es | EJoin es => es
  | ETransport _ e | ELocalWait e | EExchange _ _ _ _ e => [e]
  | EStatus _ _ => [ESent "wire/nfc.errStatusWord"]
  | EHidOp _ _ kind native cause =>
      kind :: (match native with Some n => [n] | None => [] end) ++ [cause]
  | EDriver _ _ _ _ _ (Some c) => [c]
  | _ => []
  end.

(** [errors.As]: the first node, in pre-order, that the partial function [p]
    (the target type) accepts. *)
Fixpoint As {A} (p : goerror → option A) (e : goerror) : option A :=
  match p e with
  | Some a => Some a
  | None =>
      match e with
      | EFmt _ es | EJoin es => first_some (map (As p) es)
      | ETransport _ e | ELocalWait e | EExchange _ _ _ _ e => As p e
      | EStatus _ _ => p (ESent "wire/nfc.errStatusWord")
      | EHidOp _ _ kind native cause =>
          first_some [As p kind;
                      match native with Some n => As p n | None => None end; As p cause]
      | EDriver _ _ _ _ _ (Some c) => As p c
      | _ => None
      end
  end.

Definition is_sentinel (name : string) (e : goerror) : option unit :=
  match e with ESent n => if String.eqb n name then Some () else None | _ => None end.

(** [errors.Is] against a sentinel. *)
Definition Is (e : goerror) (name : string) : bool :=
  match As (is_sentinel name) e with Some _ => true | None => false end.

Definition as_hid (e : goerror) : option Z := match e with EHID c => Some c | _ => None end.
Definition as_local_wait (e : goerror) : option goerror :=
  match e with ELocalWait c => Some c | _ => None end.
Definition as_ctap2 (e : goerror) : option Z := match e with ECtap2 c => Some c | _ => None end.
Definition as_applet (e : goerror) : option (Z * Z) :=
  match e with EAppletSelection a b => Some (a, b) | _ => None end.
Definition as_driver (e : goerror) : option (driver_kind * string * Z * string) :=
  match e with EDriver _ k d c m _ => Some (k, d, c, m) | _ => None end.

Definition as_errno (e : goerror) : option Z := match e with EErrno c => Some c | _ => None end.
Definition EPERM : Z := 1.
Definition ENOENT : Z := 2.
Definition EINTR : Z := 4.
Definition EIO : Z := 5.
Definition ENXIO : Z := 6.
Definition EBADF : Z := 9.
Definition EAGAIN : Z := 11.
Definition EACCES : Z := 13.
Definition EBUSY : Z := 16.
Definition ENODEV : Z := 19.
Definition EINVAL : Z := 22.
Definition ENOTTY : Z := 25.
(** [syscall.Errno.Temporary]: EINTR, EMFILE, ENFILE and the timeouts. *)
Definition temporary_errnos : list Z := [EINTR; 24; 23; EAGAIN; 110].

(** [errors.Is] against an errno of [golang.org/x/sys/unix]. *)
Definition IsErrno (e : goerror) (code : Z) : bool :=
  match As (λ e, match e with EErrno c => if c =? code then Some () else None | _ => None end) e with
  | Some _ => true
  | None => false
  end.

(** [interface{ Temporary() bool }]: context.DeadlineExceeded has the method
    and answers true, context.Canceled does not have it. *)
Definition as_temporary (e : goerror) : option bool :=
  match e with
  | ECtx DeadlineExceeded => Some true
  | EErrno c => Some (existsb (Z.eqb c) temporary_errnos)
  | EForeign f => fe_temporary f
  | _ => None
  end.

(** [os.IsPermission] looks through os error structures only, never through
    the wrappers of this program. *)
Definition os_is_permission (e : goerror) : bool :=
  match e with
  | EForeign f => fe_permission f
  | EErrno c => (c =? EACCES) || (c =? EPERM)
  | _ => false
  end.

Lemma As_unwrap {A} (p : goerror → option A) e :
  As p e = match p e with Some a => Some a | None => first_some (map (As p) (unwrap e)) end.
Proof.
  destruct e as [| | | | | | | | | | | | | | | | | ? ? ? [?|] ?|? ? ? ? ? [?|] | | | | | | | |]; simpl;
    destruct (p _); try done; repeat (case_match; simplify_eq; try done).
Qed.

(** What [errors.As] finds is a node of the tree. *)
Lemma As_node {A} (p : goerror → option A) (a : A) : ∀ e, As p e = Some a → ∃ node, p node = Some a.
Proof.
  fix IH 1. intros e.
  destruct e as [| | | |? es|es|? e|? |? |e|? ? ? ? e| | | | | | |? ? k [n|] c|? ? ? ? ? [c|]| | | | | | | |];
    simpl; destruct (p _) eqn:E; intros H; try discriminate H;
    try (injection H as ->; eexists; exact E).
  all: repeat match type of H with
       | context [As ?q ?x] =>
           is_var x; destruct (As q x) eqn:?; simpl in H; try discriminate H
       end.
  all: try (eexists; exact H).
  all: try match goal with
       | H : Some _ = Some _, Hx : As _ ?x = Some _ |- _ => injection H as ->; exact (IH x Hx)
       end.
  all: match goal with
       | H : first_some (map _ ?l) = _ |- _ =>
           clear E; revert l H; fix IHs 1; intros [|x l]; simpl; [intros H; discriminate H|];
           destruct (As _ x) eqn:Hx; [intros [= ->]; exact (IH x Hx)|apply IHs]
       end.
Qed.

(** ** Categories: src/pkg/transport/errors.go *)
Module Transport.
Definition ErrDisconnected := "transport.ErrDisconnected"%string.
Definition ErrPermissionDenied := "transport.ErrPermissionDenied"%string.
Definition ErrTemporary := "transport.ErrTemporary"%string.
Definition ErrUnsupported := "transport.ErrUnsupported"%string.

(** A Go [error] that may be nil is an [option goerror]. *)
Definition Wrap (op : string) (err : option goerror) : option goerror :=
  match err with None => None | Some e => Some (ETransport op e) end.

Definition withCategory (err : option goerror) (category : string) : option goerror :=
  match err with
  | None => None
  | Some e =>
      if Is e category then Some e
      else Some (EFmt "%w: %w" [ESent category; e])
  end.

Definition Disconnected (err : option goerror) := withCategory err ErrDisconnected.
Definition PermissionDenied (err : option goerror) := withCategory err ErrPermissionDenied.
Definition Temporary (err : option goerror) := withCategory err ErrTemporary.
Definition Unsupported (err : option goerror) := withCategory err ErrUnsupported.

Definition hasCategory (e : goerror) : bool :=
  Is e ErrDisconnected || Is e ErrPermissionDenied || Is e ErrTemporary || Is e ErrUnsupported.

Definition ClassifyCommon (err : option goerror) : option goerror :=
  match err with
  | None => None
  | Some e =>
      if hasCategory e then Some e
      else if os_is_permission e then PermissionDenied (Some e)
      else match As as_temporary e with
           | Some true => Temporary (Some e)
           | _ => Some e
           end
  end.

(** [ClassifyCommon] and [Wrap] of a non-nil error. *)
Definition classify (e : goerror) : goerror := default e (ClassifyCommon (Some e)).
Definition unsupported (e : goerror) : goerror := default e (Unsupported (Some e)).
End Transport.

(** ** classifyHIDError: src/pkg/transport/usb/hid_backend.go *)
Module HidErr.
Definition ErrClosed := ESent "hid.ErrClosed".
Definition ErrRemoved := ESent "hid.ErrRemoved".
Definition ErrPermission := ESent "hid.ErrPermission".
Definition ErrBusy := ESent "hid.ErrBusy".
Definition ErrUnsupported := ESent "hid.ErrUnsupported".
Definition ErrInvalidArgument := ESent "hid.ErrInvalidArgument".
Definition ErrInvalidReport := ESent "hid.ErrInvalidReport".
Definition ErrStaleEndpoint := ESent "hid.ErrStaleEndpoint".
Definition ErrTimeout := ESent "hid.ErrTimeout".
Definition ErrIO := ESent "hid.ErrIO".
Definition ErrResourceLimit := ESent "hid.ErrResourceLimit".

Definition classifyHIDError (err : option goerror) : option goerror :=
  match err with
  | None => None
  | Some e =>
      if Is e "hid.ErrRemoved" then Transport.Disconnected (Some e)
      else if Is e "hid.ErrPermission" then Transport.PermissionDenied (Some e)
      else if Is e "hid.ErrUnsupported" then Transport.Unsupported (Some e)
      else Transport.ClassifyCommon (Some e)
  end.

Definition classify (e : goerror) : goerror := default e (classifyHIDError (Some e)).
End HidErr.

(** ** Properties of the categories *)
Lemma Is_ETransport op e s : Is (ETransport op e) s = Is e s.
Proof. unfold Is; simpl; done. Qed.

Lemma Is_category cat e s :
  Is (EFmt "%w: %w" [ESent cat; e]) s = (String.eqb cat s || Is e s).
Proof.
  unfold Is; simpl. destruct (String.eqb cat s); [done|].
  by destruct (As (is_sentinel s) e) as [[]|].
Qed.

Lemma withCategory_Is e cat e' s :
  Transport.withCategory (Some e) cat = Some e' → Is e' s = (Is e s || String.eqb cat s).
Proof.
  unfold Transport.withCategory. destruct (Is e cat) eqn:Hc; intros [= <-].
  - destruct (String.eqb_spec cat s) as [<-|]; [by rewrite Hc|by rewrite orb_false_r].
  - by rewrite Is_category, orb_comm.
Qed.

Lemma withCategory_has e cat e' :
  Transport.withCategory (Some e) cat = Some e' → Is e' cat = true.
Proof. intros H. rewrite (withCategory_Is _ _ _ _ H), String.eqb_refl. apply orb_true_r. Qed.

Lemma As_withCategory {A} (p : goerror → option A) e cat e' :
  (∀ s, p (ESent s) = None) → (∀ es, p (EFmt "%w: %w" es) = None) →
  Transport.withCategory (Some e) cat = Some e' → As p e' = As p e.
Proof.
  unfold Transport.withCategory. intros Hs Hf. destruct (Is e cat); intros [= <-]; [done|].
  simpl. rewrite Hf, Hs. simpl. by destruct (As p e).
Qed.

(** The categories a classification can add; used to reason by cases. *)
Inductive classified (e : goerror) : goerror → Prop :=
  | classified_same : classified e e
  | classified_cat cat e' :
      Transport.withCategory (Some e) cat = Some e' → classified e e'.

Lemma withCategory_classified e cat :
  classified e (default e (Transport.withCategory (Some e) cat)).
Proof.
  apply (classified_cat e cat). unfold Transport.withCategory. by destruct (Is e cat).
Qed.
#[export] Hint Constructors classified : errs.
#[export] Hint Resolve withCategory_classified : errs.

Lemma ClassifyCommon_classified e : classified e (Transport.classify e).
Proof.
  unfold Transport.classify, Transport.ClassifyCommon.
  repeat case_match; simplify_eq; simpl; auto with errs; apply withCategory_classified.
Qed.

Lemma classifyHIDError_classified e : classified e (HidErr.classify e).
Proof.
  unfold HidErr.classify, HidErr.classifyHIDError.
  repeat case_match; try apply withCategory_classified. apply ClassifyCommon_classified.
Qed.

Lemma classified_As {A} (p : goerror → option A) e e' :
  (∀ s, p (ESent s) = None) → (∀ es, p (EFmt "%w: %w" es) = None) →
  classified e e' → As p e' = As p e.
Proof. intros ?? [|cat e'' H]; [done|]. by eapply As_withCategory. Qed.

Lemma classified_Is e e' s : classified e e' → Is e s = true → Is e' s = true.
Proof. intros [|cat e'' H] Hs; [done|]. by rewrite (withCategory_Is _ _ _ _ H), Hs. Qed.

Lemma hasCategory_of e cat :
  cat ∈ [Transport.ErrDisconnected; Transport.ErrPermissionDenied;
         Transport.ErrTemporary; Transport.ErrUnsupported] →
  Is e cat = true → Transport.hasCategory e = true.
Proof.
  unfold Transport.hasCategory. intros Hc H.
  rewrite !list_elem_of_In in Hc; simpl in Hc.
  destruct Hc as [<-|[<-|[<-|[<-|[]]]]]; rewrite H; rewrite ?orb_true_r; done.
Qed.

Lemma withCategory_nonnil e cat : ∃ e', Transport.withCategory (Some e) cat = Some e'.
Proof. unfold Transport.withCategory. destruct (Is e cat); eauto. Qed.

Lemma classify_hasCategory e : Transport.hasCategory e = true → Transport.classify e = e.
Proof. unfold Transport.classify, Transport.ClassifyCommon. by intros ->. Qed.

(** [Transport.classify] leaves the error, or gives it one of two categories. *)
Lemma classify_cases e :
  Transport.classify e = e ∨
  Transport.hasCategory (Transport.classify e) = true.
Proof.
  destruct (Transport.hasCategory e) eqn:Hh; [left; by apply classify_hasCategory|].
  unfold Transport.classify, Transport.ClassifyCommon. rewrite Hh.
  destruct (os_is_permission e).
  { right. unfold Transport.PermissionDenied.
    destruct (withCategory_nonnil e Transport.ErrPermissionDenied) as [e' He]. rewrite He.
    eapply hasCategory_of; [|by eapply withCategory_has]. set_solver. }
  destruct (As as_temporary e) as [[]|]; auto.
  right. unfold Transport.Temporary.
  destruct (withCategory_nonnil e Transport.ErrTemporary) as [e' He]. rewrite He.
  eapply hasCategory_of; [|by eapply withCategory_has]. set_solver.
Qed.

#[export] Hint Resolve ClassifyCommon_classified classifyHIDError_classified : errs.

(** ** Results of fallible pure code: [(T, error)] with a nil error or a nil value *)
Inductive res (A : Type) := Ok (a : A) | Err (e : goerror).
Arguments Ok {A} a.
Arguments Err {A} e.

Declare Scope go_scope.
Delimit Scope go_scope with go.
#[global] Open Scope go_scope.

Definition rbind {A B} (c : res A) (k : A → res B) : res B :=
  match c with Ok a => k a | Err e => Err e end.
Definition rmap {A B} (f : A → B) (c : res A) : res B :=
  match c with Ok a => Ok (f a) | Err e => Err e end.

(** [r ←? c; k]: bind of [res], the [if err != nil { return err }] of Go. *)
Notation "x ←? c ; k" := (rbind c (λ x, k))
  (at level 20, c at level 100, k at level 200, right associativity,
   format "x  ←?  c ; '/' k") : go_scope.

(** [if cond { return err }]. *)
Definition guard_err {A} (cond : bool) (e : goerror) (k : res A) : res A :=
  if cond then Err e else k.

Lemma rbind_Ok {A B} (c : res A) (k : A → res B) b :
  rbind c k = Ok b ↔ ∃ a, c = Ok a ∧ k a = Ok b.
Proof. destruct c; simpl; split; [eauto|intros (?&[=->]&?); done|done|intros (?&?&?); done]. Qed.
