(* ===== verification/GoText.v ===== *)
(** * Strings, numbers and paths of the Go standard library

    What the platform bindings, the diagnostics and the command-line tool use
    of [strings], [strconv] and [path/filepath] (on Unix), written out. *)
From S2P Require Import Prelude GoErrors.
From Stdlib Require Export Ascii.
From stdpp Require Export pretty.
#[global] Open Scope Z_scope.

Module GoStrings.
#[local] Open Scope string_scope.

Definition HasPrefix (s prefix : string) : bool := String.prefix prefix s.

Fixpoint drop_str (n : nat) (s : string) : string :=
  match n, s with S n, String _ s => drop_str n s | _, _ => s end.

Definition TrimPrefix (s prefix : string) : string :=
  if HasPrefix s prefix then drop_str (String.length prefix) s else s.

(** [strings.TrimSuffix(s, "\n")]: the only suffix the program trims. *)
Definition newline : ascii := Ascii.ascii_of_nat 10.
Fixpoint TrimNewline (s : string) : string :=
  match s with
  | "" => ""
  | String a "" => if Ascii.eqb a newline then "" else s
  | String a s => String a (TrimNewline s)
  end.

(** [strings.Split] with a separator of one byte. *)
Fixpoint Split (sep : ascii) (s : string) : list string :=
  match s with
  | "" => [""]
  | String a s =>
      if Ascii.eqb a sep then "" :: Split sep s
      else match Split sep s with
           | [] => [String a ""]
           | w :: ws => String a w :: ws
           end
  end.

(** [strings.Cut]: around the first occurrence of [sep]. *)
Fixpoint Cut (s sep : string) : option (string * string) :=
  if HasPrefix s sep then Some ("", drop_str (String.length sep) s)
  else match s with
       | "" => None
       | String a s => match Cut s sep with Some (x, y) => Some (String a x, y) | None => None end
       end.

(** [strings.Join]. *)
Fixpoint Join (sep : string) (ws : list string) : string :=
  match ws with
  | [] => ""
  | [w] => w
  | w :: ws => w ++ sep ++ Join sep ws
  end.

(** UTF-8 encodings of the characters of [unicode.IsSpace]. *)
Definition utf8 (bs : list nat) : string := String.string_of_list_ascii (map Ascii.ascii_of_nat bs).
Definition spaces : list string :=
  map utf8 (app [[9]; [10]; [11]; [12]; [13]; [32]; [194; 133]; [194; 160]; [225; 154; 128];
    [226; 128; 168]; [226; 128; 169]; [226; 128; 175]; [226; 129; 159]; [227; 128; 128]]
    (map (λ n, [226; 128; n]) (seq 128 11)))%nat.

Definition rev_str (s : string) : string :=
  String.string_of_list_ascii (rev (String.list_ascii_of_string s)).
Fixpoint trim_left (fuel : nat) (ws : list string) (s : string) : string :=
  match fuel, find (HasPrefix s) ws with
  | S fuel, Some w => trim_left fuel ws (drop_str (String.length w) s)
  | _, _ => s
  end.
Definition TrimSpace (s : string) : string :=
  let s := trim_left (String.length s) spaces s in
  rev_str (trim_left (String.length s) (map rev_str spaces) (rev_str s)).

(** [strings.ToLower] on ASCII.  The letters the program looks for after it
    (c, t, a, p, u, f, x and the hexadecimal digits) are the lower case of
    ASCII letters only, so the other runes do not matter. *)
Definition lower (a : ascii) : ascii :=
  let n := Ascii.nat_of_ascii a in
  if ((65 <=? n) && (n <=? 90))%nat then Ascii.ascii_of_nat (n + 32) else a.
Fixpoint ToLower (s : string) : string :=
  match s with "" => "" | String a s => String (lower a) (ToLower s) end.

(** [strings.ToUpper], exact on ASCII text and on the two runes whose upper
    case is an ASCII letter: dotless i and long s. *)
Definition upper (a : ascii) : ascii :=
  let n := Ascii.nat_of_ascii a in
  if ((97 <=? n) && (n <=? 122))%nat then Ascii.ascii_of_nat (n - 32) else a.
Fixpoint ToUpper (s : string) : string :=
  match s with
  | "" => ""
  | String a rest =>
      match rest with
      | String b s =>
          if String.eqb (String a (String b "")) (utf8 [196; 177]%nat) then String "I" (ToUpper s)
          else if String.eqb (String a (String b "")) (utf8 [197; 191]%nat) then String "S" (ToUpper s)
          else String (upper a) (ToUpper rest)
      | "" => String (upper a) ""
      end
  end.

(** [strings.Index]. *)
Fixpoint Index (s sub : string) : option nat :=
  if HasPrefix s sub then Some 0%nat
  else match s with "" => None | String _ s => option_map S (Index s sub) end.

(** [strings.Contains]. *)
Definition Contains (s sub : string) : bool := match Cut s sub with Some _ => true | None => false end.

(** A byte slice as a string. *)
Definition string_of_bytes (bs : bytes) : string :=
  String.string_of_list_ascii (map (λ b, Ascii.ascii_of_N (Z.to_N b)) bs).

Lemma HasPrefix_app p s : HasPrefix (p ++ s) p = true.
Proof. induction p as [|a p IH]; [by destruct s|]. simpl. by destruct (Ascii.ascii_dec a a). Qed.

Lemma drop_str_app p s : drop_str (String.length p) (p ++ s) = s.
Proof. induction p; [by destruct s|done]. Qed.

Lemma TrimPrefix_app p s : TrimPrefix (p ++ s) p = s.
Proof. unfold TrimPrefix. by rewrite HasPrefix_app, drop_str_app. Qed.

(** Cutting around a separator whose first byte is new. *)
Lemma Cut_app (c : ascii) (sep a b : string) :
  c ∉ String.list_ascii_of_string a → Cut (a ++ String c sep ++ b) (String c sep) = Some (a, b).
Proof.
  induction a as [|d a IH]; intros Hc.
  - pose proof (HasPrefix_app (String c sep) b) as Hp.
    pose proof (drop_str_app (String c sep) b) as Hd. simpl in *. rewrite Hp, Hd. done.
  - simpl in *. apply list.not_elem_of_cons in Hc as [Hne Hc].
    rewrite IH by done. unfold HasPrefix. simpl. by destruct (Ascii.ascii_dec c d).
Qed.
(** Splitting at a separator that a word does not have. *)
Lemma Split_app_nosep sep w s : sep ∉ String.list_ascii_of_string w →
  Split sep ((w ++ String sep s)%string) = w :: Split sep s.
Proof.
  induction w as [|a w IH]; intros Hw; simpl in *.
  - by rewrite Ascii.eqb_refl.
  - apply list.not_elem_of_cons in Hw as [Ha Hw]. destruct (Ascii.eqb_spec a sep); [congruence|].
    by rewrite IH.
Qed.

Lemma Split_nosep sep w : sep ∉ String.list_ascii_of_string w → Split sep w = [w].
Proof.
  induction w as [|a w IH]; intros Hw; simpl in *; [done|].
  apply list.not_elem_of_cons in Hw as [Ha Hw]. destruct (Ascii.eqb_spec a sep); [congruence|].
  by rewrite IH.
Qed.
End GoStrings.

Module Strconv.
#[local] Open Scope string_scope.
#[local] Open Scope Z_scope.

Definition Itoa (z : Z) : string := pretty z.

Definition digit (a : ascii) : option Z :=
  let c := Z.of_N (Ascii.N_of_ascii a) in
  if (48 <=? c) && (c <=? 57) then Some (c - 48)
  else if (97 <=? c) && (c <=? 122) then Some (c - 97 + 10)
  else if (65 <=? c) && (c <=? 90) then Some (c - 65 + 10)
  else None.

Fixpoint digits (base acc : Z) (s : string) : option Z :=
  match s with
  | "" => Some acc
  | String a s =>
      match digit a with
      | Some d => if d <? base then digits base (acc * base + d) s else None
      | None => None
      end
  end.

Definition syntax_error : goerror := ESent "strconv.ErrSyntax".
Definition range_error : goerror := ESent "strconv.ErrRange".

(** [ParseUint] with an explicit base. *)
Definition ParseUint (s : string) (base bits : Z) : res Z :=
  match s, digits base 0 s with
  | "", _ | _, None => Err syntax_error
  | _, Some n => if n <? 2 ^ bits then Ok n else Err range_error
  end.

(** [Atoi], [int] having 64 bits. *)
Definition Atoi (s : string) : res Z :=
  match s with
  | String "-" s =>
      n ←? ParseUint s 10 64; if n <=? 2 ^ 63 then Ok (- n) else Err range_error
  | String "+" s =>
      n ←? ParseUint s 10 64; if n <? 2 ^ 63 then Ok n else Err range_error
  | _ => n ←? ParseUint s 10 64; if n <? 2 ^ 63 then Ok n else Err range_error
  end.

(** *** [Atoi] reads what [Itoa] writes *)
Lemma digit_pretty (d : N) : (d < 10)%N → digit (pretty_N_char d) = Some (Z.of_N d).
Proof.
  intros H. assert (Hd : d ∈ [0; 1; 2; 3; 4; 5; 6; 7; 8; 9]%N).
  { rewrite !elem_of_cons. lia. }
  rewrite !elem_of_cons in Hd. by destruct_or! Hd; subst; try set_solver.
Qed.

Lemma digits_pretty_go (x : N) : ∀ s, digits 10 0 (pretty_N_go x s) = digits 10 (Z.of_N x) s.
Proof.
  induction (N.lt_wf_0 x) as [x _ IH]. intros s.
  destruct (decide (x = 0%N)) as [->|Hx]; [by rewrite pretty_N_go_0|].
  rewrite pretty_N_go_step by lia. rewrite IH by (apply N.div_lt; lia). cbn [digits].
  rewrite digit_pretty by (apply N.mod_lt; lia).
  assert ((Z.of_N (x `mod` 10) <? 10) = true) as -> by (apply Z.ltb_lt; pose proof (N.mod_lt x 10); lia).
  f_equal. pose proof (N.div_mod x 10). lia.
Qed.

Lemma digits_pretty (x : N) : digits 10 0 (pretty x) = Some (Z.of_N x).
Proof.
  unfold pretty, pretty_N. case_decide as Hx; [by subst|]. by rewrite digits_pretty_go.
Qed.

Lemma ParseUint_pretty (x : N) bits : Z.of_N x < 2 ^ bits → ParseUint (pretty x) 10 bits = Ok (Z.of_N x).
Proof.
  intros H. unfold ParseUint. pose proof (digits_pretty x) as Hd.
  destruct (pretty x) as [|a s] eqn:E.
  - injection Hd as Hx. assert (x = 0%N) as -> by lia. done.
  - rewrite Hd. by rewrite (proj2 (Z.ltb_lt _ _) H).
Qed.

Lemma Atoi_Itoa (z : Z) : - 2 ^ 63 <= z < 2 ^ 63 → Atoi (Itoa z) = Ok z.
Proof.
  intros [Hl Hh]. unfold Itoa. destruct z as [|p|p]; [done| |].
  - change (pretty (Z.pos p)) with (pretty (N.pos p)).
    assert (Hp : ParseUint (pretty (N.pos p)) 10 64 = Ok (Z.pos p)) by (apply ParseUint_pretty; lia).
    unfold Atoi. pose proof (digits_pretty (N.pos p)) as Hd.
    destruct (pretty (N.pos p)) as [|a s] eqn:E; [done|].
    assert (Ha : a ≠ "-"%char ∧ a ≠ "+"%char) by (split; intros ->; done).
    destruct Ha as [Hm Hpl]. rewrite Hp. cbn [rbind].
    assert (Hlt : (Z.pos p <? 2 ^ 63) = true) by (apply Z.ltb_lt; lia).
    rewrite Hlt. clear - Hm Hpl. destruct a as [[] [] [] [] [] [] [] []]; done.
  - change (pretty (Z.neg p)) with ("-" +:+ pretty (N.pos p)).
    change (rbind (ParseUint (pretty (N.pos p)) 10 64)
              (λ n, if n <=? 2 ^ 63 then Ok (- n) else Err range_error) = Ok (Z.neg p)).
    rewrite ParseUint_pretty by lia. cbn [rbind].
    assert ((Z.of_N (N.pos p) <=? 2 ^ 63) = true) as -> by (apply Z.leb_le; lia). done.
Qed.

Lemma digit_nonneg a d : digit a = Some d → 0 <= d.
Proof. destruct a as [[] [] [] [] [] [] [] []]; vm_compute; by intros [= <-]. Qed.

Lemma digits_nonneg base s : ∀ acc n, 0 <= base → 0 <= acc → digits base acc s = Some n → 0 <= n.
Proof.
  induction s as [|a s IH]; intros acc n Hb Ha; simpl; [by intros [= <-]|].
  destruct (digit a) as [d|] eqn:E; [|done]. apply digit_nonneg in E. destruct (d <? base); [|done]. apply IH; nia.
Qed.

Lemma ParseUint_range s base bits n : 0 <= base → ParseUint s base bits = Ok n → 0 <= n < 2 ^ bits.
Proof.
  intros Hb. unfold ParseUint. destruct s as [|a s]; [done|]. destruct (digits base 0 _) as [m|] eqn:E; [|done].
  destruct (Z.ltb_spec m (2 ^ bits)); [|done]. intros [= <-]. split; [|done].
  by eapply digits_nonneg; [exact Hb| |exact E].
Qed.

Lemma Atoi_bound s z : Atoi s = Ok z → z < 2 ^ 63.
Proof.
  assert (Hd : ∀ u, (rbind (ParseUint u 10 64) (λ n, if n <? 2 ^ 63 then Ok n else Err range_error)) = Ok z →
    z < 2 ^ 63).
  { intros u. unfold rbind. destruct (ParseUint u 10 64) as [n|]; [|done].
    destruct (Z.ltb_spec n (2 ^ 63)); [|done]. by intros [= <-]. }
  assert (Hm : ∀ u, (rbind (ParseUint u 10 64) (λ n, if n <=? 2 ^ 63 then Ok (- n) else Err range_error)) = Ok z →
    z < 2 ^ 63).
  { intros u. unfold ParseUint, rbind. destruct u as [|b u]; [done|].
    destruct (digits 10 0 _) as [n|] eqn:E; [|done].
    assert (0 <= n) by (eapply digits_nonneg; [| |exact E]; lia).
    destruct (n <? 2 ^ 64); [|done]. destruct (n <=? 2 ^ 63); [|done]. intros [= <-]. lia. }
  unfold Atoi. destruct s as [|a s]; [by apply (Hd "")|].
  destruct (decide (a = "-"%char)) as [->|]; [apply Hm|].
  destruct (decide (a = "+"%char)) as [->|]; [apply Hd|]. intros H. apply (Hd (String a s)).
  destruct a as [[] [] [] [] [] [] [] []]; done.
Qed.
End Strconv.

(** [path/filepath] where the separator is a slash. *)
Module Filepath.
Import GoStrings.
#[local] Open Scope string_scope.

Definition slash : ascii := "/".

Definition clean_step (rooted : bool) (stack : list string) (c : string) : list string :=
  if String.eqb c "" || String.eqb c "." then stack
  else if String.eqb c ".." then
    match stack with
    | top :: rest => if String.eqb top ".." then c :: stack else rest
    | [] => if rooted then [] else [c]
    end
  else c :: stack.

Definition IsAbs (path : string) : bool := HasPrefix path "/".

Definition Clean (path : string) : string :=
  let rooted := IsAbs path in
  let out := GoStrings.Join "/" (rev (fold_left (clean_step rooted) (Split slash path) [])) in
  if rooted then "/" ++ out else if String.eqb out "" then "." else out.

Definition Join (elems : list string) : string :=
  match filter (λ e, e ≠ "") elems with
  | [] => ""
  | es => Clean (GoStrings.Join "/" es)
  end.

(** The last element, trailing slashes removed. *)
Definition Base (path : string) : string :=
  if String.eqb path "" then "."
  else match rev (filter (λ c, c ≠ "") (Split slash path)) with
       | [] => "/"
       | c :: _ => c
       end.

(** What is before the last slash, that slash included, cleaned. *)
Definition Dir (path : string) : string :=
  match rev (Split slash path) with
  | _ :: (_ :: _) as front => Clean (GoStrings.Join "/" (rev front) ++ "/")
  | _ => "."
  end.
End Filepath.

(** Go's own examples of these functions. *)
Example paths_ex :
  (Filepath.Clean "/dev/../etc/./x//y", Filepath.Join ["/dev"; "../shadow"],
   map Filepath.Dir ["/a/b/c"; "/a"; "/a/b/"], map Filepath.Base ["/a/b/"; "//"; "x"])
  = ("/etc/x/y", "/shadow", ["/a/b"; "/"; "/a/b"], ["b"; "/"; "x"])%string.
Proof. reflexivity. Qed.
Example texts_ex :
  (GoStrings.TrimSpace "  a b ", GoStrings.Split ":" "1:2:", GoStrings.Cut "a=b=c" "=")
  = ("a b", ["1"; "2"; ""], Some ("a", "b=c"))%string.
Proof. reflexivity. Qed.
Example numbers_ex :
  (map Strconv.Atoi ["-12"; "+7"; ""], Strconv.ParseUint "1aF" 16 16, Strconv.ParseUint "65536" 10 16)
  = ([Ok (-12)%Z; Ok 7%Z; Err Strconv.syntax_error], Ok 431%Z, Err Strconv.range_error).
Proof. reflexivity. Qed.
