(* ===== verification/GoEncoding.v ===== *)
(** * encoding/hex and encoding/base64

    The two texts in which the command-line tool takes binary values, written
    out as the Go standard library reads them, with the encoders as reference
    and the round trips. *)
From S2P Require Import Prelude GoErrors GoText.

(** The byte of a character. *)
Definition char_of (b : Z) : ascii := Ascii.ascii_of_N (Z.to_N b).
Definition byte_of (a : ascii) : Z := Z.of_N (Ascii.N_of_ascii a).
Definition bytes_of_string (s : string) : bytes := map byte_of (String.list_ascii_of_string s).

Lemma byte_of_range a : byte_ok (byte_of a).
Proof. unfold byte_ok, byte_of. pose proof (Ascii.N_ascii_bounded a). lia. Qed.

Lemma byte_of_char b : byte_ok b → byte_of (char_of b) = b.
Proof.
  intros Hb. unfold byte_ok in Hb. unfold byte_of, char_of. rewrite Ascii.N_ascii_embedding by lia. lia.
Qed.

Lemma bytes_of_string_ok s : bytes_ok (bytes_of_string s).
Proof. unfold bytes_of_string. induction s; simpl; constructor; [apply byte_of_range|done]. Qed.

Lemma string_bytes_string s : GoStrings.string_of_bytes (bytes_of_string s) = s.
Proof.
  unfold GoStrings.string_of_bytes, bytes_of_string. induction s as [|a s IH]; [done|]. simpl. f_equal; [|done].
  unfold byte_of. rewrite N2Z.id. apply Ascii.ascii_N_embedding.
Qed.

(** The [i]-th character of an alphabet, and the index of a character. *)
Definition symbol (alphabet : string) (i : Z) : ascii := default "000"%char (String.get (Z.to_nat i) alphabet).
Fixpoint index_from (i : Z) (alphabet : string) (a : ascii) : option Z :=
  match alphabet with
  | "" => None
  | String b rest => if Ascii.eqb a b then Some i else index_from (i + 1) rest a
  end%string.

Module Hex.
#[local] Open Scope string_scope.
#[local] Open Scope Z_scope.

Definition alphabet : string := "0123456789abcdef".

(** [reverseHexTable]: letters of either case. *)
Definition nibble (a : ascii) : option Z :=
  match index_from 0 alphabet a with
  | Some n => Some n
  | None => index_from 0 "0123456789ABCDEF" a
  end.

Fixpoint DecodeString (s : string) : res bytes :=
  match s with
  | "" => Ok []
  | String p "" =>
      Err (match nibble p with Some _ => ESent "hex.ErrLength" | None => EMsg "encoding/hex: invalid byte: %#U" end)
  | String p (String q s) =>
      match nibble p, nibble q with
      | Some a, Some b => rest ←? DecodeString s; Ok (Z.lor (Z.shiftl a 4) b :: rest)
      | _, _ => Err (EMsg "encoding/hex: invalid byte: %#U")
      end
  end.

Fixpoint EncodeToString (bs : bytes) : string :=
  match bs with
  | [] => ""
  | b :: bs => String (symbol alphabet (Z.shiftr b 4)) (String (symbol alphabet (Z.land b 15)) (EncodeToString bs))
  end.

Lemma nibble_byte b : byte_ok b →
  nibble (symbol alphabet (Z.shiftr b 4)) = Some (Z.shiftr b 4) ∧
  nibble (symbol alphabet (Z.land b 15)) = Some (Z.land b 15) ∧
  Z.lor (Z.shiftl (Z.shiftr b 4) 4) (Z.land b 15) = b.
Proof.
  intros Hb.
  pose proof (byte_forall (λ b, bool_decide (
    nibble (symbol alphabet (Z.shiftr b 4)) = Some (Z.shiftr b 4) ∧
    nibble (symbol alphabet (Z.land b 15)) = Some (Z.land b 15) ∧
    Z.lor (Z.shiftl (Z.shiftr b 4) 4) (Z.land b 15) = b))) as H.
  apply (bool_decide_eq_true_1 _), (H eq_refl b Hb).
Qed.

Lemma Decode_Encode bs : bytes_ok bs → DecodeString (EncodeToString bs) = Ok bs.
Proof.
  induction 1 as [|b bs Hb _ IH]; [done|]. cbn [EncodeToString DecodeString].
  destruct (nibble_byte b Hb) as (-> & -> & E). rewrite IH. cbn [rbind]. by rewrite E.
Qed.

(** What is read as hexadecimal consists of hexadecimal digits. *)
Lemma Decode_digits : ∀ s bs, DecodeString s = Ok bs →
  Forall (λ a, is_Some (nibble a)) (String.list_ascii_of_string s).
Proof.
  fix IH 1. intros [|p [|q s]] bs; cbn [DecodeString]; [constructor|done|].
  destruct (nibble p) eqn:Hp; [|done]. destruct (nibble q) eqn:Hq; [|done].
  intros (rest & Hrest & _)%rbind_Ok. simpl. rewrite !Forall_cons. split_and!; [by eexists|by eexists|].
  by eapply IH.
Qed.
End Hex.

Module Base64.
#[local] Open Scope string_scope.
#[local] Open Scope Z_scope.

Definition alphabet : string := "ABCDEFGHIJKLMNOPQRSTUVWXYZabcdefghijklmnopqrstuvwxyz0123456789+/".
Definition pad : ascii := "=".
Definition value (a : ascii) : option Z := index_from 0 alphabet a.
Definition CorruptInputError : goerror := EMsg "illegal base64 data at input byte %d".

(** The decoder skips line ends wherever they are. *)
Fixpoint strip (s : string) : string :=
  match s with
  | "" => ""
  | String a s => if (byte_of a =? 10) || (byte_of a =? 13) then strip s else String a (strip s)
  end.

(** A quantum of four characters, or the three or two of the last one.  The
    unused low bits of the last character are ignored. *)
Definition quantum3 (a b c d : Z) : bytes :=
  let v := Z.lor (Z.lor (Z.shiftl a 18) (Z.shiftl b 12)) (Z.lor (Z.shiftl c 6) d) in
  [u8 (Z.shiftr v 16); u8 (Z.shiftr v 8); u8 v].
Definition quantum2 (a b c : Z) : bytes := take 2 (quantum3 a b c 0).
Definition quantum1 (a b : Z) : bytes := take 1 (quantum3 a b 0 0).

Definition corrupt {A} : res A := Err CorruptInputError.
Definition values2 (a b : ascii) : option (Z * Z) :=
  match value a, value b with Some x, Some y => Some (x, y) | _, _ => None end.
Definition last1 (a b : ascii) : res bytes :=
  match values2 a b with Some (x, y) => Ok (quantum1 x y) | None => corrupt end.
Definition last2 (a b c : ascii) : res bytes :=
  match values2 a b, value c with Some (x, y), Some z => Ok (quantum2 x y z) | _, _ => corrupt end.

(** [decodeQuantum] until the end of the input. *)
Fixpoint quanta (padded : bool) (s : string) : res bytes :=
  match s with
  | "" => Ok []
  | String a (String b (String c (String d s))) =>
      if padded && Ascii.eqb c pad then
        if Ascii.eqb d pad && String.eqb s "" then last1 a b else corrupt
      else if padded && Ascii.eqb d pad then
        if String.eqb s "" then last2 a b c else corrupt
      else
        match values2 a b, values2 c d with
        | Some (x, y), Some (z, t) => rest ←? quanta padded s; Ok (app (quantum3 x y z t) rest)
        | _, _ => corrupt
        end
  | String a (String b (String c "")) => if padded then corrupt else last2 a b c
  | String a (String b "") => if padded then corrupt else last1 a b
  | _ => corrupt
  end.

(** [StdEncoding.DecodeString] and [RawStdEncoding.DecodeString]. *)
Definition StdDecode (s : string) : res bytes := quanta true (strip s).
Definition RawStdDecode (s : string) : res bytes := quanta false (strip s).

(** *** The encoder, of both encodings *)
Definition sym (i : Z) : ascii := symbol alphabet (Z.land i 63).
Definition padding (padded : bool) (n : nat) : string :=
  if padded then match n with 1%nat => "=" | _ => "==" end else "".
Fixpoint Encode (padded : bool) (bs : bytes) : string :=
  match bs with
  | [] => ""
  | [x] => String (sym (Z.shiftr x 2)) (String (sym (Z.shiftl x 4)) (padding padded 2))
  | [x; y] =>
      String (sym (Z.shiftr x 2)) (String (sym (Z.lor (Z.shiftl x 4) (Z.shiftr y 4)))
        (String (sym (Z.shiftl y 2)) (padding padded 1)))
  | x :: y :: z :: bs =>
      String (sym (Z.shiftr x 2)) (String (sym (Z.lor (Z.shiftl x 4) (Z.shiftr y 4)))
        (String (sym (Z.lor (Z.shiftl y 2) (Z.shiftr z 6))) (String (sym z) (Encode padded bs))))
  end.

(** *** Round trip *)
Ltac euclid := unfold byte_ok in *; Z.to_euclidean_division_equations; lia.

Lemma low6 i : Z.land i 63 = i mod 64.
Proof. change 63 with (Z.ones 6). by rewrite Z.land_ones. Qed.
Lemma top x : Z.shiftr x 2 = x / 4.
Proof. by rewrite Z.shiftr_div_pow2. Qed.
Lemma mid x y : byte_ok y → Z.lor (Z.shiftl x 4) (Z.shiftr y 4) = y / 16 + x * 16.
Proof.
  intros Hy. rewrite Z.lor_comm, (Z.shiftr_div_pow2 y) by lia. rewrite (lor_shiftl_add 4); [done|lia|].
  change (2 ^ 4) with 16. euclid.
Qed.
Lemma mid2 y z : byte_ok z → Z.lor (Z.shiftl y 2) (Z.shiftr z 6) = z / 64 + y * 4.
Proof.
  intros Hz. rewrite Z.lor_comm, (Z.shiftr_div_pow2 z) by lia. rewrite (lor_shiftl_add 2); [done|lia|].
  change (2 ^ 2) with 4. change (2 ^ 6) with 64. euclid.
Qed.

Lemma quantum3_val a b c d : 0 <= a < 64 → 0 <= b < 64 → 0 <= c < 64 → 0 <= d < 64 →
  quantum3 a b c d = [a * 4 + b / 16; b mod 16 * 16 + c / 4; c mod 4 * 64 + d].
Proof.
  intros. unfold quantum3.
  assert (Z.lor (Z.lor (Z.shiftl a 18) (Z.shiftl b 12)) (Z.lor (Z.shiftl c 6) d)
          = d + c * 64 + (b + a * 64) * 4096) as ->.
  { rewrite (Z.lor_comm (Z.shiftl c 6)), (lor_shiftl_add 6) by (simpl; lia).
    replace (Z.shiftl a 18) with (Z.shiftl (Z.shiftl a 6) 12) by (by rewrite Z.shiftl_shiftl by lia).
    rewrite <-Z.shiftl_lor, Z.lor_comm, (lor_shiftl_add 12) by (simpl; lia).
    rewrite (Z.lor_comm (Z.shiftl a 6)), (lor_shiftl_add 6) by (simpl; lia). done. }
  unfold u8, wrap. rewrite !Z.shiftr_div_pow2 by lia.
  change (2 ^ 16) with 65536. change (2 ^ 8) with 256. f_equal; [|f_equal; [|f_equal]]; euclid.
Qed.

Lemma quantum3_bytes x y z : byte_ok x → byte_ok y → byte_ok z →
  quantum3 (x / 4 mod 64) ((y / 16 + x * 16) mod 64) ((z / 64 + y * 4) mod 64) (z mod 64) = [x; y; z].
Proof.
  intros. rewrite quantum3_val by (apply Z.mod_pos_bound; lia). f_equal; [|f_equal; [|f_equal]]; euclid.
Qed.

Lemma sextets (P : Z → bool) :
  forallb P (map Z.of_nat (seq 0 64)) = true → ∀ i, P (i mod 64) = true.
Proof.
  intros H i. rewrite forallb_forall in H. apply H, in_map_iff. exists (Z.to_nat (i mod 64)).
  pose proof (Z.mod_pos_bound i 64). split; [lia|]. apply in_seq. lia.
Qed.

(** A symbol of the encoder: no line end, no padding, and its value. *)
Lemma sym_spec i : value (sym i) = Some (i mod 64) ∧ Ascii.eqb (sym i) pad = false ∧
  ((byte_of (sym i) =? 10) || (byte_of (sym i) =? 13)) = false.
Proof.
  unfold sym. rewrite low6. pose proof (sextets (λ j,
    bool_decide (value (symbol alphabet j) = Some j ∧ Ascii.eqb (symbol alphabet j) pad = false ∧
      ((byte_of (symbol alphabet j) =? 10) || (byte_of (symbol alphabet j) =? 13)) = false))) as H.
  apply (bool_decide_eq_true_1 _), (H eq_refl i).
Qed.

Lemma strip_sym i s : strip (String (sym i) s) = String (sym i) (strip s).
Proof. cbn [strip]. by rewrite (proj2 (proj2 (sym_spec i))). Qed.
Lemma value_sym i : value (sym i) = Some (i mod 64).
Proof. apply sym_spec. Qed.
Lemma sym_pad i : Ascii.eqb (sym i) pad = false.
Proof. apply sym_spec. Qed.
Ltac b64 := rewrite ?strip_sym, ?value_sym, ?sym_pad, ?andb_false_r, ?top.

(** Induction by groups of three. *)
Lemma by_threes (P : bytes → Prop) :
  P [] → (∀ x, P [x]) → (∀ x y, P [x; y]) → (∀ x y z bs, P bs → P (x :: y :: z :: bs)) → ∀ bs, P bs.
Proof. intros H0 H1 H2 H3. fix IH 1. intros [|x [|y [|z bs]]]; [auto..|apply H3, IH]. Qed.

Lemma strip_Encode padded : ∀ bs, strip (Encode padded bs) = Encode padded bs.
Proof.
  apply by_threes; [done|intros x|intros x y|intros x y z bs IH]; cbn [Encode]; b64;
    [by destruct padded..|by rewrite IH].
Qed.

Lemma quanta_end2 a b c : Ascii.eqb c pad = false →
  quanta true (String a (String b (String c (padding true 1)))) = last2 a b c.
Proof. intros Hc. cbn [padding quanta andb]. by rewrite Hc. Qed.

Definition group (x y z : Z) (s : string) : string :=
  String (sym (Z.shiftr x 2)) (String (sym (Z.lor (Z.shiftl x 4) (Z.shiftr y 4)))
    (String (sym (Z.lor (Z.shiftl y 2) (Z.shiftr z 6))) (String (sym z) s))).
Lemma Encode_group padded x y z bs : Encode padded (x :: y :: z :: bs) = group x y z (Encode padded bs).
Proof. reflexivity. Qed.
Lemma quanta_group padded x y z s : byte_ok x → byte_ok y → byte_ok z →
  quanta padded (group x y z s) = rbind (quanta padded s) (λ rest, Ok (x :: y :: z :: rest)).
Proof.
  intros. unfold group. rewrite mid, mid2 by done. cbn [quanta]. b64. unfold values2. b64.
  by rewrite quantum3_bytes.
Qed.

Lemma quanta_Encode padded : ∀ bs, bytes_ok bs → quanta padded (Encode padded bs) = Ok bs.
Proof.
  assert (H0 : byte_ok 0) by (unfold byte_ok; lia).
  apply (by_threes (λ bs, bytes_ok bs → quanta padded (Encode padded bs) = Ok bs)); [done|..];
    [intros x Hbs|intros x y Hbs|intros x y z bs IH Hbs]; unfold bytes_ok in Hbs;
    rewrite ?Forall_cons in Hbs; destruct_and? Hbs.
  - assert (Hv : last1 (sym (Z.shiftr x 2)) (sym (Z.shiftl x 4)) = Ok [x]).
    { unfold last1, values2. b64. unfold quantum1. f_equal.
      rewrite (Z.shiftl_mul_pow2 x 4) by lia. change (2 ^ 4) with 16.
      rewrite quantum3_val by (try apply Z.mod_pos_bound; lia). cbn [take]. f_equal. euclid. }
    destruct padded; [exact Hv|exact Hv].
  - assert (Hv : last2 (sym (Z.shiftr x 2)) (sym (Z.lor (Z.shiftl x 4) (Z.shiftr y 4))) (sym (Z.shiftl y 2)) = Ok [x; y]).
    { unfold last2, values2. rewrite mid by done. b64. unfold quantum2. f_equal.
      rewrite (Z.shiftl_mul_pow2 y 2) by lia. change (2 ^ 2) with 4.
      rewrite quantum3_val by (try apply Z.mod_pos_bound; lia). cbn [take]. f_equal; [|f_equal]; euclid. }
    destruct padded; [cbn [Encode]; rewrite quanta_end2 by apply sym_pad; exact Hv|exact Hv].
  - rewrite Encode_group, quanta_group by done. by rewrite IH.
Qed.

Lemma StdDecode_Encode bs : bytes_ok bs → StdDecode (Encode true bs) = Ok bs.
Proof. intros. unfold StdDecode. by rewrite strip_Encode, quanta_Encode. Qed.
Lemma RawStdDecode_Encode bs : bytes_ok bs → RawStdDecode (Encode false bs) = Ok bs.
Proof. intros. unfold RawStdDecode. by rewrite strip_Encode, quanta_Encode. Qed.

(** The padded decoder takes no unpadded text, but of whole quanta. *)
Lemma StdDecode_Raw bs : bytes_ok bs →
  StdDecode (Encode false bs) = Ok bs ∨ StdDecode (Encode false bs) = corrupt.
Proof.
  unfold StdDecode. rewrite strip_Encode. revert bs.
  apply (by_threes (λ bs, bytes_ok bs → quanta true (Encode false bs) = Ok bs ∨
    quanta true (Encode false bs) = corrupt)); [by left|by right|by right|].
  intros x y z bs IH (Hx & (Hy & (Hz & Hbs)%Forall_cons)%Forall_cons)%Forall_cons.
  rewrite Encode_group, quanta_group by done. destruct (IH Hbs) as [->| ->]; [by left|by right].
Qed.
End Base64.
