(* ===== verification/WireHID.v ===== *)
(** * CTAPHID framing: src/pkg/wire/hid/codec.go

    A [Codec] splits a payload into reports of [reportSize] bytes: an
    initialization packet (channel, command, length) and continuation packets
    (channel, sequence).  An [Assembler] rebuilds one payload. *)
From S2P Require Import Prelude GoErrors.

Module HidCodec.
Record Codec := MkCodec { channel : Z; command : Z; reportSize : Z }.

Record Assembler := MkAssembler {
  codec : Codec;
  started : bool;
  done_ : bool;
  total : Z;
  nextSeq : Z;
  buffer : bytes;
}.

Definition fail {A} (sentinel : string) : res A :=
  Err (EFmt "wire/hid: %w" [ESent sentinel]).

Definition min (left right : Z) : Z := if left <? right then left else right.

Definition maxContinuationPackets : Z := 128.
Definition maxPayloadSize (reportSize : Z) : Z :=
  (reportSize - 7) + maxContinuationPackets * (reportSize - 5).

Definition NewCodec (channel command reportSize : Z) : res Codec :=
  if reportSize <=? 7 then fail "wire/hid.errInvalidReportSize"
  else if Z.land command 0x80 =? 0 then fail "wire/hid.errInvalidCommand"
  else Ok (MkCodec channel command reportSize).

(** The continuation loop of [Fragment]; [fuel] bounds its iterations and
    the length of [remaining] is enough, each turn consuming a byte. *)
Fixpoint continuation (fuel : nat) (c : Codec) (sequence : Z) (remaining : bytes) : list bytes :=
  match fuel with
  | O => []
  | S fuel =>
      if 0 <? len remaining then
        let chunkSize := Z.to_nat (min (len remaining) (reportSize c - 5)) in
        (put_u32 (channel c) ++ [sequence] ++
           pad_to (Z.to_nat (reportSize c - 5)) (take chunkSize remaining))
        :: continuation fuel c (u8 (sequence + 1)) (drop chunkSize remaining)
      else []
  end.

Definition Fragment (c : Codec) (payload : bytes) : res (list bytes) :=
  if (maxPayloadSize (reportSize c) <? len payload) || (65535 <? len payload)
  then fail "wire/hid.ErrPayloadTooLarge"
  else
    let firstSize := Z.to_nat (min (len payload) (reportSize c - 7)) in
    let initial :=
      put_u32 (channel c) ++ [command c] ++ put_u16 (u16 (len payload)) ++
        pad_to (Z.to_nat (reportSize c - 7)) (take firstSize payload) in
    let remaining := drop firstSize payload in
    Ok (initial :: continuation (length remaining) c 0 remaining).

Definition NewAssembler (c : Codec) : Assembler :=
  MkAssembler c false false (-1) 0 [].

(** [Add] checks everything before its first assignment, so an error leaves
    the assembler as it was. *)
Definition Add (a : Assembler) (packet : bytes) : res Assembler :=
  if done_ a then fail "wire/hid.errInvalidPacket"
  else if negb (len packet =? reportSize (codec a)) then fail "wire/hid.errInvalidPacket"
  else if negb (get_u32 (take 4 packet) =? channel (codec a))
  then fail "wire/hid.errMismatchedChannel"
  else if negb (started a) then
    if negb (packet !!! 4%nat =? command (codec a)) then fail "wire/hid.errUnexpectedCommand"
    else
      let total := get_u16 (slice 5 7 packet) in
      let chunkSize := min total (len packet - 7) in
      let buffer := buffer a ++ take (Z.to_nat chunkSize) (drop 7 packet) in
      Ok (MkAssembler (codec a) true (total <=? len buffer) total (nextSeq a) buffer)
  else if negb (packet !!! 4%nat =? nextSeq a) then fail "wire/hid.errUnexpectedSeq"
  else
    let remaining := total a - len (buffer a) in
    let chunkSize := min remaining (len packet - 5) in
    let buffer := buffer a ++ take (Z.to_nat chunkSize) (drop 5 packet) in
    Ok (MkAssembler (codec a) (started a) (total a <=? len buffer) (total a)
          (u8 (nextSeq a + 1)) buffer).

Definition Done (a : Assembler) : bool := done_ a.

Definition Payload (a : Assembler) : res bytes :=
  if negb (done_ a) then fail "wire/hid.errIncompletePayload"
  else Ok (take (Z.to_nat (total a)) (buffer a)).

(** The readers' loop: packets are added in order. *)
Fixpoint AddAll (a : Assembler) (packets : list bytes) : res Assembler :=
  match packets with
  | [] => Ok a
  | p :: packets => a ←? Add a p; AddAll a packets
  end.

(** A codec as [NewCodec] returns it for a 32-bit channel and a byte. *)
Definition codec_ok (c : Codec) : Prop :=
  0 <= channel c < 2 ^ 32 ∧ byte_ok (command c) ∧ 7 < reportSize c ∧
  Z.land (command c) 0x80 ≠ 0.
End HidCodec.

Module HidCodecFacts.
Import HidCodec.

Lemma min_spec l r : min l r = Z.min l r.
Proof. unfold min. destruct (Z.ltb_spec l r); lia. Qed.

Lemma NewCodec_ok ch cmd rs c :
  0 <= ch < 2 ^ 32 → byte_ok cmd → NewCodec ch cmd rs = Ok c →
  codec_ok c ∧ c = MkCodec ch cmd rs.
Proof.
  unfold NewCodec. intros Hch Hcmd.
  destruct (Z.leb_spec rs 7); [done|]. destruct (Z.eqb_spec (Z.land cmd 128) 0); [done|].
  intros [= <-]. unfold codec_ok; simpl. auto.
Qed.

(** The two packet shapes. *)
Definition init_packet (c : Codec) (total : Z) (chunk : bytes) : bytes :=
  put_u32 (channel c) ++ [command c] ++ put_u16 (u16 total) ++
    pad_to (Z.to_nat (reportSize c - 7)) chunk.
Definition cont_packet (c : Codec) (seq : Z) (chunk : bytes) : bytes :=
  put_u32 (channel c) ++ [seq] ++ pad_to (Z.to_nat (reportSize c - 5)) chunk.

Lemma len_init_packet c t chunk : 7 < reportSize c → len (init_packet c t chunk) = reportSize c.
Proof.
  intros. unfold init_packet, put_u32, put_u16.
  autorewrite with lens. rewrite len_pad_to; lia.
Qed.

Lemma len_cont_packet c s chunk : 7 < reportSize c → len (cont_packet c s chunk) = reportSize c.
Proof.
  intros. unfold cont_packet, put_u32. autorewrite with lens. rewrite len_pad_to; lia.
Qed.

Lemma channel_packet c rest :
  codec_ok c → get_u32 (take 4 (put_u32 (channel c) ++ rest)) = channel c.
Proof.
  intros (Hch & _). change 4%nat with (length (put_u32 (channel c))).
  rewrite take_app_length, <-(app_nil_r (put_u32 _)). by apply get_put_u32.
Qed.

(** The fields a receiver reads back. *)
Lemma init_fields c t chunk :
  codec_ok c → 0 <= t <= 65535 →
  get_u32 (take 4 (init_packet c t chunk)) = channel c ∧
  init_packet c t chunk !!! 4%nat = command c ∧
  get_u16 (slice 5 7 (init_packet c t chunk)) = t ∧
  drop 7 (init_packet c t chunk) = pad_to (Z.to_nat (reportSize c - 7)) chunk.
Proof.
  intros Hc Ht. split_and!; try done.
  - by apply channel_packet.
  - change (slice 5 7 _) with (put_u16 (u16 t)).
    rewrite <-(app_nil_r (put_u16 _)), u16_small, get_put_u16; lia.
Qed.

Lemma cont_fields c seq chunk :
  codec_ok c →
  get_u32 (take 4 (cont_packet c seq chunk)) = channel c ∧
  cont_packet c seq chunk !!! 4%nat = seq ∧
  drop 5 (cont_packet c seq chunk) = pad_to (Z.to_nat (reportSize c - 5)) chunk.
Proof. intros Hc. split_and!; try done. by apply channel_packet. Qed.

(** [Add] on an initialization packet of this codec. *)
Lemma Add_init_packet c t chunk :
  codec_ok c → 0 <= t <= 65535 → len chunk = Z.min t (reportSize c - 7) →
  Add (NewAssembler c) (init_packet c t chunk) =
    Ok (MkAssembler c true (t <=? len chunk) t 0 chunk).
Proof.
  intros Hc Ht Hlen. destruct (init_fields c t chunk Hc Ht) as (Hch & Hcmd & Htot & Hbody).
  assert (7 < reportSize c) by apply Hc.
  unfold Add; cbn [done_ codec NewAssembler started buffer nextSeq].
  rewrite len_init_packet, Hch, Hcmd, Htot, Hbody, !Z.eqb_refl, !min_spec by done.
  cbn [negb app]. rewrite take_pad_to by (unfold len in *; lia). done.
Qed.

(** [Add] on the continuation packet it expects. *)
Lemma Add_cont_packet c t seq buf chunk :
  codec_ok c → len buf < t → len chunk = Z.min (t - len buf) (reportSize c - 5) →
  Add (MkAssembler c true false t seq buf) (cont_packet c seq chunk) =
    Ok (MkAssembler c true (t <=? len (buf ++ chunk)) t (u8 (seq + 1)) (buf ++ chunk)).
Proof.
  intros Hc Ht Hlen. destruct (cont_fields c seq chunk Hc) as (Hch & Hseq & Hbody).
  assert (7 < reportSize c) by apply Hc.
  unfold Add; cbn [done_ codec started buffer nextSeq total].
  rewrite len_cont_packet, Hch, Hseq, Hbody, !Z.eqb_refl, !min_spec by done.
  cbn [negb]. rewrite take_pad_to by (unfold len in *; lia). done.
Qed.

(** [feeds a ps a']: a reader that stops when the assembler is done takes
    exactly the packets [ps], and ends with [a']. *)
Inductive feeds : Assembler → list bytes → Assembler → Prop :=
  | feeds_done a : Done a = true → feeds a [] a
  | feeds_add a p a1 ps a' :
      Done a = false → Add a p = Ok a1 → feeds a1 ps a' → feeds a (p :: ps) a'.

Lemma feeds_AddAll a ps a' :
  feeds a ps a' →
  AddAll a ps = Ok a' ∧ Done a' = true ∧
  (∀ k b, (k < length ps)%nat → AddAll a (take k ps) = Ok b → Done b = false).
Proof.
  induction 1 as [a Hd|a p a1 ps a' Hd Hadd Hf (IH1 & IH2 & IH3)].
  - split_and!; try done. simpl; lia.
  - split_and!; [simpl; by rewrite Hadd|done|].
    intros [|k] b Hk; simpl; [by intros [= <-]|]. rewrite Hadd. simpl in Hk. apply IH3. lia.
Qed.

(** One turn of the continuation loop. *)
Lemma continuation_cons fuel c seq rem :
  7 < reportSize c → rem ≠ [] →
  let n := Z.to_nat (Z.min (len rem) (reportSize c - 5)) in
  continuation (S fuel) c seq rem =
    cont_packet c seq (take n rem) :: continuation fuel c (u8 (seq + 1)) (drop n rem).
Proof.
  intros Hrs Hne n. cbn [continuation].
  assert (0 < len rem) by (destruct rem; [done|rewrite len_cons; pose proof (len_nonneg rem); lia]).
  destruct (Z.ltb_spec 0 (len rem)); [|lia]. by rewrite min_spec.
Qed.

Lemma continuation_nil fuel c seq : continuation fuel c seq [] = [].
Proof. by destruct fuel. Qed.

(** The continuation packets bring the assembler to the whole payload, and
    not before the last of them. *)
Lemma feeds_continuation fuel : ∀ c t seq buf rem,
  codec_ok c → (length rem ≤ fuel)%nat → t = len buf + len rem → rem ≠ [] →
  ∃ seq', feeds (MkAssembler c true false t seq buf) (continuation fuel c seq rem)
                (MkAssembler c true true t seq' (buf ++ rem)).
Proof.
  induction fuel as [|fuel IH]; intros c t seq buf rem Hc Hfuel Ht Hne.
  { destruct rem; simpl in *; [done|lia]. }
  pose proof Hc as (_ & _ & Hrs & _).
  rewrite continuation_cons by done.
  set (n := Z.to_nat (Z.min (len rem) (reportSize c - 5))).
  assert (Hpos : 0 < len rem) by (pose proof (len_nonneg rem); rewrite <-len_zero in Hne; lia).
  assert (Hlen : len (take n rem) = Z.min (len rem) (reportSize c - 5)) by (apply len_take; lia).
  assert (Hadd := Add_cont_packet c t seq buf (take n rem) Hc ltac:(lia) ltac:(lia)).
  assert (Hsplit : buf ++ rem = (buf ++ take n rem) ++ drop n rem)
    by (by rewrite <-app_assoc, take_drop).
  destruct (decide (drop n rem = [])) as [Hend|Hmore].
  - rewrite Hend, continuation_nil. rewrite Hend, app_nil_r in Hsplit.
    rewrite (proj2 (Z.leb_le _ _)), <-Hsplit in Hadd
      by (rewrite <-Hsplit, len_app; lia).
    eexists. eapply feeds_add; [done|exact Hadd|by apply feeds_done].
  - assert (Hdrop : len (drop n rem) = len rem - Z.min (len rem) (reportSize c - 5))
      by (apply len_drop; lia).
    assert (0 < len (drop n rem))
      by (pose proof (len_nonneg (drop n rem)); rewrite <-len_zero in Hmore; lia).
    rewrite (proj2 (Z.leb_gt _ _)) in Hadd by (rewrite len_app; lia).
    destruct (IH c t (u8 (seq + 1)) (buf ++ take n rem) (drop n rem)) as [s' Hs']; try done.
    { unfold len in *; lia. } { rewrite len_app; lia. }
    exists s'. rewrite Hsplit. by eapply feeds_add.
Qed.

Lemma Fragment_Ok c payload packets :
  7 < reportSize c → Fragment c payload = Ok packets →
  let chunk := take (Z.to_nat (Z.min (len payload) (reportSize c - 7))) payload in
  let rem := drop (Z.to_nat (Z.min (len payload) (reportSize c - 7))) payload in
  len payload <= maxPayloadSize (reportSize c) ∧ len payload <= 65535 ∧
  len chunk = Z.min (len payload) (reportSize c - 7) ∧
  packets = init_packet c (len payload) chunk :: continuation (length rem) c 0 rem.
Proof.
  intros Hrs HF chunk rem. unfold Fragment in HF.
  destruct (Z.ltb_spec (maxPayloadSize (reportSize c)) (len payload)); [done|].
  destruct (Z.ltb_spec 65535 (len payload)); [done|].
  cbn [orb] in HF. rewrite min_spec in HF. simplify_eq.
  pose proof (len_nonneg payload). split_and!; try done. apply len_take. lia.
Qed.

(** The packets of a payload feed a fresh assembler up to the payload. *)
Lemma fragment_feeds c payload packets :
  codec_ok c → Fragment c payload = Ok packets →
  ∃ a, feeds (NewAssembler c) packets a ∧ Payload a = Ok payload.
Proof.
  intros Hc HF. assert (Hrs : 7 < reportSize c) by apply Hc.
  destruct (Fragment_Ok _ _ _ Hrs HF) as (_ & Hmax & Hchunk & ->).
  set (n := Z.to_nat (Z.min (len payload) (reportSize c - 7))) in *.
  pose proof (len_nonneg payload).
  assert (Hadd := Add_init_packet c (len payload) (take n payload) Hc ltac:(lia) Hchunk).
  assert (Hpl : payload = take n payload ++ drop n payload) by (by rewrite take_drop).
  destruct (decide (drop n payload = [])) as [Hend|Hmore].
  - rewrite Hend, continuation_nil. rewrite Hend, app_nil_r in Hpl.
    rewrite (proj2 (Z.leb_le _ _)) in Hadd by (rewrite <-Hpl; lia).
    eexists. split; [eapply feeds_add; [done|exact Hadd|by apply feeds_done]|].
    unfold Payload; simpl. rewrite <-Hpl, take_ge by (unfold len; lia). done.
  - assert (Hd : 0 < len (drop n payload))
      by (pose proof (len_nonneg (drop n payload)); rewrite <-len_zero in Hmore; lia).
    assert (Hl : len payload = len (take n payload) + len (drop n payload))
      by (by rewrite <-len_app, take_drop).
    rewrite (proj2 (Z.leb_gt _ _)) in Hadd by lia.
    destruct (feeds_continuation (length (drop n payload)) c (len payload) 0
                (take n payload) (drop n payload) Hc ltac:(lia) Hl Hmore) as [s Hs].
    eexists. split; [by eapply feeds_add|].
    unfold Payload; simpl. rewrite take_drop, take_ge by (unfold len; lia). done.
Qed.
End HidCodecFacts.

Module HidCodecProps.
Import HidCodec HidCodecFacts.

(** C16: [Fragment] followed by [Add] is the identity on payloads: every
    accepted payload is cut into packets which, added in order to a fresh
    assembler of the same codec, give the payload back; the assembler is
    done after the last packet and not before it, so a reader takes exactly
    the packets that were sent. *)
Theorem fragment_assemble (c : Codec) (payload : bytes) (packets : list bytes) :
  codec_ok c → Fragment c payload = Ok packets →
  (∃ a, AddAll (NewAssembler c) packets = Ok a ∧ Done a = true ∧ Payload a = Ok payload) ∧
  (∀ k a, (k < length packets)%nat → AddAll (NewAssembler c) (take k packets) = Ok a →
     Done a = false).
Proof.
  intros Hc HF. destruct (fragment_feeds c payload packets Hc HF) as (a & Hf & Hp).
  apply feeds_AddAll in Hf as (Hall & Hdone & Hbefore). eauto.
Qed.

Lemma fragment_assemble_witness :
  ∃ a, AddAll (NewAssembler (MkCodec 7 0x90 10)) 
         [[0;0;0;7;144;0;9;1;2;3]; [0;0;0;7;0;4;5;6;7;8]; [0;0;0;7;1;9;0;0;0;0]] = Ok a ∧
       Done a = true ∧ Payload a = Ok [1;2;3;4;5;6;7;8;9].
Proof.
  apply (fragment_assemble (MkCodec 7 0x90 10) [1;2;3;4;5;6;7;8;9]); [|vm_compute; reflexivity].
  unfold codec_ok, byte_ok; simpl. split_and!; first [lia | done].
Defined.

(** The shape of the packets the loop builds: [m] packets are enough for
    [m] full bodies, and the sequence byte does not wrap within 128. *)
Lemma continuation_shape fuel : ∀ c seq rem m,
  codec_ok c → 0 <= seq → 0 <= m → seq + m <= 128 → len rem <= m * (reportSize c - 5) →
  Forall (λ p, len p = reportSize c) (continuation fuel c seq rem) ∧
  len (continuation fuel c seq rem) <= m ∧
  (∀ i p, continuation fuel c seq rem !! i = Some p →
     get_u32 (take 4 p) = channel c ∧ p !!! 4%nat = seq + Z.of_nat i).
Proof.
  induction fuel as [|fuel IH]; intros c seq rem m Hc Hseq Hm Hsm Hlen.
  { split_and!; [constructor|done|done]. }
  assert (Hrs : 7 < reportSize c) by apply Hc.
  destruct (decide (rem = [])) as [->|Hne].
  { rewrite continuation_nil. split_and!; [constructor|done|done]. }
  rewrite continuation_cons by done.
  set (n := Z.to_nat (Z.min (len rem) (reportSize c - 5))).
  assert (0 < len rem) by (pose proof (len_nonneg rem); rewrite <-len_zero in Hne; lia).
  assert (1 <= m) by nia.
  assert (Hu : u8 (seq + 1) = seq + 1) by (apply u8_small; lia).
  assert (Hd : len (drop n rem) = len rem - Z.min (len rem) (reportSize c - 5))
    by (apply len_drop; lia).
  destruct (IH c (u8 (seq + 1)) (drop n rem) (m - 1)) as (H1 & H2 & H3);
    try rewrite Hu; try done; try lia; [nia|].
  rewrite Hu in *. split_and!.
  - constructor; [by apply len_cont_packet|done].
  - rewrite len_cons. lia.
  - intros [|i] p; simpl.
    + intros [= <-]. destruct (cont_fields c seq (take n rem) Hc) as (? & Hs & _).
      split; [done|]. rewrite Hs. lia.
    + intros Hi. destruct (H3 i p Hi) as [? ->]. split; [done|lia].
Qed.

(** C?: what [Fragment] puts on the wire.  It fails exactly on payloads over
    the framing limits; otherwise every packet has the report size and the
    codec's channel, the first one carries the command byte and the length,
    the i-th continuation carries sequence number i, and there are at most
    128 of them: the byte counter never wraps, and a sequence byte never has
    the bit that marks a command. *)
Theorem fragment_shape (c : Codec) (payload : bytes) :
  codec_ok c →
  ((∃ e, Fragment c payload = Err e) ↔
     (reportSize c - 7) + 128 * (reportSize c - 5) < len payload ∨ 65535 < len payload) ∧
  (∀ packets, Fragment c payload = Ok packets →
     Forall (λ p, len p = reportSize c ∧ get_u32 (take 4 p) = channel c) packets ∧
     (∃ first rest, packets = first :: rest ∧
        first !!! 4%nat = command c ∧ get_u16 (slice 5 7 first) = len payload ∧
        len rest <= 128 ∧
        ∀ i p, rest !! i = Some p → p !!! 4%nat = Z.of_nat i ∧ Z.land (p !!! 4%nat) 0x80 = 0)).
Proof.
  intros Hc. assert (Hrs : 7 < reportSize c) by apply Hc. split.
  - unfold Fragment, maxPayloadSize, maxContinuationPackets, fail.
    destruct (Z.ltb_spec (reportSize c - 7 + 128 * (reportSize c - 5)) (len payload));
      [simpl; split; [lia|eauto]|].
    destruct (Z.ltb_spec 65535 (len payload)); simpl;
      (split; [intros [? ?]; simplify_eq; lia | intros; first [lia | eauto]]).
  - intros packets HF.
    destruct (Fragment_Ok _ _ _ Hrs HF) as (Hmax & H16 & Hchunk & ->).
    set (n := Z.to_nat (Z.min (len payload) (reportSize c - 7))) in *.
    pose proof (len_nonneg payload).
    assert (Hd : len (drop n payload) = len payload - Z.min (len payload) (reportSize c - 7))
      by (apply len_drop; lia).
    unfold maxPayloadSize, maxContinuationPackets in Hmax.
    destruct (continuation_shape (length (drop n payload)) c 0 (drop n payload) 128)
      as (H1 & H2 & H3); try done; try lia.
    destruct (init_fields c (len payload) (take n payload) Hc ltac:(lia)) as (Hch & Hcmd & Ht & _).
    split.
    + constructor; [by rewrite len_init_packet|].
      apply Forall_lookup. intros i p Hi. split; [by eapply Forall_lookup in H1|]. by apply (H3 i).
    + eexists _, _. split; [done|]. split_and!; try done.
      intros i p Hi. destruct (H3 i p Hi) as [_ Hs].
      assert (Z.of_nat i < 128) by (apply lookup_lt_Some in Hi; unfold len in H2; lia).
      split; [lia|]. rewrite Hs.
      apply (land_pow2_small _ 7); lia.
Qed.

Lemma fragment_shape_witness :
  Fragment (MkCodec 7 0x90 10) [1;2;3;4] =
    Ok [[0;0;0;7;144;0;4;1;2;3]; [0;0;0;7;0;4;0;0;0;0]] ∧
  Forall (λ p, len p = 10 ∧ get_u32 (take 4 p) = 7)
    [[0;0;0;7;144;0;4;1;2;3]; [0;0;0;7;0;4;0;0;0;0]].
Proof.
  split; [vm_compute; reflexivity|].
  apply (fragment_shape (MkCodec 7 0x90 10) [1;2;3;4]); [|vm_compute; reflexivity].
  unfold codec_ok, byte_ok; simpl. split_and!; first [lia | done].
Defined.

Lemma Add_started a p a' :
  started a = true → 5 <= reportSize (codec a) → 0 <= len (buffer a) <= total a →
  Add a p = Ok a' →
  done_ a = false ∧ len p = reportSize (codec a) ∧ get_u32 (take 4 p) = channel (codec a) ∧
  p !!! 4%nat = nextSeq a ∧
  a' = MkAssembler (codec a) true
         (total a <=? len (take (Z.to_nat (total a)) (buffer a ++ drop 5 p))) (total a)
         (u8 (nextSeq a + 1)) (take (Z.to_nat (total a)) (buffer a ++ drop 5 p)).
Proof.
  unfold Add, fail. intros Hst Hrs Hbuf. rewrite Hst.
  destruct (done_ a); [done|]. destruct (Z.eqb_spec (len p) (reportSize (codec a))) as [Hl|]; [|done].
  destruct (Z.eqb_spec (get_u32 (take 4 p)) (channel (codec a))); [|done]. cbn [negb].
  destruct (Z.eqb_spec (p !!! 4%nat) (nextSeq a)); [|done]. cbn [negb].
  intros [= <-]. rewrite min_spec. split_and!; try done.
  assert (Htake : take (Z.to_nat (Z.min (total a - len (buffer a)) (len p - 5))) (drop 5 p)
    = take ((Z.to_nat (total a) - length (buffer a)) `min` Z.to_nat (len p - 5)) (drop 5 p))
    by (f_equal; unfold len in *; lia).
  rewrite Htake, take_fill; [done|unfold len in *; lia|].
  right. rewrite length_drop. unfold len in *; lia.
Qed.

Lemma AddAll_started ps : ∀ a a',
  started a = true → 5 <= reportSize (codec a) → 0 <= len (buffer a) <= total a →
  AddAll a ps = Ok a' →
  codec a' = codec a ∧ total a' = total a ∧
  done_ a' = (match ps with [] => done_ a | _ => total a <=? len (buffer a') end) ∧
  buffer a' = take (Z.to_nat (total a)) (buffer a ++ concat (map (drop 5) ps)) ∧
  Forall (λ p, len p = reportSize (codec a) ∧ get_u32 (take 4 p) = channel (codec a)) ps ∧
  (∀ i p, ps !! i = Some p → p !!! 4%nat = u8 (nextSeq a + Z.of_nat i) ∨ i = 0%nat ∧ p !!! 4%nat = nextSeq a).
Proof.
  induction ps as [|p ps IH]; intros a a' Hst Hrs Hbuf; cbn [AddAll].
  { intros [= <-]. rewrite app_nil_r, take_ge by (unfold len in *; lia).
    split_and!; try done. }
  intros (a1 & Hadd & Hall)%rbind_Ok.
  destruct (Add_started _ _ _ Hst Hrs Hbuf Hadd) as (Hdone & Hlen & Hch & Hseq & ->).
  set (buf1 := take _ _) in *.
  assert (Hb1 : 0 <= len buf1 <= total a)
    by (unfold buf1, len in *; rewrite length_take; lia).
  apply IH in Hall as (Hc & Ht & Hd & Hb & Hf & Hs); simpl in *; try done.
  split_and!; try done.
  - destruct ps; [|done]. rewrite Hd. f_equal. f_equal. rewrite Hb.
    simpl. rewrite app_nil_r, take_ge; [done|]. unfold len in *; lia.
  - rewrite Hb. unfold buf1. by rewrite take_take_app, <-app_assoc.
  - constructor; done.
  - intros [|i] q; simpl; [intros [= <-]; auto|]. intros Hq. left.
    destruct (Hs i q Hq) as [->|[-> ->]].
    + unfold u8, wrap. rewrite Zplus_mod_idemp_l. f_equal. lia.
    + reflexivity.
Qed.

(** The message a packet sequence spells, read off its packets directly:
    the first one gives the length, the bodies are concatenated. *)
Definition message (packets : list bytes) : bytes :=
  match packets with
  | [] => []
  | first :: rest =>
      take (Z.to_nat (get_u16 (slice 5 7 first))) (drop 7 first ++ concat (map (drop 5) rest))
  end.

Lemma get_u16_range p : bytes_ok p → (2 ≤ length p)%nat → 0 <= get_u16 p < 65536.
Proof.
  intros Hp Hl. destruct p as [|b0 [|b1 p]]; simpl in Hl; try lia.
  inversion_clear Hp as [|? ? H0 H']. inversion_clear H' as [|? ? H1 _].
  unfold byte_ok in *. rewrite get_u16_val by done. lia.
Qed.

(** Soundness of reassembly against the direct reading of the packets.
    Whatever packets arrive, if a fresh assembler accepts all of them and
    reports [Done], then they all have the codec's size and channel, the
    first carries its command, the continuations are numbered 0, 1, 2, ...,
    and the payload is the concatenation of the packet bodies cut to the
    announced length, with exactly that many bytes. *)
Theorem assemble_sound (c : Codec) (packets : list bytes) (a : Assembler) :
  7 < reportSize c → Forall bytes_ok packets →
  AddAll (NewAssembler c) packets = Ok a → Done a = true →
  Forall (λ p, len p = reportSize c ∧ get_u32 (take 4 p) = channel c) packets ∧
  (∃ first rest, packets = first :: rest ∧ first !!! 4%nat = command c ∧
     (∀ i p, rest !! i = Some p → p !!! 4%nat = u8 (Z.of_nat i)) ∧
     Payload a = Ok (message packets) ∧ len (message packets) = get_u16 (slice 5 7 first)).
Proof.
  intros Hrs Hok Hall Hdone. unfold Done in Hdone. destruct packets as [|first rest]; [by simplify_eq/=|].
  apply rbind_Ok in Hall as (a1 & Hadd & Hall). inversion_clear Hok as [|? ? Hf Hr].
  unfold Add, fail in Hadd; cbn [done_ codec started buffer nextSeq NewAssembler] in Hadd.
  destruct (Z.eqb_spec (len first) (reportSize c)) as [Hl|]; [|done].
  destruct (Z.eqb_spec (get_u32 (take 4 first)) (channel c)) as [Hch|]; [|done].
  destruct (Z.eqb_spec (first !!! 4%nat) (command c)) as [Hcmd|]; [|done].
  cbn [negb] in Hadd. set (t := get_u16 _) in *. rewrite min_spec, app_nil_l in Hadd.
  assert (Ht : 0 <= t < 65536).
  { apply get_u16_range; unfold slice.
    - by apply Forall_take, Forall_drop.
    - rewrite length_take, length_drop. unfold len in Hl; lia. }
  assert (Hbuf : take (Z.to_nat (Z.min t (len first - 7))) (drop 7 first)
                 = take (Z.to_nat t) (drop 7 first)).
  { destruct (Z.le_gt_cases t (len first - 7)); [f_equal; lia|].
    rewrite !take_ge; [done| |]; rewrite length_drop; unfold len in *; lia. }
  rewrite Hbuf in Hadd. injection Hadd as <-.
  apply AddAll_started in Hall as (Hc & Htot & Hd & Hb & Hfa & Hs); simpl in *; try lia; try done.
  2:{ unfold len. rewrite length_take. lia. }
  rewrite take_take_app in Hb. change (take _ _) with (message (first :: rest)) in Hb.
  split; [constructor; done|].
  exists first, rest. split_and!; try done.
  - intros i p Hi. destruct (Hs i p Hi) as [->|[-> ->]]; done.
  - unfold Payload. rewrite Hdone. simpl negb. cbv iota. rewrite Htot, Hb. f_equal.
    apply take_ge. unfold message. rewrite length_take. fold t. lia.
  - assert (Hge : t <= len (buffer a)).
    { rewrite Hdone in Hd. destruct rest; symmetry in Hd; apply Z.leb_le in Hd; [|done].
      rewrite Hb. unfold message. fold t. simpl. by rewrite app_nil_r. }
    rewrite Hb in Hge. unfold message, len in *. fold t in Hge |- *. rewrite length_take in Hge |- *. lia.
Qed.

Lemma assemble_sound_witness :
  Payload (MkAssembler (MkCodec 7 0x90 10) true true 4 1 [1;2;3;4]) = Ok [1;2;3;4] ∧
  ∃ first rest, [[0;0;0;7;144;0;4;1;2;3]; [0;0;0;7;0;4;9;9;9;9]] = first :: rest ∧
     first !!! 4%nat = 0x90 ∧
     (∀ i p, rest !! i = Some p → p !!! 4%nat = u8 (Z.of_nat i)) ∧
     Payload (MkAssembler (MkCodec 7 0x90 10) true true 4 1 [1;2;3;4])
       = Ok (message [[0;0;0;7;144;0;4;1;2;3]; [0;0;0;7;0;4;9;9;9;9]]) ∧
     len (message [[0;0;0;7;144;0;4;1;2;3]; [0;0;0;7;0;4;9;9;9;9]]) = get_u16 (slice 5 7 first).
Proof.
  split; [reflexivity|].
  apply (assemble_sound (MkCodec 7 0x90 10)
           [[0;0;0;7;144;0;4;1;2;3]; [0;0;0;7;0;4;9;9;9;9]]); simpl; try done; try lia.
  repeat constructor; unfold byte_ok; lia.
Defined.
End HidCodecProps.
