(* ===== verification/WireNFC.v ===== *)
(** * Short APDU chaining: src/pkg/wire/nfc/apdu.go

    A [Codec] wraps a payload in one or more chained short command APDUs; an
    [Assembler] joins the bodies of the response APDUs until the status word
    is 0x9000, following the 0x61xx "more data" status. *)
From S2P Require Import Prelude GoErrors.

Module NfcCodec.
Record Codec := MkCodec {
  class : Z; instruction : Z; parameter1 : Z; parameter2 : Z; maxChunkSize : Z;
}.

Record Assembler := MkAssembler { done_ : bool; buffer : bytes; moreDataHint : Z }.

Definition fail (sentinel : string) : goerror := EFmt "wire/nfc: %w" [ESent sentinel].

Definition getResponseInstruction : Z := 0xC0.

(** The Unwrap method of StatusError is the case of [unwrap] for [EStatus]. *)
Definition StatusError (sw1 sw2 : Z) : goerror := EStatus sw1 sw2.

Definition minNFC (left right : Z) : Z := if left <? right then left else right.

Definition NewCodec (class instruction parameter1 parameter2 maxChunkSize : Z) : res Codec :=
  if (maxChunkSize <=? 0) || (255 <? maxChunkSize) then Err (fail "wire/nfc.errInvalidChunkSize")
  else Ok (MkCodec class instruction parameter1 parameter2 maxChunkSize).

(** The loop of [Fragment]; the length of [remaining] is enough fuel. *)
Fixpoint chunks (fuel : nat) (c : Codec) (remaining : bytes) : list bytes :=
  match fuel with
  | O => []
  | S fuel =>
      if 0 <? len remaining then
        let chunkSize := minNFC (len remaining) (maxChunkSize c) in
        let cla := if negb (chunkSize =? len remaining) then Z.lor (class c) 0x10 else class c in
        ([cla; instruction c; parameter1 c; parameter2 c; u8 chunkSize] ++
           take (Z.to_nat chunkSize) remaining)
        :: chunks fuel c (drop (Z.to_nat chunkSize) remaining)
      else []
  end.

Definition Fragment (c : Codec) (payload : bytes) : list bytes :=
  if len payload =? 0
  then [[class c; instruction c; parameter1 c; parameter2 c; 0x00]]
  else chunks (length payload) c payload.

Definition NewAssembler : Assembler := MkAssembler false [] 0.

Definition ValidateInterimResponse (response : bytes) : option goerror :=
  if negb (len response =? 2) then Some (fail "wire/nfc.errInvalidResponse")
  else if negb (response !!! 0%nat =? 0x90) || negb (response !!! 1%nat =? 0x00)
  then Some (StatusError (response !!! 0%nat) (response !!! 1%nat))
  else None.

Definition GetResponsePacket (c : Codec) (expectedLength : Z) : bytes :=
  [class c; getResponseInstruction; 0x00; 0x00; expectedLength].

(** [Add] appends the body before it looks at the status word, so an
    unexpected status leaves the body in the buffer. *)
Definition Add (a : Assembler) (response : bytes) : option goerror * Assembler :=
  if len response <? 2 then (Some (fail "wire/nfc.errInvalidResponse"), a)
  else
    let n := (length response - 2)%nat in
    let status1 := response !!! n in
    let status2 := response !!! S n in
    let buffer := buffer a ++ take n response in
    if (status1 =? 0x90) && (status2 =? 0x00) then (None, MkAssembler true buffer 0)
    else if status1 =? 0x61 then (None, MkAssembler false buffer status2)
    else (Some (StatusError status1 status2), MkAssembler (done_ a) buffer (moreDataHint a)).

Definition Done (a : Assembler) : bool := done_ a.
Definition MoreDataHint (a : Assembler) : Z := moreDataHint a.

Definition Payload (a : Assembler) : res bytes :=
  if negb (done_ a) then Err (fail "wire/nfc.errIncompleteAPDU") else Ok (buffer a).

Fixpoint AddAll (a : Assembler) (responses : list bytes) : option goerror * Assembler :=
  match responses with
  | [] => (None, a)
  | r :: rs => match Add a r with (None, a) => AddAll a rs | (Some e, a) => (Some e, a) end
  end.
End NfcCodec.

Module NfcCodecProps.
Import NfcCodec.

(** What one command APDU of a chain is, read back by a card: header, the
    length byte of its data, the data. *)
Record apdu := Apdu { a_class : Z; a_ins : Z; a_p1 : Z; a_p2 : Z; a_data : bytes }.
Definition parse_apdu (p : bytes) : option apdu :=
  match p with
  | cla :: ins :: p1 :: p2 :: lc :: data =>
      if len data =? lc then Some (Apdu cla ins p1 p2 data) else None
  | _ => None
  end.

(** The chain a payload must become: [maxChunkSize] bytes per command, the
    chaining bit on every command but the last. *)
Inductive chain (c : Codec) : bytes → list apdu → Prop :=
  | chain_last data : len data <= maxChunkSize c →
      chain c data [Apdu (class c) (instruction c) (parameter1 c) (parameter2 c) data]
  | chain_more data rest l : len data = maxChunkSize c → rest ≠ [] → chain c rest l →
      chain c (data ++ rest)
        (Apdu (Z.lor (class c) 0x10) (instruction c) (parameter1 c) (parameter2 c) data :: l).

Lemma chunks_chain fuel : ∀ c rem,
  0 < maxChunkSize c <= 255 → rem ≠ [] → (length rem ≤ fuel)%nat →
  ∃ l, mapM parse_apdu (chunks fuel c rem) = Some l ∧ chain c rem l.
Proof.
  induction fuel as [|fuel IH]; intros c rem Hc Hne Hf.
  { destruct rem; simpl in *; [done|lia]. }
  assert (Hp : 0 < len rem) by (pose proof (len_nonneg rem); rewrite <-len_zero in Hne; lia).
  cbn [chunks]. destruct (Z.ltb_spec 0 (len rem)); [|lia].
  unfold minNFC. destruct (Z.ltb_spec (len rem) (maxChunkSize c)).
  - rewrite Z.eqb_refl. cbn [negb].
    rewrite take_ge, drop_ge by (unfold len; lia).
    assert (Hn : chunks fuel c [] = []) by (by destruct fuel).
    rewrite Hn. eexists. split; [|by apply chain_last; lia].
    simpl. rewrite u8_small by lia. by rewrite Z.eqb_refl.
  - set (n := Z.to_nat (maxChunkSize c)).
    assert (Ht : len (take n rem) = maxChunkSize c) by (apply len_take; lia).
    destruct (Z.eqb_spec (maxChunkSize c) (len rem)) as [He|He]; cbn [negb].
    + rewrite (take_ge rem), (drop_ge rem) by (unfold len in *; lia).
      assert (Hn : chunks fuel c [] = []) by (by destruct fuel).
      rewrite Hn. eexists. split; [|by apply chain_last; lia].
      simpl. rewrite u8_small by lia. by rewrite <-He, Z.eqb_refl.
    + assert (Hd : drop n rem ≠ []).
      { rewrite <-len_zero. unfold n. rewrite len_drop; lia. }
      destruct (IH c (drop n rem) Hc Hd) as (l & Hl & Hch).
      { rewrite length_drop. unfold len in *; lia. }
      eexists. split.
      * simpl. rewrite Ht, u8_small, Z.eqb_refl by lia. simpl. by rewrite Hl.
      * rewrite <-(take_drop n rem) at 1. by apply chain_more.
Qed.

(** Every payload becomes a well-formed chain of short command APDUs.
    The packets of [Fragment] parse as APDUs whose length byte is the exact
    size of their data; the data blocks are the payload cut at
    [maxChunkSize] in order, and the chaining bit 0x10 is set on all
    commands except the last. *)
Theorem fragment_chain (c : Codec) (payload : bytes) :
  0 < maxChunkSize c <= 255 →
  ∃ l, mapM parse_apdu (Fragment c payload) = Some l ∧ chain c payload l.
Proof.
  intros Hc. unfold Fragment. destruct (Z.eqb_spec (len payload) 0) as [Hz|Hz].
  - apply len_zero in Hz as ->. eexists; split; [done|]. apply chain_last. rewrite len_nil. lia.
  - apply chunks_chain; [done| |done]. by rewrite <-len_zero.
Qed.

Lemma fragment_chain_witness :
  ∃ l, mapM parse_apdu (Fragment (MkCodec 0x80 0x10 0 0 2) [1;2;3]) = Some l ∧
       chain (MkCodec 0x80 0x10 0 0 2) [1;2;3] l.
Proof. apply (fragment_chain (MkCodec 0x80 0x10 0 0 2) [1;2;3]); simpl; lia. Defined.

(** A response of the chain: a body and a status word. *)
Definition response (body : bytes) (sw1 sw2 : Z) : bytes := body ++ [sw1; sw2].

Lemma Add_response a body sw1 sw2 :
  Add a (response body sw1 sw2) =
    if (sw1 =? 0x90) && (sw2 =? 0) then (None, MkAssembler true (buffer a ++ body) 0)
    else if sw1 =? 0x61 then (None, MkAssembler false (buffer a ++ body) sw2)
    else (Some (StatusError sw1 sw2), MkAssembler (done_ a) (buffer a ++ body) (moreDataHint a)).
Proof.
  unfold Add, response. pose proof (len_nonneg body).
  assert (Hl : len (body ++ [sw1; sw2]) = len body + 2) by (rewrite len_app; done).
  rewrite Hl. destruct (Z.ltb_spec (len body + 2) 2); [lia|].
  rewrite length_app. replace (length body + length [sw1; sw2] - 2)%nat with (length body) by (simpl; lia).
  rewrite take_app_length.
  rewrite (lookup_total_app_r body _ (length body)), Nat.sub_diag by lia.
  rewrite (lookup_total_app_r body _ (S (length body))) by lia.
  replace (S (length body) - length body)%nat with 1%nat by lia. done.
Qed.

(** Chained responses are joined in order.  Bodies sent with 0x61xx and
    one final body sent with 0x9000 give an assembler that is done, holds
    their concatenation, and was not done (with the last SW2 as the hint
    for the next GET RESPONSE) before the final one; any other status ends
    the exchange with that status word. *)
Theorem responses_assemble (bodies : list (bytes * Z)) (last : bytes) :
  let chained := map (λ '(b, hint), response b 0x61 hint) bodies in
  AddAll NewAssembler (chained ++ [response last 0x90 0x00]) =
    (None, MkAssembler true (concat (map fst bodies) ++ last) 0) ∧
  AddAll NewAssembler chained =
    (None, MkAssembler false (concat (map fst bodies)) (default 0 (snd <$> (list.last bodies)))) ∧
  (∀ body sw1 sw2, ¬ (sw1 = 0x90 ∧ sw2 = 0) → sw1 ≠ 0x61 →
     (AddAll NewAssembler (chained ++ [response body sw1 sw2])).1 = Some (EStatus sw1 sw2)).
Proof.
  intros chained.
  assert (Happ : ∀ a rs r, AddAll a (rs ++ [r]) =
    match AddAll a rs with (None, a) => Add a r | x => x end).
  { intros a rs r; revert a; induction rs as [|x rs IH]; intros a; simpl.
    - by destruct (Add a r) as [[e|] a'].
    - destruct (Add a x) as [[e|] a']; [done|apply IH]. }
  assert (Hch : AddAll NewAssembler chained =
    (None, MkAssembler false (concat (map fst bodies)) (default 0 (snd <$> (list.last bodies))))).
  { unfold chained. induction bodies as [|[b h] bs IH] using rev_ind; [done|].
    rewrite map_app. simpl. rewrite Happ, IH, Add_response. simpl.
    rewrite map_app, concat_app, last_snoc. simpl. by rewrite app_nil_r. }
  split_and!; [|done|].
  - by rewrite Happ, Hch, Add_response.
  - intros body sw1 sw2 Hs H61. rewrite Happ, Hch, Add_response.
    destruct (Z.eqb_spec sw1 0x90), (Z.eqb_spec sw2 0); simpl; try (exfalso; tauto);
      destruct (Z.eqb_spec sw1 0x61); done.
Qed.
End NfcCodecProps.
