(* ===== verification/WireBLE.v ===== *)
(** * BLE fragments: src/pkg/wire/ble/codec.go

    The first fragment of a message starts with its 16-bit length; fragments
    are at most [mtu] bytes and come in order. *)
From S2P Require Import Prelude GoErrors.

Module BleCodec.
Record Codec := MkCodec { mtu : Z }.

Record Assembler := MkAssembler {
  codec : Codec; started : bool; done_ : bool; total : Z; buffer : bytes;
}.

Definition fail {A} (sentinel : string) : res A := Err (EFmt "wire/ble: %w" [ESent sentinel]).

Definition minBLE (left right : Z) : Z := if left <? right then left else right.

Definition NewCodec (mtu : Z) : res Codec :=
  if mtu <=? 2 then fail "wire/ble.errInvalidMTU" else Ok (MkCodec mtu).

(** The loop of [Fragment]; the length of [remaining] is enough fuel. *)
Fixpoint chunks (fuel : nat) (c : Codec) (remaining : bytes) : list bytes :=
  match fuel with
  | O => []
  | S fuel =>
      if 0 <? len remaining then
        let chunkSize := Z.to_nat (minBLE (len remaining) (mtu c)) in
        take chunkSize remaining :: chunks fuel c (drop chunkSize remaining)
      else []
  end.

Definition Fragment (c : Codec) (payload : bytes) : res (list bytes) :=
  if 65535 <? len payload then fail "wire/ble.ErrPayloadTooLarge"
  else
    let firstSize := Z.to_nat (minBLE (len payload) (mtu c - 2)) in
    let first := put_u16 (u16 (len payload)) ++ take firstSize payload in
    let remaining := drop firstSize payload in
    Ok (first :: chunks (length remaining) c remaining).

Definition NewAssembler (c : Codec) : Assembler := MkAssembler c false false (-1) [].

(** [Add] returns its errors before its first assignment. *)
Definition Add (a : Assembler) (fragment : bytes) : res Assembler :=
  if done_ a then fail "wire/ble.errInvalidFragment"
  else if mtu (codec a) <? len fragment then fail "wire/ble.errInvalidFragment"
  else if negb (started a) then
    if len fragment <? 2 then fail "wire/ble.errInvalidFragment"
    else
      let total := get_u16 (take 2 fragment) in
      let chunkSize := minBLE total (len fragment - 2) in
      let buffer := buffer a ++ take (Z.to_nat chunkSize) (drop 2 fragment) in
      Ok (MkAssembler (codec a) true (total <=? len buffer) total buffer)
  else
    let remaining := total a - len (buffer a) in
    let chunkSize := minBLE remaining (len fragment) in
    let buffer := buffer a ++ take (Z.to_nat chunkSize) fragment in
    Ok (MkAssembler (codec a) (started a) (total a <=? len buffer) (total a) buffer).

Definition Done (a : Assembler) : bool := done_ a.

Definition Payload (a : Assembler) : res bytes :=
  if negb (done_ a) then fail "wire/ble.errIncompleteValue"
  else Ok (take (Z.to_nat (total a)) (buffer a)).

Fixpoint AddAll (a : Assembler) (fragments : list bytes) : res Assembler :=
  match fragments with
  | [] => Ok a
  | f :: fragments => a ←? Add a f; AddAll a fragments
  end.
End BleCodec.

Module BleCodecProps.
Import BleCodec.

Lemma minBLE_spec l r : minBLE l r = Z.min l r.
Proof. unfold minBLE. destruct (Z.ltb_spec l r); lia. Qed.

Lemma chunks_nil fuel c : chunks fuel c [] = [].
Proof. by destruct fuel. Qed.

(** A fragment of a started message that fits the MTU. *)
Lemma Add_fragment c t buf frag :
  0 <= len buf < t → len frag <= mtu c → len buf + len frag <= t →
  Add (MkAssembler c true false t buf) frag =
    Ok (MkAssembler c true (t <=? len (buf ++ frag)) t (buf ++ frag)).
Proof.
  intros Hb Hm Ht. unfold Add; cbn [done_ codec started total buffer].
  destruct (Z.ltb_spec (mtu c) (len frag)); [lia|]. cbn [negb].
  rewrite minBLE_spec, take_ge by (unfold len in *; lia). done.
Qed.

Lemma AddAll_chunks fuel : ∀ c t buf rem,
  2 < mtu c → (length rem ≤ fuel)%nat → t = len buf + len rem → rem ≠ [] →
  AddAll (MkAssembler c true false t buf) (chunks fuel c rem) =
    Ok (MkAssembler c true true t (buf ++ rem)) ∧
  Forall (λ f, 0 < len f <= mtu c) (chunks fuel c rem) ∧
  (∀ k a, (k < length (chunks fuel c rem))%nat →
     AddAll (MkAssembler c true false t buf) (take k (chunks fuel c rem)) = Ok a →
     done_ a = false).
Proof.
  induction fuel as [|fuel IH]; intros c t buf rem Hm Hf Ht Hne.
  { destruct rem; simpl in *; [done|lia]. }
  assert (Hp : 0 < len rem) by (pose proof (len_nonneg rem); rewrite <-len_zero in Hne; lia).
  cbn [chunks]. destruct (Z.ltb_spec 0 (len rem)); [|lia]. rewrite minBLE_spec.
  set (n := Z.to_nat (Z.min (len rem) (mtu c))).
  assert (Hlen : len (take n rem) = Z.min (len rem) (mtu c)) by (apply len_take; lia).
  pose proof (len_nonneg buf).
  assert (Hadd := Add_fragment c t buf (take n rem) ltac:(lia) ltac:(lia) ltac:(lia)).
  destruct (decide (drop n rem = [])) as [Hend|Hmore].
  - rewrite Hend, chunks_nil.
    assert (Hall : take n rem = rem) by (rewrite <-(take_drop n rem) at 2; by rewrite Hend, app_nil_r).
    rewrite Hall in *. rewrite (proj2 (Z.leb_le _ _)) in Hadd by (rewrite len_app; lia).
    split_and!; [simpl; by rewrite Hadd|by repeat constructor; lia|].
    intros [|k] a Hk; simpl in *; [by intros [= <-]|lia].
  - assert (Hd : len (drop n rem) = len rem - Z.min (len rem) (mtu c)) by (apply len_drop; lia).
    assert (0 < len (drop n rem))
      by (pose proof (len_nonneg (drop n rem)); rewrite <-len_zero in Hmore; lia).
    rewrite (proj2 (Z.leb_gt _ _)) in Hadd by (rewrite len_app; lia).
    destruct (IH c t (buf ++ take n rem) (drop n rem)) as (Ha & Hf2 & Hk2); try done.
    { unfold len in *; lia. } { rewrite len_app; lia. }
    split_and!.
    + cbn [AddAll]. rewrite Hadd. simpl. by rewrite Ha, <-app_assoc, take_drop.
    + constructor; [lia|done].
    + intros [|k] a Hk; simpl; [by intros [= <-]|]. rewrite Hadd. simpl in Hk. apply Hk2. lia.
Qed.

Lemma Fragment_AddAll (c : Codec) (payload : bytes) :
  2 < mtu c → len payload <= 65535 →
  ∃ fragments, Fragment c payload = Ok fragments ∧
    Forall (λ f, 0 < len f <= mtu c) fragments ∧
    (∃ a, AddAll (NewAssembler c) fragments = Ok a ∧ Done a = true ∧ Payload a = Ok payload) ∧
    (∀ k a, (k < length fragments)%nat →
       AddAll (NewAssembler c) (take k fragments) = Ok a → Done a = false).
Proof.
  intros Hm Hlen. unfold Fragment. destruct (Z.ltb_spec 65535 (len payload)); [lia|].
  rewrite minBLE_spec. eexists; split; [done|].
  pose proof (len_nonneg payload) as Hnn.
  set (n := Z.to_nat (Z.min (len payload) (mtu c - 2))).
  assert (Ht : len (take n payload) = Z.min (len payload) (mtu c - 2)) by (apply len_take; lia).
  set (first := put_u16 _ ++ _).
  assert (Hfl : len first = 2 + len (take n payload)) by (unfold first; rewrite len_app; done).
  assert (Hadd : Add (NewAssembler c) first =
    Ok (MkAssembler c true (len payload <=? len (take n payload)) (len payload) (take n payload))).
  { unfold Add; cbn [done_ codec NewAssembler started buffer].
    destruct (Z.ltb_spec (mtu c) (len first)); [lia|]. cbn [negb].
    destruct (Z.ltb_spec (len first) 2); [lia|].
    assert (Hu : get_u16 (take 2 first) = len payload).
    { change (take 2 first) with (put_u16 (u16 (len payload))).
      rewrite <-(app_nil_r (put_u16 _)), u16_small, get_put_u16; lia. }
    change (drop 2 first) with (take n payload).
    rewrite Hu, minBLE_spec, app_nil_l, (take_ge (take n payload)) by (unfold len in *; lia).
    done. }
  destruct (decide (drop n payload = [])) as [Hend|Hmore].
  - assert (Hall : take n payload = payload)
      by (rewrite <-(take_drop n payload) at 2; by rewrite Hend, app_nil_r).
    rewrite Hend, chunks_nil. rewrite Hall in *.
    rewrite (proj2 (Z.leb_le _ _)) in Hadd by lia.
    split_and!; [by repeat constructor; lia| |].
    + eexists; split; [simpl; by rewrite Hadd|]. split; [done|].
      unfold Payload; simpl. by rewrite take_ge by (unfold len; lia).
    + intros [|k] a Hk; simpl in *; [by intros [= <-]|lia].
  - assert (Hd : 0 < len (drop n payload))
      by (pose proof (len_nonneg (drop n payload)); rewrite <-len_zero in Hmore; lia).
    assert (Hl : len payload = len (take n payload) + len (drop n payload))
      by (by rewrite <-len_app, take_drop).
    rewrite (proj2 (Z.leb_gt _ _)) in Hadd by lia.
    destruct (AddAll_chunks (length (drop n payload)) c (len payload) (take n payload)
                (drop n payload) Hm ltac:(lia) Hl Hmore) as (H1 & H2 & H3).
    split_and!; [constructor; [lia|done]| |].
    + eexists; split; [simpl; by rewrite Hadd|]. split; [done|].
      unfold Payload; simpl. by rewrite take_drop, take_ge by (unfold len; lia).
    + intros [|k] a Hk; simpl; [by intros [= <-]|]. rewrite Hadd. simpl in Hk. apply H3. lia.
Qed.

(** BLE round trip.  Every payload of at most 65535 bytes is cut into
    fragments of at most [mtu] bytes, none of them empty; added in order to a
    fresh assembler they give the payload back, and the assembler is done
    with the last fragment and not before. *)
Theorem ble_fragment_assemble (c : Codec) (payload : bytes) :
  2 < mtu c → len payload <= 65535 →
  ∃ fragments, Fragment c payload = Ok fragments ∧
    Forall (λ f, 0 < len f <= mtu c) fragments ∧
    (∃ a, AddAll (NewAssembler c) fragments = Ok a ∧ Done a = true ∧ Payload a = Ok payload) ∧
    (∀ k a, (k < length fragments)%nat →
       AddAll (NewAssembler c) (take k fragments) = Ok a → Done a = false).
Proof. apply Fragment_AddAll. Qed.

Lemma ble_fragment_assemble_witness :
  ∃ fragments, Fragment (MkCodec 4) [1;2;3;4;5;6;7] = Ok fragments ∧
    Forall (λ f, 0 < len f <= 4) fragments ∧
    (∃ a, AddAll (NewAssembler (MkCodec 4)) fragments = Ok a ∧ Done a = true ∧
          Payload a = Ok [1;2;3;4;5;6;7]) ∧
    (∀ k a, (k < length fragments)%nat →
       AddAll (NewAssembler (MkCodec 4)) (take k fragments) = Ok a → Done a = false).
Proof. apply (ble_fragment_assemble (MkCodec 4) [1;2;3;4;5;6;7]); vm_compute; done. Defined.
End BleCodecProps.
