(* ===== verification/GoIO.v ===== *)
(** * Effectful Go code

    A function that talks to its environment (a connection, a context, a clock,
    a random source) is a state transformer over a world type [W]: the world
    answers the calls the source makes, in the order the source makes them.
    [None] means the fuel of a loop ran out; the termination theorems show
    when it does not.  Errors are values, as in Go: a bind returns early on an
    error, [attempt] looks at it. *)
From S2P Require Import Prelude GoErrors.

(** Contexts the program derives: the caller's, [context.Background()], one
    bounded by a timeout (milliseconds, but nanoseconds in the diagnostics),
    and one that is already canceled. *)
Inductive ctx := Caller | Background | WithTimeout (parent : ctx) (timeout : Z) | AlreadyCanceled.

#[global] Instance ctx_dec : EqDecision ctx. Proof. solve_decision. Defined.

Definition M (W A : Type) : Type := W → option (res A * W).

Section Monad.
Context {W : Type}.

Definition ret {A} (a : A) : M W A := λ w, Some (Ok a, w).
Definition throw {A} (e : goerror) : M W A := λ w, Some (Err e, w).
Definition out_of_fuel {A} : M W A := λ _, None.
Definition lift {A} (r : res A) : M W A := λ w, Some (r, w).

Definition bind {A B} (c : M W A) (k : A → M W B) : M W B := λ w,
  match c w with
  | Some (Ok a, w') => k a w'
  | Some (Err e, w') => Some (Err e, w')
  | None => None
  end.

(** [v, err := f()] without an early return. *)
Definition attempt {A} (c : M W A) : M W (res A) := λ w,
  match c w with Some (r, w') => Some (Ok r, w') | None => None end.

(** [if err != nil { return f(err) }]. *)
Definition map_err {A} (f : goerror → goerror) (c : M W A) : M W A := λ w,
  match c w with Some (Err e, w') => Some (Err (f e), w') | r => r end.

(** A call that returns an [error] only. *)
Definition call_err (f : W → option goerror * W) : M W () := λ w,
  match f w with (None, w') => Some (Ok (), w') | (Some e, w') => Some (Err e, w') end.

Definition get_world : M W W := λ w, Some (Ok w, w).
Definition put_world (w : W) : M W () := λ _, Some (Ok (), w).

(** [for _, x := range xs { if err := f(x); err != nil { return err } }]. *)
Fixpoint for_each {A} (f : A → M W ()) (xs : list A) : M W () :=
  match xs with [] => ret () | x :: xs => bind (f x) (λ _, for_each f xs) end.
End Monad.

Notation "x ←! c ; k" := (bind c (λ x, k))
  (at level 20, c at level 100, k at level 200, right associativity,
   format "x  ←!  c ; '/' k") : go_scope.

(** [ctx.Err()]: the environment decides when a context ends. *)
Class GoContext (W : Type) := ctx_Err : ctx → W → option goerror * W.

Definition check_ctx {W} `{GoContext W} (c : ctx) : M W () := call_err (ctx_Err c).

(** A world in which the contexts in use stay alive and polling them is free. *)
Definition alive {W} `{GoContext W} (c : ctx) : Prop := ∀ w, ctx_Err c w = (None, w).

Section MonadFacts.
Context {W : Type}.
Implicit Types w : W.

Lemma bind_ret {A B} (a : A) (k : A → M W B) w : bind (ret a) k w = k a w.
Proof. done. Qed.

Lemma bind_lift_Ok {A B} (a : A) (k : A → M W B) w : bind (lift (Ok a)) k w = k a w.
Proof. done. Qed.

Lemma bind_lift_Err {A B} e (k : A → M W B) w : bind (lift (Err e)) k w = Some (Err e, w).
Proof. done. Qed.

Lemma bind_throw {A B} e (k : A → M W B) w : bind (throw e) k w = Some (Err e, w).
Proof. done. Qed.

Lemma bind_Ok {A B} (c : M W A) (k : A → M W B) w a w' :
  c w = Some (Ok a, w') → bind c k w = k a w'.
Proof. unfold bind. by intros ->. Qed.

Lemma bind_Err {A B} (c : M W A) (k : A → M W B) w e w' :
  c w = Some (Err e, w') → bind c k w = Some (Err e, w').
Proof. unfold bind. by intros ->. Qed.

Lemma bind_inv {A B} (c : M W A) (k : A → M W B) w r w' :
  bind c k w = Some (r, w') →
  (∃ a w1, c w = Some (Ok a, w1) ∧ k a w1 = Some (r, w')) ∨
  (∃ e, c w = Some (Err e, w') ∧ r = Err e).
Proof. unfold bind. intros H. destruct (c w) as [[[a|e] w1]|]; naive_solver. Qed.

Lemma map_err_Ok {A} f (c : M W A) w a w' :
  c w = Some (Ok a, w') → map_err f c w = Some (Ok a, w').
Proof. unfold map_err. by intros ->. Qed.

Lemma map_err_Err {A} f (c : M W A) w e w' :
  c w = Some (Err e, w') → map_err f c w = Some (Err (f e), w').
Proof. unfold map_err. by intros ->. Qed.

Lemma check_ctx_alive `{GoContext W} c w : alive c → check_ctx c w = Some (Ok (), w).
Proof. unfold check_ctx, call_err. by intros ->. Qed.

(** A context that is alive is not observed. *)
Lemma bind_check_ctx `{GoContext W} {B} c (k : () → M W B) w :
  alive c → bind (check_ctx c) k w = k () w.
Proof. intros. eapply bind_Ok. by apply check_ctx_alive. Qed.
End MonadFacts.

Create Rewrite HintDb run.
#[export] Hint Rewrite @bind_ret @bind_lift_Ok @bind_lift_Err @bind_throw : run.

(** Running through one bind whose first call succeeds. *)
Ltac run_ok H := rewrite (bind_Ok _ _ _ _ _ H).
Ltac run_err H := rewrite (bind_Err _ _ _ _ _ H).

(** ** Relations every run respects

    [steps_by R m]: whatever [m] returns, [R] relates the worlds before and
    after it.  With [R] a preorder the property composes along the code. *)
Section Steps.
Context {W : Type} (R : relation W) `{!PreOrder R}.

Definition steps_by {A} (m : M W A) : Prop := ∀ w r w', m w = Some (r, w') → R w w'.

Lemma steps_ret {A} (a : A) : steps_by (ret a).
Proof. intros w r w' [= <- <-]. reflexivity. Qed.
Lemma steps_throw {A} e : steps_by (A:=A) (throw e).
Proof. intros w r w' [= <- <-]. reflexivity. Qed.
Lemma steps_lift {A} (c : res A) : steps_by (lift c).
Proof. intros w r w' [= <- <-]. reflexivity. Qed.
Lemma steps_out_of_fuel {A} : steps_by (A:=A) out_of_fuel.
Proof. by intros w r w'. Qed.
Lemma steps_get : steps_by get_world.
Proof. intros w r w' [= <- <-]. reflexivity. Qed.

Lemma steps_bind {A B} (m : M W A) (k : A → M W B) :
  steps_by m → (∀ a, steps_by (k a)) → steps_by (bind m k).
Proof.
  intros Hm Hk w r w' [(a & w1 & H1 & H2)|(e & H1 & ->)]%bind_inv.
  - transitivity w1; [by eapply Hm|by eapply Hk].
  - by eapply Hm.
Qed.

Lemma steps_attempt {A} (m : M W A) : steps_by m → steps_by (attempt m).
Proof.
  intros Hm w r w'. unfold attempt. destruct (m w) as [[r' w1]|] eqn:E; [|done].
  intros [= <- <-]. by eapply Hm.
Qed.

Lemma steps_map_err {A} f (m : M W A) : steps_by m → steps_by (map_err f m).
Proof.
  intros Hm w r w'. unfold map_err. destruct (m w) as [[[a|e] w1]|] eqn:E; [| |done];
    intros [= <- <-]; by eapply Hm.
Qed.

Lemma steps_call_err (f : W → option goerror * W) :
  (∀ w, R w (f w).2) → steps_by (call_err f).
Proof.
  intros Hf w r w'. unfold call_err. specialize (Hf w).
  destruct (f w) as [[e|] w1]; intros [= <- <-]; done.
Qed.

Lemma steps_for_each {A} (f : A → M W ()) xs :
  (∀ x, x ∈ xs → steps_by (f x)) → steps_by (for_each f xs).
Proof.
  induction xs as [|x xs IH]; intros Hf; [apply steps_ret|].
  apply steps_bind; [apply Hf; constructor|]. intros _. apply IH. intros. apply Hf. by constructor.
Qed.

Lemma steps_check_ctx `{GoContext W} c : (∀ w, R w (ctx_Err c w).2) → steps_by (check_ctx c).
Proof. apply steps_call_err. Qed.
End Steps.

Create HintDb steps.
#[export] Hint Resolve steps_ret steps_throw steps_lift steps_out_of_fuel steps_get : steps.
#[export] Hint Resolve steps_bind steps_attempt steps_map_err steps_for_each : steps.

(** Walks through the structure of a program, calls left to the hints. *)
Ltac walk :=
  repeat first
    [ done
    | assumption
    | match goal with
      | |- steps_by _ (ret _) => refine (steps_ret _ _)
      | |- steps_by _ (throw _) => refine (steps_throw _ _)
      | |- steps_by _ (lift _) => refine (steps_lift _ _)
      | |- steps_by _ (bind _ _) => refine (steps_bind _ _ _ _ _); [|intro]
      | |- steps_by _ (attempt _) => refine (steps_attempt _ _ _)
      | |- steps_by _ (map_err _ _) => refine (steps_map_err _ _ _ _)
      | |- steps_by _ (for_each _ _) => refine (steps_for_each _ _ _ _); intros ? ?
      end
    | solve [auto with steps]
    | case_match ].

(** ** Totality: a run that always returns *)
Section Total.
Context {W : Type}.

Definition total {A} (m : M W A) : Prop := ∀ w, ∃ r w', m w = Some (r, w').

Lemma total_ret {A} (a : A) : total (ret a).
Proof. intros w. by eexists _, _. Qed.
Lemma total_throw {A} e : total (A:=A) (throw e).
Proof. intros w. by eexists _, _. Qed.
Lemma total_lift {A} (r : res A) : total (lift r).
Proof. intros w. by eexists _, _. Qed.
Lemma total_call {A} (f : W → res A * W) : total (λ w, Some (f w)).
Proof. intros w. by destruct (f w) as [r w'] eqn:E; eexists _, _. Qed.
Lemma total_bind {A B} (m : M W A) (k : A → M W B) : total m → (∀ a, total (k a)) → total (bind m k).
Proof.
  intros Hm Hk w. unfold bind. destruct (Hm w) as ([a|e] & w1 & ->); [apply Hk|by eexists _, _].
Qed.
Lemma total_attempt {A} (m : M W A) : total m → total (attempt m).
Proof. intros Hm w. unfold attempt. destruct (Hm w) as (r & w1 & ->). by eexists _, _. Qed.
Lemma total_map_err {A} f (m : M W A) : total m → total (map_err f m).
Proof. intros Hm w. unfold map_err. destruct (Hm w) as ([a|e] & w1 & ->); by eexists _, _. Qed.
Lemma total_for_each {A} (f : A → M W ()) xs : (∀ x, total (f x)) → total (for_each f xs).
Proof. intros Hf. induction xs as [|x xs IH]; [apply total_ret|]. by apply total_bind. Qed.
End Total.

Create HintDb total.
#[export] Hint Resolve total_ret total_throw total_lift total_call total_bind total_attempt total_map_err
  : total.

(** Walks through a program, calls left to the hints. *)
Ltac totally :=
  repeat first
    [ assumption
    | match goal with
      | |- total (bind _ _) => apply total_bind; [|intro]
      | |- total (map_err _ _) => apply total_map_err
      | |- total (attempt _) => apply total_attempt
      end
    | solve [auto with total]
    | case_match ].

(** ** Ownership

    Of what a process owns in world [w], [owned w], a step takes exactly the
    new resource [x]. *)
Definition acquires {W} (owned : W → gset (Z * Z)) (x : Z * Z) (w w' : W) : Prop :=
  (x ∉ owned w) ∧ owned w' = ({[x]} ∪ owned w).
