(* ===== verification/UsbProtocol.v ===== *)
(** * CTAPHID messages: src/pkg/transport/usb/{hid,hid_exchange,hid_protocol,hid_init}.go

    Reading one response message (skipping packets of other channels and
    keepalives, turning CTAPHID errors into error values), discarding a
    message, and the write-then-read exchange of one command. *)
From S2P Require Import Prelude GoErrors WireHID GoIO.

Module Hid.
Definition hidReportSize : Z := 64.
Definition hidBroadcastCID : Z := 0xffffffff.
Definition hidCommandInit : Z := 0x86.
Definition hidCommandMsg : Z := 0x83.
Definition hidCommandCBOR : Z := 0x90.
Definition hidCommandKeepalive : Z := 0xbb.
Definition hidCommandError : Z := 0xbf.
Definition hidCommandPing : Z := 0x81.

Definition validateHIDCommand (command : Z) : option goerror :=
  if (command =? 0) || negb (Z.land command 0x80 =? 0) then Some (EInvalidHIDCommand command)
  else if existsb (Z.eqb command) [0x06; 0x11; 0x3b; 0x3f] then Some (EInvalidHIDCommand command)
  else None.

Definition isHIDCommandPacket (packet : bytes) (reportSize channelID command : Z) : bool :=
  if negb (len packet =? reportSize) then false
  else if negb (get_u32 (take 4 packet) =? channelID) then false
  else packet !!! 4%nat =? command.

Definition isHIDKeepalivePacket (packet : bytes) (reportSize channelID : Z) : bool :=
  isHIDCommandPacket packet reportSize channelID hidCommandKeepalive.

Section Messages.
Context {W : Type} `{GoContext W}.

(** The loop ends with a packet that is not a well-sized packet of
    another channel. *)
Fixpoint hidChannelReader (fuel : nat) (reportSize channelID : Z)
    (readPacket : ctx → M W bytes) (c : ctx) : M W bytes :=
  match fuel with
  | O => out_of_fuel
  | S fuel =>
      _ ←! check_ctx c;
      packet ←! readPacket c;
      if (len packet =? reportSize) && negb (get_u32 (take 4 packet) =? channelID)
      then hidChannelReader fuel reportSize channelID readPacket c
      else ret packet
  end.

(** The loop shared by [discardHIDMessage] and [readHIDError]. *)
Fixpoint assemble_loop (fuel : nat) (readPacket : ctx → M W bytes) (c : ctx)
    (assembler : HidCodec.Assembler) : M W HidCodec.Assembler :=
  match fuel with
  | O => out_of_fuel
  | S fuel =>
      if HidCodec.Done assembler then ret assembler
      else
        _ ←! check_ctx c;
        packet ←! readPacket c;
        assembler ←! lift (HidCodec.Add assembler packet);
        assemble_loop fuel readPacket c assembler
  end.

Definition discardHIDMessage (fuel : nat) (c : ctx) (reportSize channelID command : Z)
    (firstPacket : bytes) (readPacket : ctx → M W bytes) : M W () :=
  codec ←! lift (HidCodec.NewCodec channelID command reportSize);
  assembler ←! lift (HidCodec.Add (HidCodec.NewAssembler codec) firstPacket);
  assembler ←! assemble_loop fuel readPacket c assembler;
  _ ←! lift (HidCodec.Payload assembler);
  ret ().

(** Always an error: the CTAPHID error the message carries, or the failure
    to read it. *)
Definition readHIDError {A} (fuel : nat) (c : ctx) (reportSize channelID : Z)
    (firstPacket : bytes) (readPacket : ctx → M W bytes) : M W A :=
  codec ←! lift (HidCodec.NewCodec channelID hidCommandError reportSize);
  assembler ←! lift (HidCodec.Add (HidCodec.NewAssembler codec) firstPacket);
  assembler ←! assemble_loop fuel readPacket c assembler;
  payload ←! lift (HidCodec.Payload assembler);
  if negb (len payload =? 1)
  then throw (EMsg "transport/usb: invalid CTAPHID error payload length %d")
  else throw (EHID (payload !!! 0%nat)).

Fixpoint read_loop (fuel : nat) (c : ctx) (reportSize channelID : Z)
    (readPacket : ctx → M W bytes) (assembler : HidCodec.Assembler) (firstPacket : bool)
    : M W bytes :=
  match fuel with
  | O => out_of_fuel
  | S fuel' =>
      if HidCodec.Done assembler then lift (HidCodec.Payload assembler)
      else
        _ ←! check_ctx c;
        packet ←! readPacket c;
        if firstPacket && isHIDKeepalivePacket packet reportSize channelID then
          _ ←! discardHIDMessage fuel' c reportSize channelID hidCommandKeepalive packet readPacket;
          read_loop fuel' c reportSize channelID readPacket assembler firstPacket
        else if firstPacket && isHIDCommandPacket packet reportSize channelID hidCommandError then
          readHIDError fuel' c reportSize channelID packet readPacket
        else
          assembler ←! lift (HidCodec.Add assembler packet);
          read_loop fuel' c reportSize channelID readPacket assembler false
  end.

Definition readHIDMessage (fuel : nat) (c : ctx) (reportSize channelID command : Z)
    (readPacket : ctx → M W bytes) : M W bytes :=
  codec ←! lift (HidCodec.NewCodec channelID command reportSize);
  read_loop fuel c reportSize channelID
    (hidChannelReader fuel reportSize channelID readPacket) (HidCodec.NewAssembler codec) true.

Definition exchangeHIDMessage (fuel : nat) (c : ctx) (channelID command reportSize : Z)
    (payload : bytes) (writePacket : ctx → bytes → M W ()) (readPacket : ctx → M W bytes)
    : M W bytes :=
  let fragment_failed e := ETransport "fragment usb hid request" (HidErr.classify e) in
  codec ←! map_err fragment_failed (lift (HidCodec.NewCodec channelID command reportSize));
  packets ←! map_err fragment_failed (lift (HidCodec.Fragment codec payload));
  _ ←! for_each (λ packet,
         _ ←! map_err (ETransport "write usb hid packet") (check_ctx c);
         map_err (λ e, ETransport "write usb hid packet" (HidErr.classify e))
           (writePacket c packet)) packets;
  map_err (λ e, ETransport "read usb hid response" (HidErr.classify e))
    (readHIDMessage fuel c reportSize channelID command readPacket).
End Messages.
End Hid.

Module HidFacts.
Import Hid HidCodec HidCodecFacts.

Section Reading.
Context {W : Type} `{GoContext W}.

(** [reads rp c w ps w']: successive calls of the reader deliver [ps]. *)
Inductive reads (rp : ctx → M W bytes) (c : ctx) : W → list bytes → W → Prop :=
  | reads_nil w : reads rp c w [] w
  | reads_cons w p w1 ps w' :
      rp c w = Some (Ok p, w1) → reads rp c w1 ps w' → reads rp c w (p :: ps) w'.

Lemma reads_app rp c w ps qs w' :
  reads rp c w (ps ++ qs) w' ↔ ∃ w1, reads rp c w ps w1 ∧ reads rp c w1 qs w'.
Proof.
  revert w; induction ps as [|p ps IH]; intros w; simpl.
  - split; [intros; eexists; split; [constructor|done]|].
    intros (w1 & H1 & ?). by inversion H1; subst.
  - split.
    + intros Hr. inversion Hr as [|? ? w1 ? ? Hp Hr']; subst.
      apply IH in Hr' as (w2 & ? & ?). exists w2. split; [by econstructor|done].
    + intros (w2 & Hr & ?). inversion Hr as [|? ? w1 ? ? Hp Hr']; subst.
      econstructor; [done|]. apply IH. eauto.
Qed.

(** A well-sized packet of another channel. *)
Definition foreign_packet (rs ch : Z) (p : bytes) : bool :=
  (len p =? rs) && negb (get_u32 (take 4 p) =? ch).

Definition own (rs ch : Z) (ps : list bytes) : list bytes :=
  List.filter (λ p, negb (foreign_packet rs ch p)) ps.

Lemma channel_reader_skip rp c rs ch fuel w skipped p w' :
  alive c → Forall (λ q, foreign_packet rs ch q = true) skipped →
  foreign_packet rs ch p = false → (length skipped < fuel)%nat →
  reads rp c w (skipped ++ [p]) w' →
  hidChannelReader fuel rs ch rp c w = Some (Ok p, w').
Proof.
  intros Hal Hsk Hp. revert w fuel. induction Hsk as [|q skipped Hq Hsk IH]; intros w fuel Hf Hr;
    destruct fuel as [|fuel]; simpl in Hf; try lia; cbn [hidChannelReader];
    rewrite bind_check_ctx by done; inversion Hr as [|? ? w1 ? ? Hrp Hr']; subst; run_ok Hrp.
  - unfold foreign_packet in Hp. rewrite Hp. inversion Hr'; subst. done.
  - unfold foreign_packet in Hq. rewrite Hq. apply IH; [lia|done].
Qed.

(** Through the channel filter a reader sees its own packets only. *)
Lemma channel_reader_reads rp c rs ch fuel w ps w' :
  alive c → (length ps ≤ fuel)%nat → reads rp c w ps w' →
  (∀ q, last ps = Some q → foreign_packet rs ch q = false) →
  reads (hidChannelReader fuel rs ch rp) c w (own rs ch ps) w'.
Proof.
  intros Hal Hf Hr Hlast.
  enough (Hgen : ∀ skipped w0, Forall (λ q, foreign_packet rs ch q = true) skipped →
    (length skipped + length ps ≤ fuel)%nat → reads rp c w0 skipped w →
    (ps = [] → skipped = []) →
    reads (hidChannelReader fuel rs ch rp) c w0 (own rs ch ps) w').
  { apply (Hgen [] w); [constructor|simpl; lia|constructor|done]. }
  clear Hf. induction Hr as [w|w p w1 ps w' Hp Hr IH]; intros skipped w0 Hsk Hf Hr0 Hnil.
  { rewrite (Hnil eq_refl) in Hr0. inversion Hr0; subst. constructor. }
  assert (Hlast' : ∀ q, last ps = Some q → foreign_packet rs ch q = false).
  { intros q Hq. apply Hlast. by destruct ps. }
  specialize (IH Hlast'). simpl in Hf.
  assert (Hr1 : reads rp c w0 (skipped ++ [p]) w1).
  { apply reads_app. exists w. split; [done|]. econstructor; [done|constructor]. }
  unfold own. simpl. destruct (foreign_packet rs ch p) eqn:Hfp; cbn [negb].
  - apply (IH (skipped ++ [p])); [apply Forall_app; by repeat constructor| |done|].
    + rewrite length_app; simpl; lia.
    + intros ->. by rewrite (Hlast p eq_refl) in Hfp.
  - econstructor.
    + eapply channel_reader_skip; eauto; lia.
    + apply (IH []); [constructor|simpl; lia|constructor|done].
Qed.

(** The assembling loops take the packets that feed the assembler. *)
Lemma assemble_loop_feeds rp c a ps a' fuel w w' :
  alive c → feeds a ps a' → (length ps < fuel)%nat → reads rp c w ps w' →
  assemble_loop fuel rp c a w = Some (Ok a', w').
Proof.
  intros Hal Hfd. revert fuel w. induction Hfd as [a Hd|a p a1 ps a' Hd Hadd Hfd IH];
    intros [|fuel] w Hf Hr; simpl in Hf; try lia; cbn [assemble_loop]; rewrite Hd.
  - inversion Hr; subst. done.
  - rewrite bind_check_ctx by done. inversion Hr as [|? ? w1 ? ? Hrp Hr']; subst.
    run_ok Hrp. unfold lift. rewrite Hadd. apply IH; [lia|done].
Qed.

Lemma read_loop_feeds rp c rs ch a ps a' fuel w w' r :
  alive c → feeds a ps a' → Payload a' = r → (length ps < fuel)%nat → reads rp c w ps w' →
  read_loop fuel c rs ch rp a false w = Some (r, w').
Proof.
  intros Hal Hfd Hpay. revert fuel w. induction Hfd as [a Hd|a p a1 ps a' Hd Hadd Hfd IH];
    intros [|fuel] w Hf Hr; simpl in Hf; try lia; cbn [read_loop]; rewrite Hd.
  - inversion Hr; subst. done.
  - rewrite bind_check_ctx by done. inversion Hr as [|? ? w1 ? ? Hrp Hr']; subst.
    run_ok Hrp. cbn [andb]. unfold lift. rewrite Hadd. apply IH; [done|lia|done].
Qed.

Lemma NewCodec_intro c : codec_ok c →
  NewCodec (channel c) (command c) (reportSize c) = Ok c.
Proof.
  intros (_ & _ & Hrs & Hcmd). unfold NewCodec.
  destruct (Z.leb_spec (reportSize c) 7); [lia|].
  destruct (Z.eqb_spec (Z.land (command c) 128) 0); [done|]. by destruct c.
Qed.

Lemma NewCodec_mk ch cmd rs : codec_ok (MkCodec ch cmd rs) →
  NewCodec ch cmd rs = Ok (MkCodec ch cmd rs).
Proof. apply (NewCodec_intro (MkCodec ch cmd rs)). Qed.

(** The first packet of a fragmented payload. *)
Lemma Fragment_head c payload packets :
  codec_ok c → Fragment c payload = Ok packets →
  ∃ first rest, packets = first :: rest ∧
    ∀ cmd, isHIDCommandPacket first (reportSize c) (channel c) cmd = (command c =? cmd).
Proof.
  intros Hc HF. destruct (Fragment_Ok c payload packets) as (_ & H16 & _ & ->); [apply Hc|done|].
  pose proof (len_nonneg payload).
  eexists _, _. split; [done|]. intros cmd. unfold isHIDCommandPacket.
  set (chunk := take _ _).
  destruct (init_fields c (len payload) chunk Hc ltac:(lia)) as (Hch & Hcmd & _).
  rewrite len_init_packet, Z.eqb_refl by apply Hc. cbn [negb].
  by rewrite Hch, Z.eqb_refl, Hcmd.
Qed.

Lemma discard_feeds c rp fuel k payload first rest w w' :
  alive c → codec_ok k → Fragment k payload = Ok (first :: rest) →
  (length rest < fuel)%nat → reads rp c w rest w' →
  discardHIDMessage fuel c (reportSize k) (channel k) (command k) first rp w = Some (Ok (), w').
Proof.
  intros Hal Hk HF Hf Hr. destruct (fragment_feeds k payload _ Hk HF) as (a & Hfd & Hp).
  inversion Hfd as [|? ? a1 ? ? Hd Hadd Hfd']; subst.
  unfold discardHIDMessage. rewrite NewCodec_intro, bind_lift_Ok, Hadd, bind_lift_Ok by done.
  run_ok (assemble_loop_feeds _ _ _ _ _ _ _ _ Hal Hfd' Hf Hr).
  by rewrite Hp, bind_lift_Ok.
Qed.

(** A keepalive message before the response is skipped as a whole. *)
Lemma read_loop_keepalive rp c rs ch a fuel k payload packets w w1 :
  alive c → codec_ok k → reportSize k = rs → channel k = ch → command k = hidCommandKeepalive →
  Fragment k payload = Ok packets → Done a = false → (length packets ≤ fuel)%nat →
  reads rp c w packets w1 →
  read_loop (S fuel) c rs ch rp a true w = read_loop fuel c rs ch rp a true w1.
Proof.
  intros Hal Hk <- <- Hcmd HF Hd Hf Hr.
  destruct (Fragment_head k payload packets Hk HF) as (first & rest & -> & Hfirst).
  inversion Hr as [|? ? w0 ? ? Hrp Hr']; subst.
  cbn [read_loop]. rewrite Hd, bind_check_ctx by done. run_ok Hrp.
  unfold isHIDKeepalivePacket. rewrite Hfirst, Hcmd, Z.eqb_refl. cbn [andb].
  rewrite <-Hcmd. erewrite bind_Ok; [done|].
  eapply discard_feeds; eauto.
Qed.
End Reading.
End HidFacts.

Module HidProps.
Import Hid HidCodec HidCodecFacts HidFacts.

Section Reading.
Context {W : Type} `{GoContext W}.

(** A response as a device sends it: keepalive messages, then the packets
    of the message itself. *)
Inductive response_stream (rs ch cmd : Z) (payload : bytes) : list bytes → Prop :=
  | stream_message packets :
      Fragment (MkCodec ch cmd rs) payload = Ok packets →
      response_stream rs ch cmd payload packets
  | stream_keepalive keepalive packets rest :
      Fragment (MkCodec ch hidCommandKeepalive rs) keepalive = Ok packets →
      response_stream rs ch cmd payload rest →
      response_stream rs ch cmd payload (packets ++ rest).

Lemma codec_ok_cmd ch cmd cmd' rs :
  byte_ok cmd' → Z.land cmd' 0x80 ≠ 0 →
  codec_ok (MkCodec ch cmd rs) → codec_ok (MkCodec ch cmd' rs).
Proof. unfold codec_ok; simpl. intros ?? (? & ? & ? & ?). auto. Qed.

Lemma keepalive_codec_ok ch cmd rs :
  codec_ok (MkCodec ch cmd rs) → codec_ok (MkCodec ch hidCommandKeepalive rs).
Proof. apply codec_ok_cmd; [unfold byte_ok, hidCommandKeepalive; lia|done]. Qed.

Lemma error_codec_ok ch cmd rs :
  codec_ok (MkCodec ch cmd rs) → codec_ok (MkCodec ch hidCommandError rs).
Proof. apply codec_ok_cmd; [unfold byte_ok, hidCommandError; lia|done]. Qed.

(** After the keepalives the loop sees the message with enough fuel left. *)
Lemma read_loop_stream rp c rs ch cmd payload ps fuel w w' :
  alive c → codec_ok (MkCodec ch cmd rs) →
  response_stream rs ch cmd payload ps → (length ps < fuel)%nat → reads rp c w ps w' →
  ∃ packets fuel' w1, Fragment (MkCodec ch cmd rs) payload = Ok packets ∧
    (length packets < fuel')%nat ∧ reads rp c w1 packets w' ∧
    ∀ a, Done a = false →
      read_loop fuel c rs ch rp a true w = read_loop fuel' c rs ch rp a true w1.
Proof.
  intros Hal Hok Hs. revert fuel w.
  induction Hs as [packets HF|keepalive packets rest HF Hs IH]; intros fuel w Hf Hr.
  { exists packets, fuel, w. eauto. }
  rewrite length_app in Hf.
  assert (Hko := keepalive_codec_ok _ _ _ Hok).
  destruct (Fragment_head _ _ _ Hko HF) as (first & more & -> & _).
  apply reads_app in Hr as (w1 & Hr1 & Hr2). simpl in Hf.
  destruct fuel as [|fuel]; [lia|].
  destruct (IH fuel w1) as (pk & fuel' & w2 & HF2 & Hf2 & Hr3 & Heq); [lia|done|].
  exists pk, fuel', w2. split_and!; try done.
  intros a Hd. rewrite <-(Heq a Hd).
  eapply (read_loop_keepalive rp c rs ch a fuel (MkCodec ch hidCommandKeepalive rs) keepalive);
    try done. simpl; lia.
Qed.

(** Reading a message comes down to the loop on the packets of the answer:
    foreign packets and keepalives are behind it. *)
Lemma readHIDMessage_reaches rp c rs ch cmd cmd' payload ps fuel w w' :
  alive c → codec_ok (MkCodec ch cmd rs) → codec_ok (MkCodec ch cmd' rs) →
  response_stream rs ch cmd' payload (own rs ch ps) →
  (∀ q, last ps = Some q → foreign_packet rs ch q = false) →
  (length ps < fuel)%nat → reads rp c w ps w' →
  ∃ read first rest fuel' w1,
    Fragment (MkCodec ch cmd' rs) payload = Ok (first :: rest) ∧
    (S (length rest) < fuel')%nat ∧ reads read c w1 (first :: rest) w' ∧
    (∀ b, isHIDCommandPacket first rs ch b = (cmd' =? b)) ∧
    readHIDMessage fuel c rs ch cmd rp w =
      read_loop fuel' c rs ch read (NewAssembler (MkCodec ch cmd rs)) true w1.
Proof.
  intros Hal Hok Hok' Hs Hlast Hf Hr.
  assert (Hown : (length (own rs ch ps) ≤ length ps)%nat) by apply List.filter_length_le.
  eapply (channel_reader_reads rp c rs ch fuel) in Hr; [|done|lia|done].
  destruct (read_loop_stream _ _ _ _ _ _ _ fuel _ _ Hal Hok' Hs ltac:(lia) Hr)
    as (packets & fuel' & w1 & HF & Hf' & Hr' & Heq).
  destruct (Fragment_head _ _ _ Hok' HF) as (first & rest & -> & Hcmd).
  exists (hidChannelReader fuel rs ch rp), first, rest, fuel', w1.
  split_and!; try done. unfold readHIDMessage.
  rewrite (NewCodec_mk _ _ _ Hok), bind_lift_Ok. by apply Heq.
Qed.

(** The loop on the packets of a message of the awaited command. *)
Lemma read_loop_message read c rs ch cmd payload first rest fuel w w' :
  alive c → codec_ok (MkCodec ch cmd rs) →
  cmd ≠ hidCommandKeepalive → cmd ≠ hidCommandError →
  Fragment (MkCodec ch cmd rs) payload = Ok (first :: rest) →
  (∀ b, isHIDCommandPacket first rs ch b = (cmd =? b)) →
  (S (length rest) < fuel)%nat → reads read c w (first :: rest) w' →
  read_loop fuel c rs ch read (NewAssembler (MkCodec ch cmd rs)) true w =
    Some (Ok payload, w').
Proof.
  intros Hal Hok Hk He HF Hcmd Hf Hr.
  destruct (fragment_feeds _ _ _ Hok HF) as (a & Hfd & Hpay).
  inversion Hfd as [|? ? a1 ? ? Hd Hadd Hfd']; subst.
  inversion Hr as [|? ? w2 ? ? Hrp Hr']; subst.
  destruct fuel as [|fuel]; [lia|].
  cbn [read_loop]. rewrite Hd, bind_check_ctx by done. run_ok Hrp.
  unfold isHIDKeepalivePacket. rewrite !Hcmd.
  rewrite (proj2 (Z.eqb_neq _ _) Hk), (proj2 (Z.eqb_neq _ _) He). cbn [andb].
  rewrite Hadd, bind_lift_Ok. eapply read_loop_feeds; try done. lia.
Qed.

(** A response is read exactly.  Whatever packets of other channels
    arrive in between, and after any number of keepalive messages,
    [readHIDMessage] returns the payload the device fragmented, and
    consumes the stream up to the last packet of the response and no
    further.  One more unit of fuel than packets is enough. *)
Theorem readHIDMessage_correct (rp : ctx → M W bytes) (c : ctx) (rs ch cmd : Z)
    (payload : bytes) (ps : list bytes) (fuel : nat) (w w' : W) :
  alive c → codec_ok (MkCodec ch cmd rs) →
  cmd ≠ hidCommandKeepalive → cmd ≠ hidCommandError →
  response_stream rs ch cmd payload (own rs ch ps) →
  (∀ q, last ps = Some q → foreign_packet rs ch q = false) →
  (length ps < fuel)%nat → reads rp c w ps w' →
  readHIDMessage fuel c rs ch cmd rp w = Some (Ok payload, w').
Proof.
  intros Hal Hok Hk He Hs Hlast Hf Hr.
  destruct (readHIDMessage_reaches rp c rs ch cmd cmd payload ps fuel w w')
    as (read & first & rest & fuel' & w1 & HF & Hf' & Hr' & Hcmd & ->); try done.
  by eapply read_loop_message.
Qed.

(** A CTAPHID ERROR message that answers the request becomes an error
    value carrying the device's code, again through foreign packets and
    keepalives; it never reaches the caller as a response. *)
Theorem readHIDMessage_error (rp : ctx → M W bytes) (c : ctx) (rs ch cmd code : Z)
    (ps : list bytes) (fuel : nat) (w w' : W) :
  alive c → codec_ok (MkCodec ch cmd rs) →
  response_stream rs ch hidCommandError [code] (own rs ch ps) →
  (∀ q, last ps = Some q → foreign_packet rs ch q = false) →
  (length ps < fuel)%nat → reads rp c w ps w' →
  readHIDMessage fuel c rs ch cmd rp w = Some (Err (EHID code), w').
Proof.
  intros Hal Hok Hs Hlast Hf Hr. assert (Heok := error_codec_ok _ _ _ Hok).
  destruct (readHIDMessage_reaches rp c rs ch cmd hidCommandError [code] ps fuel w w')
    as (read & first & rest & fuel' & w1 & HF & Hf' & Hr' & Hcmd & ->); try done.
  destruct (fragment_feeds _ _ _ Heok HF) as (a & Hfd & Hpay).
  inversion Hfd as [|? ? a1 ? ? Hd Hadd Hfd']; subst.
  inversion Hr' as [|? ? w2 ? ? Hrp Hr'']; subst.
  destruct fuel' as [|fuel']; [lia|].
  cbn [read_loop]. change (Done (NewAssembler _)) with false. cbv iota.
  rewrite bind_check_ctx by done. run_ok Hrp.
  unfold isHIDKeepalivePacket. rewrite !Hcmd. simpl.
  unfold readHIDError. rewrite (NewCodec_mk _ _ _ Heok), bind_lift_Ok, Hadd, bind_lift_Ok.
  run_ok (assemble_loop_feeds _ _ _ _ _ fuel' _ _ Hal Hfd' ltac:(lia) Hr'').
  by rewrite Hpay, bind_lift_Ok.
Qed.
End Reading.

(** ** Termination

    Every read consumes something of a finite supply [mu], as a device that
    stops sending, a wait that times out or a context that ends does. *)
Section Termination.
Context {W : Type} `{GoContext W} (mu : W → nat) (rp : ctx → M W bytes) (c : ctx).

Definition returns {A} (m : M W A) (w : W) : Prop :=
  ∃ r w', m w = Some (r, w') ∧ (mu w' ≤ mu w)%nat.

Definition supply (read : ctx → M W bytes) (n : nat) : Prop := ∀ w,
  (mu w < n)%nat →
  ∃ r w', read c w = Some (r, w') ∧ (mu w' ≤ mu w)%nat ∧
    ∀ p, r = Ok p → (mu w' < mu w)%nat.

Hypothesis poll_mono : ∀ w, (mu (ctx_Err c w).2 ≤ mu w)%nat.

Lemma returns_ret {A} (a : A) w : returns (ret a) w.
Proof. eexists _, _; split; [done|lia]. Qed.
Lemma returns_throw {A} e w : returns (A:=A) (throw e) w.
Proof. eexists _, _; split; [done|lia]. Qed.
Lemma returns_lift {A} (r : res A) w : returns (lift r) w.
Proof. eexists _, _; split; [done|lia]. Qed.
Hint Resolve returns_ret returns_throw returns_lift : io.

Lemma returns_bind {A B} (m : M W A) (k : A → M W B) w :
  returns m w → (∀ a w', m w = Some (Ok a, w') → (mu w' ≤ mu w)%nat → returns (k a) w') →
  returns (bind m k) w.
Proof.
  intros (r & w1 & Hm & Hmu) Hk. unfold returns, bind. rewrite Hm.
  destruct r as [a|e]; [|by eauto].
  destruct (Hk a w1 Hm Hmu) as (r & w2 & ? & ?). exists r, w2. split; [done|lia].
Qed.

Lemma returns_check_ctx w : returns (check_ctx c) w.
Proof.
  unfold returns, check_ctx, call_err. specialize (poll_mono w).
  destruct (ctx_Err c w) as [[e|] w1]; eauto.
Qed.

Ltac returns_lifts :=
  repeat (apply returns_bind; [solve [auto with io]|intros ? ? _ ?]).

(** Reading one packet, the bookkeeping shared by the loops. *)
Lemma returns_read {B} (k : bytes → M W B) (read : ctx → M W bytes) n w :
  supply read n → (mu w < n)%nat →
  (∀ p w', (mu w' < mu w)%nat → returns (k p) w') → returns (bind (read c) k) w.
Proof.
  intros Hs Hmu Hk. destruct (Hs w Hmu) as (r & w1 & Hr & Hle & Hlt).
  apply returns_bind; [by eexists _, _|]. intros p w' Hr' _. rewrite Hr in Hr'. simplify_eq.
  apply Hk. by eapply Hlt.
Qed.

Lemma hidChannelReader_supply fuel rs ch : ∀ n,
  (n ≤ fuel)%nat → supply rp n → supply (hidChannelReader fuel rs ch rp) n.
Proof.
  induction fuel as [|fuel IH]; intros n Hn Hs w Hmu; [lia|].
  cbn [hidChannelReader]. specialize (poll_mono w).
  unfold bind at 1, check_ctx, call_err.
  destruct (ctx_Err c w) as [[e|] w1]; [by eexists _, _|]. simpl in poll_mono.
  unfold bind. destruct (Hs w1 ltac:(lia)) as (r & w2 & -> & Hle & Hlt).
  destruct r as [p|e]; [|eexists _, _; split_and!; [done|lia|done]].
  specialize (Hlt p eq_refl). destruct (_ && _).
  - destruct (IH (Nat.pred n)) with (w := w2) as (r & w3 & Hr & ? & Hp); try lia.
    { intros w' Hw'. apply Hs. lia. }
    exists r, w3. split_and!; [done|lia|]. intros q Hq. specialize (Hp q Hq). lia.
  - eexists _, _. split_and!; [done|lia|]. intros; lia.
Qed.

Lemma assemble_loop_returns read fuel : ∀ a w n,
  (mu w < fuel)%nat → (mu w < n)%nat → supply read n → returns (assemble_loop fuel read c a) w.
Proof.
  induction fuel as [|fuel IH]; intros a w n Hf Hn Hs; [lia|]. cbn [assemble_loop].
  destruct (Done a); [auto with io|].
  apply returns_bind; [apply returns_check_ctx|intros _ w1 _ Hw1].
  apply (returns_read _ read n); [done|lia|intros p w2 Hw2].
  apply returns_bind; [auto with io|intros a1 w3 _ Hw3]. apply (IH _ _ n); [lia|lia|done].
Qed.

Lemma read_loop_returns read rs ch fuel : ∀ a b w n,
  (mu w < fuel)%nat → (mu w < n)%nat → supply read n →
  returns (read_loop fuel c rs ch read a b) w.
Proof.
  induction fuel as [|fuel IH]; intros a b w n Hf Hn Hs; [lia|]. cbn [read_loop].
  destruct (Done a); [auto with io|].
  apply returns_bind; [apply returns_check_ctx|intros _ w1 _ Hw1].
  apply (returns_read _ read n); [done|lia|intros p w2 Hw2].
  assert (Hassemble : ∀ a' w3, (mu w3 ≤ mu w2)%nat → returns (assemble_loop fuel read c a') w3).
  { intros. apply (assemble_loop_returns _ _ _ _ n); [lia|lia|done]. }
  assert (Hloop : ∀ a' b' w3, (mu w3 ≤ mu w2)%nat →
    returns (read_loop fuel c rs ch read a' b') w3) by (intros; apply (IH _ _ _ n); [lia|lia|done]).
  repeat case_match.
  - apply returns_bind; [|auto]. unfold discardHIDMessage. returns_lifts.
    apply returns_bind; [apply Hassemble; lia|intros ? ? _ ?]. returns_lifts. auto with io.
  - unfold readHIDError. returns_lifts.
    apply returns_bind; [apply Hassemble; lia|intros ? ? _ ?]. returns_lifts.
    case_match; auto with io.
  - apply returns_bind; [auto with io|intros ? ? _ ?]. apply Hloop. lia.
Qed.

(** Reading a message terminates.  For a reader that consumes a finite
    supply, [mu w + 1] units of fuel are enough for every loop inside:
    [readHIDMessage] returns a response or an error whatever the device
    sends, keepalives, foreign packets and malformed packets included. *)
Theorem readHIDMessage_terminates (rs ch cmd : Z) (fuel : nat) (w : W) :
  supply rp fuel → (mu w < fuel)%nat →
  ∃ r w', readHIDMessage fuel c rs ch cmd rp w = Some (r, w') ∧ (mu w' ≤ mu w)%nat.
Proof.
  intros Hs Hf. apply returns_bind; [auto with io|intros k w1 _ Hw1].
  eapply (read_loop_returns _ _ _ _ _ _ _ fuel); [lia|lia|].
  by apply hidChannelReader_supply.
Qed.
End Termination.
End HidProps.

(** ** A wire: packets to deliver and packets written *)
Module Wire.
Record wire := MkWire { incoming : list bytes; outgoing : list bytes }.

#[global] Instance wire_context : GoContext wire := λ c w,
  (match c with AlreadyCanceled => Some (ECtx Canceled) | _ => None end, w).

Definition readPacket (c : ctx) : M wire bytes := λ w,
  match incoming w with
  | [] => Some (Err HidErr.ErrTimeout, w)
  | p :: ps => Some (Ok p, MkWire ps (outgoing w))
  end.
Definition writePacket (c : ctx) (p : bytes) : M wire () := λ w,
  Some (Ok (), MkWire (incoming w) (outgoing w ++ [p])).

Lemma caller_alive : alive (W:=wire) Caller.
Proof. done. Qed.

Lemma reads_wire ps out : HidFacts.reads readPacket Caller (MkWire ps out) ps (MkWire [] out).
Proof. induction ps; econstructor; [done|done]. Qed.

Lemma wire_supply n :
  HidProps.supply (λ w, length (incoming w)) Caller readPacket n.
Proof.
  intros [[|p ps] out] Hn; simpl; eexists _, _; split_and!; try done; simpl; lia.
Qed.
End Wire.

Module HidExchange.
Import Hid HidCodec HidCodecFacts HidFacts HidProps.

(** A keepalive, a packet of another channel, then a two-packet answer. *)
Definition sample_stream : list bytes :=
  [[0;0;0;5;0xbb;0;1;2;0;0]; [0;0;0;9;0x90;0;1;7;0;0];
   [0;0;0;5;0x90;0;4;1;2;3]; [0;0;0;5;0;4;0;0;0;0]].

Lemma sample_codec_ok : codec_ok (MkCodec 5 0x90 10).
Proof. unfold codec_ok, byte_ok; simpl. split_and!; first [lia|done]. Qed.

Lemma sample_response : response_stream 10 5 0x90 [1;2;3;4] (own 10 5 sample_stream).
Proof.
  change (own 10 5 sample_stream) with
    ([[0;0;0;5;0xbb;0;1;2;0;0]] ++ [[0;0;0;5;0x90;0;4;1;2;3]; [0;0;0;5;0;4;0;0;0;0]]).
  apply (stream_keepalive _ _ _ _ [2]); [by vm_compute|]. apply stream_message. by vm_compute.
Qed.

Lemma readHIDMessage_correct_witness :
  readHIDMessage 5 Caller 10 5 0x90 Wire.readPacket (Wire.MkWire sample_stream []) =
    Some (Ok [1;2;3;4], Wire.MkWire [] []).
Proof.
  apply (readHIDMessage_correct Wire.readPacket Caller 10 5 0x90 [1;2;3;4] sample_stream).
  - exact Wire.caller_alive.
  - exact sample_codec_ok.
  - done.
  - done.
  - exact sample_response.
  - by intros q [= <-].
  - simpl; lia.
  - apply Wire.reads_wire.
Defined.

Lemma readHIDMessage_error_witness :
  readHIDMessage 3 Caller 10 5 0x90 Wire.readPacket
    (Wire.MkWire [[0;0;0;5;0xbf;0;1;6;0;0]] []) = Some (Err (EHID 6), Wire.MkWire [] []).
Proof.
  apply (readHIDMessage_error Wire.readPacket Caller 10 5 0x90 6 [[0;0;0;5;0xbf;0;1;6;0;0]]).
  - exact Wire.caller_alive.
  - exact sample_codec_ok.
  - apply stream_message. by vm_compute.
  - by intros q [= <-].
  - simpl; lia.
  - apply Wire.reads_wire.
Defined.

Lemma readHIDMessage_terminates_witness :
  ∃ r w', readHIDMessage 5 Caller 10 5 0x90 Wire.readPacket
            (Wire.MkWire [[1];[0;0;0;5;0xbb;9;9;2;0;0];[];[3;3]] []) = Some (r, w') ∧
          (length (Wire.incoming w') ≤ 4)%nat.
Proof.
  apply (readHIDMessage_terminates (λ w, length (Wire.incoming w)) Wire.readPacket Caller).
  - intros w. simpl. lia.
  - apply Wire.wire_supply.
  - simpl; lia.
Defined.

Section Exchange.
Context {W : Type} `{GoContext W}.

(** [writes wp c w ps w']: the packets [ps] are written in order. *)
Inductive writes (wp : ctx → bytes → M W ()) (c : ctx) : W → list bytes → W → Prop :=
  | writes_nil w : writes wp c w [] w
  | writes_cons w p w1 ps w' :
      wp c p w = Some (Ok (), w1) → writes wp c w1 ps w' → writes wp c w (p :: ps) w'.

Lemma for_each_writes wp c w ps w' f g :
  alive c → writes wp c w ps w' →
  for_each (λ p, _ ←! map_err f (check_ctx c); map_err g (wp c p)) ps w = Some (Ok (), w').
Proof.
  intros Hal. induction 1 as [|w p w1 ps w' Hp _ IH]; [done|]. cbn [for_each].
  erewrite bind_Ok; [exact IH|]. erewrite bind_Ok; [by apply map_err_Ok|].
  apply map_err_Ok. by apply check_ctx_alive.
Qed.

Lemma exchangeHIDMessage_runs (wp : ctx → bytes → M W ()) (rp : ctx → M W bytes)
    (c : ctx) (rs ch cmd : Z) (request answer : bytes) (out ps : list bytes)
    (fuel : nat) (w w1 w' : W) :
  alive c → codec_ok (MkCodec ch cmd rs) →
  cmd ≠ hidCommandKeepalive → cmd ≠ hidCommandError →
  Fragment (MkCodec ch cmd rs) request = Ok out →
  writes wp c w out w1 →
  response_stream rs ch cmd answer (own rs ch ps) →
  (∀ q, last ps = Some q → foreign_packet rs ch q = false) →
  (length ps < fuel)%nat → reads rp c w1 ps w' →
  exchangeHIDMessage fuel c ch cmd rs request wp rp w = Some (Ok answer, w').
Proof.
  intros Hal Hok Hk He HF Hw Hs Hlast Hf Hr.
  unfold exchangeHIDMessage. rewrite (NewCodec_mk _ _ _ Hok).
  rewrite (bind_Ok (map_err _ (lift (Ok _))) _ _ _ _ eq_refl), HF.
  rewrite (bind_Ok (map_err _ (lift (Ok _))) _ _ _ _ eq_refl).
  erewrite bind_Ok by (by apply for_each_writes).
  apply map_err_Ok.
  destruct (readHIDMessage_reaches rp c rs ch cmd cmd answer ps fuel w1 w')
    as (read & first & rest & fuel' & w2 & HFa & Hf' & Hr' & Hcmd & ->); try done.
  by eapply read_loop_message.
Qed.

(** One exchange end to end.  The request goes out as the packets of
    [Fragment], each of them once and in order, before anything is read;
    the answer is the payload the device fragmented, whatever foreign
    packets and keepalives surround it. *)
Theorem exchangeHIDMessage_correct (wp : ctx → bytes → M W ()) (rp : ctx → M W bytes)
    (c : ctx) (rs ch cmd : Z) (request answer : bytes) (out ps : list bytes)
    (fuel : nat) (w w1 w' : W) :
  alive c → codec_ok (MkCodec ch cmd rs) →
  cmd ≠ hidCommandKeepalive → cmd ≠ hidCommandError →
  Fragment (MkCodec ch cmd rs) request = Ok out →
  writes wp c w out w1 →
  response_stream rs ch cmd answer (own rs ch ps) →
  (∀ q, last ps = Some q → foreign_packet rs ch q = false) →
  (length ps < fuel)%nat → reads rp c w1 ps w' →
  exchangeHIDMessage fuel c ch cmd rs request wp rp w = Some (Ok answer, w').
Proof. intros. by eapply exchangeHIDMessage_runs. Qed.
End Exchange.

Lemma exchangeHIDMessage_correct_witness :
  exchangeHIDMessage 5 Caller 5 0x90 10 [9;9] Wire.writePacket Wire.readPacket
    (Wire.MkWire sample_stream []) =
    Some (Ok [1;2;3;4], Wire.MkWire [] [[0;0;0;5;0x90;0;2;9;9;0]]).
Proof.
  apply (exchangeHIDMessage_correct Wire.writePacket Wire.readPacket Caller 10 5 0x90 [9;9] [1;2;3;4]
           [[0;0;0;5;0x90;0;2;9;9;0]] sample_stream 5 _
           (Wire.MkWire sample_stream [[0;0;0;5;0x90;0;2;9;9;0]])).
  - exact Wire.caller_alive.
  - exact sample_codec_ok.
  - done.
  - done.
  - by vm_compute.
  - econstructor; [done|constructor].
  - exact sample_response.
  - by intros q [= <-].
  - simpl; lia.
  - apply Wire.reads_wire.
Defined.

(** The session owns INIT, CANCEL, KEEPALIVE and ERROR. *)
Definition session_owned : list Z := [0x06; 0x11; 0x3b; 0x3f].

(** Command admission.  [validateHIDCommand] accepts exactly the logical
    seven-bit commands 1..0x7f that the session does not own; an accepted
    command, encoded by setting bit 7, is one [NewCodec] takes, and is never
    the keepalive or error command whose packets the reader treats apart. *)
Theorem validateHIDCommand_spec (command rs ch : Z) :
  byte_ok command → 7 < rs →
  (validateHIDCommand command = None ↔ 0 < command < 128 ∧ command ∉ session_owned) ∧
  (validateHIDCommand command = None →
     NewCodec ch (Z.lor command 0x80) rs = Ok (MkCodec ch (Z.lor command 0x80) rs) ∧
     Z.lor command 0x80 = command + 128 ∧
     Z.lor command 0x80 ≠ hidCommandKeepalive ∧ Z.lor command 0x80 ≠ hidCommandError).
Proof.
  intros Hb Hrs.
  assert (Hv : match validateHIDCommand command with None => true | _ => false end =
               (0 <? command) && (command <? 128) && negb (existsb (Z.eqb command) session_owned)).
  { apply Bool.eqb_prop.
    by apply (byte_forall (λ b, Bool.eqb (match validateHIDCommand b with None => true | _ => false end)
      ((0 <? b) && (b <? 128) && negb (existsb (Z.eqb b) session_owned)))). }
  assert (Hnew : (if 0 <? command then if command <? 128 then
      (Z.lor command 0x80 =? command + 128) && negb (Z.land (Z.lor command 0x80) 0x80 =? 0)
      else true else true) = true).
  { by apply (byte_forall (λ command, if 0 <? command then if command <? 128 then
      (Z.lor command 0x80 =? command + 128) && negb (Z.land (Z.lor command 0x80) 0x80 =? 0)
      else true else true)). }
  assert (Hiff : validateHIDCommand command = None ↔ 0 < command < 128 ∧ command ∉ session_owned).
  { transitivity ((0 <? command) && (command <? 128) && negb (existsb (Z.eqb command) session_owned) = true).
    { rewrite <-Hv. by destruct (validateHIDCommand command). }
    rewrite !andb_true_iff, negb_true_iff, !Z.ltb_lt, <-not_true_iff_false, existsb_exists.
    setoid_rewrite <-list_elem_of_In. split.
    - intros [? Hne]. split; [done|]. intros Hin. apply Hne. exists command. by rewrite Z.eqb_refl.
    - intros [? Hne]. split; [done|]. by intros (x & Hx & ->%Z.eqb_eq). }
  split; [done|]. intros [Hr Hown]%Hiff.
  rewrite (proj2 (Z.ltb_lt _ _)), (proj2 (Z.ltb_lt _ _)) in Hnew by lia.
  apply andb_true_iff in Hnew as [Hlor%Z.eqb_eq Hland].
  unfold NewCodec. apply negb_true_iff in Hland. rewrite Hland.
  destruct (Z.leb_spec rs 7); [lia|]. rewrite Hlor.
  unfold session_owned in Hown. split_and!; try done.
  - intros Heq. apply Hown. unfold hidCommandKeepalive in Heq.
    replace command with 0x3b by lia. rewrite !elem_of_cons. auto.
  - intros Heq. apply Hown. unfold hidCommandError in Heq.
    replace command with 0x3f by lia. rewrite !elem_of_cons. auto 6.
Qed.

Lemma validateHIDCommand_spec_witness :
  (validateHIDCommand 0x42 = None ↔ 0 < 0x42 < 128 ∧ 0x42 ∉ session_owned) ∧
  (validateHIDCommand 0x42 = None →
     NewCodec 5 (Z.lor 0x42 0x80) 64 = Ok (MkCodec 5 (Z.lor 0x42 0x80) 64) ∧
     Z.lor 0x42 0x80 = 0x42 + 128 ∧
     Z.lor 0x42 0x80 ≠ hidCommandKeepalive ∧ Z.lor 0x42 0x80 ≠ hidCommandError).
Proof. apply (validateHIDCommand_spec 0x42 64 5); [unfold byte_ok|]; lia. Defined.
End HidExchange.

(** ** What reading cannot do

    A relation that reading a packet and polling the context respect is
    respected by the loops built from them. *)
Module HidSteps.
Import Hid.

Section Steps.
Context {W : Type} `{GoContext W} (R : relation W) `{!PreOrder R}.
Variables (c : ctx) (rp : ctx → M W bytes).
Hypothesis poll : ∀ w, R w (ctx_Err c w).2.
Hypothesis read : steps_by R (rp c).

Lemma steps_poll : steps_by R (check_ctx c).
Proof. by apply steps_check_ctx. Qed.
Hint Resolve steps_poll : steps.

Lemma hidChannelReader_steps fuel rs ch : steps_by R (hidChannelReader fuel rs ch rp c).
Proof. induction fuel; cbn [hidChannelReader]; walk. Qed.
End Steps.

Section Loops.
Context {W : Type} `{GoContext W} (R : relation W) `{!PreOrder R}.
Variables (c : ctx) (rp : ctx → M W bytes).
Hypothesis poll : ∀ w, R w (ctx_Err c w).2.
Hypothesis read : steps_by R (rp c).
Hint Resolve steps_poll : steps.

Lemma assemble_loop_steps fuel a : steps_by R (assemble_loop fuel rp c a).
Proof. revert a. induction fuel; intros; cbn [assemble_loop]; walk. Qed.
Hint Resolve assemble_loop_steps : steps.

Lemma read_loop_steps fuel rs ch a b : steps_by R (read_loop fuel c rs ch rp a b).
Proof.
  revert a b. induction fuel; intros; cbn [read_loop]; unfold discardHIDMessage, readHIDError; walk.
Qed.
End Loops.

Section Exchange.
Context {W : Type} `{GoContext W} (R : relation W) `{!PreOrder R}.
Variables (c : ctx) (rp : ctx → M W bytes).
Hypothesis poll : ∀ w, R w (ctx_Err c w).2.
Hypothesis read : steps_by R (rp c).
Hint Resolve steps_poll : steps.

Lemma readHIDMessage_steps fuel rs ch cmd : steps_by R (readHIDMessage fuel c rs ch cmd rp).
Proof.
  unfold readHIDMessage. walk. apply read_loop_steps; [done|done|].
  by apply hidChannelReader_steps.
Qed.

(** The writer is called with the packets of the request only. *)
Lemma exchangeHIDMessage_steps fuel ch cmd rs payload wp :
  (∀ codec out p, HidCodec.NewCodec ch cmd rs = Ok codec →
     HidCodec.Fragment codec payload = Ok out → p ∈ out → steps_by R (wp c p)) →
  steps_by R (exchangeHIDMessage fuel c ch cmd rs payload wp rp).
Proof.
  intros Hw. unfold exchangeHIDMessage.
  destruct (HidCodec.NewCodec ch cmd rs) as [codec|] eqn:Hc; [|by intros w r w' [= <- <-]].
  intros w r w'. rewrite (bind_Ok (map_err _ (lift (Ok codec))) _ _ _ _ eq_refl). revert w r w'.
  destruct (HidCodec.Fragment codec payload) as [out|] eqn:HF; [|by intros w r w' [= <- <-]].
  intros w r w'. rewrite (bind_Ok (map_err _ (lift (Ok out))) _ _ _ _ eq_refl). revert w r w'.
  refine (steps_bind R _ _ _ (λ _, steps_map_err R _ _ (readHIDMessage_steps _ _ _ _))).
  refine (steps_for_each R _ _ (λ p Hp, steps_bind R _ _ (steps_map_err R _ _ _)
            (λ _, steps_map_err R _ _ (Hw _ _ _ eq_refl HF Hp)))).
  by apply steps_poll.
Qed.
End Exchange.
End HidSteps.
