(* ===== verification/Descriptors.v ===== *)
(** * Device descriptors and HID endpoints

    [src/pkg/transport/descriptor.go], [src/pkg/hid/endpoint.go] and the report
    types of [src/pkg/hid/report.go]: the data the transports exchange. *)
From S2P Require Import Prelude GoErrors.

(** Kind of [transport/descriptor.go] is a Go string. *)
Definition KindUSB : string := "usb".
Definition KindNFC : string := "nfc".
Definition KindBLE : string := "ble".
Definition KindUnknown : string := "unknown".

Record DeviceDescriptor := MkDevice {
  ID : string;
  Transport : string;
  Path : string;
  Manufacturer : string;
  Product : string;
  SerialNumber : string;
  VendorID : Z;
  ProductID : Z;
}.

#[global] Instance DeviceDescriptor_dec : EqDecision DeviceDescriptor.
Proof. solve_decision. Defined.

Definition str_empty (s : string) : bool := String.eqb s "".

(** [device.Transport = kind], by value. *)
Definition set_transport (kind : string) (d : DeviceDescriptor) : DeviceDescriptor :=
  MkDevice (ID d) kind (Path d) (Manufacturer d) (Product d) (SerialNumber d) (VendorID d)
    (ProductID d).

Definition DisplayName (device : DeviceDescriptor) : string :=
  if negb (str_empty (Product device)) && negb (str_empty (SerialNumber device))
  then (Product device ++ " (" ++ SerialNumber device ++ ")")%string
  else if negb (str_empty (Product device)) then Product device
  else if negb (str_empty (ID device)) then ID device
  else Transport device.

(** The guard of every [Open]: an empty or unknown transport, or the backend's. *)
Definition transport_allowed (kind : string) (device : DeviceDescriptor) : bool :=
  str_empty (Transport device) || String.eqb (Transport device) KindUnknown
  || String.eqb (Transport device) kind.

(** ** hid/endpoint.go *)
Record Field (T : Type) := MkField { Value : T; Known : bool }.
Arguments MkField {T} Value Known.
Arguments Value {T} f.
Arguments Known {T} f.

Record Usage := MkUsage { Page : Z; UsageID : Z }.

Inductive Bus := BusUnknown | BusUSB | BusBluetooth | BusI2C | BusSPI | BusOther.

#[global] Instance Field_dec {T} `{EqDecision T} : EqDecision (Field T).
Proof. solve_decision. Defined.
#[global] Instance Usage_dec : EqDecision Usage. Proof. solve_decision. Defined.
#[global] Instance Bus_dec : EqDecision Bus. Proof. solve_decision. Defined.

Record Endpoint := MkEndpoint {
  EndpointID : string;
  EPath : string;
  EVendorID : Field Z;
  EProductID : Field Z;
  EUsage : Field Usage;
  EInterface : Field Z;
  EBus : Bus;
  ESerial : Field string;
  EManufacturer : Field string;
  EProduct : Field string;
}.

#[global] Instance Endpoint_dec : EqDecision Endpoint. Proof. solve_decision. Defined.

(** A nil pointer constrains nothing. *)
Record Filter := MkFilter {
  FVendorID : option Z;
  FProductID : option Z;
  FUsage : option Usage;
  FBus : option Bus;
}.

Record EnumerateOptions := MkOptions { OFilter : Filter; ResolveStrings : bool }.

Record Snapshot := MkSnapshot {
  Endpoints : list Endpoint;
  Complete : bool;
  Warnings : list goerror;
}.

(** ** hid/report.go *)
Record ReportSpec := MkSpec { SpecID : Z; Size : Z }.
Record ReportLayout := MkLayout { Input : ReportSpec; Output : ReportSpec }.
Record Report := MkReport { ReportID : Z; Data : bytes }.

#[global] Instance ReportSpec_dec : EqDecision ReportSpec. Proof. solve_decision. Defined.
#[global] Instance ReportLayout_dec : EqDecision ReportLayout. Proof. solve_decision. Defined.
