(* ===== verification/UsbSession.v ===== *)
(** * The native USB session: src/pkg/transport/usb/hid_{session,init,lifetime,error,exchange}.go

    [Session] is the whole session object: the handshake that allocates a
    channel, the exchange of one command under the exchange mutex, the delivery
    evidence an error carries, retirement and closing.  The HID connection, the
    random source, the timer, the queue of the mutex and a concurrent [Close]
    are the environment, an instance of [HidConn].  [Mutex] models the exchange
    mutex itself as a transition system of competing callers. *)
From S2P Require Import Prelude GoErrors WireHID GoIO UsbProtocol Descriptors.

(** ** The environment of a session: hid.Conn, crypto/rand, time, goroutines *)
Class HidConn (W : Type) := {
  conn_ctx :: GoContext W;
  conn_Write : ctx → Report → W → (outcome * option goerror) * W;
  conn_Read : ctx → Z → W → res Report * W;
  conn_Close : ctx → W → option goerror * W;
  rand_Read : nat → W → res bytes * W;
  (** The race of a timer with [ctx.Done()]: the context's error if it won. *)
  timer_or_done : ctx → Z → W → option goerror * W;
  (** The race of [busy <- struct{}{}] with [ctx.Done()]. *)
  mutex_select : ctx → W → option goerror * W;
  (** Whether another goroutine has called [Close] by now. *)
  closed_elsewhere : W → bool * W;
}.

Module Session.
Import Hid.

Definition hidErrorChannelBusy : Z := 0x06.
Definition hidInitTimeout : Z := 3000.
Definition hidInitResponseWait : Z := 300.
Definition hidInitBusyRetries : nat := 20.
Definition hidInitBusyRetryDelay : Z := 50.
Definition hidCloseTimeout : Z := 250.
Definition hidWriteTimeout : Z := 5000.

Record exchangeProgress := MkProgress {
  p_stage : stage;
  packets : Z;
  p_outcome : outcome;
  ambiguous : bool;
}.

Definition progress_wrap (p : exchangeProgress) (err : goerror) : goerror :=
  EExchange (p_stage p) (packets p) (p_outcome p) (ambiguous p) err.

Record hidSession := MkSession {
  mu_held : bool;
  closing : bool;
  device : DeviceDescriptor;
  layout : ReportLayout;
  channelID : Z;
  reportSize : Z;
  progress : option exchangeProgress;
}.

Definition set_mu_held (b : bool) (s : hidSession) : hidSession :=
  MkSession b (closing s) (device s) (layout s) (channelID s) (reportSize s) (progress s).
Definition set_closing (s : hidSession) : hidSession :=
  MkSession (mu_held s) true (device s) (layout s) (channelID s) (reportSize s) (progress s).
Definition set_channelID (ch : Z) (s : hidSession) : hidSession :=
  MkSession (mu_held s) (closing s) (device s) (layout s) ch (reportSize s) (progress s).
Definition set_progress (p : option exchangeProgress) (s : hidSession) : hidSession :=
  MkSession (mu_held s) (closing s) (device s) (layout s) (channelID s) (reportSize s) p.

Definition Device (s : hidSession) : DeviceDescriptor := device s.

Section Operations.
Context {W : Type} `{HidConn W}.

Abbreviation St := (hidSession * W)%type.

#[export] Instance session_context : GoContext St := λ c st,
  let '(e, w') := ctx_Err c st.2 in (e, (st.1, w')).

Definition session : M St hidSession := λ st, Some (Ok st.1, st).
Definition update (f : hidSession → hidSession) : M St () := λ st,
  Some (Ok (), (f st.1, st.2)).
Definition env {A} (f : W → A * W) : M St A := λ st,
  let '(a, w') := f st.2 in Some (Ok a, (st.1, w')).
Definition env_err (f : W → option goerror * W) : M St () :=
  call_err (λ st, let '(e, w') := f st.2 in (e, (st.1, w'))).

(** A nil dereference: no result. *)
Definition panic {A} : M St A := λ _, None.

(** [defer func() { ... }()] that may look at and replace the result. *)
Definition deferred {A} (cleanup : res A → M St A) (body : M St A) : M St A :=
  r ←! attempt body; cleanup r.

(** *** hid_lifetime.go *)
Definition hidCallError (c : ctx) : M St () :=
  _ ←! check_ctx c;
  s ←! session;
  elsewhere ←! env closed_elsewhere;
  if closing s || elsewhere then throw HidErr.ErrClosed else ret ().

Definition retire : M St () :=
  _ ←! update set_closing;
  _ ←! attempt (env_err (conn_Close AlreadyCanceled));
  ret ().

Definition CloseContext (octx : option ctx) : M St () :=
  _ ←! update set_closing;
  match octx with
  | None =>
      _ ←! attempt (env_err (conn_Close AlreadyCanceled));
      throw (ETransport "close usb hid session" HidErr.ErrInvalidArgument)
  | Some c =>
      map_err (λ e, ETransport "close usb hid session" (HidErr.classify e))
        (env_err (conn_Close c))
  end.

Definition Close (background : ctx) : M St () :=
  CloseContext (Some (WithTimeout background hidCloseTimeout)).

(** *** hid_exchange.go: exchangeMutex *)
Definition mutex_unlock : M St () := update (set_mu_held false).

Definition mutex_lock (c : ctx) : M St () :=
  _ ←! check_ctx c;
  _ ←! env_err (mutex_select c);
  _ ←! update (set_mu_held true);
  late ←! attempt (check_ctx c);
  match late with
  | Err e => _ ←! mutex_unlock; throw e
  | Ok _ => ret ()
  end.

(** *** hid_session.go: packets *)
Definition record_write (o : outcome) (s : hidSession) : hidSession :=
  match progress s with
  | None => s
  | Some p =>
      set_progress (Some (MkProgress (p_stage p)
        (match o with OutcomeCompleted => packets p + 1 | _ => packets p end) o
        (match o with OutcomeUnknown => true | _ => ambiguous p end))) s
  end.

(** A local write deadline is reported as a timeout, not as the caller's
    context: [err != nil && ctx.Err() == nil && writeCtx.Err() != nil]. *)
Definition writeError (c writeCtx : ctx) (werr : option goerror) : M St (option goerror) :=
  match werr with
  | None => ret None
  | Some e =>
      caller ←! attempt (check_ctx c);
      match caller with
      | Err _ => ret (Some e)
      | Ok _ =>
          local ←! attempt (check_ctx writeCtx);
          match local with
          | Ok _ => ret (Some e)
          | Err _ => ret (Some (EFmt "transport/usb: HID report write exceeded %s: %w"
                                  [EJoin [HidErr.ErrTimeout; e]]))
          end
      end
  end.

Definition writePacket (c : ctx) (packet : bytes) : M St () :=
  _ ←! hidCallError c;
  s ←! session;
  let writeCtx := WithTimeout c hidWriteTimeout in
  wrote ←! env (conn_Write writeCtx (MkReport (SpecID (Output (layout s))) packet));
  let '(outcome, werr) := wrote in
  err ←! writeError c writeCtx werr;
  _ ←! update (record_write outcome);
  match err with
  | Some e => throw e
  | None => if decide (outcome = OutcomeCompleted) then ret () else throw HidErr.ErrIO
  end.

Definition readPacketWithTimeout (c : ctx) (wait : Z) : M St bytes :=
  _ ←! hidCallError c;
  s ←! session;
  got ←! env (conn_Read c wait);
  report ←! lift got;
  if negb (ReportID report =? SpecID (Input (layout s))) || negb (len (Data report) =? reportSize s)
  then throw HidErr.ErrInvalidReport
  else ret (Data report).

Definition readPacket (c : ctx) : M St bytes := readPacketWithTimeout c 0.

(** *** hid_init.go *)
Definition readInitPacket (c : ctx) : M St bytes :=
  packet ←! attempt (readPacketWithTimeout c hidInitResponseWait);
  live ←! attempt (check_ctx c);
  match live, packet with
  | Ok _, Err e => if Is e "hid.ErrTimeout" then throw (ELocalWait e) else throw e
  | _, r => lift r
  end.

Fixpoint init_responses (fuel : nat) (c : ctx) (reportSize : Z) (nonce : bytes) : M St bytes :=
  match fuel with
  | O => out_of_fuel
  | S fuel' =>
      response ←! readHIDMessage fuel' c reportSize hidBroadcastCID hidCommandInit readInitPacket;
      if len response <? 17 then throw (EMsg "transport/usb: init response is too short")
      else if bytes_eqb (take 8 response) nonce then ret response
      else init_responses fuel' c reportSize nonce
  end.

Definition exchangeInit (fuel : nat) (c : ctx) (nonce : bytes) : M St bytes :=
  s ←! session;
  codec ←! lift (HidCodec.NewCodec hidBroadcastCID hidCommandInit (reportSize s));
  out ←! lift (HidCodec.Fragment codec nonce);
  _ ←! for_each (writePacket c) out;
  init_responses fuel c (reportSize s) nonce.

(** Only a local read wait or a busy channel is answered by a new attempt. *)
Definition retryable (e : goerror) : bool :=
  match As as_local_wait e with
  | Some _ => true
  | None => match As as_hid e with Some code => code =? hidErrorChannelBusy | None => false end
  end.

(** [remaining] is [hidInitBusyRetries - attempt]. *)
Fixpoint retryHIDHandshake {A} (remaining : nat) (c : ctx) (exchange : M St A) : M St A :=
  _ ←! check_ctx c;
  r ←! attempt exchange;
  match r, remaining with
  | Err e, S remaining =>
      if retryable e then
        _ ←! env_err (timer_or_done c hidInitBusyRetryDelay);
        retryHIDHandshake remaining c exchange
      else throw e
  | r, _ => lift r
  end.

Definition start_progress (stage : stage) : M St () :=
  update (set_progress (Some (MkProgress stage 0 OutcomeNotSubmitted false))).

(** One attempt: INIT, then a PING on the allocated channel. *)
Definition handshake (fuel : nat) (c : ctx) : M St Z :=
  drawn ←! env (rand_Read 8);
  nonce ←! lift drawn;
  _ ←! start_progress StageINIT;
  response ←! exchangeInit fuel c nonce;
  let channel := get_u32 (slice 8 12 response) in
  if (channel =? 0) || (channel =? hidBroadcastCID)
  then throw (EMsg "transport/usb: invalid allocated channel %08x")
  else
    _ ←! start_progress StagePING;
    s ←! session;
    echo ←! exchangeHIDMessage fuel c channel hidCommandPing (reportSize s) [] writePacket
              readInitPacket;
    if negb (len echo =? 0) then throw (EMsg "transport/usb: invalid initialization PING echo")
    else ret channel.

Definition initializeChannel (fuel : nat) (caller : ctx) : M St () :=
  let c := WithTimeout caller hidInitTimeout in
  channel ←! retryHIDHandshake hidInitBusyRetries c (handshake fuel c);
  update (set_channelID channel).

(** *** hid_session.go: exchanges *)
Definition ensureChannel (fuel : nat) (c : ctx) : M St () :=
  s ←! session;
  if negb (channelID s =? 0) then ret () else initializeChannel fuel c.

Definition readResponsePacket (c : ctx) : M St bytes :=
  s ←! session;
  match progress s with
  | None => panic
  | Some p =>
      _ ←! update (set_progress (Some (MkProgress StageResponse (packets p) (p_outcome p)
                                         (ambiguous p))));
      readPacket c
  end.

(** The deferred function of [exchange]. *)
Definition settle (r : res bytes) : M St bytes :=
  s ←! session;
  _ ←! update (set_progress None);
  match r with
  | Ok response => ret response
  | Err e =>
      match progress s with
      | None => panic
      | Some p =>
          match As as_hid e with
          | Some _ => throw (progress_wrap p (HidErr.classify e))
          | None =>
              _ ←! retire;
              throw (progress_wrap (MkProgress (p_stage p) (packets p) (p_outcome p)
                                      (ambiguous p || (0 <? packets p))) (HidErr.classify e))
          end
      end
  end.

Definition transact (fuel : nat) (c : ctx) (command : Z) (payload : bytes) : M St bytes :=
  _ ←! map_err (ETransport "initialize usb hid channel") (ensureChannel fuel c);
  _ ←! start_progress StageRequest;
  s ←! session;
  exchangeHIDMessage fuel c (channelID s) command (reportSize s) payload writePacket
    readResponsePacket.

Definition admitted (fuel : nat) (c : ctx) (command : Z) (payload : bytes) : M St bytes :=
  call ←! attempt (hidCallError c);
  match call with
  | Err e =>
      live ←! attempt (check_ctx c);
      _ ←! match live with Err _ => retire | Ok _ => ret () end;
      throw (ETransport "exchange usb hid message" (HidErr.classify e))
  | Ok _ =>
      _ ←! start_progress StageINIT;
      deferred settle (transact fuel c command payload)
  end.

Definition exchange (fuel : nat) (octx : option ctx) (command : Z) (payload : bytes)
    : M St bytes :=
  match octx with
  | None => throw (ETransport "exchange usb hid message" HidErr.ErrInvalidArgument)
  | Some c =>
      s ←! session;
      codec ←! map_err (ETransport "fragment usb hid request")
                 (lift (HidCodec.NewCodec 1 command (reportSize s)));
      _ ←! map_err (ETransport "fragment usb hid request") (lift (HidCodec.Fragment codec payload));
      _ ←! map_err (ETransport "exchange usb hid message") (mutex_lock c);
      deferred (λ r, _ ←! mutex_unlock; lift r) (admitted fuel c command payload)
  end.

Definition isCTAP1APDU (req : bytes) : bool :=
  if (len req <? 4) || negb (req !!! 0%nat =? 0) then false
  else existsb (Z.eqb (req !!! 1%nat)) [1; 2; 3].

Definition hidCommandForRequest (req : bytes) : Z :=
  if isCTAP1APDU req then hidCommandMsg else hidCommandCBOR.

Definition Exchange (fuel : nat) (octx : option ctx) (req : bytes) : M St bytes :=
  exchange fuel octx (hidCommandForRequest req) req.

Definition ExchangeHID (fuel : nat) (octx : option ctx) (command : Z) (payload : bytes)
    : M St bytes :=
  match validateHIDCommand command with
  | Some e => throw (ETransport "exchange usb hid command" e)
  | None => exchange fuel octx (Z.lor command 0x80) payload
  end.
End Operations.
End Session.

(** ** An instrumented connection

    [sent] is what reached [Conn.Write] so far, with the outcome of each call;
    nothing but a write adds to it. *)
Class TracedConn (W : Type) `{HidConn W} := {
  sent : W → list (bytes * outcome);
  sent_poll : ∀ c w, sent (ctx_Err c w).2 = sent w;
  sent_write : ∀ c r w, sent (conn_Write c r w).2 = sent w ++ [(Data r, (conn_Write c r w).1.1)];
  sent_read : ∀ c d w, sent (conn_Read c d w).2 = sent w;
  sent_close : ∀ c w, sent (conn_Close c w).2 = sent w;
  sent_rand : ∀ n w, sent (rand_Read n w).2 = sent w;
  sent_timer : ∀ c d w, sent (timer_or_done c d w).2 = sent w;
  sent_select : ∀ c w, sent (mutex_select c w).2 = sent w;
  sent_elsewhere : ∀ w, sent (closed_elsewhere w).2 = sent w;
}.
#[export] Hint Resolve sent_poll sent_read sent_close sent_rand sent_timer sent_select
  sent_elsewhere : steps.

Module SessionFacts.
Import Hid Session.

Section Quiet.
Context {W : Type} `{TracedConn W}.
Abbreviation St := (hidSession * W)%type.
Context (R : relation St) `{!PreOrder R}.
(** Calls of the environment other than writes. *)
Hypothesis R_env : ∀ s w w', sent w' = sent w → R (s, w) (s, w').

Lemma steps_env {A} (f : W → A * W) : (∀ w, sent (f w).2 = sent w) → steps_by R (env f).
Proof.
  intros Hf [s w] r w'. unfold env; simpl. specialize (Hf w).
  destruct (f w) as [a w1]. intros [= <- <-]. by apply R_env.
Qed.

Lemma steps_env_err (f : W → option goerror * W) :
  (∀ w, sent (f w).2 = sent w) → steps_by R (env_err f).
Proof.
  intros Hf. apply steps_call_err. intros [s w]; simpl. specialize (Hf w).
  destruct (f w) as [a w1]. by apply R_env.
Qed.

Lemma steps_session : steps_by R session.
Proof. intros st r w' [= <- <-]. reflexivity. Qed.

Lemma poll_session c st : R st (ctx_Err c st).2.
Proof.
  destruct st as [s w]. pose proof (sent_poll c w) as Hs.
  unfold ctx_Err at 1, session_context. cbn [fst snd].
  destruct (ctx_Err c w). by apply R_env.
Qed.

Lemma steps_poll_session c : steps_by R (check_ctx c).
Proof. apply steps_check_ctx, poll_session. Qed.

Lemma steps_panic {A} : steps_by (A:=A) R panic.
Proof. by intros w r w'. Qed.
Hint Resolve steps_env steps_env_err steps_session steps_poll_session steps_panic : steps.

Lemma hidCallError_steps c : steps_by R (hidCallError c).
Proof. unfold hidCallError. walk. Qed.
Hint Resolve hidCallError_steps : steps.

Lemma writeError_steps c wc e : steps_by R (writeError c wc e).
Proof. unfold writeError. walk. Qed.

Lemma readPacketWithTimeout_steps c d : steps_by R (readPacketWithTimeout c d).
Proof. unfold readPacketWithTimeout. walk. Qed.
Hint Resolve readPacketWithTimeout_steps : steps.

Lemma readInitPacket_steps c : steps_by R (readInitPacket c).
Proof. unfold readInitPacket. walk. Qed.
End Quiet.

#[export] Hint Resolve steps_env steps_env_err steps_session steps_poll_session steps_panic
  hidCallError_steps readPacketWithTimeout_steps readInitPacket_steps : steps.

(** What one write does to the session and the trace. *)
Section Writes.
Context {W : Type} `{TracedConn W}.
Abbreviation St := (hidSession * W)%type.

Definition quiet (st st' : St) : Prop := st'.1 = st.1 ∧ sent st'.2 = sent st.2.

#[export] Instance quiet_preorder : PreOrder quiet.
Proof. split; [done|]. intros x y z [? ?] [? ?]. split; congruence. Qed.

Lemma quiet_env s w w' : sent w' = sent w → quiet (s, w) (s, w').
Proof. by split. Qed.
Hint Resolve quiet_env : steps.

Definition wrote (p : bytes) (r : res ()) (st st' : St) : Prop :=
  (quiet st st' ∧ r ≠ Ok ()) ∨
  ∃ o, st'.1 = record_write o st.1 ∧ sent st'.2 = sent st.2 ++ [(p, o)] ∧
       (r = Ok () → o = OutcomeCompleted).

Lemma writeError_Ok c wc e (st st' : St) err : writeError c wc e st ≠ Some (Err err, st').
Proof.
  unfold writeError, bind, attempt, ret, check_ctx, call_err.
  repeat (case_match; simplify_eq; try done).
Qed.

Lemma writePacket_wrote c p st r st' :
  writePacket c p st = Some (r, st') → wrote p r st st'.
Proof.
  unfold writePacket. intros [([] & st1 & H1 & H2)|(e & H1 & ->)]%bind_inv;
    [|left; split; [by eapply (hidCallError_steps quiet quiet_env)|done]].
  apply (hidCallError_steps quiet quiet_env) in H1 as [Hs1 Hw1].
  destruct st1 as [s1 w1]; simpl in Hs1, Hw1. subst s1.
  unfold bind at 1, session in H2. cbn [fst snd] in H2.
  unfold bind at 1, env in H2. cbn [fst snd] in H2.
  set (rep := MkReport _ p) in H2. set (wc := WithTimeout c hidWriteTimeout) in *.
  pose proof (sent_write wc rep w1) as Hsent.
  destruct (conn_Write wc rep w1) as [[o e] w2]. cbn [fst snd] in Hsent, H2.
  right. exists o.
  apply bind_inv in H2 as [(err & st3 & H3 & H4)|(e' & H3 & ->)].
  - assert (Hq : quiet (st.1, w2) st3).
    { by eapply (writeError_steps quiet quiet_env). }
    destruct Hq as [Hq1 Hq2]. cbn [fst snd] in Hq1, Hq2.
    unfold bind at 1, update in H4. cbn [fst snd] in H4. rewrite Hq1 in H4.
    assert (Hgoal : st'.1 = record_write o st.1 ∧ sent st'.2 = sent st.2 ++ [(p, o)]
                    ∧ (r = Ok () → o = OutcomeCompleted)).
    { destruct err; [|destruct (decide (o = OutcomeCompleted))];
        injection H4 as <- <-; cbn [fst snd]; rewrite Hq2, Hsent, Hw1; by split_and!. }
    exact Hgoal.
  - exfalso. by eapply writeError_Ok.
Qed.
End Writes.
End SessionFacts.

(** ** The phases of an exchange *)
Module SessionPhases.
Import Hid Session SessionFacts.

(** A packet of the handshake: INIT on the broadcast channel, or a PING. *)
Definition handshake_packet (rs : Z) (p : bytes) : Prop :=
  ∃ ch cmd payload packets,
    ((ch = hidBroadcastCID ∧ cmd = hidCommandInit) ∨ (cmd = hidCommandPing ∧ payload = [])) ∧
    HidCodec.Fragment (HidCodec.MkCodec ch cmd rs) payload = Ok packets ∧ p ∈ packets.

Definition request_packets (ch cmd rs : Z) (payload : bytes) : list bytes :=
  match HidCodec.Fragment (HidCodec.MkCodec ch cmd rs) payload with Ok ps => ps | Err _ => [] end.

(** What no phase changes. *)
Definition fixed (s s' : hidSession) : Prop :=
  mu_held s' = mu_held s ∧ device s' = device s ∧ layout s' = layout s ∧
  reportSize s' = reportSize s ∧ (closing s = true → closing s' = true).
Definition frame (s s' : hidSession) : Prop := fixed s s' ∧ channelID s' = channelID s.

#[export] Instance fixed_preorder : PreOrder fixed.
Proof. split; [done|]. unfold fixed. intros x y z. intuition congruence. Qed.
#[export] Instance frame_preorder : PreOrder frame.
Proof. split; [done|]. intros x y z [? ?] [? ?]. split; [by etransitivity|congruence]. Qed.

Lemma frame_progress s p : frame s (set_progress p s).
Proof. done. Qed.
Lemma frame_record o s : frame s (record_write o s).
Proof. unfold record_write. by destruct (progress s). Qed.
Lemma fixed_channel s ch : fixed s (set_channelID ch s).
Proof. done. Qed.

Definition early (x : stage) : bool := match x with StageINIT | StagePING => true | _ => false end.

Definition completed (log : list (bytes * outcome)) : Z :=
  len (List.filter (λ x : bytes * outcome, bool_decide (x.2 = OutcomeCompleted)) log).
Definition unknown (log : list (bytes * outcome)) : bool :=
  existsb (λ x : bytes * outcome, bool_decide (x.2 = OutcomeUnknown)) log.

Lemma completed_app l k : completed (l ++ k) = completed l + completed k.
Proof. unfold completed. by rewrite List.filter_app, len_app. Qed.
Lemma completed_nil : completed [] = 0.
Proof. done. Qed.
Lemma unknown_app l k : unknown (l ++ k) = unknown l || unknown k.
Proof. apply existsb_app. Qed.

(** Nothing completed and nothing unknown: every write was refused. *)
Lemma refused_writes log : unknown log = false → completed log <= 0 →
  Forall (λ x, x.2 = OutcomeNotSubmitted) log.
Proof.
  induction log as [|[p o] log IH]; [done|].
  change ((p, o) :: log) with ([(p, o)] ++ log).
  rewrite unknown_app, completed_app. intros [Ho Hu]%orb_false_iff Hc.
  pose proof (len_nonneg (List.filter (λ x : bytes * outcome,
    bool_decide (x.2 = OutcomeCompleted)) log)) as Hlen.
  fold (completed log) in Hlen.
  destruct o; [done| |].
  - constructor; [done|]. apply IH; [done|]. unfold completed at 1 in Hc. simpl in Hc.
    rewrite len_nil in Hc. lia.
  - unfold completed at 1 in Hc. simpl in Hc. rewrite len_cons, len_nil in Hc. lia.
Qed.

Section Phases.
Context {W : Type} `{TracedConn W}.
Abbreviation St := (hidSession * W)%type.

(** The handshake: packets of [handshake_packet], an INIT or PING stage. *)
Definition hs_phase (rs : Z) (st st' : St) : Prop :=
  reportSize st.1 = rs →
  frame st.1 st'.1 ∧
  (∃ log, sent st'.2 = sent st.2 ++ log ∧ Forall (λ x, handshake_packet rs x.1) log) ∧
  (∀ p, progress st.1 = Some p → early (p_stage p) = true →
     ∃ p', progress st'.1 = Some p' ∧ early (p_stage p') = true).

(** The request: the progress counts what was written. *)
Definition req_phase (st st' : St) : Prop :=
  frame st.1 st'.1 ∧
  ∃ log, sent st'.2 = sent st.2 ++ log ∧
    ∀ p, progress st.1 = Some p → early (p_stage p) = false →
      ∃ p', progress st'.1 = Some p' ∧ early (p_stage p') = false ∧
        packets p' = packets p + completed log ∧ ambiguous p' = ambiguous p || unknown log.

(** Nothing is written. *)
Definition still (st st' : St) : Prop := frame st.1 st'.1 ∧ sent st'.2 = sent st.2.

#[export] Instance hs_phase_preorder rs : PreOrder (hs_phase rs).
Proof.
  split.
  - intros st _. split_and!; [done| |eauto]. exists []. by rewrite app_nil_r.
  - intros x y z Hx Hy Hrs. destruct (Hx Hrs) as (F1 & (l1 & E1 & P1) & S1).
    assert (Hrs' : reportSize y.1 = rs) by (destruct F1 as [(_ & _ & _ & ? & _) _]; congruence).
    destruct (Hy Hrs') as (F2 & (l2 & E2 & P2) & S2). split_and!; [by etransitivity| |].
    + exists (l1 ++ l2). rewrite E2, E1, <-app_assoc. split; [done|]. by apply Forall_app.
    + intros p Hp He. destruct (S1 p Hp He) as (p1 & Hp1 & He1). by apply (S2 p1).
Qed.

#[export] Instance req_phase_preorder : PreOrder req_phase.
Proof.
  split.
  - intros st. split; [done|]. exists []. rewrite app_nil_r. split; [done|].
    intros p Hp He. exists p. rewrite completed_nil, orb_false_r. split_and!; try done; lia.
  - intros x y z (F1 & l1 & L1 & S1) (F2 & l2 & L2 & S2). split; [by etransitivity|].
    exists (l1 ++ l2). rewrite L2, L1, <-app_assoc. split; [done|]. intros p Hp He.
    destruct (S1 p Hp He) as (p1 & Hp1 & He1 & Hn1 & Ha1).
    destruct (S2 p1 Hp1 He1) as (p2 & Hp2 & He2 & Hn2 & Ha2). exists p2.
    rewrite completed_app, unknown_app, Hn2, Hn1, Ha2, Ha1, orb_assoc. split_and!; try done; lia.
Qed.

#[export] Instance still_preorder : PreOrder still.
Proof.
  split; [done|]. intros x y z [? ?] [? ?]. split; [by etransitivity|congruence].
Qed.

Lemma hs_env rs s w w' : sent w' = sent w → hs_phase rs (s, w) (s, w').
Proof. intros Hw _. split_and!; [done| |eauto]. exists []. by rewrite app_nil_r. Qed.
Lemma req_env s w w' : sent w' = sent w → req_phase (s, w) (s, w').
Proof.
  intros Hw. transitivity (s, w); [reflexivity|]. split; [done|]. exists []. rewrite app_nil_r.
  split; [done|]. intros p Hp He. exists p. rewrite completed_nil, orb_false_r. split_and!; try done. lia.
Qed.
Lemma still_env s w w' : sent w' = sent w → still (s, w) (s, w').
Proof. done. Qed.

(** Writes, in each phase. *)
Lemma record_progress o s p :
  progress s = Some p → ∃ p', progress (record_write o s) = Some p' ∧ p_stage p' = p_stage p ∧
    packets p' = packets p + completed [([], o)] ∧
    ambiguous p' = ambiguous p || unknown [([], o)].
Proof.
  intros Hp. unfold record_write. rewrite Hp. eexists. split; [done|]. simpl.
  destruct o; unfold completed, unknown; simpl; rewrite ?orb_true_r, ?orb_false_r;
    split_and!; try done; rewrite ?len_nil, ?len_cons; lia.
Qed.

Lemma completed_data p q o : completed [(p, o)] = completed [(q, o)].
Proof. unfold completed. by destruct o. Qed.

Lemma writePacket_hs rs c p :
  handshake_packet rs p → steps_by (hs_phase rs) (writePacket c p).
Proof.
  intros Hp st r st' [[[Hs Hw] _]|(o & Hs & Hw & _)]%writePacket_wrote.
  - destruct st, st'; simpl in *. subst. by apply hs_env.
  - intros _. split_and!.
    + rewrite Hs. apply frame_record.
    + exists [(p, o)]. split; [done|]. by repeat constructor.
    + intros q Hq He. rewrite Hs.
      destruct (record_progress o _ _ Hq) as (p' & ? & Hst & _). exists p'. by rewrite Hst.
Qed.

Lemma writePacket_req c p : steps_by req_phase (writePacket c p).
Proof.
  intros st r st' [[[Hs Hw] _]|(o & Hs & Hw & _)]%writePacket_wrote.
  - destruct st, st'; simpl in *. subst. by apply req_env.
  - split; [rewrite Hs; apply frame_record|]. exists [(p, o)]. split; [done|].
    intros q Hq He. rewrite Hs.
    destruct (record_progress o _ _ Hq) as (p' & ? & Hst & ? & ?). exists p'.
    rewrite Hst, (completed_data p []). by split_and!.
Qed.

Lemma readResponsePacket_req c : steps_by req_phase (readResponsePacket c).
Proof.
  intros st r st'. unfold readResponsePacket, bind at 1, session.
  destruct (progress st.1) as [p|] eqn:Hp; [|done].
  unfold bind, update. intros Hrun.
  apply (readPacketWithTimeout_steps req_phase req_env) in Hrun.
  etransitivity; [|exact Hrun]. split; [done|]. exists []. simpl. rewrite app_nil_r.
  split; [done|]. intros q Hq He. rewrite Hp in Hq. injection Hq as <-.
  eexists. split; [done|]. rewrite completed_nil. simpl. rewrite orb_false_r. split_and!; try done. lia.
Qed.

Lemma readResponsePacket_still c : steps_by still (readResponsePacket c).
Proof.
  intros st r st'. unfold readResponsePacket, bind at 1, session.
  destruct (progress st.1) as [p|]; [|done]. unfold bind, update. intros Hrun.
  apply (readPacketWithTimeout_steps still still_env) in Hrun.
  etransitivity; [|exact Hrun]. done.
Qed.
Lemma steps_session_hs {A} rs (k : hidSession → M St A) :
  (∀ s, reportSize s = rs → steps_by (hs_phase rs) (k s)) →
  steps_by (hs_phase rs) (s ←! session; k s).
Proof.
  intros Hk st r st'. unfold bind, session. intros Hrun Hrs. exact (Hk st.1 Hrs st r st' Hrun Hrs).
Qed.

Lemma start_progress_hs rs x : early x = true → steps_by (hs_phase rs) (start_progress x).
Proof.
  intros Hx [s w] r st' [= <- <-] _. split_and!; [done|exists []; by rewrite app_nil_r|].
  intros p _ _. eexists. split; [done|]. by destruct x.
Qed.

Lemma retry_steps {A} (R : relation St) `{!PreOrder R} n c (ex : M St A) :
  (∀ s w w', sent w' = sent w → R (s, w) (s, w')) →
  steps_by R ex → steps_by R (retryHIDHandshake n c ex).
Proof.
  intros HR Hex. induction n; cbn [retryHIDHandshake].
  all: apply steps_bind; [done|by apply steps_poll_session|intros _].
  all: apply steps_bind; [done|by apply steps_attempt|intros r].
  all: destruct r; walk.
  apply steps_env_err; [done|apply sent_timer].
Qed.

Lemma Codec_eq ch cmd rs codec : HidCodec.NewCodec ch cmd rs = Ok codec →
  codec = HidCodec.MkCodec ch cmd rs.
Proof. unfold HidCodec.NewCodec. repeat case_match; by intros [= <-]. Qed.

Lemma init_responses_hs rs rs' fuel c nonce :
  steps_by (hs_phase rs) (init_responses fuel c rs' nonce).
Proof.
  induction fuel as [|fuel IH]; cbn [init_responses]; [walk|].
  apply steps_bind; [apply _| |intros resp; walk].
  apply HidSteps.readHIDMessage_steps; [apply _| |].
  - intros st. apply poll_session, hs_env.
  - apply readInitPacket_steps; [apply _|apply hs_env].
Qed.

Lemma exchangeInit_hs rs fuel c nonce : steps_by (hs_phase rs) (exchangeInit fuel c nonce).
Proof.
  unfold exchangeInit. apply steps_session_hs. intros s Hs. rewrite Hs.
  destruct (HidCodec.NewCodec hidBroadcastCID hidCommandInit rs) as [codec|] eqn:Hc;
    [|by intros ??? [= <- <-]].
  apply Codec_eq in Hc as ->.
  destruct (HidCodec.Fragment (HidCodec.MkCodec hidBroadcastCID hidCommandInit rs) nonce)
    as [out|] eqn:HF; [|intros st r st'; rewrite bind_lift_Ok, HF; by intros [= <- <-]].
  intros st r st'. rewrite bind_lift_Ok, HF, bind_lift_Ok. revert st r st'.
  apply steps_bind; [apply _| |intros _; apply init_responses_hs].
  apply steps_for_each; [apply _|]. intros p Hp. apply writePacket_hs.
  unfold handshake_packet. eauto 10.
Qed.

Lemma handshake_hs rs fuel c : steps_by (hs_phase rs) (handshake fuel c).
Proof.
  unfold handshake.
  apply steps_bind; [apply _|apply steps_env; [apply hs_env|apply sent_rand]|intros drawn].
  apply steps_bind; [apply _|walk|intros nonce].
  apply steps_bind; [apply _|by apply start_progress_hs|intros _].
  apply steps_bind; [apply _|apply exchangeInit_hs|intros response].
  case_match; [walk|].
  apply steps_bind; [apply _|by apply start_progress_hs|intros _].
  apply steps_session_hs. intros s Hs. rewrite Hs.
  apply steps_bind; [apply _| |intros echo; walk].
  apply HidSteps.exchangeHIDMessage_steps; [apply _| | |].
  - intros st. apply poll_session, hs_env.
  - apply readInitPacket_steps; [apply _|apply hs_env].
  - intros codec out p ->%Codec_eq HF Hp. apply writePacket_hs. unfold handshake_packet. eauto 10.
Qed.

(** The channel of a handshake that succeeds. *)
Lemma handshake_channel fuel c st ch st' :
  handshake fuel c st = Some (Ok ch, st') → ch ≠ 0 ∧ ch ≠ hidBroadcastCID.
Proof.
  unfold handshake. intros Hrun.
  repeat (apply bind_inv in Hrun as [(? & ? & _ & Hrun)|(? & _ & ?)]; [|done]).
  cbv zeta in Hrun. destruct (_ || _) eqn:Hg; [done|].
  repeat (apply bind_inv in Hrun as [(? & ? & _ & Hrun)|(? & _ & ?)]; [|done]).
  destruct (negb _); [done|]. injection Hrun as <- <-.
  apply orb_false_iff in Hg as [?%Z.eqb_neq ?%Z.eqb_neq]. done.
Qed.

Lemma retry_Ok {A} n c (ex : M St A) (P : A → Prop) st a st' :
  (∀ st a st', ex st = Some (Ok a, st') → P a) →
  retryHIDHandshake n c ex st = Some (Ok a, st') → P a.
Proof.
  intros Hex. revert st. induction n; intros st; cbn [retryHIDHandshake];
    intros [([] & st1 & _ & Hrun)|(? & _ & ?)]%bind_inv; try done;
    apply bind_inv in Hrun as [(r & st2 & Ha & Hrun)|(? & _ & ?)]; try done;
    unfold attempt in Ha; destruct (ex st1) as [[r' st3]|] eqn:E; try done; simplify_eq;
    destruct r as [a'|e]; try (injection Hrun as <- <-; by eapply Hex); try done.
  destruct (retryable e); [|done].
  apply bind_inv in Hrun as [([] & st4 & _ & Hrun)|(? & _ & ?)]; [|done]. by eapply IHn.
Qed.

(** The channel is allocated by handshake packets, or was there. *)
Lemma ensureChannel_run fuel c st r st' p :
  ensureChannel fuel c st = Some (r, st') → progress st.1 = Some p → early (p_stage p) = true →
  fixed st.1 st'.1 ∧
  (∃ log, sent st'.2 = sent st.2 ++ log ∧
     Forall (λ x, handshake_packet (reportSize st.1) x.1) log ∧ (channelID st.1 ≠ 0 → log = [])) ∧
  (∃ p', progress st'.1 = Some p' ∧ early (p_stage p') = true) ∧
  (channelID st.1 ≠ 0 → channelID st'.1 = channelID st.1) ∧
  (r = Ok () → channelID st'.1 ≠ 0) ∧
  (channelID st.1 = 0 → r = Ok () → channelID st'.1 ≠ hidBroadcastCID) ∧
  (∀ e, r = Err e → channelID st'.1 = channelID st.1).
Proof.
  intros Hrun Hp He. unfold ensureChannel, bind at 1, session in Hrun.
  destruct (Z.eqb_spec (channelID st.1) 0) as [Hz|Hz]; cbn [negb] in Hrun.
  2: { injection Hrun as <- <-. split_and!; try done; [|by eauto]. exists []. by rewrite app_nil_r. }
  unfold initializeChannel in Hrun.
  assert (Hsteps : ∀ c, steps_by (hs_phase (reportSize st.1))
    (retryHIDHandshake hidInitBusyRetries c (handshake fuel c)))
    by (intros; apply retry_steps; [apply _|apply hs_env|apply handshake_hs]).
  apply bind_inv in Hrun as [(ch & st1 & H1 & H2)|(e & H1 & ->)].
  - pose proof (retry_Ok _ _ _ _ _ _ _ (handshake_channel _ _) H1) as [Hc0 Hcb].
    destruct (Hsteps _ _ _ _ H1 eq_refl) as ([HF _] & (log & ? & ?) & Hprog).
    injection H2 as <- <-. destruct (Hprog p Hp He) as (p' & ? & ?).
    split_and!; try done; [by exists log|by exists p'].
  - destruct (Hsteps _ _ _ _ H1 eq_refl) as ([HF HF'] & (log & ? & ?) & Hprog).
    split_and!; try done; [by exists log|by apply Hprog with p].
Qed.

(** Packets go out one after the other: a prefix of the request, all of it
    when the response was read. *)
Lemma for_each_prefix c f g out : ∀ (st : St) r st',
  for_each (λ p, _ ←! map_err f (check_ctx c); map_err g (writePacket c p)) out st =
    Some (r, st') →
  ∃ log n, sent st'.2 = sent st.2 ++ log ∧ map fst log = take n out ∧
    (r = Ok () → map fst log = out ∧ completed log = len out).
Proof.
  induction out as [|p out IH]; intros st r st'; cbn [for_each].
  { intros [= <- <-]. exists [], O. by rewrite app_nil_r. }
  intros [([] & st1 & H1 & H2)|(e & H1 & ->)]%bind_inv.
  - apply bind_inv in H1 as [([] & st0 & Hc & Hw)|(? & _ & ?)]; [|done].
    assert (Hq : quiet st st0).
    { eapply (steps_map_err quiet); [|exact Hc]. apply steps_poll_session, quiet_env. }
    destruct Hq as [_ Hq].
    unfold map_err in Hw. destruct (writePacket c p st0) as [[[[]|e] st1']|] eqn:E; simplify_eq.
    apply writePacket_wrote in E as [[_ ?]|(o & _ & Hs & Ho)]; [done|].
    destruct (IH _ _ _ H2) as (log & n & Hs2 & Hp & Hr).
    exists ((p, o) :: log), (S n). split_and!.
    + rewrite Hs2, Hs, Hq, <-app_assoc. done.
    + simpl. by rewrite Hp.
    + intros Hok. destruct (Hr Hok) as [Hm Hn]. simpl. rewrite Hm. split; [done|].
      rewrite (Ho eq_refl), len_cons, <-Hn. unfold completed. simpl. apply len_cons.
  - apply bind_inv in H1 as [([] & st0 & Hc & Hw)|(? & Hc & ?)].
    + assert (Hq : quiet st st0).
      { eapply (steps_map_err quiet); [|exact Hc]. apply steps_poll_session, quiet_env. }
      destruct Hq as [_ Hq].
      unfold map_err in Hw. destruct (writePacket c p st0) as [[[[]|e'] st1']|] eqn:E; simplify_eq.
      apply writePacket_wrote in E as [[[_ Hs] _]|(o & _ & Hs & Ho)].
      * exists [], O. by rewrite app_nil_r, Hs, Hq.
      * exists [(p, o)], 1%nat. rewrite Hs, Hq. by split_and!.
    + assert (Hq : quiet st st').
      { eapply (steps_map_err quiet); [|exact Hc]. apply steps_poll_session, quiet_env. }
      destruct Hq as [_ Hq]. exists [], O. by rewrite app_nil_r, Hq.
Qed.

Lemma request_prefix fuel c ch cmd rs payload (st : St) r st' :
  exchangeHIDMessage fuel c ch cmd rs payload writePacket readResponsePacket st = Some (r, st') →
  ∃ log n, sent st'.2 = sent st.2 ++ log ∧
    map fst log = take n (request_packets ch cmd rs payload) ∧
    (∀ a, r = Ok a → map fst log = request_packets ch cmd rs payload).
Proof.
  unfold exchangeHIDMessage, request_packets.
  destruct (HidCodec.NewCodec ch cmd rs) as [codec|] eqn:Hc.
  2: { intros [= <- <-]. exists [], O. by rewrite app_nil_r. }
  apply Codec_eq in Hc as ->. rewrite (bind_Ok (map_err _ (lift (Ok _))) _ _ _ _ eq_refl).
  destruct (HidCodec.Fragment _ payload) as [out|].
  2: { intros [= <- <-]. exists [], O. by rewrite app_nil_r. }
  rewrite (bind_Ok (map_err _ (lift (Ok _))) _ _ _ _ eq_refl).
  intros [([] & st1 & H1 & H2)|(e & H1 & ->)]%bind_inv;
    destruct (for_each_prefix _ _ _ _ _ _ _ H1) as (log & n & Hs & Hp & Hr).
  - exists log, n. assert (Hq : still st1 st').
    { eapply (steps_map_err still); [|exact H2]. apply HidSteps.readHIDMessage_steps.
      - apply _.
      - intros ?. apply poll_session, still_env.
      - apply readResponsePacket_still. }
    destruct Hq as [_ Hq]. rewrite Hq. split_and!; [done|done|]. intros. by apply Hr.
  - exists log, n. by split_and!.
Qed.

(** The whole transaction under the mutex, before the deferred function. *)
Record transacted (st st' : St) (cmd : Z) (payload : bytes) (r : res bytes)
    (handshakes app : list (bytes * outcome)) := {
  tr_fixed : fixed st.1 st'.1;
  tr_sent : sent st'.2 = sent st.2 ++ handshakes ++ app;
  tr_handshakes : Forall (λ x, handshake_packet (reportSize st.1) x.1) handshakes;
  tr_established : channelID st.1 ≠ 0 → handshakes = [] ∧ channelID st'.1 = channelID st.1;
  tr_prefix : ∃ n, map fst app =
    take n (request_packets (channelID st'.1) cmd (reportSize st.1) payload);
  tr_all : ∀ a, r = Ok a →
    map fst app = request_packets (channelID st'.1) cmd (reportSize st.1) payload;
  tr_progress : ∃ p, progress st'.1 = Some p ∧
    (early (p_stage p) = true → app = []) ∧
    (early (p_stage p) = false → packets p = completed app ∧ ambiguous p = unknown app);
}.

Lemma transact_run fuel c cmd payload (st : St) r st' p :
  transact fuel c cmd payload st = Some (r, st') →
  progress st.1 = Some p → early (p_stage p) = true →
  ∃ handshakes app, transacted st st' cmd payload r handshakes app.
Proof.
  unfold transact. intros [([] & st1 & H1 & H2)|(e & H1 & ->)]%bind_inv Hp He;
    unfold map_err in H1; destruct (ensureChannel fuel c st) as [[[[]|e1] st1']|] eqn:E;
    simplify_eq;
    destruct (ensureChannel_run _ _ _ _ _ _ E Hp He)
      as (HF & (log & Hs & Hl & Hnil) & (p' & Hp' & He') & Hch & _).
  - unfold bind, start_progress, session, update in H2. cbn [fst snd] in H2.
    destruct (request_prefix _ _ _ _ _ _ _ _ _ H2) as (rq & n & Hs2 & Hpre & Hall).
    assert (Hreq : req_phase (set_progress (Some (MkProgress StageRequest 0 OutcomeNotSubmitted
      false)) st1.1, st1.2) st').
    { eapply HidSteps.exchangeHIDMessage_steps; [| | | |exact H2].
      - apply _.
      - intros ?. apply poll_session, req_env.
      - apply readResponsePacket_req.
      - intros. apply writePacket_req. }
    destruct Hreq as ([HF2 Hch2] & rq' & Hs3 & Hev). cbn [fst snd] in *.
    rewrite Hs3 in Hs2. apply app_inv_head in Hs2 as ->.
    assert (Hrs : reportSize st.1 = reportSize st1.1) by (by destruct HF as (_ & _ & _ & -> & _)).
    exists log, rq. simpl in Hpre, Hall; rewrite <-Hrs in Hpre, Hall. split.
    + etransitivity; [exact HF|exact HF2].
    + rewrite Hs3, Hs. by rewrite app_assoc.
    + done.
    + intros Hne. split; [by apply Hnil|]. rewrite Hch2. by apply Hch.
    + exists n. rewrite Hch2. done.
    + intros. rewrite Hch2. by eapply Hall.
    + destruct (Hev _ eq_refl eq_refl) as (q & Hq & Hqe & Hn & Ha). exists q.
      split_and!; [done|by rewrite Hqe|done].
  - exists log, []. split; try done.
    + by rewrite app_nil_r.
    + intros Hne. split; [by apply Hnil|by apply Hch].
    + by exists O.
    + exists p'. by rewrite He'.
Qed.

(** Between calls nobody holds the mutex and no progress is recorded. *)
Definition idle (s : hidSession) : Prop := mu_held s = false ∧ progress s = None.

Inductive exchanged (st : St) (cmd : Z) (payload : bytes) : res bytes → St → Prop :=
  | exchange_refused op e st' :
      quiet st st' → exchanged st cmd payload (Err (ETransport op e)) st'
  | exchange_canceled op e st' :
      idle st'.1 → closing st'.1 = true → channelID st'.1 = channelID st.1 →
      sent st'.2 = sent st.2 → exchanged st cmd payload (Err (ETransport op e)) st'
  | exchange_answered st0 st1 st' handshakes app a :
      frame (set_mu_held true st.1) st0.1 → sent st0.2 = sent st.2 →
      transacted st0 st1 cmd payload (Ok a) handshakes app →
      idle st'.1 → channelID st'.1 = channelID st1.1 → sent st'.2 = sent st1.2 →
      exchanged st cmd payload (Ok a) st'
  | exchange_failed st0 st1 st' handshakes app e p amb :
      frame (set_mu_held true st.1) st0.1 → sent st0.2 = sent st.2 →
      transacted st0 st1 cmd payload (Err e) handshakes app →
      progress st1.1 = Some p →
      idle st'.1 → channelID st'.1 = channelID st1.1 → sent st'.2 = sent st1.2 →
      (As as_hid e = None → closing st'.1 = true ∧ amb = ambiguous p || (0 <? packets p)) →
      exchanged st cmd payload
        (Err (EExchange (p_stage p) (packets p) (p_outcome p) amb (HidErr.classify e))) st'.

Lemma retire_run st r st' : retire st = Some (r, st') →
  st'.1 = set_closing st.1 ∧ sent st'.2 = sent st.2 ∧ r = Ok ().
Proof.
  unfold retire, bind, update, attempt, env_err, call_err, ret. cbn [fst snd].
  pose proof (sent_close AlreadyCanceled st.2) as Hc.
  destruct (conn_Close AlreadyCanceled st.2) as [[e|] w]; intros [= <- <-]; done.
Qed.

Lemma settle_run r p st r' st' : settle r st = Some (r', st') → progress st.1 = Some p →
  fixed st.1 st'.1 ∧ channelID st'.1 = channelID st.1 ∧ progress st'.1 = None ∧
  sent st'.2 = sent st.2 ∧
  match r with
  | Ok a => r' = Ok a
  | Err e => ∃ amb, r' = Err (EExchange (p_stage p) (packets p) (p_outcome p) amb
                               (HidErr.classify e)) ∧
      (As as_hid e = None → closing st'.1 = true ∧ amb = ambiguous p || (0 <? packets p))
  end.
Proof.
  intros Hrun Hp. unfold settle, bind at 1, session, bind at 1, update in Hrun.
  cbn [fst snd] in Hrun. destruct r as [a|e]; [by injection Hrun as <- <-|].
  rewrite Hp in Hrun. destruct (As as_hid e) as [code|] eqn:Ha.
  - injection Hrun as <- <-. split_and!; try done. eexists. by split.
  - apply bind_inv in Hrun as [([] & st1 & H1 & H2)|(? & H1 & ?)];
      apply retire_run in H1 as (Hs & Hw & ?); [|done].
    injection H2 as <- <-. rewrite Hs. split_and!; try done. eexists. by split.
Qed.

Lemma lock_run c (st : St) r st' : mutex_lock c st = Some (r, st') → mu_held st.1 = false →
  sent st'.2 = sent st.2 ∧
  match r with Ok _ => st'.1 = set_mu_held true st.1 | Err _ => st'.1 = st.1 end.
Proof.
  intros Hrun Hm. unfold mutex_lock in Hrun.
  assert (Hset : set_mu_held false st.1 = st.1) by (by destruct st.1; simpl in *; subst).
  apply bind_inv in Hrun as [([] & st1 & H1 & Hrun)|(e & H1 & ->)];
    apply (steps_poll_session quiet quiet_env) in H1 as [Hs1 Hw1]; [|done].
  apply bind_inv in Hrun as [([] & st2 & H2 & Hrun)|(e & H2 & ->)];
    apply (steps_env_err quiet quiet_env) in H2 as [Hs2 Hw2]; auto using sent_select.
  2: { split; congruence. }
  unfold bind at 1, update in Hrun. apply bind_inv in Hrun as [(late & st3 & H3 & Hrun)|(e & H3 & ->)].
  2: { unfold attempt in H3. by destruct (check_ctx c _) as [[]|]. }
  apply (steps_attempt quiet) in H3 as [Hs3 Hw3]; [|apply (steps_poll_session quiet quiet_env)].
  cbn [fst snd] in *.
  destruct late as [[]|e].
  - injection Hrun as <- <-. rewrite Hs3, Hs2, Hs1. split; [congruence|done].
  - unfold bind, mutex_unlock, update, throw in Hrun. cbn [fst snd] in Hrun.
    injection Hrun as <- <-. cbn [fst snd]. rewrite Hs3, Hs2, Hs1. split; [congruence|].
    rewrite <-Hset at 2. done.
Qed.

Lemma attempt_never_fails {A} (m : M St A) st e st' : attempt m st ≠ Some (Err e, st').
Proof. unfold attempt. by destruct (m st) as [[]|]. Qed.

(** The body of [exchange] after the mutex, up to its release. *)
Lemma admitted_run fuel c cmd payload st0 r st1 :
  admitted fuel c cmd payload st0 = Some (r, st1) → progress st0.1 = None →
  (∃ e, r = Err (ETransport "exchange usb hid message" e) ∧ sent st1.2 = sent st0.2 ∧
     (st1.1 = st0.1 ∨ st1.1 = set_closing st0.1)) ∨
  ∃ st0' st2 r0 handshakes app p,
    frame st0.1 st0'.1 ∧ sent st0'.2 = sent st0.2 ∧
    transacted st0' st2 cmd payload r0 handshakes app ∧ progress st2.1 = Some p ∧
    settle r0 st2 = Some (r, st1).
Proof.
  intros Hrun Hp. unfold admitted in Hrun.
  apply bind_inv in Hrun as [(call & st2 & H1 & Hrun)|(e & H1 & _)];
    [|by apply attempt_never_fails in H1].
  apply (steps_attempt quiet) in H1 as [Hs1 Hw1]; [|apply (hidCallError_steps quiet quiet_env)].
  destruct call as [[]|e].
  - unfold bind at 1, start_progress, update in Hrun. unfold deferred in Hrun.
    apply bind_inv in Hrun as [(r0 & st3 & H2 & H3)|(e & H2 & _)];
      [|by apply attempt_never_fails in H2].
    unfold attempt in H2. destruct (transact _ _ _ _ _) as [[r1 st4]|] eqn:E; simplify_eq.
    destruct (transact_run _ _ _ _ _ _ _ _ E eq_refl eq_refl) as (hs & rq & Htr).
    destruct (tr_progress _ _ _ _ _ _ _ Htr) as (p & Hpr & _).
    right. eexists (_, _), st3, r0, hs, rq, p. split_and!; [|exact Hw1|exact Htr|done|done].
    cbn [fst snd]. rewrite Hs1. apply frame_progress.
  - left. exists (HidErr.classify e).
    apply bind_inv in Hrun as [(live & st3 & H2 & Hrun)|(e' & H2 & _)];
      [|by apply attempt_never_fails in H2].
    apply (steps_attempt quiet) in H2 as [Hs2 Hw2]; [|apply (steps_poll_session quiet quiet_env)].
    destruct live as [[]|e'].
    + injection Hrun as <- <-. split_and!; [done|congruence|left; congruence].
    + apply bind_inv in Hrun as [([] & st4 & H3 & Hrun)|(? & H3 & ?)];
        apply retire_run in H3 as (Hs3 & Hw3 & ?); [|done].
      injection Hrun as <- <-. split_and!; [done|congruence|right; congruence].
Qed.

Lemma exchange_run fuel octx cmd payload (st : St) r st' :
  exchange fuel octx cmd payload st = Some (r, st') → idle st.1 → exchanged st cmd payload r st'.
Proof.
  intros Hrun [Hm Hp]. destruct octx as [c|]; [|injection Hrun as <- <-; by apply exchange_refused].
  unfold exchange, bind at 1, session in Hrun.
  destruct (HidCodec.NewCodec 1 cmd _) as [codec|e]; [|injection Hrun as <- <-; by apply exchange_refused].
  rewrite (bind_Ok (map_err _ (lift (Ok _))) _ _ _ _ eq_refl) in Hrun.
  destruct (HidCodec.Fragment codec payload) as [out|e]; [|injection Hrun as <- <-; by apply exchange_refused].
  rewrite (bind_Ok (map_err _ (lift (Ok _))) _ _ _ _ eq_refl) in Hrun.
  apply bind_inv in Hrun as [([] & st1 & H1 & Hrun)|(e & H1 & ->)];
    unfold map_err in H1; destruct (mutex_lock c st) as [[[[]|e1] st1']|] eqn:E; simplify_eq;
    apply lock_run in E as [Hw1 Hs1]; try done; [|by apply exchange_refused].
  unfold deferred in Hrun.
  apply bind_inv in Hrun as [(r0 & st2 & H2 & Hrun)|(e & H2 & _)];
    [|by apply attempt_never_fails in H2].
  unfold bind, mutex_unlock, update, lift in Hrun. injection Hrun as <- <-.
  unfold attempt in H2. destruct (admitted _ _ _ _ _) as [[r1 st3]|] eqn:E; simplify_eq.
  assert (Hp1 : progress st1.1 = None) by (by rewrite Hs1).
  destruct (admitted_run _ _ _ _ _ _ _ E Hp1)
    as [(e & -> & Hw2 & [Hs2|Hs2])|(st0 & st3 & r1 & hs & rq & p & Hf & Hw0 & Htr & Hpr & Hset)].
  - apply exchange_refused. split; [|simpl; congruence]. simpl. rewrite Hs2, Hs1. destruct st.1. simpl in *. by subst.
  - apply exchange_canceled; simpl; rewrite ?Hs2, ?Hs1; [by split|done|done|congruence].
  - destruct (settle_run _ _ _ _ _ Hset Hpr) as (_ & Hch & Hnone & Hw3 & Hres).
    rewrite Hs1 in Hf. rewrite Hw1 in Hw0.
    destruct r1 as [a|e].
    + subst r0. by eapply exchange_answered.
    + destruct Hres as (amb & -> & Hamb). by eapply exchange_failed.
Qed.
End Phases.
End SessionPhases.

Module SessionProps.
Import Hid Session SessionFacts SessionPhases.

Section Properties.
Context {W : Type} `{TracedConn W}.
Abbreviation St := (hidSession * W)%type.

(** C1: an application command is never replayed.  Whatever the device,
    the timers and the caller do, the packets one [exchange] writes are
    handshake packets (INIT on the broadcast channel and empty PINGs, none
    at all when the channel is already established) followed by a prefix of
    the packets of the request on the session's channel, in order and each
    at most once; a call that returns a response has written all of them. *)
Theorem exchange_once (fuel : nat) (octx : option ctx) (cmd : Z) (payload : bytes)
    (st : St) (r : res bytes) (st' : St) :
  idle st.1 → exchange fuel octx cmd payload st = Some (r, st') →
  ∃ handshakes request, sent st'.2 = sent st.2 ++ handshakes ++ request ∧
    Forall (λ x, handshake_packet (reportSize st.1) x.1) handshakes ∧
    (channelID st.1 ≠ 0 → handshakes = [] ∧ channelID st'.1 = channelID st.1) ∧
    (∃ n, map fst request =
       take n (request_packets (channelID st'.1) cmd (reportSize st.1) payload)) ∧
    (∀ a, r = Ok a →
       map fst request = request_packets (channelID st'.1) cmd (reportSize st.1) payload).
Proof.
  intros Hidle Hrun. destruct (exchange_run _ _ _ _ _ _ _ Hrun Hidle)
    as [op e st' [Hs Hw]|op e st' Hi Hcl Hch Hw
       |st0 st1 st' hs rq a Hf Hw0 Htr Hi Hch Hw|st0 st1 st' hs rq e p amb Hf Hw0 Htr _ Hi Hch Hw _].
  1, 2: exists [], []; simpl; rewrite ?app_nil_r; split_and!; try done; try by exists O.
  { by rewrite Hs. }
  all: destruct Htr as [Hfix Hsent Hhs Hest Hpre Hall _];
    destruct Hf as [(_ & _ & _ & Hrs & _) Hc0]; simpl in Hrs, Hc0;
    rewrite Hrs, Hc0 in *; exists hs, rq; rewrite Hw, Hch, <-Hw0; by split_and!.
Qed.

(** C10: a failed transaction leaves a usable session or a retired one,
    never an unsettled one.  After any [exchange] the mutex is free and no
    progress is pending; an error either left the session untouched and
    wrote nothing, or carries the CTAPHID error the device answered with,
    or has retired the session, so that no later exchange can take the late
    response of this one. *)
Theorem exchange_settles (fuel : nat) (octx : option ctx) (cmd : Z) (payload : bytes)
    (st : St) (r : res bytes) (st' : St) :
  idle st.1 → exchange fuel octx cmd payload st = Some (r, st') →
  idle st'.1 ∧
  ∀ e, r = Err e →
    (st'.1 = st.1 ∧ sent st'.2 = sent st.2) ∨
    (∃ code, As as_hid e = Some code) ∨
    closing st'.1 = true.
Proof.
  intros Hidle Hrun. destruct (exchange_run _ _ _ _ _ _ _ Hrun Hidle)
    as [op e st' [Hs Hw]|op e st' Hi Hcl Hch Hw
       |st0 st1 st' hs rq a Hf Hw0 Htr Hi Hch Hw|st0 st1 st' hs rq e p amb Hf Hw0 Htr _ Hi Hch Hw Hc].
  - split; [by rewrite Hs|]. intros ? _. by left.
  - split; [done|]. intros ? _. by right; right.
  - by split.
  - split; [done|]. intros ? [= <-]. right. simpl.
    rewrite (classified_As as_hid e (HidErr.classify e)) by (done || apply classifyHIDError_classified).
    destruct (As as_hid e) as [code|]; [by left; eexists|right]. by apply Hc.
Qed.

(** C11: the delivery evidence in an [ExchangeError] is sound.  An error of
    the INIT or PING stage proves that no packet of the request was
    written; one of the later stages counts exactly the packets the
    connection confirmed; and when it says the delivery is not ambiguous
    and there is no CTAPHID error, every attempted write was refused before
    submission. *)
Theorem exchange_evidence (fuel : nat) (octx : option ctx) (cmd : Z) (payload : bytes)
    (st st' : St) (stg : stage) (n : Z) (o : outcome) (amb : bool) (cause : goerror) :
  idle st.1 →
  exchange fuel octx cmd payload st = Some (Err (EExchange stg n o amb cause), st') →
  ∃ handshakes request, sent st'.2 = sent st.2 ++ handshakes ++ request ∧
    Forall (λ x, handshake_packet (reportSize st.1) x.1) handshakes ∧
    (early stg = true → request = []) ∧
    (early stg = false → n = completed request ∧
       (amb = false → As as_hid cause = None →
          Forall (λ x, x.2 = OutcomeNotSubmitted) request)).
Proof.
  intros Hidle Hrun. pose proof (exchange_run _ _ _ _ _ _ _ Hrun Hidle) as Hex.
  inversion Hex as [| | |st0 st1 ? hs rq e p ? Hf Hw0 Htr Hp Hi Hch Hw Hc]; subst.
  destruct Htr as [_ Hsent Hhs _ _ _ (q & Hq & He & Hl)]. rewrite Hp in Hq. injection Hq as <-.
  destruct Hf as [(_ & _ & _ & Hrs & _) _]. simpl in Hrs. rewrite Hrs in Hhs.
  exists hs, rq. rewrite Hw, Hsent, Hw0. split_and!; [done|done|done|].
  intros Hse. destruct (Hl Hse) as [Hn Ha]. split; [done|]. intros Hamb Has.
  rewrite (classified_As as_hid e (HidErr.classify e)) in Has
    by (done || apply classifyHIDError_classified).
  destruct (Hc Has) as [_ Heq]. rewrite Heq in Hamb. apply orb_false_iff in Hamb as [Ha' Hn'].
  apply refused_writes; [congruence|]. apply Z.ltb_ge in Hn'. lia.
Qed.

(** ** Retries *)

(** Attempts that ended in a retryable error, each followed by the delay. *)
Inductive tried {A} (ex : M St A) (c : ctx) : St → list goerror → St → Prop :=
  | tried_none st : tried ex c st [] st
  | tried_again st st1 e st2 st3 es st' :
      check_ctx c st = Some (Ok (), st1) → ex st1 = Some (Err e, st2) → retryable e = true →
      env_err (timer_or_done c hidInitBusyRetryDelay) st2 = Some (Ok (), st3) →
      tried ex c st3 es st' → tried ex c st (e :: es) st'.

(** Handshake retries are bounded and only for the two errors that
    allow them.  A retried handshake makes at most [n + 1] attempts (21 in
    a session); every attempt but the last failed with a local wait or a
    busy channel; the result is that of the last attempt, or the context's
    error when it ended before an attempt or during a delay; a retryable
    error is returned only when the retries are used up. *)
Theorem retryHIDHandshake_bounded {A} (n : nat) (c : ctx) (ex : M St A) (st : St)
    (r : res A) (st' : St) :
  retryHIDHandshake n c ex st = Some (r, st') →
  ∃ es st1, tried ex c st es st1 ∧ (length es ≤ n)%nat ∧ Forall (λ e, retryable e = true) es ∧
    ((∃ e, check_ctx c st1 = Some (Err e, st') ∧ r = Err e) ∨
     (∃ st2, check_ctx c st1 = Some (Ok (), st2) ∧
        (ex st2 = Some (r, st') ∧
           (∀ e, r = Err e → retryable e = true → length es = n) ∨
         ∃ e st3 e', ex st2 = Some (Err e, st3) ∧ retryable e = true ∧ (length es < n)%nat ∧
           env_err (timer_or_done c hidInitBusyRetryDelay) st3 = Some (Err e', st') ∧
           r = Err e'))).
Proof.
  revert st. induction n as [|n IH]; intros st Hrun; cbn [retryHIDHandshake] in Hrun;
    (apply bind_inv in Hrun as [([] & st1 & H1 & Hrun)|(e & H1 & ->)];
      [|exists [], st; split_and!; [constructor|simpl; lia|done|by left; exists e]]);
    (apply bind_inv in Hrun as [(a & st2 & H2 & Hrun)|(e & H2 & _)];
      [|by apply attempt_never_fails in H2]);
    unfold attempt in H2; destruct (ex st1) as [[r1 st3]|] eqn:E; simplify_eq.
  - exists [], st. split_and!; [constructor|simpl; lia|done|]. right. exists st1.
    split; [done|]. left. destruct a; injection Hrun as <- <-; split; try done; by intros.
  - destruct a as [a|e].
    { injection Hrun as <- <-. exists [], st. split_and!; [constructor|simpl; lia|done|].
      right. exists st1. split; [done|]. left. by split. }
    destruct (retryable e) eqn:Hre.
    2: { injection Hrun as <- <-. exists [], st. split_and!; [constructor|simpl; lia|done|].
      right. exists st1. split; [done|]. left. split; [done|]. intros ? [= <-] ?. congruence. }
    apply bind_inv in Hrun as [([] & st4 & H4 & Hrun)|(e' & H4 & ->)].
    + destruct (IH _ Hrun) as (es & st5 & Ht & Hl & Hf & Hcase).
      exists (e :: es), st5. split_and!; [by econstructor|simpl; lia|by constructor|].
      destruct Hcase as [?|(st6 & ? & [[? Hlast]|(e1 & st7 & e2 & Hx1 & Hx2 & Hx3 & Hx4 & Hx5)])];
        [by left|right|right]; exists st6; (split; [done|]).
      * left. split; [done|]. intros. simpl. f_equal. by eapply Hlast.
      * right. exists e1, st7, e2. split_and!; [exact Hx1|exact Hx2|simpl; lia|exact Hx4|exact Hx5].
    + exists [], st. split_and!; [constructor|simpl; lia|done|]. right. exists st1.
      split; [done|]. right. exists e, st2, e'. simpl. split_and!; try done; lia.
Qed.

(** A successful handshake sets a channel an application can use:
    never zero, which means unallocated, and never the broadcast channel;
    a failed one leaves the session without a channel. *)
Theorem ensureChannel_allocates (fuel : nat) (c : ctx) (st : St) (p : exchangeProgress)
    (r : res ()) (st' : St) :
  channelID st.1 = 0 → progress st.1 = Some p → early (p_stage p) = true →
  ensureChannel fuel c st = Some (r, st') →
  match r with
  | Ok _ => channelID st'.1 ≠ 0 ∧ channelID st'.1 ≠ hidBroadcastCID
  | Err _ => channelID st'.1 = 0
  end.
Proof.
  intros Hz Hp He Hrun.
  destruct (ensureChannel_run _ _ _ _ _ _ Hrun Hp He) as (_ & _ & _ & _ & Hne & Hb & Herr).
  destruct r as [[]|e]; [|rewrite (Herr e eq_refl); done]. auto.
Qed.
End Properties.
End SessionProps.

(** ** A session with a cooperating device *)
Module SessionAnswers.
Import Hid HidCodec HidFacts HidProps HidExchange Session.

Section Answers.
Context {W : Type} `{HidConn W}.
Abbreviation St := (hidSession * W)%type.

(** Nothing ends the context, nobody closes the session, the mutex is free. *)
Definition calm (c : ctx) : Prop :=
  alive (W:=W) c ∧ (∀ w : W, closed_elsewhere w = (false, w)) ∧
  (∀ w : W, mutex_select c w = (None, w)).

(** The connection completes these Output reports. *)
Inductive accepts (c : ctx) (lay : ReportLayout) : W → list bytes → W → Prop :=
  | accepts_nil w : accepts c lay w [] w
  | accepts_cons w p w1 ps w' :
      conn_Write (WithTimeout c hidWriteTimeout) (MkReport (SpecID (Output lay)) p) w =
        ((OutcomeCompleted, None), w1) →
      accepts c lay w1 ps w' → accepts c lay w (p :: ps) w'.

(** The connection delivers these Input reports. *)
Inductive delivers (c : ctx) (lay : ReportLayout) (rs : Z) : W → list bytes → W → Prop :=
  | delivers_nil w : delivers c lay rs w [] w
  | delivers_cons w p w1 ps w' :
      conn_Read c 0 w = (Ok (MkReport (SpecID (Input lay)) p), w1) → len p = rs →
      delivers c lay rs w1 ps w' → delivers c lay rs w (p :: ps) w'.

Lemma alive_session c : calm c → alive (W:=St) c.
Proof. intros (Ha & _) [s w]. unfold ctx_Err, session_context. cbn [fst snd]. by rewrite Ha. Qed.

Lemma hidCallError_calm c s w :
  calm c → closing s = false → hidCallError c (s, w) = Some (Ok (), (s, w)).
Proof.
  intros Hc Hcl. unfold hidCallError. rewrite bind_check_ctx by by apply alive_session.
  destruct Hc as (_ & He & _). unfold bind, session, env. cbn [fst snd]. rewrite He.
  cbn [fst snd]. by rewrite Hcl.
Qed.

Lemma writePacket_calm c s w p w1 q :
  calm c → closing s = false → progress s = Some q →
  conn_Write (WithTimeout c hidWriteTimeout) (MkReport (SpecID (Output (layout s))) p) w =
    ((OutcomeCompleted, None), w1) →
  ∃ q', writePacket c p (s, w) = Some (Ok (), (set_progress (Some q') s, w1)).
Proof.
  intros Hc Hcl Hq Hw. unfold writePacket.
  run_ok (hidCallError_calm c s w Hc Hcl). unfold bind, session, env, update. cbn [fst snd].
  rewrite Hw. cbn. unfold record_write. rewrite Hq. by eexists.
Qed.

Lemma writes_session c s w ps w' q :
  calm c → closing s = false → progress s = Some q → accepts c (layout s) w ps w' →
  ∃ q', writes writePacket c (s, w) ps (set_progress (Some q') s, w').
Proof.
  intros Hc Hcl Hq Ha. remember (layout s) as lay eqn:Hlay.
  revert s q Hcl Hq Hlay. induction Ha as [w|w p w1 ps w' Hw _ IH]; intros s q Hcl Hq ->.
  - exists q. replace (set_progress (Some q) s) with s; [constructor|by destruct s; simpl in *; subst].
  - destruct (writePacket_calm c s w p w1 q Hc Hcl Hq Hw) as [q1 Hrun].
    destruct (IH (set_progress (Some q1) s) q1) as [q2 Hws]; [done|done|done|].
    exists q2. econstructor; [exact Hrun|exact Hws].
Qed.

Lemma readPacket_calm c s w p w1 :
  calm c → closing s = false → len p = reportSize s →
  conn_Read c 0 w = (Ok (MkReport (SpecID (Input (layout s))) p), w1) →
  readPacket c (s, w) = Some (Ok p, (s, w1)).
Proof.
  intros Hc Hcl Hlen Hr. unfold readPacket, readPacketWithTimeout.
  run_ok (hidCallError_calm c s w Hc Hcl). unfold bind, session, env, lift. cbn [fst snd].
  rewrite Hr. cbn. by rewrite Z.eqb_refl, Hlen, Z.eqb_refl.
Qed.

Lemma reads_session c s w ps w' q :
  calm c → closing s = false → progress s = Some q →
  delivers c (layout s) (reportSize s) w ps w' →
  ∃ q', reads readResponsePacket c (s, w) ps (set_progress (Some q') s, w').
Proof.
  intros Hc Hcl Hq Ha. remember (layout s) as lay eqn:Hlay. remember (reportSize s) as rs eqn:Hrs.
  revert s q Hcl Hq Hlay Hrs.
  induction Ha as [w|w p w1 ps w' Hr Hlen _ IH]; intros s q Hcl Hq -> ->.
  - exists q. replace (set_progress (Some q) s) with s; [constructor|by destruct s; simpl in *; subst].
  - set (q1 := MkProgress StageResponse (packets q) (p_outcome q) (ambiguous q)).
    destruct (IH (set_progress (Some q1) s) q1) as [q2 Hrd]; try done.
    exists q2. econstructor; [|exact Hrd].
    unfold readResponsePacket, bind at 1, session, bind, update. cbn [fst snd]. rewrite Hq.
    by apply readPacket_calm.
Qed.

(** C9: one exchange on an established session, whole.  When the connection
    takes the request's packets and delivers the device's answer, with any
    packets of other channels and keepalives in between, [exchange] returns
    exactly the answer and leaves the session exactly as it was: mutex free,
    no progress, same channel, not retired. *)
Theorem exchange_answers (c : ctx) (s : hidSession) (cmd : Z) (payload answer : bytes)
    (out ps : list bytes) (fuel : nat) (w w1 w' : W) :
  calm c → SessionPhases.idle s → closing s = false → channelID s ≠ 0 →
  codec_ok (MkCodec (channelID s) cmd (reportSize s)) →
  cmd ≠ hidCommandKeepalive → cmd ≠ hidCommandError →
  Fragment (MkCodec (channelID s) cmd (reportSize s)) payload = Ok out →
  accepts c (layout s) w out w1 →
  response_stream (reportSize s) (channelID s) cmd answer (own (reportSize s) (channelID s) ps) →
  (∀ q, last ps = Some q → foreign_packet (reportSize s) (channelID s) q = false) →
  (length ps < fuel)%nat → delivers c (layout s) (reportSize s) w1 ps w' →
  exchange fuel (Some c) cmd payload (s, w) = Some (Ok answer, (s, w')).
Proof.
  intros Hc [Hm Hp] Hcl Hch Hok Hk He HF Hacc Hs Hlast Hf Hdel.
  unfold exchange, bind at 1, session. cbn [fst snd].
  assert (Hcodec : NewCodec 1 cmd (reportSize s) = Ok (MkCodec 1 cmd (reportSize s))).
  { unfold NewCodec. destruct Hok as (_ & _ & ? & Hcmd). simpl in *.
    destruct (Z.leb_spec (reportSize s) 7); [lia|]. by rewrite (proj2 (Z.eqb_neq _ _) Hcmd). }
  assert (HF1 : ∃ out1, Fragment (MkCodec 1 cmd (reportSize s)) payload = Ok out1).
  { unfold Fragment in *. simpl in *. destruct (_ || _); [done|]. by eexists. }
  destruct HF1 as [out1 HF1]. rewrite Hcodec.
  rewrite (bind_Ok (map_err _ (lift (Ok _))) _ _ _ _ eq_refl), HF1.
  rewrite (bind_Ok (map_err _ (lift (Ok _))) _ _ _ _ eq_refl).
  set (held := set_mu_held true s).
  assert (Hlock : mutex_lock c (s, w) = Some (Ok (), (held, w))).
  { unfold mutex_lock. rewrite bind_check_ctx by by apply alive_session.
    unfold bind at 1, env_err, call_err. destruct Hc as (Ha & Hel & Hsel). cbn [fst snd].
    rewrite Hsel. unfold bind at 1, update. cbn [fst snd]. unfold bind, attempt.
    rewrite check_ctx_alive by (apply alive_session; by split_and!). done. }
  rewrite (bind_Ok _ _ _ _ _ (map_err_Ok _ _ _ _ _ Hlock)). unfold deferred at 1, bind at 1, attempt.
  set (p0 := MkProgress StageINIT 0 OutcomeNotSubmitted false).
  set (p1 := MkProgress StageRequest 0 OutcomeNotSubmitted false).
  destruct (writes_session c (set_progress (Some p1) held) w out w1 p1) as [q1 Hws]; try done.
  destruct (reads_session c (set_progress (Some q1) (set_progress (Some p1) held)) w1 ps w' q1)
    as [q2 Hrd]; try done.
  assert (Hex : transact fuel c cmd payload (set_progress (Some p0) held, w) =
    Some (Ok answer, (set_progress (Some q2) (set_progress (Some q1)
      (set_progress (Some p1) held)), w'))).
  { assert (Hens : ensureChannel fuel c (set_progress (Some p0) held, w) =
      Some (Ok (), (set_progress (Some p0) held, w))).
    { unfold ensureChannel, bind, session. simpl. by rewrite (proj2 (Z.eqb_neq _ _) Hch). }
    unfold transact. rewrite (bind_Ok _ _ _ _ _ (map_err_Ok _ _ _ _ _ Hens)).
    unfold bind, start_progress, update, session. cbn [fst snd].
    eapply exchangeHIDMessage_runs; try done. by apply alive_session. }
  assert (Hadm : admitted fuel c cmd payload (held, w) = Some (Ok answer, (held, w'))).
  { unfold admitted, bind at 1, attempt. rewrite hidCallError_calm by done.
    unfold bind at 1, start_progress, update, deferred, bind at 1, attempt. cbn [fst snd].
    change (MkProgress StageINIT 0 OutcomeNotSubmitted false) with p0.
    rewrite Hex. unfold settle, bind, session, update, ret. cbn [fst snd].
    do 3 f_equal. destruct s; simpl in *; by subst. }
  rewrite Hadm. unfold bind, mutex_unlock, update, lift. cbn [fst snd].
  do 3 f_equal. destruct s; simpl in *; by subst.
Qed.
End Answers.
End SessionAnswers.

(** ** Competing exchanges: the mutex of hid_exchange.go as a transition system *)
Module Mutex.

(** Where a caller is in [lock], its critical section and [unlock]. *)
Inductive pc := Outside | Selecting | Acquired | Inside | Refused.

#[global] Instance pc_dec : EqDecision pc. Proof. solve_decision. Defined.

(** [busy] is the one-slot channel, full or empty. *)
Record config := MkConfig { busy : bool; pcs : nat → pc }.

Definition at_pc (i : nat) (p : pc) (b : bool) (c : config) : config :=
  MkConfig b (λ j, if decide (j = i) then p else pcs c j).

Inductive step : config → config → Prop :=
  | lock_dead i c : pcs c i = Outside → step c (at_pc i Refused (busy c) c)
  | lock_select i c : pcs c i = Outside → step c (at_pc i Selecting (busy c) c)
  | select_send i c : pcs c i = Selecting → busy c = false → step c (at_pc i Acquired true c)
  | select_done i c : pcs c i = Selecting → step c (at_pc i Refused (busy c) c)
  | lock_late i c : pcs c i = Acquired → busy c = true → step c (at_pc i Refused false c)
  | lock_ok i c : pcs c i = Acquired → step c (at_pc i Inside (busy c) c)
  | unlock i c : pcs c i = Inside → busy c = true → step c (at_pc i Outside false c)
  | return_err i c : pcs c i = Refused → step c (at_pc i Outside (busy c) c).

Definition initial : config := MkConfig false (λ _, Outside).

Definition holds (c : config) (i : nat) : Prop := pcs c i = Acquired ∨ pcs c i = Inside.

Definition invariant (c : config) : Prop :=
  (busy c = true → ∃ i, holds c i) ∧
  ∀ i, holds c i → busy c = true ∧ ∀ j, holds c j → j = i.

Lemma pcs_at i j p b c : pcs (at_pc i p b c) j = if decide (j = i) then p else pcs c j.
Proof. done. Qed.

(** A step of a caller that neither takes nor gives back the slot. *)
Lemma invariant_same i p c :
  invariant c → (holds c i ↔ p = Acquired ∨ p = Inside) → invariant (at_pc i p (busy c) c).
Proof.
  intros [Hb Hu] Hi.
  assert (Heq : ∀ j, holds (at_pc i p (busy c) c) j ↔ holds c j).
  { intros j. unfold holds. rewrite pcs_at. destruct (decide (j = i)) as [->|]; [|done].
    symmetry. apply Hi. }
  split; simpl.
  - intros H. destruct (Hb H) as [j Hj]. exists j. by apply Heq.
  - intros j Hj%Heq. destruct (Hu j Hj) as [? Huj]. split; [done|]. intros k Hk%Heq. by apply Huj.
Qed.

(** Giving the slot back. *)
Lemma invariant_release i p c :
  invariant c → holds c i → p ≠ Acquired → p ≠ Inside → invariant (at_pc i p false c).
Proof.
  intros [Hb Hu] Hi Hp1 Hp2. split; [done|]. intros j. unfold holds at 1. rewrite pcs_at.
  destruct (decide (j = i)) as [->|Hne]; [tauto|]. intros Hj.
  destruct Hne. by apply (Hu i Hi).
Qed.

Lemma step_invariant c c' : step c c' → invariant c → invariant c'.
Proof.
  intros Hs Hinv. pose proof Hinv as [Hb Hu].
  assert (Hnot : ∀ i p, pcs c i = p → p ≠ Acquired → p ≠ Inside → ¬ holds c i).
  { unfold holds. intros i p -> ? ?. tauto. }
  destruct Hs as [i c Hp|i c Hp|i c Hp Hf|i c Hp|i c Hp _|i c Hp|i c Hp _|i c Hp];
    try (apply invariant_same; [done|]; unfold holds; rewrite Hp; intuition congruence);
    try (apply invariant_release; [done|unfold holds; tauto|done|done]).
  split; [exists i; left; rewrite pcs_at; by rewrite decide_True|].
  intros j. unfold holds at 1. rewrite pcs_at. intros Hj. split; [done|].
  assert (Hji : ∀ k, holds (at_pc i Acquired true c) k → k = i).
  { intros k. unfold holds. rewrite pcs_at. destruct (decide (k = i)); [done|].
    intros Hk. destruct (Hu k Hk) as [Ht _]. congruence. }
  intros k Hk. rewrite (Hji k Hk). symmetry. apply Hji. unfold holds. by rewrite pcs_at.
Qed.

Lemma reachable_invariant c : rtc step initial c → invariant c.
Proof.
  revert c. apply rtc_ind_r; [|intros; by eapply step_invariant].
  split; [done|]. by intros i [?|?].
Qed.

(** Exchanges are mutually exclusive, whatever number of callers compete
    and whenever their contexts end.  In every reachable configuration at
    most one caller is between taking the slot and giving it back; that
    caller can always give it back without blocking; and whenever nobody
    holds it, every waiting caller can take it. *)
Theorem mutex_exclusion (c : config) :
  rtc step initial c →
  (∀ i j, holds c i → holds c j → i = j) ∧
  (∀ i, pcs c i = Inside → step c (at_pc i Outside false c)) ∧
  ((∀ i, ¬ holds c i) → ∀ j, pcs c j = Selecting → step c (at_pc j Acquired true c)).
Proof.
  intros [Hb Hu]%reachable_invariant. split_and!.
  - intros i j Hi Hj. destruct (Hu j Hj) as [_ Huj]. by apply Huj.
  - intros i Hi. constructor; [done|]. apply (Hu i). by right.
  - intros Hfree j Hj. constructor; [done|]. apply not_true_is_false. intros Hbusy.
    destruct (Hb Hbusy) as [i Hi]. by apply (Hfree i).
Qed.

Lemma mutex_exclusion_witness :
  (∀ i j, holds (at_pc 3 Acquired true (at_pc 3 Selecting false initial)) i →
     holds (at_pc 3 Acquired true (at_pc 3 Selecting false initial)) j → i = j) ∧
  (∀ i, pcs (at_pc 3 Acquired true (at_pc 3 Selecting false initial)) i = Inside →
     step (at_pc 3 Acquired true (at_pc 3 Selecting false initial))
       (at_pc i Outside false (at_pc 3 Acquired true (at_pc 3 Selecting false initial)))) ∧
  ((∀ i, ¬ holds (at_pc 3 Acquired true (at_pc 3 Selecting false initial)) i) →
     ∀ j, pcs (at_pc 3 Acquired true (at_pc 3 Selecting false initial)) j = Selecting →
     step (at_pc 3 Acquired true (at_pc 3 Selecting false initial))
       (at_pc j Acquired true (at_pc 3 Acquired true (at_pc 3 Selecting false initial)))).
Proof.
  apply (mutex_exclusion (at_pc 3 Acquired true (at_pc 3 Selecting false initial))).
  eapply rtc_l; [apply (lock_select 3); done|].
  eapply rtc_l; [apply (select_send 3); done|]. apply rtc_refl.
Defined.
End Mutex.

(** ** A simulated connection, for the witnesses *)
Module SimHID.
Import Hid Session SessionPhases.

(** Input reports to deliver; what was written; write outcomes other than
    completion, for the first writes. *)
Record sim := MkSim {
  inbox : list bytes;
  written : list (bytes * outcome);
  faults : list (outcome * option goerror);
}.

#[global] Instance sim_conn : HidConn sim := {
  conn_ctx := λ c w, (match c with AlreadyCanceled => Some (ECtx Canceled) | _ => None end, w);
  conn_Write := λ _ r w,
    let result := match faults w with f :: _ => f | [] => (OutcomeCompleted, None) end in
    (result, MkSim (inbox w) (written w ++ [(Data r, result.1)]) (tail (faults w)));
  conn_Read := λ _ _ w,
    match inbox w with
    | [] => (Err HidErr.ErrTimeout, w)
    | p :: ps => (Ok (MkReport 0 p), MkSim ps (written w) (faults w))
    end;
  conn_Close := λ _ w, (None, w);
  rand_Read := λ n w, (Ok (map Z.of_nat (seq 1 n)), w);
  timer_or_done := λ _ _ w, (None, w);
  mutex_select := λ _ w, (None, w);
  closed_elsewhere := λ w, (false, w);
}.

#[global] Instance sim_traced : TracedConn sim.
Proof.
  refine {| sent := written |}; try done.
  intros c d [[|p ps] l f]; done.
Defined.

Definition spec : ReportSpec := MkSpec 0 64.
Definition fresh_session : hidSession :=
  MkSession false false (MkDevice "k" "usb" "" "" "" "" 0 0) (MkLayout spec spec) 0 64 None.
Definition ready_session : hidSession := set_channelID 5 fresh_session.

Definition packet64 (b : bytes) : bytes := pad_to 64 b.

(** The answers of a key: channel 5 to INIT, the empty PING, then [1; 2]. *)
Definition key_inbox : list bytes :=
  [packet64 [0xff;0xff;0xff;0xff;0x86;0;17;1;2;3;4;5;6;7;8;0;0;0;5;2;1;2;3;4];
   packet64 [0;0;0;5;0x81;0;0];
   packet64 [0;0;0;5;0x90;0;2;1;2]].

Definition start : hidSession * sim := (fresh_session, MkSim key_inbox [] []).
Definition run_result {A} (o : option (res A * (hidSession * sim))) : res A :=
  match o with Some (r, _) => r | None => Err (EMsg "") end.
Definition run_state {A} (o : option (res A * (hidSession * sim))) : hidSession * sim :=
  match o with Some (_, st) => st | None => start end.

Definition opened := exchange 10 (Some Caller) 0x90 [4] start.

Lemma opened_ok : run_result opened = Ok [1; 2].
Proof. by vm_compute. Qed.

Lemma exchange_once_witness :
  ∃ handshakes request, sent (run_state opened).2 = sent start.2 ++ handshakes ++ request ∧
    Forall (λ x, handshake_packet (reportSize start.1) x.1) handshakes ∧
    (channelID start.1 ≠ 0 → handshakes = [] ∧ channelID (run_state opened).1 = channelID start.1) ∧
    (∃ n, map fst request =
       take n (request_packets (channelID (run_state opened).1) 0x90 (reportSize start.1) [4])) ∧
    (∀ a, run_result opened = Ok a →
       map fst request = request_packets (channelID (run_state opened).1) 0x90
                           (reportSize start.1) [4]).
Proof.
  apply (SessionProps.exchange_once 10 (Some Caller) 0x90 [4] start
    (run_result opened) (run_state opened)); [done|].
  vm_compute. reflexivity.
Defined.

(** A device that takes the first packet and does not answer. *)
Definition stalled := exchange 10 (Some Caller) 0x90 [4] (ready_session, MkSim [] [] []).

Lemma exchange_settles_witness :
  idle (run_state stalled).1 ∧
  ∀ e, run_result stalled = Err e →
    ((run_state stalled).1 = ready_session ∧ sent (run_state stalled).2 = []) ∨
    (∃ code, As as_hid e = Some code) ∨ closing (run_state stalled).1 = true.
Proof.
  refine (SessionProps.exchange_settles 10 (Some Caller) 0x90 [4] (ready_session, MkSim [] [] [])
    (run_result stalled) (run_state stalled) _ _); [done|]. vm_compute. reflexivity.
Defined.

(** A write the connection refuses before submission. *)
Definition refused := exchange 10 (Some Caller) 0x90 [4]
  (ready_session, MkSim [] [] [(OutcomeNotSubmitted, Some HidErr.ErrBusy)]).

Lemma exchange_evidence_witness :
  ∃ handshakes request, sent (run_state refused).2 = [] ++ handshakes ++ request ∧
    Forall (λ x, handshake_packet 64 x.1) handshakes ∧
    (early StageRequest = true → request = []) ∧
    (early StageRequest = false → 0 = completed request ∧
       (false = false →
        As as_hid (ETransport "write usb hid packet" HidErr.ErrBusy) = None →
          Forall (λ x, x.2 = OutcomeNotSubmitted) request)).
Proof.
  refine (SessionProps.exchange_evidence 10 (Some Caller) 0x90 [4]
    (ready_session, MkSim [] [] [(OutcomeNotSubmitted, Some HidErr.ErrBusy)]) (run_state refused)
    StageRequest 0 OutcomeNotSubmitted false (ETransport "write usb hid packet" HidErr.ErrBusy) _ _);
    [done|]. vm_compute. reflexivity.
Defined.

(** A busy channel is retried once here. *)
Definition busy_once := retryHIDHandshake 20 Caller (handshake 9 Caller)
  (fresh_session, MkSim (packet64 [0xff;0xff;0xff;0xff;0xbf;0;1;6] :: key_inbox) [] []).

Lemma retryHIDHandshake_bounded_witness :
  ∃ es st1, SessionProps.tried (handshake 9 Caller) Caller
      (fresh_session, MkSim (packet64 [0xff;0xff;0xff;0xff;0xbf;0;1;6] :: key_inbox) [] []) es st1 ∧
    (length es ≤ 20)%nat ∧ Forall (λ e, retryable e = true) es ∧
    ((∃ e, check_ctx Caller st1 = Some (Err e, run_state busy_once) ∧ run_result busy_once = Err e) ∨
     (∃ st2, check_ctx Caller st1 = Some (Ok (), st2) ∧
        (handshake 9 Caller st2 = Some (run_result busy_once, run_state busy_once) ∧
           (∀ e, run_result busy_once = Err e → retryable e = true → length es = 20%nat) ∨
         ∃ e st3 e', handshake 9 Caller st2 = Some (Err e, st3) ∧ retryable e = true ∧
           (length es < 20)%nat ∧
           env_err (timer_or_done Caller hidInitBusyRetryDelay) st3 =
             Some (Err e', run_state busy_once) ∧ run_result busy_once = Err e'))).
Proof.
  apply (SessionProps.retryHIDHandshake_bounded 20 Caller (handshake 9 Caller)).
  vm_compute. reflexivity.
Defined.

Definition allocating : hidSession * sim :=
  (set_progress (Some (MkProgress StageINIT 0 OutcomeNotSubmitted false)) fresh_session,
   MkSim key_inbox [] []).

Lemma ensureChannel_allocates_witness :
  channelID (run_state (ensureChannel 9 Caller allocating)).1 ≠ 0 ∧
  channelID (run_state (ensureChannel 9 Caller allocating)).1 ≠ hidBroadcastCID.
Proof.
  apply (SessionProps.ensureChannel_allocates 9 Caller allocating
    (MkProgress StageINIT 0 OutcomeNotSubmitted false) (Ok ())
    (run_state (ensureChannel 9 Caller allocating))); try done.
Defined.

Lemma exchange_answers_witness :
  exchange 2 (Some Caller) 0x90 [4] (ready_session, MkSim [packet64 [0;0;0;5;0x90;0;2;1;2]] [] []) =
  Some (Ok [1; 2], (ready_session, MkSim [] [(packet64 [0;0;0;5;0x90;0;1;4], OutcomeCompleted)] [])).
Proof.
  apply (SessionAnswers.exchange_answers Caller ready_session 0x90 [4] [1; 2]
    [packet64 [0;0;0;5;0x90;0;1;4]] [packet64 [0;0;0;5;0x90;0;2;1;2]] 2 _
    (MkSim [packet64 [0;0;0;5;0x90;0;2;1;2]] [(packet64 [0;0;0;5;0x90;0;1;4], OutcomeCompleted)] []));
    try done.
  - by apply SessionAnswers.accepts_cons with
      (MkSim [packet64 [0;0;0;5;0x90;0;2;1;2]] [(packet64 [0;0;0;5;0x90;0;1;4], OutcomeCompleted)] []);
      [|apply SessionAnswers.accepts_nil].
  - apply HidProps.stream_message. by vm_compute.
  - by intros q [= <-].
  - simpl; lia.
  - by apply SessionAnswers.delivers_cons with
      (MkSim [] [(packet64 [0;0;0;5;0x90;0;1;4], OutcomeCompleted)] []);
      [| |apply SessionAnswers.delivers_nil].
Defined.
End SimHID.
