(* ===== verification/Registry.v ===== *)
(** * Backends and the registry: src/pkg/transport/{registry,session}.go

    [Backend] is the interface a transport promises to the registry: a kind,
    a discovery that may return descriptors together with an error, and an
    opening.  The registry is proved against that interface alone; the USB,
    NFC and BLE files build its instances. *)
From S2P Require Import Prelude GoErrors GoIO Descriptors.

(** The [Backend] interface over a world [W], with sessions of type [S]. *)
Record Backend (W S : Type) := MkBackend {
  Kind : string;
  Discover : ctx → W → (list DeviceDescriptor * option goerror) * W;
  Open : ctx → DeviceDescriptor → M W S;
}.
Arguments MkBackend {W S}.
Arguments Kind {W S} b.
Arguments Discover {W S} b c w.
Arguments Open {W S} b c d.

Module Registry.
Section Registry.
Context {W S : Type}.

Record t := MkRegistry {
  backends : gmap string (Backend W S);
  order : list string;
}.

Definition errBackendRequired : goerror := ESent "transport.errBackendRequired".
Definition errDuplicateBackend : goerror := ESent "transport.errDuplicateBackend".
Definition errBackendNotFound : goerror := ESent "transport.errBackendNotFound".

(** One turn of the loop of [NewRegistry]; [None] is a nil backend. *)
Definition register (r : t) (b : option (Backend W S)) : res t :=
  match b with
  | None => Err (ETransport "new registry" errBackendRequired)
  | Some backend =>
      let kind := Kind backend in
      if str_empty kind || String.eqb kind KindUnknown
      then Err (ETransport "new registry"
                  (Transport.unsupported (EMsg "transport: unsupported backend kind %q")))
      else match backends r !! kind with
      | Some _ => Err (ETransport "new registry" (EFmt "transport: %w: %s" [errDuplicateBackend]))
      | None => Ok (MkRegistry (<[kind := backend]> (backends r)) (order r ++ [kind]))
      end
  end.

Fixpoint register_all (r : t) (bs : list (option (Backend W S))) : res t :=
  match bs with
  | [] => Ok r
  | b :: bs => r ←? register r b; register_all r bs
  end.

Definition NewRegistry (bs : list (option (Backend W S))) : res t :=
  register_all (MkRegistry ∅ []) bs.

(** [errors.Join] of a list of errors, nil for an empty list. *)
Definition Join (errs : list goerror) : option goerror :=
  match errs with [] => None | _ => Some (EJoin errs) end.

(** The loop over [registry.order]; [registry.backends[kind]] of a kind that
    is not there would be a nil interface, whose call panics. *)
Fixpoint discover_loop (r : t) (kinds : list string) (c : ctx)
    (devices : list DeviceDescriptor) (errs : list goerror) (w : W)
    : option ((list DeviceDescriptor * list goerror) * W) :=
  match kinds with
  | [] => Some ((devices, errs), w)
  | kind :: kinds =>
      match backends r !! kind with
      | None => None
      | Some backend =>
          let '((found, err), w) := Discover backend c w in
          match err with
          | Some e =>
              discover_loop r kinds c devices
                (errs ++ [ETransport ("discover " ++ kind ++ " devices") e]) w
          | None => discover_loop r kinds c (devices ++ found) errs w
          end
      end
  end.

Definition DiscoverAll (r : t) (c : ctx) (w : W)
    : option ((list DeviceDescriptor * option goerror) * W) :=
  match discover_loop r (order r) c [] [] w with
  | None => None
  | Some ((devices, errs), w) => Some ((devices, Join errs), w)
  end.

Definition OpenDevice (r : t) (c : ctx) (device : DeviceDescriptor) : M W S :=
  match backends r !! Transport device with
  | None => throw (ETransport "open device"
      (Transport.unsupported (EFmt "transport: %w: %s" [errBackendNotFound])))
  | Some backend => Open backend c device
  end.
End Registry.
Arguments t : clear implicits.
End Registry.

Module RegistryProps.
Import Registry.

Section Props.
Context {W S : Type}.
Implicit Types (bs : list (Backend W S)) (r : t W S).

(** A registry knows its backends by kind, and its order lists the kinds. *)
Definition well_formed r bs : Prop :=
  order r = map Kind bs ∧ NoDup (order r) ∧
  (∀ kind b, backends r !! kind = Some b ↔ b ∈ bs ∧ Kind b = kind) ∧
  Forall (λ b, Kind b ≠ "" ∧ Kind b ≠ KindUnknown) bs.

Lemma well_formed_empty : well_formed (MkRegistry ∅ []) [].
Proof.
  unfold well_formed; simpl. split_and!; [done|constructor| |constructor].
  intros kind b. rewrite lookup_empty. split; [done|]. by intros [?%elem_of_nil _].
Qed.

Lemma register_Ok r bs b r' :
  well_formed r bs → register r b = Ok r' →
  ∃ backend, b = Some backend ∧ well_formed r' (bs ++ [backend]).
Proof.
  intros (Hord & Hnd & Hlk & Hk). destruct b as [backend|]; [|done]. simpl.
  destruct (str_empty (Kind backend)) eqn:He; [done|].
  destruct (String.eqb_spec (Kind backend) KindUnknown) as [|Hu]; [done|]. simpl.
  destruct (backends r !! Kind backend) eqn:Hb; [done|]. intros [= <-].
  exists backend. split; [done|]. unfold well_formed; simpl. split_and!.
  - rewrite map_app, Hord. done.
  - apply list.NoDup_app. split_and!; [done| |apply NoDup_singleton].
    intros kind Hin ->%list_elem_of_singleton.
    rewrite Hord in Hin. apply list_elem_of_fmap in Hin as (b & Hkb & Hin).
    assert (backends r !! Kind backend = Some b) by (by apply Hlk). congruence.
  - intros kind b. rewrite elem_of_app, list_elem_of_singleton.
    destruct (decide (kind = Kind backend)) as [->|Hne].
    + rewrite lookup_insert_eq. split; [intros [= <-]; auto|].
      intros [[Hin| ->] Hkb]; [|done].
      assert (backends r !! Kind backend = Some b) by (by apply Hlk). congruence.
    + rewrite lookup_insert_ne by done. rewrite Hlk. split; [tauto|].
      intros [[?| ->] ?]; [tauto|congruence].
  - apply Forall_app. split; [done|]. constructor; [|constructor]. split; [|done].
    intros Hz. unfold str_empty in He. by rewrite Hz in He.
Qed.

Lemma register_all_Ok obs : ∀ r bs r',
  well_formed r bs → register_all r obs = Ok r' →
  ∃ bs', obs = map Some bs' ∧ well_formed r' (bs ++ bs').
Proof.
  induction obs as [|b obs IH]; intros r bs r' Hwf; simpl.
  - intros [= <-]. exists []. by rewrite app_nil_r.
  - intros (r1 & H1 & H2)%rbind_Ok.
    destruct (register_Ok _ _ _ _ Hwf H1) as (backend & -> & Hwf1).
    destruct (IH _ _ _ Hwf1 H2) as (bs' & -> & Hwf').
    exists (backend :: bs'). split; [done|]. by rewrite <-app_assoc in Hwf'.
Qed.

Lemma register_all_complete bs' : ∀ r bs,
  well_formed r bs → NoDup (map Kind (bs ++ bs')) →
  Forall (λ b, Kind b ≠ "" ∧ Kind b ≠ KindUnknown) bs' →
  ∃ r', register_all r (map Some bs') = Ok r'.
Proof.
  induction bs' as [|b bs' IH]; intros r bs Hwf Hnd Hk; [by eexists|].
  inversion Hk as [|? ? [Hne Hnu] Hk']; subst.
  assert (Hreg : ∃ r1, register r (Some b) = Ok r1).
  { simpl. unfold str_empty. rewrite (proj2 (String.eqb_neq _ _) Hne).
    rewrite (proj2 (String.eqb_neq _ _) Hnu). simpl.
    destruct (backends r !! Kind b) as [b0|] eqn:Hb; [|by eexists].
    destruct Hwf as (_ & _ & Hlk & _). apply Hlk in Hb as [Hin Hkb].
    rewrite map_app, list.NoDup_app in Hnd. destruct Hnd as (_ & Hd & _). exfalso.
    apply (Hd (Kind b)); [|by left]. rewrite <-Hkb. by apply list_elem_of_fmap_2. }
  destruct Hreg as [r1 H1]. change (∃ r', rbind (register r (Some b)) (λ r, register_all r (map Some bs'))
    = Ok r'). rewrite H1. cbn [rbind].
  destruct (register_Ok _ _ _ _ Hwf H1) as (? & [= <-] & Hwf1).
  apply (IH r1 (bs ++ [b])); [done| |done]. by rewrite <-app_assoc.
Qed.

(** What discovery must return: the descriptors of the backends that
    succeed, in registration order, and the wrapped errors of the others. *)
Fixpoint discovered (bs : list (Backend W S)) (c : ctx) (w : W)
    : (list DeviceDescriptor * list goerror) * W :=
  match bs with
  | [] => (([], []), w)
  | b :: bs =>
      let '((found, err), w) := Discover b c w in
      let '((devices, errs), w) := discovered bs c w in
      match err with
      | Some e => ((devices, ETransport ("discover " ++ Kind b ++ " devices") e :: errs), w)
      | None => ((found ++ devices, errs), w)
      end
  end.

Lemma discover_loop_spec r bs all : well_formed r all → ∀ c devices errs w,
  (∀ b, b ∈ bs → b ∈ all) →
  discover_loop r (map Kind bs) c devices errs w =
    let '((ds, es), w') := discovered bs c w in Some ((devices ++ ds, errs ++ es), w').
Proof.
  intros Hwf. induction bs as [|b bs IH]; intros c devices errs w Hin; simpl.
  - by rewrite !app_nil_r.
  - assert (Hb : backends r !! Kind b = Some b).
    { destruct Hwf as (_ & _ & Hlk & _). apply Hlk. split; [|done]. apply Hin. by left. }
    rewrite Hb. destruct (Discover b c w) as [[found err] w1].
    destruct err; rewrite IH by (intros; apply Hin; by right);
      destruct (discovered bs c w1) as [[ds es] w2]; by rewrite <-app_assoc.
Qed.

(** The registry behaves as the list of its backends.  [NewRegistry]
    accepts exactly lists of non-nil backends with usable, distinct kinds;
    then discovery runs every backend once in registration order, keeps the
    descriptors of those that succeed and reports the errors of the others
    joined in that order; and opening goes to the backend of the
    descriptor's kind, or fails as unsupported when there is none. *)
Theorem registry_refines (obs : list (option (Backend W S))) (c : ctx) (w : W) :
  (∀ r, NewRegistry obs = Ok r →
     ∃ bs, obs = map Some bs ∧
       DiscoverAll r c w =
         (let '((ds, es), w') := discovered bs c w in Some ((ds, Join es), w')) ∧
       ∀ device,
         (∀ b, b ∈ bs → Kind b = Transport device → OpenDevice r c device = Open b c device) ∧
         ((∀ b, b ∈ bs → Kind b ≠ Transport device) →
            ∃ e, OpenDevice r c device w = Some (Err (ETransport "open device" e), w) ∧
                 Is e Transport.ErrUnsupported = true)) ∧
  ((∃ r, NewRegistry obs = Ok r) ↔
     ∃ bs, obs = map Some bs ∧ NoDup (map Kind bs) ∧
       Forall (λ b, Kind b ≠ "" ∧ Kind b ≠ KindUnknown) bs).
Proof.
  split.
  - intros r Hr. destruct (register_all_Ok obs _ [] r well_formed_empty Hr) as (bs & -> & Hwf).
    simpl in Hwf. exists bs. split; [done|]. pose proof Hwf as (Hord & _ & Hlk & _). split.
    + unfold DiscoverAll. rewrite Hord, (discover_loop_spec r bs bs) by done.
      by destruct (discovered bs c w) as [[ds es] w'].
    + intros device. unfold OpenDevice. split.
      * intros b Hb Hk. by rewrite (proj2 (Hlk (Transport device) b)).
      * intros Hno. destruct (backends r !! Transport device) as [b|] eqn:Hb.
        { apply Hlk in Hb as [Hin Hk]. by destruct (Hno b Hin). }
        eexists. split; [done|]. by vm_compute.
  - split.
    + intros [r Hr]. destruct (register_all_Ok obs _ [] r well_formed_empty Hr) as (bs & -> & Hwf).
      destruct Hwf as (Hord & Hnd & _ & Hk). exists bs. rewrite Hord in Hnd. by split_and!.
    + intros (bs & -> & Hnd & Hk). by apply (register_all_complete bs _ [] well_formed_empty).
Qed.
End Props.
End RegistryProps.
