(* ===== verification/UsbBackend.v ===== *)
(** * USB backends: src/pkg/transport/usb/{backend,hid_backend}.go

    [Injected] is the backend over caller-supplied discovery and packet
    connections; [Native] is the backend over the HID layer, whose sessions
    are the ones of [UsbSession]. *)
From S2P Require Import Prelude GoErrors WireHID GoIO UsbProtocol Descriptors UsbSession Registry.

(** ** Discovery and packet connections supplied by the caller *)
Class UsbHooks (W Conn : Type) := {
  usb_ctx :: GoContext W;
  usb_Discover : ctx → W → (list DeviceDescriptor * option goerror) * W;
  usb_Open : ctx → DeviceDescriptor → W → res Conn * W;
  WritePacket : Conn → ctx → bytes → W → option goerror * W;
  ReadPacket : Conn → ctx → W → res bytes * W;
  usb_Close : Conn → W → option goerror * W;
  (** The exchange mutex of the session, see [UsbSession.Mutex]. *)
  mu_lock : ctx → W → option goerror * W;
  mu_unlock : W → W;
}.

(** A call that returns [(T, error)], and one that returns nothing. *)
Definition call {W A} (f : W → res A * W) : M W A := λ w, Some (f w).
Definition do {W} (f : W → W) : M W () := λ w, Some (Ok (), f w).

(** [if err != nil { return devices, Wrap(op, ClassifyCommon(err)) }]. *)
Definition wrap_common (op : string) (e : goerror) : goerror :=
  ETransport op (Transport.classify e).

Module Injected.
Section Injected.
Context {W Conn : Type} `{UsbHooks W Conn}.

Record backend := MkBackendConfig { channel : Z; command : Z; reportSize : Z }.
Record session := MkSession {
  s_device : DeviceDescriptor; s_conn : Conn;
  s_channel : Z; s_command : Z; s_reportSize : Z;
}.

(** [present]: the discoverer and the opener are not nil. *)
Definition NewBackend (present : bool) (channel command reportSize : Z) : res backend :=
  if negb present then Err (EMsg "transport/usb: discoverer and opener are required")
  else
    _ ←? HidCodec.NewCodec channel command reportSize;
    Ok (MkBackendConfig channel command reportSize).

Definition Discover (c : ctx) (w : W) : (list DeviceDescriptor * option goerror) * W :=
  let '((devices, err), w) := usb_Discover c w in
  let devices := map (set_transport KindUSB) devices in
  match err with
  | Some e => ((devices, Some (wrap_common "discover usb devices" e)), w)
  | None => ((devices, None), w)
  end.

Definition Open (b : backend) (c : ctx) (device : DeviceDescriptor) : M W session :=
  if negb (transport_allowed KindUSB device)
  then throw (ETransport "open usb session"
         (Transport.unsupported (EMsg "transport/usb: unsupported transport %s")))
  else
    conn ←! map_err (wrap_common "open usb session") (call (usb_Open c device));
    match HidCodec.NewCodec (channel b) (command b) (reportSize b) with
    | Err e =>
        _ ←! attempt (call_err (usb_Close conn));
        throw (wrap_common "open usb session" e)
    | Ok _ =>
        ret (MkSession (set_transport KindUSB device) conn (channel b) (command b) (reportSize b))
    end.

Definition Device (s : session) : DeviceDescriptor := s_device s.

(** The loop until the response is assembled. *)
Fixpoint read_response (fuel : nat) (s : session) (c : ctx) (a : HidCodec.Assembler) : M W bytes :=
  match fuel with
  | O => out_of_fuel
  | S fuel =>
      if HidCodec.Done a
      then map_err (wrap_common "reassemble usb response") (lift (HidCodec.Payload a))
      else
        packet ←! map_err (wrap_common "read usb packet") (call (ReadPacket (s_conn s) c));
        a ←! map_err (wrap_common "reassemble usb response") (lift (HidCodec.Add a packet));
        read_response fuel s c a
  end.

Definition transact (fuel : nat) (s : session) (c : ctx) (req : bytes) : M W bytes :=
  codec ←! map_err (wrap_common "fragment usb request")
             (lift (HidCodec.NewCodec (s_channel s) (s_command s) (s_reportSize s)));
  packets ←! map_err (wrap_common "fragment usb request") (lift (HidCodec.Fragment codec req));
  _ ←! for_each (λ packet, map_err (wrap_common "write usb packet")
         (call_err (WritePacket (s_conn s) c packet))) packets;
  read_response fuel s c (HidCodec.NewAssembler codec).

(** [defer session.mu.unlock()]. *)
Definition unlocked {A} (body : M W A) : M W A :=
  r ←! attempt body; _ ←! do mu_unlock; lift r.

Definition Exchange (fuel : nat) (s : session) (c : ctx) (req : bytes) : M W bytes :=
  _ ←! map_err (ETransport "exchange usb session") (call_err (mu_lock c));
  unlocked (transact fuel s c req).

Definition ExchangeHID (fuel : nat) (s : session) (c : ctx) (command : Z) (payload : bytes)
    : M W bytes :=
  match Hid.validateHIDCommand command with
  | Some e => throw (ETransport "exchange usb hid command" e)
  | None =>
      _ ←! map_err (ETransport "exchange usb hid message") (call_err (mu_lock c));
      unlocked (Hid.exchangeHIDMessage fuel c (s_channel s) (Z.lor command 0x80) (s_reportSize s)
        payload (λ c p, call_err (WritePacket (s_conn s) c p))
        (λ c, call (ReadPacket (s_conn s) c)))
  end.

Definition Close (s : session) : M W () :=
  map_err (wrap_common "close usb session") (call_err (usb_Close (s_conn s))).

(** The registry's interface. *)
Definition AsBackend (b : backend) : Backend W session := MkBackend KindUSB Discover (Open b).
End Injected.
Arguments session Conn : clear implicits.
End Injected.

Module InjectedProps.
Import Injected.
Import HidCodec HidCodecFacts.

(** A started assembler that is not done asks for [total - len buffer] bytes;
    every accepted packet brings some. *)
Definition missing (a : Assembler) : Z :=
  if started a then total a - len (buffer a) else 65536.

Definition assembling (a : Assembler) : Prop :=
  7 < reportSize (codec a) ∧
  if started a then total a < 65536 ∧ done_ a = (total a <=? len (buffer a)) ∧ len (buffer a) <= Z.max 0 (total a)
  else done_ a = false ∧ buffer a = [].

Lemma Add_assembling a p a' :
  assembling a → bytes_ok p → Add a p = Ok a' →
  assembling a' ∧ missing a' < missing a.
Proof.
  unfold assembling, missing, Add. intros [Hrs Ha] Hp.
  destruct (done_ a) eqn:Hd; [done|].
  destruct (Z.eqb_spec (len p) (reportSize (codec a))) as [Hl|]; [|done]. cbn [negb].
  destruct (negb (get_u32 _ =? _)); [done|].
  destruct (started a) eqn:Hs; cbn [negb].
  - destruct Ha as (Ht & Hdone & Hbuf). symmetry in Hdone. apply Z.leb_gt in Hdone.
    destruct (negb (p !!! 4%nat =? nextSeq a)); [done|]. intros [= <-]. simpl.
    rewrite len_app, min_spec, len_take by (rewrite (len_drop 5); lia).
    split; [split_and!; [lia|lia|done|lia]|lia].
  - destruct Ha as [_ Hb]. rewrite Hb. destruct (negb (p !!! 4%nat =? command _)); [done|].
    intros [= <-]. simpl.
    assert (Htot : 0 <= get_u16 (slice 5 7 p) < 65536).
    { apply HidCodecProps.get_u16_range.
      - unfold slice. apply Forall_take, Forall_drop, Hp.
      - unfold slice. rewrite length_take, length_drop. unfold len in Hl. lia. }
    rewrite min_spec, len_take by (rewrite (len_drop 7); lia).
    split; [split_and!; [lia|lia|done|lia]|lia].
Qed.

Section Exchange.
Context {W Conn : Type} `{UsbHooks W Conn}.

Lemma read_response_returns (s : session Conn) c fuel : ∀ a w,
  (∀ w p w', ReadPacket (s_conn s) c w = (Ok p, w') → bytes_ok p) →
  assembling a → missing a < Z.of_nat fuel → 0 < Z.of_nat fuel →
  ∃ r w', read_response fuel s c a w = Some (r, w').
Proof.
  intros a w Hbytes. revert a w. induction fuel as [|fuel IH]; intros a w Ha Hm Hf; [lia|].
  cbn [read_response]. destruct (Done a) eqn:Hd.
  { unfold map_err, lift. destruct (Payload a); by eexists _, _. }
  unfold bind at 1, map_err at 1, call.
  destruct (ReadPacket (s_conn s) c w) as [[p|e] w1] eqn:Hr; [|by eexists _, _].
  unfold bind, map_err, lift.
  destruct (Add a p) as [a'|e] eqn:HA; [|by eexists _, _].
  destruct (Add_assembling a p a' Ha (Hbytes _ _ _ Hr) HA) as [Ha' Hlt].
  destruct (decide (fuel = O)) as [->|].
  - exfalso. unfold missing, assembling, Done in *.
    destruct (started a) eqn:Hs; [|lia].
    destruct Ha as (_ & _ & Hdone & _). rewrite Hd in Hdone. symmetry in Hdone.
    apply Z.leb_gt in Hdone. lia.
  - apply IH; [done|lia|lia].
Qed.

(** The exchange of the injected USB backend always returns.  Whatever
    packets the connection delivers (any bytes, any length, forever), 65537
    units of fuel are enough for its reading loop: each accepted packet adds
    bytes of a message that has fewer than 65536 of them, and a packet that
    adds none is refused; the mutex is released at the end. *)
Theorem injected_exchange_returns (s : session Conn) (c : ctx) (req : bytes) (fuel : nat) (w : W) :
  (∀ w p w', ReadPacket (s_conn s) c w = (Ok p, w') → bytes_ok p) →
  65537 <= Z.of_nat fuel →
  ∃ r w', Exchange fuel s c req w = Some (r, w') ∧
    (∀ e w1, mu_lock c w = (Some e, w1) → r = Err (ETransport "exchange usb session" e) ∧ w' = w1) ∧
    (∀ w1, mu_lock c w = (None, w1) → ∃ w2, w' = mu_unlock w2).
Proof.
  intros Hbytes Hf. unfold Exchange, bind at 1, map_err, call_err.
  destruct (mu_lock c w) as [[e|] w1].
  { eexists _, _. split_and!; [done| |done]. by intros e' w2 [= -> ->]. }
  assert (Ht : ∃ r w2, transact fuel s c req w1 = Some (r, w2)).
  { unfold transact. destruct (NewCodec _ _ _) as [codec|e] eqn:Hc; [|by eexists _, _].
    rewrite (bind_Ok (map_err _ (lift (Ok _))) _ _ _ _ eq_refl).
    destruct (Fragment codec req) as [out|e]; [|by eexists _, _].
    rewrite (bind_Ok (map_err _ (lift (Ok _))) _ _ _ _ eq_refl).
    assert (Hw : ∃ r w2, for_each (λ packet, map_err (wrap_common "write usb packet")
         (call_err (WritePacket (s_conn s) c packet))) out w1 = Some (r, w2)).
    { clear -out. revert w1. induction out as [|p out IH]; intros w1; [by eexists _, _|].
      cbn [for_each]. unfold bind at 1, map_err at 1, call_err.
      destruct (WritePacket (s_conn s) c p w1) as [[e|] w2]; [by eexists _, _|]. apply IH. }
    destruct Hw as (r & w2 & Hw). unfold bind at 1. rewrite Hw.
    destruct r as [[]|e]; [|by eexists _, _].
    apply read_response_returns; [done| |unfold missing; simpl; lia|lia].
    split; [|done]. simpl. unfold NewCodec in Hc.
    destruct (Z.leb_spec (s_reportSize s) 7); [done|]. destruct (_ =? _); [done|].
    injection Hc as <-. simpl. lia. }
  destruct Ht as (r & w2 & Ht). unfold unlocked, bind, attempt. rewrite Ht.
  eexists _, _. split_and!; [done|done|]. intros w3 [= ->]. by eexists.
Qed.
End Exchange.

(** A connection that answers every read with the same INIT-like packet. *)
#[local] Instance stubborn : UsbHooks nat () := {
  usb_ctx := λ _ n, (None, n);
  usb_Discover := λ _ n, (([], None), n);
  usb_Open := λ _ _ n, (Ok tt, n);
  WritePacket := λ _ _ _ n, (None, n);
  ReadPacket := λ _ _ n, (Ok [0;0;0;5;0x90;0;9;1;1;1], S n);
  usb_Close := λ _ n, (None, n);
  mu_lock := λ _ n, (None, n);
  mu_unlock := λ n, n;
}.

Lemma injected_exchange_returns_witness :
  ∃ r w', Exchange (Z.to_nat 65537) (MkSession (MkDevice "" "" "" "" "" "" 0 0) () 5 0x90 10)
      Caller [1] O = Some (r, w') ∧
    (∀ e w1, mu_lock Caller O = (Some e, w1) →
       r = Err (ETransport "exchange usb session" e) ∧ w' = w1) ∧
    (∀ w1, mu_lock Caller O = (None, w1) → ∃ w2, w' = mu_unlock w2).
Proof.
  apply (injected_exchange_returns (MkSession (MkDevice "" "" "" "" "" "" 0 0) () 5 0x90 10)).
  - intros w p w' [= <- _]. repeat constructor; unfold byte_ok; lia.
  - lia.
Defined.
End InjectedProps.

(** ** The backend over the HID layer: hid_backend.go *)

(** [hid.Backend] and the connections it opens. *)
Class HidLayer (W Conn : Type) := {
  hid_ctx :: GoContext W;
  Enumerate : ctx → EnumerateOptions → W → (Snapshot * option goerror) * W;
  OpenEndpoint : ctx → Endpoint → W → res (option Conn) * W;
  Layout : Conn → ReportLayout;
  ConnEndpoint : Conn → Endpoint;
  ConnClose : Conn → ctx → W → option goerror * W;
}.

Module Native.
Definition fidoUsagePage : Z := 0xf1d0.
Definition fidoUsage : Z := 0x01.

Definition fidoOptions : EnumerateOptions :=
  MkOptions (MkFilter None None (Some (MkUsage fidoUsagePage fidoUsage)) (Some BusUSB)) true.

Definition isFIDOEndpoint (endpoint : Endpoint) : bool :=
  bool_decide (EBus endpoint = BusUSB) && Known (EUsage endpoint)
  && bool_decide (Value (EUsage endpoint) = MkUsage fidoUsagePage fidoUsage).

Definition endpointDescriptor (endpoint : Endpoint) : DeviceDescriptor :=
  MkDevice (EndpointID endpoint) KindUSB (EPath endpoint) (Value (EManufacturer endpoint))
    (Value (EProduct endpoint)) (Value (ESerial endpoint)) (Value (EVendorID endpoint))
    (Value (EProductID endpoint)).

Definition incompleteInventory (snapshot : Snapshot) : goerror :=
  EJoin (EMsg "transport/usb: incomplete FIDO HID inventory" :: Warnings snapshot).

Definition field_matches {T} `{EqDecision T} (expected : T) (absent : bool) (actual : Field T) : bool :=
  absent || Known actual && bool_decide (expected = Value actual).

Definition descriptorMatches (expected : DeviceDescriptor) (actual : Endpoint) : bool :=
  (str_empty (Path expected) || String.eqb (Path expected) (EPath actual))
  && field_matches (VendorID expected) (VendorID expected =? 0) (EVendorID actual)
  && field_matches (ProductID expected) (ProductID expected =? 0) (EProductID actual)
  && field_matches (SerialNumber expected) (str_empty (SerialNumber expected)) (ESerial actual)
  && field_matches (Manufacturer expected) (str_empty (Manufacturer expected)) (EManufacturer actual)
  && field_matches (Product expected) (str_empty (Product expected)) (EProduct actual).

(** The [match] of the selection loop of [Open]. *)
Definition selects (device : DeviceDescriptor) (endpoint : Endpoint) : bool :=
  if str_empty (ID device) then String.eqb (EPath endpoint) (Path device)
  else String.eqb (EndpointID endpoint) (ID device).

(** The loop itself: the last match and how many there are. *)
Fixpoint select (device : DeviceDescriptor) (endpoints : list Endpoint)
    (selected : option Endpoint) (count : Z) : option Endpoint * Z :=
  match endpoints with
  | [] => (selected, count)
  | endpoint :: endpoints =>
      if isFIDOEndpoint endpoint && selects device endpoint
      then select device endpoints (Some endpoint) (count + 1)
      else select device endpoints selected count
  end.

Section Native.
Context {W Conn : Type} `{HidLayer W Conn}.

(** What [reflect] sees of the injected backend. *)
Inductive injected := NilInterface | NilValue | Value_.
Definition NewHIDBackendWithHID (backend : injected) : res () :=
  match backend with
  | NilInterface | NilValue =>
      Err (EFmt "transport/usb: HID backend is required: %w" [HidErr.ErrInvalidArgument])
  | Value_ => Ok ()
  end.

Definition inventory (c : ctx) (w : W) : (Snapshot * option goerror) * W :=
  let '((snapshot, err), w) := Enumerate c fidoOptions w in
  match err with
  | Some e => ((snapshot, Some e), w)
  | None =>
      if negb (Complete snapshot) then ((snapshot, Some (incompleteInventory snapshot)), w)
      else ((snapshot, None), w)
  end.

Definition DiscoverHID (octx : option ctx) (w : W) : (list DeviceDescriptor * option goerror) * W :=
  match octx with
  | None => (([], Some (ETransport "discover usb hid devices" HidErr.ErrInvalidArgument)), w)
  | Some c =>
      let '((snapshot, err), w) := inventory c w in
      match err with
      | Some e => (([], Some (ETransport "discover usb hid devices" (HidErr.classify e))), w)
      | None => ((map endpointDescriptor (List.filter isFIDOEndpoint (Endpoints snapshot)), None), w)
      end
  end.

Definition wrap {A} (e : goerror) : M W A :=
  throw (ETransport "open usb hid session" (HidErr.classify e)).

Definition enumerate (c : ctx) : M W (Snapshot * option goerror) := λ w,
  let '(r, w') := Enumerate c fidoOptions w in Some (Ok r, w').

(** Opening the selected endpoint. *)
Definition open_selected (background c : ctx) (endpoint : Endpoint)
    : M W (Session.hidSession * Conn) :=
  opened ←! attempt (call (OpenEndpoint c endpoint));
  match opened with
  | Err e => wrap e
  | Ok None => wrap HidErr.ErrIO
  | Ok (Some conn) =>
      let layout := Layout conn in
      if negb (Size (Input layout) =? Hid.hidReportSize)
         || negb (Size (Output layout) =? Hid.hidReportSize)
      then
        closed ←! attempt (call_err (ConnClose conn
                    (WithTimeout background Session.hidCloseTimeout)));
        wrap (EJoin (HidErr.ErrUnsupported ::
                match closed with Err e => [e] | Ok _ => [] end))
      else
        ret (Session.MkSession false false (endpointDescriptor (ConnEndpoint conn)) layout 0
               Hid.hidReportSize None, conn)
  end.

(** A session and the connection its exchanges use.  [background] is
    [context.Background()]. *)
Definition OpenHID (background : ctx) (octx : option ctx) (device : DeviceDescriptor)
    : M W (Session.hidSession * Conn) :=
  match octx with
  | None => wrap HidErr.ErrInvalidArgument
  | Some c =>
      live ←! attempt (check_ctx c);
      match live with
      | Err e => wrap e
      | Ok _ =>
          if negb (transport_allowed KindUSB device) then wrap HidErr.ErrUnsupported
          else if str_empty (ID device) && str_empty (Path device)
          then wrap HidErr.ErrInvalidArgument
          else
            listed ←! enumerate c;
            let '(snapshot, err) := listed in
            match err with
            | Some e => wrap e
            | None =>
                let '(selected, count) := select device (Endpoints snapshot) None 0 in
                match selected with
                | None =>
                    if negb (Complete snapshot) then wrap (incompleteInventory snapshot)
                    else wrap HidErr.ErrRemoved
                | Some endpoint =>
                    if str_empty (ID device) && negb (Complete snapshot)
                    then wrap (incompleteInventory snapshot)
                    else if negb (count =? 1)
                    then wrap (EFmt "transport/usb: ambiguous endpoint selection: %w"
                                 [HidErr.ErrInvalidArgument])
                    else if negb (descriptorMatches device endpoint)
                    then wrap HidErr.ErrStaleEndpoint
                    else open_selected background c endpoint
                end
            end
      end
  end.
End Native.
End Native.

Module NativeProps.
Import Native.

Definition candidates (device : DeviceDescriptor) (snapshot : Snapshot) : list Endpoint :=
  List.filter (λ e, isFIDOEndpoint e && selects device e) (Endpoints snapshot).

Lemma select_candidates device endpoints : ∀ selected count,
  let found := List.filter (λ e, isFIDOEndpoint e && selects device e) endpoints in
  select device endpoints selected count =
    (match last found with Some e => Some e | None => selected end, count + len found).
Proof.
  induction endpoints as [|e endpoints IH]; intros selected count found.
  { unfold found. simpl. by rewrite len_nil, Z.add_0_r. }
  unfold found. simpl. destruct (isFIDOEndpoint e && selects device e); rewrite IH; [|done].
  rewrite len_cons. f_equal; [|lia].
  set (l := List.filter _ _). destruct l as [|e' l]; [done|].
  change (last (e :: e' :: l)) with (last (e' :: l)).
  by destruct (last (e' :: l)) eqn:E; [|apply last_None in E].
Qed.

Section Open.
Context {W Conn : Type} `{HidLayer W Conn}.

(** [Open] past its guards: the outcome by the number of candidates. *)
Lemma Open_listed background c device w snapshot w1 :
  alive (W:=W) c → transport_allowed KindUSB device = true →
  str_empty (ID device) && str_empty (Path device) = false →
  Enumerate c fidoOptions w = ((snapshot, None), w1) →
  OpenHID background (Some c) device w =
    match candidates device snapshot with
    | [] => wrap (if Complete snapshot then HidErr.ErrRemoved else incompleteInventory snapshot) w1
    | [e] =>
        if str_empty (ID device) && negb (Complete snapshot)
        then wrap (incompleteInventory snapshot) w1
        else if negb (descriptorMatches device e) then wrap HidErr.ErrStaleEndpoint w1
        else open_selected background c e w1
    | _ =>
        if str_empty (ID device) && negb (Complete snapshot)
        then wrap (incompleteInventory snapshot) w1
        else wrap (EFmt "transport/usb: ambiguous endpoint selection: %w"
                     [HidErr.ErrInvalidArgument]) w1
    end.
Proof.
  intros Hal Htr Hid Hen. unfold OpenHID, bind at 1, attempt.
  rewrite check_ctx_alive by done. rewrite Htr, Hid. cbn [negb].
  unfold bind, enumerate. rewrite Hen. rewrite select_candidates. fold (candidates device snapshot).
  destruct (candidates device snapshot) as [|e [|e' l]].
  - simpl. by destruct (Complete snapshot).
  - cbn [last]. change (0 + len [e] =? 1) with true. cbn [negb].
    destruct (str_empty (ID device) && negb (Complete snapshot)); [done|].
    by destruct (descriptorMatches device e).
  - change (last (e :: e' :: l)) with (last (e' :: l)).
    destruct (last (e' :: l)) eqn:E; [|by apply last_None in E].
    rewrite !len_cons. pose proof (len_nonneg l).
    destruct (Z.eqb_spec (0 + (1 + (1 + len l))) 1); [lia|]. cbn [negb]. by destruct (str_empty (ID device) && negb (Complete snapshot)).
Qed.

(** Opening selects exactly one endpoint of a fresh inventory.  A session
    is returned only when exactly one FIDO endpoint of the snapshot has the
    descriptor's identifier (or, without an identifier, its path, in a
    complete snapshot), every other known field of the descriptor agrees
    with it, that endpoint is the one opened, and both report formats have
    64 bytes; the session starts without a channel.  With no candidate the
    device is reported disconnected when the inventory is complete; with
    several, opening is refused. *)
Theorem native_open_exact (background c : ctx) (device : DeviceDescriptor) (w w1 : W)
    (snapshot : Snapshot) :
  alive (W:=W) c → transport_allowed KindUSB device = true →
  str_empty (ID device) && str_empty (Path device) = false →
  Enumerate c fidoOptions w = ((snapshot, None), w1) →
  (∀ s conn w', OpenHID background (Some c) device w = Some (Ok (s, conn), w') →
     ∃ e, candidates device snapshot = [e] ∧ descriptorMatches device e = true ∧
       (ID device = "" → Complete snapshot = true) ∧
       OpenEndpoint c e w1 = (Ok (Some conn), w') ∧
       Size (Input (Session.layout s)) = 64 ∧ Size (Output (Session.layout s)) = 64 ∧
       Session.layout s = Layout conn ∧ Session.device s = endpointDescriptor (ConnEndpoint conn) ∧
       Session.channelID s = 0 ∧ SessionPhases.idle s) ∧
  (candidates device snapshot = [] → Complete snapshot = true →
     ∃ e, OpenHID background (Some c) device w = Some (Err (ETransport "open usb hid session" e), w1) ∧
       Is e Transport.ErrDisconnected = true) ∧
  ((2 ≤ length (candidates device snapshot))%nat → ∃ e,
     OpenHID background (Some c) device w = Some (Err e, w1)).
Proof.
  intros Hal Htr Hid Hen. rewrite (Open_listed _ _ _ _ _ _ Hal Htr Hid Hen). split_and!.
  - intros s conn w'. destruct (candidates device snapshot) as [|e [|? ?]]; [done| |by destruct (str_empty (ID device) && negb (Complete snapshot))].
    destruct (str_empty (ID device) && negb (Complete snapshot)) eqn:Hpath; [done|].
    destruct (descriptorMatches device e) eqn:Hm; [|done]. cbn [negb].
    unfold open_selected, bind at 1, attempt, call.
    destruct (OpenEndpoint c e w1) as [[[conn'|]|?] w2] eqn:Ho; [|done|done].
    destruct (Z.eqb_spec (Size (Input (Layout conn'))) Hid.hidReportSize) as [Hi|];
      [destruct (Z.eqb_spec (Size (Output (Layout conn'))) Hid.hidReportSize) as [Hou|]|];
      cbn [negb orb].
    2, 3: unfold bind, attempt, call_err; destruct (ConnClose _ _ _) as [[?|] ?]; done.
    intros [= <- <- <-]. exists e. split_and!; try done.
    intros Hz. rewrite Hz in Hpath. by destruct (Complete snapshot).
  - intros -> ->. eexists. split; [done|]. by vm_compute.
  - destruct (candidates device snapshot) as [|e [|? ?]]; simpl; [lia|lia|]. intros _.
    destruct (str_empty (ID device) && negb (Complete snapshot)); by eexists.
Qed.
End Open.

#[local] Instance one_key : HidLayer nat ReportLayout := {
  hid_ctx := λ _ n, (None, n);
  Enumerate := λ _ _ n,
    ((MkSnapshot [MkEndpoint "e1" "p" (MkField 1 true) (MkField 2 true)
        (MkField (MkUsage 0xf1d0 1) true) (MkField 0 false) BusUSB (MkField "" false)
        (MkField "" false) (MkField "" false)] true [], None), n);
  OpenEndpoint := λ _ _ n, (Ok (Some (MkLayout (MkSpec 0 64) (MkSpec 0 64))), S n);
  Layout := λ l, l;
  ConnEndpoint := λ _, MkEndpoint "e1" "p" (MkField 1 true) (MkField 2 true)
        (MkField (MkUsage 0xf1d0 1) true) (MkField 0 false) BusUSB (MkField "" false)
        (MkField "" false) (MkField "" false);
  ConnClose := λ _ _ n, (None, n);
}.

Definition wanted : DeviceDescriptor := MkDevice "e1" "usb" "" "" "" "" 1 0.
Definition listed : Snapshot := (Enumerate Caller fidoOptions O).1.1.

Lemma native_open_exact_witness :
  (∀ s conn w', OpenHID Caller (Some Caller) wanted O = Some (Ok (s, conn), w') →
     ∃ e, candidates wanted listed = [e] ∧ descriptorMatches wanted e = true ∧
       (ID wanted = "" → Complete listed = true) ∧
       OpenEndpoint Caller e O = (Ok (Some conn), w') ∧
       Size (Input (Session.layout s)) = 64 ∧ Size (Output (Session.layout s)) = 64 ∧
       Session.layout s = Layout conn ∧ Session.device s = endpointDescriptor (ConnEndpoint conn) ∧
       Session.channelID s = 0 ∧ SessionPhases.idle s) ∧
  (candidates wanted listed = [] → Complete listed = true →
     ∃ e, OpenHID Caller (Some Caller) wanted O =
            Some (Err (ETransport "open usb hid session" e), O) ∧
       Is e Transport.ErrDisconnected = true) ∧
  ((2 ≤ length (candidates wanted listed))%nat → ∃ e,
     OpenHID Caller (Some Caller) wanted O = Some (Err e, O)).
Proof. refine (native_open_exact Caller Caller wanted O O listed _ _ _ _); done. Defined.
End NativeProps.
