(* ===== verification/NfcTransport.v ===== *)
(** * NFC transport: src/pkg/transport/nfc/{backend,pcsc_backend}.go

    [Nfc] is the session over a transceiver: a chain of command APDUs, then
    GET RESPONSE until the answer is complete.  [Pcsc] is the discovery and
    opening over PC/SC, with the card and context handles it must give back. *)
From S2P Require Import Prelude GoErrors WireNFC GoIO Descriptors Registry UsbBackend.

(** ** Hooks supplied by the caller *)
Class NfcHooks (W Conn : Type) := {
  nfc_Discover : ctx → W → (list DeviceDescriptor * option goerror) * W;
  nfc_Open : ctx → DeviceDescriptor → W → res Conn * W;
  Transceive : Conn → ctx → bytes → W → res bytes * W;
  nfc_Close : Conn → W → option goerror * W;
}.

Module Nfc.
Section Nfc.
Context {W Conn : Type} `{NfcHooks W Conn}.

Record backend := MkBackendConfig {
  b_class : Z; b_ins : Z; b_p1 : Z; b_p2 : Z; b_chunkSize : Z;
}.
(** The [sync.Mutex] of a session only orders whole exchanges. *)
Record session := MkSession { s_device : DeviceDescriptor; s_conn : Conn; s_codec : NfcCodec.Codec }.

Definition NewBackend (present : bool) (class instruction parameter1 parameter2 chunkSize : Z)
    : res backend :=
  if negb present then Err (EMsg "transport/nfc: discoverer and opener are required")
  else
    _ ←? NfcCodec.NewCodec class instruction parameter1 parameter2 chunkSize;
    Ok (MkBackendConfig class instruction parameter1 parameter2 chunkSize).

Definition Discover (c : ctx) (w : W) : (list DeviceDescriptor * option goerror) * W :=
  let '((devices, err), w) := nfc_Discover c w in
  let devices := map (set_transport KindNFC) devices in
  match err with
  | Some e => ((devices, Some (wrap_common "discover nfc devices" e)), w)
  | None => ((devices, None), w)
  end.

Definition Open (b : backend) (c : ctx) (device : DeviceDescriptor) : M W session :=
  if negb (transport_allowed KindNFC device)
  then throw (ETransport "open nfc session"
         (Transport.unsupported (EMsg "transport/nfc: unsupported transport %s")))
  else
    conn ←! map_err (wrap_common "open nfc session") (call (nfc_Open c device));
    match NfcCodec.NewCodec (b_class b) (b_ins b) (b_p1 b) (b_p2 b) (b_chunkSize b) with
    | Err e =>
        _ ←! attempt (call_err (nfc_Close conn));
        throw (wrap_common "open nfc session" e)
    | Ok codec => ret (MkSession (set_transport KindNFC device) conn codec)
    end.

Definition Device (s : session) : DeviceDescriptor := s_device s.

(** [assembler.Add(response)]. *)
Definition add_response (a : NfcCodec.Assembler) (response : bytes) : M W NfcCodec.Assembler :=
  match NfcCodec.Add a response with
  | (None, a) => ret a
  | (Some e, _) => throw (wrap_common "reassemble nfc response" e)
  end.

(** The loop over the packets of the request: all but the last response are
    interim. *)
Fixpoint send_chain (s : session) (c : ctx) (packets : list bytes) (a : NfcCodec.Assembler)
    : M W NfcCodec.Assembler :=
  match packets with
  | [] => ret a
  | packet :: rest =>
      response ←! map_err (wrap_common "transceive nfc packet")
                    (call (Transceive (s_conn s) c packet));
      match rest with
      | _ :: _ =>
          match NfcCodec.ValidateInterimResponse response with
          | Some e => throw (wrap_common "validate nfc chain response" e)
          | None => send_chain s c rest a
          end
      | [] => add_response a response
      end
  end.

(** GET RESPONSE until the assembler is done. *)
Fixpoint continue_response (fuel : nat) (s : session) (c : ctx) (a : NfcCodec.Assembler)
    : M W NfcCodec.Assembler :=
  match fuel with
  | O => out_of_fuel
  | S fuel =>
      if NfcCodec.Done a then ret a
      else
        response ←! map_err (wrap_common "continue nfc response")
                      (call (Transceive (s_conn s) c
                               (NfcCodec.GetResponsePacket (s_codec s) (NfcCodec.MoreDataHint a))));
        a ←! add_response a response;
        continue_response fuel s c a
  end.

Definition Exchange (fuel : nat) (s : session) (c : ctx) (req : bytes) : M W bytes :=
  a ←! send_chain s c (NfcCodec.Fragment (s_codec s) req) NfcCodec.NewAssembler;
  a ←! continue_response fuel s c a;
  map_err (wrap_common "reassemble nfc response") (lift (NfcCodec.Payload a)).

Definition Close (s : session) : M W () :=
  map_err (wrap_common "close nfc session") (call_err (nfc_Close (s_conn s))).

Definition AsBackend (b : backend) : Backend W session := MkBackend KindNFC Discover (Open b).
End Nfc.
Arguments session Conn : clear implicits.
End Nfc.

Module NfcProps.
Import Nfc NfcCodec NfcCodecProps.

Section Exchange.
Context {W Conn : Type} `{NfcHooks W Conn}.

(** [converse s c w dialogue w']: the card answers the given commands so. *)
Inductive converse (s : session Conn) (c : ctx) : W → list (bytes * bytes) → W → Prop :=
  | converse_nil w : converse s c w [] w
  | converse_cons w command answer w1 rest w' :
      Transceive (s_conn s) c command w = (Ok answer, w1) →
      converse s c w1 rest w' → converse s c w ((command, answer) :: rest) w'.

Lemma converse_app s c w d1 d2 w' :
  converse s c w (d1 ++ d2) w' → ∃ w1, converse s c w d1 w1 ∧ converse s c w1 d2 w'.
Proof.
  revert w. induction d1 as [|[cmd a] d1 IH]; intros w Hc; [by exists w; split; [constructor|]|].
  inversion Hc as [|? ? ? w1 ? ? Hx Hr]; subst. destruct (IH _ Hr) as (w2 & ? & ?).
  exists w2. split; [by econstructor|done].
Qed.

Definition success : bytes := [0x90; 0x00].

Lemma send_chain_run s c a last_response interim last_packet w w' :
  converse s c w (map (λ p, (p, success)) interim ++ [(last_packet, last_response)]) w' →
  send_chain s c (interim ++ [last_packet]) a w = add_response a last_response w'.
Proof.
  revert w. induction interim as [|p interim IH]; intros w Hc; simpl in Hc;
    inversion Hc as [|? ? ? w1 ? ? Hx Hr]; subst.
  - cbn [app send_chain]. unfold bind, map_err, call. rewrite Hx. by inversion Hr; subst.
  - cbn [app send_chain]. unfold bind at 1, map_err, call. rewrite Hx.
    change (ValidateInterimResponse success) with (@None goerror).
    destruct (interim ++ [last_packet]) as [|x l] eqn:E; [by destruct interim|].
    by apply IH.
Qed.

(** The GET RESPONSE commands a series of 0x61xx answers calls for. *)
Fixpoint continuation_dialogue (codec : Codec) (hint : Z) (more : list (bytes * Z)) (final : bytes)
    : list (bytes * bytes) :=
  match more with
  | [] => [(GetResponsePacket codec hint, response final 0x90 0x00)]
  | (body, next) :: more =>
      (GetResponsePacket codec hint, response body 0x61 next)
        :: continuation_dialogue codec next more final
  end.

Lemma continue_run s c fuel more final : ∀ buf hint w w',
  (length more + 1 < fuel)%nat →
  converse s c w (continuation_dialogue (s_codec s) hint more final) w' →
  continue_response fuel s c (MkAssembler false buf hint) w =
    Some (Ok (MkAssembler true (buf ++ concat (map fst more) ++ final) 0), w').
Proof.
  revert fuel. induction more as [|[body next] more IH]; intros fuel buf hint w w' Hf Hc;
    simpl in Hc, Hf; inversion Hc as [|? ? ? w1 ? ? Hx Hr]; subst;
    (destruct fuel as [|fuel]; [lia|]); cbn [continue_response Done done_ MoreDataHint moreDataHint];
    unfold bind at 1, map_err, call; rewrite Hx; unfold add_response; rewrite Add_response;
    cbn [Z.eqb Pos.eqb andb buffer].
  - inversion Hr; subst. destruct fuel as [|fuel]; [lia|]. done.
  - unfold bind, ret. rewrite IH with (w' := w'); [|lia|done]. simpl. by rewrite <-!app_assoc.
Qed.

(** An NFC exchange end to end.  When the card acknowledges every command
    of the request's chain but the last with 0x9000, and answers the last
    one directly or through any number of 0x61xx answers fetched with GET
    RESPONSE and the length each of them announced, the exchange returns the
    concatenation of the bodies, in order. *)
Theorem nfc_exchange_correct (s : session Conn) (c : ctx) (req : bytes) (w w' : W)
    (interim : list bytes) (last_packet body final : bytes) (hint : Z) (more : list (bytes * Z))
    (fuel : nat) :
  Fragment (s_codec s) req = interim ++ [last_packet] →
  converse s c w (map (λ p, (p, success)) interim ++
    (last_packet, response body 0x61 hint) ::
    continuation_dialogue (s_codec s) hint more final) w' →
  (length more + 1 < fuel)%nat →
  Exchange fuel s c req w = Some (Ok (body ++ concat (map fst more) ++ final), w').
Proof.
  intros HF Hc Hf.
  assert (Hc' : converse s c w ((map (λ p, (p, success)) interim ++
    [(last_packet, response body 0x61 hint)]) ++
    continuation_dialogue (s_codec s) hint more final) w') by (by rewrite <-app_assoc).
  apply converse_app in Hc' as (w1 & H1 & H2).
  unfold Exchange, bind at 1. rewrite HF, (send_chain_run _ _ _ _ _ _ _ _ H1).
  unfold add_response. rewrite Add_response. cbn [Z.eqb Pos.eqb andb]. unfold ret, bind.
  by rewrite (continue_run s c fuel more final _ hint w1 w' Hf H2).
Qed.
End Exchange.

(** A card: the answers it still has to give. *)
#[local] Instance deck : NfcHooks (list bytes) () := {
  nfc_Discover := λ _ w, (([], None), w);
  nfc_Open := λ _ _ w, (Ok tt, w);
  Transceive := λ _ _ _ w,
    match w with [] => (Err HidErr.ErrRemoved, w) | a :: w => (Ok a, w) end;
  nfc_Close := λ _ w, (None, w);
}.

Lemma nfc_exchange_correct_witness :
  Exchange 3 (MkSession (MkDevice "" "" "" "" "" "" 0 0) () (MkCodec 0x80 0x10 0 0 2)) Caller
    [1;2;3] [[0x90;0]; [7;0x61;1]; [8;0x90;0]] = Some (Ok [7;8], []).
Proof.
  apply (nfc_exchange_correct (MkSession (MkDevice "" "" "" "" "" "" 0 0) () (MkCodec 0x80 0x10 0 0 2))
    Caller [1;2;3] [[0x90;0]; [7;0x61;1]; [8;0x90;0]] [] [[0x90;0x10;0;0;2;1;2]] [0x80;0x10;0;0;1;3]
    [7] [8] 1 [] 3).
  - by vm_compute.
  - repeat (eapply converse_cons; [done|]). constructor.
  - simpl; lia.
Defined.
End NfcProps.

(** ** PC/SC: pcsc_backend.go *)

(** The PC/SC service: piv-go's contexts and cards, with the text of its
    errors, which the source inspects. *)
Class PcscService (W Ctx Card : Type) := {
  pcsc_ctx :: GoContext W;
  factory : W → res Ctx * W;
  ListReaders : Ctx → W → res (list string) * W;
  Connect : Ctx → string → W → res Card * W;
  Release : Ctx → W → option goerror * W;
  Transmit : Card → bytes → W → res bytes * W;
  CardClose : Card → W → option goerror * W;
  error_text : goerror → string;
}.

Module Pcsc.
Definition defaultAPDUClass : Z := 0x80.
Definition defaultAPDUInstruction : Z := 0x10.
Definition defaultAPDUParameter1 : Z := 0x00.
Definition defaultAPDUParameter2 : Z := 0x00.
Definition defaultAPDUChunkSize : Z := 240.

Definition fidoAppletSelectCommand : bytes :=
  [0x00; 0xA4; 0x04; 0x00; 0x08; 0xA0; 0x00; 0x00; 0x06; 0x47; 0x2F; 0x00; 0x01; 0x00].

(** [strings.TrimSpace], [TrimPrefix], [ToLower] and [Contains] on the ASCII
    text PC/SC readers and errors use. *)
Definition is_space (a : Ascii.ascii) : bool :=
  let n := Ascii.nat_of_ascii a in (n =? 32)%nat || ((9 <=? n) && (n <=? 13))%nat.

Fixpoint trim_left (s : string) : string :=
  match s with
  | EmptyString => EmptyString
  | String a rest => if is_space a then trim_left rest else s
  end.

Fixpoint trim_right (s : string) : string :=
  match s with
  | EmptyString => EmptyString
  | String a rest =>
      match trim_right rest with
      | EmptyString => if is_space a then EmptyString else String a EmptyString
      | rest => String a rest
      end
  end.

Definition TrimSpace (s : string) : string := trim_right (trim_left s).

Definition TrimPrefix (s p : string) : string :=
  if String.prefix p s then String.substring (String.length p) (String.length s - String.length p) s
  else s.

Fixpoint ToLower (s : string) : string :=
  match s with
  | EmptyString => EmptyString
  | String a rest =>
      let n := Ascii.nat_of_ascii a in
      String (if (65 <=? n)%nat && (n <=? 90)%nat then Ascii.ascii_of_nat (n + 32) else a)
        (ToLower rest)
  end.

Fixpoint Contains (s sub : string) : bool :=
  String.prefix sub s ||
  match s with EmptyString => false | String _ rest => Contains rest sub end.

(** [string(version)] of bytes. *)
Definition string_of_bytes (bs : bytes) : string :=
  fold_right (λ b s, String (Ascii.ascii_of_nat (Z.to_nat (u8 b))) s) EmptyString bs.

Definition newPCSCDeviceDescriptor (reader : string) (version : bytes) : DeviceDescriptor :=
  let name := TrimSpace reader in
  let name := if str_empty name then "PC/SC reader"%string else name in
  let versionText := TrimSpace (string_of_bytes version) in
  let product :=
    if str_empty versionText then name else (name ++ " [" ++ versionText ++ "]")%string in
  MkDevice ("pcsc:" ++ name) KindNFC name "" product "" 0 0.

(** The reader [Open] connects to. *)
Definition reader_of (device : DeviceDescriptor) : string :=
  let reader := TrimSpace (Path device) in
  if str_empty reader then TrimPrefix (TrimSpace (ID device)) "pcsc:" else reader.

Section Pcsc.
Context {W Ctx Card : Type} `{PcscService W Ctx Card}.

(** [defer func() { _ = cleanup() }()]. *)
Definition finally {A} (cleanup : W → option goerror * W) (body : M W A) : M W A :=
  r ←! attempt body; _ ←! attempt (call_err cleanup); lift r.

(** [_ = f()] before an early return. *)
Definition quietly (f : W → option goerror * W) : M W () :=
  _ ←! attempt (call_err f); ret ().

Definition shouldIgnorePCSCConnectError (e : goerror) : bool :=
  Contains (ToLower (error_text e)) "no card".

Definition selectFIDOApplet (card : Card) : M W bytes :=
  response ←! call (Transmit card fidoAppletSelectCommand);
  if len response <? 2
  then throw (EMsg "transport/nfc: applet selection response is too short")
  else
    let n := (length response - 2)%nat in
    let status1 := response !!! n in
    let status2 := response !!! S n in
    if negb (status1 =? 0x90) || negb (status2 =? 0x00)
    then throw (EAppletSelection status1 status2)
    else ret (take n response).

(** [(version, ok, err)]: [None] is a reader without a FIDO applet. *)
Definition probePCSCReader (pcscContext : Ctx) (reader : string) : M W (option bytes) :=
  connected ←! attempt (call (Connect pcscContext reader));
  match connected with
  | Err e => if shouldIgnorePCSCConnectError e then ret None else throw e
  | Ok card =>
      finally (CardClose card) (
        selected ←! attempt (selectFIDOApplet card);
        match selected with
        | Ok version => ret (Some version)
        | Err e =>
            match As as_applet e with
            | Some (sw1, sw2) =>
                if (sw1 =? 0x6A) && (sw2 =? 0x82) then ret None else throw e
            | None => throw e
            end
        end)
  end.

(** The loop over the readers, with the devices and errors so far. *)
Fixpoint probe_readers (c : ctx) (pcscContext : Ctx) (readers : list string)
    (devices : list DeviceDescriptor) (errs : list goerror)
    : M W (list DeviceDescriptor * list goerror) :=
  match readers with
  | [] => ret (devices, errs)
  | reader :: readers =>
      _ ←! check_ctx c;
      probed ←! attempt (probePCSCReader pcscContext reader);
      match probed with
      | Err e =>
          probe_readers c pcscContext readers devices
            (errs ++ [EFmt "transport/nfc: probe reader %q: %w" [e]])
      | Ok None => probe_readers c pcscContext readers devices errs
      | Ok (Some version) =>
          probe_readers c pcscContext readers
            (devices ++ [newPCSCDeviceDescriptor reader version]) errs
      end
  end.

(** [pcscDiscoverer.Discover]: descriptors, and the error returned with them. *)
Definition PcscDiscover (c : ctx) : M W (list DeviceDescriptor * option goerror) :=
  _ ←! check_ctx c;
  pcscContext ←! call factory;
  finally (Release pcscContext) (
    readers ←! call (ListReaders pcscContext);
    found ←! probe_readers c pcscContext readers [] [];
    ret (found.1, Registry.Join found.2)).

(** [pcscOpener.Open]; the pair is the [pcscTransceiver]. *)
Definition PcscOpen (c : ctx) (device : DeviceDescriptor) : M W (Ctx * Card) :=
  _ ←! check_ctx c;
  let reader := reader_of device in
  if str_empty reader then throw (EMsg "transport/nfc: PC/SC reader path is required")
  else
    pcscContext ←! call factory;
    connected ←! attempt (call (Connect pcscContext reader));
    match connected with
    | Err e => _ ←! quietly (Release pcscContext); throw e
    | Ok card =>
        selected ←! attempt (selectFIDOApplet card);
        match selected with
        | Err e => _ ←! quietly (CardClose card); _ ←! quietly (Release pcscContext); throw e
        | Ok _ => ret (pcscContext, card)
        end
    end.

Definition TransceiveCard (t : Ctx * Card) (c : ctx) (packet : bytes) : M W bytes :=
  _ ←! check_ctx c; call (Transmit t.2 packet).

Definition CloseTransceiver (t : Ctx * Card) : M W () :=
  cardErr ←! attempt (call_err (CardClose t.2));
  contextErr ←! attempt (call_err (Release t.1));
  match cardErr with Err e => throw e | Ok _ => lift contextErr end.

Definition NewPCSCBackendWithFactory (present : bool) : res Nfc.backend :=
  if negb present then Err (EMsg "transport/nfc: pcsc context factory is required")
  else Nfc.NewBackend true defaultAPDUClass defaultAPDUInstruction defaultAPDUParameter1
         defaultAPDUParameter2 defaultAPDUChunkSize.
End Pcsc.
End Pcsc.

Module PcscProps.
Import Pcsc.

(** A service that counts its open handles. *)
Class Ledger (W Ctx Card : Type) `{PcscService W Ctx Card} := {
  contexts : W → Z;
  cards : W → Z;
  led_poll : ∀ c w, contexts (ctx_Err c w).2 = contexts w ∧ cards (ctx_Err c w).2 = cards w;
  led_factory : ∀ w, cards (factory w).2 = cards w ∧
    contexts (factory w).2 = contexts w + (match (factory w).1 with Ok _ => 1 | Err _ => 0 end);
  led_list : ∀ x w, contexts (ListReaders x w).2 = contexts w ∧ cards (ListReaders x w).2 = cards w;
  led_connect : ∀ x r w, contexts (Connect x r w).2 = contexts w ∧
    cards (Connect x r w).2 = cards w + (match (Connect x r w).1 with Ok _ => 1 | Err _ => 0 end);
  led_release : ∀ x w, contexts (Release x w).2 = contexts w - 1 ∧ cards (Release x w).2 = cards w;
  led_transmit : ∀ k p w, contexts (Transmit k p w).2 = contexts w ∧
    cards (Transmit k p w).2 = cards w;
  led_close : ∀ k w, cards (CardClose k w).2 = cards w - 1 ∧
    contexts (CardClose k w).2 = contexts w;
}.

Section Handles.
Context {W Ctx Card : Type} `{Ledger W Ctx Card}.

(** [moves m dx dk]: a run of [m] adds [dx] contexts and [dk] cards when it
    succeeds, and nothing when it fails. *)
Definition delta (w w' : W) (dx dk : Z) : Prop :=
  contexts w' = contexts w + dx ∧ cards w' = cards w + dk.
Definition moves {A} (m : M W A) (dx dk : Z) : Prop := ∀ w, ∃ r w', m w = Some (r, w') ∧
  match r with Ok _ => delta w w' dx dk | Err _ => delta w w' 0 0 end.

Lemma moves_ret {A} (a : A) : moves (ret a) 0 0.
Proof. intros w. eexists _, _. split; [done|]. unfold delta; lia. Qed.
Lemma moves_throw {A} e dx dk : moves (A:=A) (throw e) dx dk.
Proof. intros w. eexists _, _. split; [done|]. unfold delta; lia. Qed.
Lemma moves_lift {A} (r : res A) : moves (lift r) 0 0.
Proof. intros w. eexists _, _. split; [done|]. unfold delta. destruct r; lia. Qed.

Lemma moves_bind {A B} (m : M W A) (k : A → M W B) dx dk :
  moves m 0 0 → (∀ a, moves (k a) dx dk) → moves (bind m k) dx dk.
Proof.
  intros Hm Hk w. destruct (Hm w) as (r & w1 & Hr & Hd). unfold bind. rewrite Hr.
  destruct r as [a|e]; [|by eexists _, _].
  destruct (Hk a w1) as (r & w2 & Hr2 & Hd2). exists r, w2. split; [done|].
  unfold delta in *. destruct r; lia.
Qed.

Lemma moves_attempt {A} (m : M W A) : moves m 0 0 → moves (attempt m) 0 0.
Proof.
  intros Hm w. destruct (Hm w) as (r & w1 & Hr & Hd). unfold attempt. rewrite Hr.
  eexists _, _. split; [done|]. by destruct r.
Qed.

Lemma moves_check c : moves (check_ctx c) 0 0.
Proof.
  intros w. unfold check_ctx, call_err. pose proof (led_poll c w).
  destruct (ctx_Err c w) as [[e|] w1]; simpl in *; eexists _, _; (split; [done|]);
    unfold delta; lia.
Qed.

Lemma moves_call {A} (f : W → res A * W) :
  (∀ w, contexts (f w).2 = contexts w ∧ cards (f w).2 = cards w) → moves (call f) 0 0.
Proof.
  intros Hf w. unfold call. specialize (Hf w). destruct (f w) as [r w1]; simpl in *.
  eexists _, _. split; [done|]. unfold delta. destruct r; lia.
Qed.

(** A cleanup gives back what the body holds. *)
Lemma cleaned {A} (f : W → option goerror * W) (k : () → M W A) w x :
  (∀ w, contexts (f w).2 = contexts w - x ∧ cards (f w).2 = cards w - (1 - x)) →
  ∃ w1, bind (quietly f) k w = k () w1 ∧ delta w w1 (- x) (- (1 - x)).
Proof.
  intros Hf. specialize (Hf w). unfold quietly, bind, attempt, call_err.
  destruct (f w) as [[e|] w1]; simpl in *; exists w1; (split; [done|]); unfold delta; lia.
Qed.

Lemma moves_finally {A} (f : W → option goerror * W) (body : M W A) x w w0 :
  (∀ w, contexts (f w).2 = contexts w - x ∧ cards (f w).2 = cards w - (1 - x)) →
  moves body 0 0 → delta w0 w x (1 - x) →
  ∃ r w', finally f body w = Some (r, w') ∧
    match r with Ok _ => delta w0 w' 0 0 | Err _ => delta w0 w' 0 0 end.
Proof.
  intros Hf Hb Hd. unfold finally. destruct (Hb w) as (r & w1 & Hr & Hd1).
  unfold bind at 1, attempt at 1. rewrite Hr.
  specialize (Hf w1). unfold bind, attempt, call_err, lift.
  destruct (f w1) as [[e|] w2]; simpl in *; eexists _, _; (split; [done|]);
    unfold delta in *; destruct r; lia.
Qed.

Lemma moves_select card : moves (selectFIDOApplet card) 0 0.
Proof.
  unfold selectFIDOApplet. apply moves_bind.
  - apply moves_call. intros w. apply led_transmit.
  - intros response. case_match; [apply moves_throw|].
    case_match; [apply moves_throw|apply moves_ret].
Qed.

Lemma moves_probe x reader : moves (probePCSCReader x reader) 0 0.
Proof.
  intros w. unfold probePCSCReader, bind at 1, attempt at 1, call.
  pose proof (led_connect x reader w) as Hc.
  destruct (Connect x reader w) as [[card|e] w1]; simpl in Hc.
  - apply (moves_finally (CardClose card) _ 0).
    + intros w2. pose proof (led_close card w2). lia.
    + apply moves_bind; [apply moves_attempt, moves_select|]. intros [v|e]; [apply moves_ret|].
      destruct (As as_applet e) as [[s1 s2]|]; [|apply moves_throw].
      case_match; [apply moves_ret|apply moves_throw].
    + unfold delta. lia.
  - destruct (shouldIgnorePCSCConnectError e); eexists _, _; (split; [done|]); unfold delta; lia.
Qed.

Lemma moves_readers c x readers : ∀ devices errs, moves (probe_readers c x readers devices errs) 0 0.
Proof.
  induction readers as [|reader readers IH]; intros devices errs; cbn [probe_readers];
    [apply moves_ret|].
  apply moves_bind; [apply moves_check|intros _].
  apply moves_bind; [apply moves_attempt, moves_probe|intros [[v|]|e]]; apply IH.
Qed.

(** C40: PC/SC handles never leak.  Discovery returns with no context and no
    card left open, whatever fails on the way (the context, the readers, a
    connection, the applet selection, the caller's context); opening holds
    exactly one context and one card when it succeeds and none when it
    fails; closing a transceiver gives both back even when closing the card
    reports an error. *)
Theorem pcsc_no_leak (c : ctx) (device : DeviceDescriptor) (t : Ctx * Card) (w : W) :
  (∃ r w', PcscDiscover c w = Some (r, w') ∧ delta w w' 0 0) ∧
  (∃ r w', PcscOpen c device w = Some (r, w') ∧
     match r with Ok _ => delta w w' 1 1 | Err _ => delta w w' 0 0 end) ∧
  (∃ r w', CloseTransceiver t w = Some (r, w') ∧ delta w w' (-1) (-1)).
Proof.
  assert (Hpoll := moves_check c w). destruct Hpoll as (p & w1 & Hp & Hd1). split_and!.
  - unfold PcscDiscover, bind at 1. rewrite Hp. destruct p as [[]|e]; [|by eexists _, _].
    unfold bind at 1, call. pose proof (led_factory w1) as Hf.
    destruct (factory w1) as [[x|e] w2]; simpl in Hf;
      [|eexists _, _; split; [done|]; unfold delta in *; lia].
    destruct (moves_finally (Release x) (readers ←! (λ w, Some (ListReaders x w));
      found ←! probe_readers c x readers [] []; ret (found.1, Registry.Join found.2)) 1 w2 w)
      as (r & w3 & Hr & Hd).
    + intros w3. pose proof (led_release x w3). lia.
    + apply moves_bind; [apply moves_call; intros; apply led_list|]. intros readers.
      apply moves_bind; [apply moves_readers|]. intros found. apply moves_ret.
    + unfold delta in *. lia.
    + exists r, w3. split; [exact Hr|]. by destruct r.
  - unfold PcscOpen, bind at 1. rewrite Hp. destruct p as [[]|e]; [|by eexists _, _].
    destruct (str_empty (reader_of device)); [by eexists _, _|].
    unfold bind at 1, call. pose proof (led_factory w1) as Hf.
    destruct (factory w1) as [[x|e] w2]; simpl in Hf;
      [|eexists _, _; split; [done|]; unfold delta in *; lia].
    unfold bind at 1, attempt at 1. pose proof (led_connect x (reader_of device) w2) as Hc.
    destruct (Connect x (reader_of device) w2) as [[card|e] w3]; simpl in Hc.
    + destruct (moves_select card w3) as (s & w4 & Hs & Hd4).
      unfold bind at 1, attempt at 1. rewrite Hs. destruct s as [v|e].
      * eexists _, _. split; [done|]. unfold delta in *. lia.
      * destruct (cleaned (A:=Ctx * Card) (CardClose card) (λ _, _ ←! quietly (Release x); throw e) w4 0)
          as (w5 & -> & Hd5); [intros w5; pose proof (led_close card w5); lia|].
        destruct (cleaned (A:=Ctx * Card) (Release x) (λ _, throw e) w5 1) as (w6 & -> & Hd6);
          [intros w6; pose proof (led_release x w6); lia|].
        eexists _, _. split; [done|]. unfold delta in *. lia.
    + destruct (cleaned (A:=Ctx * Card) (Release x) (λ _, throw e) w3 1) as (w4 & -> & Hd4);
        [intros w4; pose proof (led_release x w4); lia|].
      eexists _, _. split; [done|]. unfold delta in *. lia.
  - unfold CloseTransceiver, bind at 1, attempt, call_err.
    pose proof (led_close t.2 w) as Hk. destruct (CardClose t.2 w) as [ke w2]; simpl in Hk.
    pose proof (led_release t.1 w2) as Hx.
    destruct ke; unfold bind; destruct (Release t.1 w2) as [[e'|] w3]; simpl in Hx;
      (eexists _, _; split; [done|]); unfold delta; lia.
Qed.
End Handles.

(** A service with one reader whose card has no FIDO applet: open contexts,
    open cards. *)
#[local] Instance counting : PcscService (Z * Z) () () := {
  pcsc_ctx := λ _ w, (None, w);
  factory := λ w, (Ok tt, (w.1 + 1, w.2));
  ListReaders := λ _ w, (Ok ["reader"%string], w);
  Connect := λ _ _ w, (Ok tt, (w.1, w.2 + 1));
  Release := λ _ w, (None, (w.1 - 1, w.2));
  Transmit := λ _ _ w, (Ok [0x6A; 0x82], w);
  CardClose := λ _ w, (Some HidErr.ErrRemoved, (w.1, w.2 - 1));
  error_text := λ _, ""%string;
}.

#[local] Instance counting_ledger : Ledger (Z * Z) () ().
Proof. refine {| contexts := fst; cards := snd |}; simpl; intros; lia. Defined.

Lemma pcsc_no_leak_witness :
  (∃ r w', PcscDiscover Caller (0, 0) = Some (r, w') ∧ delta (0, 0) w' 0 0) ∧
  (∃ r w', PcscOpen Caller (MkDevice "pcsc:reader" "" "" "" "" "" 0 0) (0, 0) = Some (r, w') ∧
     match r with Ok _ => delta (0, 0) w' 1 1 | Err _ => delta (0, 0) w' 0 0 end) ∧
  (∃ r w', CloseTransceiver (tt, tt) (0, 0) = Some (r, w') ∧ delta (0, 0) w' (-1) (-1)).
Proof. apply (pcsc_no_leak Caller (MkDevice "pcsc:reader" "" "" "" "" "" 0 0) (tt, tt) (0, 0)). Defined.
End PcscProps.
