(* ===== verification/BleTransport.v ===== *)
(** * BLE transport: src/pkg/transport/ble/backend.go

    The session over a fragment connection: the request's fragments are
    written, then fragments are read until the response is assembled. *)
From S2P Require Import Prelude GoErrors WireBLE GoIO Descriptors Registry UsbBackend.

Class BleHooks (W Conn : Type) := {
  ble_Discover : ctx → W → (list DeviceDescriptor * option goerror) * W;
  ble_Open : ctx → DeviceDescriptor → W → res Conn * W;
  WriteFragment : Conn → ctx → bytes → W → option goerror * W;
  ReadFragment : Conn → ctx → W → res bytes * W;
  ble_Close : Conn → W → option goerror * W;
}.

Module Ble.
Section Ble.
Context {W Conn : Type} `{BleHooks W Conn}.

Record backend := MkBackendConfig { b_mtu : Z }.
(** The [sync.Mutex] of a session only orders whole exchanges. *)
Record session := MkSession { s_device : DeviceDescriptor; s_conn : Conn; s_codec : BleCodec.Codec }.

Definition NewBackend (present : bool) (mtu : Z) : res backend :=
  if negb present then Err (EMsg "transport/ble: discoverer and opener are required")
  else _ ←? BleCodec.NewCodec mtu; Ok (MkBackendConfig mtu).

Definition Discover (c : ctx) (w : W) : (list DeviceDescriptor * option goerror) * W :=
  let '((devices, err), w) := ble_Discover c w in
  let devices := map (set_transport KindBLE) devices in
  match err with
  | Some e => ((devices, Some (wrap_common "discover ble devices" e)), w)
  | None => ((devices, None), w)
  end.

Definition Open (b : backend) (c : ctx) (device : DeviceDescriptor) : M W session :=
  if negb (transport_allowed KindBLE device)
  then throw (ETransport "open ble session"
         (Transport.unsupported (EMsg "transport/ble: unsupported transport %s")))
  else
    conn ←! map_err (wrap_common "open ble session") (call (ble_Open c device));
    match BleCodec.NewCodec (b_mtu b) with
    | Err e =>
        _ ←! attempt (call_err (ble_Close conn));
        throw (wrap_common "open ble session" e)
    | Ok codec => ret (MkSession (set_transport KindBLE device) conn codec)
    end.

Definition Device (s : session) : DeviceDescriptor := s_device s.

Fixpoint read_response (fuel : nat) (s : session) (c : ctx) (a : BleCodec.Assembler) : M W bytes :=
  match fuel with
  | O => out_of_fuel
  | S fuel =>
      if BleCodec.Done a
      then map_err (wrap_common "reassemble ble response") (lift (BleCodec.Payload a))
      else
        fragment ←! map_err (wrap_common "read ble fragment") (call (ReadFragment (s_conn s) c));
        a ←! map_err (wrap_common "reassemble ble response") (lift (BleCodec.Add a fragment));
        read_response fuel s c a
  end.

Definition Exchange (fuel : nat) (s : session) (c : ctx) (req : bytes) : M W bytes :=
  fragments ←! map_err (wrap_common "fragment ble request")
                 (lift (BleCodec.Fragment (s_codec s) req));
  _ ←! for_each (λ fragment, map_err (wrap_common "write ble fragment")
         (call_err (WriteFragment (s_conn s) c fragment))) fragments;
  read_response fuel s c (BleCodec.NewAssembler (s_codec s)).

Definition Close (s : session) : M W () :=
  map_err (wrap_common "close ble session") (call_err (ble_Close (s_conn s))).

Definition AsBackend (b : backend) : Backend W session := MkBackend KindBLE Discover (Open b).
End Ble.
Arguments session Conn : clear implicits.
End Ble.

Module BleProps.
Import Ble BleCodec BleCodecProps.

Section Exchange.
Context {W Conn : Type} `{BleHooks W Conn}.

Inductive sends (s : session Conn) (c : ctx) : W → list bytes → W → Prop :=
  | sends_nil w : sends s c w [] w
  | sends_cons w f w1 fs w' :
      WriteFragment (s_conn s) c f w = (None, w1) → sends s c w1 fs w' →
      sends s c w (f :: fs) w'.

Inductive receives (s : session Conn) (c : ctx) : W → list bytes → W → Prop :=
  | receives_nil w : receives s c w [] w
  | receives_cons w f w1 fs w' :
      ReadFragment (s_conn s) c w = (Ok f, w1) → receives s c w1 fs w' →
      receives s c w (f :: fs) w'.

Lemma Add_Done a f a' : Add a f = Ok a' → Done a = false.
Proof. unfold Add, Done. by destruct (done_ a). Qed.

(** Fragments that assemble are all read, and no other. *)
Lemma read_response_AddAll s c fs : ∀ fuel a a' payload w w',
  AddAll a fs = Ok a' → Done a' = true → Payload a' = Ok payload →
  receives s c w fs w' → (length fs < fuel)%nat →
  read_response fuel s c a w = Some (Ok payload, w').
Proof.
  induction fs as [|f fs IH]; intros [|fuel] a a' payload w w' Ha Hd Hp Hr Hf; simpl in Hf; try lia;
    cbn [read_response]; inversion Hr as [|? ? w1 ? ? Hx Hrest]; subst.
  - injection Ha as ->. rewrite Hd, Hp. done.
  - simpl in Ha. apply rbind_Ok in Ha as (a1 & H1 & Ha).
    rewrite (Add_Done _ _ _ H1). unfold bind at 1, map_err at 1, call. rewrite Hx.
    unfold bind, map_err, lift. rewrite H1. eapply IH; [done|done|done|done|lia].
Qed.

(** A BLE exchange end to end.  The request's fragments are written once
    and in order; when the device answers with the fragments of any payload
    of at most 65535 bytes, the exchange returns exactly that payload and
    reads no fragment beyond it. *)
Theorem ble_exchange_correct (s : session Conn) (c : ctx) (req answer : bytes)
    (out fs : list bytes) (fuel : nat) (w w1 w' : W) :
  2 < mtu (s_codec s) → len answer <= 65535 →
  Fragment (s_codec s) req = Ok out → sends s c w out w1 →
  Fragment (s_codec s) answer = Ok fs → receives s c w1 fs w' →
  (length fs < fuel)%nat →
  Exchange fuel s c req w = Some (Ok answer, w').
Proof.
  intros Hm Hl Hout Hs Hfs Hr Hf. unfold Exchange. rewrite Hout.
  rewrite (bind_Ok (map_err _ (lift (Ok _))) _ _ _ _ eq_refl).
  assert (Hw : for_each (λ fragment, map_err (wrap_common "write ble fragment")
     (call_err (WriteFragment (s_conn s) c fragment))) out w = Some (Ok (), w1)).
  { clear -Hs. induction Hs as [|w f w1 fs w' Hx _ IH]; [done|]. cbn [for_each].
    erewrite bind_Ok; [exact IH|]. apply map_err_Ok. unfold call_err. by rewrite Hx. }
  run_ok Hw.
  destruct (Fragment_AddAll (s_codec s) answer Hm Hl) as (fs' & Hfs' & _ & (a & Ha & Hd & Hp) & _).
  rewrite Hfs in Hfs'. injection Hfs' as <-. by eapply read_response_AddAll.
Qed.
End Exchange.

(** Fragments to deliver, fragments written. *)
#[local] Instance pipe : BleHooks (list bytes * list bytes) () := {
  ble_Discover := λ _ w, (([], None), w);
  ble_Open := λ _ _ w, (Ok tt, w);
  WriteFragment := λ _ _ f w, (None, (w.1, w.2 ++ [f]));
  ReadFragment := λ _ _ w,
    match w.1 with [] => (Err HidErr.ErrTimeout, w) | f :: fs => (Ok f, (fs, w.2)) end;
  ble_Close := λ _ w, (None, w);
}.

Lemma ble_exchange_correct_witness :
  Exchange 3 (MkSession (MkDevice "" "" "" "" "" "" 0 0) () (MkCodec 4)) Caller [1]
    ([[0;3;7;8]; [9]], []) = Some (Ok [7;8;9], ([], [[0;1;1]])).
Proof.
  apply (ble_exchange_correct (MkSession (MkDevice "" "" "" "" "" "" 0 0) () (MkCodec 4)) Caller [1]
    [7;8;9] [[0;1;1]] [[0;3;7;8]; [9]] 3 _ ([[0;3;7;8]; [9]], [[0;1;1]])); try (by vm_compute).
  - repeat (eapply sends_cons; [done|]). constructor.
  - repeat (eapply receives_cons; [done|]). constructor.
Defined.
End BleProps.
