(* ===== verification/Ctap1.v ===== *)
(** * CTAP1/U2F messages: src/pkg/ctap1/{apdu,register,authenticate,version,errors}.go

    The APDU encoder, and the three commands with their request encodings and
    response decodings.  A decoding target that is nil or of another type is
    [None]; a decoder returns the error and the target as it leaves it. *)
From S2P Require Import Prelude GoErrors.

(** encoding/asn1 and crypto/x509, as the registration decoder uses them:
    the bytes left after the first ASN.1 value, and whether a certificate
    parses. *)
Class X509 := {
  asn1_Unmarshal : bytes → res bytes;
  x509_ParseCertificate : bytes → option goerror;
}.

(** The documented behaviour of [asn1.Unmarshal]: the rest is a suffix. *)
Definition asn1_suffix `{X509} : Prop :=
  ∀ b rest, asn1_Unmarshal b = Ok rest → ∃ value, b = value ++ rest.

Module Apdu.
Definition maxShortResponseLength : Z := 256.
Definition maxExtendedResponseLength : Z := 65536.
Definition successStatusWord : Z := 0x9000.

Definition encodeShortAPDU (command p1 p2 : Z) (data : bytes) (maxResponseLength : Z) : bytes :=
  [0x00; command; p1; p2] ++
  (if 0 <? len data then u8 (len data) :: data else []) ++
  (if 0 <? maxResponseLength
   then [if maxResponseLength =? maxShortResponseLength then 0x00 else u8 maxResponseLength]
   else []).

Definition encodeExtendedAPDU (command p1 p2 : Z) (data : bytes) (maxResponseLength : Z) : bytes :=
  [0x00; command; p1; p2; 0x00] ++
  (if 0 <? len data then [u8 (Z.shiftr (len data) 8); u8 (len data)] ++ data else []) ++
  (if 0 <? maxResponseLength
   then let le := if maxResponseLength =? maxExtendedResponseLength then 0 else maxResponseLength in
        [u8 (Z.shiftr le 8); u8 le]
   else []).

Definition encodeAPDU (command p1 p2 : Z) (data : bytes) (maxResponseLength : Z) : res bytes :=
  if maxExtendedResponseLength <? maxResponseLength
  then Err (EMsg "ctap1: unsupported response length %d")
  else if 0xffff <? len data
  then Err (EMsg "ctap1: APDU payload exceeds extended encoding limit: %d")
  else if (len data <=? 0xff) && (maxResponseLength <=? maxShortResponseLength)
  then Ok (encodeShortAPDU command p1 p2 data maxResponseLength)
  else Ok (encodeExtendedAPDU command p1 p2 data maxResponseLength).

Definition EncodeShortAPDU (command : Z) (data : bytes) : res bytes :=
  encodeAPDU command 0x00 0x00 data maxShortResponseLength.

Definition EncodeRawAPDU (command : Z) (data : bytes) : res bytes :=
  encodeAPDU command 0x00 0x00 data maxExtendedResponseLength.

(** The payload; the status word of a failure is in the error. *)
Definition decodeResponse (data : bytes) : res bytes :=
  if len data <? 2 then Err (EMsg "ctap1: response is too short")
  else
    let n := (length data - 2)%nat in
    let statusWord := Z.lor (Z.shiftl (data !!! n) 8) (data !!! S n) in
    if negb (statusWord =? successStatusWord) then Err (ECtap1 statusWord)
    else Ok (take n data).

Definition statusText (statusWord : Z) : string :=
  if statusWord =? 0x6985 then "conditions not satisfied"
  else if statusWord =? 0x6a80 then "invalid request data"
  else if statusWord =? 0x6a82 then "file not found"
  else if statusWord =? successStatusWord then "success"
  else "unknown status".
End Apdu.

Module U2F.
Import Apdu.

Definition CommandRegister : Z := 0x01.
Definition CommandAuthenticate : Z := 0x02.
Definition CommandVersion : Z := 0x03.

(** *** Register *)
Record RegisterResponse := MkRegisterResponse {
  ReservedByte : Z; PublicKey : bytes; RKeyHandle : bytes;
  AttestationCertificate : bytes; RSignature : bytes;
}.

Record RegisterCommand := NewRegisterCommand { RChallenge : bytes; RApplication : bytes }.

Definition EncodeRegister (command : RegisterCommand) : res bytes :=
  if negb (len (RChallenge command) =? 32)
  then Err (EMsg "ctap1: register challenge must be 32 bytes")
  else if negb (len (RApplication command) =? 32)
  then Err (EMsg "ctap1: register application parameter must be 32 bytes")
  else encodeAPDU CommandRegister 0x00 0x00 (RChallenge command ++ RApplication command)
         maxExtendedResponseLength.

Section Register.
Context `{X509}.

Definition ParseRegister (payload : bytes) : res RegisterResponse :=
  if len payload <? 67 then Err (EMsg "ctap1: register response payload is too short")
  else if negb (payload !!! 0%nat =? 0x05)
  then Err (EMsg "ctap1: register response reserved byte must be 0x05")
  else
    let keyHandleLength := payload !!! 66%nat in
    if len payload <? 67 + keyHandleLength
    then Err (EMsg "ctap1: register response key handle is truncated")
    else
      let n := (67 + Z.to_nat keyHandleLength)%nat in
      let remaining := drop n payload in
      if len remaining =? 0
      then Err (EMsg "ctap1: register response missing attestation certificate")
      else
        match asn1_Unmarshal remaining with
        | Err e => Err (EFmt "ctap1: parse attestation certificate: %w" [e])
        | Ok rest =>
            let certificateLength := len remaining - len rest in
            if certificateLength =? 0
            then Err (EMsg "ctap1: register response missing certificate bytes")
            else
              let certificateBytes := take (Z.to_nat certificateLength) remaining in
              match x509_ParseCertificate certificateBytes with
              | Some e => Err (EFmt "ctap1: parse attestation certificate: %w" [e])
              | None =>
                  if len rest =? 0
                  then Err (EMsg "ctap1: register response missing signature bytes")
                  else Ok (MkRegisterResponse (payload !!! 0%nat) (slice 1 66 payload)
                             (slice 67 n payload) certificateBytes rest)
              end
        end.

Definition DecodeRegister (data : bytes) (target : option RegisterResponse)
    : option goerror * option RegisterResponse :=
  match target with
  | None => (Some (EMsg "ctap1: register response target must be *RegisterResponse"), None)
  | Some t =>
      match (payload ←? decodeResponse data; ParseRegister payload) with
      | Err e => (Some e, Some t)
      | Ok t => (None, Some t)
      end
  end.
End Register.

(** *** Authenticate *)
Definition ControlEnforceUserPresenceAndSign : Z := 0x03.
Definition ControlCheckOnly : Z := 0x07.
Definition ControlDontEnforceUserPresenceAndSign : Z := 0x08.

Record AuthenticateResponse := MkAuthenticateResponse {
  UserPresence : Z; Counter : Z; ASignature : bytes;
}.

Definition UserPresent (response : AuthenticateResponse) : bool :=
  Z.land (UserPresence response) 0x01 =? 0x01.

Record AuthenticateCommand := NewAuthenticateCommand {
  AControl : Z; AChallenge : bytes; AApplication : bytes; AKeyHandle : bytes;
}.

Definition ValidateControl (control : Z) : option goerror :=
  if existsb (Z.eqb control)
       [ControlEnforceUserPresenceAndSign; ControlCheckOnly; ControlDontEnforceUserPresenceAndSign]
  then None
  else Some (EMsg "ctap1: unsupported authenticate control byte 0x%02x").

Definition EncodeAuthenticate (command : AuthenticateCommand) : res bytes :=
  match ValidateControl (AControl command) with
  | Some e => Err e
  | None =>
      if negb (len (AChallenge command) =? 32)
      then Err (EMsg "ctap1: authenticate challenge must be 32 bytes")
      else if negb (len (AApplication command) =? 32)
      then Err (EMsg "ctap1: authenticate application parameter must be 32 bytes")
      else if len (AKeyHandle command) =? 0
      then Err (EMsg "ctap1: authenticate key handle must not be empty")
      else if 0xff <? len (AKeyHandle command)
      then Err (EMsg "ctap1: authenticate key handle exceeds 255 bytes")
      else encodeAPDU CommandAuthenticate (AControl command) 0x00
             (AChallenge command ++ AApplication command ++ [u8 (len (AKeyHandle command))]
                ++ AKeyHandle command) maxExtendedResponseLength
  end.

(** The target is assigned before the last check. *)
Definition DecodeAuthenticate (data : bytes) (target : option AuthenticateResponse)
    : option goerror * option AuthenticateResponse :=
  match target with
  | None => (Some (EMsg "ctap1: authenticate response target must be *AuthenticateResponse"), None)
  | Some t =>
      match decodeResponse data with
      | Err e => (Some e, Some t)
      | Ok payload =>
          if len payload <? 6
          then (Some (EMsg "ctap1: authenticate response payload is too short"), Some t)
          else
            let t := MkAuthenticateResponse (payload !!! 0%nat) (get_u32 (slice 1 5 payload))
                       (drop 5 payload) in
            if len (ASignature t) =? 0
            then (Some (EMsg "ctap1: authenticate response missing signature"), Some t)
            else (None, Some t)
      end
  end.

(** *** Version *)
Definition EncodeVersion : res bytes := EncodeRawAPDU CommandVersion [].

(** The version is [string(payload)]: the bytes themselves. *)
Definition DecodeVersion (data : bytes) (target : option bytes) : option goerror * option bytes :=
  match target with
  | None => (Some (EMsg "ctap1: version response target must be *VersionResponse"), None)
  | Some t =>
      match decodeResponse data with
      | Err e => (Some e, Some t)
      | Ok payload => (None, Some payload)
      end
  end.
End U2F.

(** ** A card's view of command APDUs (ISO/IEC 7816-4) *)
Module Card.
Record command := Command { cla : Z; ins : Z; p1 : Z; p2 : Z; data : bytes; ne : Z }.

Definition short_le (b : Z) : Z := if b =? 0 then 256 else b.
Definition ext_le (b1 b0 : Z) : Z := if b1 * 256 + b0 =? 0 then 65536 else b1 * 256 + b0.

(** The body of a command: its data and the length of the expected response,
    in the short and the extended cases. *)
Definition parse_body (body : bytes) : option (bytes * Z) :=
  match body with
  | [] => Some ([], 0)
  | [le] => Some ([], short_le le)
  | lc :: rest =>
      if lc =? 0 then
        match rest with
        | [le1; le0] => Some ([], ext_le le1 le0)
        | l1 :: l0 :: rest =>
            let n := l1 * 256 + l0 in
            if len rest =? n then Some (rest, 0)
            else if len rest =? n + 2
            then Some (take (Z.to_nat n) rest,
                       ext_le (rest !!! Z.to_nat n) (rest !!! S (Z.to_nat n)))
            else None
        | _ => None
        end
      else if len rest =? lc then Some (rest, 0)
      else if len rest =? lc + 1
      then Some (take (Z.to_nat lc) rest, short_le (rest !!! Z.to_nat lc))
      else None
  end.

Definition parse (apdu : bytes) : option command :=
  match apdu with
  | c :: i :: a :: b :: body =>
      match parse_body body with
      | Some (d, n) => Some (Command c i a b d n)
      | None => None
      end
  | _ => None
  end.
End Card.

Module Ctap1Props.
Import Apdu U2F.

Lemma u16_bytes v : 0 <= v < 65536 → u8 (Z.shiftr v 8) * 256 + u8 v = v.
Proof.
  intros Hv. pose proof (get_put_u16 v [] Hv) as Hg. unfold put_u16 in Hg. cbn [app] in Hg.
  rewrite get_u16_val in Hg by apply u8_range. lia.
Qed.

Lemma ext_le_bytes v : 0 < v <= 65536 →
  let le := if v =? maxExtendedResponseLength then 0 else v in
  Card.ext_le (u8 (Z.shiftr le 8)) (u8 le) = v.
Proof.
  intros Hv le. unfold Card.ext_le.
  assert (Hle : 0 <= le < 65536 ∧ (le = 0 ∧ v = 65536 ∨ le = v)).
  { unfold le, maxExtendedResponseLength. destruct (Z.eqb_spec v 65536); lia. }
  rewrite u16_bytes by lia. destruct (Z.eqb_spec le 0); lia.
Qed.

Lemma short_body d v : 0 <= v <= 256 → len d <= 255 →
  Card.parse_body ((if 0 <? len d then u8 (len d) :: d else []) ++
    (if 0 <? v then [if v =? maxShortResponseLength then 0x00 else u8 v] else [])) = Some (d, v).
Proof.
  intros Hv Hd. pose proof (len_nonneg d).
  assert (Hle : 0 < v → Card.short_le (if v =? maxShortResponseLength then 0 else u8 v) = v).
  { intros Hp. unfold Card.short_le, maxShortResponseLength. destruct (Z.eqb_spec v 256) as [->|]; [done|].
    rewrite u8_small by lia. destruct (Z.eqb_spec v 0); lia. }
  destruct (Z.ltb_spec 0 (len d)) as [Hp|Hp].
  - rewrite u8_small by lia. destruct (Z.ltb_spec 0 v).
    + specialize (Hle ltac:(lia)). set (le := if v =? _ then _ else _) in *.
      destruct d as [|x d']; [unfold len in Hp; simpl in Hp; lia|].
      set (d := x :: d') in *. cbn [app Card.parse_body].
      change ((x :: d') ++ [le]) with (d ++ [le]).
      destruct (d ++ [le]) as [|y l] eqn:E; [by destruct d|]. rewrite <-E.
      destruct (Z.eqb_spec (len d) 0); [lia|].
      rewrite len_app. change (len [le]) with 1.
      destruct (Z.eqb_spec (len d + 1) (len d)); [lia|]. rewrite Z.eqb_refl.
      rewrite <-length_len, take_app_length.
      rewrite lookup_total_app_r, Nat.sub_diag by lia. simpl. by rewrite Hle.
    + rewrite app_nil_r. replace v with 0 by lia. cbn [Card.parse_body].
      destruct d as [|x d'] eqn:E; [unfold len in Hp; simpl in Hp; lia|]. rewrite <-E in *.
      destruct (Z.eqb_spec (len d) 0); [lia|]. by rewrite Z.eqb_refl.
  - assert (Hz : d = []) by (apply len_zero; lia). subst d. cbn [app].
    destruct (Z.ltb_spec 0 v); [|by replace v with 0 by lia].
    cbn [Card.parse_body]. by rewrite Hle.
Qed.

Lemma ext_body d v : 0 <= v <= 65536 → len d <= 65535 → (d = [] → 0 < v) →
  Card.parse_body (0x00 :: (if 0 <? len d then [u8 (Z.shiftr (len d) 8); u8 (len d)] ++ d else []) ++
    (if 0 <? v then let le := if v =? maxExtendedResponseLength then 0 else v in
       [u8 (Z.shiftr le 8); u8 le] else [])) = Some (d, v).
Proof.
  intros Hv Hd Hne. pose proof (len_nonneg d).
  destruct (Z.ltb_spec 0 (len d)) as [Hp|Hp].
  - destruct d as [|x d'] eqn:E; [unfold len in Hp; simpl in Hp; lia|]. rewrite <-E in *.
    destruct (Z.ltb_spec 0 v).
    + pose proof (ext_le_bytes v ltac:(lia)) as Hle. cbv zeta in Hle |- *.
      set (le := if v =? _ then _ else _) in *.
      cbn [app Card.parse_body Z.eqb].
      destruct (d ++ [u8 (Z.shiftr le 8); u8 le]) as [|y l] eqn:Eq; [by destruct d|].
      rewrite <-Eq. rewrite u16_bytes by lia. rewrite len_app.
      change (len [u8 (Z.shiftr le 8); u8 le]) with 2.
      destruct (Z.eqb_spec (len d + 2) (len d)); [lia|]. rewrite Z.eqb_refl.
      rewrite <-length_len, take_app_length.
      rewrite lookup_total_app_r, Nat.sub_diag by lia.
      rewrite (lookup_total_app_r d _ (S (length d))) by lia.
      replace (S (length d) - length d)%nat with 1%nat by lia. simpl. by rewrite Hle.
    + rewrite app_nil_r. replace v with 0 by lia. cbn [app Card.parse_body Z.eqb].
      rewrite E. rewrite <-E. rewrite u16_bytes by lia. by rewrite Z.eqb_refl.
  - assert (Hz : d = []) by (apply len_zero; lia). subst d. cbn [app].
    destruct (Z.ltb_spec 0 v); [|specialize (Hne eq_refl); lia].
    cbv zeta. cbn [Card.parse_body Z.eqb]. by rewrite ext_le_bytes by lia.
Qed.

Lemma encode_parse command p1 p2 d v apdu :
  0 <= v → encodeAPDU command p1 p2 d v = Ok apdu →
  Card.parse apdu = Some (Card.Command 0 command p1 p2 d v).
Proof.
  intros Hv. unfold encodeAPDU.
  destruct (Z.ltb_spec maxExtendedResponseLength v); [done|].
  destruct (Z.ltb_spec 0xffff (len d)); [done|].
  unfold maxExtendedResponseLength, maxShortResponseLength in *.
  destruct ((len d <=? 0xff) && (v <=? 256)) eqn:Hs; intros [= <-].
  - apply andb_true_iff in Hs as [?%Z.leb_le ?%Z.leb_le].
    unfold encodeShortAPDU, Card.parse. cbn [app]. by rewrite short_body by lia.
  - unfold encodeExtendedAPDU, Card.parse. cbn [app].
    rewrite ext_body; [done|lia|lia|]. intros ->. rewrite len_nil in Hs. simpl in Hs.
    apply Z.leb_gt in Hs. lia.
Qed.

(** CTAP1 command APDUs are what a card parses back.  For every command,
    parameters, data and expected length, an encoding that succeeds (at most
    65535 data bytes and 65536 expected ones, otherwise an error) parses by
    the rules of ISO 7816-4 as exactly that class, instruction, parameters,
    data and expected length, in the short form when both lengths fit it and
    in the extended form otherwise. *)
Theorem apdu_roundtrip (command p1 p2 v : Z) (d : bytes) :
  0 <= v →
  (∀ apdu, encodeAPDU command p1 p2 d v = Ok apdu →
     Card.parse apdu = Some (Card.Command 0 command p1 p2 d v)) ∧
  ((∃ apdu, encodeAPDU command p1 p2 d v = Ok apdu) ↔ len d <= 65535 ∧ v <= 65536).
Proof.
  intros Hv. split; [intros apdu; by apply encode_parse|].
  unfold encodeAPDU, maxExtendedResponseLength.
  destruct (Z.ltb_spec 65536 v).
  { split; [by intros [? ?]|lia]. }
  destruct (Z.ltb_spec 0xffff (len d)); [split; [by intros [? ?]|lia]|].
  split; [lia|]. intros _. destruct (_ && _); by eexists.
Qed.

Lemma apdu_roundtrip_witness :
  (∀ apdu, encodeAPDU 1 0 0 [7;8] 65536 = Ok apdu →
     Card.parse apdu = Some (Card.Command 0 1 0 0 [7;8] 65536)) ∧
  ((∃ apdu, encodeAPDU 1 0 0 [7;8] 65536 = Ok apdu) ↔ len [7;8] <= 65535 ∧ 65536 <= 65536).
Proof. apply (apdu_roundtrip 1 0 0 65536 [7;8]). lia. Defined.

(** The status word of a response. *)
Lemma decodeResponse_Ok data payload :
  bytes_ok data → decodeResponse data = Ok payload ↔ data = payload ++ [0x90; 0x00].
Proof.
  intros Hb. unfold decodeResponse. destruct (Z.ltb_spec (len data) 2) as [Hl|Hl].
  { split; [done|]. intros ->. rewrite len_app in Hl. pose proof (len_nonneg payload).
    change (len [0x90; 0x00]) with 2 in Hl. lia. }
  set (n := (length data - 2)%nat).
  assert (Hd : ∃ a b, data = take n data ++ [a; b]).
  { pose proof (take_drop n data) as Htd.
    assert (Hlen : length (drop n data) = 2%nat) by (rewrite length_drop; unfold n, len in *; lia).
    destruct (drop n data) as [|a [|b [|]]]; try done. by exists a, b. }
  destruct Hd as (a & b & Hd).
  assert (Hn : length (take n data) = n) by (rewrite length_take; unfold n; lia).
  assert (Ha : data !!! n = a).
  { rewrite Hd, lookup_total_app_r by lia. by rewrite Hn, Nat.sub_diag. }
  assert (Hb' : data !!! S n = b).
  { rewrite Hd, lookup_total_app_r by lia. rewrite Hn. by replace (S n - n)%nat with 1%nat by lia. }
  rewrite Ha, Hb'.
  assert (Hab : byte_ok a ∧ byte_ok b).
  { unfold bytes_ok in Hb. rewrite Hd in Hb. apply Forall_app in Hb as [_ Hb].
    inversion Hb as [|? ? Hba Hb2]; subst. by inversion Hb2. }
  unfold byte_ok in Hab. rewrite Z.lor_comm, lor_shiftl_add by lia.
  unfold successStatusWord. destruct (Z.eqb_spec (b + a * 2 ^ 8) 0x9000) as [He|He]; cbn [negb].
  - assert (a = 0x90 ∧ b = 0) as [-> ->] by lia. split.
    + intros [= <-]. done.
    + intros ->. f_equal. unfold n. rewrite length_app. simpl.
      rewrite Nat.add_sub. apply take_app_length.
  - split; [done|]. intros ->. exfalso. apply He.
    rewrite lookup_total_app_r in Ha, Hb' by (unfold n; rewrite length_app; simpl; lia).
    unfold n in Ha, Hb'. rewrite length_app in Ha, Hb'. simpl in Ha, Hb'.
    rewrite Nat.add_sub, Nat.sub_diag in Ha.
    replace (S (length payload + 2 - 2) - length payload)%nat with 1%nat in Hb' by lia.
    simpl in Ha, Hb'. subst. done.
Qed.

(** Registration responses are parsed exactly.  The decoder fills its
    target precisely from the bytes that are [05], a 65-byte key, a counted
    key handle, a certificate that parses, a non-empty signature and the
    status 9000; every other response is an error that leaves the target
    unchanged, and an accepted target rebuilds the response. *)
Theorem register_decode_exact `{X509} (data : bytes) (t r : RegisterResponse) :
  asn1_suffix → bytes_ok data →
  (DecodeRegister data (Some t) = (None, Some r) ↔
   ∃ key handle cert sig,
     data = ([0x05] ++ key ++ [len handle] ++ handle ++ cert ++ sig) ++ [0x90; 0x00] ∧
     length key = 65%nat ∧ len handle <= 255 ∧ cert ≠ [] ∧ sig ≠ [] ∧
     asn1_Unmarshal (cert ++ sig) = Ok sig ∧ x509_ParseCertificate cert = None ∧
     r = MkRegisterResponse 0x05 key handle cert sig) ∧
  (∀ e t', DecodeRegister data (Some t) = (Some e, t') → t' = Some t).
Proof.
  intros Hasn Hb. split; cycle 1.
  { intros e t'. unfold DecodeRegister. destruct (rbind _ _); by intros [= _ <-]. }
  unfold DecodeRegister. split.
  - destruct (decodeResponse data) as [payload|e] eqn:Hd; [|done]. cbn [rbind].
    apply decodeResponse_Ok in Hd as ->; [|done]. apply Forall_app in Hb as [Hb _].
    destruct (ParseRegister payload) as [r'|e] eqn:Hp; [|done]. intros [= ->].
    unfold ParseRegister in Hp.
    destruct (Z.ltb_spec (len payload) 67); [done|].
    destruct (Z.eqb_spec (payload !!! 0%nat) 0x05) as [H5|]; [|done]. cbn [negb] in Hp.
    destruct (Z.ltb_spec (len payload) (67 + payload !!! 66%nat)); [done|].
    set (kl := payload !!! 66%nat) in *. set (n := (67 + Z.to_nat kl)%nat) in *.
    assert (Hkl : byte_ok kl).
    { eapply Forall_lookup_1; [exact Hb|]. apply list_lookup_lookup_total_lt.
      unfold len in *; lia. }
    unfold byte_ok in Hkl.
    destruct (Z.eqb_spec (len (drop n payload)) 0); [done|].
    destruct (asn1_Unmarshal (drop n payload)) as [rest|] eqn:Ha; [|done].
    destruct (Hasn _ _ Ha) as [cert Hcert]. rewrite Hcert in Hp, Ha.
    rewrite len_app in Hp. replace (len cert + len rest - len rest) with (len cert) in Hp by lia.
    rewrite <-length_len, take_app_length in Hp.
    destruct (Z.eqb_spec (len cert) 0) as [|Hcz]; [done|].
    destruct (x509_ParseCertificate cert) eqn:Hx; [done|].
    destruct (Z.eqb_spec (len rest) 0) as [|Hrz]; [done|]. injection Hp as <-.
    exists (slice 1 66 payload), (slice 67 n payload), cert, rest.
    assert (Hh : len (slice 67 n payload) = kl).
    { unfold slice, len, n. rewrite length_take, length_drop. unfold len in *. lia. }
    rewrite Hh. split_and!; try done; try (unfold len in *; lia).
    + f_equal. rewrite <-Hcert. unfold slice.
      rewrite <-(take_drop 1 payload) at 1.
      assert (Hfst : take 1 payload = [0x05]).
      { destruct payload; [unfold len in *; simpl in *; lia|]. simpl in *. by subst. }
      rewrite Hfst. f_equal. rewrite <-(take_drop 65 (drop 1 payload)) at 1. f_equal.
      rewrite drop_drop. change (1 + 65)%nat with 66%nat.
      rewrite <-(take_drop 1 (drop 66 payload)) at 1.
      assert (H66 : take 1 (drop 66 payload) = [kl]).
      { assert (Hl66 : payload !! 66%nat = Some kl)
          by (apply list_lookup_lookup_total_lt; unfold len in *; lia).
        rewrite (drop_S payload kl 66 Hl66). done. }
      rewrite H66. f_equal. rewrite drop_drop. change (66 + 1)%nat with 67%nat.
      rewrite <-(take_drop (n - 67) (drop 67 payload)) at 1. f_equal.
      rewrite drop_drop. f_equal. unfold n. lia.
    + unfold slice. rewrite length_take, length_drop. unfold len in *. lia.
    + intros ->. by rewrite len_nil in Hcz.
    + intros ->. by rewrite len_nil in Hrz.
    + by rewrite H5.
  - intros (key & handle & cert & sig & -> & Hk & Hh & Hc & Hs & Ha & Hx & ->).
    assert (Hd : decodeResponse (([0x05] ++ key ++ [len handle] ++ handle ++ cert ++ sig) ++
      [0x90; 0x00]) = Ok ([0x05] ++ key ++ [len handle] ++ handle ++ cert ++ sig))
      by (by apply decodeResponse_Ok).
    rewrite Hd. cbn [rbind]. unfold ParseRegister.
    set (payload := [0x05] ++ key ++ [len handle] ++ handle ++ cert ++ sig).
    assert (Hlc : 0 < len cert) by (pose proof (len_nonneg cert); rewrite <-len_zero in Hc; lia).
    assert (Hls : 0 < len sig) by (pose proof (len_nonneg sig); rewrite <-len_zero in Hs; lia).
    pose proof (len_nonneg handle) as Hnn.
    assert (Hlk : len key = 65) by (unfold len; lia).
    assert (Hlen : len payload = 67 + len handle + len cert + len sig).
    { unfold payload. rewrite !len_app. change (len [5]) with 1. change (len [len handle]) with 1. lia. }
    assert (H66 : payload !!! 66%nat = len handle).
    { unfold payload. rewrite lookup_total_app_r by (simpl; lia). simpl length.
      rewrite lookup_total_app_r by lia. by rewrite Hk. }
    rewrite H66. destruct (Z.ltb_spec (len payload) 67); [lia|].
    change (payload !!! 0%nat) with 0x05. cbn [Z.eqb Pos.eqb negb].
    destruct (Z.ltb_spec (len payload) (67 + len handle)); [lia|].
    assert (Hdrop : drop (67 + Z.to_nat (len handle)) payload = cert ++ sig).
    { unfold payload. rewrite !app_assoc, <-(app_assoc _ cert sig).
      apply drop_app_length'. rewrite !length_app. simpl. unfold len. lia. }
    rewrite Hdrop. destruct (Z.eqb_spec (len (cert ++ sig)) 0); [rewrite len_app in *; lia|].
    rewrite Ha, len_app. replace (len cert + len sig - len sig) with (len cert) by lia.
    destruct (Z.eqb_spec (len cert) 0); [lia|].
    rewrite <-length_len, take_app_length, Hx.
    destruct (Z.eqb_spec (len sig) 0); [lia|]. do 3 f_equal.
    + unfold slice, payload. simpl. rewrite drop_0. by apply take_app_length'.
    + unfold slice, payload. rewrite <-length_len.
      change (drop 67 ([5] ++ key ++ [len handle] ++ handle ++ cert ++ sig)) with
        (drop 66 (key ++ [len handle] ++ handle ++ cert ++ sig)).
      rewrite (app_assoc key).
      rewrite drop_app_length' by (rewrite length_app; simpl; lia).
      apply take_app_length'. lia.
Qed.

(** A parser that takes one two-byte value, and accepts every certificate. *)
#[local] Instance two_byte_value : X509 := {
  asn1_Unmarshal := λ b, match b with x :: y :: rest => Ok rest | _ => Err (EMsg "short") end;
  x509_ParseCertificate := λ _, None;
}.

Lemma two_byte_suffix : asn1_suffix.
Proof. intros [|x [|y b]] rest; [done|done|]. intros [= <-]. by exists [x; y]. Qed.

Definition sample_registration : bytes :=
  ([0x05] ++ replicate 65 4 ++ [1; 9] ++ [0x30; 0] ++ [6; 7]) ++ [0x90; 0x00].
Definition empty_registration : RegisterResponse := MkRegisterResponse 0 [] [] [] [].
Definition decoded_registration : RegisterResponse :=
  MkRegisterResponse 5 (replicate 65 4) [9] [0x30; 0] [6; 7].

Lemma register_decode_exact_witness :
  (DecodeRegister sample_registration (Some empty_registration) = (None, Some decoded_registration) ↔
   ∃ key handle cert sig,
     sample_registration = ([0x05] ++ key ++ [len handle] ++ handle ++ cert ++ sig) ++ [0x90; 0x00] ∧
     length key = 65%nat ∧ len handle <= 255 ∧ cert ≠ [] ∧ sig ≠ [] ∧
     asn1_Unmarshal (cert ++ sig) = Ok sig ∧ x509_ParseCertificate cert = None ∧
     decoded_registration = MkRegisterResponse 0x05 key handle cert sig) ∧
  (∀ e t', DecodeRegister sample_registration (Some empty_registration) = (Some e, t') →
     t' = Some empty_registration).
Proof.
  apply (register_decode_exact sample_registration empty_registration decoded_registration).
  - exact two_byte_suffix.
  - unfold sample_registration. repeat constructor; unfold byte_ok; lia.
Defined.

(** Authentication requests and responses.  [Encode] accepts exactly a
    known control byte, two 32-byte hashes and a key handle of 1 to 255
    bytes, and a card reads back that control byte as P1 and the counted key
    handle after the hashes; [DecodeResponse] accepts exactly a presence
    byte, a big-endian 32-bit counter, a non-empty signature and 9000. *)
Theorem authenticate_exact (command : AuthenticateCommand) (data : bytes)
    (t r : AuthenticateResponse) :
  bytes_ok data →
  ((∃ apdu, EncodeAuthenticate command = Ok apdu) ↔
     AControl command ∈ [0x03; 0x07; 0x08] ∧ len (AChallenge command) = 32 ∧
     len (AApplication command) = 32 ∧ 1 <= len (AKeyHandle command) <= 255) ∧
  (∀ apdu, EncodeAuthenticate command = Ok apdu →
     Card.parse apdu = Some (Card.Command 0 CommandAuthenticate (AControl command) 0
       (AChallenge command ++ AApplication command ++ [len (AKeyHandle command)] ++
          AKeyHandle command) 65536)) ∧
  (DecodeAuthenticate data (Some t) = (None, Some r) ↔
   ∃ presence b3 b2 b1 b0 sig,
     data = ([presence; b3; b2; b1; b0] ++ sig) ++ [0x90; 0x00] ∧ sig ≠ [] ∧
     r = MkAuthenticateResponse presence (b0 + b1 * 2 ^ 8 + b2 * 2 ^ 16 + b3 * 2 ^ 24) sig).
Proof.
  intros Hb.
  assert (Hctl : ValidateControl (AControl command) = None ↔ AControl command ∈ [0x03; 0x07; 0x08]).
  { unfold ValidateControl. destruct (existsb _ _) eqn:E.
    - split; [intros _|done]. apply existsb_exists in E as (x & Hx & ->%Z.eqb_eq).
      by apply list_elem_of_In.
    - split; [done|]. intros Hin. apply list_elem_of_In in Hin.
      assert (existsb (Z.eqb (AControl command)) [3; 7; 8] = true)
        by (apply existsb_exists; exists (AControl command); by rewrite Z.eqb_refl).
      unfold ControlEnforceUserPresenceAndSign, ControlCheckOnly,
        ControlDontEnforceUserPresenceAndSign in E. congruence. }
  pose proof (len_nonneg (AKeyHandle command)).
  split_and!.
  - unfold EncodeAuthenticate. destruct (ValidateControl (AControl command)) eqn:Hv.
    { split; [by intros [? ?]|]. intros [Hin _]. by apply Hctl in Hin. }
    destruct (Z.eqb_spec (len (AChallenge command)) 32); cbn [negb];
      [|split; [by intros [? ?]|tauto]].
    destruct (Z.eqb_spec (len (AApplication command)) 32); cbn [negb];
      [|split; [by intros [? ?]|tauto]].
    destruct (Z.eqb_spec (len (AKeyHandle command)) 0); [split; [by intros [? ?]|lia]|].
    destruct (Z.ltb_spec 0xff (len (AKeyHandle command))); [split; [by intros [? ?]|lia]|].
    split; [intros _; split_and!; [by apply Hctl|done|done|lia|lia]|intros _].
    unfold encodeAPDU. cbn [Z.ltb Z.compare maxExtendedResponseLength].
    change (maxExtendedResponseLength <? maxExtendedResponseLength) with false. cbv iota.
    destruct (Z.ltb_spec 0xffff (len (AChallenge command ++ AApplication command ++
      [u8 (len (AKeyHandle command))] ++ AKeyHandle command))) as [Hlt|].
    { rewrite !len_app in Hlt. change (len [u8 (len (AKeyHandle command))]) with 1 in Hlt. lia. }
    destruct (_ && _); by eexists.
  - intros apdu. unfold EncodeAuthenticate. destruct (ValidateControl (AControl command)); [done|].
    destruct (negb (len (AChallenge command) =? 32)); [done|].
    destruct (negb (len (AApplication command) =? 32)); [done|].
    destruct (Z.eqb_spec (len (AKeyHandle command)) 0); [done|].
    destruct (Z.ltb_spec 0xff (len (AKeyHandle command))); [done|].
    rewrite u8_small by lia. by apply encode_parse.
  - unfold DecodeAuthenticate. split.
    + destruct (decodeResponse data) as [payload|e] eqn:Hd; [|done].
      apply decodeResponse_Ok in Hd as ->; [|done]. apply Forall_app in Hb as [Hb _].
      destruct (Z.ltb_spec (len payload) 6) as [|Hl]; [done|].
      destruct payload as [|p [|b3 [|b2 [|b1 [|b0 [|s sig]]]]]]; try (unfold len in Hl; simpl in Hl; lia).
      simpl. intros [= <-]. exists p, b3, b2, b1, b0, (s :: sig). split_and!; [done|done|].
      do 2 f_equal. unfold slice. simpl. 
      inversion_clear Hb as [|? ? _ Hb1]. inversion_clear Hb1 as [|? ? _ Hb2].
      inversion_clear Hb2 as [|? ? ? Hb3]. inversion_clear Hb3 as [|? ? ? Hb4].
      inversion_clear Hb4. by apply get_u32_val.
    + intros (p & b3 & b2 & b1 & b0 & sig & -> & Hs & ->).
      assert (Hd : decodeResponse (([p; b3; b2; b1; b0] ++ sig) ++ [0x90; 0x00]) =
        Ok ([p; b3; b2; b1; b0] ++ sig)) by (by apply decodeResponse_Ok).
      rewrite Hd. apply Forall_app in Hb as [Hb _].
      destruct sig as [|s sig]; [done|].
      destruct (Z.ltb_spec (len ([p; b3; b2; b1; b0] ++ s :: sig)) 6) as [Hl|].
      { unfold len in Hl. simpl in Hl. lia. }
      simpl. do 3 f_equal. unfold slice. simpl.
      inversion_clear Hb as [|? ? _ Hb1]. inversion_clear Hb1 as [|? ? _ Hb2].
      inversion_clear Hb2 as [|? ? ? Hb3]. inversion_clear Hb3 as [|? ? ? Hb4].
      inversion_clear Hb4. by apply get_u32_val.
Qed.

Lemma authenticate_exact_witness :
  ((∃ apdu, EncodeAuthenticate (NewAuthenticateCommand 3 (replicate 32 1) (replicate 32 2) [9]) =
      Ok apdu) ↔
     3 ∈ [0x03; 0x07; 0x08] ∧ len (replicate 32 1) = 32 ∧ len (replicate 32 2) = 32 ∧
     1 <= len [9] <= 255) ∧
  (∀ apdu, EncodeAuthenticate (NewAuthenticateCommand 3 (replicate 32 1) (replicate 32 2) [9]) =
      Ok apdu →
     Card.parse apdu = Some (Card.Command 0 CommandAuthenticate 3 0
       (replicate 32 1 ++ replicate 32 2 ++ [len [9]] ++ [9]) 65536)) ∧
  (DecodeAuthenticate [1;0;0;1;2;8;0x90;0] (Some (MkAuthenticateResponse 0 0 [])) =
     (None, Some (MkAuthenticateResponse 1 258 [8])) ↔
   ∃ presence b3 b2 b1 b0 sig,
     [1;0;0;1;2;8;0x90;0] = ([presence; b3; b2; b1; b0] ++ sig) ++ [0x90; 0x00] ∧ sig ≠ [] ∧
     MkAuthenticateResponse 1 258 [8] =
       MkAuthenticateResponse presence (b0 + b1 * 2 ^ 8 + b2 * 2 ^ 16 + b3 * 2 ^ 24) sig).
Proof.
  apply (authenticate_exact (NewAuthenticateCommand 3 (replicate 32 1) (replicate 32 2) [9])
    [1;0;0;1;2;8;0x90;0] (MkAuthenticateResponse 0 0 []) (MkAuthenticateResponse 1 258 [8])).
  repeat constructor; unfold byte_ok; lia.
Defined.
End Ctap1Props.
