(* ===== verification/ReportDesc.v ===== *)
(** * HID report descriptors: src/pkg/hid/internal/reportdesc/{parser,inventory}.go

    [Parse] runs the item stream of a descriptor through a parser state and
    computes fixed report layouts; [scanUsages] reads only usages; [Inventory]
    falls back from one to the other.  Stacks are kept with their top first.
    A [uint32] is a [Z] below 2^32. *)
From S2P Require Import Prelude GoErrors Descriptors.

Module ReportDesc.
Definition MaxDescriptorSize : Z := 64 * 1024.
Definition MaxReportSize : Z := 4096.
Definition maxCollections : Z := 256.

Record Collection := MkCollection {
  Index : Z; CUsage : Usage; Layout : ReportLayout; Supported : bool;
}.

(** A [Description] is its collections. *)
Abbreviation Description := (list Collection).

Record globals := MkGlobals { page : Z; size : Z; count : Z; id : Z }.

Record reports := MkReports { input : gmap Z Z; output : gmap Z Z; unsupported : bool }.

Record parser := MkParser {
  result : Description;
  reps : list reports;
  global : globals;
  stack : list globals;
  collections : list (option nat);
  usages : list Z;
  minimum : Z;
  hasMinimum : bool;
  invalidLayout : bool;
}.

Definition invalid {A} (message : string) : res A :=
  Err (EDriver "parse descriptor" KindUnsupported "" 0
         ("invalid or unsupported HID descriptor: " ++ message) None).

Definition no_layout : ReportLayout := MkLayout (MkSpec 0 0) (MkSpec 0 0).

Definition initial_parser : parser :=
  MkParser [] [] (MkGlobals 0 0 0 0) [] [] [] 0 false false.

Definition set_global (g : globals) (p : parser) : parser :=
  MkParser (result p) (reps p) g (stack p) (collections p) (usages p) (minimum p) (hasMinimum p)
    (invalidLayout p).
Definition set_stack (st : list globals) (p : parser) : parser :=
  MkParser (result p) (reps p) (global p) st (collections p) (usages p) (minimum p) (hasMinimum p)
    (invalidLayout p).
Definition set_invalid (p : parser) : parser :=
  MkParser (result p) (reps p) (global p) (stack p) (collections p) (usages p) (minimum p)
    (hasMinimum p) true.
Definition set_collections (cs : list (option nat)) (p : parser) : parser :=
  MkParser (result p) (reps p) (global p) (stack p) cs (usages p) (minimum p) (hasMinimum p)
    (invalidLayout p).
Definition set_reps (rs : list reports) (p : parser) : parser :=
  MkParser (result p) rs (global p) (stack p) (collections p) (usages p) (minimum p) (hasMinimum p)
    (invalidLayout p).
Definition add_collection (c : Collection) (p : parser) : parser :=
  MkParser (result p ++ [c]) (reps p ++ [MkReports ∅ ∅ false]) (global p) (stack p) (collections p)
    (usages p) (minimum p) (hasMinimum p) (invalidLayout p).
(** The deferred reset of [main]: the minimum itself stays. *)
Definition reset_locals (p : parser) : parser :=
  MkParser (result p) (reps p) (global p) (stack p) (collections p) [] (minimum p) false
    (invalidLayout p).

(** *** Items *)

(** [size := int(prefix & 3); if size == 3 { size = 4 }]. *)
Definition item_size (prefix : Z) : Z :=
  let size := Z.land prefix 3 in if size =? 3 then 4 else size.

(** The little-endian value of an item. *)
Fixpoint item_value (i : Z) (data : bytes) : Z :=
  match data with
  | [] => 0
  | b :: data => Z.lor (u32 (Z.shiftl b (8 * i))) (item_value (i + 1) data)
  end.

Definition globalItem (p : parser) (tag value : Z) : res parser :=
  let g := global p in
  if tag =? 0 then
    if 0xffff <? value then invalid "usage page exceeds 16 bits"
    else Ok (set_global (MkGlobals value (size g) (count g) (id g)) p)
  else if tag =? 7 then Ok (set_global (MkGlobals (page g) value (count g) (id g)) p)
  else if tag =? 8 then
    if 255 <? value then invalid "invalid report ID"
    else
      let p := if value =? 0 then set_invalid p else p in
      Ok (set_global (MkGlobals (page g) (size g) (count g) value) p)
  else if tag =? 9 then Ok (set_global (MkGlobals (page g) (size g) value (id g)) p)
  else if tag =? 10 then
    if len (stack p) =? 32 then invalid "global stack depth"
    else Ok (set_stack (g :: stack p) p)
  else if tag =? 11 then
    match stack p with
    | [] => invalid "global stack underflow"
    | g :: st => Ok (set_stack st (set_global g p))
    end
  else Ok p.

(** A data item adds its bits to a report of the open collection. *)
Definition add_bits (tag rid bits : Z) (r : reports) : res reports :=
  let target := if tag =? 9 then output r else input r in
  let have := default 0 (target !! rid) in
  if MaxReportSize * 8 - bits <? have then invalid "report exceeds size limit"
  else
    let target := <[rid := have + bits]> target in
    Ok (if tag =? 9 then MkReports (input r) target (unsupported r)
        else MkReports target (output r) (unsupported r)).

Definition main (p : parser) (tag value : Z) : res parser :=
  let current := match collections p with [] => None | c :: _ => c end in
  rmap reset_locals (
    if tag =? 10 then
      if len (collections p) =? 32 then invalid "collection depth"
      else if (len (collections p) =? 0) && (value =? 1) then
        if len (result p) =? 256 then invalid "too many collections"
        else
          let usage := match usages p with [] => minimum p | u :: _ => u end in
          let page := if 0xffff <? usage then Z.shiftr usage 16 else page (global p) in
          let current := length (result p) in
          let c := MkCollection (Z.of_nat current) (MkUsage (u16 page) (u16 usage)) no_layout false in
          Ok (set_collections (Some current :: collections p) (add_collection c p))
      else Ok (set_collections (current :: collections p) p)
    else if tag =? 12 then
      match collections p with
      | [] => invalid "collection underflow"
      | _ :: cs => Ok (set_collections cs p)
      end
    else if existsb (Z.eqb tag) [8; 9; 11] then
      let bits := size (global p) * count (global p) in
      if MaxReportSize * 8 <? bits then invalid "report exceeds size limit"
      else
        match current with
        | None => invalid "report outside Application collection"
        | Some c =>
            if tag =? 11 then Ok p
            else
              match reps p !! c with
              | None => Err (EMsg "index out of range")
              | Some r => r ←? add_bits tag (u8 (id (global p))) bits r; Ok (set_reps (<[c := r]> (reps p)) p)
              end
        end
    else Ok p).

Definition localItem (p : parser) (tag value : Z) : res parser :=
  if tag =? 0 then
    if 1024 <=? len (usages p) then invalid "too many local usages"
    else Ok (MkParser (result p) (reps p) (global p) (stack p) (collections p) (usages p ++ [value])
               (minimum p) (hasMinimum p) (invalidLayout p))
  else if tag =? 1 then
    Ok (MkParser (result p) (reps p) (global p) (stack p) (collections p) (usages p) value true
          (invalidLayout p))
  else if tag =? 2 then
    if negb (hasMinimum p) || (value <? minimum p) then invalid "invalid usage range" else Ok p
  else if tag =? 10 then invalid "usage delimiters unsupported"
  else Ok p.

(** One item: the [switch] of the loop of [Parse]. *)
Definition item (p : parser) (prefix value : Z) : res parser :=
  let kind := Z.land (Z.shiftr prefix 2) 3 in
  let tag := Z.shiftr prefix 4 in
  if kind =? 0 then main p tag value
  else if kind =? 1 then globalItem p tag value
  else if kind =? 2 then localItem p tag value
  else invalid "reserved item type".

(** The loop over the bytes; every item takes at least one, so their number
    is enough fuel. *)
Fixpoint parse_items (fuel : nat) (data : bytes) (p : parser) : option (res parser) :=
  match data with
  | [] => Some (Ok p)
  | prefix :: data =>
      match fuel with
      | O => None
      | S fuel =>
          if prefix =? 0xfe then Some (invalid "long item unsupported")
          else
            let size := item_size prefix in
            if len data <? size then Some (invalid "truncated item")
            else
              match item p prefix (item_value 0 (take (Z.to_nat size) data)) with
              | Err e => Some (Err e)
              | Ok p => parse_items fuel (drop (Z.to_nat size) data) p
              end
      end
  end.

(** *** finish *)
Definition mark (i : nat) (rs : list reports) : list reports :=
  match rs !! i with
  | Some r => <[i := MkReports (input r) (output r) true]> rs
  | None => rs
  end.

(** One report identifier of collection [i]: the first owner keeps it, a
    second one makes both collections unsupported. *)
Definition claim (i : nat) (rid : Z) (owners : gmap Z nat) (rs : list reports)
    : gmap Z nat * list reports :=
  match owners !! rid with
  | Some owner => (owners, mark i (mark owner rs))
  | None => (<[rid := i]> owners, rs)
  end.

Definition claim_all (i : nat) (ids : list Z) (owners : gmap Z nat) (rs : list reports)
    : gmap Z nat * list reports :=
  fold_left (λ st rid, claim i rid st.1 st.2) ids (owners, rs).

(** [ReportSpec{ID: id, Size: int((bits + 7) / 8)}]; with several reports in
    a direction Go keeps the one its map iteration visits last, here the last
    of [map_to_list], and the collection is not supported. *)
Definition direction_spec (m : gmap Z Z) : ReportSpec :=
  match last (map_to_list m) with
  | Some (rid, bits) => MkSpec rid ((bits + 7) / 8)
  | None => MkSpec 0 0
  end.

Definition no_empty_report (m : gmap Z Z) : bool :=
  forallb (λ x : Z * Z, negb (x.2 =? 0)) (map_to_list m).

Definition finish_collection (bad : bool) (c : Collection) (r : reports) : Collection :=
  let ins := map_to_list (input r) in
  let outs := map_to_list (output r) in
  MkCollection (Index c) (CUsage c) (MkLayout (direction_spec (input r)) (direction_spec (output r)))
    (negb bad && (len ins =? 1) && (len outs =? 1)
     && no_empty_report (input r) && no_empty_report (output r)).

Record owners := MkOwners { inOwners : gmap Z nat; outOwners : gmap Z nat; marked : list reports }.

(** The first loop of [finish], for collection [i]. *)
Definition claim_collection (st : owners) (i : nat) (r : reports) : owners :=
  let '(ins, rs) := claim_all i (map fst (map_to_list (input r))) (inOwners st) (marked st) in
  let '(outs, rs) := claim_all i (map fst (map_to_list (output r))) (outOwners st) rs in
  MkOwners ins outs rs.

Fixpoint claim_collections (i : nat) (rs : list reports) (st : owners) : owners :=
  match rs with
  | [] => st
  | r :: rs => claim_collections (S i) rs (claim_collection st i r)
  end.

(** The second loop: an unnumbered report cannot have numbered siblings. *)
Definition mixes_zero (st : owners) (r : reports) : bool :=
  let zero m := bool_decide (is_Some (m !! 0)) in
  zero (inOwners st) && (1 <? len (map_to_list (inOwners st))) && (0 <? len (map_to_list (input r)))
  || zero (outOwners st) && (1 <? len (map_to_list (outOwners st)))
     && (0 <? len (map_to_list (output r))).

(** The last loop. *)
Definition withdraw (c : Collection) (bad : bool) : Collection :=
  if bad then MkCollection (Index c) (CUsage c) (Layout c) false else c.

Definition finish (p : parser) : Description :=
  let st := claim_collections 0 (reps p) (MkOwners ∅ ∅ (reps p)) in
  let finished := zip_with (finish_collection (invalidLayout p)) (result p) (reps p) in
  zip_with (λ c r, withdraw c (unsupported r || mixes_zero st r)) finished (marked st).

Definition Parse (data : bytes) : option (res Description) :=
  if (len data =? 0) || (MaxDescriptorSize <? len data) then Some (invalid "descriptor size")
  else
    match parse_items (length data) data initial_parser with
    | None => None
    | Some (Err e) => Some (Err e)
    | Some (Ok p) =>
        if negb (len (collections p) =? 0) || negb (len (stack p) =? 0)
        then Some (invalid "unbalanced descriptor")
        else Some (Ok (finish p))
    end.

(** *** The usage-only scan *)
Record scanner := MkScanner {
  found : Description;
  s_page : Z;
  s_stack : list Z;
  s_usages : Z;
  s_first : Z;
  s_minimum : Z;
  s_hasMin : bool;
  s_depth : Z;
}.

Definition initial_scanner : scanner := MkScanner [] 0 [] 0 0 0 false 0.

Definition scan_main (s : scanner) (tag value : Z) : res scanner :=
  let locals_reset found depth :=
    MkScanner found (s_page s) (s_stack s) 0 (s_first s) (s_minimum s) false depth in
  if tag =? 10 then
    if (s_depth s =? 0) && (value =? 1) then
      if len (found s) =? maxCollections then invalid "too many collections"
      else
        let usage := if negb (s_usages s =? 0) || negb (s_hasMin s) then s_first s else s_minimum s in
        let page := if 0xffff <? usage then Z.shiftr usage 16 else Z.land (s_page s) 0xffff in
        Ok (locals_reset (found s ++ [MkCollection (len (found s)) (MkUsage (u16 page) (u16 usage))
              no_layout false]) (s_depth s + 1))
    else Ok (locals_reset (found s) (s_depth s + 1))
  else if tag =? 12 then
    Ok (locals_reset (found s) (if 0 <? s_depth s then s_depth s - 1 else s_depth s))
  else Ok (locals_reset (found s) (s_depth s)).

Definition scan_global (s : scanner) (tag value : Z) : scanner :=
  let set page st := MkScanner (found s) page st (s_usages s) (s_first s) (s_minimum s) (s_hasMin s)
                       (s_depth s) in
  if tag =? 0 then set value (s_stack s)
  else if tag =? 10 then
    if len (s_stack s) <? 32 then set (s_page s) (s_page s :: s_stack s) else s
  else if tag =? 11 then
    match s_stack s with [] => s | page :: st => set page st end
  else s.

Definition scan_local (s : scanner) (tag value : Z) : scanner :=
  if tag =? 0 then
    MkScanner (found s) (s_page s) (s_stack s) (s_usages s + 1)
      (if s_usages s =? 0 then value else s_first s) (s_minimum s) (s_hasMin s) (s_depth s)
  else if tag =? 1 then
    MkScanner (found s) (s_page s) (s_stack s) (s_usages s) (s_first s) value true (s_depth s)
  else s.

Definition scan_item (s : scanner) (prefix value : Z) : res scanner :=
  let kind := Z.land (Z.shiftr prefix 2) 3 in
  let tag := Z.shiftr prefix 4 in
  if kind =? 0 then scan_main s tag value
  else if kind =? 1 then Ok (scan_global s tag value)
  else if kind =? 2 then Ok (scan_local s tag value)
  else Ok s.

Fixpoint scan_items (fuel : nat) (data : bytes) (s : scanner) : option (res scanner) :=
  match data with
  | [] => Some (Ok s)
  | prefix :: data =>
      match fuel with
      | O => None
      | S fuel =>
          if prefix =? 0xfe then
            match data with
            | size :: _ :: data =>
                if len data <? size then Some (invalid "truncated long item")
                else scan_items fuel (drop (Z.to_nat size) data) s
            | _ => Some (invalid "truncated long item")
            end
          else
            let size := item_size prefix in
            if len data <? size then Some (invalid "truncated item")
            else
              match scan_item s prefix (item_value 0 (take (Z.to_nat size) data)) with
              | Err e => Some (Err e)
              | Ok s => scan_items fuel (drop (Z.to_nat size) data) s
              end
      end
  end.

Definition scanUsages (data : bytes) : option (res Description) :=
  if (len data =? 0) || (MaxDescriptorSize <? len data) then Some (invalid "descriptor size")
  else
    match scan_items (length data) data initial_scanner with
    | None => None
    | Some r => Some (rmap found r)
    end.

(** The description, and the layout error returned with it. *)
Definition Inventory (data : bytes) : option (Description * option goerror) :=
  match Parse data with
  | None => None
  | Some (Ok desc) => Some (desc, None)
  | Some (Err e) =>
      match scanUsages data with
      | None => None
      | Some (Ok (c :: cs)) => Some (c :: cs, Some e)
      | Some _ => Some ([], Some e)
      end
  end.
End ReportDesc.

Module ReportDescFacts.
Import ReportDesc.

(** *** Fuel: the number of bytes is enough *)
Lemma item_size_nonneg prefix : 0 <= item_size prefix.
Proof.
  unfold item_size. assert (0 <= Z.land prefix 3) by (apply Z.land_nonneg; right; lia).
  destruct (Z.eqb_spec (Z.land prefix 3) 3); lia.
Qed.

Lemma parse_items_total fuel : ∀ data p, (length data ≤ fuel)%nat →
  ∃ r, parse_items fuel data p = Some r.
Proof.
  induction fuel as [|fuel IH]; intros [|prefix data] p Hf; simpl in Hf; try lia;
    cbn [parse_items]; try by eexists.
  destruct (prefix =? 0xfe); [by eexists|].
  destruct (len data <? item_size prefix); [by eexists|].
  destruct (item p prefix _); [|by eexists].
  apply IH. rewrite length_drop. lia.
Qed.

Lemma scan_items_total fuel : ∀ data s, (length data ≤ fuel)%nat →
  ∃ r, scan_items fuel data s = Some r.
Proof.
  induction fuel as [|fuel IH]; intros [|prefix data] s Hf; simpl in Hf; try lia;
    cbn [scan_items]; try by eexists.
  destruct (prefix =? 0xfe).
  - destruct data as [|size [|x data]]; [by eexists|by eexists|].
    destruct (len data <? size); [by eexists|]. apply IH. rewrite length_drop. simpl in Hf. lia.
  - destruct (len data <? item_size prefix); [by eexists|].
    destruct (scan_item s prefix _); [|by eexists].
    apply IH. rewrite length_drop. lia.
Qed.

Lemma Parse_total data : ∃ r, Parse data = Some r.
Proof.
  unfold Parse. destruct (_ || _); [by eexists|].
  destruct (parse_items_total (length data) data initial_parser ltac:(lia)) as [[p|e] ->];
    [|by eexists]. destruct (_ || _); by eexists.
Qed.

Lemma scanUsages_total data : ∃ r, scanUsages data = Some r.
Proof.
  unfold scanUsages. destruct (_ || _); [by eexists|].
  destruct (scan_items_total (length data) data initial_scanner ltac:(lia)) as [r ->]. by eexists.
Qed.

Lemma Inventory_total data : ∃ cs e, Inventory data = Some (cs, e).
Proof.
  unfold Inventory. destruct (Parse_total data) as [[d|e] ->]; [by eexists _, _|].
  destruct (scanUsages_total data) as [[[|c cs]|e'] ->]; by eexists _, _.
Qed.

Lemma item_value_nonneg data : ∀ i, 0 <= item_value i data.
Proof.
  induction data as [|b data IH]; intros i; simpl; [lia|].
  apply Z.lor_nonneg. split; [|apply IH]. unfold u32, wrap.
  assert (0 <= Z.shiftl b (8 * i) mod 2 ^ 32 < 2 ^ 32) by (apply Z.mod_pos_bound; lia). lia.
Qed.

(** *** The parser invariant *)
Definition report_ok (m : gmap Z Z) : Prop :=
  ∀ rid bits, m !! rid = Some bits → 0 <= rid < 256 ∧ 0 <= bits <= MaxReportSize * 8.

Definition reports_ok (r : reports) : Prop :=
  report_ok (input r) ∧ report_ok (output r) ∧ unsupported r = false.

Definition globals_ok (g : globals) : Prop := 0 <= size g ∧ 0 <= count g.

Record parser_ok (p : parser) : Prop := {
  ok_length : length (reps p) = length (result p);
  ok_bound : len (result p) <= 256;
  ok_index : ∀ i c, result p !! i = Some c → Index c = Z.of_nat i;
  ok_reps : Forall reports_ok (reps p);
  ok_open : Forall (λ c, ∀ i, c = Some i → (i < length (reps p))%nat) (collections p);
  ok_global : globals_ok (global p);
  ok_stack : Forall globals_ok (stack p);
}.

Lemma parser_ok_initial : parser_ok initial_parser.
Proof. split; simpl; try constructor; try done; lia. Qed.

Lemma parser_ok_same p p' :
  result p' = result p → reps p' = reps p → collections p' = collections p →
  global p' = global p → stack p' = stack p → parser_ok p → parser_ok p'.
Proof. intros H1 H2 H3 H4 H5 [? ? ? ? ? ? ?]. split; rewrite ?H1, ?H2, ?H3, ?H4, ?H5; done. Qed.

Lemma localItem_ok p tag value p' :
  localItem p tag value = Ok p' → parser_ok p → parser_ok p'.
Proof.
  unfold localItem. intros Hl. apply parser_ok_same;
    repeat case_match; simplify_eq; done.
Qed.

Lemma globalItem_ok p tag value p' :
  0 <= value → globalItem p tag value = Ok p' → parser_ok p → parser_ok p'.
Proof.
  intros Hv Hg Hok. destruct Hok as [Hl Hb Hi Hr Ho Hgl Hst]. destruct Hgl as [Hs Hc].
  unfold globalItem in Hg.
  repeat (match type of Hg with context [if ?b then _ else _] => destruct b end);
    try done; simplify_eq; try (split; simpl; try done; by split).
  - split; simpl; try done. by constructor.
  - destruct (stack p) as [|g st] eqn:E; [done|]. simplify_eq. inversion Hst; subst.
    split; simpl; done.
Qed.

Lemma add_bits_ok tag rid bits r r' :
  0 <= bits → 0 <= rid < 256 → reports_ok r → add_bits tag rid bits r = Ok r' → reports_ok r'.
Proof.
  intros Hb Hrid (Hi & Ho & Hu). unfold add_bits.
  assert (Hget : ∀ m, report_ok m → 0 <= default 0 (m !! rid)).
  { intros m Hm. destruct (m !! rid) as [b|] eqn:E; simpl; [|lia]. apply Hm in E. lia. }
  assert (Hins : ∀ m v, report_ok m → 0 <= v <= MaxReportSize * 8 → report_ok (<[rid := v]> m)).
  { intros m v Hm Hv rid' b Hl. apply lookup_insert_Some in Hl as [[<- <-]|[_ Hl]]; [done|].
    by apply Hm in Hl. }
  destruct (tag =? 9).
  - destruct (Z.ltb_spec (MaxReportSize * 8 - bits) (default 0 (output r !! rid))); [done|].
    intros [= <-]. split_and!; simpl; try done. apply Hins; [done|]. specialize (Hget _ Ho). lia.
  - destruct (Z.ltb_spec (MaxReportSize * 8 - bits) (default 0 (input r !! rid))); [done|].
    intros [= <-]. split_and!; simpl; try done. apply Hins; [done|]. specialize (Hget _ Hi). lia.
Qed.

Lemma main_ok p tag value p' : main p tag value = Ok p' → parser_ok p → parser_ok p'.
Proof.
  unfold main. intros Hm Hok.
  destruct (rmap _ _) as [q|] eqn:E in Hm; [|done]. injection Hm as <-.
  match type of E with rmap _ ?m = _ => destruct m as [p1|] eqn:E1; [|done] end.
  injection E as <-. apply (parser_ok_same p1); [done..|].
  destruct Hok as [Hl Hb Hi Hr Ho Hgl Hst].
  destruct (tag =? 10).
  { destruct (_ =? 32); [done|]. destruct (_ && _).
    - destruct (Z.eqb_spec (len (result p)) 256); [done|]. injection E1 as <-.
      split; simpl; try done.
      + rewrite !length_app. simpl. lia.
      + rewrite len_app. change (len [_]) with 1. lia.
      + intros i c [Hc|[Hge Hc]]%lookup_app_Some; [by apply Hi|].
        apply list_lookup_singleton_Some in Hc as [Hz <-]. simpl.
        lia.
      + apply Forall_app. split; [done|]. constructor; [|constructor]. by split_and!.
      + constructor.
        * intros i [= <-]. rewrite length_app. simpl. lia.
        * revert Ho. apply List.Forall_impl. intros c Hc i Hic. specialize (Hc i Hic).
          rewrite length_app. simpl. lia.
    - injection E1 as <-. split; simpl; try done. constructor; [|done].
      intros i Hcur. destruct (collections p) as [|c cs]; [done|]. inversion Ho; subst. auto. }
  destruct (tag =? 12).
  { destruct (collections p) as [|c cs] eqn:Ec; [done|]. injection E1 as <-.
    inversion Ho; subst. split; simpl; done. }
  destruct (existsb _ _); [|by injection E1 as <-; split].
  destruct (_ <? _) eqn:Hbits; [done|].
  destruct (match collections p with [] => None | c :: _ => c end) as [c|]; [|done].
  destruct (tag =? 11); [by injection E1 as <-; split|].
  destruct (reps p !! c) as [r|] eqn:Ec; [|done].
  apply rbind_Ok in E1 as (r' & Hadd & [= <-]).
  assert (Hrok : reports_ok r') by (eapply add_bits_ok; [| | |exact Hadd];
    [destruct Hgl; nia|apply u8_range|by eapply Forall_lookup_1]).
  split; simpl; try done.
  - by rewrite length_insert.
  - by apply Forall_insert.
  - by rewrite length_insert.
Qed.

Lemma parse_items_ok fuel : ∀ data p p',
  parse_items fuel data p = Some (Ok p') → parser_ok p → parser_ok p'.
Proof.
  induction fuel as [|fuel IH]; intros [|prefix data] p p' Hp Hok; cbn [parse_items] in Hp;
    try done; [by injection Hp as <-|by injection Hp as <-|].
  destruct (prefix =? 0xfe); [done|]. destruct (_ <? _); [done|].
  set (v := item_value 0 _) in Hp. assert (Hv : 0 <= v) by apply item_value_nonneg.
  destruct (item p prefix v) as [p1|] eqn:Hi; [|done].
  apply (IH _ _ _ Hp). unfold item in Hi.
  destruct (_ =? 0); [by eapply main_ok|].
  destruct (_ =? 1); [by eapply globalItem_ok|].
  destruct (_ =? 2); [by eapply localItem_ok|done].
Qed.

(** *** Marks and owners *)

(** [later rs rs']: the same reports, with possibly more marks. *)
Definition later (rs rs' : list reports) : Prop :=
  length rs' = length rs ∧
  ∀ i r', rs' !! i = Some r' → ∃ r, rs !! i = Some r ∧ input r' = input r ∧
    output r' = output r ∧ (unsupported r = true → unsupported r' = true).

#[export] Instance later_preorder : PreOrder later.
Proof.
  split.
  - intros rs. split; [done|]. intros i r' Hr. by exists r'.
  - intros x y z [Hl1 H1] [Hl2 H2]. split; [congruence|]. intros i r' Hr.
    destruct (H2 i r' Hr) as (r & Hr1 & Hi1 & Ho1 & Hu1).
    destruct (H1 i r Hr1) as (r0 & Hr0 & Hi0 & Ho0 & Hu0).
    exists r0. split_and!; [done|congruence|congruence|auto].
Qed.

Lemma mark_later i rs : later rs (mark i rs).
Proof.
  unfold mark. destruct (rs !! i) as [r|] eqn:E; [|reflexivity].
  split; [apply length_insert|]. intros j r' Hr.
  apply list_lookup_insert_Some in Hr as [(<- & <- & _)|[_ Hr]]; [by exists r|by exists r'].
Qed.

(** Collection [i] is marked in [rs]. *)
Definition marked_at (i : nat) (rs : list reports) : Prop :=
  ∀ r, rs !! i = Some r → unsupported r = true.

Lemma marked_later i rs rs' : marked_at i rs → later rs rs' → marked_at i rs'.
Proof.
  intros Hm [_ Hl] r' Hr. destruct (Hl i r' Hr) as (r & Hr0 & _ & _ & Hu). auto.
Qed.

Lemma mark_marked i rs : marked_at i (mark i rs).
Proof.
  intros r. unfold mark. destruct (rs !! i) as [r0|] eqn:E; [|congruence].
  rewrite list_lookup_insert_eq by (by eapply lookup_lt_Some). by intros [= <-].
Qed.

(** Claims only add owners and marks; the second claim of an identifier marks
    the claimer; afterwards all its identifiers have an owner. *)
Lemma claim_all_spec i ids : ∀ owners rs owners' rs',
  claim_all i ids owners rs = (owners', rs') →
  later rs rs' ∧
  (∀ rid, is_Some (owners !! rid) → is_Some (owners' !! rid)) ∧
  (∀ rid, rid ∈ ids → is_Some (owners' !! rid)) ∧
  (∀ rid, rid ∈ ids → is_Some (owners !! rid) → marked_at i rs').
Proof.
  induction ids as [|rid ids IH]; intros owners rs owners' rs'.
  { intros [= <- <-]. split_and!; [reflexivity|done|by intros ? ?%elem_of_nil|by intros ? ?%elem_of_nil]. }
  unfold claim_all. simpl. destruct (claim i rid owners rs) as [o1 rs1] eqn:E.
  intros Hf. apply (IH o1 rs1) in Hf as (Hl & Hmono & Hown & Hmark).
  assert (H1 : later rs rs1 ∧ (∀ x, is_Some (owners !! x) → is_Some (o1 !! x)) ∧
    is_Some (o1 !! rid) ∧ (is_Some (owners !! rid) → marked_at i rs1)).
  { unfold claim in E. destruct (owners !! rid) as [ow|] eqn:Eo; simplify_eq.
    - split_and!; [etransitivity; apply mark_later|done|by rewrite Eo|]. intros _. apply mark_marked.
    - split_and!; [reflexivity| |by rewrite lookup_insert_eq|by intros [? ?]].
      intros x Hx. destruct (decide (x = rid)) as [->|]; [by rewrite lookup_insert_eq|].
      by rewrite lookup_insert_ne. }
  destruct H1 as (Hl1 & Hm1 & Ho1 & Hk1). split_and!.
  - by transitivity rs1.
  - auto.
  - intros x [->|Hx]%elem_of_cons; auto.
  - intros x [->|Hx]%elem_of_cons Hs; [by eapply marked_later; [apply Hk1|]|eauto].
Qed.

(** The identifiers of a direction. *)
Definition ids_of (m : gmap Z Z) : list Z := map fst (map_to_list m).

Lemma ids_of_lookup m rid : rid ∈ ids_of m ↔ is_Some (m !! rid).
Proof.
  unfold ids_of. split.
  - intros ([x v] & -> & Hin)%list_elem_of_fmap. apply elem_of_map_to_list in Hin. by exists v.
  - intros [v Hv]. apply elem_of_map_to_list in Hv.
    change rid with (fst (rid, v)). by apply list_elem_of_fmap_2.
Qed.

(** After the claims of the collections [k .. k + length rs - 1]. *)
Lemma claim_collections_spec rs : ∀ k st,
  let st' := claim_collections k rs st in
  later (marked st) (marked st') ∧
  (∀ rid, is_Some (inOwners st !! rid) → is_Some (inOwners st' !! rid)) ∧
  (∀ rid, is_Some (outOwners st !! rid) → is_Some (outOwners st' !! rid)) ∧
  (∀ i r rid, rs !! i = Some r → rid ∈ ids_of (input r) →
     is_Some (inOwners st' !! rid) ∧ (is_Some (inOwners st !! rid) → marked_at (k + i) (marked st'))) ∧
  (∀ i r rid, rs !! i = Some r → rid ∈ ids_of (output r) →
     is_Some (outOwners st' !! rid) ∧ (is_Some (outOwners st !! rid) → marked_at (k + i) (marked st'))) ∧
  (∀ i j ri rj rid, (i < j)%nat → rs !! i = Some ri → rs !! j = Some rj →
     (rid ∈ ids_of (input ri) ∧ rid ∈ ids_of (input rj)) ∨
     (rid ∈ ids_of (output ri) ∧ rid ∈ ids_of (output rj)) → marked_at (k + j) (marked st')).
Proof.
  induction rs as [|r0 rs IH]; intros k st; cbn [claim_collections].
  { split_and!; try done. }
  unfold claim_collection.
  destruct (claim_all k (map fst (map_to_list (input r0))) (inOwners st) (marked st)) as [ins rs1] eqn:E1.
  destruct (claim_all k (map fst (map_to_list (output r0))) (outOwners st) rs1) as [outs rs2] eqn:E2.
  apply claim_all_spec in E1 as (Hl1 & Hm1 & Hin1 & Hk1).
  apply claim_all_spec in E2 as (Hl2 & Hm2 & Hout2 & Hk2).
  destruct (IH (S k) (MkOwners ins outs rs2)) as (Hl & Hi & Ho & Hii & Hoo & Hpair).
  cbn [inOwners outOwners marked] in *. set (st' := claim_collections _ _ _) in *.
  split_and!.
  - etransitivity; [exact Hl1|]. by etransitivity.
  - auto.
  - auto.
  - intros [|i] r rid Hr Hrid; simpl in Hr.
    + simplify_eq. split; [by apply Hi, Hin1|]. intros Hs. rewrite Nat.add_0_r.
      eapply marked_later; [|exact Hl]. eapply marked_later; [|exact Hl2]. by eapply Hk1.
    + destruct (Hii i r rid Hr Hrid) as [? Hmk]. split; [done|]. intros Hs.
      replace (k + S i)%nat with (S k + i)%nat by lia. auto.
  - intros [|i] r rid Hr Hrid; simpl in Hr.
    + simplify_eq. split; [by apply Ho, Hout2|]. intros Hs. rewrite Nat.add_0_r.
      eapply marked_later; [|exact Hl]. by eapply Hk2.
    + destruct (Hoo i r rid Hr Hrid) as [? Hmk]. split; [done|]. intros Hs.
      replace (k + S i)%nat with (S k + i)%nat by lia. auto.
  - intros i [|j] ri rj rid Hij Hri Hrj Hshare; [lia|]. simpl in Hrj.
    replace (k + S j)%nat with (S k + j)%nat by lia.
    destruct i as [|i]; simpl in Hri; simplify_eq.
    + destruct Hshare as [[H1 H2]|[H1 H2]]; [by eapply Hii; [..|apply Hin1]|by eapply Hoo; [..|apply Hout2]].
    + apply (Hpair i j ri rj rid); [lia|done..].
Qed.

Lemma two_members {A} (l : list A) x y : x ∈ l → y ∈ l → x ≠ y → (2 ≤ length l)%nat.
Proof.
  intros Hx Hy Hne. destruct l as [|a [|b l]]; simpl; [by apply elem_of_nil in Hx| |lia].
  apply list_elem_of_singleton in Hx. apply list_elem_of_singleton in Hy. congruence.
Qed.

(** What a supported collection of a finished parser is. *)
Lemma finish_supported p i c :
  parser_ok p → finish p !! i = Some c →
  ∃ r, reps p !! i = Some r ∧ Index c = Z.of_nat i ∧
    (Supported c = true →
     let st := claim_collections 0 (reps p) (MkOwners ∅ ∅ (reps p)) in
     ¬ (∃ r', marked st !! i = Some r' ∧ unsupported r' = true) ∧
     mixes_zero st r = false ∧
     ∃ iid ibits oid obits,
       map_to_list (input r) = [(iid, ibits)] ∧ map_to_list (output r) = [(oid, obits)] ∧
       ibits ≠ 0 ∧ obits ≠ 0 ∧
       Layout c = MkLayout (MkSpec iid ((ibits + 7) / 8)) (MkSpec oid ((obits + 7) / 8))).
Proof.
  intros Hok Hc. unfold finish in Hc.
  set (st := claim_collections 0 (reps p) (MkOwners ∅ ∅ (reps p))) in *.
  apply lookup_zip_with_Some in Hc as (c1 & r1 & -> & Hc1 & Hr1).
  apply lookup_zip_with_Some in Hc1 as (c0 & r & -> & Hc0 & Hr).
  destruct (claim_collections_spec (reps p) 0 (MkOwners ∅ ∅ (reps p))) as ([_ Hl] & _).
  fold st in Hl. cbn [marked] in Hl. destruct (Hl i r1 Hr1) as (r' & Hr' & Hin & Hout & _).
  rewrite Hr in Hr'. simplify_eq. exists r'. split; [done|]. split.
  { unfold withdraw. destruct (_ || _); simpl; by apply Hok. }
  assert (Hmix : mixes_zero st r1 = mixes_zero st r') by (unfold mixes_zero; by rewrite Hin, Hout).
  unfold withdraw. destruct (unsupported r1 || mixes_zero st r1) eqn:Hbad; [done|].
  apply orb_false_iff in Hbad as [Hu Hz]. rewrite Hmix in Hz. intros Hsup. cbv zeta.
  split; [intros (r2 & Hr2 & ?); congruence|]. split; [done|].
  unfold finish_collection in Hsup |- *. cbn [Supported] in Hsup.
  rewrite !andb_true_iff, !Z.eqb_eq in Hsup. destruct Hsup as [[[[_ H1] H2] H3] H4].
  unfold no_empty_report, direction_spec in *.
  destruct (map_to_list (input r')) as [|[iid ib] [|? ?]]; [done| |unfold len in H1; simpl in H1; lia].
  destruct (map_to_list (output r')) as [|[oid ob] [|? ?]]; [done| |unfold len in H2; simpl in H2; lia].
  simpl in H3, H4. rewrite andb_true_r, negb_true_iff, Z.eqb_neq in H3, H4.
  by exists iid, ib, oid, ob.
Qed.
End ReportDescFacts.

Module ReportDescProps.
Import ReportDesc ReportDescFacts.

Lemma map_to_list_single (m : gmap Z Z) k v : map_to_list m = [(k, v)] → m !! k = Some v.
Proof. intros Hm. apply elem_of_map_to_list. rewrite Hm. by left. Qed.

Lemma ids_of_single (m : gmap Z Z) k v : map_to_list m = [(k, v)] → k ∈ ids_of m.
Proof. intros Hm. unfold ids_of. rewrite Hm. by left. Qed.

(** Two supported collections have different, non-zero identifiers. *)
Lemma finish_distinct p i j ci cj :
  parser_ok p → (i < j)%nat → finish p !! i = Some ci → finish p !! j = Some cj →
  Supported ci = true → Supported cj = true →
  let si := Layout ci in let sj := Layout cj in
  SpecID (Input si) ≠ SpecID (Input sj) ∧ SpecID (Output si) ≠ SpecID (Output sj) ∧
  SpecID (Input si) ≠ 0 ∧ SpecID (Output si) ≠ 0 ∧
  SpecID (Input sj) ≠ 0 ∧ SpecID (Output sj) ≠ 0.
Proof.
  intros Hok Hij Hi Hj Hsi Hsj.
  destruct (finish_supported p i ci Hok Hi) as (ri & Hri & _ & Hci).
  destruct (finish_supported p j cj Hok Hj) as (rj & Hrj & _ & Hcj).
  specialize (Hci Hsi). specialize (Hcj Hsj). cbv zeta in Hci, Hcj.
  set (st := claim_collections 0 (reps p) (MkOwners ∅ ∅ (reps p))) in *.
  destruct Hci as (_ & Hzi & ii & ib & oi & ob & Hii & Hoi & _ & _ & ->).
  destruct Hcj as (Hnj & Hzj & ij & jb & oj & ojb & Hij' & Hoj & _ & _ & ->).
  destruct (claim_collections_spec (reps p) 0 (MkOwners ∅ ∅ (reps p)))
    as ([Hlen _] & _ & _ & Hown & Hoown & Hpair). fold st in Hown, Hoown, Hpair, Hlen.
  cbn [marked] in Hlen.
  assert (Hmark : ¬ marked_at j (marked st)).
  { intros Hm. apply Hnj.
    assert (Hlt : (j < length (marked st))%nat) by (rewrite Hlen; by eapply lookup_lt_Some).
    apply lookup_lt_is_Some_2 in Hlt as [r' Hr']. exists r'. auto. }
  assert (Hin : ii ≠ ij).
  { intros ->. apply Hmark. eapply (Hpair i j ri rj ij); [done|done|done|left].
    split; by eapply ids_of_single. }
  assert (Hout : oi ≠ oj).
  { intros ->. apply Hmark. eapply (Hpair i j ri rj oj); [done|done|done|right].
    split; by eapply ids_of_single. }
  destruct (Hown i ri ii Hri ltac:(by eapply ids_of_single)) as [[vi Hvi] _].
  destruct (Hown j rj ij Hrj ltac:(by eapply ids_of_single)) as [[vj Hvj] _].
  destruct (Hoown i ri oi Hri ltac:(by eapply ids_of_single)) as [[wi Hwi] _].
  destruct (Hoown j rj oj Hrj ltac:(by eapply ids_of_single)) as [[wj Hwj] _].
  assert (H2i : (1 <? len (map_to_list (inOwners st))) = true).
  { apply Z.ltb_lt. unfold len.
    enough (2 ≤ length (map_to_list (inOwners st)))%nat by lia.
    eapply (two_members _ (ii, vi) (ij, vj)); [by apply elem_of_map_to_list..|congruence]. }
  assert (H2o : (1 <? len (map_to_list (outOwners st))) = true).
  { apply Z.ltb_lt. unfold len.
    enough (2 ≤ length (map_to_list (outOwners st)))%nat by lia.
    eapply (two_members _ (oi, wi) (oj, wj)); [by apply elem_of_map_to_list..|congruence]. }
  unfold mixes_zero in Hzi, Hzj.
  rewrite H2i, H2o, Hii, Hoi in Hzi. rewrite H2i, H2o, Hij', Hoj in Hzj.
  apply orb_false_iff in Hzi as [Hzi1 Hzi2]. apply orb_false_iff in Hzj as [Hzj1 Hzj2].
  rewrite !andb_true_r in *.
  assert (Hno : inOwners st !! 0 = None ∧ outOwners st !! 0 = None).
  { apply bool_decide_eq_false in Hzi1. apply bool_decide_eq_false in Hzi2.
    split; [destruct (inOwners st !! 0)|destruct (outOwners st !! 0)]; try done; exfalso; eauto. }
  destruct Hno as [Hn1 Hn2]. simpl. split_and!; try done; intros ->; congruence.
Qed.

(** The supported layouts of a parsed descriptor are sendable. *)
Lemma Parse_layouts data d i c : Parse data = Some (Ok d) → d !! i = Some c →
  Index c = Z.of_nat i ∧
  (Supported c = true →
   0 <= SpecID (Input (Layout c)) < 256 ∧ 1 <= Size (Input (Layout c)) <= MaxReportSize ∧
   0 <= SpecID (Output (Layout c)) < 256 ∧ 1 <= Size (Output (Layout c)) <= MaxReportSize).
Proof.
  intros Hr Hc. unfold Parse in Hr. destruct (_ || _); [done|].
  destruct (parse_items _ _ _) as [[p|e]|] eqn:Hp; [|done|done].
  destruct (_ || _); [done|]. injection Hr as <-.
  assert (Hok : parser_ok p) by (eapply parse_items_ok; [exact Hp|apply parser_ok_initial]).
  destruct (finish_supported p i c Hok Hc) as (r & Hrp & Hix & Hsup).
  split; [done|]. intros Hs. specialize (Hsup Hs). cbv zeta in Hsup.
  destruct Hsup as (_ & _ & iid & ib & oid & ob & Hi & Ho & Hib & Hob & ->). simpl.
  assert (Hro : reports_ok r) by (eapply Forall_lookup_1; [apply Hok|exact Hrp]).
  destruct Hro as (Hri & Hroo & _).
  apply map_to_list_single in Hi, Ho. apply Hri in Hi as [? ?]. apply Hroo in Ho as [? ?].
  unfold MaxReportSize in *.
  assert (1 <= (ib + 7) / 8) by (apply Z.div_le_lower_bound; lia).
  assert ((ib + 7) / 8 <= 4096) by (apply Z.lt_succ_r, Z.div_lt_upper_bound; lia).
  assert (1 <= (ob + 7) / 8) by (apply Z.div_le_lower_bound; lia).
  assert ((ob + 7) / 8 <= 4096) by (apply Z.lt_succ_r, Z.div_lt_upper_bound; lia).
  lia.
Qed.

(** C13: a parsed descriptor is safe to open.  [Parse] answers on every input;
    an accepted descriptor has at most 256 collections, numbered in order;
    a supported one has one Input and one Output report whose identifiers
    fit a byte and whose sizes are between 1 and 4096 bytes; and two
    supported collections never share an identifier in a direction, nor use
    the unnumbered report, so that input can be told apart. *)
Theorem parse_safe (data : bytes) :
  ∃ r, Parse data = Some r ∧
    ∀ d, r = Ok d →
      len d <= 256 ∧
      (∀ i c, d !! i = Some c → Index c = Z.of_nat i ∧
         (Supported c = true →
          0 <= SpecID (Input (Layout c)) < 256 ∧ 1 <= Size (Input (Layout c)) <= MaxReportSize ∧
          0 <= SpecID (Output (Layout c)) < 256 ∧ 1 <= Size (Output (Layout c)) <= MaxReportSize)) ∧
      (∀ i j ci cj, (i < j)%nat → d !! i = Some ci → d !! j = Some cj →
         Supported ci = true → Supported cj = true →
         SpecID (Input (Layout ci)) ≠ SpecID (Input (Layout cj)) ∧
         SpecID (Output (Layout ci)) ≠ SpecID (Output (Layout cj)) ∧
         SpecID (Input (Layout ci)) ≠ 0 ∧ SpecID (Output (Layout ci)) ≠ 0 ∧
         SpecID (Input (Layout cj)) ≠ 0 ∧ SpecID (Output (Layout cj)) ≠ 0).
Proof.
  destruct (Parse_total data) as [r Hr]. exists r. split; [done|]. intros d ->.
  pose proof Hr as Hp0. unfold Parse in Hr. destruct (_ || _); [done|].
  destruct (parse_items _ _ _) as [[p|e]|] eqn:Hp; [|done|done].
  destruct (_ || _); [done|]. injection Hr as <-.
  assert (Hok : parser_ok p) by (eapply parse_items_ok; [exact Hp|apply parser_ok_initial]).
  split_and!.
  - destruct Hok as [Hl Hb _ _ _ _ _]. unfold finish, len in *. rewrite length_zip_with, length_zip_with.
    lia.
  - intros i c Hc. exact (Parse_layouts _ _ i c Hp0 Hc).
  - intros i j ci cj Hij Hci Hcj Hsi Hsj. by apply (finish_distinct p i j).
Qed.

Lemma scan_item_unsupported s prefix value s' :
  scan_item s prefix value = Ok s' → Forall (λ c, Supported c = false) (found s) →
  Forall (λ c, Supported c = false) (found s').
Proof.
  unfold scan_item, scan_main, scan_global, scan_local. intros Hs Hf.
  repeat (case_match; simplify_eq; simpl; try done).
  all: apply Forall_app; split; [done|by repeat constructor].
Qed.

Lemma scan_items_unsupported fuel : ∀ data s s',
  scan_items fuel data s = Some (Ok s') → Forall (λ c, Supported c = false) (found s) →
  Forall (λ c, Supported c = false) (found s').
Proof.
  induction fuel as [|fuel IH]; intros [|prefix data] s s' Hs Hf; cbn [scan_items] in Hs;
    try done; [by injection Hs as <-|by injection Hs as <-|].
  destruct (prefix =? 0xfe).
  - destruct data as [|size [|x data]]; [done|done|]. destruct (_ <? _); [done|]. by eapply IH.
  - destruct (_ <? _); [done|]. destruct (scan_item s prefix _) as [s1|] eqn:E; [|done].
    eapply IH; [exact Hs|]. by eapply scan_item_unsupported.
Qed.

(** Inventory falls back without making anything openable.  [Inventory]
    answers on every input; without a layout error it is the parsed
    descriptor; with one, it is the parser's error, and every collection it
    lists, known from the usage scan alone, is unsupported. *)
Theorem inventory_fallback (data : bytes) :
  ∃ d err, Inventory data = Some (d, err) ∧
    match err with
    | None => Parse data = Some (Ok d)
    | Some e => Parse data = Some (Err e) ∧ Forall (λ c, Supported c = false) d ∧
                (d = [] ∨ scanUsages data = Some (Ok d))
    end.
Proof.
  unfold Inventory. destruct (Parse_total data) as [[d|e] ->]; [by exists d, None|].
  destruct (scanUsages_total data) as [s Hs]. rewrite Hs.
  destruct s as [[|c cs]|e'].
  - exists [], (Some e). split_and!; [done|done|constructor|by left].
  - exists (c :: cs), (Some e). split_and!; [done|done| |by right].
    unfold scanUsages in Hs. destruct (_ || _); [done|].
    destruct (scan_items _ _ _) as [[s|?]|] eqn:E; simplify_eq. simpl in Hs. injection Hs as Hf.
    rewrite <-Hf. eapply scan_items_unsupported; [exact E|constructor].
  - exists [], (Some e). split_and!; [done|done|constructor|by left].
Qed.

(** The FIDO descriptor of a security key: one collection, 64-byte reports. *)
Example parse_fido :
  Parse [0x06;0xd0;0xf1;0x09;0x01;0xa1;0x01;0x09;0x20;0x15;0x00;0x26;0xff;0x00;0x75;0x08;0x95;0x40;
         0x81;0x02;0x09;0x21;0x15;0x00;0x26;0xff;0x00;0x75;0x08;0x95;0x40;0x91;0x02;0xc0] =
  Some (Ok [MkCollection 0 (MkUsage 0xf1d0 1) (MkLayout (MkSpec 0 64) (MkSpec 0 64)) true]).
Proof. by vm_compute. Qed.

(** A collection without local usages takes the usage minimum of an earlier
    one: the reset after a main item leaves [minimum]. *)
Lemma parse_stale_minimum :
  Parse [0x05;0x0c; 0x19;0x07;0x29;0x09; 0xa1;0x01;0xc0; 0xa1;0x01;0xc0] =
  Some (Ok [MkCollection 0 (MkUsage 0x0c 7) no_layout false;
            MkCollection 1 (MkUsage 0x0c 7) no_layout false]).
Proof. by vm_compute. Qed.
End ReportDescProps.
