(* ===== verification/HidConnection.v ===== *)
(** * HID connections: src/pkg/hid/{errors,connection,read,write}.go

    One opened collection as a transition system.  The mutex makes every
    locked region one step; the pump goroutine, the goroutine of each
    accepted write, the cleanup goroutine and the callers of Read, Write and
    Close are its agents, and the native calls of the device begin and end
    in separate steps, so that everything that can happen in between does. *)
From S2P Require Import Prelude GoErrors GoIO Descriptors.

(** ** errors.go *)
Module HidOp.
Definition kind_error (k : driver_kind) : goerror :=
  match k with
  | KindIO => HidErr.ErrIO
  | KindClosed => HidErr.ErrClosed
  | KindRemoved => HidErr.ErrRemoved
  | KindPermission => HidErr.ErrPermission
  | KindBusy => HidErr.ErrBusy
  | KindUnsupported => HidErr.ErrUnsupported
  | KindInvalidArgument => HidErr.ErrInvalidArgument
  | KindInvalidReport => HidErr.ErrInvalidReport
  | KindStaleEndpoint => HidErr.ErrStaleEndpoint
  | KindTimeout => HidErr.ErrTimeout
  | KindResourceLimit => HidErr.ErrResourceLimit
  | KindOther _ => HidErr.ErrIO
  end.

(** The candidates of the loop, in its order. *)
Definition candidates : list string :=
  ["hid.ErrClosed"; "hid.ErrRemoved"; "hid.ErrPermission"; "hid.ErrBusy"; "hid.ErrUnsupported";
   "hid.ErrInvalidArgument"; "hid.ErrInvalidReport"; "hid.ErrStaleEndpoint"; "hid.ErrTimeout";
   "hid.ErrResourceLimit"]%string.

Definition first_candidate (err : goerror) : goerror :=
  match List.find (Is err) candidates with Some name => ESent name | None => HidErr.ErrIO end.

Definition operation (op id : string) (err : goerror) : goerror :=
  match As as_driver err with
  | Some (kind, domain, code, message) =>
      EHidOp op id (kind_error kind)
        (if str_empty domain then None else Some (ENative domain code message)) err
  | None => EHidOp op id (first_candidate err) None err
  end.

Definition operationError (op id : string) (err : option goerror) : option goerror :=
  match err with None => None | Some e => Some (operation op id e) end.
End HidOp.

Module Connection.
Import HidOp.

Definition InputQueueSize : nat := 64.
Definition empty_report : Report := MkReport 0 [].

(** A pendingWrite with its worker's and its caller's positions. *)
Inductive worker_pc := WStarting | WNative | WGone.
Record pendingWrite := MkPending {
  report : Report;
  worker : worker_pc;
  submitted : bool;
  completed : bool;
  w_result : outcome;
  w_err : option goerror;
  (** What Write returned to its caller, once it did. *)
  returned : option (outcome * option goerror);
}.

Inductive pump_pc := PumpTop | PumpReading | PumpGot (r : res Report) | PumpGone.
Inductive cleanup_pc := CleanupNone | CleanupWaiting | CleanupClosing | CleanupDone.

Record connection := MkConnection {
  endpoint : string;
  layout : ReportLayout;
  retiring : bool;
  reason : option goerror;
  readBusy : bool;
  (** The wake error of the admitted Read. *)
  wakeError : option goerror;
  writeBusy : bool;
  queue : list Report;
  head : nat;
  count : nat;
  pump : pump_pc;
  writes : list pendingWrite;
  cleanup : cleanup_pc;
  closeErr : option goerror;
  (** History: calls of device.Close and of releaseEndpoint, the writes given
      to device.Write in order, reports queued and reports returned. *)
  closeCalls : nat;
  releases : nat;
  nativeWrites : list nat;
  queued : list Report;
  delivered : list Report;
}.

Definition newConnection (id : string) (lay : ReportLayout) : connection :=
  MkConnection id lay false None false None false (replicate InputQueueSize empty_report) 0 0
    PumpTop [] CleanupNone None 0 0 [] [] [].

Definition set_pump (p : pump_pc) (c : connection) : connection :=
  MkConnection (endpoint c) (layout c) (retiring c) (reason c) (readBusy c) (wakeError c)
    (writeBusy c) (queue c) (head c) (count c) p (writes c) (cleanup c) (closeErr c)
    (closeCalls c) (releases c) (nativeWrites c) (queued c) (delivered c).
Definition set_writes (ws : list pendingWrite) (c : connection) : connection :=
  MkConnection (endpoint c) (layout c) (retiring c) (reason c) (readBusy c) (wakeError c)
    (writeBusy c) (queue c) (head c) (count c) (pump c) ws (cleanup c) (closeErr c)
    (closeCalls c) (releases c) (nativeWrites c) (queued c) (delivered c).
Definition set_writeBusy (b : bool) (c : connection) : connection :=
  MkConnection (endpoint c) (layout c) (retiring c) (reason c) (readBusy c) (wakeError c)
    b (queue c) (head c) (count c) (pump c) (writes c) (cleanup c) (closeErr c)
    (closeCalls c) (releases c) (nativeWrites c) (queued c) (delivered c).
Definition set_reader (busy : bool) (wake : option goerror) (c : connection) : connection :=
  MkConnection (endpoint c) (layout c) (retiring c) (reason c) busy wake
    (writeBusy c) (queue c) (head c) (count c) (pump c) (writes c) (cleanup c) (closeErr c)
    (closeCalls c) (releases c) (nativeWrites c) (queued c) (delivered c).
Definition set_ring (q : list Report) (h n : nat) (ins outs : list Report) (c : connection)
    : connection :=
  MkConnection (endpoint c) (layout c) (retiring c) (reason c) (readBusy c) (wakeError c)
    (writeBusy c) q h n (pump c) (writes c) (cleanup c) (closeErr c)
    (closeCalls c) (releases c) (nativeWrites c) ins outs.
Definition set_cleanup (k : cleanup_pc) (e : option goerror) (closes rels : nat) (c : connection)
    : connection :=
  MkConnection (endpoint c) (layout c) (retiring c) (reason c) (readBusy c) (wakeError c)
    (writeBusy c) (queue c) (head c) (count c) (pump c) (writes c) k e
    closes rels (nativeWrites c) (queued c) (delivered c).
Definition submit (i : nat) (c : connection) : connection :=
  MkConnection (endpoint c) (layout c) (retiring c) (reason c) (readBusy c) (wakeError c)
    (writeBusy c) (queue c) (head c) (count c) (pump c) (writes c) (cleanup c) (closeErr c)
    (closeCalls c) (releases c) (nativeWrites c ++ [i]) (queued c) (delivered c).

(** *** The input ring *)
Definition enqueue (r : Report) (c : connection) : connection :=
  set_ring (<[((head c + count c) `mod` InputQueueSize)%nat := r]> (queue c)) (head c) (S (count c))
    (queued c ++ [r]) (delivered c) c.

(** [report := c.queue[c.head]; ...; c.head = (c.head+1) % len; c.count--]. *)
Definition dequeue (c : connection) : Report * connection :=
  let r := default empty_report (queue c !! head c) in
  (r, set_ring (<[head c := empty_report]> (queue c)) (S (head c) `mod` InputQueueSize)%nat
        (Nat.pred (count c)) (queued c) (delivered c ++ [r]) c).

(** *** retireLocked and closedErrorLocked *)
Definition retireLocked (why : option goerror) (c : connection) : connection :=
  if retiring c then c
  else
    MkConnection (endpoint c) (layout c) true why (readBusy c) (wakeError c)
      (writeBusy c) (map (λ _, empty_report) (queue c)) (head c) 0 (pump c) (writes c)
      CleanupWaiting (closeErr c) (closeCalls c) (releases c) (nativeWrites c) (queued c) (delivered c).

Definition closedErrorLocked (op : string) (c : connection) : goerror :=
  match reason c with
  | Some e => operation op (endpoint c) (EJoin [HidErr.ErrClosed; e])
  | None => operation op (endpoint c) HidErr.ErrClosed
  end.

(** *** pump *)
Definition is_timeout (e : goerror) : bool :=
  match As as_driver e with Some (KindTimeout, _, _, _) => true | _ => false end.

(** The locked region after device.Read has returned. *)
Definition pump_handle (r : res Report) (c : connection) : connection :=
  match r with
  | Err e =>
      if is_timeout e then set_pump PumpTop c
      else set_pump PumpGone (retireLocked (Some (operation "read" (endpoint c) e)) c)
  | Ok rep =>
      if retiring c then set_pump PumpGone c
      else if negb (ReportID rep =? SpecID (Input (layout c)))
              || negb (len (Data rep) =? Size (Input (layout c)))
      then set_pump PumpGone
             (retireLocked (Some (operation "read" (endpoint c) HidErr.ErrInvalidReport)) c)
      else if (count c =? InputQueueSize)%nat
      then set_pump PumpGone (retireLocked (Some (operation "read" (endpoint c) HidErr.ErrIO)) c)
      else set_pump PumpTop (enqueue rep c)
  end.

(** *** Read *)

(** Admission.  [valid]: the context is not nil and the wait not negative;
    [early] and [late]: what [ctx.Err()] answers before and under the lock. *)
Definition read_admit (valid : bool) (early late : option goerror) (c : connection)
    : option goerror * connection :=
  if negb valid then (Some (operation "read" (endpoint c) HidErr.ErrInvalidArgument), c)
  else
    match early, late with
    | Some e, _ | None, Some e => (Some (operation "read" (endpoint c) e), c)
    | None, None =>
        if retiring c then (Some (closedErrorLocked "read" c), c)
        else if readBusy c then (Some (operation "read" (endpoint c) HidErr.ErrBusy), c)
        else (None, set_reader true None c)
    end.

Inductive read_outcome := ReadReturns (r : res Report) | ReadWaits.

(** One turn of the loop of an admitted Read, up to its [select]; returning
    runs the deferred reset of [readBusy]. *)
Definition read_turn (cancel : option goerror) (c : connection) : read_outcome * connection :=
  match cancel with
  | Some e =>
      let err := operation "read" (endpoint c) e in
      (ReadReturns (Err err), set_reader false None (retireLocked (Some err) c))
  | None =>
      if retiring c then (ReadReturns (Err (closedErrorLocked "read" c)), set_reader false None c)
      else if (0 <? count c)%nat then
        let '(r, c) := dequeue c in (ReadReturns (Ok r), set_reader false None c)
      else
        match wakeError c with
        | Some e =>
            let err := operation "read" (endpoint c) e in
            let c := if decide (is_sentinel "hid.ErrTimeout" e = Some tt) then c
                     else retireLocked (Some err) c in
            (ReadReturns (Err err), set_reader false None c)
        | None => (ReadWaits, c)
        end
  end.

(** *** Write *)
Definition write_admit (valid : bool) (early late : option goerror) (rep : Report) (c : connection)
    : option goerror * connection :=
  if negb valid then (Some (operation "write" (endpoint c) HidErr.ErrInvalidArgument), c)
  else
    match early with
    | Some e => (Some (operation "write" (endpoint c) e), c)
    | None =>
        if negb (ReportID rep =? SpecID (Output (layout c)))
           || negb (len (Data rep) =? Size (Output (layout c)))
        then (Some (operation "write" (endpoint c) HidErr.ErrInvalidReport), c)
        else
          match late with
          | Some e => (Some (operation "write" (endpoint c) e), c)
          | None =>
              if retiring c then (Some (closedErrorLocked "write" c), c)
              else if writeBusy c then (Some (operation "write" (endpoint c) HidErr.ErrBusy), c)
              else (None, set_writeBusy true (set_writes (writes c ++
                     [MkPending rep WStarting false false OutcomeUnknown None None]) c))
          end
    end.

(** [performWrite] up to the native call. *)
Definition perform_start (cancel : option goerror) (i : nat) (p : pendingWrite) (c : connection)
    : connection :=
  let c := match cancel with
           | Some e => retireLocked (Some (operation "write" (endpoint c) e)) c
           | None => c
           end in
  if retiring c
  then set_writes (<[i := MkPending (report p) WGone (submitted p) true OutcomeNotSubmitted
                           (Some (closedErrorLocked "write" c)) (returned p)]> (writes c)) c
  else submit i (set_writes (<[i := MkPending (report p) WNative true (completed p) (w_result p)
                                      (w_err p) (returned p)]> (writes c)) c).

(** The native outcome, an integer of the driver: 0, 1, 2 or anything else. *)
Definition native_result (raw : option outcome) (err : option goerror) : outcome * option goerror :=
  let '(result, err) :=
    match raw with
    | Some o => (o, err)
    | None => (OutcomeUnknown, Some (EJoin (match err with Some e => [e] | None => [] end
                                            ++ [HidErr.ErrIO])))
    end in
  match err with
  | Some e => (result, Some e)
  | None => if decide (result = OutcomeCompleted) then (result, None)
            else (result, Some HidErr.ErrIO)
  end.

(** [performWrite] after the native call. *)
Definition perform_finish (raw : option outcome) (err : option goerror) (i : nat)
    (p : pendingWrite) (c : connection) : connection :=
  let '(result, err) := native_result raw err in
  let werr := operationError "write" (endpoint c) err in
  let c := set_writes (<[i := MkPending (report p) WGone (submitted p) true result werr
                                (returned p)]> (writes c)) c in
  match err with Some _ => retireLocked werr c | None => c end.

(** The return of Write, with the deferred reset of [writeBusy]. *)
Definition write_return (cancel : option goerror) (i : nat) (p : pendingWrite) (c : connection)
    : connection :=
  let give o e c := set_writeBusy false (set_writes (<[i := MkPending (report p) (worker p)
    (submitted p) (completed p) (w_result p) (w_err p) (Some (o, e))]> (writes c)) c) in
  if completed p then
    match cancel with
    | Some e =>
        give (w_result p) (Some (operation "write" (endpoint c)
               (EJoin (match w_err p with Some w => [w] | None => [] end ++ [e]))))
          (retireLocked (Some (operation "write" (endpoint c) e)) c)
    | None => give (w_result p) (w_err p) c
    end
  else
    match cancel with
    | Some e =>
        let err := operation "write" (endpoint c) e in
        give (if submitted p then OutcomeUnknown else OutcomeNotSubmitted) (Some err)
          (retireLocked (Some err) c)
    | None => give OutcomeUnknown (Some (closedErrorLocked "write" c)) c
    end.

(** *** Close: after [retireLocked(nil)], what it returns, or [None] while it
    still waits. *)
Definition close_result (valid : bool) (cancel : option goerror) (c : connection)
    : option (option goerror) :=
  if negb valid then Some (Some (operation "close" (endpoint c) HidErr.ErrInvalidArgument))
  else
    match cleanup c, cancel with
    | CleanupDone, _ => Some (closeErr c)
    | _, Some e => Some (Some (operation "close" (endpoint c) e))
    | _, None => None
    end.

(** The WaitGroup: the pump and the write workers still running. *)
Definition running (p : pendingWrite) : bool :=
  match worker p with WGone => false | _ => true end.
Definition workers (c : connection) : nat :=
  ((match pump c with PumpGone => 0 | _ => 1 end) + length (List.filter running (writes c)))%nat.

(** *** The steps *)
Inductive step : connection → connection → Prop :=
  (* pump *)
  | pump_stop c : pump c = PumpTop → retiring c = true → step c (set_pump PumpGone c)
  | pump_read c : pump c = PumpTop → retiring c = false → step c (set_pump PumpReading c)
  | pump_returns c r : pump c = PumpReading → step c (set_pump (PumpGot r) c)
  | pump_handles c r : pump c = PumpGot r → step c (pump_handle r c)
  (* Read *)
  | read_begins c early late : (read_admit true early late c).1 = None →
      step c (read_admit true early late c).2
  | read_turns c cancel : readBusy c = true → step c (read_turn cancel c).2
  | read_wakes c e : readBusy c = true → wakeError c = None → step c (set_reader true (Some e) c)
  (* Write *)
  | write_begins c early late rep : (write_admit true early late rep c).1 = None →
      step c (write_admit true early late rep c).2
  | worker_starts c cancel i p : writes c !! i = Some p → worker p = WStarting →
      step c (perform_start cancel i p c)
  | worker_finishes c raw err i p : writes c !! i = Some p → worker p = WNative →
      step c (perform_finish raw err i p c)
  | write_returns c cancel i p : writes c !! i = Some p → returned p = None →
      completed p = true ∨ (∃ e, cancel = Some e) → step c (write_return cancel i p c)
  (* Close, and the cleanup goroutine *)
  | close_begins c : step c (retireLocked None c)
  | cleanup_closes c : cleanup c = CleanupWaiting → workers c = O →
      step c (set_cleanup CleanupClosing (closeErr c) (S (closeCalls c)) (releases c) c)
  | cleanup_ends c err : cleanup c = CleanupClosing →
      step c (set_cleanup CleanupDone (operationError "close" (endpoint c) err) (closeCalls c)
                (S (releases c)) c).
End Connection.

Module ConnectionFacts.
Import HidOp Connection.
#[local] Arguments Nat.modulo : simpl never.

(** *** The ring as a list *)
Definition contents (c : connection) : list Report :=
  map (λ k, default empty_report (queue c !! ((head c + k) `mod` InputQueueSize)%nat))
    (seq 0 (count c)).

Definition ring_ok (c : connection) : Prop :=
  length (queue c) = InputQueueSize ∧ (head c < InputQueueSize)%nat ∧ (count c ≤ InputQueueSize)%nat.

Lemma ring_distinct h a b :
  (h < 64)%nat → (a < 64)%nat → (b < 64)%nat → a ≠ b → ((h + a) `mod` 64 ≠ (h + b) `mod` 64)%nat.
Proof.
  intros Hh Ha Hb Hab Heq. apply Hab.
  assert (Ha' : ((h + a) mod 64 = if decide (h + a < 64) then h + a else h + a - 64)%nat).
  { destruct (decide _); [by apply Nat.mod_small|].
    replace (h + a)%nat with ((h + a - 64) + 1 * 64)%nat at 1 by lia.
    rewrite Nat.Div0.mod_add. apply Nat.mod_small. lia. }
  assert (Hb' : ((h + b) mod 64 = if decide (h + b < 64) then h + b else h + b - 64)%nat).
  { destruct (decide (h + b < 64)%nat); [by apply Nat.mod_small|].
    replace (h + b)%nat with ((h + b - 64) + 1 * 64)%nat at 1 by lia.
    rewrite Nat.Div0.mod_add. apply Nat.mod_small. lia. }
  rewrite Ha', Hb' in Heq. destruct (decide (h + a < 64)%nat), (decide (h + b < 64)%nat); lia.
Qed.

Lemma enqueue_contents r c :
  ring_ok c → (count c < InputQueueSize)%nat →
  ring_ok (enqueue r c) ∧ contents (enqueue r c) = contents c ++ [r].
Proof.
  unfold ring_ok, contents, InputQueueSize. intros (Hl & Hh & _) Hc.
  unfold enqueue, set_ring; cbn [queue head count]. rewrite length_insert.
  split; [split_and!; [done|done|lia]|].
  rewrite seq_S, map_app. simpl. f_equal.
  - apply map_ext_in. intros k Hk%in_seq.
    rewrite list_lookup_insert_ne; [done|]. apply ring_distinct; lia.
  - unfold InputQueueSize. rewrite list_lookup_insert_eq; [done|]. rewrite Hl.
    apply Nat.mod_upper_bound. lia.
Qed.

Lemma dequeue_contents c :
  ring_ok c → (0 < count c)%nat →
  ring_ok (dequeue c).2 ∧ contents c = (dequeue c).1 :: contents (dequeue c).2.
Proof.
  unfold ring_ok, contents, InputQueueSize. intros (Hl & Hh & Hc) Hp.
  unfold dequeue, set_ring; cbn [fst snd queue head count]. rewrite length_insert.
  unfold InputQueueSize.
  assert (Hm : (S (head c) mod 64 < 64)%nat) by (apply Nat.mod_upper_bound; lia).
  split; [split_and!; [done|done|lia]|].
  destruct (count c) as [|n] eqn:En; [lia|]. cbn [seq map Nat.pred].
  rewrite Nat.add_0_r, (Nat.mod_small (head c)) by done. f_equal.
  rewrite <-seq_shift, map_map. apply map_ext_in. intros k Hk%in_seq.
  assert (Heq : ((S (head c) mod 64 + k) mod 64 = (head c + S k) mod 64)%nat).
  { rewrite Nat.Div0.add_mod_idemp_l. f_equal. lia. }
  rewrite Heq, list_lookup_insert_ne; [done|].
  rewrite <-(Nat.mod_small (head c) 64) at 1 by lia. rewrite <-(Nat.add_0_r (head c)) at 1.
  apply ring_distinct; lia.
Qed.

(** *** First-in first-out *)
Definition fifo (c : connection) : Prop :=
  ring_ok c ∧ delivered c `prefix_of` queued c ∧
  (if retiring c then count c = O else queued c = delivered c ++ contents c).

Lemma fifo_same c c' :
  queue c' = queue c → head c' = head c → count c' = count c → retiring c' = retiring c →
  queued c' = queued c → delivered c' = delivered c → fifo c → fifo c'.
Proof. unfold fifo, ring_ok, contents. by intros -> -> -> -> -> ->. Qed.

Lemma fifo_retire why c : fifo c → fifo (retireLocked why c).
Proof.
  unfold retireLocked. destruct (retiring c) eqn:E; [done|]. intros ((Hl & Hh & Hc) & Hp & _).
  split_and!; simpl; try done. unfold ring_ok; simpl. rewrite length_map. split_and!; done || lia.
Qed.

Lemma fifo_new id lay : fifo (newConnection id lay).
Proof. split_and!; simpl; try done. unfold ring_ok; simpl. unfold InputQueueSize. lia. Qed.

Ltac same := eapply fifo_same; [..|eassumption]; done.

Lemma fifo_pump r c : fifo c → fifo (pump_handle r c).
Proof.
  intros Hf. unfold pump_handle. destruct r as [rep|e].
  - destruct (retiring c) eqn:Er; [same|].
    destruct (_ || _); [eapply fifo_same; [..|eapply fifo_retire; exact Hf]; done|].
    destruct (Nat.eqb_spec (count c) InputQueueSize);
      [eapply fifo_same; [..|eapply fifo_retire; exact Hf]; done|].
    destruct Hf as (Hr & Hp & Hq). rewrite Er in Hq.
    destruct (enqueue_contents rep c Hr) as [Hr' Hc']; [destruct Hr as (? & ? & ?); lia|].
    assert (Hfe : fifo (enqueue rep c)).
    { split_and!; [done| |].
      - simpl. rewrite Hq, <-app_assoc. by apply prefix_app_r.
      - simpl. rewrite Er. unfold contents in *. simpl in *. rewrite Hc', Hq. by rewrite app_assoc. }
    eapply fifo_same; [..|exact Hfe]; done.
  - destruct (is_timeout e); [same|]. eapply fifo_same; [..|eapply fifo_retire; exact Hf]; done.
Qed.

Lemma fifo_read cancel c : fifo c → fifo (read_turn cancel c).2.
Proof.
  intros Hf. unfold read_turn. destruct cancel as [e|].
  { eapply fifo_same; [..|eapply fifo_retire; exact Hf]; done. }
  destruct (retiring c) eqn:Er; [same|].
  destruct (Nat.ltb_spec 0 (count c)).
  - destruct Hf as (Hr & Hp & Hq). rewrite Er in Hq.
    destruct (dequeue_contents c Hr) as [Hr' Hc']; [done|].
    destruct (dequeue c) as [r c'] eqn:Ed. cbn [fst snd] in *.
    assert (Hfd : fifo c').
    { unfold dequeue in Ed. simplify_eq. rewrite Hc' in Hq. split_and!; [done| |].
      - simpl. rewrite Hq. apply prefix_app. by eexists.
      - simpl. rewrite Er. rewrite Hq. by rewrite <-app_assoc. }
    eapply fifo_same; [..|exact Hfd]; done.
  - destruct (wakeError c); [|done]. case_decide; [same|].
    eapply fifo_same; [..|eapply fifo_retire; exact Hf]; done.
Qed.

Lemma step_fifo c c' : step c c' → fifo c → fifo c'.
Proof.
  intros Hs Hf. destruct Hs as [c ? ?|c ? ?|c r ?|c r ?|c early late Ha|c cancel ?|c e ? ?
    |c early late rep Ha|c cancel i p Hp ?|c raw err i p Hp ?|c cancel i p Hp ? ?|c|c ? ?|c err ?].
  1-3, 7, 13, 14: same.
  - by apply fifo_pump.
  - revert Ha. unfold read_admit. simpl. repeat (case_match; try done).
  - by apply fifo_read.
  - revert Ha. unfold write_admit. simpl. repeat (case_match; try done).
  - unfold perform_start. set (c1 := match cancel with Some _ => _ | None => c end).
    assert (Hf1 : fifo c1) by (unfold c1; destruct cancel; [by apply fifo_retire|done]).
    destruct (retiring c1) eqn:Er; (eapply fifo_same; [..|exact Hf1]; done).
  - unfold perform_finish. destruct (native_result raw err) as [o [e|]].
    + apply fifo_retire. same.
    + same.
  - unfold write_return. destruct (completed p), cancel; simpl;
      first [same|eapply fifo_same; [..|eapply fifo_retire; exact Hf]; done].
  - by apply fifo_retire.
Qed.
End ConnectionFacts.

Module ConnectionSafety.
Import HidOp Connection.
#[local] Arguments Nat.modulo : simpl never.

Definition b2n (b : bool) : nat := if b then 1 else 0.

Lemma filter_insert ws i p q :
  ws !! i = Some p →
  (length (List.filter running (<[i := q]> ws)) + b2n (running p) =
   length (List.filter running ws) + b2n (running q))%nat.
Proof.
  revert i. induction ws as [|w ws IH]; intros [|i] Hi; simpl in *; try done.
  - simplify_eq. destruct (running p), (running q); simpl; lia.
  - specialize (IH _ Hi). destruct (running w); simpl; lia.
Qed.

Lemma filter_running_none ws :
  (∀ i p, ws !! i = Some p → running p = false) → List.filter running ws = [].
Proof.
  induction ws as [|w ws IH]; intros Hn; [done|]. simpl. rewrite (Hn O w eq_refl).
  apply IH. intros i p Hi. by apply (Hn (S i)).
Qed.

Lemma running_pos ws i p : ws !! i = Some p → running p = true →
  (1 ≤ length (List.filter running ws))%nat.
Proof.
  revert i. induction ws as [|w ws IH]; intros [|i] Hi Hr; simpl in *; try done.
  - simplify_eq. rewrite Hr. simpl. lia.
  - specialize (IH _ Hi Hr). destruct (running w); simpl; lia.
Qed.

(** A write whose worker and flags agree. *)
Definition worker_ok (p : pendingWrite) : Prop :=
  match worker p with
  | WStarting => submitted p = false ∧ completed p = false
  | WNative => submitted p = true ∧ completed p = false
  | WGone => completed p = true ∧ (submitted p = false → w_result p = OutcomeNotSubmitted)
  end.

(** What Write told its caller is justified. *)
Definition evidence (dying : bool) (p : pendingWrite) : Prop :=
  ∀ o e, returned p = Some (o, e) →
    (o = OutcomeNotSubmitted →
       (submitted p = false ∧ (worker p = WGone ∨ dying = true)) ∨
       (worker p = WGone ∧ w_result p = OutcomeNotSubmitted)) ∧
    (o = OutcomeCompleted → worker p = WGone ∧ submitted p = true ∧ w_result p = OutcomeCompleted).

Record safe (c : connection) : Prop := {
  s_clean : cleanup c = CleanupNone ↔ retiring c = false;
  s_calls : closeCalls c = (match cleanup c with CleanupNone | CleanupWaiting => 0 | _ => 1 end)%nat ∧
            releases c = (match cleanup c with CleanupDone => 1 | _ => 0 end)%nat;
  s_idle : cleanup c = CleanupClosing ∨ cleanup c = CleanupDone → workers c = O;
  s_worker : ∀ i p, writes c !! i = Some p → worker_ok p;
  s_native : NoDup (nativeWrites c) ∧
    ∀ i, i ∈ nativeWrites c ↔ ∃ p, writes c !! i = Some p ∧ submitted p = true;
  s_one : (length (List.filter running (writes c)) ≤ 1)%nat;
  s_busy : writeBusy c = false → ∀ i p, writes c !! i = Some p → is_Some (returned p);
  s_live : retiring c = false → ∀ i p, writes c !! i = Some p → is_Some (returned p) →
    worker p = WGone;
  s_evidence : ∀ i p, writes c !! i = Some p → evidence (retiring c) p;
  s_single : ∀ i j p q, writes c !! i = Some p → writes c !! j = Some q →
    returned p = None → returned q = None → i = j;
}.

Lemma safe_new id lay : safe (newConnection id lay).
Proof.
  split; simpl; try done; try lia; try (intros ?; intros; by rewrite lookup_nil in *).
  - by intros [?|?].
  - split; [constructor|]. intros i. rewrite elem_of_nil, lookup_nil. split; [done|by intros (? & ? & _)].
Qed.

(** Steps that touch neither the writes nor the cleanup, and start no pump. *)
Lemma safe_same c c' :
  cleanup c' = cleanup c → retiring c' = retiring c → closeCalls c' = closeCalls c →
  releases c' = releases c → writes c' = writes c → nativeWrites c' = nativeWrites c →
  writeBusy c' = writeBusy c → (workers c' ≤ workers c)%nat → safe c → safe c'.
Proof.
  intros H1 H2 H3 H4 H5 H6 H7 H8 [? ? Hi ? ? ? ? ? ? ?].
  split; rewrite ?H1, ?H2, ?H3, ?H4, ?H5, ?H6, ?H7; try done.
  intros Hc. specialize (Hi Hc). lia.
Qed.

Lemma evidence_dying p : evidence false p → ∀ b, evidence b p.
Proof.
  intros He b o e Hr. destruct (He o e Hr) as [H1 H2]. split; [|done].
  intros Ho. destruct (H1 Ho) as [[? [?|?]]|?]; auto; done.
Qed.

Lemma safe_retire why c : safe c → safe (retireLocked why c).
Proof.
  unfold retireLocked. destruct (retiring c) eqn:E; [done|]. intros [H1 H2 H3 H4 H5 H6 H7 H8 H9 H10].
  rewrite E in *. destruct H1 as [_ H1]. specialize (H1 eq_refl). rewrite H1 in *.
  split; simpl; try done.
  - by intros [?|?].
  - intros i p Hp. by apply evidence_dying, (H9 i).
Qed.

Lemma workers_retire why c : workers (retireLocked why c) = workers c.
Proof. unfold retireLocked. by destruct (retiring c). Qed.
Lemma writes_retire why c : writes (retireLocked why c) = writes c.
Proof. unfold retireLocked. by destruct (retiring c). Qed.
Lemma retiring_retire why c : retiring (retireLocked why c) = true.
Proof. unfold retireLocked. by destruct (retiring c) eqn:E. Qed.
Lemma native_retire why c : nativeWrites (retireLocked why c) = nativeWrites c.
Proof. unfold retireLocked. by destruct (retiring c). Qed.
Lemma busy_retire why c : writeBusy (retireLocked why c) = writeBusy c.
Proof. unfold retireLocked. by destruct (retiring c). Qed.
Lemma pump_retire why c : pump (retireLocked why c) = pump c.
Proof. unfold retireLocked. by destruct (retiring c). Qed.

Lemma safe_pump q c : safe c → pump c ≠ PumpGone → safe (set_pump q c).
Proof.
  intros Hs Hp. apply (safe_same c); try done. unfold workers; simpl.
  destruct q, (pump c); try done; lia.
Qed.

Lemma safe_pump_handle r c : safe c → pump c ≠ PumpGone → safe (pump_handle r c).
Proof.
  intros Hs Hp. unfold pump_handle.
  assert (Hr : ∀ why, safe (set_pump PumpGone (retireLocked why c))).
  { intros why. apply safe_pump; [by apply safe_retire|]. by rewrite pump_retire. }
  repeat case_match; auto using safe_pump.
  apply safe_pump; [|done]. by apply (safe_same c).
Qed.

(** Replacing write [i] by [q]. *)
Lemma safe_replace c i p q c' :
  safe c → writes c !! i = Some p →
  writes c' = <[i := q]> (writes c) → cleanup c' = cleanup c → retiring c' = retiring c →
  closeCalls c' = closeCalls c → releases c' = releases c → pump c' = pump c →
  (running q = true → running p = true) → worker_ok q → evidence (retiring c) q →
  (retiring c = false → is_Some (returned q) → worker q = WGone) →
  (writeBusy c' = false → is_Some (returned q) ∧ (writeBusy c = true →
     ∀ j pj, j ≠ i → writes c !! j = Some pj → is_Some (returned pj))) →
  (returned q = None → returned p = None) →
  (submitted q = submitted p ∧ nativeWrites c' = nativeWrites c ∨
   submitted p = false ∧ submitted q = true ∧ nativeWrites c' = nativeWrites c ++ [i]) →
  safe c'.
Proof.
  intros [H1 H2 H3 H4 H5 H6 H7 H8 H9 H10] Hp Hw Hcl Hre Hcc Hrl Hpu Hrun Hok Hev Hlive Hbusy Hret Hsub.
  pose proof (filter_insert (writes c) i p q Hp) as Hfi.
  assert (Hle : (length (List.filter running (<[i:=q]> (writes c))) ≤
    length (List.filter running (writes c)))%nat).
  { destruct (running q), (running p); simpl in Hfi; try lia. }
  split; rewrite ?Hw, ?Hcl, ?Hre, ?Hcc, ?Hrl; try done.
  - intros Hc. specialize (H3 Hc). unfold workers in *. rewrite Hpu, Hw. lia.
  - intros j pj Hj. apply list_lookup_insert_Some in Hj as [(<- & <- & _)|[_ Hj]]; eauto.
  - destruct H5 as [Hnd Hmem].
    assert (Hlt : (i < length (writes c))%nat) by (by eapply lookup_lt_Some).
    destruct Hsub as [[Hs Hn]|(Hs1 & Hs2 & Hn)]; rewrite Hn.
    + split; [done|]. intros j. rewrite Hmem. destruct (decide (j = i)) as [->|Hne].
      * rewrite list_lookup_insert_eq by done. split; intros (x & Hx & Hxs); simplify_eq.
        -- exists q. by rewrite Hs.
        -- exists p. by rewrite <-Hs.
      * by rewrite list_lookup_insert_ne by done.
    + split.
      * apply list.NoDup_app. split_and!; [done| |apply NoDup_singleton].
        intros x Hx ->%list_elem_of_singleton. apply Hmem in Hx as (y & Hy & Hys). congruence.
      * intros j. rewrite elem_of_app, list_elem_of_singleton, Hmem.
        destruct (decide (j = i)) as [->|Hne].
        -- rewrite list_lookup_insert_eq by done. split; [intros _; by exists q|by right].
        -- rewrite list_lookup_insert_ne by done. split; [by intros [?| ->]|by left].
  - lia.
  - intros Hb j pj Hj. destruct (Hbusy Hb) as [Hq Ho].
    apply list_lookup_insert_Some in Hj as [(<- & <- & _)|[Hne Hj]]; [done|].
    destruct (writeBusy c) eqn:Eb; [by eapply Ho|by eapply H7].
  - intros Hr j pj Hj. apply list_lookup_insert_Some in Hj as [(<- & <- & _)|[_ Hj]]; eauto.
  - intros j pj Hj. apply list_lookup_insert_Some in Hj as [(<- & <- & _)|[_ Hj]]; eauto.
  - assert (Hlk : ∀ j pj, <[i:=q]> (writes c) !! j = Some pj → returned pj = None →
      ∃ pj', writes c !! j = Some pj' ∧ returned pj' = None).
    { intros j pj [(<- & <- & _)|[_ Hj]]%list_lookup_insert_Some ?; eauto. }
    intros j k pj pk Hj Hk Hrj Hrk. destruct (Hlk _ _ Hj Hrj) as (? & ? & ?).
    destruct (Hlk _ _ Hk Hrk) as (? & ? & ?). by eapply H10.
Qed.

(** Appending an admitted write. *)
Lemma safe_admit c rep :
  safe c → retiring c = false → writeBusy c = false →
  safe (set_writeBusy true (set_writes (writes c ++
    [MkPending rep WStarting false false OutcomeUnknown None None]) c)).
Proof.
  intros [H1 H2 H3 H4 H5 H6 H7 H8 H9 H10] Hr Hb.
  set (q := MkPending rep WStarting false false OutcomeUnknown None None).
  assert (Hnone : List.filter running (writes c) = []).
  { apply filter_running_none. intros i p Hp. unfold running.
    by rewrite (H8 Hr i p Hp (H7 Hb i p Hp)). }
  assert (Hlk : ∀ i p, (writes c ++ [q]) !! i = Some p → writes c !! i = Some p ∨ p = q).
  { intros i p [?|[_ Hq]]%lookup_app_Some; [by left|].
    apply list_lookup_singleton_Some in Hq as [_ ->]. by right. }
  split; simpl; try done.
  - intros Hc. apply H1 in Hr. rewrite Hr in Hc. by destruct Hc.
  - intros i p [Hp| ->]%Hlk; [by apply (H4 i)|done].
  - destruct H5 as [Hnd Hmem]. split; [done|]. intros i. rewrite Hmem. split.
    + intros (p & Hp & ?). exists p. split; [|done]. by apply lookup_app_l_Some.
    + intros (p & [Hp| ->]%Hlk & Hs); [by exists p|done].
  - rewrite List.filter_app, length_app, Hnone. simpl. lia.
  - intros _ i p [Hp| ->]%Hlk Hs; [by apply (H8 Hr i)|by destruct Hs].
  - intros i p [Hp| ->]%Hlk; [by apply (H9 i)|done].
  - assert (Hlast : ∀ i p, (writes c ++ [q]) !! i = Some p → returned p = None →
      i = length (writes c)).
    { intros i p [Hp|[Hge Hq]]%lookup_app_Some Hn.
      - destruct (H7 Hb i p Hp). congruence.
      - apply list_lookup_singleton_Some in Hq as [? _]. lia. }
    intros i j p p' Hi Hj Hpi Hpj. rewrite (Hlast i p), (Hlast j p') by done. done.
Qed.

Lemma safe_worker_starts cancel i p c :
  safe c → writes c !! i = Some p → worker p = WStarting → safe (perform_start cancel i p c).
Proof.
  intros Hs Hp Hw. unfold perform_start. set (c1 := match cancel with Some _ => _ | None => c end).
  assert (Hs1 : safe c1) by (unfold c1; destruct cancel; [by apply safe_retire|done]).
  assert (Hp1 : writes c1 !! i = Some p)
    by (unfold c1; destruct cancel; [by rewrite writes_retire|done]).
  pose proof (s_worker _ Hs1 i p Hp1) as Hok. unfold worker_ok in Hok. rewrite Hw in Hok.
  destruct Hok as [Hsub Hcomp].
  destruct (retiring c1) eqn:Er.
  - eapply (safe_replace c1 i p); try done.
    + intros o e Hret. simpl in Hret. split.
      * intros _. right. done.
      * intros ->. destruct (s_evidence _ Hs1 i p Hp1 _ _ Hret) as [_ H2].
        destruct (H2 eq_refl) as (? & ? & ?). congruence.
    + simpl. intros Hb. split; [by eapply (s_busy _ Hs1)|]. intros Hb'. congruence.
    + by left.
  - eapply (safe_replace c1 i p); try done.
    + by unfold running; rewrite Hw.
    + intros o e Hret. simpl in Hret. exfalso.
      assert (worker p = WGone) by (eapply (s_live _ Hs1 Er i); [done|by eexists]). congruence.
    + intros _ Hret. simpl in Hret.
      assert (worker p = WGone) by (by eapply (s_live _ Hs1 Er i)). congruence.
    + simpl. intros Hb. split; [by eapply (s_busy _ Hs1)|]. intros Hb'. congruence.
    + right. by rewrite Hsub.
Qed.

Lemma safe_worker_finishes raw err i p c :
  safe c → writes c !! i = Some p → worker p = WNative → safe (perform_finish raw err i p c).
Proof.
  intros Hs Hp Hw. unfold perform_finish. destruct (native_result raw err) as [o e].
  pose proof (s_worker _ Hs i p Hp) as Hok. unfold worker_ok in Hok. rewrite Hw in Hok.
  destruct Hok as [Hsub Hcomp].
  set (c1 := set_writes _ c).
  assert (Hs1 : safe c1).
  { eapply (safe_replace c i p); try done.
    - simpl. split; [done|]. rewrite Hsub. done.
    - intros o' e' Hret. simpl in Hret.
      destruct (s_evidence _ Hs i p Hp _ _ Hret) as [E1 E2]. split; intros ->.
      + destruct (E1 eq_refl) as [[? _]|[? _]]; congruence.
      + destruct (E2 eq_refl) as [? _]. congruence.
    - simpl. intros Hb. split; [by eapply (s_busy _ Hs)|]. intros Hb'. congruence.
    - by left. }
  destruct e; [by apply safe_retire|done].
Qed.

Lemma safe_write_returns cancel i p c :
  safe c → writes c !! i = Some p → returned p = None →
  completed p = true ∨ (∃ e, cancel = Some e) → safe (write_return cancel i p c).
Proof.
  intros Hs Hp Hret Hwhy. unfold write_return.
  pose proof (s_worker _ Hs i p Hp) as Hok.
  assert (Hother : ∀ j pj, j ≠ i → writes c !! j = Some pj → is_Some (returned pj)).
  { intros j pj Hne Hj. destruct (returned pj) eqn:E; [by eexists|].
    destruct Hne. by eapply (s_single _ Hs). }
  assert (Hgive : ∀ o e c0, safe c0 → writes c0 = writes c → (retiring c0 = false → worker p = WGone) →
    (o = OutcomeNotSubmitted → (submitted p = false ∧ (worker p = WGone ∨ retiring c0 = true)) ∨
       (worker p = WGone ∧ w_result p = OutcomeNotSubmitted)) →
    (o = OutcomeCompleted → worker p = WGone ∧ submitted p = true ∧ w_result p = OutcomeCompleted) →
    safe (set_writeBusy false (set_writes (<[i := MkPending (report p) (worker p) (submitted p)
      (completed p) (w_result p) (w_err p) (Some (o, e))]> (writes c0)) c0))).
  { intros o e c0 Hs0 Hw0 Hg Hn Hc. eapply (safe_replace c0 i p); try done.
    - by rewrite Hw0.
    - intros o' e' [= <- <-]. done.
    - intros Hr _. by apply Hg.
    - intros _. split; [by eexists|]. intros _. by rewrite Hw0.
    - by left. }
  assert (Hgone : completed p = true → worker p = WGone ∧
    (submitted p = false → w_result p = OutcomeNotSubmitted)).
  { unfold worker_ok in Hok. destruct (worker p); intros; [|by destruct Hok; congruence|by destruct Hok].
    destruct Hok. congruence. }
  destruct (completed p) eqn:Ec.
  - destruct (Hgone eq_refl) as [Hg Hn].
    destruct cancel as [e|]; (apply Hgive;
      [by try apply safe_retire|by rewrite ?writes_retire|done|by right|]).
    all: intros Ho; split_and!; [done| |done]; destruct (submitted p); [done|];
      rewrite Hn in Ho by done; done.
  - destruct Hwhy as [|[e ->]]; [done|]. apply Hgive.
    + by apply safe_retire.
    + by rewrite writes_retire.
    + by rewrite retiring_retire.
    + intros Ho. left. destruct (submitted p); [done|]. split; [done|]. right.
      apply retiring_retire.
    + by destruct (submitted p).
Qed.

Lemma step_safe c c' : step c c' → safe c → safe c'.
Proof.
  intros Hst Hs. destruct Hst as [c Hp ?|c Hp Hr|c r Hp|c r Hp|c early late Ha|c cancel ?|c e ? ?
    |c early late rep Ha|c cancel i p Hp ?|c raw err i p Hp ?|c cancel i p Hp ? ?|c|c Hc Hw|c err Hc].
  - apply safe_pump; [done|congruence].
  - apply safe_pump; [done|congruence].
  - apply safe_pump; [done|congruence].
  - apply safe_pump_handle; [done|congruence].
  - revert Ha. unfold read_admit. simpl. repeat (case_match; try done). intros _.
    by apply (safe_same c).
  - unfold read_turn. destruct cancel as [e|].
    { eapply safe_same; [..|apply safe_retire; exact Hs]; done. }
    destruct (retiring c) eqn:Er; [by apply (safe_same c)|].
    destruct (0 <? count c)%nat; [by apply (safe_same c)|].
    destruct (wakeError c); [|done]. case_decide; [by apply (safe_same c)|].
    eapply safe_same; [..|apply safe_retire; exact Hs]; done.
  - by apply (safe_same c).
  - revert Ha. unfold write_admit. cbn [negb]. destruct early; [done|]. destruct (_ || _); [done|].
    destruct late; [done|]. destruct (retiring c) eqn:Er; [done|].
    destruct (writeBusy c) eqn:Eb; [done|]. intros _. by apply safe_admit.
  - by apply safe_worker_starts.
  - by apply safe_worker_finishes.
  - by apply safe_write_returns.
  - by apply safe_retire.
  - destruct Hs as [H1 [H2 H2'] H3 H4 H5 H6 H7 H8 H9 H10]. rewrite Hc in *.
    split; simpl; try done.
    + split; [done|]. intros Hr. apply H1 in Hr. done.
    + by rewrite H2.
  - destruct Hs as [H1 [H2 H2'] H3 H4 H5 H6 H7 H8 H9 H10]. rewrite Hc in *.
    split; simpl; try done.
    + split; [done|]. intros Hr. apply H1 in Hr. done.
    + by rewrite H2, H2'.
    + intros _. apply H3. by left.
Qed.
End ConnectionSafety.

Module ConnectionProps.
Import HidOp Connection ConnectionFacts ConnectionSafety.
#[local] Arguments Nat.modulo : simpl never.

Definition reachable (c : connection) : Prop := ∃ id lay, rtc step (newConnection id lay) c.

Lemma reachable_safe c : reachable c → safe c.
Proof.
  intros (id & lay & Hr). revert c Hr. apply rtc_ind_r; [apply safe_new|].
  intros; by eapply step_safe.
Qed.

Lemma reachable_fifo c : reachable c → fifo c.
Proof.
  intros (id & lay & Hr). revert c Hr. apply rtc_ind_r; [apply fifo_new|].
  intros; by eapply step_fifo.
Qed.

(** *** Retirement is final *)
Definition retired_frame (c c' : connection) : Prop :=
  retiring c' = true ∧ reason c' = reason c ∧ nativeWrites c' = nativeWrites c ∧
  delivered c' = delivered c ∧ queued c' = queued c ∧ length (writes c') = length (writes c).

Lemma retire_retired why c : retiring c = true → retireLocked why c = c.
Proof. unfold retireLocked. by intros ->. Qed.

Lemma step_retired c c' : step c c' → retiring c = true → retired_frame c c'.
Proof.
  intros Hst Hr. unfold retired_frame.
  destruct Hst as [c Hp ?|c Hp Hn|c r Hp|c r Hp|c early late Ha|c cancel ?|c e ? ?
    |c early late rep Ha|c cancel i p Hp ?|c raw err i p Hp ?|c cancel i p Hp ? ?|c|c Hc Hw|c err Hc].
  1-3, 7, 13, 14: done.
  - unfold pump_handle. rewrite Hr. destruct r; [done|].
    destruct (is_timeout e); rewrite ?retire_retired by done; done.
  - revert Ha. unfold read_admit. rewrite Hr. simpl. by destruct early, late.
  - unfold read_turn. rewrite Hr. destruct cancel; [by rewrite retire_retired|done].
  - revert Ha. unfold write_admit. rewrite Hr. cbn [negb]. destruct early; [done|].
    destruct (_ || _); [done|]. by destruct late.
  - unfold perform_start. assert (He : match cancel with
      | Some e => retireLocked (Some (operation "write" (endpoint c) e)) c | None => c end = c)
      by (destruct cancel; [by apply retire_retired|done]).
    rewrite He, Hr. simpl. by rewrite length_insert.
  - unfold perform_finish. destruct (native_result raw err) as [o [e|]];
      rewrite ?retire_retired by done; simpl; by rewrite length_insert.
  - unfold write_return. destruct (completed p), cancel; rewrite ?retire_retired by done; simpl;
      by rewrite length_insert.
  - by rewrite retire_retired.
Qed.

Lemma retired_final c c' : rtc step c c' → retiring c = true → retired_frame c c'.
Proof.
  induction 1 as [c|c c1 c' Hs _ IH]; intros Hr; [done|].
  destruct (step_retired _ _ Hs Hr) as (H1 & H2 & H3 & H4 & H5 & H6).
  destruct (IH H1) as (? & ? & ? & ? & ? & ?). split_and!; congruence.
Qed.

(** *** A refused write is never submitted later *)
Lemma retiring_pump_handle r c : retiring c = true → retiring (pump_handle r c) = true.
Proof.
  intros Hr. unfold pump_handle. rewrite Hr. destruct r as [|e]; [done|].
  destruct (is_timeout e); [done|]. simpl. by rewrite retiring_retire.
Qed.

Lemma writes_pump_handle r c : writes (pump_handle r c) = writes c.
Proof. unfold pump_handle. repeat case_match; simpl; rewrite ?writes_retire; done. Qed.

Lemma writes_read_turn cancel c : writes (read_turn cancel c).2 = writes c.
Proof.
  unfold read_turn, dequeue. repeat case_match; simplify_eq/=; rewrite ?writes_retire; done.
Qed.

Lemma retiring_read_turn cancel c : retiring c = true → retiring (read_turn cancel c).2 = true.
Proof.
  intros Hr. unfold read_turn. rewrite Hr. destruct cancel; [|done]. simpl. by rewrite retiring_retire.
Qed.

Definition refused (i : nat) (c : connection) : Prop :=
  ∃ p, writes c !! i = Some p ∧ submitted p = false ∧ (worker p = WGone ∨ retiring c = true).

Lemma step_refused i c c' : step c c' → safe c → refused i c → refused i c'.
Proof.
  intros Hst Hs (p & Hp & Hsub & Hwhy).
  assert (Hsame : ∀ c', writes c' = writes c → (retiring c = true → retiring c' = true) → refused i c').
  { intros c0 Hw Hr. exists p. rewrite Hw. split; [done|]. split; [done|].
    destruct Hwhy; [by left|right; auto]. }
  assert (Hins : ∀ c0 j pj q, writes c !! j = Some pj → writes c0 = <[j := q]> (writes c) →
    (retiring c = true → retiring c0 = true) →
    (submitted pj = false → worker pj = WGone ∨ retiring c = true →
       submitted q = false ∧ (worker q = WGone ∨ retiring c0 = true)) → refused i c0).
  { intros c0 j pj q Hj Hw Hr Hq. destruct (decide (j = i)) as [->|Hne].
    - assert (pj = p) as -> by congruence. exists q. rewrite Hw.
      rewrite list_lookup_insert_eq by (by eapply lookup_lt_Some). by destruct (Hq Hsub Hwhy).
    - exists p. rewrite Hw, list_lookup_insert_ne by done. split; [done|]. split; [done|].
      destruct Hwhy; [by left|right; auto]. }
  destruct Hst as [c Hq ?|c Hq Hn|c r Hq|c r Hq|c early late Ha|c cancel ?|c e ? ?
    |c early late rep Ha|c cancel j pj Hj Hjw|c raw err j pj Hj Hjw|c cancel j pj Hj ? ?|c|c Hc Hw|c err Hc].
  1-3, 7, 13, 14: by apply Hsame.
  - apply Hsame; [apply writes_pump_handle|apply retiring_pump_handle].
  - revert Ha. unfold read_admit. simpl. repeat (case_match; try done). intros _. by apply Hsame.
  - apply Hsame; [apply writes_read_turn|apply retiring_read_turn].
  - revert Ha. unfold write_admit. cbn [negb]. repeat (case_match; try done). intros _.
    exists p. simpl. split; [by apply lookup_app_l_Some|]. split; [done|].
    destruct Hwhy; [by left|congruence].
  - unfold perform_start. set (c1 := match cancel with Some _ => _ | None => c end).
    assert (Hw1 : writes c1 = writes c) by (unfold c1; destruct cancel; [apply writes_retire|done]).
    assert (Hr1 : retiring c = true → retiring c1 = true)
      by (unfold c1; destruct cancel; [intros _; apply retiring_retire|done]).
    destruct (retiring c1) eqn:Er.
    + eapply (Hins _ j pj); [done|simpl; by rewrite Hw1|done|]. simpl. auto.
    + eapply (Hins _ j pj); [done|simpl; by rewrite Hw1|intros Hr; specialize (Hr1 Hr); congruence|].
      intros _ [Hg|Hr]; [congruence|]. specialize (Hr1 Hr). congruence.
  - pose proof (s_worker _ Hs j pj Hj) as Hok. unfold worker_ok in Hok. rewrite Hjw in Hok.
    destruct Hok as [Hsubj _]. unfold perform_finish. destruct (native_result raw err) as [o e].
    destruct e; (eapply (Hins _ j pj); [done|by rewrite ?writes_retire| |congruence]);
      [intros _; apply retiring_retire|done].
  - unfold write_return. destruct (completed pj), cancel;
      (eapply (Hins _ j pj); [done|simpl; by rewrite ?writes_retire| |]); simpl;
      rewrite ?retiring_retire; auto.
  - apply Hsame; [apply writes_retire|intros _; apply retiring_retire].
Qed.

Lemma refused_forever i c c' : rtc step c c' → safe c → refused i c → refused i c'.
Proof.
  induction 1 as [c|c c1 c' Hs _ IH]; intros Hsafe Hr; [done|].
  apply IH; [by eapply step_safe|by eapply step_refused].
Qed.

Lemma refused_native i c : safe c → refused i c → i ∉ nativeWrites c.
Proof.
  intros Hs (p & Hp & Hsub & _) Hin. apply (proj2 (s_native _ Hs)) in Hin as (q & Hq & ?). congruence.
Qed.

(** *** Draining a retired connection *)
Definition draining (c : connection) : Prop :=
  safe c ∧ retiring c = true ∧ cleanup c = CleanupWaiting.

Lemma drain_pump c : draining c →
  ∃ c', rtc step c c' ∧ draining c' ∧ pump c' = PumpGone ∧ writes c' = writes c.
Proof.
  intros (Hs & Hr & Hc).
  assert (Htop : ∀ c, draining c → pump c = PumpTop →
    ∃ c', rtc step c c' ∧ draining c' ∧ pump c' = PumpGone ∧ writes c' = writes c).
  { intros c0 (Hs0 & Hr0 & Hc0) Hp. exists (set_pump PumpGone c0).
    split; [apply rtc_once; by constructor|]. split_and!; try done.
    split_and!; try done. apply safe_pump; [done|congruence]. }
  assert (Hgot : ∀ c r, draining c → pump c = PumpGot r →
    ∃ c', rtc step c c' ∧ draining c' ∧ pump c' = PumpGone ∧ writes c' = writes c).
  { intros c0 r (Hs0 & Hr0 & Hc0) Hp.
    assert (Hst : step c0 (pump_handle r c0)) by (by constructor).
    assert (Hd : draining (pump_handle r c0) ∧ writes (pump_handle r c0) = writes c0 ∧
      (pump (pump_handle r c0) = PumpGone ∨ pump (pump_handle r c0) = PumpTop)).
    { assert (Hsafe := step_safe _ _ Hst Hs0). unfold pump_handle, draining in *.
      rewrite Hr0 in *.
      destruct r as [|e]; [|destruct (is_timeout e); rewrite ?retire_retired in * by done];
        simpl in *; by auto. }
    destruct Hd as (Hd & Hw & [Hg|Ht]).
    - exists (pump_handle r c0). split; [by apply rtc_once|done].
    - destruct (Htop _ Hd Ht) as (c' & Hrt & Hd' & Hg & Hw'). exists c'.
      split; [by eapply rtc_l|]. split_and!; congruence || done. }
  destruct (pump c) as [| |r|] eqn:Hp.
  - by apply Htop.
  - assert (Hd : draining (set_pump (PumpGot (Err HidErr.ErrIO)) c)).
    { split_and!; try done. apply safe_pump; [done|congruence]. }
    destruct (Hgot _ _ Hd eq_refl) as (c' & Hrt & Hd' & Hg & Hw). exists c'.
    split; [|done]. eapply rtc_l; [|exact Hrt]. by constructor.
  - by eapply Hgot.
  - exists c. by split_and!.
Qed.

Lemma drain_writes n : ∀ c, draining c → pump c = PumpGone →
  length (List.filter running (writes c)) = n →
  ∃ c', rtc step c c' ∧ draining c' ∧ workers c' = O.
Proof.
  induction n as [|n IH]; intros c Hd Hp Hn.
  { exists c. split; [done|]. split; [done|]. unfold workers. by rewrite Hp, Hn. }
  assert (Hex : ∃ i p, writes c !! i = Some p ∧ running p = true).
  { destruct (List.filter running (writes c)) as [|p ps] eqn:E; [done|].
    assert (Hin : In p (List.filter running (writes c))) by (rewrite E; by left).
    apply filter_In in Hin as [Hin Hrun]. apply list_elem_of_In, list_elem_of_lookup in Hin as [i Hi].
    by exists i, p. }
  destruct Hex as (i & p & Hi & Hrun). destruct Hd as (Hs & Hr & Hc).
  assert (Hnext : ∃ c1, step c c1 ∧ retiring c1 = true ∧ cleanup c1 = CleanupWaiting ∧
    pump c1 = PumpGone ∧ ∃ q, writes c1 = <[i := q]> (writes c) ∧ running q = false).
  { unfold running in Hrun. destruct (worker p) eqn:Ew; [| |done].
    - eexists. split; [by apply (worker_starts c None i p)|]. unfold perform_start. rewrite Hr.
      split_and!; try done. by eexists.
    - eexists. split; [by apply (worker_finishes c (Some OutcomeCompleted) None i p)|].
      unfold perform_finish. simpl. split_and!; try done. by eexists. }
  destruct Hnext as (c1 & Hst & Hr1 & Hc1 & Hp1 & q & Hw & Hq).
  pose proof (filter_insert (writes c) i p q Hi) as Hfi. rewrite Hrun, Hq in Hfi. simpl in Hfi.
  destruct (IH c1) as (c' & Hrt & Hd' & Hw').
  - split_and!; [by eapply step_safe|done|done].
  - done.
  - rewrite Hw. lia.
  - exists c'. split; [by eapply rtc_l|done].
Qed.

Lemma drain c : safe c → retiring c = true →
  ∃ c', rtc step c c' ∧ cleanup c' = CleanupDone ∧ releases c' = 1%nat ∧ closeCalls c' = 1%nat.
Proof.
  intros Hs Hr.
  assert (Hend : ∀ c, safe c → cleanup c = CleanupClosing →
    ∃ c', rtc step c c' ∧ cleanup c' = CleanupDone ∧ releases c' = 1%nat ∧ closeCalls c' = 1%nat).
  { intros c0 Hs0 Hc0. assert (Hst := cleanup_ends c0 None Hc0). eexists.
    split; [by apply rtc_once|]. apply (step_safe _ _ Hst) in Hs0. destruct Hs0 as [_ [H1 H2] _ _ _ _ _ _ _ _].
    simpl in *. by rewrite H1, H2. }
  assert (Hcl : cleanup c ≠ CleanupNone).
  { intros Hn. apply (s_clean _ Hs) in Hn. congruence. }
  destruct (cleanup c) eqn:Ec; [done| |by apply Hend|].
  - destruct (drain_pump c) as (c1 & Hr1 & Hd1 & Hg1 & _); [by split_and!|].
    destruct (drain_writes _ c1 Hd1 Hg1 eq_refl) as (c2 & Hr2 & (Hs2 & Hre2 & Hc2) & Hw2).
    assert (Hst := cleanup_closes c2 Hc2 Hw2).
    destruct (Hend _ (step_safe _ _ Hst Hs2) eq_refl) as (c3 & Hr3 & Hres).
    exists c3. split; [|done]. etransitivity; [exact Hr1|]. etransitivity; [exact Hr2|].
    by eapply rtc_l.
  - exists c. destruct Hs as [_ [H1 H2] _ _ _ _ _ _ _ _]. rewrite Ec in H1, H2. by split_and!.
Qed.

(** *** Only reports of the layout's shape are queued *)
Definition fits (spec : ReportSpec) (r : Report) : bool :=
  (ReportID r =? SpecID spec) && (len (Data r) =? Size spec).

Definition shaped (c : connection) : Prop :=
  List.Forall (λ r, fits (Input (layout c)) r = true) (queued c).

Lemma shaped_same c c' : layout c' = layout c → queued c' = queued c → shaped c → shaped c'.
Proof. unfold shaped. by intros -> ->. Qed.

Lemma shaped_retire why c : shaped c → shaped (retireLocked why c).
Proof. unfold retireLocked, shaped. by destruct (retiring c). Qed.

Ltac shaped := eapply shaped_same; [..|apply shaped_retire; eassumption]; done.

Lemma shaped_pump r c : shaped c → shaped (pump_handle r c).
Proof.
  intros Hs. unfold pump_handle. destruct r as [rep|e].
  - destruct (retiring c); [done|]. destruct (_ || _) eqn:Ef; [shaped|].
    destruct (_ =? _)%nat; [shaped|].
    unfold shaped in *. simpl. apply List.Forall_app. split; [done|]. repeat constructor.
    unfold fits. apply orb_false_iff in Ef as [E1%negb_false_iff E2%negb_false_iff]. by rewrite E1, E2.
  - destruct (is_timeout e); [done|shaped].
Qed.

Lemma step_shaped c c' : step c c' → shaped c → shaped c'.
Proof.
  intros Hst Hs.
  destruct Hst as [c Hq ?|c Hq Hn|c r Hq|c r Hq|c early late Ha|c cancel ?|c e ? ?
    |c early late rep Ha|c cancel j pj Hj Hjw|c raw err j pj Hj Hjw|c cancel j pj Hj ? ?|c|c Hc Hw|c err Hc].
  1-3, 7, 13, 14: done.
  - by apply shaped_pump.
  - revert Ha. unfold read_admit. simpl. by repeat (case_match; try done).
  - unfold read_turn, dequeue. repeat case_match; simplify_eq/=; try done;
      shaped.
  - revert Ha. unfold write_admit. cbn [negb]. by repeat (case_match; try done).
  - unfold perform_start. destruct cancel as [e|]; case_match; try done;
      shaped.
  - unfold perform_finish. destruct (native_result raw err) as [o [e|]]; [|done].
    apply shaped_retire. done.
  - unfold write_return. destruct (completed pj), cancel; try done;
      shaped.
  - by apply shaped_retire.
Qed.

Lemma reachable_shaped c : reachable c → shaped c.
Proof.
  intros (id & lay & Hr). revert c Hr. apply rtc_ind_r; [constructor|].
  intros; by eapply step_shaped.
Qed.

Lemma only_native ws i j p q :
  (length (List.filter running ws) ≤ 1)%nat → ws !! i = Some p → ws !! j = Some q →
  running p = true → running q = true → i = j.
Proof.
  intros Hl Hi Hj Hp Hq. destruct (decide (i = j)) as [|Hne]; [done|]. exfalso.
  set (p' := MkPending (report p) WGone (submitted p) (completed p) (w_result p) (w_err p) (returned p)).
  pose proof (filter_insert ws i p p' Hi) as Hf. rewrite Hp in Hf. simpl in Hf.
  pose proof (running_pos (<[i := p']> ws) j q) as Hr.
  rewrite list_lookup_insert_ne in Hr by done. specialize (Hr Hj Hq). lia.
Qed.

Lemma read_refused early late c : retiring c = true → is_Some (read_admit true early late c).1.
Proof. intros Hr. unfold read_admit. rewrite Hr. simpl. destruct early, late; by eexists. Qed.

Lemma write_refused early late rep c :
  retiring c = true → is_Some (write_admit true early late rep c).1.
Proof.
  intros Hr. unfold write_admit. rewrite Hr. cbn [negb]. destruct early; [by eexists|].
  destruct (_ || _); [by eexists|]. destruct late; by eexists.
Qed.

(** ** Properties *)

(** C3: The connection keeps the driver's contract on every interleaving: the
    device is closed at most once and its lease released at most once, only
    after the close; once the close begins the pump and every write worker
    have returned, so no native call overlaps or follows it; at most one
    native write is in flight, and no accepted write is given to the device
    twice. *)
Theorem conn_driver_contract c (Hc : reachable c) :
  (releases c ≤ closeCalls c ≤ 1)%nat ∧
  ((1 ≤ closeCalls c)%nat →
     pump c = PumpGone ∧ ∀ i p, writes c !! i = Some p → worker p = WGone) ∧
  NoDup (nativeWrites c) ∧
  (∀ i j p q, writes c !! i = Some p → writes c !! j = Some q →
     worker p = WNative → worker q = WNative → i = j).
Proof.
  apply reachable_safe in Hc. destruct (s_calls _ Hc) as [H1 H2]. split_and!.
  - rewrite H1, H2. by destruct (cleanup c); lia.
  - rewrite H1. by destruct (cleanup c); lia.
  - intros Hcl. assert (Hw : workers c = O).
    { apply (s_idle _ Hc). rewrite H1 in Hcl. destruct (cleanup c); auto; lia. }
    unfold workers in Hw. split; [destruct (pump c); done || lia|]. intros i p Hi.
    destruct (running p) eqn:Hr.
    + pose proof (running_pos _ _ _ Hi Hr). lia.
    + unfold running in Hr. by destruct (worker p).
  - apply (s_native _ Hc).
  - intros i j p q Hi Hj Hp Hq. eapply only_native; [apply (s_one _ Hc)|done|done| |];
      unfold running; by rewrite ?Hp, ?Hq.
Qed.

(** C15: Reports are delivered in the order the device produced them, without
    loss, duplication or invention: what Read has returned is a prefix of
    what the pump accepted; while the connection is live, the accepted
    reports are exactly the returned ones followed by the at most 64 in the
    ring; and each has the identifier and the size of the input layout. *)
Theorem conn_reads_fifo c (Hc : reachable c) :
  delivered c `prefix_of` queued c ∧
  (retiring c = false → queued c = delivered c ++ contents c ∧
     (length (contents c) ≤ InputQueueSize)%nat) ∧
  (∀ r, In r (delivered c) → fits (Input (layout c)) r = true).
Proof.
  destruct (reachable_fifo _ Hc) as ((Hl & Hh & Hn) & Hp & Hq). split_and!.
  - done.
  - intros Hr. rewrite Hr in Hq. split; [done|]. unfold contents. by rewrite length_map, length_seq.
  - intros r Hin. pose proof (reachable_shaped _ Hc) as Hs. unfold shaped in Hs.
    rewrite List.Forall_forall in Hs. apply Hs. destruct Hp as [ys ->]. apply in_app_iff. by left.
Qed.

(** C4: The outcome that Write returns is evidence.  When it says
    OutcomeNotSubmitted, either the report is never given to the device, now
    or in any later state, or the device took it and answered that it did
    not submit it; when it says OutcomeCompleted, the report was given to
    the device and the device completed it. *)
Theorem conn_write_evidence c i p o e (Hc : reachable c)
    (Hp : writes c !! i = Some p) (Hret : returned p = Some (o, e)) :
  (o = OutcomeNotSubmitted →
     (∀ c', rtc step c c' → i ∉ nativeWrites c') ∨
     (i ∈ nativeWrites c ∧ worker p = WGone ∧ w_result p = OutcomeNotSubmitted)) ∧
  (o = OutcomeCompleted →
     i ∈ nativeWrites c ∧ worker p = WGone ∧ w_result p = OutcomeCompleted).
Proof.
  apply reachable_safe in Hc. destruct (s_evidence _ Hc i p Hp o e Hret) as [Hno Hyes].
  assert (Hnever : refused i c → ∀ c', rtc step c c' → i ∉ nativeWrites c').
  { intros Hr c' Hst. apply refused_native; [|by eapply refused_forever].
    clear -Hc Hst. induction Hst as [|c c1 c' Hs _ IH]; [done|]. by eapply IH, step_safe. }
  assert (Hin : submitted p = true → i ∈ nativeWrites c).
  { intros Hs. apply (proj2 (s_native _ Hc)). by exists p. }
  split.
  - intros [[Hs Hg]|[Hg Hw]]%Hno; [left; apply Hnever; by exists p|].
    destruct (submitted p) eqn:Hs; [right; auto|left; apply Hnever; exists p; auto].
  - intros (Hg & Hs & Hw)%Hyes. auto.
Qed.

(** C14: Close retires the connection for good and cleans up exactly once.
    In every state after it, on every interleaving, the reason stays the
    first one, no new Read or Write is admitted, and no report is returned,
    queued or given to the device any more; and the cleanup can always run
    to its end, where the device has been closed once and the lease released
    once. *)
Theorem conn_retirement c c' (Hc : reachable c) (Hst : rtc step (retireLocked None c) c') :
  retired_frame (retireLocked None c) c' ∧
  (∀ early late rep, is_Some (read_admit true early late c').1 ∧
                     is_Some (write_admit true early late rep c').1) ∧
  ∃ c'', rtc step c' c'' ∧ cleanup c'' = CleanupDone ∧ releases c'' = 1%nat ∧ closeCalls c'' = 1%nat.
Proof.
  pose proof (retired_final _ _ Hst (retiring_retire None c)) as Hf.
  assert (Hr : retiring c' = true) by apply Hf.
  assert (Hs : safe c').
  { apply reachable_safe in Hc. apply (step_safe _ _ (close_begins c)) in Hc.
    clear -Hc Hst. induction Hst as [|c0 c1 c2 Hs _ IH]; [done|]. by eapply IH, step_safe. }
  split_and!; [done| |by apply drain].
  intros early late rep. split; [by apply read_refused|by apply write_refused].
Qed.

(** *** A concrete run *)
Definition demo_layout : ReportLayout := MkLayout (MkSpec 0 1) (MkSpec 0 1).
Definition demo_report : Report := MkReport 0 [7].
Definition demo_pending : pendingWrite :=
  MkPending demo_report WStarting false false OutcomeUnknown None None.
Definition demo_pending1 : pendingWrite :=
  MkPending demo_report WNative true false OutcomeUnknown None None.
Definition demo_pending2 : pendingWrite :=
  MkPending demo_report WGone true true OutcomeCompleted None None.

(** The pump queues a report, Read returns it, Write completes one. *)
Definition demo_start : connection := Eval vm_compute in newConnection "hid-1" demo_layout.
Definition demo_reading : connection := Eval vm_compute in set_pump PumpReading demo_start.
Definition demo_got : connection := Eval vm_compute in set_pump (PumpGot (Ok demo_report)) demo_reading.
Definition demo_queued : connection := Eval vm_compute in pump_handle (Ok demo_report) demo_got.
Definition demo_admitted : connection := Eval vm_compute in (read_admit true None None demo_queued).2.
Definition demo_read : connection := Eval vm_compute in (read_turn None demo_admitted).2.
Definition demo_accepted : connection :=
  Eval vm_compute in (write_admit true None None demo_report demo_read).2.
Definition demo_native : connection := Eval vm_compute in perform_start None 0 demo_pending demo_accepted.
Definition demo_finished : connection :=
  Eval vm_compute in perform_finish (Some OutcomeCompleted) None 0 demo_pending1 demo_native.
Definition demo_written : connection :=
  Eval vm_compute in write_return None 0 demo_pending2 demo_finished.

Lemma step_to c d c' : step c d → d = c' → step c c'.
Proof. by intros ? <-. Qed.

Ltac demo_step c' rule :=
  apply (rtc_l _ _ c'); [eapply step_to; [apply rule|vm_compute; reflexivity]; vm_compute; auto|].

Lemma demo_reachable : reachable demo_written.
Proof.
  exists "hid-1"%string, demo_layout. change (newConnection "hid-1" demo_layout) with demo_start.
  demo_step demo_reading pump_read.
  demo_step demo_got (pump_returns demo_reading (Ok demo_report)).
  demo_step demo_queued (pump_handles demo_got (Ok demo_report)).
  demo_step demo_admitted (read_begins demo_queued None None).
  demo_step demo_read (read_turns demo_admitted None).
  demo_step demo_accepted (write_begins demo_read None None demo_report).
  demo_step demo_native (worker_starts demo_accepted None 0 demo_pending).
  demo_step demo_finished (worker_finishes demo_native (Some OutcomeCompleted) None 0 demo_pending1).
  demo_step demo_written (write_returns demo_finished None 0 demo_pending2).
  apply rtc_refl.
Qed.

Lemma conn_driver_contract_witness :
  nativeWrites demo_written = [O] ∧ NoDup (nativeWrites demo_written).
Proof. split; [done|]. apply (conn_driver_contract demo_written demo_reachable). Defined.

Lemma conn_reads_fifo_witness :
  delivered demo_written = [demo_report] ∧ delivered demo_written `prefix_of` queued demo_written.
Proof. split; [done|]. apply (conn_reads_fifo demo_written demo_reachable). Defined.

Lemma conn_write_evidence_witness : O ∈ nativeWrites demo_written.
Proof.
  refine (proj1 (proj2 (conn_write_evidence demo_written 0
    (MkPending demo_report WGone true true OutcomeCompleted None (Some (OutcomeCompleted, None)))
    OutcomeCompleted None demo_reachable eq_refl eq_refl) eq_refl)).
Defined.

Lemma conn_retirement_witness :
  retired_frame (retireLocked None demo_written) (retireLocked None demo_written).
Proof.
  refine (proj1 (conn_retirement demo_written _ demo_reachable _)). apply rtc_refl.
Defined.
End ConnectionProps.
