(* ===== verification/HidNative.v ===== *)
(** * The HID package: src/pkg/hid/{metadata,resources,native}.go

    Endpoint matching, the process-wide accounting of connections, bytes and
    the inventory slot, and [Enumerate] and [Open] with their native workers,
    as one transition system in which opened connections take the steps of
    [HidConnection]. *)
From S2P Require Import Prelude GoErrors GoIO Descriptors HidConnection.

(** ** metadata.go

    The endpoints of the package and of the driver have the same fields and
    are one record here, which makes [publicEndpoint], [nativeEndpoint] and
    [publicLayout] identities. *)
Module Metadata.
Definition MaxMetadataSize : Z := 4096.

Definition slen (s : string) : Z := Z.of_nat (String.length s).

Definition matchesField {T} `{EqDecision T} (expected actual : Field T) : bool :=
  negb (Known expected) || Known actual && bool_decide (Value expected = Value actual).

Definition matchesEndpoint (expected actual : Endpoint) : bool :=
  String.eqb (EndpointID expected) (EndpointID actual)
  && (str_empty (EPath expected) || String.eqb (EPath expected) (EPath actual))
  && matchesField (EVendorID expected) (EVendorID actual)
  && matchesField (EProductID expected) (EProductID actual)
  && matchesField (EUsage expected) (EUsage actual)
  && matchesField (EInterface expected) (EInterface actual)
  && matchesField (ESerial expected) (ESerial actual)
  && matchesField (EManufacturer expected) (EManufacturer actual)
  && matchesField (EProduct expected) (EProduct actual)
  && (bool_decide (EBus expected = BusUnknown) || bool_decide (EBus expected = EBus actual)).

(** The closure [check] on the pair (match, unknown). *)
Definition check {T} `{EqDecision T} (requested : option T) (known : bool) (value : T)
    (st : bool * bool) : bool * bool :=
  match requested with
  | None => st
  | Some want =>
      if negb known then (st.1, true)
      else if negb (bool_decide (value = want)) then (false, st.2) else st
  end.

Definition matchFilter (e : Endpoint) (f : Filter) : bool * bool :=
  let st := check (FVendorID f) (Known (EVendorID e)) (Value (EVendorID e)) (true, false) in
  let st := check (FProductID f) (Known (EProductID e)) (Value (EProductID e)) st in
  let st := check (FUsage f) (Known (EUsage e)) (Value (EUsage e)) st in
  let '(m, unknown) := check (FBus f) (negb (bool_decide (EBus e = BusUnknown))) (EBus e) st in
  if negb m then (false, false) else (negb unknown, unknown).

Definition boundedEndpoint (e : Endpoint) : bool :=
  forallb (λ value, slen value <=? MaxMetadataSize)
    [EndpointID e; EPath e; Value (ESerial e); Value (EManufacturer e); Value (EProduct e)].
End Metadata.

(** ** resources.go *)
Module Resources.
Definition maxConnections : Z := 64.
Definition maxNativeBytes : Z := 64 * 1024 * 1024.
Definition connectionBytes : Z := 768 * 1024.
Definition enumerationBytes : Z := 16 * 1024 * 1024.

(** [enumeration]: whether the one-slot channel is full. *)
Record resources := MkResources {
  endpoints : gmap string bool;
  nbytes : Z;
  enumeration : bool;
}.

Definition initial : resources := MkResources ∅ 0 false.

Definition reserveEndpoint (id : string) (r : resources) : option goerror * resources :=
  if default false (endpoints r !! id) then (Some HidErr.ErrBusy, r)
  else if (maxConnections <=? Z.of_nat (size (endpoints r)))
          || (maxNativeBytes - connectionBytes <? nbytes r)
  then (Some HidErr.ErrResourceLimit, r)
  else (None, MkResources (<[id := true]> (endpoints r)) (nbytes r + connectionBytes) (enumeration r)).

Definition releaseEndpoint (id : string) (r : resources) : resources :=
  MkResources (delete id (endpoints r)) (nbytes r - connectionBytes) (enumeration r).

(** [reserveEnumeration]: the channel send, which blocks while the slot is
    taken, then the budget check under the mutex. *)
Definition enumeration_send (r : resources) : option resources :=
  if enumeration r then None else Some (MkResources (endpoints r) (nbytes r) true).
Definition enumeration_budget (r : resources) : option goerror * resources :=
  if maxNativeBytes - enumerationBytes <? nbytes r
  then (Some HidErr.ErrResourceLimit, MkResources (endpoints r) (nbytes r) false)
  else (None, MkResources (endpoints r) (nbytes r + enumerationBytes) (enumeration r)).

Definition releaseEnumeration (r : resources) : resources :=
  MkResources (endpoints r) (nbytes r - enumerationBytes) false.
End Resources.

(** ** native.go *)
Module NativeHID.
Import HidOp Connection Metadata Resources.

Definition MaxInventoryEndpoints : nat := 1024.
Definition MaxReportSize : Z := 4096.

Definition join (errs : list (option goerror)) : option goerror :=
  match omap id errs with [] => None | es => Some (EJoin es) end.

(** *** The inventory worker *)
Record raw_snapshot := MkRaw {
  raw_endpoints : list Endpoint;
  raw_complete : bool;
  raw_warnings : list (option goerror);
}.

(** A list cut to the limit: the pair of the list and whether it was cut. *)
Definition bound_list {A} (l : list A) : list A * bool :=
  if (MaxInventoryEndpoints <? length l)%nat then (take MaxInventoryEndpoints l, true) else (l, false).

Definition clear_strings (e : Endpoint) : Endpoint :=
  MkEndpoint (EndpointID e) (EPath e) (EVendorID e) (EProductID e) (EUsage e) (EInterface e) (EBus e)
    (MkField ""%string false) (MkField ""%string false) (MkField ""%string false).

Definition unknown_metadata (e : Endpoint) : goerror :=
  operation "filter" (EndpointID e)
    (EFmt "metadata required by the filter is unknown: %w" [HidErr.ErrIO]).

Definition add_endpoint (options : EnumerateOptions) (snapshot : Snapshot) (item : Endpoint) : Snapshot :=
  let endpoint := if ResolveStrings options then item else clear_strings item in
  let '(m, unknown) := matchFilter endpoint (OFilter options) in
  let snapshot :=
    if unknown
    then MkSnapshot (Endpoints snapshot) false (Warnings snapshot ++ [unknown_metadata endpoint])
    else snapshot in
  if m then MkSnapshot (Endpoints snapshot ++ [endpoint]) (Complete snapshot) (Warnings snapshot)
  else snapshot.

(** What the worker of [Enumerate] makes of a native observation. *)
Definition collect (options : EnumerateOptions) (raw : raw_snapshot) (err : option goerror)
    : Snapshot * option goerror :=
  let '(eps, cut) := bound_list (raw_endpoints raw) in
  let err := if cut then join [err; Some HidErr.ErrResourceLimit] else err in
  let '(warns, cutw) := bound_list (raw_warnings raw) in
  let err := if cutw then join [err; Some HidErr.ErrResourceLimit] else err in
  let start := MkSnapshot [] (raw_complete raw && negb cut && negb cutw)
                 (map (operation "enumerate" "") (omap id warns)) in
  let snapshot := List.fold_left (add_endpoint options) eps start in
  let snapshot := match err with
                  | Some _ => MkSnapshot (Endpoints snapshot) false (Warnings snapshot)
                  | None => snapshot
                  end in
  (snapshot, operationError "enumerate" "" err).

(** *** Open *)

(** [nilctx]: the context is nil; [early]: what [ctx.Err()] answers. *)
Definition open_admit (nilctx : bool) (early : option goerror) (endpoint : Endpoint) (r : resources)
    : option goerror * resources :=
  let id := EndpointID endpoint in
  if nilctx || str_empty id || negb (boundedEndpoint endpoint)
  then (Some (operation "open" id HidErr.ErrInvalidArgument), r)
  else
    match early with
    | Some e => (Some (operation "open" id e), r)
    | None => let '(err, r) := reserveEndpoint id r in (operationError "open" id err, r)
    end.

(** What the opened device says of itself. *)
Record device := MkDev { d_endpoint : Endpoint; d_layout : ReportLayout }.

Definition layout_ok (l : ReportLayout) : bool :=
  (0 <? Size (Input l)) && (0 <? Size (Output l))
  && (Size (Input l) <=? MaxReportSize) && (Size (Output l) <=? MaxReportSize).

(** The checks on what the native open answered. *)
Definition open_check (endpoint : Endpoint) (dev : option device) (err : option goerror) : option goerror :=
  match err, dev with
  | Some e, _ => Some e
  | None, None => Some HidErr.ErrIO
  | None, Some d =>
      if negb (matchesEndpoint endpoint (d_endpoint d)) then Some HidErr.ErrStaleEndpoint
      else if negb (layout_ok (d_layout d)) then Some HidErr.ErrUnsupported
      else None
  end.

(** An Open: its worker running (with [abandoned]), finished without a
    connection, or finished with one. *)
Inductive open_pc :=
  | Opening (abandoned : bool)
  | Refused (had_device : bool) (resultErr : option goerror)
  | Connected (d : device) (c : connection).

(** [closes]: device.Close calls of the worker; [answer]: what Open returned,
    [Some None] a connection. *)
Record open_op := MkOpen {
  requested : Endpoint;
  pc : open_pc;
  closes : nat;
  answer : option (option goerror);
}.

Inductive enum_pc := EWaiting | ESlot | ERunning | EGone.

Record native := MkNative {
  shared : resources;
  opens : list open_op;
  enums : list enum_pc;
}.

Definition start : native := MkNative initial [] [].

Definition set_open (i : nat) (op : open_op) (r : resources) (s : native) : native :=
  MkNative r (<[i := op]> (opens s)) (enums s).
Definition set_enum (i : nat) (p : enum_pc) (r : resources) (s : native) : native :=
  MkNative r (opens s) (<[i := p]> (enums s)).

(** The worker of [Open] after the native call; [closeErr] is what
    [device.Close] answers, if it is called. *)
Definition open_finish (i : nat) (op : open_op) (abandoned : bool) (dev : option device)
    (err closeErr : option goerror) (s : native) : native :=
  let id := EndpointID (requested op) in
  match open_check (requested op) dev err, abandoned, dev with
  | None, false, Some d =>
      set_open i (MkOpen (requested op)
                    (Connected d (newConnection (EndpointID (d_endpoint d)) (d_layout d)))
                    (closes op) (answer op)) (shared s) s
  | err, _, _ =>
      let err := match dev with Some _ => join [err; closeErr] | None => err end in
      let n := match dev with Some _ => S (closes op) | None => closes op end in
      set_open i (MkOpen (requested op) (Refused (bool_decide (is_Some dev)) (operationError "open" id err))
                    n (answer op)) (releaseEndpoint id (shared s)) s
  end.

(** The return of [Open]: the worker's result, or abandonment when [cancel]
    is the context's error and the worker has not finished. *)
Definition open_answer (i : nat) (op : open_op) (cancel : option goerror) (s : native) : option native :=
  let give p a := Some (set_open i (MkOpen (requested op) p (closes op) (Some a)) (shared s) s) in
  match pc op, cancel with
  | Opening _, None => None
  | Opening _, Some e => give (Opening true) (Some (operation "open" (EndpointID (requested op)) e))
  | Refused d e, _ => give (Refused d e) e
  | Connected d c, _ => give (Connected d c) None
  end.

(** A step of a connection; its cleanup's [releaseEndpoint] is the global one. *)
Definition conn_advance (i : nat) (op : open_op) (d : device) (c c' : connection) (s : native) : native :=
  set_open i (MkOpen (requested op) (Connected d c') (closes op) (answer op))
    (if (releases c <? releases c')%nat then releaseEndpoint (EndpointID (requested op)) (shared s)
     else shared s) s.

Inductive nstep : native → native → Prop :=
  | open_begins early e s : (open_admit false early e (shared s)).1 = None →
      nstep s (MkNative (open_admit false early e (shared s)).2
                 (opens s ++ [MkOpen e (Opening false) 0 None]) (enums s))
  | open_finishes i op abandoned dev err closeErr s :
      opens s !! i = Some op → pc op = Opening abandoned →
      nstep s (open_finish i op abandoned dev err closeErr s)
  | open_answers i op cancel s s' :
      opens s !! i = Some op → answer op = None → open_answer i op cancel s = Some s' → nstep s s'
  | conn_steps i op d c c' s :
      opens s !! i = Some op → pc op = Connected d c → step c c' →
      nstep s (conn_advance i op d c c' s)
  | enum_begins s : nstep s (MkNative (shared s) (opens s) (enums s ++ [EWaiting]))
  | enum_cancelled i s : enums s !! i = Some EWaiting → nstep s (set_enum i EGone (shared s) s)
  | enum_sends i r s : enums s !! i = Some EWaiting → enumeration_send (shared s) = Some r →
      nstep s (set_enum i ESlot r s)
  | enum_admits i s : enums s !! i = Some ESlot →
      nstep s (set_enum i (match (enumeration_budget (shared s)).1 with None => ERunning | Some _ => EGone end)
                 (enumeration_budget (shared s)).2 s)
  | enum_ends i s : enums s !! i = Some ERunning →
      nstep s (set_enum i EGone (releaseEnumeration (shared s)) s).
End NativeHID.

Module NativeFacts.
Import HidOp Connection ConnectionSafety ConnectionProps Metadata Resources NativeHID.

(** *** Counting *)
Lemma insert_split {A} (l : list A) i x y : l !! i = Some x →
  ∃ l1 l2, l = l1 ++ x :: l2 ∧ <[i := y]> l = l1 ++ y :: l2 ∧ length l1 = i.
Proof.
  intros Hi. pose proof (lookup_lt_Some _ _ _ Hi). exists (take i l), (drop (S i) l). split_and!.
  - by rewrite take_drop_middle.
  - by apply insert_take_drop.
  - rewrite length_take. lia.
Qed.

Definition total {A} (f : A → nat) (l : list A) : nat := list_sum (map f l).

Lemma total_app {A} (f : A → nat) l k : total f (l ++ k) = (total f l + total f k)%nat.
Proof. unfold total. by rewrite map_app, list_sum_app. Qed.

Lemma total_insert {A} (f : A → nat) l i x y : l !! i = Some x →
  (total f (<[i := y]> l) + f x = total f l + f y)%nat.
Proof.
  intros (l1 & l2 & Hl & Hi & _)%(insert_split _ _ _ y). rewrite Hi, Hl, !total_app.
  unfold total. simpl. lia.
Qed.

Lemma total_lookup {A} (f : A → nat) l i x : l !! i = Some x → (f x ≤ total f l)%nat.
Proof.
  intros (l1 & l2 & Hl & _ & _)%(insert_split _ _ _ x). rewrite Hl, total_app.
  unfold total. simpl. lia.
Qed.

Lemma total_two {A} (f : A → nat) l i j x y : l !! i = Some x → l !! j = Some y → i ≠ j →
  (f x + f y ≤ total f l)%nat.
Proof.
  intros Hi Hj Hne. destruct (insert_split _ _ _ x Hi) as (l1 & l2 & Hl & _ & Hlen).
  rewrite Hl in Hj |- *. rewrite total_app.
  destruct (decide (j < i)%nat).
  - rewrite lookup_app_l in Hj by lia. pose proof (total_lookup f _ _ _ Hj). unfold total in *. simpl. lia.
  - rewrite lookup_app_r in Hj by lia. destruct (j - length l1)%nat as [|k] eqn:E; [lia|].
    simpl in Hj. pose proof (total_lookup f _ _ _ Hj). unfold total in *. simpl. lia.
Qed.

(** *** Leases *)
Definition held (op : open_op) : bool :=
  match pc op with
  | Opening _ => true
  | Refused _ _ => false
  | Connected _ c => (releases c =? 0)%nat
  end.

Definition lease (op : open_op) : list string :=
  if held op then [EndpointID (requested op)] else [].
Definition leases (ops : list open_op) : list string := concat (map lease ops).

Lemma leases_app l k : leases (l ++ k) = leases l ++ leases k.
Proof. unfold leases. by rewrite map_app, concat_app. Qed.

Lemma leases_insert ops i p q : ops !! i = Some p →
  ∃ l1 l2, leases ops = l1 ++ lease p ++ l2 ∧ leases (<[i := q]> ops) = l1 ++ lease q ++ l2.
Proof.
  intros (o1 & o2 & Ho & Hi & _)%(insert_split _ _ _ q). exists (leases o1), (leases o2).
  rewrite Hi, Ho, !leases_app. done.
Qed.

Lemma leases_keep ops i p q : ops !! i = Some p → lease q = lease p →
  leases (<[i := q]> ops) = leases ops.
Proof. intros (l1 & l2 & -> & ->)%(leases_insert _ _ _ q) ->. done. Qed.

Lemma leases_unique ops i j p q : NoDup (leases ops) → ops !! i = Some p → ops !! j = Some q →
  held p = true → held q = true → EndpointID (requested p) = EndpointID (requested q) → i = j.
Proof.
  intros Hnd Hi Hj Hp Hq Hid. destruct (decide (i = j)) as [|Hne]; [done|]. exfalso.
  destruct (insert_split _ _ _ p Hi) as (o1 & o2 & Ho & _ & Hlen).
  rewrite Ho, leases_app in Hnd. change (leases (p :: o2)) with (lease p ++ leases o2) in Hnd.
  unfold lease at 1 in Hnd. rewrite Hp in Hnd.
  apply list.NoDup_app in Hnd as (_ & Hd1 & Hd2). apply list.NoDup_app in Hd2 as (_ & Hd2 & _).
  assert (Hin : ∀ o k, o !! k = Some q → EndpointID (requested q) ∈ leases o).
  { intros o k (a & b & -> & _ & _)%(insert_split _ _ _ q). rewrite leases_app.
    change (leases (q :: b)) with (lease q ++ leases b). unfold lease. rewrite Hq. set_solver. }
  rewrite Ho in Hj. destruct (decide (j < i)%nat).
  - rewrite lookup_app_l in Hj by lia. apply Hin in Hj. apply (Hd1 _ Hj). rewrite <-Hid. set_solver.
  - rewrite lookup_app_r in Hj by lia. destruct (j - length o1)%nat as [|k] eqn:E; [lia|].
    simpl in Hj. apply Hin in Hj. apply (Hd2 (EndpointID (requested p))); [set_solver|by rewrite Hid].
Qed.

(** *** Inventory workers *)
Definition holds (p : enum_pc) : nat := match p with ESlot | ERunning => 1 | _ => 0 end.
Definition runs (p : enum_pc) : nat := match p with ERunning => 1 | _ => 0 end.

Lemma runs_holds es : (total runs es ≤ total holds es)%nat.
Proof.
  induction es as [|p es IH]; [done|]. unfold total in *. simpl. destruct p; simpl; lia.
Qed.

(** *** One Open *)
Definition op_ok (op : open_op) : Prop :=
  match pc op with
  | Opening abandoned =>
      closes op = O ∧ (if abandoned then ∃ e, answer op = Some (Some e) else answer op = None)
  | Refused had e =>
      closes op = b2n had ∧ answer op ≠ Some None ∧ (e = None → ∃ e', answer op = Some (Some e'))
  | Connected d c =>
      closes op = O ∧ (answer op = None ∨ answer op = Some None) ∧ reachable c ∧
      endpoint c = EndpointID (requested op) ∧
      matchesEndpoint (requested op) (d_endpoint d) = true ∧ layout_ok (d_layout d) = true
  end.

Record accounted (s : native) : Prop := {
  a_dup : NoDup (leases (opens s));
  a_dom : dom (endpoints (shared s)) = list_to_set (leases (opens s));
  a_true : ∀ id b, endpoints (shared s) !! id = Some b → b = true;
  a_slot : total holds (enums s) = b2n (enumeration (shared s));
  a_bytes : nbytes (shared s) = connectionBytes * len (leases (opens s)) +
                                enumerationBytes * Z.of_nat (total runs (enums s));
  a_max : nbytes (shared s) ≤ maxNativeBytes;
  a_len : len (leases (opens s)) ≤ maxConnections;
  a_ops : ∀ i op, opens s !! i = Some op → op_ok op;
}.

Lemma accounted_start : accounted start.
Proof.
  split; simpl; first [done|constructor|by rewrite dom_empty_L|intros i op; by rewrite lookup_nil].
Qed.

Lemma ops_insert (ops : list open_op) (i : nat) (op : open_op) : (∀ j o, ops !! j = Some o → op_ok o) → op_ok op →
  ∀ j o, <[i := op]> ops !! j = Some o → op_ok o.
Proof.
  intros Hall Hop j o [(<- & <- & ?)|(? & Hj)]%list_lookup_insert_Some; [done|by eapply Hall].
Qed.

(** A step of one Open that keeps its lease. *)
Lemma accounted_keep i op op' s : accounted s → opens s !! i = Some op →
  lease op' = lease op → op_ok op' → accounted (set_open i op' (shared s) s).
Proof.
  intros [H1 H2 H3 H4 H5 H6 H7 H8] Hi Hl Hok.
  split; simpl; rewrite ?(leases_keep _ _ _ _ Hi Hl); try done. by apply ops_insert.
Qed.

(** A step of one Open that gives up its lease. *)
Lemma accounted_release i op op' s : accounted s → opens s !! i = Some op →
  held op = true → held op' = false → op_ok op' →
  accounted (set_open i op' (releaseEndpoint (EndpointID (requested op)) (shared s)) s).
Proof.
  intros [H1 H2 H3 H4 H5 H6 H7 H8] Hi Hh Hh' Hok.
  destruct (leases_insert _ _ _ op' Hi) as (l1 & l2 & Hl & Hl').
  unfold lease in Hl, Hl'. rewrite Hh in Hl. rewrite Hh' in Hl'. cbn [app] in Hl'.
  rewrite Hl in *. unfold connectionBytes, maxNativeBytes in *.
  rewrite len_app in H5, H7. cbn [app] in H5, H7. rewrite len_cons in H5, H7.
  split; simpl; rewrite ?Hl', ?len_app; try done.
  - apply list.NoDup_app in H1 as (Ha & Hb & Hc). apply list.NoDup_app in Hc as (_ & _ & Hc).
    apply list.NoDup_app. split_and!; [done|set_solver|done].
  - rewrite dom_delete_L, H2. apply list.NoDup_app in H1 as (_ & Hb & Hc).
    apply list.NoDup_app in Hc as (_ & Hc & _). set_solver.
  - intros id b Hb. apply lookup_delete_Some in Hb as [_ Hb]. by eapply H3.
  - unfold connectionBytes. lia.
  - unfold connectionBytes, maxNativeBytes. lia.
  - lia.
  - by apply ops_insert.
Qed.

(** Admission of a new Open. *)
Lemma accounted_admit early e s : accounted s → (open_admit false early e (shared s)).1 = None →
  accounted (MkNative (open_admit false early e (shared s)).2
    (opens s ++ [MkOpen e (Opening false) 0 None]) (enums s)).
Proof.
  intros [H1 H2 H3 H4 H5 H6 H7 H8]. unfold open_admit. cbn [orb].
  destruct (_ || _); [done|]. destruct early; [done|]. unfold reserveEndpoint.
  destruct (default false (endpoints (shared s) !! EndpointID e)) eqn:Eb; [done|].
  destruct (_ || _) eqn:El; [done|]. intros _. cbn [snd].
  apply orb_false_iff in El as [El1 El2]. apply Z.leb_gt in El1. apply Z.ltb_ge in El2.
  assert (Hno : endpoints (shared s) !! EndpointID e = None).
  { destruct (endpoints (shared s) !! EndpointID e) as [b|] eqn:E; [|done].
    apply H3 in E as Hb. by subst. }
  assert (Hnot : EndpointID e ∉ leases (opens s)).
  { apply not_elem_of_dom in Hno. rewrite H2 in Hno. set_solver. }
  rewrite <-size_dom, H2, size_list_to_set in El1 by done.
  assert (Hle : leases (opens s ++ [MkOpen e (Opening false) 0 None]) = leases (opens s) ++ [EndpointID e])
    by (by rewrite leases_app).
  split; simpl; rewrite ?Hle, ?len_app; try done.
  - apply list.NoDup_app. split_and!; [done|set_solver|apply NoDup_singleton].
  - rewrite dom_insert_L, H2. set_solver.
  - intros id b [[_ <-]|[_ Hb]]%lookup_insert_Some; [done|by eapply H3].
  - change (len [EndpointID e]) with 1. lia.
  - lia.
  - change (len [EndpointID e]) with 1. unfold len in *. lia.
  - intros i op [Hi|[_ Hi]]%lookup_app_Some; [by eapply H8|].
    apply list_lookup_singleton_Some in Hi as [_ <-]. done.
Qed.

(** Steps of the inventory workers. *)
Lemma accounted_enum i p q r s : accounted s → enums s !! i = Some p →
  endpoints r = endpoints (shared s) →
  (b2n (enumeration r) + holds p = b2n (enumeration (shared s)) + holds q)%nat →
  nbytes r + enumerationBytes * Z.of_nat (runs p) =
    nbytes (shared s) + enumerationBytes * Z.of_nat (runs q) →
  nbytes r ≤ maxNativeBytes → accounted (set_enum i q r s).
Proof.
  intros [H1 H2 H3 H4 H5 H6 H7 H8] Hi He Hs Hb Hm.
  pose proof (total_insert holds _ _ _ q Hi). pose proof (total_insert runs _ _ _ q Hi).
  split; simpl; rewrite ?He; try done; [lia|]. unfold enumerationBytes in *. lia.
Qed.

(** *** Connections *)
Lemma step_releases c c' : safe c → step c c' →
  releases c' = releases c ∨ (releases c = O ∧ releases c' = 1%nat).
Proof.
  intros Hs Hst. pose proof (step_safe _ _ Hst Hs) as Hs'.
  destruct (s_calls _ Hs) as [_ H1]. destruct (s_calls _ Hs') as [_ H2].
  assert (Hd : cleanup c = CleanupDone → releases c' = releases c).
  { intros Hc. clear H2. destruct Hst as [ | | c r| c early late| c cancel| | c e| c early late rep
      | c cancel i p| c raw err i p| c cancel i p| c | | ]; try done; try congruence.
    all: unfold pump_handle, read_admit, read_turn, dequeue, write_admit, perform_start,
      perform_finish, write_return, retireLocked; repeat case_match; simplify_eq/=; done. }
  destruct (cleanup c) eqn:E; destruct (cleanup c'); rewrite H1, H2 in *; auto.
  all: rewrite H1; by destruct (Hd eq_refl).
Qed.
End NativeFacts.

Module NativeProps.
Import HidOp Connection ConnectionSafety ConnectionProps Metadata Resources NativeHID NativeFacts.

Lemma endpoint_step c c' : step c c' → endpoint c' = endpoint c.
Proof.
  destruct 1; try done;
    unfold pump_handle, read_admit, read_turn, dequeue, write_admit, perform_start,
      perform_finish, write_return, retireLocked; repeat case_match; simplify_eq/=; done.
Qed.

Lemma reachable_step c c' : reachable c → step c c' → reachable c'.
Proof. intros (id & lay & Hr) Hs. exists id, lay. by eapply rtc_r. Qed.

Lemma join_some e l : join (Some e :: l) ≠ None.
Proof. done. Qed.

Lemma open_check_ok ep dev : ∀ err, open_check ep dev err = None →
  ∃ d, dev = Some d ∧ matchesEndpoint ep (d_endpoint d) = true ∧ layout_ok (d_layout d) = true.
Proof.
  intros [e|]; [done|]. destruct dev as [d|]; [|done]. simpl.
  destruct (matchesEndpoint ep (d_endpoint d)) eqn:Em; [|done].
  destruct (layout_ok (d_layout d)) eqn:El; [|done]. by exists d.
Qed.

Lemma matchesEndpoint_id a b : matchesEndpoint a b = true → EndpointID a = EndpointID b.
Proof.
  unfold matchesEndpoint. intros H. repeat (apply andb_prop in H as [H _]).
  by apply String.eqb_eq.
Qed.

Lemma step_finish i op ab dev err ce s : accounted s → opens s !! i = Some op →
  pc op = Opening ab → accounted (open_finish i op ab dev err ce s).
Proof.
  intros Hs Hi Hp. pose proof (a_ops _ Hs _ _ Hi) as Hok. unfold op_ok in Hok. rewrite Hp in Hok.
  destruct Hok as [Hc Ha]. assert (Hh : held op = true) by (unfold held; by rewrite Hp).
  assert (Hrel : ∀ had e n, n = b2n had → (ab = false → e ≠ None) →
    accounted (set_open i (MkOpen (requested op) (Refused had e) n (answer op))
      (releaseEndpoint (EndpointID (requested op)) (shared s)) s)).
  { intros had e n Hn He. apply accounted_release; [done|done|done|done|]. unfold op_ok; simpl.
    split; [done|]. destruct ab; [destruct Ha as [e' ->]|rewrite Ha].
    - split; [done|]. intros _. by exists e'.
    - split; [done|]. intros Hn'. by destruct (He eq_refl). }
  unfold open_finish. destruct (open_check (requested op) dev err) as [e|] eqn:Ec.
  - destruct dev as [d|]; apply Hrel; rewrite ?Hc; done.
  - apply open_check_ok in Ec as (d & -> & Hm & Hl). destruct ab.
    + apply Hrel; [by rewrite Hc|done].
    + apply (accounted_keep i op); [done|done| |].
      * unfold lease, held. rewrite Hp. done.
      * unfold op_ok; simpl. split_and!; [done|by left| | |done|done].
        -- eexists _, _. apply rtc_refl.
        -- symmetry. by apply matchesEndpoint_id.
Qed.

Lemma step_accounted s s' : nstep s s' → accounted s → accounted s'.
Proof.
  intros Hst Hs.
  destruct Hst as [early e s Ha|i op ab dev err ce s Hi Hp|i op cancel s s' Hi Ha Hg|i op d c c' s Hi Hp Hc
    |s|i s Hi|i r s Hi Hr|i s Hi|i s Hi].
  - by apply accounted_admit.
  - by apply step_finish.
  - pose proof (a_ops _ Hs _ _ Hi) as Hok. unfold op_ok in Hok. unfold open_answer in Hg.
    destruct (pc op) as [ab|had e|d c] eqn:Hp; [destruct cancel; [|done]| |]; simplify_eq;
      (apply (accounted_keep i op); [done|done|unfold lease, held; by rewrite Hp|]); unfold op_ok; simpl.
    + split; [apply Hok|by eexists].
    + destruct Hok as (H1 & H2 & H3). split_and!; [done| |].
      * intros [= ->]. destruct H3 as [e' He']; [done|]. congruence.
      * intros ->. destruct H3 as [e' He']; [done|]. congruence.
    + destruct Hok as (H1 & H2 & H3 & H4 & H5 & H6). split_and!; try done. by right.
  - pose proof (a_ops _ Hs _ _ Hi) as Hok. unfold op_ok in Hok. rewrite Hp in Hok.
    destruct Hok as (H1 & H2 & H3 & H4 & H5 & H6).
    assert (Hok' : op_ok (MkOpen (requested op) (Connected d c') (closes op) (answer op))).
    { unfold op_ok; simpl. split_and!; try done; [by eapply reachable_step|].
      by rewrite (endpoint_step _ _ Hc). }
    unfold conn_advance. destruct (step_releases c c' (reachable_safe _ H3) Hc) as [He|[E0 E1]].
    + rewrite He, Nat.ltb_irrefl. apply (accounted_keep i op); [done|done| |done].
      unfold lease, held. rewrite Hp. simpl. by rewrite He.
    + rewrite E0, E1. simpl. apply accounted_release; [done|done| | |done]; unfold held.
      * by rewrite Hp, E0.
      * simpl. by rewrite E1.
  - destruct Hs as [H1 H2 H3 H4 H5 H6 H7 H8]. split; simpl; rewrite ?total_app; try done.
    + unfold total at 2. simpl. lia.
    + unfold total at 2. simpl. by rewrite Nat.add_0_r.
  - eapply accounted_enum; [done|done|done|simpl; lia|simpl; lia|]. apply (a_max _ Hs).
  - unfold enumeration_send in Hr. destruct (enumeration (shared s)) eqn:E; [done|]. simplify_eq.
    eapply accounted_enum; [done|done|done| |simpl; lia|apply (a_max _ Hs)]. simpl. by rewrite E.
  - pose proof (total_lookup holds _ _ _ Hi) as Hle. rewrite (a_slot _ Hs) in Hle. simpl in Hle.
    destruct (enumeration (shared s)) eqn:E; [|simpl in Hle; lia].
    unfold enumeration_budget. destruct (Z.ltb_spec (maxNativeBytes - enumerationBytes) (nbytes (shared s)));
      cbn [fst snd]; (eapply accounted_enum; [done|done|done|simpl; rewrite ?E; simpl; lia| |]).
    + simpl. lia.
    + apply (a_max _ Hs).
    + simpl. lia.
    + simpl. unfold maxNativeBytes, enumerationBytes in *. lia.
  - pose proof (total_lookup holds _ _ _ Hi) as Hle. rewrite (a_slot _ Hs) in Hle. simpl in Hle.
    destruct (enumeration (shared s)) eqn:E; [|simpl in Hle; lia].
    pose proof (a_max _ Hs). eapply accounted_enum; [done|done|done|simpl; rewrite ?E; simpl; lia| |];
      simpl; unfold enumerationBytes in *; lia.
Qed.

Definition nreachable (s : native) : Prop := rtc nstep start s.

Lemma nreachable_accounted s : nreachable s → accounted s.
Proof.
  intros Hr. pattern s. revert s Hr. apply rtc_ind_r; [apply accounted_start|].
  intros; by eapply step_accounted.
Qed.

(** *** The filter *)
Definition constrains {T} (requested : option T) (known : bool) (value : T) : Prop :=
  ∀ want, requested = Some want → known = true ∧ value = want.
Definition consistent {T} (requested : option T) (known : bool) (value : T) : Prop :=
  ∀ want, requested = Some want → known = true → value = want.

(** Every requested field is known and equal. *)
Definition satisfies (f : Filter) (e : Endpoint) : Prop :=
  constrains (FVendorID f) (Known (EVendorID e)) (Value (EVendorID e)) ∧
  constrains (FProductID f) (Known (EProductID e)) (Value (EProductID e)) ∧
  constrains (FUsage f) (Known (EUsage e)) (Value (EUsage e)) ∧
  constrains (FBus f) (negb (bool_decide (EBus e = BusUnknown))) (EBus e).
(** The known requested fields are equal, and some requested field is not known. *)
Definition undecided (f : Filter) (e : Endpoint) : Prop :=
  ¬ satisfies f e ∧
  consistent (FVendorID f) (Known (EVendorID e)) (Value (EVendorID e)) ∧
  consistent (FProductID f) (Known (EProductID e)) (Value (EProductID e)) ∧
  consistent (FUsage f) (Known (EUsage e)) (Value (EUsage e)) ∧
  consistent (FBus f) (negb (bool_decide (EBus e = BusUnknown))) (EBus e).

(** What [check] does to the pair, in propositions. *)
Lemma check_spec {T} `{EqDecision T} (req : option T) known value (m u : bool) (C S : Prop) :
  (m = true ↔ C) → (m = true ∧ u = false ↔ S) →
  ((check req known value (m, u)).1 = true ↔ C ∧ consistent req known value) ∧
  ((check req known value (m, u)).1 = true ∧ (check req known value (m, u)).2 = false ↔
   S ∧ constrains req known value).
Proof.
  intros HC HS. unfold check, consistent, constrains. destruct req as [want|]; simpl.
  - destruct known; simpl.
    + case_bool_decide as Hv; simpl; [|naive_solver].
      rewrite HS, HC. split; (split; [|tauto]); intros Hx; (split; [done|]); intros ? [= <-]; auto.
    + split; [split; [intros Hx|tauto]|]; [split; [tauto|done]|].
      split; [by intros [_ ?]|]. intros [_ Hw]. by destruct (Hw want eq_refl).
  - rewrite HS, HC. split; (split; [intros Hx; split; done|tauto]).
Qed.

Lemma matchFilter_spec e f :
  ((matchFilter e f).1 = true ↔ satisfies f e) ∧ ((matchFilter e f).2 = true ↔ undecided f e).
Proof.
  unfold matchFilter.
  destruct (check_spec (FVendorID f) (Known (EVendorID e)) (Value (EVendorID e)) true false True True)
    as [A1 B1]; [done|done|].
  destruct (check (FVendorID f) _ _ _) as [m1 u1]. cbn [fst snd] in A1, B1.
  destruct (check_spec (FProductID f) (Known (EProductID e)) (Value (EProductID e)) m1 u1 _ _ A1 B1) as [A2 B2].
  destruct (check (FProductID f) _ _ _) as [m2 u2]. cbn [fst snd] in A2, B2.
  destruct (check_spec (FUsage f) (Known (EUsage e)) (Value (EUsage e)) m2 u2 _ _ A2 B2) as [A3 B3].
  destruct (check (FUsage f) _ _ _) as [m3 u3]. cbn [fst snd] in A3, B3.
  destruct (check_spec (FBus f) (negb (bool_decide (EBus e = BusUnknown))) (EBus e) m3 u3 _ _ A3 B3)
    as [A4 B4].
  destruct (check (FBus f) _ _ _) as [m4 u4]. cbn [fst snd] in A4, B4.
  unfold undecided, satisfies in *. clear A1 B1 A2 B2 A3 B3.
  destruct m4, u4; cbn [fst snd negb]; intuition congruence.
Qed.

Definition view (options : EnumerateOptions) (item : Endpoint) : Endpoint :=
  if ResolveStrings options then item else clear_strings item.

Lemma add_endpoint_spec options s item :
  Endpoints (add_endpoint options s item) = Endpoints s ++
    List.filter (λ x, (matchFilter x (OFilter options)).1) [view options item] ∧
  Complete (add_endpoint options s item) =
    Complete s && negb (matchFilter (view options item) (OFilter options)).2.
Proof.
  unfold add_endpoint. fold (view options item). simpl.
  destruct (matchFilter (view options item) (OFilter options)) as [[] []]; simpl;
    rewrite ?app_nil_r, ?andb_true_r, ?andb_false_r; done.
Qed.

Lemma fold_endpoints options eps : ∀ s,
  let out := List.fold_left (add_endpoint options) eps s in
  Endpoints out = Endpoints s ++
    List.filter (λ x, (matchFilter x (OFilter options)).1) (map (view options) eps) ∧
  (Complete out = true ↔ Complete s = true ∧
     ∀ item, In item eps → (matchFilter (view options item) (OFilter options)).2 = false).
Proof.
  induction eps as [|item eps IH]; intros s; cbn [List.fold_left map].
  - rewrite app_nil_r. split; [done|]. split; [by intros ?|by intros [? _]].
  - destruct (IH (add_endpoint options s item)) as [H1 H2].
    destruct (add_endpoint_spec options s item) as [E1 E2]. rewrite E1 in H1. rewrite E2 in H2.
    split; [rewrite H1, <-app_assoc; f_equal; by rewrite <-List.filter_app|].
    rewrite H2, andb_true_iff, negb_true_iff. split.
    + intros [[? ?] Hall]. split; [done|]. intros ? [<-|?]; auto.
    + intros [? Hall]. split_and!; [done|apply Hall; by left|intros; apply Hall; by right].
Qed.

Lemma operationError_none op id err : operationError op id err = None ↔ err = None.
Proof. by destruct err. Qed.

Lemma bound_list_spec {A} (l : list A) :
  bound_list l = (take MaxInventoryEndpoints l, bool_decide (MaxInventoryEndpoints < length l)%nat).
Proof.
  unfold bound_list. destruct (Nat.ltb_spec MaxInventoryEndpoints (length l)).
  - by rewrite bool_decide_eq_true_2.
  - rewrite bool_decide_eq_false_2 by lia. by rewrite take_ge.
Qed.

(** Nothing of the observation was cut. *)
Definition bounded (raw : raw_snapshot) : Prop :=
  (length (raw_endpoints raw) ≤ MaxInventoryEndpoints)%nat ∧
  (length (raw_warnings raw) ≤ MaxInventoryEndpoints)%nat.

(** ** Properties *)

(** An inventory tells exactly what it knows.  The endpoints it lists are
    those among the first 1024 observed whose requested fields are all known
    and equal to the filter's, with their strings cleared unless asked for;
    it says Complete only when the native observation was complete and whole,
    no error occurred and no observed endpoint is left undecided by unknown
    metadata, and an error is returned exactly when the native layer failed
    or the limit cut something. *)
Theorem enumerate_exact (options : EnumerateOptions) (raw : raw_snapshot) (err : option goerror) :
  (∀ x, In x (Endpoints (collect options raw err).1) ↔
     ∃ item, In item (take MaxInventoryEndpoints (raw_endpoints raw)) ∧ x = view options item ∧
       satisfies (OFilter options) x) ∧
  (Complete (collect options raw err).1 = true ↔
     raw_complete raw = true ∧ err = None ∧ bounded raw ∧
     ∀ item, In item (raw_endpoints raw) → ¬ undecided (OFilter options) (view options item)) ∧
  ((collect options raw err).2 = None ↔ err = None ∧ bounded raw).
Proof.
  unfold collect, bounded. rewrite !bound_list_spec.
  set (eps := take MaxInventoryEndpoints (raw_endpoints raw)).
  set (s := MkSnapshot [] _ _). set (errf := if bool_decide _ then _ else _).
  destruct (fold_endpoints options eps s) as [H1 H2].
  set (out := List.fold_left _ _ _) in *. cbn [fst snd].
  assert (He : errf = None ↔ err = None ∧ (length (raw_endpoints raw) ≤ MaxInventoryEndpoints)%nat ∧
    (length (raw_warnings raw) ≤ MaxInventoryEndpoints)%nat).
  { unfold errf. do 2 case_bool_decide; destruct err; simpl; split; try done;
      first [intros (_ & ? & ?); lia|intros _; split_and!; done || lia|by intros (? & _)]. }
  split_and!.
  - intros x. assert (Hx : Endpoints (match errf with Some _ => MkSnapshot (Endpoints out) false (Warnings out)
      | None => out end) = Endpoints out) by (by destruct errf). rewrite Hx, H1. cbn [Endpoints s app].
    rewrite filter_In, in_map_iff. rewrite (proj1 (matchFilter_spec x (OFilter options))).
    split; [intros [(item & <- & ?) ?]; eauto|intros (item & ? & -> & ?); eauto].
  - assert (Hun : ∀ item, ¬ undecided (OFilter options) (view options item) ↔
      (matchFilter (view options item) (OFilter options)).2 = false).
    { intros item. rewrite <-(proj2 (matchFilter_spec _ _)). apply not_true_iff_false. }
    destruct errf as [e|].
    + split; [done|]. intros (_ & Hn & Hb & _). destruct He as [_ He].
      by specialize (He (conj Hn Hb)).
    + destruct He as [He _]. destruct (He eq_refl) as (Hn & Hb1 & Hb2).
      assert (Hep : eps = raw_endpoints raw) by (by apply take_ge). rewrite H2, Hep. unfold s. simpl.
      rewrite !bool_decide_eq_false_2 by lia. simpl. rewrite !andb_true_r.
      split.
      * intros [Hc Hall]. split_and!; try done. intros item Hin. by apply Hun, Hall.
      * intros (Hc & _ & _ & Hall). split; [done|]. intros item Hin. by apply Hun, Hall.
  - by rewrite operationError_none.
Qed.

(** C12: admission is accounted exactly.  In every reachable state of the
    package the leases are held by different endpoints, at most 64 of them;
    the byte budget is exactly 768 KiB for each lease and 16 MiB for a
    running inventory and never exceeds 64 MiB; and native inventories never
    overlap. *)
Theorem native_accounting s (Hs : nreachable s) :
  (∀ i j p q, opens s !! i = Some p → opens s !! j = Some q → held p = true → held q = true →
     EndpointID (requested p) = EndpointID (requested q) → i = j) ∧
  (len (leases (opens s)) ≤ maxConnections) ∧
  nbytes (shared s) = connectionBytes * len (leases (opens s)) +
                      enumerationBytes * Z.of_nat (total runs (enums s)) ∧
  nbytes (shared s) ≤ maxNativeBytes ∧
  (∀ i j, enums s !! i = Some ERunning → enums s !! j = Some ERunning → i = j).
Proof.
  apply nreachable_accounted in Hs. split_and!.
  - intros i j p q. apply leases_unique, (a_dup _ Hs).
  - apply (a_len _ Hs).
  - apply (a_bytes _ Hs).
  - apply (a_max _ Hs).
  - intros i j Hi Hj. destruct (decide (i = j)) as [|Hne]; [done|]. exfalso.
    pose proof (total_two holds _ _ _ _ _ Hi Hj Hne) as Ht. rewrite (a_slot _ Hs) in Ht.
    simpl in Ht. destruct (enumeration (shared s)); simpl in Ht; lia.
Qed.

(** Every opened device has one owner.  An Open that returned an error
    never leads to a connection; a refused or abandoned Open has closed the
    device it got, once, and has given up its lease; a connection is only
    made of a device whose metadata match the requested endpoint and whose
    reports are within bounds, it is not closed by the worker, the device is
    closed at most once, and the lease is held exactly until the connection
    releases it. *)
Theorem native_open_owns s i op (Hs : nreachable s) (Hi : opens s !! i = Some op) :
  (∀ e, answer op = Some (Some e) → ∀ d c, pc op ≠ Connected d c) ∧
  (∀ had e, pc op = Refused had e → closes op = b2n had ∧ held op = false) ∧
  (∀ d c, pc op = Connected d c →
     matchesEndpoint (requested op) (d_endpoint d) = true ∧ layout_ok (d_layout d) = true ∧
     closes op = O ∧ (closeCalls c ≤ 1)%nat ∧ (held op = true ↔ releases c = O) ∧
     (releases c = 1%nat → closeCalls c = 1%nat)).
Proof.
  apply nreachable_accounted in Hs. pose proof (a_ops _ Hs _ _ Hi) as Hok. unfold op_ok in Hok.
  unfold held. split_and!.
  - intros e He d c Hp. rewrite Hp in Hok. destruct Hok as (_ & [Ha|Ha] & _); congruence.
  - intros had e Hp. rewrite Hp in *. by destruct Hok.
  - intros d c Hp. rewrite Hp in *. destruct Hok as (H1 & _ & H3 & _ & H5 & H6).
    destruct (s_calls _ (reachable_safe _ H3)) as [Hc Hr].
    split_and!; try done; [rewrite Hc; by destruct (cleanup c); lia|apply Nat.eqb_eq|].
    rewrite Hc, Hr. by destruct (cleanup c).
Qed.

(** *** A concrete run: one endpoint opened, and one inventory running. *)
Definition demo_endpoint : Endpoint :=
  MkEndpoint "hid-1" "" (MkField 0x1050 true) (MkField 0 false) (MkField (MkUsage 0xf1d0 1) true)
    (MkField 0 false) BusUSB (MkField ""%string false) (MkField ""%string false) (MkField ""%string false).
Definition demo_device : device := MkDev demo_endpoint (MkLayout (MkSpec 0 64) (MkSpec 0 64)).
Definition demo_op : open_op := MkOpen demo_endpoint (Opening false) 0 None.
Definition demo_open : native :=
  MkNative (open_admit false None demo_endpoint (shared start)).2 [demo_op] [].
Definition demo_connected : native := open_finish 0 demo_op false (Some demo_device) None None demo_open.
Definition demo_inventory : native :=
  set_enum 0 ERunning (enumeration_budget (MkResources (endpoints (shared demo_connected))
      (nbytes (shared demo_connected)) true)).2
    (set_enum 0 ESlot (MkResources (endpoints (shared demo_connected))
      (nbytes (shared demo_connected)) true)
      (MkNative (shared demo_connected) (opens demo_connected) (enums demo_connected ++ [EWaiting]))).

Lemma demo_nreachable : nreachable demo_inventory.
Proof.
  apply (rtc_l _ _ demo_open); [apply (open_begins None demo_endpoint start eq_refl)|].
  apply (rtc_l _ _ demo_connected);
    [apply (open_finishes 0 demo_op false (Some demo_device) None None demo_open); done|].
  eapply rtc_l; [apply enum_begins|]. eapply rtc_l; [eapply (enum_sends 0); done|].
  eapply rtc_l; [apply (enum_admits 0); done|]. apply rtc_refl.
Qed.

Lemma native_accounting_witness :
  nbytes (shared demo_inventory) = connectionBytes + enumerationBytes ∧
  nbytes (shared demo_inventory) ≤ maxNativeBytes.
Proof. split; [done|]. apply (native_accounting demo_inventory demo_nreachable). Defined.

Lemma native_open_owns_witness :
  matchesEndpoint demo_endpoint (d_endpoint demo_device) = true.
Proof.
  refine (proj1 (proj2 (proj2 (native_open_owns demo_inventory 0
    (MkOpen demo_endpoint (Connected demo_device (newConnection "hid-1" (d_layout demo_device))) 0 None)
    demo_nreachable eq_refl)) demo_device _ eq_refl)).
Defined.
End NativeProps.
