(* ===== verification/LinuxInventory.v ===== *)
(** * The Linux inventory: src/pkg/hid/internal/linux/inventory_linux.go

    Endpoints of the hidraw class, one for each Application collection, read
    from sysfs.  The file system is the class [LinuxFS]; [unix.Mkdev] and its
    inverses belong to golang.org/x/sys and are parameters with it. *)
From S2P Require Import Prelude GoErrors GoText GoIO Descriptors Registry ReportDesc HidConnection.
From S2P Require Import HidNative.

Record Stat_t := MkStat { st_Mode : Z; st_Rdev : Z; st_Dev : Z; st_Ino : Z }.

Class LinuxFS (W : Type) := {
  EvalSymlinks : string → W → res string * W;
  os_Open : string → W → res Z * W;
  (** [directory.ReadDir(n)]: the names, and an error that may come with them. *)
  ReadDir : Z → Z → W → (list string * option goerror) * W;
  (** [io.ReadAll(io.LimitReader(file, n))]. *)
  ReadAll : Z → Z → W → res bytes * W;
  os_Close : Z → W → W;
  os_Stat : string → W → option goerror * W;
  unix_Stat : string → W → res Stat_t * W;
  Mkdev : Z → Z → Z;
  Major : Z → Z;
  Minor : Z → Z;
}.

Module LinuxInventory.
Import GoStrings Metadata ReportDesc NativeHID.

Definition classPath : string := "/sys/class/hidraw".
Definition MaxInventoryDevices : nat := 128.
Definition S_IFMT : Z := 0xf000.
Definition S_IFCHR : Z := 0x2000.

(** *** Errors *)
Definition driver_error (op : string) (kind : driver_kind) (message : string) : goerror :=
  EDriver op kind "" 0 message None.
Definition unsupported (message : string) : goerror := driver_error "qualify" KindUnsupported message.
Definition resourceLimit (message : string) : goerror :=
  driver_error "enumerate" KindResourceLimit message.
Definition stale (message : string) : goerror := driver_error "open" KindStaleEndpoint message.
Definition nativeError (op : string) (err : goerror) : goerror :=
  let kind :=
    if IsErrno err EACCES || IsErrno err EPERM then KindPermission
    else if IsErrno err ENODEV || IsErrno err ENXIO || IsErrno err ENOENT then KindRemoved
    else if IsErrno err EBUSY then KindBusy
    else KindIO in
  EDriver op kind "errno" (default 0%Z (As as_errno err)) "" (Some err).

Definition busType (bus : Z) : Bus :=
  if bus =? 3 then BusUSB
  else if bus =? 5 then BusBluetooth
  else if bus =? 0x18 then BusI2C
  else if bus =? 0x1c then BusSPI
  else if bus =? 0 then BusUnknown
  else BusOther.

Definition endpointID (path : string) (collection : Z) : string :=
  "linux:" +:+ path +:+ "#collection=" +:+ Strconv.Itoa collection.

(** *** Data *)
Definition unknown {T} (zero : T) : Field T := MkField zero false.
Definition zero_endpoint : Endpoint :=
  MkEndpoint "" "" (unknown 0) (unknown 0) (unknown (MkUsage 0 0)) (unknown 0) BusUnknown
    (unknown ""%string) (unknown ""%string) (unknown ""%string).

Record inventoryEntry := MkEntry {
  ie_endpoint : Endpoint;
  sysPath : string;
  ie_dev : Z;
  ie_descriptor : bytes;
  hidUnique : Field string;
}.
Definition zero_entry : inventoryEntry := MkEntry zero_endpoint "" 0 [] (unknown ""%string).

Definition with_id (id : string) (e : Endpoint) : Endpoint :=
  MkEndpoint id (EPath e) (EVendorID e) (EProductID e) (EUsage e) (EInterface e) (EBus e) (ESerial e)
    (EManufacturer e) (EProduct e).
Definition with_usage (usage : Usage) (e : Endpoint) : Endpoint :=
  MkEndpoint (EndpointID e) (EPath e) (EVendorID e) (EProductID e) (MkField usage true) (EInterface e)
    (EBus e) (ESerial e) (EManufacturer e) (EProduct e).
Definition with_interface (number : Z) (e : Endpoint) : Endpoint :=
  MkEndpoint (EndpointID e) (EPath e) (EVendorID e) (EProductID e) (EUsage e) (MkField number true)
    (EBus e) (ESerial e) (EManufacturer e) (EProduct e).
Definition with_strings (manufacturer product serial : Field string) (e : Endpoint) : Endpoint :=
  MkEndpoint (EndpointID e) (EPath e) (EVendorID e) (EProductID e) (EUsage e) (EInterface e) (EBus e)
    serial manufacturer product.

Section Inventory.
Context {W : Type} `{!LinuxFS W}.

(** *** Reading sysfs *)
Definition readBounded (path : string) (limit : Z) (w : W) : res bytes * W :=
  match os_Open path w with
  | (Err e, w) => (Err e, w)
  | (Ok file, w) =>
      let '(r, w) := ReadAll file (limit + 1) w in
      let w := os_Close file w in
      (data ←? r;
       if limit <? len data then Err (EMsg "sysfs property exceeds %d bytes") else Ok data, w)
  end.

Definition readText (path : string) (w : W) : res string * W :=
  let '(r, w) := readBounded path MaxMetadataSize w in
  (data ←? r; Ok (TrimNewline (string_of_bytes data)), w).

Definition property_line (result : res (gmap string string)) (line : string) : res (gmap string string) :=
  result ←? result;
  match Cut line "=" with
  | None => Ok result
  | Some (key, value) =>
      if (MaxMetadataSize <? slen key) || (MaxMetadataSize <? slen value)
      then Err (resourceLimit "sysfs metadata length")
      else Ok (<[key := value]> result)
  end.
Definition readProperties (path : string) (w : W) : res (gmap string string) * W :=
  let '(r, w) := readBounded path 16384 w in
  (data ←? r; List.fold_left property_line (Split newline (string_of_bytes data)) (Ok ∅), w).

(** *** The device node *)
Definition is_char_device (stat : Stat_t) (deviceNumber : Z) : bool :=
  (Z.land (st_Mode stat) S_IFMT =? S_IFCHR) && (st_Rdev stat =? deviceNumber).

Definition resolveNode (path : string) (deviceNumber : Z) (w : W) : (string * option goerror) * W :=
  match unix_Stat path w with
  | (Ok stat, w) =>
      ((path, if is_char_device stat deviceNumber then None
              else Some (stale "hidraw node does not match sysfs device number")), w)
  | (Err err, w) =>
      let failed := (path, Some (nativeError "resolve hidraw node" err)) in
      if negb (IsErrno err ENOENT) then (failed, w)
      else
        let alias := Filepath.Join ["/dev/char"%string;
          (Strconv.Itoa (Major deviceNumber) +:+ ":" +:+ Strconv.Itoa (Minor deviceNumber))] in
        match EvalSymlinks alias w with
        | (Err _, w) => (failed, w)
        | (Ok resolved, w) =>
            if MaxMetadataSize <? slen resolved then (failed, w)
            else
              match unix_Stat resolved w with
              | (Err _, w) => (failed, w)
              | (Ok stat, w) => (if is_char_device stat deviceNumber then (resolved, None) else failed, w)
              end
        end
  end.

(** The device number of the [dev] attribute; the failures, in order. *)
Definition read_dev (path : string) (w : W) : (Z * list goerror) * W :=
  match readText (Filepath.Join [path; "dev"%string]) w with
  | (Err e, w) => ((0, [nativeError "read device number" e]), w)
  | (Ok devText, w) =>
      (match Split ":"%char devText with
       | [a; b] =>
           match Strconv.ParseUint a 10 32, Strconv.ParseUint b 10 32 with
           | Ok major, Ok minor => (Mkdev major minor, [])
           | _, _ => (0, [unsupported "invalid sysfs device number"])
           end
       | _ => (0, [unsupported "invalid sysfs device number"])
       end, w)
  end.

(** [/dev/] and the name, if the path stays there. *)
Definition device_path (path : string) (uevent : gmap string string) : string * list goerror :=
  let name := default ""%string (uevent !! "DEVNAME"%string) in
  let name := if str_empty name then Filepath.Base path else name in
  let node := Filepath.Join ["/dev"%string; name] in
  if negb (HasPrefix node "/dev/") || (MaxMetadataSize <? slen node)
  then (""%string, [unsupported "invalid hidraw device path"]) else (node, []).

Definition resolve_path (node : string) (dev : Z) (w : W) : (string * list goerror) * W :=
  if str_empty node then ((node, []), w)
  else let '((node, err), w) := resolveNode node dev w in ((node, option_list err), w).

(** Bus, vendor and product of [HID_ID]. *)
Definition hid_identity (hid : gmap string string) : (Bus * Field Z * Field Z) * list goerror :=
  let none := (BusUnknown, unknown 0, unknown 0) in
  match Split ":"%char (default ""%string (hid !! "HID_ID"%string)) with
  | [a; b; c] =>
      match Strconv.ParseUint a 16 16, Strconv.ParseUint b 16 32, Strconv.ParseUint c 16 32 with
      | Ok bus, Ok vendor, Ok product =>
          if (vendor <=? 0xffff) && (product <=? 0xffff)
          then ((busType bus, MkField vendor true, MkField product true), [])
          else (none, [unsupported "invalid HID_ID"])
      | _, _, _ => (none, [unsupported "invalid HID_ID"])
      end
  | _ => (none, [unsupported "missing HID_ID"])
  end.

Definition known_string (hid : gmap string string) (key : string) : Field string :=
  match hid !! key with Some value => MkField value true | None => unknown ""%string end.

(** *** The nearest USB device of the sysfs chain *)
Definition read_property (parent name : string) (target : Field string) (w : W) : Field string * W :=
  match readText (Filepath.Join [parent; name]) w with
  | (Ok value, w) => (MkField value true, w)
  | (Err _, w) => (target, w)
  end.

Definition usb_strings (parent : string) (endpoint : Endpoint) (w : W) : Endpoint * W :=
  let '(manufacturer, w) := read_property parent "manufacturer" (EManufacturer endpoint) w in
  let '(product, w) := read_property parent "product" (EProduct endpoint) w in
  let '(serial, w) := read_property parent "serial" (ESerial endpoint) w in
  (with_strings manufacturer product serial endpoint, w).

Definition usb_interface (parent : string) (endpoint : Endpoint) (w : W) : Endpoint * W :=
  if Known (EInterface endpoint) then (endpoint, w)
  else
    match readText (Filepath.Join [parent; "bInterfaceNumber"%string]) w with
    | (Err _, w) => (endpoint, w)
    | (Ok value, w) =>
        (match Strconv.ParseUint value 16 8 with
         | Ok number => with_interface number endpoint
         | Err _ => endpoint
         end, w)
    end.

(** [depth]: turns left of the loop. *)
Fixpoint usb_loop (depth : nat) (parent : string) (endpoint : Endpoint) (resolveStrings : bool) (w : W)
    : Endpoint * W :=
  match depth with
  | O => (endpoint, w)
  | S depth =>
      if str_empty parent || String.eqb parent "/" then (endpoint, w)
      else
        let '(vendorErr, w) := os_Stat (Filepath.Join [parent; "idVendor"%string]) w in
        let '(productErr, w) := os_Stat (Filepath.Join [parent; "idProduct"%string]) w in
        match vendorErr, productErr with
        | None, None => if resolveStrings then usb_strings parent endpoint w else (endpoint, w)
        | _, _ =>
            let '(endpoint, w) := usb_interface parent endpoint w in
            usb_loop depth (Filepath.Dir parent) endpoint resolveStrings w
        end
  end.

Definition readUSBMetadata (parent : string) (endpoint : Endpoint) (resolveStrings : bool) (w : W)
    : Endpoint * W :=
  if bool_decide (EBus endpoint = BusUSB) then usb_loop 16 parent endpoint resolveStrings w
  else (endpoint, w).

(** *** One device *)
Definition properties_of (r : res (gmap string string)) (op : string) : gmap string string * list goerror :=
  match r with Ok m => (m, []) | Err e => (∅, [nativeError op e]) end.

Definition inspect (path : string) (resolveStrings : bool) (w : W)
    : (inventoryEntry * option goerror) * W :=
  match EvalSymlinks path w with
  | (Err e, w) => ((zero_entry, Some (nativeError "resolve sysfs endpoint" e)), w)
  | (Ok realPath, w) =>
      if MaxMetadataSize <? slen realPath
      then ((zero_entry, Some (resourceLimit "sysfs path length")), w)
      else
        let '((dev, f1), w) := read_dev path w in
        let '(r, w) := readProperties (Filepath.Join [path; "uevent"%string]) w in
        let '(uevent, f2) := properties_of r "read hidraw uevent" in
        let '(node, f3) := device_path path uevent in
        let '((node, f4), w) := resolve_path node dev w in
        let hidPath := Filepath.Join [path; "device"%string] in
        let '(r, w) := readProperties (Filepath.Join [hidPath; "uevent"%string]) w in
        let '(hid, f5) := properties_of r "read HID metadata" in
        let '((bus, vendor, product), f6) := hid_identity hid in
        let none := unknown ""%string in
        let endpoint := MkEndpoint "" node vendor product (unknown (MkUsage 0 0)) (unknown 0) bus
          (if resolveStrings then known_string hid "HID_UNIQ" else none) none
          (if resolveStrings then known_string hid "HID_NAME" else none) in
        let '(parent, w) := EvalSymlinks hidPath w in
        let parent := match parent with Ok p => p | Err _ => ""%string end in
        let '(endpoint, w) := readUSBMetadata parent endpoint resolveStrings w in
        let '(r, w) := readBounded (Filepath.Join [hidPath; "report_descriptor"%string])
                         MaxDescriptorSize w in
        let '(descriptor, f7) := match r with
                                 | Ok d => (d, [])
                                 | Err e => ([], [nativeError "read report descriptor" e])
                                 end in
        ((MkEntry endpoint realPath dev descriptor (known_string hid "HID_UNIQ"),
          Registry.Join (f1 ++ f2 ++ f3 ++ f4 ++ f5 ++ f6 ++ f7)), w)
  end.

(** *** Enumerate *)
Definition warn (snapshot : raw_snapshot) (complete : bool) (warning : goerror) : raw_snapshot :=
  MkRaw (raw_endpoints snapshot) (raw_complete snapshot && complete)
    (raw_warnings snapshot ++ [Some warning]).
Definition append_endpoint (snapshot : raw_snapshot) (e : Endpoint) : raw_snapshot :=
  MkRaw (raw_endpoints snapshot ++ [e]) (raw_complete snapshot) (raw_warnings snapshot).
Definition endpoint_limit (snapshot : raw_snapshot) : raw_snapshot :=
  warn snapshot false (resourceLimit "inventory endpoint limit").

(** The endpoint of one collection. *)
Definition collection_endpoint (item : inventoryEntry) (collection : Collection) : Endpoint :=
  with_usage (CUsage collection) (with_id (endpointID (sysPath item) (Index collection)) (ie_endpoint item)).

(** The inner loop; the flag says that it returned from [Enumerate]. *)
Fixpoint add_collections (item : inventoryEntry) (collections : list Collection) (snapshot : raw_snapshot)
    : raw_snapshot * bool :=
  match collections with
  | [] => (snapshot, false)
  | collection :: collections =>
      if (length (raw_endpoints snapshot) =? MaxInventoryEndpoints)%nat
      then (endpoint_limit snapshot, true)
      else add_collections item collections (append_endpoint snapshot (collection_endpoint item collection))
  end.

(** What the inventory says of one inspected device. *)
Definition add_item (item : inventoryEntry) (itemErr : option goerror) (snapshot : raw_snapshot)
    : option (raw_snapshot * bool) :=
  let snapshot := match itemErr with Some e => warn snapshot false e | None => snapshot end in
  if str_empty (sysPath item) then Some (snapshot, false)
  else
    match Inventory (ie_descriptor item) with
    | None => None
    | Some (collections, parseErr) =>
        match parseErr, collections with
        | Some e, _ :: _ => Some (add_collections item collections (warn snapshot true e))
        | None, _ :: _ => Some (add_collections item collections snapshot)
        | _, [] =>
            let e := default (unsupported "descriptor has no addressable Application collection") parseErr in
            Some (append_endpoint (warn snapshot false e)
                    (with_id (endpointID (sysPath item) (-1)) (ie_endpoint item)), false)
        end
    end.

Fixpoint enumerate_loop (entries : list string) (resolveStrings : bool) (snapshot : raw_snapshot) (w : W)
    : option (raw_snapshot * W) :=
  match entries with
  | [] => Some (snapshot, w)
  | name :: entries =>
      if (MaxInventoryEndpoints <=? length (raw_endpoints snapshot))%nat
      then Some (endpoint_limit snapshot, w)
      else
        let '((item, itemErr), w) := inspect (Filepath.Join [classPath; name]) resolveStrings w in
        match add_item item itemErr snapshot with
        | None => None
        | Some (snapshot, true) => Some (snapshot, w)
        | Some (snapshot, false) => enumerate_loop entries resolveStrings snapshot w
        end
  end.

(** [errors.Is(err, os.ErrNotExist)] and [errors.Is(err, io.EOF)]. *)
Definition is_not_exist (e : goerror) : bool := IsErrno e ENOENT || Is e "fs.ErrNotExist".

Definition Enumerate (resolveStrings : bool) (w : W) : option ((raw_snapshot * option goerror) * W) :=
  match os_Open classPath w with
  | (Err e, w) =>
      if is_not_exist e then Some ((MkRaw [] true [], None), w)
      else Some ((MkRaw [] false [], Some (nativeError "enumerate" e)), w)
  | (Ok directory, w) =>
      let '((entries, err), w) := ReadDir directory (Z.of_nat MaxInventoryDevices + 1) w in
      let failed := match err with Some e => if Is e "io.EOF" then None else Some e | None => None end in
      match failed with
      | Some e =>
          Some ((MkRaw [] false [], Some (nativeError "enumerate entries" e)), os_Close directory w)
      | None =>
          let snapshot := MkRaw [] true [] in
          let '(entries, snapshot) :=
            if (MaxInventoryDevices <? length entries)%nat
            then (take MaxInventoryDevices entries,
                  warn snapshot false (resourceLimit "inventory device limit"))
            else (entries, snapshot) in
          match enumerate_loop entries resolveStrings snapshot w with
          | None => None
          | Some (snapshot, w) => Some ((snapshot, None), os_Close directory w)
          end
      end
  end.
End Inventory.
End LinuxInventory.
