(* ===== verification/LinuxDevice.v ===== *)
(** * Linux hidraw devices:
      src/pkg/hid/internal/linux/{open_linux,device_linux}.go

    Opening a collection through a pinned sysfs directory, and report I/O on
    the opened descriptor.  [openSystem] is the record of calls the source
    itself abstracts; the system calls are the class [LinuxFd]. *)
From S2P Require Import Prelude GoErrors GoText GoIO Descriptors ReportDesc HidConnection HidNative.
From S2P Require Import LinuxInventory.

(** [info]: bus type, vendor and product of HIDIOCGRAWINFO. *)
Class LinuxFd (W : Type) := {
  unix_Open : string → Z → W → res Z * W;
  unix_Close : Z → W → option goerror * W;
  unix_Fstat : Z → W → res Stat_t * W;
  IoctlHIDGetRawInfo : Z → W → res (Z * Z * Z) * W;
  IoctlGetDescSize : Z → W → res Z * W;
  (** The size and the value that HIDIOCGRDESC leaves for a size. *)
  IoctlHIDGetDesc : Z → Z → W → res (Z * bytes) * W;
  (** HIDIOCGRAWUNIQ into a buffer of that length. *)
  IoctlGetUnique : Z → Z → W → res bytes * W;
  (** [unix.Poll] on one descriptor: the count and the returned events. *)
  unix_Poll : Z → Z → W → res (Z * Z) * W;
  unix_Read : Z → Z → W → res bytes * W;
  unix_Write : Z → bytes → W → res Z * W;
  (** [time.Now], in nanoseconds. *)
  time_Now : W → Z * W;
}.

Module LinuxOpen.
Import GoStrings Metadata ReportDesc LinuxInventory.

Definition O_RDWR : Z := 0x2.
Definition O_NONBLOCK : Z := 0x800.
Definition O_CLOEXEC : Z := 0x80000.
Definition O_DIRECTORY : Z := 0x10000.
Definition O_PATH : Z := 0x200000.
(** The length of [unix.HIDRawReportDescriptor.Value]. *)
Definition HID_MAX_DESCRIPTOR_SIZE : Z := 4096.

Record sysfsAnchor := MkAnchor { a_fd : Z; a_path : string; a_stat : Stat_t }.

Record device := MkDev { fd : Z; d_endpoint : Endpoint; d_layout : ReportLayout }.

(** An address and a collection. *)
Definition parse_id (expected : Endpoint) : res (string * Z) :=
  let refused := Err (driver_error "open" KindInvalidArgument "invalid Linux endpoint ID") in
  match Cut (TrimPrefix (EndpointID expected) "linux:") "#collection=" with
  | None => refused
  | Some (address, selector) =>
      match Strconv.Atoi selector with
      | Err _ => refused
      | Ok index =>
          if (MaxMetadataSize + 64 <? slen (EndpointID expected))
             || (MaxMetadataSize <? slen (EPath expected))
             || negb (HasPrefix (EndpointID expected) "linux:/sys/")
             || (index <? 0)
             || negb (String.eqb (endpointID address index) (EndpointID expected))
          then refused else Ok (address, index)
      end
  end.

Definition agrees {T} `{EqDecision T} (want got : Field T) : bool :=
  negb (Known want) || bool_decide (got = want).
Definition matches (want got : Endpoint) : bool :=
  agrees (EVendorID want) (EVendorID got) && agrees (EProductID want) (EProductID got)
  && agrees (EUsage want) (EUsage got) && agrees (EInterface want) (EInterface got)
  && (bool_decide (EBus want = BusUnknown) || bool_decide (EBus got = EBus want))
  && agrees (ESerial want) (ESerial got) && agrees (EManufacturer want) (EManufacturer got)
  && agrees (EProduct want) (EProduct got).

Section Open.
Context {W : Type}.

Record openSystem := MkSystem {
  os_anchor : string → W → res sysfsAnchor * W;
  os_verify : string → sysfsAnchor → inventoryEntry → W → option goerror * W;
  os_inspect : string → bool → W → (inventoryEntry * option goerror) * W;
  os_open : string → W → res Z * W;
  os_close : Z → W → W;
  os_fstat : Z → W → res Stat_t * W;
  os_info : Z → W → res (Z * Z * Z) * W;
  os_descriptor : Z → W → res bytes * W;
  os_unique : Z → W → res string * W;
}.

Definition call {A} (f : W → res A * W) : M W A := λ w, Some (f w).
(** A call that returns a value and an error. *)
Definition call_pair {A} (f : W → (A * option goerror) * W) : M W A := λ w,
  let '((a, err), w) := f w in Some (match err with Some e => Err e | None => Ok a end, w).

(** [defer system.close(fd)], and the deferred close of a failed open. *)
Definition defer_close {A} (system : openSystem) (fd : Z) (m : M W A) : M W A := λ w,
  match m w with Some (r, w) => Some (r, os_close system fd w) | None => None end.
Definition close_on_failure {A} (system : openSystem) (fd : Z) (m : M W A) : M W A := λ w,
  match m w with
  | Some (Ok a, w) => Some (Ok a, w)
  | Some (Err e, w) => Some (Err e, os_close system fd w)
  | None => None
  end.
Definition ensure (ok : bool) (e : goerror) : M W () := if ok then ret () else throw e.

(** The refreshed metadata of the pinned address. *)
Definition refresh (system : openSystem) (expected : Endpoint) (address path : string)
    (anchor : sysfsAnchor) (item : inventoryEntry) (stat : Stat_t) : M W inventoryEntry :=
  current ←! map_err (λ err, EDriver "open" KindStaleEndpoint "" 0
                       "sysfs endpoint changed while opening" (Some err))
               (call_pair (os_inspect system path true));
  _ ←! ensure (String.eqb (sysPath current) address && (ie_dev current =? st_Rdev stat)
               && String.eqb (EPath (ie_endpoint current)) (EPath (ie_endpoint item)))
         (stale "hidraw address was reused while opening");
  _ ←! call_err (os_verify system path anchor current);
  ret current.

(** What the descriptor says of itself agrees with sysfs. *)
Definition same_device (system : openSystem) (fd : Z) (current : inventoryEntry) : M W bytes :=
  info ←! map_err (nativeError "HIDIOCGRAWINFO") (call (os_info system fd));
  let '(bustype, vendor, product) := info in
  _ ←! ensure (bool_decide (EBus (ie_endpoint current) = busType bustype)
               && (Value (EVendorID (ie_endpoint current)) =? u16 vendor)
               && (Value (EProductID (ie_endpoint current)) =? u16 product))
         (stale "opened fd differs from its sysfs association");
  descriptor ←! call (os_descriptor system fd);
  _ ←! ensure (bool_decide (descriptor = ie_descriptor current))
         (stale "opened fd report descriptor differs from sysfs");
  unique ←! attempt (call (os_unique system fd));
  _ ←! match unique with
       | Err e => ensure (IsErrno e ENOTTY || IsErrno e EINVAL) (nativeError "HIDIOCGRAWUNIQ" e)
       | Ok u => ensure (negb (Known (hidUnique current)) || String.eqb u (Value (hidUnique current)))
                   (stale "opened fd unique string differs from sysfs")
       end;
  ret descriptor.

(** The device of a validated descriptor. *)
Definition select_collection (expected : Endpoint) (fd index : Z) (current : inventoryEntry)
    (descriptor : bytes) : M W device :=
  match Parse descriptor with
  | None => out_of_fuel
  | Some (Err e) => throw e
  | Some (Ok collections) =>
      match collections !! Z.to_nat index with
      | None => throw (stale "collection disappeared")
      | Some collection =>
          let endpoint := with_usage (CUsage collection) (with_id (EndpointID expected) (ie_endpoint current)) in
          if negb (matches expected endpoint)
          then throw (stale "opened metadata differs from requested endpoint")
          else if negb (Supported collection)
          then throw (unsupported "collection does not have an unambiguous fixed Input/Output layout")
          else ret (MkDev fd endpoint (Layout collection))
      end
  end.

(** The transaction on an opened descriptor. *)
Definition validate (system : openSystem) (expected : Endpoint) (address path : string) (index : Z)
    (anchor : sysfsAnchor) (item : inventoryEntry) (fd : Z) : M W device :=
  stat ←! map_err (nativeError "fstat") (call (os_fstat system fd));
  _ ←! ensure (is_char_device stat (ie_dev item)) (stale "opened node changed");
  current ←! refresh system expected address path anchor item stat;
  descriptor ←! same_device system fd current;
  _ ←! call_err (os_verify system path anchor current);
  select_collection expected fd index current descriptor.

Definition openWithSystem (expected : Endpoint) (system : openSystem) : M W device :=
  id ←! lift (parse_id expected);
  let '(address, index) := id in
  let path := Filepath.Join [classPath; Filepath.Base address] in
  anchor ←! call (os_anchor system path);
  defer_close system (a_fd anchor)
    (item ←! call_pair (os_inspect system path true);
     _ ←! ensure (String.eqb (sysPath item) address
                  && (str_empty (EPath expected) || String.eqb (EPath expected) (EPath (ie_endpoint item))))
            (stale "endpoint address changed");
     _ ←! call_err (os_verify system path anchor item);
     fd ←! map_err (nativeError "open") (call (os_open system (EPath (ie_endpoint item))));
     close_on_failure system fd (validate system expected address path index anchor item fd)).

(** *** The native system *)
Context `{!LinuxFS W} `{!LinuxFd W}.

Definition anchorSysfs (path : string) (w : W) : res sysfsAnchor * W :=
  match unix_Open path (Z.lor O_PATH (Z.lor O_DIRECTORY O_CLOEXEC)) w with
  | (Err e, w) => (Err (nativeError "pin sysfs endpoint" e), w)
  | (Ok fd, w) =>
      let failed e w := (Err (nativeError "pin sysfs endpoint" e), (unix_Close fd w).2) in
      match EvalSymlinks path w with
      | (Err e, w) => failed e w
      | (Ok p, w) =>
          match unix_Fstat fd w with
          | (Err e, w) => failed e w
          | (Ok stat, w) => (Ok (MkAnchor fd p stat), w)
          end
      end
  end.

Definition verifySysfs (path : string) (anchor : sysfsAnchor) (item : inventoryEntry) (w : W)
    : option goerror * W :=
  let gone e := Some (EDriver "open" KindStaleEndpoint "" 0
                        "sysfs endpoint disappeared while opening" (Some e)) in
  match EvalSymlinks path w with
  | (Err e, w) => (gone e, w)
  | (Ok realPath, w) =>
      match unix_Stat path w with
      | (Err e, w) => (gone e, w)
      | (Ok stat, w) =>
          (if negb (String.eqb realPath (a_path anchor)) || negb (String.eqb realPath (sysPath item))
              || negb (st_Dev stat =? st_Dev (a_stat anchor))
              || negb (st_Ino stat =? st_Ino (a_stat anchor))
           then Some (stale "sysfs endpoint association changed while opening") else None, w)
      end
  end.

Definition readDescriptor (fd : Z) (w : W) : res bytes * W :=
  match IoctlGetDescSize fd w with
  | (Err e, w) => (Err (nativeError "HIDIOCGRDESCSIZE" e), w)
  | (Ok size, w) =>
      if (size <=? 0) || (HID_MAX_DESCRIPTOR_SIZE <? size) || (MaxDescriptorSize <? size)
      then (Err (unsupported "hidraw descriptor size exceeds supported bounds"), w)
      else
        match IoctlHIDGetDesc fd (u32 size) w with
        | (Err e, w) => (Err (nativeError "HIDIOCGRDESC" e), w)
        | (Ok (rsize, value), w) =>
            (if negb (rsize =? u32 size) then Err (stale "report descriptor changed while opening")
             else Ok (take (Z.to_nat size) value), w)
        end
  end.

(** The bytes before the first zero. *)
Fixpoint until_zero (buffer : bytes) : option bytes :=
  match buffer with
  | [] => None
  | b :: buffer => if b =? 0 then Some [] else option_map (cons b) (until_zero buffer)
  end.
Definition readUnique (fd : Z) (w : W) : res string * W :=
  let '(r, w) := IoctlGetUnique fd MaxMetadataSize w in
  (buffer ←? r;
   match until_zero buffer with
   | Some value => Ok (string_of_bytes value)
   | None => Err (unsupported "unterminated HID unique string")
   end, w).

Definition nativeOpenSystem : openSystem :=
  MkSystem anchorSysfs verifySysfs inspect
    (λ path, unix_Open path (Z.lor O_RDWR (Z.lor O_NONBLOCK O_CLOEXEC)))
    (λ fd w, (unix_Close fd w).2) unix_Fstat IoctlHIDGetRawInfo readDescriptor readUnique.

Definition Open (expected : Endpoint) : M W device := openWithSystem expected nativeOpenSystem.
End Open.
Arguments openSystem : clear implicits.
End LinuxOpen.

(** ** device_linux.go *)
Module LinuxDevice.
Import Metadata LinuxInventory LinuxOpen.

Definition POLLIN : Z := 0x1.
Definition POLLHUP : Z := 0x10.
Definition POLLNVAL : Z := 0x20.
Definition Millisecond : Z := 1000000.

Section Device.
Context {W : Type} `{!LinuxFd W}.

(** The poll timeout: -1 without a deadline, else the rest of the wait in
    whole milliseconds, rounded up; [None] when the deadline has passed. *)
Definition poll_timeout (deadline : option Z) (now : Z) : option Z :=
  match deadline with
  | None => Some (-1)
  | Some d =>
      let remaining := d - now in
      if remaining <=? 0 then None
      else
        let milliseconds := remaining / Millisecond in
        let milliseconds := if remaining mod Millisecond =? 0 then milliseconds else milliseconds + 1 in
        Some (if 2147483647 <? milliseconds then 2147483647 else milliseconds)
  end.

(** The report in a raw read; [None] is a report of another collection. *)
Definition accept_report (layout : ReportLayout) (data : bytes) : option (res Report) :=
  let spec := Input layout in
  let exact data :=
    if negb (len data =? Size spec)
    then Err (driver_error "read" KindInvalidReport "native input length differs from descriptor")
    else Ok (MkReport (SpecID spec) data) in
  if negb (SpecID spec =? 0) then
    if negb (data !!! 0%nat =? SpecID spec) then None else Some (exact (drop 1 data))
  else Some (exact data).

(** One turn of the loop: a result, or [None] to go on. *)
Definition read_turn (d : device) (deadline : option Z) (w : W) : option (res Report) * W :=
  let '(now, w) := match deadline with Some _ => time_Now w | None => (0, w) end in
  match poll_timeout deadline now with
  | None => (Some (Err (driver_error "read" KindTimeout "")), w)
  | Some timeout =>
      match unix_Poll (fd d) timeout w with
      | (Err e, w) => (if IsErrno e EINTR then None else Some (Err (nativeError "poll" e)), w)
      | (Ok (n, revents), w) =>
          if n =? 0 then (Some (Err (driver_error "read" KindTimeout "")), w)
          else if negb (Z.land revents POLLNVAL =? 0)
          then (Some (Err (nativeError "poll" (EErrno EBADF))), w)
          else if Z.land revents POLLIN =? 0
          then (Some (Err (nativeError "poll"
                        (EErrno (if negb (Z.land revents POLLHUP =? 0) then ENODEV else EIO)))), w)
          else
            match unix_Read (fd d) (NativeHID.MaxReportSize + 2) w with
            | (Err e, w) =>
                (if IsErrno e EINTR || IsErrno e EAGAIN then None else Some (Err (nativeError "read" e)), w)
            | (Ok data, w) =>
                if len data =? 0 then (Some (Err (nativeError "read" (EErrno ENODEV))), w)
                else (accept_report (d_layout d) data, w)
            end
      end
  end.

Fixpoint read_loop (fuel : nat) (d : device) (deadline : option Z) : M W Report := λ w,
  match fuel with
  | O => None
  | S fuel =>
      match read_turn d deadline w with
      | (Some r, w) => Some (r, w)
      | (None, w) => read_loop fuel d deadline w
      end
  end.

(** [wait] in nanoseconds. *)
Definition Read (fuel : nat) (d : device) (wait : Z) : M W Report := λ w,
  if wait <? 0 then Some (Err (driver_error "read" KindInvalidArgument ""), w)
  else
    let '(deadline, w) :=
      if 0 <? wait then let '(now, w) := time_Now w in (Some (now + wait), w) else (None, w) in
    read_loop fuel d deadline w.

Definition Write (d : device) (report : Report) (w : W) : (outcome * option goerror) * W :=
  let spec := Output (d_layout d) in
  if negb (ReportID report =? SpecID spec) || negb (len (Data report) =? Size spec)
  then ((OutcomeNotSubmitted, Some (driver_error "write" KindInvalidReport "")), w)
  else
    let buffer := ReportID report :: Data report in
    match unix_Write (fd d) buffer w with
    | (Err e, w) => ((OutcomeUnknown, Some (nativeError "write" e)), w)
    | (Ok n, w) =>
        (if negb (n =? len buffer)
         then (OutcomeUnknown, Some (driver_error "write" KindIO "short native write"))
         else (OutcomeCompleted, None), w)
    end.

Definition Close (d : device) (w : W) : option goerror * W :=
  match unix_Close (fd d) w with
  | (Some e, w) => (Some (nativeError "close" e), w)
  | (None, w) => (None, w)
  end.
End Device.
End LinuxDevice.
