(* ===== verification/LinuxProps.v ===== *)
(** * What the Linux hidraw binding guarantees

    Ownership of file descriptors, the exact meaning of an opened device, the
    inventory against a reference definition, and report I/O as the driver
    contract of src/pkg/hid/internal/driver asks for. *)
From S2P Require Import Prelude GoErrors GoText GoIO Descriptors ReportDesc HidConnection HidNative.
From S2P Require Import LinuxInventory LinuxDevice.

(** ** Open file descriptors

    [open_fds w] are the descriptors the process has open.  The laws are the
    documented behaviour of the calls: an open adds a descriptor that was not
    in use, a close removes its own (even when it reports an error), and no
    other call changes the set. *)
Class FdLedger (W : Type) `{!LinuxFS W} `{!LinuxFd W} (open_fds : W → gset Z) := {
  os_Open_fds path w :
    match os_Open path w with
    | (Ok fd, w') => (fd ∉ open_fds w) ∧ open_fds w' = ({[fd]} ∪ open_fds w)
    | (Err _, w') => open_fds w' = open_fds w
    end;
  unix_Open_fds path flags w :
    match unix_Open path flags w with
    | (Ok fd, w') => (fd ∉ open_fds w) ∧ open_fds w' = ({[fd]} ∪ open_fds w)
    | (Err _, w') => open_fds w' = open_fds w
    end;
  os_Close_fds fd w : open_fds (os_Close fd w) = open_fds w ∖ {[fd]};
  unix_Close_fds fd w : open_fds (unix_Close fd w).2 = open_fds w ∖ {[fd]};
  EvalSymlinks_fds path w : open_fds (EvalSymlinks path w).2 = open_fds w;
  ReadDir_fds fd n w : open_fds (ReadDir fd n w).2 = open_fds w;
  ReadAll_fds fd n w : open_fds (ReadAll fd n w).2 = open_fds w;
  os_Stat_fds path w : open_fds (os_Stat path w).2 = open_fds w;
  unix_Stat_fds path w : open_fds (unix_Stat path w).2 = open_fds w;
  unix_Fstat_fds fd w : open_fds (unix_Fstat fd w).2 = open_fds w;
  RawInfo_fds fd w : open_fds (IoctlHIDGetRawInfo fd w).2 = open_fds w;
  DescSize_fds fd w : open_fds (IoctlGetDescSize fd w).2 = open_fds w;
  GetDesc_fds fd size w : open_fds (IoctlHIDGetDesc fd size w).2 = open_fds w;
  GetUnique_fds fd n w : open_fds (IoctlGetUnique fd n w).2 = open_fds w;
}.

Create HintDb fds.
#[export] Hint Resolve EvalSymlinks_fds ReadDir_fds ReadAll_fds os_Stat_fds unix_Stat_fds unix_Fstat_fds
  RawInfo_fds DescSize_fds GetDesc_fds GetUnique_fds : fds.

Module LinuxOwnership.
Import GoStrings Metadata ReportDesc LinuxInventory LinuxOpen.

Section Ownership.
Context {W : Type} `{!LinuxFS W} `{!LinuxFd W} (open_fds : W → gset Z).

(** The interface between the open transaction and its system: what
    [openWithSystem] needs to know of the calls it is given. *)
Class OwnedSystem (s : openSystem W) : Prop := {
  anchor_owns path w :
    match os_anchor s path w with
    | (Ok anchor, w') => (a_fd anchor ∉ open_fds w) ∧ open_fds w' = ({[a_fd anchor]} ∪ open_fds w)
    | (Err _, w') => open_fds w' = open_fds w
    end;
  open_owns path w :
    match os_open s path w with
    | (Ok fd, w') => (fd ∉ open_fds w) ∧ open_fds w' = ({[fd]} ∪ open_fds w)
    | (Err _, w') => open_fds w' = open_fds w
    end;
  close_disowns fd w : open_fds (os_close s fd w) = open_fds w ∖ {[fd]};
  verify_keeps path anchor item w : open_fds (os_verify s path anchor item w).2 = open_fds w;
  inspect_keeps path strings w : open_fds (os_inspect s path strings w).2 = open_fds w;
  fstat_keeps fd w : open_fds (os_fstat s fd w).2 = open_fds w;
  info_keeps fd w : open_fds (os_info s fd w).2 = open_fds w;
  descriptor_keeps fd w : open_fds (os_descriptor s fd w).2 = open_fds w;
  unique_keeps fd w : open_fds (os_unique s fd w).2 = open_fds w;
}.

Definition kept (w w' : W) : Prop := open_fds w' = open_fds w.
#[export] Instance kept_preorder : PreOrder kept.
Proof. split; [by intros w|]. unfold kept. intros a b c -> ->. done. Qed.

Lemma kept_call {A} (f : W → res A * W) : (∀ w, open_fds (f w).2 = open_fds w) → steps_by kept (call f).
Proof. intros Hf w r w'. unfold call. intros [= H]. unfold kept. rewrite <- (Hf w), H. done. Qed.

Lemma kept_call_pair {A} (f : W → (A * option goerror) * W) :
  (∀ w, open_fds (f w).2 = open_fds w) → steps_by kept (call_pair f).
Proof.
  intros Hf w r w'. unfold call_pair. specialize (Hf w). destruct (f w) as [[a e] w1].
  intros [= <- <-]. exact Hf.
Qed.

Lemma kept_call_err (f : W → option goerror * W) :
  (∀ w, open_fds (f w).2 = open_fds w) → steps_by kept (call_err f).
Proof. intros Hf. apply steps_call_err. exact Hf. Qed.

Lemma kept_ensure ok e : steps_by kept (ensure ok e).
Proof. unfold ensure. destruct ok; [apply steps_ret|apply steps_throw]; apply _. Qed.

Lemma adds_then_close (S : gset Z) fd : fd ∉ S → ({[fd]} ∪ S) ∖ {[fd]} = S.
Proof. set_solver. Qed.
End Ownership.
#[local] Hint Resolve kept_call kept_call_pair kept_call_err kept_ensure : steps.

(** *** The transaction *)
Section Transaction.
Context {W : Type} (open_fds : W → gset Z) (s : openSystem W) `{!OwnedSystem open_fds s}.
#[local] Hint Resolve verify_keeps inspect_keeps fstat_keeps info_keeps descriptor_keeps unique_keeps : steps.

Lemma refresh_kept expected address path anchor item stat :
  steps_by (kept open_fds) (refresh s expected address path anchor item stat).
Proof. unfold refresh. walk. Qed.

Lemma same_device_kept fd current : steps_by (kept open_fds) (same_device s fd current).
Proof. unfold same_device. walk. Qed.

Lemma select_collection_kept expected fd index current descriptor :
  steps_by (kept open_fds) (select_collection (W:=W) expected fd index current descriptor).
Proof. unfold select_collection. walk. Qed.
#[local] Hint Resolve refresh_kept same_device_kept select_collection_kept : steps.

Lemma validate_kept expected address path index anchor item fd :
  steps_by (kept open_fds) (validate s expected address path index anchor item fd).
Proof. unfold validate. walk. Qed.

Lemma select_collection_fd expected fd index current descriptor w dev w' :
  select_collection (W:=W) expected fd index current descriptor w = Some (Ok dev, w') →
  LinuxOpen.fd dev = fd.
Proof.
  unfold select_collection, out_of_fuel, throw, ret. repeat case_match; intros; simplify_eq. done.
Qed.

Lemma validate_fd expected address path index anchor item fd w dev w' :
  validate s expected address path index anchor item fd w = Some (Ok dev, w') → LinuxOpen.fd dev = fd.
Proof.
  unfold validate. repeat (intros [(? & ? & ? & H)|(? & _ & [=])]%bind_inv; revert H).
  apply select_collection_fd.
Qed.

Lemma defer_close_inv {A} fd (m : M W A) w r w' : defer_close s fd m w = Some (r, w') →
  ∃ w1, m w = Some (r, w1) ∧ open_fds w' = open_fds w1 ∖ {[fd]}.
Proof.
  unfold defer_close. destruct (m w) as [[r1 w1]|]; [|done]. intros [= <- <-].
  exists w1. split; [done|apply (close_disowns _)].
Qed.

Lemma close_on_failure_inv {A} fd (m : M W A) w r w' : close_on_failure s fd m w = Some (r, w') →
  ∃ w1, m w = Some (r, w1) ∧
    open_fds w' = match r with Ok _ => open_fds w1 | Err _ => open_fds w1 ∖ {[fd]} end.
Proof.
  unfold close_on_failure. destruct (m w) as [[[a|e] w1]|]; [| |done]; intros [= <- <-];
    exists w1; (split; [done|]); [done|apply (close_disowns _)].
Qed.

(** What is left open after the anchor is pinned and until it is let go. *)
Lemma opened_owns expected address path index anchor item w r w' :
  (fd ←! map_err (nativeError "open") (call (os_open s (EPath (ie_endpoint item))));
   close_on_failure s fd (validate s expected address path index anchor item fd)) w = Some (r, w') →
  match r with
  | Ok dev => (LinuxOpen.fd dev ∉ open_fds w) ∧ open_fds w' = {[LinuxOpen.fd dev]} ∪ open_fds w
  | Err _ => open_fds w' = open_fds w
  end.
Proof.
  pose proof (open_owns _ (EPath (ie_endpoint item)) w) as Ho. unfold bind, map_err, call.
  destruct (os_open s _ w) as [[fd|e] w1]; [|by intros [= <- <-]]. destruct Ho as [Hn Ho].
  intros (w2 & Hv & Hc)%close_on_failure_inv. pose proof (validate_kept _ _ _ _ _ _ _ _ _ _ Hv) as Hk.
  unfold kept in Hk. destruct r as [dev|e]; rewrite Hc, Hk, Ho.
  - apply validate_fd in Hv as ->. done.
  - by apply adds_then_close.
Qed.

Lemma openWithSystem_owns expected w r w' : openWithSystem expected s w = Some (r, w') →
  match r with
  | Ok dev => (LinuxOpen.fd dev ∉ open_fds w) ∧ open_fds w' = {[LinuxOpen.fd dev]} ∪ open_fds w
  | Err _ => open_fds w' = open_fds w
  end.
Proof.
  unfold openWithSystem. intros [([address index] & w0 & [= E <-] & H)|(e & [= _ <-] & ->)]%bind_inv; [|done].
  set (path := Filepath.Join _) in H. pose proof (anchor_owns _ path w) as Ha. revert H.
  unfold bind at 1, call at 1. destruct (os_anchor s path w) as [[anchor|e] w1]; [|by intros [= <- <-]].
  destruct Ha as [Hn Ha]. intros (w2 & H & ->)%defer_close_inv.
  apply bind_inv in H as [(item & w3 & Hi & H)|(e & Hi & ->)];
    apply (kept_call_pair open_fds _ (inspect_keeps _ path true)) in Hi; unfold kept in Hi;
    [|rewrite Hi, Ha; by apply adds_then_close].
  apply bind_inv in H as [([] & w4 & Hs & H)|(e & Hs & ->)];
    apply (kept_ensure open_fds) in Hs; unfold kept in Hs;
    [|rewrite Hs, Hi, Ha; by apply adds_then_close].
  apply bind_inv in H as [([] & w5 & Hv & H)|(e & Hv & ->)];
    apply (kept_call_err open_fds _ (verify_keeps _ path anchor item)) in Hv; unfold kept in Hv;
    [|rewrite Hv, Hs, Hi, Ha; by apply adds_then_close].
  apply opened_owns in H. rewrite Hv, Hs, Hi, Ha in H.
  destruct r as [dev|e]; [|rewrite H; by apply adds_then_close].
  destruct H as [Hd ->]. set_solver.
Qed.
End Transaction.

(** *** The transaction returns *)
Section Returns.
Context {W : Type} (s : openSystem W).

Lemma total_call_pair {A} (f : W → (A * option goerror) * W) : total (call_pair f).
Proof. intros w. unfold call_pair. destruct (f w) as [[a e] w']. by eexists _, _. Qed.
Lemma total_call_err (f : W → option goerror * W) : total (call_err f).
Proof. intros w. unfold call_err. destruct (f w) as [[e|] w']; by eexists _, _. Qed.
Lemma total_native_call {A} (f : W → res A * W) : total (call f).
Proof. apply total_call. Qed.
Lemma total_ensure ok e : total (W:=W) (ensure ok e).
Proof. unfold ensure. destruct ok; [apply total_ret|apply total_throw]. Qed.
Lemma total_defer_close {A} fd (m : M W A) : total m → total (defer_close s fd m).
Proof. intros Hm w. unfold defer_close. destruct (Hm w) as (r & w' & ->). by eexists _, _. Qed.
Lemma total_close_on_failure {A} fd (m : M W A) : total m → total (close_on_failure s fd m).
Proof.
  intros Hm w. unfold close_on_failure. destruct (Hm w) as ([a|e] & w' & ->); by eexists _, _.
Qed.
#[local] Hint Resolve total_call_pair total_call_err total_native_call total_ensure total_defer_close
  total_close_on_failure : total.

Lemma total_select expected fd index current descriptor :
  total (W:=W) (select_collection expected fd index current descriptor).
Proof.
  unfold select_collection. destruct (ReportDescFacts.Parse_total descriptor) as [r ->]. totally.
Qed.
#[local] Hint Resolve total_select : total.

Lemma openWithSystem_total expected : total (openWithSystem expected s).
Proof.
  unfold openWithSystem, validate, refresh, same_device. totally.
  apply total_defer_close. totally. apply total_close_on_failure. totally.
Qed.
End Returns.


(** *** The native system is an owned system *)
Section Native.
Context {W : Type} `{!LinuxFS W} `{!LinuxFd W} (open_fds : W → gset Z) `{!FdLedger W open_fds}.

(** Runs through a function call by call; each call has a law in [fds]. *)
Ltac keeps_step :=
  match goal with
  | |- context [match ?c with _ => _ end] =>
      lazymatch type of c with
      | (_ * W)%type =>
          let H := fresh "L" in
          match c with
          | ?f ?w => assert (open_fds (f w).2 = open_fds w) as H by eauto with fds
          end;
          destruct c as [? ?]; cbn [snd] in H
      | _ => destruct c
      end
  end.
Ltac keeps :=
  repeat keeps_step; cbn [snd];
  first
    [ congruence
    | match goal with
      | |- open_fds (?f ?v).2 = _ => transitivity (open_fds v); [solve [eauto with fds]|congruence]
      end ].

Lemma readBounded_fds path limit w : open_fds (readBounded path limit w).2 = open_fds w.
Proof.
  unfold readBounded. pose proof (os_Open_fds path w) as H.
  destruct (os_Open path w) as [[fd|e] w1]; [|done]. destruct H as [Hn Ho].
  pose proof (ReadAll_fds fd (limit + 1) w1) as Hr.
  destruct (ReadAll fd (limit + 1) w1) as [r w2]. simpl in *.
  rewrite os_Close_fds, Hr, Ho. by apply adds_then_close.
Qed.

#[local] Hint Resolve readBounded_fds : fds.

Lemma readText_fds path w : open_fds (readText path w).2 = open_fds w.
Proof. unfold readText. keeps. Qed.
Lemma readProperties_fds path w : open_fds (readProperties path w).2 = open_fds w.
Proof. unfold readProperties. keeps. Qed.
#[local] Hint Resolve readText_fds readProperties_fds : fds.

Lemma resolveNode_fds path dev w : open_fds (resolveNode path dev w).2 = open_fds w.
Proof. unfold resolveNode. cbv zeta. keeps. Qed.
Lemma read_dev_fds path w : open_fds (read_dev path w).2 = open_fds w.
Proof. unfold read_dev. keeps. Qed.
#[local] Hint Resolve resolveNode_fds read_dev_fds : fds.
Lemma resolve_path_fds path dev w : open_fds (resolve_path path dev w).2 = open_fds w.
Proof. unfold resolve_path. keeps. Qed.
Lemma read_property_fds parent name target w :
  open_fds (read_property parent name target w).2 = open_fds w.
Proof. unfold read_property. keeps. Qed.
#[local] Hint Resolve resolve_path_fds read_property_fds : fds.
Lemma usb_strings_fds parent e w : open_fds (usb_strings parent e w).2 = open_fds w.
Proof. unfold usb_strings. keeps. Qed.
Lemma usb_interface_fds parent e w : open_fds (usb_interface parent e w).2 = open_fds w.
Proof. unfold usb_interface. keeps. Qed.
#[local] Hint Resolve usb_strings_fds usb_interface_fds : fds.
Lemma usb_loop_fds depth strings : ∀ parent e w, open_fds (usb_loop depth parent e strings w).2 = open_fds w.
Proof. induction depth as [|depth IH]; intros parent e w; simpl; [done|]. keeps. Qed.
#[local] Hint Resolve usb_loop_fds : fds.
Lemma readUSBMetadata_fds parent e strings w :
  open_fds (readUSBMetadata parent e strings w).2 = open_fds w.
Proof. unfold readUSBMetadata. keeps. Qed.
#[local] Hint Resolve readUSBMetadata_fds : fds.
Lemma inspect_fds path strings w : open_fds (inspect path strings w).2 = open_fds w.
Proof. unfold inspect. cbv zeta. keeps. Qed.
#[local] Hint Resolve inspect_fds : fds.

Lemma anchorSysfs_fds path w :
  match anchorSysfs path w with
  | (Ok anchor, w') => (a_fd anchor ∉ open_fds w) ∧ open_fds w' = ({[a_fd anchor]} ∪ open_fds w)
  | (Err _, w') => open_fds w' = open_fds w
  end.
Proof.
  unfold anchorSysfs. set (flags := Z.lor _ _).
  pose proof (unix_Open_fds path flags w) as H. destruct (unix_Open path flags w) as [[fd|e] w1]; [|done].
  destruct H as [Hn Ho]. pose proof (EvalSymlinks_fds path w1) as H1.
  destruct (EvalSymlinks path w1) as [[p|e] w2]; simpl in *.
  - pose proof (unix_Fstat_fds fd w2) as H2. destruct (unix_Fstat fd w2) as [[st|e] w3]; simpl in *.
    + split; [done|congruence].
    + rewrite unix_Close_fds, H2, H1, Ho. by apply adds_then_close.
  - rewrite unix_Close_fds, H1, Ho. by apply adds_then_close.
Qed.

Lemma verifySysfs_fds path anchor item w : open_fds (verifySysfs path anchor item w).2 = open_fds w.
Proof. unfold verifySysfs. cbv zeta. keeps. Qed.
Lemma readDescriptor_fds fd w : open_fds (readDescriptor fd w).2 = open_fds w.
Proof. unfold readDescriptor. keeps. Qed.
Lemma readUnique_fds fd w : open_fds (readUnique fd w).2 = open_fds w.
Proof. unfold readUnique. keeps. Qed.

#[export] Instance nativeOpenSystem_owned : OwnedSystem open_fds nativeOpenSystem.
Proof.
  constructor; simpl; intros;
    eauto using verifySysfs_fds, readDescriptor_fds, readUnique_fds, inspect_fds, unix_Close_fds with fds.
  - apply anchorSysfs_fds.
  - apply unix_Open_fds.
Qed.

(** Enumerating leaves no descriptor behind. *)
Lemma enumerate_loop_fds entries strings : ∀ s w,
  match enumerate_loop entries strings s w with
  | Some (_, w') => open_fds w' = open_fds w
  | None => True
  end.
Proof.
  induction entries as [|name entries IH]; intros s w; cbn [enumerate_loop]; [done|].
  destruct (Nat.leb _ _); [done|].
  pose proof (inspect_fds (Filepath.Join [classPath; name]) strings w) as Hi.
  destruct (inspect _ _ w) as [[item e] w1]. simpl in Hi.
  destruct (add_item item e s) as [[s1 []]|]; [exact Hi| |done].
  specialize (IH s1 w1). destruct (enumerate_loop _ _ s1 w1) as [[s2 w2]|]; [congruence|done].
Qed.

Lemma Enumerate_fds strings w :
  match Enumerate strings w with Some (_, w') => open_fds w' = open_fds w | None => True end.
Proof.
  unfold Enumerate. pose proof (os_Open_fds classPath w) as H.
  destruct (os_Open classPath w) as [[fd|e] w1]; [|by destruct (is_not_exist e)].
  destruct H as [Hn Ho]. set (n := Z.of_nat MaxInventoryDevices + 1).
  pose proof (ReadDir_fds fd n w1) as Hd. destruct (ReadDir fd n w1) as [[entries err] w2]. simpl in Hd.
  assert (Hclose : ∀ w3, open_fds w3 = open_fds w2 → open_fds (os_Close fd w3) = open_fds w).
  { intros w3 H3. rewrite os_Close_fds, H3, Hd, Ho. by apply adds_then_close. }
  destruct (match err with Some e => _ | None => _ end); [by apply Hclose|].
  destruct (Nat.ltb _ _);
    (match goal with
     | |- context [enumerate_loop ?l strings ?r w2] =>
         pose proof (enumerate_loop_fds l strings r w2) as Hl;
         destruct (enumerate_loop l strings r w2) as [[s' w3]|]; [by apply Hclose|done]
     end).
Qed.
End Native.
End LinuxOwnership.

(** ** The opened device *)
Module LinuxOpenProps.
Import GoStrings Metadata ReportDesc LinuxInventory LinuxOpen LinuxOwnership.

Section Exact.
Context {W : Type} (s : openSystem W).

Lemma parse_id_inv expected address index : parse_id expected = Ok (address, index) →
  EndpointID expected = endpointID address index ∧ 0 <= index.
Proof.
  unfold parse_id. destruct (Cut _ _) as [[a sel]|]; [|done].
  destruct (Strconv.Atoi sel) as [n|]; [|done].
  destruct (_ || negb (String.eqb _ _)) eqn:E; [done|]. intros [= <- <-].
  apply orb_false_iff in E as [E Hid]. apply orb_false_iff in E as [_ Hn].
  apply negb_false_iff, String.eqb_eq in Hid. apply Z.ltb_ge in Hn. done.
Qed.

Lemma ensure_inv ok e w r w' : ensure (W:=W) ok e w = Some (r, w') →
  w' = w ∧ match r with Ok _ => ok = true | Err e' => e' = e end.
Proof. unfold ensure, ret, throw. destruct ok; by intros [= <- <-]. Qed.

Lemma call_inv {A} (f : W → res A * W) w r w' : call f w = Some (r, w') → f w = (r, w').
Proof. unfold call. by intros [= ->]. Qed.
Lemma call_pair_inv {A} (f : W → (A * option goerror) * W) w a w' :
  call_pair f w = Some (Ok a, w') → f w = ((a, None), w').
Proof. unfold call_pair. destruct (f w) as [[b [e|]] w1]; by intros [= <- <-]. Qed.
Lemma call_err_inv (f : W → option goerror * W) w w' : call_err f w = Some (Ok (), w') → f w = (None, w').
Proof. unfold call_err. destruct (f w) as [[e|] w1]; by intros [= <-]. Qed.
Lemma map_err_inv {A} g (m : M W A) w a w' : map_err g m w = Some (Ok a, w') → m w = Some (Ok a, w').
Proof. unfold map_err. by destruct (m w) as [[[b|e] w1]|]. Qed.

(** One successful step of a transaction. *)
Lemma step_ok {A B} (m : M W A) (k : A → M W B) w b w' : bind m k w = Some (Ok b, w') →
  ∃ a w1, m w = Some (Ok a, w1) ∧ k a w1 = Some (Ok b, w').
Proof. intros [H|(e & _ & [=])]%bind_inv. exact H. Qed.

Lemma matches_same {T} `{EqDecision T} (want got : Field T) :
  agrees want got = true → matchesField want got = true.
Proof.
  unfold agrees, matchesField. destruct (Known want) eqn:E; [|done]. cbn.
  intros ->%bool_decide_eq_true. rewrite E. by rewrite bool_decide_true.
Qed.

Lemma refresh_inv expected address path anchor item stat current w w' :
  refresh s expected address path anchor item stat w = Some (Ok current, w') →
  sysPath current = address ∧ ie_dev current = st_Rdev stat ∧
  EPath (ie_endpoint current) = EPath (ie_endpoint item) ∧
  ∃ w1 w2, os_inspect s path true w = ((current, None), w1) ∧
    os_verify s path anchor current w1 = (None, w2) ∧ w' = w2.
Proof.
  unfold refresh. intros (c & w1 & Hi%map_err_inv%call_pair_inv & H)%step_ok.
  apply step_ok in H as ([] & w2 & [-> Hok]%ensure_inv & H).
  apply step_ok in H as ([] & w3 & Hv%call_err_inv & H).
  injection H as <- <-. rewrite !andb_true_iff, !String.eqb_eq, Z.eqb_eq in Hok.
  destruct Hok as [[? ?] ?]. split_and!; eauto.
Qed.

(** What the opened descriptor says, checked against sysfs. *)
Definition same_as_sysfs (fd : Z) (current : inventoryEntry) : Prop :=
  (∃ w w' bus vendor product, os_info s fd w = (Ok (bus, vendor, product), w') ∧
     EBus (ie_endpoint current) = busType bus ∧
     Value (EVendorID (ie_endpoint current)) = u16 vendor ∧
     Value (EProductID (ie_endpoint current)) = u16 product) ∧
  (∃ w w', os_descriptor s fd w = (Ok (ie_descriptor current), w')) ∧
  (∃ w r w', os_unique s fd w = (r, w') ∧
     match r with
     | Ok unique => Known (hidUnique current) = true → unique = Value (hidUnique current)
     | Err e => IsErrno e ENOTTY = true ∨ IsErrno e EINVAL = true
     end).

Lemma same_device_inv fd current descriptor w w' :
  same_device s fd current w = Some (Ok descriptor, w') →
  descriptor = ie_descriptor current ∧ same_as_sysfs fd current.
Proof.
  unfold same_device. intros ([[bus vendor] product] & w1 & Hi%map_err_inv%call_inv & H)%step_ok.
  apply step_ok in H as ([] & w2 & [-> Hok]%ensure_inv & H).
  apply step_ok in H as (d & w3 & Hd%call_inv & H).
  apply step_ok in H as ([] & w4 & [-> ->%bool_decide_eq_true]%ensure_inv & H).
  apply step_ok in H as (u & w5 & Hu & H).
  apply step_ok in H as ([] & w6 & Hc & H). injection H as <- _.
  rewrite !andb_true_iff, !Z.eqb_eq, bool_decide_eq_true in Hok. destruct Hok as [[? ?] ?].
  assert (Hq : os_unique s fd w3 = (u, w5)).
  { unfold attempt, call in Hu. destruct (os_unique s fd w3). injection Hu as <- <-. done. }
  split; [done|]. split_and!; [by eauto 12|by eauto|]. exists w3, u, w5. split; [done|].
  destruct u as [u|e]; apply ensure_inv in Hc as [_ Hc]; cbn in Hc.
  - intros HK. rewrite HK in Hc. by apply String.eqb_eq.
  - by apply orb_true_iff.
Qed.

Lemma select_collection_inv expected fd index current dev w w' (Hindex : 0 <= index) :
  select_collection (W:=W) expected fd index current (ie_descriptor current) w = Some (Ok dev, w') →
  w' = w ∧ ∃ collections c, Parse (ie_descriptor current) = Some (Ok collections) ∧
    collections !! Z.to_nat index = Some c ∧ Index c = index ∧ Supported c = true ∧
    let endpoint := with_usage (CUsage c) (with_id (EndpointID expected) (ie_endpoint current)) in
    matches expected endpoint = true ∧ dev = MkDev fd endpoint (Layout c).
Proof.
  unfold select_collection. destruct (Parse _) as [[cs|e]|] eqn:HP; [|done|done].
  destruct (cs !! Z.to_nat index) as [c|] eqn:Hc; [|done]. cbv zeta.
  destruct (matches _ _) eqn:Hm; [|done]. destruct (Supported c) eqn:Hs; [|done]. cbn [negb].
  intros [= <- <-]. split; [done|]. exists cs, c.
  destruct (ReportDescProps.Parse_layouts _ _ _ _ HP Hc) as [Hix _]. rewrite Z2Nat.id in Hix by lia.
  by split_and!.
Qed.

Lemma validate_inv expected address path index anchor item fd dev w w' (Hindex : 0 <= index) :
  validate s expected address path index anchor item fd w = Some (Ok dev, w') →
  ∃ stat current,
    (∃ w1, os_fstat s fd w = (Ok stat, w1)) ∧ is_char_device stat (ie_dev item) = true ∧
    sysPath current = address ∧ ie_dev current = st_Rdev stat ∧
    EPath (ie_endpoint current) = EPath (ie_endpoint item) ∧
    (∃ w1 w2, os_inspect s path true w1 = ((current, None), w2) ∧
       ∃ w3, os_verify s path anchor current w2 = (None, w3)) ∧
    same_as_sysfs fd current ∧
    (∃ w1, os_verify s path anchor current w1 = (None, w')) ∧
    ∃ w1, select_collection expected fd index current (ie_descriptor current) w1 = Some (Ok dev, w').
Proof.
  unfold validate. intros (stat & w1 & Hs%map_err_inv%call_inv & H)%step_ok.
  apply step_ok in H as ([] & w2 & [-> Hok]%ensure_inv & H).
  apply step_ok in H as (current & w3 & Hr%refresh_inv & H).
  destruct Hr as (Hp & Hd & He & wi & wv & Hi & Hv & ->).
  apply step_ok in H as (d & w4 & [-> Hsame]%same_device_inv & H).
  apply step_ok in H as ([] & w5 & Hv2%call_err_inv & H).
  pose proof (select_collection_inv _ _ _ _ _ _ _ Hindex H) as [-> _].
  exists stat, current. split_and!; eauto 8.
Qed.

(** The package accepts what the transaction returns. *)
Lemma opened_checked expected current c index dev
    (cs : Description) (HP : Parse (ie_descriptor current) = Some (Ok cs)) (Hc : cs !! index = Some c) :
  Supported c = true →
  EPath expected = ""%string ∨ EPath expected = EPath (ie_endpoint current) →
  matches expected (d_endpoint dev) = true →
  d_endpoint dev = with_usage (CUsage c) (with_id (EndpointID expected) (ie_endpoint current)) →
  d_layout dev = Layout c →
  NativeHID.open_check expected (Some (NativeHID.MkDev (d_endpoint dev) (d_layout dev))) None = None.
Proof.
  intros Hs Hpath Hm He Hl. unfold NativeHID.open_check.
  change (NativeHID.d_endpoint _) with (d_endpoint dev). change (NativeHID.d_layout _) with (d_layout dev).
  assert (matchesEndpoint expected (d_endpoint dev) = true) as ->.
  { unfold matches in Hm. rewrite !andb_true_iff in Hm. destruct_and! Hm.
    unfold matchesEndpoint. rewrite !andb_true_iff. split_and!;
      try (by apply matches_same); rewrite He in *; cbn [EndpointID EPath EBus with_usage with_id] in *.
    - apply String.eqb_refl.
    - apply orb_true_iff. destruct Hpath as [-> | ->]; [by left|right; apply String.eqb_refl].
    - rewrite orb_true_iff, !bool_decide_eq_true in *. naive_solver. }
  destruct (ReportDescProps.Parse_layouts _ _ _ _ HP Hc) as [_ Hok]. specialize (Hok Hs).
  assert (NativeHID.layout_ok (d_layout dev) = true) as ->; [|done].
  rewrite Hl. unfold NativeHID.layout_ok, NativeHID.MaxReportSize. unfold MaxReportSize in Hok.
  rewrite !andb_true_iff, !Z.ltb_lt, !Z.leb_le. lia.
Qed.

Lemma openWithSystem_inv expected w dev w' : openWithSystem expected s w = Some (Ok dev, w') →
  ∃ address index anchor item,
    let path := Filepath.Join [classPath; Filepath.Base address] in
    EndpointID expected = endpointID address index ∧ 0 <= index ∧
    (EPath expected = ""%string ∨ EPath expected = EPath (ie_endpoint item)) ∧
    (∃ w1, os_anchor s path w = (Ok anchor, w1)) ∧
    ∃ fd w1 w2 w3, os_open s (EPath (ie_endpoint item)) w1 = (Ok fd, w2) ∧
      validate s expected address path index anchor item fd w2 = Some (Ok dev, w3) ∧
      w' = os_close s (a_fd anchor) w3.
Proof.
  unfold openWithSystem. intros ([address index] & w0 & [= E <-] & H)%step_ok.
  apply parse_id_inv in E as [Hid Hindex].
  apply step_ok in H as (anchor & w1 & Ha%call_inv & H). unfold defer_close in H.
  match type of H with match ?m with _ => _ end = _ => destruct m as [[r wl]|] eqn:Hm end; [|done].
  injection H as -> <-.
  apply step_ok in Hm as (item & w2 & _ & H).
  apply step_ok in H as ([] & w3 & [-> Hok]%ensure_inv & H).
  apply step_ok in H as ([] & w4 & _ & H).
  apply step_ok in H as (fd & w5 & Ho%map_err_inv%call_inv & H).
  unfold close_on_failure in H. destruct (validate _ _ _ _ _ _ _ _ _) as [[[d|e] w6]|] eqn:Hv; [|done|done].
  injection H as -> <-.
  apply andb_true_iff in Hok as [_ Hpath]. apply orb_true_iff in Hpath.
  exists address, index, anchor, item. cbv zeta. split_and!; [done|done| |by eauto|].
  - destruct Hpath as [Hp|Hp]; [left; by destruct (EPath expected)|right; by apply String.eqb_eq].
  - by exists fd, w4, w5, w6.
Qed.

(** An opened Linux device is the collection that was asked for, checked
    on the opened descriptor itself. When the transaction returns a device,
    the endpoint identifier names a sysfs address and a collection; the
    metadata it is judged by ([current]) was read after the node was opened
    and belongs to that address; the open descriptor is a character device
    with the same device number; the bus, vendor, product, report descriptor
    and unique string the kernel reports for the descriptor are those of
    sysfs; the pinned sysfs directory was verified last, before it was let go;
    the collection of that index has an unambiguous layout, which is the
    device's; and the package's own checks accept the device. *)
Theorem linux_open_exact (expected : Endpoint) (w w' : W) (dev : device)
    (H : openWithSystem expected s w = Some (Ok dev, w')) :
  ∃ address index anchor stat current collections c,
    let path := Filepath.Join [classPath; Filepath.Base address] in
    (EndpointID expected = endpointID address index ∧ 0 <= index ∧ sysPath current = address ∧
     ∃ w1, os_anchor s path w = (Ok anchor, w1)) ∧
    (∃ w1 w2, os_open s (EPath (ie_endpoint current)) w1 = (Ok (fd dev), w2) ∧
       (∃ w3, os_fstat s (fd dev) w2 = (Ok stat, w3)) ∧
       Z.land (st_Mode stat) S_IFMT = S_IFCHR ∧ ie_dev current = st_Rdev stat) ∧
    (∃ w1 w2 w3, os_inspect s path true w1 = ((current, None), w2) ∧
       os_verify s path anchor current w2 = (None, w3)) ∧
    same_as_sysfs (fd dev) current ∧
    (∃ w1 w2, os_verify s path anchor current w1 = (None, w2) ∧ w' = os_close s (a_fd anchor) w2) ∧
    (Parse (ie_descriptor current) = Some (Ok collections) ∧ collections !! Z.to_nat index = Some c ∧
     Index c = index ∧ Supported c = true ∧ d_layout dev = Layout c ∧
     d_endpoint dev = with_usage (CUsage c) (with_id (EndpointID expected) (ie_endpoint current))) ∧
    NativeHID.open_check expected (Some (NativeHID.MkDev (d_endpoint dev) (d_layout dev))) None = None.
Proof.
  apply openWithSystem_inv in H as (address & index & anchor & item & Hid & Hix & Hpath & Ha & Ho).
  destruct Ho as (f & w1 & w2 & w3 & Hopen & Hv & Hclose). cbv zeta in *.
  set (path := Filepath.Join _) in *.
  apply validate_inv in Hv as (stat & current & Hst & Hchr & Hp & Hd & He & Hi & Hsame & Hver & Hsel);
    [|exact Hix].
  destruct Hsel as (w4 & Hsel). apply select_collection_inv in Hsel as [-> Hsel]; [|exact Hix].
  destruct Hsel as (cs & c & HP & Hc & Hci & Hsup & Hm & Hdev).
  exists address, index, anchor, stat, current, cs, c. cbv zeta. subst dev.
  apply andb_true_iff in Hchr as [Hmode%Z.eqb_eq _].
  split_and!; try done.
  - exists w1, w2. rewrite He. by split_and!.
  - destruct Hi as (wa & wb & Hi & wc & Hvi). by exists wa, wb, wc.
  - destruct Hver as [wa Hver]. by exists wa, w4.
  - eapply opened_checked; try done. rewrite He. exact Hpath.
Qed.
End Exact.

Section Owned.
Context {W : Type} `{!LinuxFS W} `{!LinuxFd W} (open_fds : W → gset Z) `{!FdLedger W open_fds}.

(** Opening a Linux device returns, and leaves open exactly the
    descriptor of the device it returns. [Open] on the native system always
    returns; when it fails, whatever call failed, every descriptor it or the
    inventory opened on the way - the sysfs anchor, the attributes, the device
    node - is closed again; when it succeeds, one descriptor more is open, it
    is a new one, and it is the device's. *)
Theorem linux_open_owned (expected : Endpoint) (w : W) :
  ∃ r w', Open expected w = Some (r, w') ∧
    match r with
    | Ok dev => (fd dev ∉ open_fds w) ∧ open_fds w' = {[fd dev]} ∪ open_fds w
    | Err _ => open_fds w' = open_fds w
    end.
Proof.
  destruct (openWithSystem_total nativeOpenSystem expected w) as (r & w' & H).
  exists r, w'. split; [exact H|]. exact (openWithSystem_owns open_fds _ _ _ _ _ H).
Qed.
End Owned.

(** *** Endpoint identifiers *)
Lemma prefix_of_id (address : string) (rest : string) :
  HasPrefix (address +:+ String "#" rest) "/sys/" = true → HasPrefix address "/sys/" = true.
Proof.
  unfold HasPrefix.
  do 5 (destruct address as [|? address];
    [simpl; repeat case_match; done|simpl; case_match; [subst|done]]).
  by destruct address.
Qed.

Lemma slen_app a b : slen (a +:+ b) = slen a + slen b.
Proof. unfold slen. induction a as [|x a IH]; simpl; [done|]. lia. Qed.

(** The collection identifiers of the inventory and of [Open] are the
    same language. What [Open] parses is exactly an identifier [endpointID]
    makes, of a path below /sys/ and a collection that is not negative; and
    every such identifier of bounded length whose path has no [#] parses back
    to its path and collection. *)
Theorem linux_id_roundtrip (expected : Endpoint) (address : string) (index : Z) :
  (parse_id expected = Ok (address, index) →
     EndpointID expected = endpointID address index ∧ HasPrefix address "/sys/" = true ∧
     0 <= index < 2 ^ 63 ∧ slen (EndpointID expected) <= MaxMetadataSize + 64) ∧
  ("#"%char ∉ String.list_ascii_of_string address → HasPrefix address "/sys/" = true →
   0 <= index < 2 ^ 63 → EndpointID expected = endpointID address index →
   slen (EndpointID expected) <= MaxMetadataSize + 64 → slen (EPath expected) <= MaxMetadataSize →
   parse_id expected = Ok (address, index)).
Proof.
  split.
  - unfold parse_id. destruct (Cut _ _) as [[a sel]|]; [|done].
    destruct (Strconv.Atoi sel) as [n|] eqn:Ha; [|done].
    destruct (_ || negb (String.eqb _ _)) eqn:E; [done|]. intros [= <- <-].
    rewrite !orb_false_iff, !negb_false_iff, String.eqb_eq, !Z.ltb_ge in E.
    destruct E as [[[[Hl _] Hp] Hn] Hid].
    assert (n < 2 ^ 63) by (by eapply Strconv.Atoi_bound). rewrite <- Hid in Hp.
    split_and!; [done| |lia|lia|done].
    apply (prefix_of_id a ("collection=" +:+ Strconv.Itoa n)). exact Hp.
  - intros Hh Hp Hn Hid Hl Hpath. unfold parse_id. rewrite Hid at 1.
    unfold endpointID at 1. rewrite TrimPrefix_app.
    rewrite (Cut_app "#" "collection=" address (Strconv.Itoa index)) by done.
    rewrite Strconv.Atoi_Itoa by lia. rewrite Hid, String.eqb_refl. rewrite Hid in Hl.
    assert (HasPrefix (endpointID address index) "linux:/sys/" = true) as ->.
    { unfold endpointID, HasPrefix in *. simpl.
      do 5 (destruct address as [|? address]; [done|simpl in *; case_match; [subst|done]]).
      by destruct address. }
    rewrite (proj2 (Z.ltb_ge _ _) Hl), (proj2 (Z.ltb_ge _ _) Hpath).
    by rewrite (proj2 (Z.ltb_ge index 0)) by lia.
Qed.
End LinuxOpenProps.
