(* ===== verification/LinuxIO.v ===== *)
(** * The Linux inventory and report I/O

    [Enumerate] against a reference inventory without limits, and
    [device.Read] against the queue of reports the kernel keeps for a
    descriptor. *)
From S2P Require Import Prelude GoErrors GoText GoIO Descriptors ReportDesc HidConnection HidNative.
From S2P Require Import LinuxInventory LinuxDevice.

Module LinuxInventoryProps.
Import GoStrings Metadata ReportDesc NativeHID LinuxInventory.

Section Inventory.
Context {W : Type} `{!LinuxFS W}.

(** ** The reference inventory: every entry inspected, in order, no limits *)
Fixpoint inspect_all (names : list string) (strings : bool) (w : W)
    : list (inventoryEntry * option goerror) * W :=
  match names with
  | [] => ([], w)
  | name :: names =>
      let '(item, w) := inspect (Filepath.Join [classPath; name]) strings w in
      let '(items, w) := inspect_all names strings w in
      (item :: items, w)
  end.

Definition usages_of (item : inventoryEntry) : list Collection :=
  match Inventory (ie_descriptor item) with Some (cs, _) => cs | None => [] end.
Definition device_endpoints (item : inventoryEntry) : list Endpoint :=
  if str_empty (sysPath item) then [] else map (collection_endpoint item) (usages_of item).

(** An observation the snapshot may be complete with. *)
Definition observed (it : inventoryEntry * option goerror) : Prop :=
  it.2 = None ∧ (sysPath it.1 ≠ ""%string → usages_of it.1 ≠ []).

(** Incomplete snapshots say why. *)
Definition honest (s : raw_snapshot) : Prop := raw_complete s = true ∨ raw_warnings s ≠ [].
Definition within (s : raw_snapshot) : Prop := (length (raw_endpoints s) <= MaxInventoryEndpoints)%nat.

Lemma honest_warn s complete e : honest (warn s complete e).
Proof. right. simpl. by destruct (raw_warnings s). Qed.

Lemma add_collections_spec item cs : ∀ s s' stop,
  add_collections item cs s = (s', stop) → within s → honest s →
  within s' ∧ honest s' ∧
  (if stop then raw_complete s' = false
   else raw_complete s' = raw_complete s ∧
        raw_endpoints s' = raw_endpoints s ++ map (collection_endpoint item) cs).
Proof.
  induction cs as [|c cs IH]; intros s s' stop; simpl.
  - intros [= <- <-] Hw Hh. by rewrite app_nil_r.
  - unfold within. destruct (Nat.eqb_spec (length (raw_endpoints s)) MaxInventoryEndpoints) as [E|E].
    + intros [= <- <-] Hw Hh. split_and!; [done|apply honest_warn|]. simpl. apply andb_false_r.
    + intros H Hw Hh. apply IH in H as (H1 & H2 & H3); [|unfold within; simpl; rewrite length_app; simpl; lia|done].
      split_and!; [done|done|]. destruct stop; [done|]. simpl in H3. destruct H3 as [-> ->].
      by rewrite <- (assoc_L (++)).
Qed.

Lemma warn_complete s complete e : raw_complete (warn s complete e) = raw_complete s && complete.
Proof. done. Qed.

Lemma str_empty_eq s : str_empty s = true ↔ s = ""%string.
Proof. by destruct s. Qed.

(** One device, against the reference. *)
Lemma add_item_spec item itemErr s : within s → (length (raw_endpoints s) < MaxInventoryEndpoints)%nat →
  honest s →
  ∃ s' stop, add_item item itemErr s = Some (s', stop) ∧ within s' ∧ honest s' ∧
    (stop = true → raw_complete s' = false) ∧
    (raw_complete s' = true → raw_complete s = true ∧ observed (item, itemErr) ∧
       raw_endpoints s' = raw_endpoints s ++ device_endpoints item).
Proof.
  intros Hw Hroom Hh. unfold add_item, observed, device_endpoints, usages_of. simpl.
  set (s1 := match itemErr with Some e => warn s false e | None => s end).
  assert (H1 : within s1 ∧ raw_endpoints s1 = raw_endpoints s ∧ honest s1 ∧
               (raw_complete s1 = true → raw_complete s = true ∧ itemErr = None)).
  { subst s1. destruct itemErr; split_and!; try done; [apply honest_warn|].
    rewrite warn_complete, andb_false_r. done. }
  clearbody s1. destruct H1 as (Hw1 & He1 & Hh1 & Hc1).
  destruct (str_empty (sysPath item)) eqn:Hp.
  { exists s1, false. split_and!; try done. intros [? ?]%Hc1. apply str_empty_eq in Hp.
    rewrite He1, app_nil_r. split_and!; done. }
  destruct (ReportDescFacts.Inventory_total (ie_descriptor item)) as (cs & e & ->).
  assert (Hrun : ∀ t, within t → honest t → raw_endpoints t = raw_endpoints s →
    (raw_complete t = true → raw_complete s = true ∧ itemErr = None) → cs ≠ [] →
    ∃ s' stop, Some (add_collections item cs t) = Some (s', stop) ∧ within s' ∧ honest s' ∧
      (stop = true → raw_complete s' = false) ∧
      (raw_complete s' = true → raw_complete s = true ∧
         (itemErr = None ∧ (sysPath item ≠ ""%string → cs ≠ [])) ∧
         raw_endpoints s' = raw_endpoints s ++ map (collection_endpoint item) cs)).
  { intros t Ht Htt Het Hct Hcs. destruct (add_collections item cs t) as [s' stop] eqn:E.
    destruct (add_collections_spec item cs t s' stop E Ht Htt) as (Ha & Hb & Hc).
    exists s', stop. split_and!; [done|done|done|by intros ->|].
    intros Hs. destruct stop; [congruence|]. destruct Hc as [Hc ->]. rewrite Hc in Hs.
    apply Hct in Hs as [? ?]. rewrite Het. by split_and!. }
  destruct cs as [|c cs].
  - assert (Hlone : ∀ w, raw_complete (append_endpoint (warn s1 false w)
                      (with_id (endpointID (sysPath item) (-1)) (ie_endpoint item))) = false)
      by (intros w; simpl; apply andb_false_r).
    assert (Hwl : ∀ w, within (append_endpoint (warn s1 false w)
                    (with_id (endpointID (sysPath item) (-1)) (ie_endpoint item)))).
    { intros w. unfold within. simpl. rewrite length_app, He1. simpl. lia. }
    destruct e; eexists _, false; (split_and!; [done|apply Hwl|apply honest_warn|done|]); by rewrite Hlone.
  - destruct e as [e|].
    + apply Hrun; [done|apply honest_warn|exact He1| |done].
      rewrite warn_complete, andb_true_r. exact Hc1.
    + by apply Hrun.
Qed.

Lemma enumerate_loop_spec names strings : ∀ s w, within s → honest s →
  ∃ s' w', enumerate_loop names strings s w = Some (s', w') ∧ within s' ∧ honest s' ∧
    (raw_complete s' = true → raw_complete s = true ∧
       let '(items, w2) := inspect_all names strings w in
       w' = w2 ∧ Forall observed items ∧
       raw_endpoints s' = raw_endpoints s ++ concat (map (λ it, device_endpoints it.1) items)).
Proof.
  induction names as [|name names IH]; intros s w Hw Hh; cbn [enumerate_loop inspect_all].
  { exists s, w. simpl. rewrite app_nil_r. by split_and!. }
  destruct (Nat.leb_spec MaxInventoryEndpoints (length (raw_endpoints s))) as [E|E].
  { exists (endpoint_limit s), w. split_and!; [done|done|apply honest_warn|].
    unfold endpoint_limit. rewrite warn_complete, andb_false_r. done. }
  destruct (inspect _ _ w) as [[item itemErr] w1].
  destruct (add_item_spec item itemErr s Hw E Hh) as (s1 & stop & -> & Hw1 & Hh1 & Hs1 & Hc1).
  destruct stop.
  { exists s1, w1. split_and!; try done. by rewrite Hs1. }
  destruct (IH s1 w1 Hw1 Hh1) as (s2 & w2 & -> & Hw2 & Hh2 & Hc2).
  exists s2, w2. split_and!; try done. intros [Hc He]%Hc2. apply Hc1 in Hc as (Hc & Hob & Hend).
  split; [done|]. destruct (inspect_all names strings w1) as [items w3].
  destruct He as (-> & Hall & ->). rewrite Hend. simpl. rewrite <- (assoc_L (++)). by split_and!; [|constructor|].
Qed.

Lemma Enumerate_returns strings w : ∃ r w', Enumerate strings w = Some (r, w').
Proof.
  unfold Enumerate. destruct (os_Open classPath w) as [[fd|e] w1]; [|destruct (is_not_exist e); by eexists _, _].
  destruct (ReadDir fd _ w1) as [[names eof] w2]. destruct (match eof with Some e => _ | None => _ end); [by eexists _, _|].
  destruct (MaxInventoryDevices <? length names)%nat.
  - destruct (enumerate_loop_spec (take MaxInventoryDevices names) strings
                (warn (MkRaw [] true []) false (resourceLimit "inventory device limit")) w2)
      as (s & w3 & -> & _); [unfold within; simpl; lia|apply honest_warn|by eexists _, _].
  - destruct (enumerate_loop_spec names strings (MkRaw [] true []) w2)
      as (s & w3 & -> & _); [unfold within; simpl; lia|by left|by eexists _, _].
Qed.

(** C24: the Linux inventory against its reference. Enumerating always
    returns, and with at most 1024 endpoints; a snapshot that is not complete
    carries a warning or an error that says so. A snapshot that claims to be
    complete is exact: either the host has no hidraw class at all, and it is
    empty; or the class directory held at most 128 entries, each of them was
    inspected without any failure and has collections that can be addressed,
    and the endpoints are those of the reference inventory - one for every
    collection of every device, in the order of the directory - with nothing
    cut off and the directory closed last. *)
Theorem linux_inventory_exact (strings : bool) (w : W) :
  ∃ s err w', Enumerate strings w = Some ((s, err), w') ∧
    (length (raw_endpoints s) <= 1024)%nat ∧
    (raw_complete s = false → raw_warnings s ≠ [] ∨ err ≠ None) ∧
    (raw_complete s = true → err = None ∧
      ((∃ e, os_Open classPath w = (Err e, w') ∧ is_not_exist e = true ∧ raw_endpoints s = []) ∨
       ∃ fd names eof w1 w2, os_Open classPath w = (Ok fd, w1) ∧
         ReadDir fd 129 w1 = ((names, eof), w2) ∧ (length names <= 128)%nat ∧
         let '(items, w3) := inspect_all names strings w2 in
         Forall observed items ∧
         raw_endpoints s = concat (map (λ it, device_endpoints it.1) items) ∧ w' = os_Close fd w3)).
Proof.
  unfold Enumerate. change (Z.of_nat MaxInventoryDevices + 1) with 129.
  destruct (os_Open classPath w) as [[fd|e] w1] eqn:Ho.
  2: { destruct (is_not_exist e) eqn:E.
       - exists (MkRaw [] true []), None, w1. split; [done|]. split; [simpl; lia|]. split; [done|].
         intros _. split; [done|]. left. by exists e.
       - eexists (MkRaw [] false []), _, w1. split; [done|]. split; [simpl; lia|]. split; [by right|done]. }
  destruct (ReadDir fd 129 w1) as [[names eof] w2] eqn:Hr.
  destruct (match eof with Some e => _ | None => _ end) as [e|].
  { eexists _, _, _. split_and!; [done|simpl; lia|by right|done]. }
  change MaxInventoryDevices with 128%nat. destruct (Nat.ltb_spec 128 (length names)) as [Hlen|Hlen].
  - destruct (enumerate_loop_spec (take 128 names) strings
                (warn (MkRaw [] true []) false (resourceLimit "inventory device limit")) w2)
      as (s & w3 & -> & Hw & Hh & Hc); [unfold within; simpl; lia|apply honest_warn|].
    eexists _, _, _. split_and!; [done|exact Hw| |].
    + intros Hf. destruct Hh; [congruence|by left].
    + intros [? _]%Hc. done.
  - destruct (enumerate_loop_spec names strings (MkRaw [] true []) w2)
      as (s & w3 & -> & Hw & Hh & Hc); [unfold within; simpl; lia|by left|].
    eexists _, _, _. split_and!; [done|exact Hw| |].
    + intros Hf. destruct Hh; [congruence|by left].
    + intros Ht. apply Hc in Ht as [_ Ht]. split; [done|]. right.
      exists fd, names, eof, w1, w2. split_and!; [done|done|lia|].
      destruct (inspect_all names strings w2) as [items w4]. destruct Ht as (-> & Hall & ->). done.
Qed.
End Inventory.
End LinuxInventoryProps.

(** ** Reading reports

    The kernel keeps, for an open hidraw descriptor, the queue of raw reports
    it has not read yet, and gives a call of [read] the oldest of them, cut to
    the buffer.  [disturbances] bounds how often a wait can still be disturbed
    (a signal, a wake-up without data). *)
Class HidrawQueue (W : Type) `{!LinuxFd W} (file : Z) (pending : W → list bytes) (disturbances : W → nat) := {
  queue_now w : pending (time_Now w).2 = pending w ∧ disturbances (time_Now w).2 = disturbances w;
  queue_poll timeout w :
    let '(r, w') := unix_Poll file timeout w in
    pending w' = pending w ∧ (disturbances w' <= disturbances w)%nat ∧
    (∀ e, r = Err e → IsErrno e EINTR = true → (disturbances w' < disturbances w)%nat);
  queue_read n w :
    match unix_Read file n w with
    | (Ok [], w') => pending w' = pending w
    | (Ok data, w') =>
        (∃ raw, pending w = raw :: pending w' ∧ raw ≠ [] ∧ data = take (Z.to_nat n) raw) ∧
        (disturbances w' <= disturbances w)%nat
    | (Err e, w') => pending w' = pending w ∧
        (IsErrno e EINTR || IsErrno e EAGAIN = true → (disturbances w' < disturbances w)%nat)
    end;
}.

Module LinuxReadProps.
Import Metadata ReportDesc LinuxInventory LinuxOpen LinuxDevice.

(** The raw form of a report of a collection. *)
Definition wire (spec : ReportSpec) (data : bytes) : bytes :=
  if SpecID spec =? 0 then data else SpecID spec :: data.

(** A raw report of another collection of the device. *)
Definition foreign_report (spec : ReportSpec) (raw : bytes) : Prop :=
  SpecID spec ≠ 0 ∧ ∃ b rest, raw = b :: rest ∧ b ≠ SpecID spec.

Lemma accept_report_spec l data : data ≠ [] →
  match accept_report l data with
  | None => foreign_report (Input l) data
  | Some (Ok report) => ReportID report = SpecID (Input l) ∧ len (Data report) = Size (Input l) ∧
      data = wire (Input l) (Data report)
  | Some (Err e) => e = driver_error "read" KindInvalidReport "native input length differs from descriptor" ∧
      ¬ foreign_report (Input l) data ∧ ∀ body, len body = Size (Input l) → data ≠ wire (Input l) body
  end.
Proof.
  intros Hne. destruct data as [|b rest]; [done|]. unfold accept_report, wire, foreign_report.
  change ((b :: rest) !!! 0%nat) with b. change (drop 1 (b :: rest)) with rest.
  destruct (Z.eqb_spec (SpecID (Input l)) 0) as [E0|E0]; cbn [negb].
  - destruct (Z.eqb_spec (len (b :: rest)) (Size (Input l))) as [E|E]; cbn [negb].
    + done.
    + split_and!; [done|naive_solver|]. intros body Hb <-. done.
  - destruct (Z.eqb_spec b (SpecID (Input l))) as [Eb|Eb]; cbn [negb].
    + destruct (Z.eqb_spec (len rest) (Size (Input l))) as [E|E]; cbn [negb].
      * by subst.
      * split_and!; [done|naive_solver|]. intros body Hb [= _ <-]. done.
    + split; [done|]. by exists b, rest.
Qed.

Section Read.
Context {W : Type} `{!LinuxFd W} (d : device) (pending : W → list bytes) (disturbances : W → nat).
Context `{!HidrawQueue W (fd d) pending disturbances}.
Context (Hlayout : NativeHID.layout_ok (d_layout d) = true).

Definition malformed : goerror :=
  driver_error "read" KindInvalidReport "native input length differs from descriptor".

(** What a call takes off the queue besides what it skips. *)
Definition taken_by (r : res Report) (taken : list bytes) : Prop :=
  match r with
  | Ok report => taken = [wire (Input (d_layout d)) (Data report)] ∧
      ReportID report = SpecID (Input (d_layout d)) ∧ len (Data report) = Size (Input (d_layout d))
  | Err e => taken = [] ∨
      ∃ raw, taken = [raw] ∧ e = malformed ∧ ¬ foreign_report (Input (d_layout d)) raw ∧
        ∀ body, len body = Size (Input (d_layout d)) → raw ≠ wire (Input (d_layout d)) body
  end.

(** One byte more than a report may have tells an oversized one. *)
Lemma take_wire raw body : len body = Size (Input (d_layout d)) →
  take (Z.to_nat (NativeHID.MaxReportSize + 2)) raw = wire (Input (d_layout d)) body →
  raw = wire (Input (d_layout d)) body.
Proof.
  intros Hb Ht. unfold NativeHID.layout_ok, NativeHID.MaxReportSize in *.
  rewrite !andb_true_iff, !Z.ltb_lt, !Z.leb_le in Hlayout.
  assert (Hl : (length (wire (Input (d_layout d)) body) <= 4097)%nat).
  { unfold wire, len in *. case_match; simpl; lia. }
  rewrite <- Ht. rewrite <- Ht, length_take in Hl. symmetry. apply take_ge. lia.
Qed.

Lemma read_turn_spec deadline w :
  let '(r, w') := read_turn d deadline w in
  match r with
  | None =>
      (pending w' = pending w ∧ (disturbances w' < disturbances w)%nat) ∨
      (∃ raw, pending w = raw :: pending w' ∧ foreign_report (Input (d_layout d)) raw ∧
         (disturbances w' <= disturbances w)%nat)
  | Some r => ∃ taken, pending w = taken ++ pending w' ∧ taken_by r taken
  end.
Proof.
  unfold read_turn.
  set (c := match deadline with Some _ => _ | None => _ end).
  assert (Hc : pending c.2 = pending w ∧ disturbances c.2 = disturbances w).
  { subst c. destruct deadline; [apply queue_now|done]. }
  clearbody c. destruct c as [now w1]. simpl in Hc. destruct Hc as [Hp Hd].
  destruct (poll_timeout deadline now) as [timeout|]; [|exists []; split; [done|by left]].
  pose proof (queue_poll timeout w1) as Hq. destruct (unix_Poll (fd d) timeout w1) as [[[n ev]|e] w2];
    destruct Hq as (Hp2 & Hd2 & Hi); [|].
  2: { destruct (IsErrno e EINTR) eqn:E.
       - left. split; [congruence|]. specialize (Hi e eq_refl E). lia.
       - exists []. split; [simpl; congruence|by left]. }
  assert (Hnone : ∀ e, ∃ taken, pending w = taken ++ pending w2 ∧ taken_by (Err e) taken).
  { intros e. exists []. split; [simpl; congruence|by left]. }
  destruct (n =? 0); [apply Hnone|]. destruct (negb _); [apply Hnone|].
  destruct (Z.land ev POLLIN =? 0); [apply Hnone|].
  pose proof (queue_read (NativeHID.MaxReportSize + 2) w2) as Hr.
  destruct (unix_Read (fd d) _ w2) as [[data|e] w3].
  2: { destruct Hr as [Hp3 Hd3]. destruct (_ || _).
       - left. split; [congruence|]. specialize (Hd3 eq_refl). lia.
       - exists []. split; [simpl; congruence|by left]. }
  destruct data as [|b rest].
  { exists []. split; [simpl; congruence|by left]. }
  destruct Hr as [(raw & Hraw & Hne & Htake) Hd3].
  assert ((len (b :: rest) =? 0) = false) as -> by (apply Z.eqb_neq; unfold len; simpl; lia).
  pose proof (accept_report_spec (d_layout d) (b :: rest)) as Ha. specialize (Ha ltac:(done)).
  rewrite Hp2, Hp in Hraw.
  destruct (accept_report _ _) as [[report|e]|].
  - destruct Ha as (Hid & Hlen & Hw). exists [raw]. split; [exact Hraw|].
    split_and!; [|done|done]. f_equal. apply take_wire; congruence.
  - destruct Ha as (-> & Hnf & Hbad). exists [raw]. split; [exact Hraw|]. right. exists raw.
    split_and!; [done|done| |].
    + intros (Hz & b' & r' & -> & Hb). apply Hnf. split; [done|]. exists b, rest. split; [done|].
      injection Htake as -> _. done.
    + intros body Hb ->. apply (Hbad body Hb). rewrite Htake. apply take_ge.
      unfold NativeHID.layout_ok, NativeHID.MaxReportSize, wire, len in *.
      rewrite !andb_true_iff, !Z.ltb_lt, !Z.leb_le in Hlayout. case_match; simpl; lia.
  - right. exists raw. split_and!; [done| |lia]. destruct Ha as (Hz & b' & r' & [= <- <-] & Hb).
    split; [done|]. destruct raw as [|b0 raw]; [done|]. injection Htake as -> _. by exists b0, raw.
Qed.

Lemma read_loop_spec fuel : ∀ deadline w, (length (pending w) + disturbances w < fuel)%nat →
  ∃ r w' skipped taken, read_loop fuel d deadline w = Some (r, w') ∧
    pending w = skipped ++ taken ++ pending w' ∧
    Forall (foreign_report (Input (d_layout d))) skipped ∧ taken_by r taken.
Proof.
  induction fuel as [|fuel IH]; intros deadline w Hf; [lia|]. simpl.
  pose proof (read_turn_spec deadline w) as Ht. destruct (read_turn d deadline w) as [[r|] w1].
  - destruct Ht as (taken & Hp & Ht). by exists r, w1, [], taken.
  - destruct Ht as [[Hp Hd]|(raw & Hp & Hraw & Hd)].
    + destruct (IH deadline w1) as (r & w' & sk & tk & -> & Hq & Hs & Ht); [rewrite Hp; lia|].
      exists r, w', sk, tk. by rewrite <- Hp.
    + destruct (IH deadline w1) as (r & w' & sk & tk & -> & Hq & Hs & Ht);
        [rewrite Hp in Hf; simpl in Hf; lia|].
      exists r, w', (raw :: sk), tk. rewrite Hp, Hq. split_and!; [done|done|by constructor|done].
Qed.

(** [device.Read] keeps the contract of a driver: it returns, reports come
    out in order, and nothing that belongs to a later call is lost. Under any
    wait, the reports a call takes off the kernel's queue are first reports of
    other collections, and then: the report it returns, whole, with the size
    the descriptor gives it; or nothing at all, when it fails or times out;
    or one report of this collection that has the wrong size - too long or too
    short - which it refuses. The loop ends as soon as the queue and the
    disturbances are used up. *)
Theorem linux_read_exact (wait : Z) (fuel : nat) (w : W)
    (Hfuel : (length (pending w) + disturbances w < fuel)%nat) :
  ∃ r w' skipped taken, Read fuel d wait w = Some (r, w') ∧
    pending w = skipped ++ taken ++ pending w' ∧
    Forall (foreign_report (Input (d_layout d))) skipped ∧ taken_by r taken.
Proof.
  unfold Read. destruct (wait <? 0).
  { eexists _, w, [], []. split_and!; [done|done|by constructor|by left]. }
  destruct (0 <? wait).
  - pose proof (queue_now w) as [Hp Hd]. destruct (time_Now w) as [now w1]. simpl in *.
    rewrite <- Hp. apply read_loop_spec. by rewrite Hp, Hd.
  - by apply read_loop_spec.
Qed.
End Read.
End LinuxReadProps.
