(* ===== verification/LinuxSim.v ===== *)
(** * A Linux host: the parameters of the hidraw binding instantiated

    One authenticator below /sys and the queue of its device node.  The
    theorems about the binding are applied to this host. *)
From S2P Require Import Prelude GoErrors GoText GoIO Descriptors ReportDesc HidConnection HidNative.
From S2P Require Import LinuxInventory LinuxDevice LinuxProps LinuxIO.

Module LinuxSim.
Import GoStrings ReportDesc LinuxInventory LinuxOpen LinuxDevice.

Record host := MkHost {
  host_fds : gset Z;
  host_names : gmap Z string;
  (** Raw reports: a first byte and the rest. *)
  host_queue : list (Z * bytes);
}.

Definition bytes_of (s : string) : bytes := map (λ a, Z.of_N (Ascii.N_of_ascii a)) (String.list_ascii_of_string s).

Definition line (s : string) : bytes := bytes_of s ++ [10].

(** A FIDO collection with reports of two bytes. *)
Definition descriptor : bytes :=
  [0x06; 0xd0; 0xf1; 0x09; 0x01; 0xa1; 0x01; 0x09; 0x20; 0x15; 0x00; 0x26; 0xff; 0x00; 0x75; 0x08;
   0x95; 0x02; 0x81; 0x02; 0x09; 0x21; 0x15; 0x00; 0x26; 0xff; 0x00; 0x75; 0x08; 0x95; 0x02; 0x91; 0x02; 0xc0].

Definition entry_path : string := "/sys/class/hidraw/hidraw0".
Definition device_dir : string := "/sys/devices/hidraw0".

Definition contents (path : string) : option bytes :=
  if String.eqb path (entry_path +:+ "/dev") then Some (line "240:0")
  else if String.eqb path (entry_path +:+ "/uevent") then Some (line "MAJOR=240" ++ line "DEVNAME=hidraw0")
  else if String.eqb path (entry_path +:+ "/device/uevent")
  then Some (line "HID_ID=0003:00001050:00000407" ++ line "HID_NAME=Key" ++ line "HID_UNIQ=1")
  else if String.eqb path (entry_path +:+ "/device/report_descriptor") then Some descriptor
  else if String.eqb path classPath then Some []
  else None.

Definition node_stat : Stat_t := MkStat 0x2000 (240 * 256) 5 1.
Definition dir_stat : Stat_t := MkStat 0x4000 0 6 2.

Definition host_open (known : bool) (path : string) (h : host) : res Z * host :=
  if known then
    let fd := fresh (host_fds h) in
    (Ok fd, MkHost ({[fd]} ∪ host_fds h) (<[fd := path]> (host_names h)) (host_queue h))
  else (Err (EErrno ENOENT), h).
Definition host_close (fd : Z) (h : host) : host :=
  MkHost (host_fds h ∖ {[fd]}) (host_names h) (host_queue h).
Definition name_of (fd : Z) (h : host) : string := default ""%string (host_names h !! fd).

#[export] Instance host_fs : LinuxFS host := {
  EvalSymlinks path h :=
    (if String.eqb path entry_path then Ok device_dir
     else if String.eqb path (entry_path +:+ "/device") then Ok "/sys/devices/1-1"%string
     else Err (EErrno ENOENT), h);
  os_Open path h := host_open (match contents path with Some _ => true | None => false end) path h;
  ReadDir fd n h := ((["hidraw0"%string], Some (ESent "io.EOF")), h);
  ReadAll fd n h := (Ok (take (Z.to_nat n) (default [] (contents (name_of fd h)))), h);
  os_Close fd h := host_close fd h;
  os_Stat path h := (Some (EErrno ENOENT), h);
  unix_Stat path h :=
    (if String.eqb path "/dev/hidraw0" then Ok node_stat
     else if String.eqb path entry_path then Ok dir_stat else Err (EErrno ENOENT), h);
  Mkdev major minor := major * 256 + minor;
  Major dev := dev / 256;
  Minor dev := dev mod 256;
}.

#[export] Instance host_fd : LinuxFd host := {
  unix_Open path flags h := host_open (String.eqb path "/dev/hidraw0" || String.eqb path entry_path) path h;
  unix_Close fd h := (None, host_close fd h);
  unix_Fstat fd h := (Ok (if String.eqb (name_of fd h) "/dev/hidraw0" then node_stat else dir_stat), h);
  IoctlHIDGetRawInfo fd h := (Ok (3, 0x1050, 0x407), h);
  IoctlGetDescSize fd h := (Ok (len descriptor), h);
  IoctlHIDGetDesc fd size h := (Ok (size, descriptor), h);
  IoctlGetUnique fd n h := (Ok (bytes_of "1" ++ [0]), h);
  unix_Poll fd timeout h :=
    (Ok (match host_queue h with [] => (0, 0) | _ => (1, POLLIN) end), h);
  unix_Read fd n h :=
    match host_queue h with
    | (b, rest) :: queue =>
        if n <=? 0 then (Ok [], h)
        else (Ok (take (Z.to_nat n) (b :: rest)), MkHost (host_fds h) (host_names h) queue)
    | [] => (Err (EErrno EIO), h)
    end;
  unix_Write fd buffer h := (Ok (len buffer), h);
  time_Now h := (0, h);
}.

Lemma host_open_fds known path h :
  match host_open known path h with
  | (Ok fd, h') => (fd ∉ host_fds h) ∧ host_fds h' = {[fd]} ∪ host_fds h
  | (Err _, h') => host_fds h' = host_fds h
  end.
Proof. unfold host_open. destruct known; [|done]. split; [apply is_fresh|done]. Qed.

#[export] Instance host_ledger : FdLedger host host_fds.
Proof.
  constructor; try (intros; reflexivity).
  - intros. apply host_open_fds.
  - intros. apply host_open_fds.
Qed.

Definition host_pending (h : host) : list bytes := map (λ '(b, rest), b :: rest) (host_queue h).

#[export] Instance host_queue_laws file : HidrawQueue host file host_pending (λ _, O).
Proof.
  constructor; [done| |].
  - intros timeout h. simpl. split_and!; [done|lia|by destruct (host_queue h)].
  - intros n h. simpl. destruct (host_queue h) as [|[b rest] queue] eqn:E; [done|].
    destruct (Z.leb_spec n 0); [done|]. destruct (Z.to_nat n) as [|k] eqn:Ek; [lia|]. cbn [take].
    split; [|lia]. exists (b :: rest). unfold host_pending. by rewrite E.
Qed.

(** Three descriptors in use; two foreign reports before the answer. *)
Definition host0 : host := MkHost {[0; 1; 2]} ∅ [(7, [1]); (1, [2; 3])].

Definition listed : Endpoint :=
  Eval vm_compute in
  match Enumerate true host0 with
  | Some ((s, _), _) => nth 0 (NativeHID.raw_endpoints s) zero_endpoint
  | None => zero_endpoint
  end.
Definition opened : device * host :=
  Eval vm_compute in
  match Open listed host0 with Some (Ok d, h) => (d, h) | _ => (MkDev 0 listed no_layout, host0) end.

Lemma open_run : Open listed host0 = Some (Ok opened.1, opened.2).
Proof. vm_compute. reflexivity. Qed.

Lemma linux_open_exact_witness : openWithSystem listed nativeOpenSystem host0 = Some (Ok opened.1, opened.2) ∧
  NativeHID.open_check listed (Some (NativeHID.MkDev (d_endpoint opened.1) (d_layout opened.1))) None = None.
Proof.
  split; [exact open_run|].
  destruct (LinuxOpenProps.linux_open_exact nativeOpenSystem listed host0 opened.2 opened.1 open_run)
    as (address & index & anchor & stat & current & cs & c & _ & _ & _ & _ & _ & _ & H).
  exact H.
Defined.

Lemma linux_open_owned_witness : host_fds opened.2 = {[fd opened.1]} ∪ host_fds host0.
Proof.
  destruct (LinuxOpenProps.linux_open_owned host_fds listed host0) as (r & h & H & Hr).
  rewrite open_run in H. injection H as <- <-. exact (proj2 Hr).
Defined.

(** A reader of a numbered collection: the report of another one is skipped. *)
Definition reader : device := MkDev 4 listed (MkLayout (MkSpec 1 2) (MkSpec 1 2)).

Lemma linux_read_exact_witness : Read 3 reader 0 host0 = Some (Ok (MkReport 1 [2; 3]), MkHost (host_fds host0) ∅ []) ∧
  ∃ r w' skipped taken, Read 3 reader 0 host0 = Some (r, w') ∧
    host_pending host0 = skipped ++ taken ++ host_pending w' ∧
    Forall (LinuxReadProps.foreign_report (Input (d_layout reader))) skipped ∧
    LinuxReadProps.taken_by reader r taken.
Proof.
  split; [reflexivity|].
  refine (LinuxReadProps.linux_read_exact reader host_pending (λ _, O) _ 0 3 host0 _).
  - reflexivity.
  - vm_compute. lia.
Defined.
End LinuxSim.
