(* ===== verification/WindowsNative.v ===== *)
(** * The Win32 calls: src/pkg/hid/internal/windows/native_windows.go

    SetupAPI, HIDClass, the configuration manager and overlapped I/O are the
    class [Win32]; a call that the source makes through boolCall returns the
    result register, the last error, and what it wrote. *)
From S2P Require Import Prelude GoErrors GoText GoIO Descriptors Registry ReportDesc HidConnection.
From S2P Require Import HidNative.

(** The fields of HIDP_CAPS that are read. *)
Record capabilities := MkCapabilities { c_Usage : Z; c_UsagePage : Z; InputLength : Z; OutputLength : Z }.

Inductive string_proc := getSerial | getManufacturer | getProduct.
#[global] Instance string_proc_dec : EqDecision string_proc. Proof. solve_decision. Defined.

Class Win32 (W : Type) := {
  (** [hidDLL.Load]. *)
  hid_Load : W → option goerror * W;
  (** HidD_GetAttributes: vendor and product. *)
  HidD_GetAttributes : Z → W → (Z * Z * (Z * Z)) * W;
  HidD_GetPreparsedData : Z → W → (Z * Z * Z) * W;
  HidD_FreePreparsedData : Z → W → W;
  HidP_GetCaps : Z → W → (Z * capabilities) * W;
  (** HidP_InitializeReportForID of a report type, ID, preparsed data and length. *)
  HidP_InitializeReportForID : Z → Z → Z → Z → W → Z * W;
  (** The three string procedures, into a buffer of 256 code units. *)
  HidD_GetString : string_proc → Z → W → (Z * Z * list Z) * W;
  (** SetupDiGetClassDevsEx of the present HID interfaces. *)
  SetupDiGetClassDevs : W → res Z * W;
  SetupDiDestroyDeviceInfoList : Z → W → W;
  (** An interface of a set, by index. *)
  SetupDiEnumDeviceInterfaces : Z → Z → W → (Z * Z * Z) * W;
  (** The size that the detail of an interface requires. *)
  SetupDiGetDeviceInterfaceDetailSize : Z → Z → W → (Z * Z * Z) * W;
  (** The required size, the code units of the buffer and the device instance. *)
  SetupDiGetDeviceInterfaceDetail : Z → Z → Z → W → (Z * Z * (Z * list Z * Z)) * W;
  (** The value, type and size of an interface property. *)
  SetupDiGetDeviceInterfaceProperty : Z → Z → Z → W → (Z * Z * (Z * Z * Z)) * W;
  (** The status and the buffer of 512 code units; the status and the parent. *)
  CM_Get_Device_ID : Z → W → (Z * list Z) * W;
  CM_Get_Parent : Z → W → (Z * Z) * W;
  (** golang.org/x/sys/windows: conversions, and files. *)
  UTF16ToString : list Z → string;
  UTF16FromString : string → res (list Z);
  (** CreateFile of a path with an access mode and flags. *)
  CreateFile : list Z → Z → Z → W → res Z * W;
  CloseHandle : Z → W → option goerror * W;
  (** Overlapped I/O on a handle, with the event of the OVERLAPPED.  The
      waiting GetOverlappedResult tells the number of bytes, and what the
      buffer of a read holds. *)
  CreateEvent : W → res Z * W;
  ReadFile : Z → Z → Z → W → option goerror * W;
  WriteFile : Z → Z → bytes → W → option goerror * W;
  GetOverlappedResult : Z → Z → W → (res Z * bytes) * W;
  WaitForSingleObject : Z → Z → W → res Z * W;
  CancelIoEx : Z → Z → W → option goerror * W;
}.

Module WindowsNative.
Import Metadata ReportDesc NativeHID.

Definition ERROR_FILE_NOT_FOUND : Z := 2.
Definition ERROR_PATH_NOT_FOUND : Z := 3.
Definition ERROR_ACCESS_DENIED : Z := 5.
Definition ERROR_INVALID_DATA : Z := 13.
Definition ERROR_GEN_FAILURE : Z := 31.
Definition ERROR_SHARING_VIOLATION : Z := 32.
Definition ERROR_INSUFFICIENT_BUFFER : Z := 122.
Definition ERROR_BUSY : Z := 170.
Definition ERROR_NO_MORE_ITEMS : Z := 259.
Definition ERROR_NO_SUCH_DEVICE : Z := 433.
Definition ERROR_OPERATION_ABORTED : Z := 995.
Definition ERROR_IO_PENDING : Z := 997.
Definition ERROR_DEVICE_NOT_CONNECTED : Z := 1167.
Definition ERROR_NOT_FOUND : Z := 1168.
Definition ERROR_PRIVILEGE_NOT_HELD : Z := 1314.

Definition hidpSuccess : Z := 0x00110000.
Definition hidpReportDoesNotExist : Z := 0xc0110010.

Definition driver_error (op : string) (kind : driver_kind) (message : string) : goerror :=
  EDriver op kind "" 0 message None.
Definition unsupported (message : string) : goerror := driver_error "qualify" KindUnsupported message.
Definition stale (message : string) : goerror := driver_error "open" KindStaleEndpoint message.
Definition hidpError (op : string) (status : Z) : goerror :=
  EDriver op KindUnsupported "hidp" (u32 status) "HID parser rejected capabilities" None.

Definition nativeError (op : string) (err : goerror) : goerror :=
  let kind :=
    if IsErrno err ERROR_ACCESS_DENIED || IsErrno err ERROR_PRIVILEGE_NOT_HELD then KindPermission
    else if IsErrno err ERROR_DEVICE_NOT_CONNECTED || IsErrno err ERROR_NO_SUCH_DEVICE
            || IsErrno err ERROR_FILE_NOT_FOUND || IsErrno err ERROR_PATH_NOT_FOUND then KindRemoved
    else if IsErrno err ERROR_SHARING_VIOLATION || IsErrno err ERROR_BUSY then KindBusy
    else KindIO in
  EDriver op kind "win32" (default 0 (As as_errno err)) "" (Some err).

(** [boolean] tells the procedures that return BOOLEAN. *)
Definition boolCall (boolean : bool) (result err : Z) : option goerror :=
  let result := if boolean then Z.land result 0xff else result in
  if negb (result =? 0) then None
  else if err =? 0 then Some (EErrno ERROR_GEN_FAILURE)
  else Some (EErrno err).

(** The code units before the first zero. *)
Fixpoint before_zero (buffer : list Z) : option (list Z) :=
  match buffer with
  | [] => None
  | c :: buffer => if c =? 0 then Some [] else option_map (cons c) (before_zero buffer)
  end.

Section Native.
Context {W : Type} `{!Win32 W}.

Definition readCaps (handle : Z) (w : W) : res (capabilities * Z) * W :=
  let '((result, err, preparsed), w) := HidD_GetPreparsedData handle w in
  match boolCall true result err with
  | Some e => (Err (nativeError "HidD_GetPreparsedData" e), w)
  | None =>
      let '((status, caps), w) := HidP_GetCaps preparsed w in
      if negb (u32 status =? hidpSuccess)
      then (Err (hidpError "HidP_GetCaps" status), HidD_FreePreparsedData preparsed w)
      else (Ok (caps, preparsed), w)
  end.

(** The loop over the report IDs: the count and the last report found. *)
Fixpoint probe_ids (ids : list Z) (preparsed reportType length : Z) (found : Z * ReportSpec) (w : W)
    : res (Z * ReportSpec) * W :=
  match ids with
  | [] => (Ok found, w)
  | id :: ids =>
      let '(status, w) := HidP_InitializeReportForID reportType id preparsed length w in
      if u32 status =? hidpSuccess
      then probe_ids ids preparsed reportType length (found.1 + 1, MkSpec (u8 id) (length - 1)) w
      else if u32 status =? hidpReportDoesNotExist then probe_ids ids preparsed reportType length found w
      else (Err (hidpError "HidP_InitializeReportForID" status), w)
  end.

Definition all_ids : list Z := map Z.of_nat (seq 0 256).
Definition reportSpec (preparsed reportType length : Z) (w : W) : res ReportSpec * W :=
  if (length <? 2) || (MaxReportSize <? length - 1)
  then (Err (unsupported "missing or oversized Input/Output report"), w)
  else
    let '(r, w) := probe_ids all_ids preparsed reportType length (0, MkSpec 0 0) w in
    (found ←? r;
     if negb (found.1 =? 1)
     then Err (unsupported "collection does not have exactly one report ID per direction")
     else Ok found.2, w).

Definition stringProperty (handle : Z) (proc : string_proc) (w : W) : Field string * W :=
  let '((result, err, buffer), w) := HidD_GetString proc handle w in
  (match boolCall true result err, before_zero buffer with
   | None, Some units => MkField (UTF16ToString units) true
   | _, _ => MkField ""%string false
   end, w).

Definition FILE_FLAG_OVERLAPPED : Z := 0x40000000.
Definition openPath (path : string) (access : Z) (overlapped : bool) (w : W) : res Z * W :=
  match UTF16FromString path with
  | Err e => (Err (EDriver "open" KindInvalidArgument "" 0 "" (Some e)), w)
  | Ok wide =>
      match CreateFile wide access (if overlapped then FILE_FLAG_OVERLAPPED else 0) w with
      | (Err e, w) => (Err (nativeError "CreateFile" e), w)
      | (Ok handle, w) => (Ok handle, w)
      end
  end.
End Native.
End WindowsNative.
