(* ===== verification/WindowsInventory.v ===== *)
(** * The Windows inventory: src/pkg/hid/internal/windows/inventory_windows.go

    Endpoints of the present HID interfaces, and the lookup of one path.  What
    an inventory does with one interface is over [inventorySystem], the
    record of calls that the source itself abstracts. *)
From S2P Require Import Prelude GoErrors GoText GoIO Descriptors Registry ReportDesc HidConnection.
From S2P Require Import HidNative WindowsNative.

Module WindowsInventory.
Import GoStrings Metadata NativeHID WindowsNative.
#[local] Open Scope string_scope.
#[local] Open Scope Z_scope.

Definition MaxInventoryDevices : Z := 128.

Definition resourceLimit (message : string) : goerror :=
  driver_error "enumerate" KindResourceLimit message.
Definition endpointID (path : string) : string := ("windows:" ++ path)%string.

(** *** Updates of an endpoint *)
Definition with_vendor (f : Field Z) (e : Endpoint) : Endpoint :=
  MkEndpoint (EndpointID e) (EPath e) f (EProductID e) (EUsage e) (EInterface e) (EBus e) (ESerial e)
    (EManufacturer e) (EProduct e).
Definition with_product_id (f : Field Z) (e : Endpoint) : Endpoint :=
  MkEndpoint (EndpointID e) (EPath e) (EVendorID e) f (EUsage e) (EInterface e) (EBus e) (ESerial e)
    (EManufacturer e) (EProduct e).
Definition with_usage (f : Field Usage) (e : Endpoint) : Endpoint :=
  MkEndpoint (EndpointID e) (EPath e) (EVendorID e) (EProductID e) f (EInterface e) (EBus e) (ESerial e)
    (EManufacturer e) (EProduct e).
Definition with_interface (f : Field Z) (e : Endpoint) : Endpoint :=
  MkEndpoint (EndpointID e) (EPath e) (EVendorID e) (EProductID e) (EUsage e) f (EBus e) (ESerial e)
    (EManufacturer e) (EProduct e).
Definition with_bus (bus : Bus) (e : Endpoint) : Endpoint :=
  MkEndpoint (EndpointID e) (EPath e) (EVendorID e) (EProductID e) (EUsage e) (EInterface e) bus (ESerial e)
    (EManufacturer e) (EProduct e).
Definition with_strings (serial manufacturer product : Field string) (e : Endpoint) : Endpoint :=
  MkEndpoint (EndpointID e) (EPath e) (EVendorID e) (EProductID e) (EUsage e) (EInterface e) (EBus e)
    serial manufacturer product.
Definition no_field : Field Z := MkField 0 false.
Definition address_endpoint (path : string) : Endpoint :=
  MkEndpoint (endpointID path) path no_field no_field (MkField (MkUsage 0 0) false) no_field BusUnknown
    (MkField "" false) (MkField "" false) (MkField "" false).

(** *** Metadata of an instance ID *)

(** The number in the [digits] hexadecimal digits after a tag of four bytes. *)
Definition tag_value (upper tag : string) (digits : nat) (bits : Z) : option Z :=
  match Index upper tag with
  | None => None
  | Some at_ =>
      if (at_ + 4 + digits <=? String.length upper)%nat then
        match Strconv.ParseUint (String.substring (at_ + 4) digits upper) 16 bits with
        | Ok value => Some value
        | Err _ => None
        end
      else None
  end.

Definition hardwareFields (id : string) (ep : Endpoint) : Endpoint :=
  let upper := ToUpper id in
  let set (f : Field Z) (tag : string) (put : Field Z → Endpoint → Endpoint) (digits : nat) (bits : Z) ep :=
    if Known f then ep
    else match tag_value upper tag digits bits with Some value => put (MkField value true) ep | None => ep end in
  let ep := set (EVendorID ep) "VID_" with_vendor 4%nat 16 ep in
  let ep := set (EProductID ep) "PID_" with_product_id 4%nat 16 ep in
  set (EInterface ep) "&MI_" with_interface 2%nat 8 ep.

Definition bus_of_id (upper : string) : Bus :=
  if HasPrefix upper "USB\" then BusUSB
  else if HasPrefix upper "BTHENUM\" || HasPrefix upper "BTHLEDEVICE\" then BusBluetooth
  else BusUnknown.

Section Inventory.
Context {W : Type} `{!Win32 W}.

(** The walk to the root of the device tree, of at most [depth] nodes. *)
Definition instance_id (instance : Z) (ep : Endpoint) (w : W) : Endpoint * W :=
  let '((status, buffer), w) := CM_Get_Device_ID instance w in
  (if (status =? 0) && existsb (Z.eqb 0) buffer then
     let id := UTF16ToString buffer in
     let ep := hardwareFields id ep in
     if bool_decide (EBus ep = BusUnknown) then with_bus (bus_of_id (ToUpper id)) ep else ep
   else ep, w).
Fixpoint device_tree (depth : nat) (instance : Z) (ep : Endpoint) (w : W) : Endpoint * W :=
  match depth with
  | O => (ep, w)
  | S depth =>
      let '(ep, w) := instance_id instance ep w in
      let '((status, parent), w) := CM_Get_Parent instance w in
      if negb (status =? 0) || (parent =? instance) then (ep, w) else device_tree depth parent ep w
  end.
Definition metadataFromDevInfo (dev : Z) (ep : Endpoint) (w : W) : Endpoint * W := device_tree 16 dev ep w.

(** *** Properties of an interface *)
Definition DEVPROP_TYPE_UINT16 : Z := 5.
Definition hidUsagePageProperty : Z := 2.
Definition hidUsageIDProperty : Z := 3.
Definition hidVendorIDProperty : Z := 5.
Definition hidProductIDProperty : Z := 6.

(** A property reader: the value, type, size and error. *)
Definition interfacePropertyReader : Type := Z → W → (Z * Z * Z * option goerror) * W.

Definition uint16FromProperty (read : interfacePropertyReader) (property : Z) (w : W) : Field Z * W :=
  let '((value, kind, size, err), w) := read property w in
  (match err with
   | Some _ => no_field
   | None => if negb (kind =? DEVPROP_TYPE_UINT16) || negb (size =? 2) then no_field else MkField value true
   end, w).

Definition usageFromProperties (read : interfacePropertyReader) (w : W) : Field Usage * W :=
  let '(page, w) := uint16FromProperty read hidUsagePageProperty w in
  let '(id, w) := uint16FromProperty read hidUsageIDProperty w in
  (if negb (Known page) || negb (Known id) then MkField (MkUsage 0 0) false
   else MkField (MkUsage (Value page) (Value id)) true, w).

Definition metadataFromInterfaceProperties (ep : Endpoint) (read : interfacePropertyReader) (w : W) : Endpoint * W :=
  let '(usage, w) := usageFromProperties read w in
  let ep := with_usage usage ep in
  let '(vendor, w) := uint16FromProperty read hidVendorIDProperty w in
  let ep := if Known vendor then with_vendor vendor ep else ep in
  let '(product, w) := uint16FromProperty read hidProductIDProperty w in
  (if Known product then with_product_id product ep else ep, w).

Definition metadataFromInterface (set data : Z) (ep : Endpoint) (w : W) : Endpoint * W :=
  metadataFromInterfaceProperties ep (λ property w,
    let '((result, err, (value, kind, size)), w) := SetupDiGetDeviceInterfaceProperty set data property w in
    ((value, kind, size, boolCall false result err), w)) w.

(** *** The path of an interface *)
Definition interfacePath (set data : Z) (w : W) : res (string * Z) * W :=
  let '((result, err, required), w) := SetupDiGetDeviceInterfaceDetailSize set data w in
  match boolCall false result err with
  | None => (Err (nativeError "size interface detail" (EErrno ERROR_INVALID_DATA)), w)
  | Some e =>
      if negb (IsErrno e ERROR_INSUFFICIENT_BUFFER) then (Err (nativeError "size interface detail" e), w)
      else if (required <? 6) || (MaxMetadataSize <? required) || negb (required mod 2 =? 0)
      then (Err (unsupported "invalid device interface path size"), w)
      else
        let '((result, err, (required', buffer, dev)), w) := SetupDiGetDeviceInterfaceDetail set data required w in
        match boolCall false result err with
        | Some e => (Err (nativeError "SetupDiGetDeviceInterfaceDetail" e), w)
        | None =>
            (if required <? required' then Err (unsupported "device interface path grew during enumeration")
             else match before_zero (drop 2 buffer) with
                  | None => Err (unsupported "unterminated device interface path")
                  | Some [] => Err (unsupported "empty device interface path")
                  | Some units => Ok (UTF16ToString units, dev)
                  end, w)
        end
  end.

(** *** Metadata of an open handle *)
Definition metadataFromHandle (handle : Z) (ep : Endpoint) (resolveStrings : bool) (w : W)
    : (Endpoint * option goerror) * W :=
  let '((result, err, (vendor, product)), w) := HidD_GetAttributes handle w in
  let attrs := boolCall true result err in
  let ep := match attrs with
            | None => with_product_id (MkField product true) (with_vendor (MkField vendor true) ep)
            | Some _ => ep
            end in
  let '(caps, w) := readCaps handle w in
  let '(ep, w) :=
    match caps with
    | Ok (caps, preparsed) =>
        (with_usage (MkField (MkUsage (c_UsagePage caps) (c_Usage caps)) true) ep, HidD_FreePreparsedData preparsed w)
    | Err _ => (ep, w)
    end in
  let failures := (match attrs with Some e => [nativeError "HidD_GetAttributes" e] | None => [] end
                   ++ match caps with Err e => [e] | Ok _ => [] end)%list in
  let result := match failures with [] => None | _ => Some (EJoin failures) end in
  if resolveStrings then
    let '(serial, w) := stringProperty handle getSerial w in
    let '(manufacturer, w) := stringProperty handle getManufacturer w in
    let '(product, w) := stringProperty handle getProduct w in
    ((with_strings serial manufacturer product ep, result), w)
  else ((ep, result), w).

(** *** One interface *)
Record inventorySystem := MkInventorySystem {
  inv_open : string → W → res Z * W;
  inv_metadata : Z → Endpoint → bool → W → (Endpoint * option goerror) * W;
  inv_close : Z → W → option goerror * W;
}.
Definition nativeInventorySystem : inventorySystem :=
  MkInventorySystem (λ path, openPath path 0 false) metadataFromHandle CloseHandle.

Definition warn (err : goerror) (snapshot : Snapshot) : Snapshot :=
  MkSnapshot (Endpoints snapshot) (Complete snapshot) (Warnings snapshot ++ [err])%list.
Definition incomplete (err : goerror) (snapshot : Snapshot) : Snapshot :=
  MkSnapshot (Endpoints snapshot) false (Warnings snapshot ++ [err])%list.
Definition retain (ep : Endpoint) (snapshot : Snapshot) : Snapshot :=
  MkSnapshot (Endpoints snapshot ++ [ep])%list (Complete snapshot) (Warnings snapshot).

(** A selector answers match and unknown; nil selects everything. *)
Definition selector : Type := option (Endpoint → bool * bool).
Definition interface_error (err : goerror) : goerror := EFmt "HID interface %q: %w" [err].

(** The part on a candidate that may be opened. *)
Definition inspect_interface (snapshot : Snapshot) (ep : Endpoint) (resolveStrings : bool)
    (selectEndpoint : selector) (system : inventorySystem) (w : W) : Snapshot * W :=
  let '(ep, failure, snapshot, w) :=
    match inv_open system (EPath ep) w with
    | (Err e, w) => (ep, Some e, snapshot, w)
    | (Ok handle, w) =>
        let '((ep, failure), w) := inv_metadata system handle ep resolveStrings w in
        match inv_close system handle w with
        | (Some e, w) => (ep, failure, warn (interface_error (nativeError "close inventory handle" e)) snapshot, w)
        | (None, w) => (ep, failure, snapshot, w)
        end
    end in
  let excluded := match selectEndpoint with
                  | Some select => let '(m, unknown) := select ep in negb m && negb unknown
                  | None => false
                  end in
  if excluded then (snapshot, w)
  else (retain ep (match failure with
                   | Some e => incomplete (interface_error e) snapshot
                   | None => snapshot
                   end), w).

Definition appendInventoryEndpoint (snapshot : Snapshot) (ep : Endpoint) (resolveStrings : bool)
    (selectEndpoint : selector) (system : inventorySystem) (w : W) : Snapshot * W :=
  match selectEndpoint with
  | None => inspect_interface snapshot ep resolveStrings selectEndpoint system w
  | Some select =>
      let '(m, unknown) := select ep in
      if unknown then
        (retain ep (incomplete (driver_error "enumerate" KindIO
           ("cannot determine filtered interface membership without opening " ++ EndpointID ep)) snapshot), w)
      else if negb m then (snapshot, w)
      else inspect_interface snapshot ep resolveStrings selectEndpoint system w
  end.

(** *** The loops over the interfaces of a set *)

(** An interface by index; [None] is the end of the list. *)
Definition enum_interface (set index : Z) (w : W) : option (res Z) * W :=
  let '((result, err, data), w) := SetupDiEnumDeviceInterfaces set index w in
  (match boolCall false result err with
   | None => Some (Ok data)
   | Some e => if IsErrno e ERROR_NO_MORE_ITEMS then None
               else Some (Err (nativeError "SetupDiEnumDeviceInterfaces" e))
   end, w).

Fixpoint enumerate_loop (fuel : nat) (index : Z) (set : Z) (snapshot : Snapshot) (resolveStrings : bool)
    (selectEndpoint : selector) (w : W) : option (Snapshot * W) :=
  match fuel with
  | O => None
  | S fuel =>
      match enum_interface set index w with
      | (None, w) => Some (snapshot, w)
      | (Some (Err e), w) => Some (incomplete e snapshot, w)
      | (Some (Ok data), w) =>
          if MaxInventoryDevices <=? index
          then Some (incomplete (resourceLimit "inventory device limit") snapshot, w)
          else
            let '(snapshot, w) :=
              match interfacePath set data w with
              | (Err e, w) => (incomplete e snapshot, w)
              | (Ok (path, dev), w) =>
                  let '(ep, w) := metadataFromDevInfo dev (address_endpoint path) w in
                  let '(ep, w) := metadataFromInterface set data ep w in
                  appendInventoryEndpoint snapshot ep resolveStrings selectEndpoint nativeInventorySystem w
              end in
            enumerate_loop fuel (u32 (index + 1)) set snapshot resolveStrings selectEndpoint w
      end
  end.

(** Turns of a loop: one for each index up to the limit, at which it ends. *)
Definition turns : nat := 129.

Definition Enumerate (resolveStrings : bool) (selectEndpoint : selector) (w : W)
    : option ((Snapshot * option goerror) * W) :=
  match hid_Load w with
  | (Some e, w) => Some ((MkSnapshot [] false [], Some (nativeError "load hid.dll" e)), w)
  | (None, w) =>
      match SetupDiGetClassDevs w with
      | (Err e, w) => Some ((MkSnapshot [] false [], Some (nativeError "SetupDiGetClassDevs" e)), w)
      | (Ok set, w) =>
          match enumerate_loop turns 0 set (MkSnapshot [] true []) resolveStrings selectEndpoint w with
          | None => None
          | Some (snapshot, w) => Some ((snapshot, None), SetupDiDestroyDeviceInfoList set w)
          end
      end
  end.

Fixpoint find_loop (fuel : nat) (index : Z) (set : Z) (path : string) (failures : list goerror) (w : W)
    : option (res Endpoint * W) :=
  match fuel with
  | O => None
  | S fuel =>
      match enum_interface set index w with
      | (None, w) =>
          Some (Err (match failures with
                     | [] => nativeError "open" (EErrno ERROR_DEVICE_NOT_CONNECTED)
                     | _ => EDriver "open" KindIO "" 0 "incomplete native address lookup" (Some (EJoin failures))
                     end), w)
      | (Some (Err e), w) => Some (Err e, w)
      | (Some (Ok data), w) =>
          if MaxInventoryDevices <=? index then Some (Err (resourceLimit "inventory device limit"), w)
          else
            match interfacePath set data w with
            | (Err e, w) => find_loop fuel (u32 (index + 1)) set path (failures ++ [e])%list w
            | (Ok (candidate, dev), w) =>
                if negb (String.eqb candidate path) then find_loop fuel (u32 (index + 1)) set path failures w
                else let '(ep, w) := metadataFromDevInfo dev (address_endpoint path) w in Some (Ok ep, w)
            end
      end
  end.

Definition findInterface (path : string) : M W Endpoint := λ w,
  match SetupDiGetClassDevs w with
  | (Err e, w) => Some (Err (nativeError "SetupDiGetClassDevs" e), w)
  | (Ok set, w) =>
      match find_loop turns 0 set path [] w with
      | None => None
      | Some (r, w) => Some (r, SetupDiDestroyDeviceInfoList set w)
      end
  end.
End Inventory.
Arguments inventorySystem : clear implicits.
Arguments interfacePropertyReader : clear implicits.
End WindowsInventory.
