(* ===== verification/WindowsDevice.v ===== *)
(** * Windows HID devices: src/pkg/hid/internal/windows/device_windows.go

    Opening a collection by its interface path, and report I/O through
    overlapped operations that are joined before they return. *)
From S2P Require Import Prelude GoErrors GoText GoIO Descriptors Registry ReportDesc HidConnection.
From S2P Require Import HidNative WindowsNative WindowsInventory.

Module WindowsDevice.
Import GoStrings Metadata NativeHID WindowsNative WindowsInventory.
#[local] Open Scope string_scope.
#[local] Open Scope Z_scope.

Record device := MkDev { handle : Z; d_endpoint : Endpoint; d_layout : ReportLayout }.

Definition agrees {T} `{EqDecision T} (want got : Field T) : bool :=
  negb (Known want) || bool_decide (got = want).
Definition matches (want got : Endpoint) : bool :=
  agrees (EVendorID want) (EVendorID got) && agrees (EProductID want) (EProductID got)
  && agrees (EUsage want) (EUsage got) && agrees (EInterface want) (EInterface got)
  && (bool_decide (EBus want = BusUnknown) || bool_decide (EBus got = EBus want))
  && agrees (ESerial want) (ESerial got) && agrees (EManufacturer want) (EManufacturer got)
  && agrees (EProduct want) (EProduct got).

Definition has_nul (s : string) : bool :=
  existsb (λ a, Ascii.eqb a Ascii.zero) (String.list_ascii_of_string s).

(** The path of an endpoint ID. *)
Definition parse_id (expected : Endpoint) : res string :=
  let path := drop_str (String.length "windows:") (EndpointID expected) in
  if negb (HasPrefix (EndpointID expected) "windows:") || str_empty path
     || (MaxMetadataSize <? slen path) || has_nul path
     || negb (String.eqb (endpointID path) (EndpointID expected))
  then Err (driver_error "open" KindInvalidArgument "invalid Windows endpoint ID")
  else Ok path.

Section Device.
Context {W : Type}.

Record openSystem := MkOpenSystem {
  os_find : string → M W Endpoint;
  os_open : string → W → res Z * W;
  os_close : Z → W → option goerror * W;
  os_metadata : Z → Endpoint → bool → W → (Endpoint * option goerror) * W;
  os_layout : Z → W → res ReportLayout * W;
}.

(** The part on an open handle. *)
Definition qualify (expected actual : Endpoint) (h : Z) (system : openSystem) (w : W) : res device * W :=
  match os_metadata system h actual true w with
  | ((_, Some e), w) => (Err e, w)
  | ((actual, None), w) =>
      if negb (matches expected actual)
      then (Err (stale "opened metadata differs from requested endpoint"), w)
      else
        match os_layout system h w with
        | (Err e, w) => (Err e, w)
        | (Ok layout, w) => (Ok (MkDev h actual layout), w)
        end
  end.

Definition openWithSystem (expected : Endpoint) (system : openSystem) : M W device :=
  path ←! lift (parse_id expected);
  if negb (str_empty (EPath expected)) && negb (String.eqb (EPath expected) path)
  then throw (stale "diagnostic path differs from endpoint ID")
  else
    actual ←! os_find system path;
    λ w,
      match os_open system path w with
      | (Err e, w) => Some (Err e, w)
      | (Ok h, w) =>
          match qualify expected actual h system w with
          | (Ok d, w) => Some (Ok d, w)
          | (Err e, w) => Some (Err e, (os_close system h w).2)
          end
      end.

Context `{!Win32 W}.

Definition readLayout (h : Z) (w : W) : res ReportLayout * W :=
  match readCaps h w with
  | (Err e, w) => (Err e, w)
  | (Ok (caps, preparsed), w) =>
      let '(r, w) :=
        match reportSpec preparsed 0 (InputLength caps) w with
        | (Err e, w) => (Err e, w)
        | (Ok input, w) =>
            let '(r, w) := reportSpec preparsed 1 (OutputLength caps) w in
            (output ←? r; Ok (MkLayout input output), w)
        end in
      (r, HidD_FreePreparsedData preparsed w)
  end.

Definition GENERIC_READ : Z := 0x80000000.
Definition GENERIC_WRITE : Z := 0x40000000.
Definition nativeOpenSystem : openSystem :=
  MkOpenSystem findInterface (λ path, openPath path (Z.lor GENERIC_READ GENERIC_WRITE) true) CloseHandle
    metadataFromHandle readLayout.

Definition Open (expected : Endpoint) : M W device := λ w,
  match hid_Load w with
  | (Some e, w) => Some (Err (nativeError "load hid.dll" e), w)
  | (None, w) => openWithSystem expected nativeOpenSystem w
  end.

(** *** Overlapped I/O *)
Definition INFINITE : Z := 0xffffffff.
Definition WAIT_TIMEOUT : Z := 258.
Definition Millisecond : Z := 1000000.

(** Whole milliseconds, rounded up, below INFINITE; no wait is INFINITE. *)
Definition wait_timeout (wait : Z) : Z :=
  if 0 <? wait then
    let milliseconds := wait / Millisecond in
    let milliseconds := if wait mod Millisecond =? 0 then milliseconds else milliseconds + 1 in
    u32 (if INFINITE <=? milliseconds then INFINITE - 1 else milliseconds)
  else INFINITE.

(** [buffer], or the room for a read; [None] for [write] is a read. *)
Definition submit (d : device) (event : Z) (room : Z) (write : option bytes) (w : W) : option goerror * W :=
  match write with
  | Some buffer => WriteFile (handle d) event buffer w
  | None => ReadFile (handle d) event room w
  end.

(** What an operation reports: done, submitted, the error, and the buffer. *)
Record completion := MkCompletion { done_ : Z; submitted : bool; result : option goerror; contents : bytes }.

(** [errors.Join] of errors that may be nil. *)
Definition join (errs : list (option goerror)) : option goerror :=
  match omap id errs with [] => None | es => Some (EJoin es) end.

(** The wait for a pending operation, its cancellation, and the join. *)
Definition settle (d : device) (event : Z) (op : string) (wait : Z) (w : W) : completion * W :=
  let '(state, w) := WaitForSingleObject event (wait_timeout wait) w in
  let waitErr := match state with Err e => Some e | Ok _ => None end in
  let timedOut := match state with Ok s => s =? WAIT_TIMEOUT | Err _ => false end in
  let '(cancellationErr, w) :=
    if timedOut || match waitErr with Some _ => true | None => false end then
      let '(e, w) := CancelIoEx (handle d) event w in
      (match e with Some e => if IsErrno e ERROR_NOT_FOUND then None else Some e | None => None end, w)
    else (None, w) in
  let '((r, data), w) := GetOverlappedResult (handle d) event w in
  (match r with
   | Ok n =>
       match waitErr, cancellationErr with
       | Some e, _ => MkCompletion n true (Some (nativeError "wait completion" e)) data
       | None, Some e => MkCompletion n true (Some (nativeError "CancelIoEx" e)) data
       | None, None => MkCompletion n true None data
       end
   | Err e =>
       if timedOut && IsErrno e ERROR_OPERATION_ABORTED
       then MkCompletion 0 true (Some (EDriver op KindTimeout "win32" ERROR_OPERATION_ABORTED ""
              (join [Some e; cancellationErr]))) data
       else MkCompletion 0 true
              (Some (nativeError op (default (EJoin []) (join [Some e; waitErr; cancellationErr])))) data
   end, w).

(** An operation with its event. *)
Definition run_io (d : device) (event room : Z) (write : option bytes) (op : string) (wait : Z) (w : W)
    : completion * W :=
  match submit d event room write w with
  | (Some e, w) =>
      if IsErrno e ERROR_IO_PENDING then settle d event op wait w
      else (MkCompletion 0 true (Some (nativeError op e)) [], w)
  | (None, w) =>
      let '((r, data), w) := GetOverlappedResult (handle d) event w in
      (match r with
       | Ok n => MkCompletion n true None data
       | Err e => MkCompletion 0 true (Some (nativeError op e)) data
       end, w)
  end.

Definition transfer (d : device) (room : Z) (write : option bytes) (wait : Z) (w : W) : completion * W :=
  let op := match write with Some _ => "write" | None => "read" end in
  match CreateEvent w with
  | (Err e, w) => (MkCompletion 0 false (Some (nativeError "CreateEvent" e)) [], w)
  | (Ok event, w) =>
      let '(c, w) := run_io d event room write op wait w in
      match CloseHandle event w with
      | (Some e, w) =>
          (MkCompletion (done_ c) (submitted c) (join [result c; Some (nativeError "close I/O event" e)]) (contents c), w)
      | (None, w) => (c, w)
      end
  end.

(** [wait] in nanoseconds. *)
Definition Read (d : device) (wait : Z) (w : W) : res Report * W :=
  if wait <? 0 then (Err (driver_error "read" KindInvalidArgument ""), w)
  else
    let spec := Input (d_layout d) in
    let '(c, w) := transfer d (Size spec + 2) None wait w in
    (match result c with
     | Some e => Err e
     | None =>
         if negb (done_ c =? u32 (Size spec + 1)) || negb (contents c !!! 0%nat =? SpecID spec)
         then Err (driver_error "read" KindInvalidReport "native input ID or size differs from capabilities")
         else Ok (MkReport (contents c !!! 0%nat) (slice 1 (Z.to_nat (done_ c)) (contents c)))
     end, w).

Definition Write (d : device) (report : Report) (w : W) : (outcome * option goerror) * W :=
  let spec := Output (d_layout d) in
  if negb (ReportID report =? SpecID spec) || negb (len (Data report) =? Size spec)
  then ((OutcomeNotSubmitted, Some (driver_error "write" KindInvalidReport "")), w)
  else
    let buffer := ReportID report :: Data report in
    let '(c, w) := transfer d 0 (Some buffer) 0 w in
    (if negb (submitted c) then (OutcomeNotSubmitted, result c)
     else if done_ c =? u32 (len buffer) then (OutcomeCompleted, result c)
     else (OutcomeUnknown, match result c with
                           | None => Some (driver_error "write" KindIO "short native write")
                           | Some e => Some e
                           end), w).

Definition Close (d : device) (w : W) : option goerror * W :=
  match CloseHandle (handle d) w with
  | (Some e, w) => (Some (nativeError "CloseHandle" e), w)
  | (None, w) => (None, w)
  end.
End Device.
Arguments openSystem : clear implicits.
End WindowsDevice.
