(* ===== verification/WindowsProps.v ===== *)
(** * What the Windows HID binding guarantees

    Ownership of handles, the operations that are never left pending, and the
    collections an inventory does not touch, over the documented behaviour of
    the Win32 calls. *)
From S2P Require Import Prelude GoErrors GoText GoIO Descriptors Registry ReportDesc HidConnection.
From S2P Require Import HidNative WindowsNative WindowsInventory WindowsDevice.

(** The calls that only ask: they leave [obs] of the world as it is. *)
Class QueryLaws {W T : Type} `{!Win32 W} (obs : W → T) : Prop := {
  Load_obs w : obs (hid_Load w).2 = obs w;
  GetAttributes_obs h w : obs (HidD_GetAttributes h w).2 = obs w;
  GetCaps_obs p w : obs (HidP_GetCaps p w).2 = obs w;
  InitializeReport_obs t i p n w : obs (HidP_InitializeReportForID t i p n w).2 = obs w;
  GetString_obs proc h w : obs (HidD_GetString proc h w).2 = obs w;
  EnumInterfaces_obs s i w : obs (SetupDiEnumDeviceInterfaces s i w).2 = obs w;
  DetailSize_obs s d w : obs (SetupDiGetDeviceInterfaceDetailSize s d w).2 = obs w;
  Detail_obs s d n w : obs (SetupDiGetDeviceInterfaceDetail s d n w).2 = obs w;
  Property_obs s d p w : obs (SetupDiGetDeviceInterfaceProperty s d p w).2 = obs w;
  DeviceID_obs i w : obs (CM_Get_Device_ID i w).2 = obs w;
  Parent_obs i w : obs (CM_Get_Parent i w).2 = obs w;
  Wait_obs e t w : obs (WaitForSingleObject e t w).2 = obs w;
  Cancel_obs h e w : obs (CancelIoEx h e w).2 = obs w;
}.

(** What the process owns: handles, device information sets, preparsed data. *)
Definition a_handle (h : Z) : Z * Z := (0, h).
Definition a_set (s : Z) : Z * Z := (1, s).
Definition a_preparsed (p : Z) : Z * Z := (2, p).

Class HandleLaws {W : Type} `{!Win32 W} (owned : W → gset (Z * Z)) : Prop := {
  handle_queries :: QueryLaws owned;
  GetPreparsedData_owned h w :
    let '((result, err, p), w') := HidD_GetPreparsedData h w in
    match WindowsNative.boolCall true result err with
    | None => acquires owned (a_preparsed p) w w'
    | Some _ => owned w' = owned w
    end;
  FreePreparsedData_owned p w : owned (HidD_FreePreparsedData p w) = owned w ∖ {[a_preparsed p]};
  GetClassDevs_owned w :
    match SetupDiGetClassDevs w with
    | (Ok s, w') => acquires owned (a_set s) w w'
    | (Err _, w') => owned w' = owned w
    end;
  DestroyList_owned s w : owned (SetupDiDestroyDeviceInfoList s w) = owned w ∖ {[a_set s]};
  CreateFile_owned path access flags w :
    match CreateFile path access flags w with
    | (Ok h, w') => acquires owned (a_handle h) w w'
    | (Err _, w') => owned w' = owned w
    end;
  CreateEvent_owned w :
    match CreateEvent w with
    | (Ok h, w') => acquires owned (a_handle h) w w'
    | (Err _, w') => owned w' = owned w
    end;
  CloseHandle_owned h w : owned (CloseHandle h w).2 = owned w ∖ {[a_handle h]};
  ReadFile_owned h e n w : owned (ReadFile h e n w).2 = owned w;
  WriteFile_owned h e b w : owned (WriteFile h e b w).2 = owned w;
  GetOverlappedResult_owned h e w : owned (GetOverlappedResult h e w).2 = owned w;
}.

Create HintDb win.
#[export] Hint Resolve Load_obs GetAttributes_obs GetCaps_obs InitializeReport_obs GetString_obs EnumInterfaces_obs
  DetailSize_obs Detail_obs Property_obs DeviceID_obs Parent_obs Wait_obs Cancel_obs
  ReadFile_owned WriteFile_owned GetOverlappedResult_owned handle_queries : win.

(** Runs over one call of the goal that keeps [obs]. *)
Ltac kept_call obs :=
  match goal with
  | |- context [match ?f ?w with (_, _) => _ end] =>
      let H := fresh "Hk" in
      assert (H : obs (f w).2 = obs w) by (eauto with win);
      destruct (f w) as [? ?]; cbn [snd] in H
  end.

Module WindowsKept.
Import WindowsNative WindowsInventory.

(** *** Compound queries *)
Section Queries.
Context {W T : Type} `{!Win32 W} (obs : W → T) `{!QueryLaws obs}.

Ltac go := repeat (kept_call obs || case_match); cbn [snd]; congruence.

Lemma stringProperty_obs h proc w : obs (stringProperty h proc w).2 = obs w.
Proof. unfold stringProperty. go. Qed.

Lemma instance_id_obs i ep w : obs (instance_id i ep w).2 = obs w.
Proof. unfold instance_id. go. Qed.

Lemma device_tree_obs depth : ∀ i ep w, obs (device_tree depth i ep w).2 = obs w.
Proof.
  induction depth as [|depth IH]; intros i ep w; [done|]. cbn [device_tree].
  pose proof (instance_id_obs i ep w) as H. destruct (instance_id i ep w) as [ep1 w1]. cbn [snd] in H.
  repeat (kept_call obs || case_match); rewrite ?IH; cbn [snd]; congruence.
Qed.
Lemma metadataFromDevInfo_obs dev ep w : obs (metadataFromDevInfo dev ep w).2 = obs w.
Proof. apply device_tree_obs. Qed.

Section Reader.
Context (read : interfacePropertyReader W) (Hread : ∀ property w, obs (read property w).2 = obs w).
#[local] Hint Resolve Hread : win.
Lemma uint16FromProperty_obs property w : obs (uint16FromProperty read property w).2 = obs w.
Proof. unfold uint16FromProperty. go. Qed.
#[local] Hint Resolve uint16FromProperty_obs : win.
Lemma usageFromProperties_obs w : obs (usageFromProperties read w).2 = obs w.
Proof. unfold usageFromProperties. go. Qed.
#[local] Hint Resolve usageFromProperties_obs : win.
Lemma metadataFromInterfaceProperties_obs ep w : obs (metadataFromInterfaceProperties ep read w).2 = obs w.
Proof. unfold metadataFromInterfaceProperties. go. Qed.
End Reader.

Lemma metadataFromInterface_obs s d ep w : obs (metadataFromInterface s d ep w).2 = obs w.
Proof. apply metadataFromInterfaceProperties_obs. intros property v. go. Qed.

Lemma interfacePath_obs s d w : obs (interfacePath s d w).2 = obs w.
Proof. unfold interfacePath. go. Qed.

Lemma enum_interface_obs s i w : obs (enum_interface s i w).2 = obs w.
Proof. unfold enum_interface. go. Qed.

Lemma probe_ids_obs p t n : ∀ ids found w, obs (probe_ids ids p t n found w).2 = obs w.
Proof.
  induction ids as [|i ids IH]; intros found w; [done|]. cbn [probe_ids]. kept_call obs.
  repeat case_match; rewrite ?IH; cbn [snd]; congruence.
Qed.

Lemma reportSpec_obs p t n w : obs (reportSpec p t n w).2 = obs w.
Proof.
  unfold reportSpec. case_match; [done|]. pose proof (probe_ids_obs p t n all_ids (0, MkSpec 0 0) w) as Hp.
  destruct (probe_ids _ _ _ _ _ w). exact Hp.
Qed.
End Queries.
#[export] Hint Resolve stringProperty_obs instance_id_obs metadataFromDevInfo_obs metadataFromInterface_obs
  interfacePath_obs enum_interface_obs reportSpec_obs : win.
End WindowsKept.

(** ** Ownership *)
Module WindowsOwnership.
Import WindowsNative WindowsInventory WindowsDevice WindowsKept.

Lemma released (S : gset (Z * Z)) x : x ∉ S → ({[x]} ∪ S) ∖ {[x]} = S.
Proof. set_solver. Qed.

Section Ownership.
Context {W : Type} `{!Win32 W} (owned : W → gset (Z * Z)) `{!HandleLaws owned}.

(** Preparsed data is acquired and given back. *)
Lemma readCaps_owned h w :
  match readCaps h w with
  | (Ok (_, p), w') => acquires owned (a_preparsed p) w w'
  | (Err _, w') => owned w' = owned w
  end.
Proof.
  unfold readCaps. pose proof (GetPreparsedData_owned h w) as Hp.
  destruct (HidD_GetPreparsedData h w) as [[[result err] p] w1]. destruct (boolCall true result err); [done|].
  pose proof (GetCaps_obs p w1) as Hc. destruct (HidP_GetCaps p w1) as [[status caps] w2]. cbn [snd] in Hc.
  destruct Hp as [Hnew Hp]. unfold acquires. destruct (negb (u32 status =? hidpSuccess)).
  - rewrite FreePreparsedData_owned, Hc, Hp. by apply released.
  - split; [done|congruence].
Qed.

(** Reading and giving back, for any use of the preparsed data in between. *)
Lemma preparsed_owned {A} h w (ok : capabilities → Z → W → A * W) (failed : goerror → A) :
  (∀ caps p v, owned (ok caps p v).2 = owned v) →
  owned (match readCaps h w with
         | (Ok (caps, p), w1) => let '(a, w2) := ok caps p w1 in (a, HidD_FreePreparsedData p w2)
         | (Err e, w1) => (failed e, w1)
         end).2 = owned w.
Proof.
  intros Hok. pose proof (readCaps_owned h w) as H. destruct (readCaps h w) as [[[caps p]|e] w1]; [|exact H].
  specialize (Hok caps p w1). destruct (ok caps p w1) as [a w2]. cbn [snd] in *. destruct H as [Hnew H].
  rewrite FreePreparsedData_owned, Hok, H. by apply released.
Qed.

Lemma readLayout_owned h w : owned (readLayout h w).2 = owned w.
Proof.
  unfold readLayout.
  rewrite <-(preparsed_owned h w (λ caps p w1,
    match reportSpec p 0 (InputLength caps) w1 with
    | (Err e, w1) => (Err e, w1)
    | (Ok input, w1) =>
        let '(r, w1) := reportSpec p 1 (OutputLength caps) w1 in
        (rbind r (λ output, Ok (MkLayout input output)), w1)
    end) Err).
  - by destruct (readCaps h w) as [[[caps p]|e] w1].
  - intros caps p v. pose proof (reportSpec_obs owned p 0 (InputLength caps) v) as H1.
    destruct (reportSpec p 0 (InputLength caps) v) as [[input|e] v1]; [|exact H1]. cbn [snd] in H1.
    pose proof (reportSpec_obs owned p 1 (OutputLength caps) v1) as H2.
    destruct (reportSpec p 1 _ v1) as [r v2]. cbn [snd] in *. congruence.
Qed.

Lemma metadataFromHandle_owned h ep strings w : owned (metadataFromHandle h ep strings w).2 = owned w.
Proof.
  unfold metadataFromHandle. pose proof (GetAttributes_obs h w) as H0.
  destruct (HidD_GetAttributes h w) as [[[result err] [vendor product]] w1]. cbn [snd] in H0.
  pose proof (readCaps_owned h w1) as H1. destruct (readCaps h w1) as [[[caps p]|e] w2].
  - destruct H1 as [Hnew H1]. pose proof (FreePreparsedData_owned p w2) as H2. rewrite H1, released in H2 by done.
    destruct strings; [|cbn [snd]; congruence]. repeat (kept_call owned). cbn [snd]. congruence.
  - destruct strings; [|cbn [snd]; congruence]. repeat (kept_call owned). cbn [snd]. congruence.
Qed.

Lemma openPath_owned path access overlapped w :
  match openPath path access overlapped w with
  | (Ok h, w') => acquires owned (a_handle h) w w'
  | (Err _, w') => owned w' = owned w
  end.
Proof.
  unfold openPath. destruct (UTF16FromString path) as [wide|e]; [|done].
  pose proof (CreateFile_owned wide access (if overlapped then FILE_FLAG_OVERLAPPED else 0) w) as H.
  by destruct (CreateFile _ _ _ w) as [[h|e] w1].
Qed.
End Ownership.

(** *** The loops, for any relation that their parts respect *)
Section Loops.
Context {W : Type} `{!Win32 W} (R : relation W) `{!PreOrder R}.
Context (Henum : ∀ s i w, R w (enum_interface s i w).2) (Hpath : ∀ s d w, R w (interfacePath s d w).2).
Context (Hinfo : ∀ dev ep w, R w (metadataFromDevInfo dev ep w).2).

Lemma step_index index (fuel : nat) : 0 <= index < 128 → 129 <= index + Z.of_nat (S fuel) →
  0 <= u32 (index + 1) <= 128 ∧ 129 <= u32 (index + 1) + Z.of_nat fuel.
Proof. intros H1 H2. rewrite u32_small by lia. lia. Qed.

Lemma interfaces_loop_spec (P : Snapshot → Prop) strs sel fuel :
  (∀ s d ep w, R w (metadataFromInterface s d ep w).2) → (∀ e snap, P snap → P (incomplete e snap)) →
  (∀ snap ep w, P snap → P (appendInventoryEndpoint snap ep strs sel nativeInventorySystem w).1 ∧
     R w (appendInventoryEndpoint snap ep strs sel nativeInventorySystem w).2) →
  ∀ index set snap w, P snap → 0 <= index <= 128 → 129 <= index + Z.of_nat fuel →
  ∃ snap' w', enumerate_loop fuel index set snap strs sel w = Some (snap', w') ∧ R w w' ∧ P snap'.
Proof.
  intros Hprop Hinc Happ. induction fuel as [|fuel IH]; intros index set snap w HP Hi Hf; [lia|]. cbn [enumerate_loop].
  pose proof (Henum set index w) as H0. cbn [snd] in H0.
  destruct (enum_interface set index w) as [[[data|e]|] w1]; [|by eexists _, w1; eauto..].
  destruct (Z.leb_spec MaxInventoryDevices index) as [|Hlt]; [by eexists _, w1; eauto|].
  unfold MaxInventoryDevices in Hlt. destruct (step_index index fuel) as [Hi' Hf']; [lia|done|].
  pose proof (Hpath set data w1) as H1. destruct (interfacePath set data w1) as [[[path dev]|e] w2].
  - pose proof (Hinfo dev (address_endpoint path) w2) as H2.
    destruct (metadataFromDevInfo dev _ w2) as [ep w3]. pose proof (Hprop set data ep w3) as H3.
    destruct (metadataFromInterface set data ep w3) as [ep2 w4]. destruct (Happ snap ep2 w4 HP) as [HP2 H4].
    destruct (appendInventoryEndpoint _ _ _ _ _ w4) as [snap2 w5].
    destruct (IH (u32 (index + 1)) set snap2 w5 HP2 Hi' Hf') as (snap' & w' & -> & HR & HP').
    exists snap', w'. split_and!; [done| |done]. cbn [snd] in *. by do 5 (etransitivity; [eassumption|]).
  - destruct (IH (u32 (index + 1)) set (incomplete e snap) w2 (Hinc e snap HP) Hi' Hf') as (snap' & w' & -> & HR & HP').
    exists snap', w'. split_and!; [done| |done]. cbn [snd] in *. by do 2 (etransitivity; [eassumption|]).
Qed.

Lemma find_loop_spec path fuel : ∀ index set failures w, 0 <= index <= 128 → 129 <= index + Z.of_nat fuel →
  ∃ r w', find_loop fuel index set path failures w = Some (r, w') ∧ R w w'.
Proof.
  induction fuel as [|fuel IH]; intros index set failures w Hi Hf; [lia|]. cbn [find_loop].
  pose proof (Henum set index w) as H0. destruct (enum_interface set index w) as [[[data|e]|] w1]; [|by eexists _, w1..].
  destruct (Z.leb_spec MaxInventoryDevices index) as [|Hlt]; [by eexists _, w1|].
  unfold MaxInventoryDevices in Hlt. destruct (step_index index fuel) as [Hi' Hf']; [lia|done|].
  pose proof (Hpath set data w1) as H1. cbn [snd] in H0.
  destruct (interfacePath set data w1) as [[[candidate dev]|e] w2]; cbn [snd] in H1.
  - destruct (negb (String.eqb candidate path)).
    + destruct (IH (u32 (index + 1)) set failures w2 Hi' Hf') as (r & w' & -> & HR).
      exists r, w'. split; [done|]. by do 2 (etransitivity; [eassumption|]).
    + pose proof (Hinfo dev (address_endpoint path) w2) as H2.
      destruct (metadataFromDevInfo dev _ w2) as [ep w3]. eexists _, w3. split; [done|].
      by do 2 (etransitivity; [eassumption|]).
  - destruct (IH (u32 (index + 1)) set (failures ++ [e]) w2 Hi' Hf') as (r & w' & -> & HR).
    exists r, w'. split; [done|]. by do 2 (etransitivity; [eassumption|]).
Qed.
End Loops.

Section Owned.
Context {W : Type} `{!Win32 W} (owned : W → gset (Z * Z)) `{!HandleLaws owned}.

Definition same_owned (w w' : W) : Prop := owned w' = owned w.
#[local] Instance same_owned_preorder : PreOrder same_owned.
Proof. split; [by intros w|]. unfold same_owned. intros a b c -> ->. done. Qed.

Lemma inspect_owned snap ep strs sel w :
  owned (inspect_interface snap ep strs sel nativeInventorySystem w).2 = owned w.
Proof.
  unfold inspect_interface. cbn [nativeInventorySystem inv_open inv_metadata inv_close].
  pose proof (openPath_owned owned (EPath ep) 0 false w) as Ho.
  destruct (openPath (EPath ep) 0 false w) as [[h|e] w1]; [|by repeat case_match].
  pose proof (metadataFromHandle_owned owned h ep strs w1) as Hm.
  destruct (metadataFromHandle h ep strs w1) as [[ep1 failure] w2]. cbn [snd] in Hm.
  pose proof (CloseHandle_owned h w2) as Hc. destruct (CloseHandle h w2) as [err w3]. cbn [snd] in Hc.
  destruct Ho as [Hnew Ho]. rewrite Hm, Ho, released in Hc by done. destruct err; by repeat case_match.
Qed.

Lemma append_owned snap ep strs sel w :
  owned (appendInventoryEndpoint snap ep strs sel nativeInventorySystem w).2 = owned w.
Proof.
  unfold appendInventoryEndpoint. destruct sel as [select|]; [|apply inspect_owned].
  destruct (select ep) as [m []]; [done|]. destruct m; [apply inspect_owned|done].
Qed.

Lemma findInterface_owned path w : ∃ r w', findInterface path w = Some (r, w') ∧ owned w' = owned w.
Proof.
  unfold findInterface. pose proof (GetClassDevs_owned w) as Hs.
  destruct (SetupDiGetClassDevs w) as [[s|e] w1]; [|by eexists _, w1].
  destruct (find_loop_spec same_owned (enum_interface_obs owned) (interfacePath_obs owned)
    (metadataFromDevInfo_obs owned) path turns 0 s [] w1) as (r & w2 & -> & Hr); [lia|done|].
  eexists _, _. split; [done|]. destruct Hs as [Hnew Hs].
  rewrite DestroyList_owned, Hr, Hs. by apply released.
Qed.

Lemma qualify_owned expected actual h w :
  match qualify expected actual h nativeOpenSystem w with
  | (Ok d, w') => handle d = h ∧ owned w' = owned w
  | (Err _, w') => owned w' = owned w
  end.
Proof.
  unfold qualify. cbn [nativeOpenSystem os_metadata os_layout].
  pose proof (metadataFromHandle_owned owned h actual true w) as Hm.
  destruct (metadataFromHandle h actual true w) as [[ep [e|]] w1]; [exact Hm|]. cbn [snd] in Hm.
  destruct (negb (matches expected ep)); [exact Hm|]. pose proof (readLayout_owned owned h w1) as Hl.
  destruct (readLayout h w1) as [[layout|e] w2]; cbn [snd] in Hl; [split; [done|]|]; congruence.
Qed.

(** The Windows binding loses no handle. Opening a device returns, whatever
    the system answers - the lookup ends after at most 128 interfaces - and
    when it succeeds the process owns exactly one thing more, the handle of the
    returned device, which is new; when it fails at any point, the process owns
    what it owned before: no file handle, no device information set and no
    preparsed data is left behind, and none is given back twice. An inventory
    returns as well and owns nothing afterwards, and closing the device gives
    back its handle. *)
Theorem windows_open_owned (expected : Endpoint) (strings : bool) (sel : selector) (w : W) :
  (∃ r w', Open expected w = Some (r, w') ∧
     match r with
     | Ok d => acquires owned (a_handle (handle d)) w w' ∧ owned (Close d w').2 = owned w
     | Err _ => owned w' = owned w
     end) ∧
  (∃ r w', Enumerate strings sel w = Some (r, w') ∧ owned w' = owned w).
Proof.
  split.
  - unfold Open. pose proof (Load_obs (obs:=owned) w) as Hload. destruct (hid_Load w) as [[e|] w0]; cbn [snd] in Hload.
    { eexists _, w0. split; [done|]. exact Hload. }
    unfold openWithSystem. unfold bind at 1, lift. destruct (parse_id expected) as [path|e].
    2: { eexists _, w0. split; [done|]. exact Hload. }
    destruct (_ && _). { eexists _, w0. split; [done|]. exact Hload. }
    cbn [nativeOpenSystem os_find os_open os_close]. unfold bind.
    destruct (findInterface_owned path w0) as (r & w1 & -> & Hf).
    destruct r as [actual|e]; [|eexists _, w1; split; [done|]; cbn; congruence].
    pose proof (openPath_owned owned path (Z.lor GENERIC_READ GENERIC_WRITE) true w1) as Ho.
    destruct (openPath path _ true w1) as [[h|e] w2]; [|eexists _, w2; split; [done|]; cbn; congruence].
    pose proof (qualify_owned expected actual h w2) as Hq. destruct Ho as [Hnew Ho].
    destruct (qualify expected actual h nativeOpenSystem w2) as [[d|e] w3]; eexists _, _; (split; [done|]).
    + destruct Hq as [Hd Hq]. rewrite <-Hd in Hnew, Ho. rewrite <-Hload, <-Hf. split; [by split; congruence|].
      pose proof (CloseHandle_owned (handle d) w3) as Hc. rewrite Hq, Ho, released in Hc by done.
      unfold Close. by destruct (CloseHandle (handle d) w3) as [[err|] w4].
    + cbn. rewrite CloseHandle_owned, Hq, Ho, released by done. congruence.
  - unfold Enumerate. pose proof (Load_obs (obs:=owned) w) as Hload. destruct (hid_Load w) as [[e|] w0]; cbn [snd] in Hload.
    { eexists _, w0. split; [done|]. exact Hload. }
    pose proof (GetClassDevs_owned w0) as Hs. destruct (SetupDiGetClassDevs w0) as [[s|e] w1].
    2: { eexists _, w1. split; [done|]. congruence. }
    destruct (interfaces_loop_spec same_owned (enum_interface_obs owned) (interfacePath_obs owned)
      (metadataFromDevInfo_obs owned) (λ _, True) strings sel turns (metadataFromInterface_obs owned) (λ _ _ _, I)
      (λ snap ep v _, conj I (append_owned snap ep strings sel v)) 0 s (MkSnapshot [] true []) w1 I)
      as (snap & w2 & -> & Hr & _); [lia|done|].
    eexists _, _. split; [done|]. destruct Hs as [Hnew Hs]. rewrite DestroyList_owned, Hr, Hs, released by done.
    exact Hload.
Qed.
End Owned.
End WindowsOwnership.

(** ** Report I/O

    [pending] are the events of operations that the driver has not finished
    with, [written] the buffers submitted to a device.  An operation that
    reports ERROR_IO_PENDING is outstanding until the waiting
    GetOverlappedResult on its event has returned, with or without an error. *)
Class IoLaws {W : Type} `{!Win32 W} (owned : W → gset (Z * Z)) (pending : W → gset Z) (written : W → list bytes)
    : Prop := {
  io_handles :: HandleLaws owned;
  io_pending :: QueryLaws pending;
  io_written :: QueryLaws written;
  CreateEvent_io w : written (CreateEvent w).2 = written w ∧ pending (CreateEvent w).2 = pending w ∧
    ∀ e, (CreateEvent w).1 = Ok e → e ∉ pending w;
  CloseHandle_io h w : written (CloseHandle h w).2 = written w ∧ pending (CloseHandle h w).2 = pending w;
  ReadFile_io h e n w : written (ReadFile h e n w).2 = written w ∧
    pending (ReadFile h e n w).2 =
      match (ReadFile h e n w).1 with
      | Some err => if IsErrno err WindowsNative.ERROR_IO_PENDING then {[e]} ∪ pending w else pending w
      | None => pending w
      end;
  WriteFile_io h e b w : written (WriteFile h e b w).2 = written w ++ [b] ∧
    pending (WriteFile h e b w).2 =
      match (WriteFile h e b w).1 with
      | Some err => if IsErrno err WindowsNative.ERROR_IO_PENDING then {[e]} ∪ pending w else pending w
      | None => pending w
      end;
  GetOverlappedResult_io h e w :
    written (GetOverlappedResult h e w).2 = written w ∧
    pending (GetOverlappedResult h e w).2 = pending w ∖ {[e]} ∧
    ∀ n, (GetOverlappedResult h e w).1.1 = Ok n → 0 <= n <= len (GetOverlappedResult h e w).1.2;
}.

Module WindowsIO.
Import WindowsNative WindowsInventory WindowsDevice WindowsOwnership.

Section IO.
Context {W : Type} `{!Win32 W} (owned : W → gset (Z * Z)) (pending : W → gset Z) (written : W → list bytes).
Context `{!IoLaws owned pending written} (d : device).

(** What an operation on an event leaves behind. *)
Definition leaves (event : Z) (sent : list bytes) (w : W) (c : completion) (w' : W) : Prop :=
  owned w' = owned w ∧ pending w' = pending w ∖ {[event]} ∧ written w' = written w ++ sent ∧
  submitted c = true ∧
  (done_ c ≠ 0 → 0 <= done_ c <= len (contents c) ∧ ∃ v, (GetOverlappedResult (handle d) event v).1 = (Ok (done_ c), contents c)).

Lemma settle_leaves event op wait w : let '(c, w') := settle d event op wait w in leaves event [] w c w'.
Proof.
  unfold settle.
  pose proof (Wait_obs (obs:=owned) event (wait_timeout wait) w) as Ho.
  pose proof (Wait_obs (obs:=pending) event (wait_timeout wait) w) as Hp.
  pose proof (Wait_obs (obs:=written) event (wait_timeout wait) w) as Hw.
  destruct (WaitForSingleObject event _ w) as [state w1]. cbn [snd] in *.
  set (timedOut := match state with Ok s => s =? WAIT_TIMEOUT | Err _ => false end).
  set (failed := match match state with Err e => Some e | Ok _ => None end with Some _ => true | None => false end).
  assert (∃ cancelled w2, (if timedOut || failed then
      let '(e, w) := CancelIoEx (handle d) event w1 in
      (match e with Some e => if IsErrno e ERROR_NOT_FOUND then None else Some e | None => None end, w)
    else (None, w1)) = (cancelled, w2) ∧ owned w2 = owned w ∧ pending w2 = pending w ∧ written w2 = written w)
    as (cancelled & w2 & -> & Ho2 & Hp2 & Hw2).
  { destruct (timedOut || failed); [|by eexists _, w1].
    pose proof (Cancel_obs (obs:=owned) (handle d) event w1). pose proof (Cancel_obs (obs:=pending) (handle d) event w1).
    pose proof (Cancel_obs (obs:=written) (handle d) event w1).
    destruct (CancelIoEx (handle d) event w1) as [e w2]. cbn [snd] in *. eexists _, w2. split_and!; [done|congruence..]. }
  pose proof (GetOverlappedResult_owned (handle d) event w2) as Hg.
  destruct (GetOverlappedResult_io (owned:=owned) (handle d) event w2) as (Hgw & Hgp & Hn).
  destruct (GetOverlappedResult (handle d) event w2) as [[r data] w3] eqn:E. cbn [fst snd] in *.
  assert (Hall : owned w3 = owned w ∧ pending w3 = pending w ∖ {[event]} ∧ written w3 = written w ++ []).
  { rewrite app_nil_r. split_and!; congruence. }
  unfold leaves. destruct r as [n|e].
  - specialize (Hn n eq_refl). assert (∃ v, (GetOverlappedResult (handle d) event v).1 = (Ok n, data)) by (exists w2; by rewrite E).
    repeat case_match; cbn; destruct_and? Hall; split_and!; done.
  - case_match; cbn; destruct_and? Hall; split_and!; done.
Qed.

Lemma submit_io event room write w : let '(err, w') := submit d event room write w in
  owned w' = owned w ∧ written w' = written w ++ option_list write ∧
  pending w' = match err with
               | Some e => if IsErrno e ERROR_IO_PENDING then {[event]} ∪ pending w else pending w
               | None => pending w
               end.
Proof.
  unfold submit. destruct write as [b|].
  - destruct (WriteFile_io (owned:=owned) (handle d) event b w) as [H1 H2].
    pose proof (WriteFile_owned (handle d) event b w) as H3. by destruct (WriteFile _ event b w) as [err w1].
  - destruct (ReadFile_io (owned:=owned) (handle d) event room w) as [H1 H2].
    pose proof (ReadFile_owned (handle d) event room w) as H3. destruct (ReadFile _ event room w) as [err w1].
    simpl. by rewrite app_nil_r.
Qed.

Lemma run_io_leaves event room write op wait w : event ∉ pending w →
  let '(c, w') := run_io d event room write op wait w in leaves event (option_list write) w c w'.
Proof.
  intros Hnew. unfold run_io. pose proof (submit_io event room write w) as H.
  destruct (submit d event room write w) as [err w1]. destruct H as (Ho & Hw & Hp).
  assert (Hsame : pending w ∖ {[event]} = pending w) by (clear -Hnew; set_solver).
  assert (Hadd : ({[event]} ∪ pending w) ∖ {[event]} = pending w ∖ {[event]}) by (clear; set_solver).
  destruct err as [e|].
  - destruct (IsErrno e ERROR_IO_PENDING).
    + pose proof (settle_leaves event op wait w1) as Hs. destruct (settle d event op wait w1) as [c w2].
      unfold leaves in *. destruct Hs as (H1 & H2 & H3 & H4). rewrite app_nil_r in H3. rewrite H2, Hp, Hadd.
      split_and!; try congruence; apply H4.
    + unfold leaves. cbn. rewrite Hp, Hsame. by split_and!.
  - pose proof (GetOverlappedResult_owned (handle d) event w1) as Hg.
    destruct (GetOverlappedResult_io (owned:=owned) (handle d) event w1) as (Hgw & Hgp & Hn).
    destruct (GetOverlappedResult (handle d) event w1) as [[r data] w2] eqn:E. cbn [fst snd] in *.
    unfold leaves. rewrite Hgp, Hg, Hgw, Hp, Ho, Hw. destruct r as [n|e]; cbn; [|by split_and!].
    specialize (Hn n eq_refl). split_and!; try done. intros _. split; [done|]. exists w1. by rewrite E.
Qed.

(** What [transfer] leaves: as [run_io], but for the event, which is gone. *)
Lemma transfer_leaves room write wait w : let '(c, w') := transfer d room write wait w in
  owned w' = owned w ∧ pending w' = pending w ∧
  written w' = written w ++ (if submitted c then option_list write else []) ∧
  (submitted c = false → is_Some (result c) ∧ done_ c = 0) ∧
  (done_ c ≠ 0 → 0 <= done_ c <= len (contents c) ∧
     ∃ event v, (GetOverlappedResult (handle d) event v).1 = (Ok (done_ c), contents c)).
Proof.
  unfold transfer. pose proof (CreateEvent_owned w) as Ho. destruct (CreateEvent_io (owned:=owned) w) as (Hw & Hp & Hnew).
  destruct (CreateEvent w) as [[event|e] w1]; cbn [fst snd] in *.
  2: { cbn. rewrite app_nil_r. split_and!; try done. }
  specialize (Hnew event eq_refl).
  pose proof (run_io_leaves event room write (match write with Some _ => "write" | None => "read" end) wait w1) as H.
  destruct (run_io d event room write _ wait w1) as [c w2]. rewrite Hp in H. specialize (H Hnew).
  destruct H as (H1 & H2 & H3 & H4 & H5). destruct Ho as [Hfresh Ho].
  pose proof (CloseHandle_owned event w2) as Hc. destruct (CloseHandle_io (owned:=owned) event w2) as (Hcw & Hcp).
  assert (Hsame : pending w ∖ {[event]} = pending w) by (clear -Hnew; set_solver).
  rewrite H1, Ho, released in Hc by done.
  assert (Hd : done_ c ≠ 0 → 0 <= done_ c <= len (contents c) ∧
    ∃ event v, (GetOverlappedResult (handle d) event v).1 = (Ok (done_ c), contents c)) by naive_solver.
  destruct (CloseHandle event w2) as [[e|] w3]; cbn [snd] in *; cbn [done_ submitted result contents]; rewrite ?H4;
    (split_and!; [congruence|congruence|congruence|done|exact Hd]).
Qed.

Lemma wait_timeout_spec wait : 0 < wait →
  1 <= wait_timeout wait < INFINITE ∧ (wait <= wait_timeout wait * Millisecond ∨ wait_timeout wait = INFINITE - 1).
Proof.
  intros Hw. unfold wait_timeout, INFINITE, Millisecond. destruct (Z.ltb_spec 0 wait); [|lia].
  destruct (Z.eqb_spec (wait mod 1000000) 0); (case_match; [rewrite u32_small by lia; lia|]);
    rewrite u32_small by (Z.to_euclidean_division_equations; lia); split; try left; Z.to_euclidean_division_equations; lia.
Qed.

(** C25: no read or write leaves the driver with a buffer. When Read or Write
    returns, for whatever reason - completion at once or later, a timeout, a
    failed wait, a cancellation that came too late - no operation of the call
    is outstanding, so none can consume the next report or touch memory that
    has been freed, and its event has been closed; a local wait is a positive
    number of milliseconds that covers it. A report that is read has the ID and
    the size of the input report. A write tells what is known of its delivery:
    NotSubmitted comes with an error and nothing was given to the driver,
    otherwise the report was given to it exactly once; Completed means that
    the driver confirmed every byte, and Unknown comes with an error. *)
Theorem windows_io_settled (report : Report) (wait : Z) (w : W)
    (Hin : 0 <= Size (Input (d_layout d)) <= 4096) (Hout : Size (Output (d_layout d)) <= 4096) :
  (let '(r, w') := Read d wait w in
   owned w' = owned w ∧ pending w' = pending w ∧ written w' = written w ∧
   (∀ got, r = Ok got → ReportID got = SpecID (Input (d_layout d)) ∧
      len (Data got) = Size (Input (d_layout d)))) ∧
  (0 < wait → 1 <= wait_timeout wait < INFINITE ∧
     (wait <= wait_timeout wait * Millisecond ∨ wait_timeout wait = INFINITE - 1)) ∧
  (let '((o, err), w') := Write d report w in
   owned w' = owned w ∧ pending w' = pending w ∧
   match o with
   | OutcomeNotSubmitted => written w' = written w ∧ is_Some err
   | OutcomeCompleted => written w' = written w ++ [ReportID report :: Data report] ∧
       ∃ event v, (GetOverlappedResult (handle d) event v).1.1 = Ok (len (ReportID report :: Data report))
   | OutcomeUnknown => written w' = written w ++ [ReportID report :: Data report] ∧ is_Some err
   end).
Proof.
  split; [|split; [apply wait_timeout_spec|]].
  - unfold Read. destruct (wait <? 0); [by split_and!|].
    pose proof (transfer_leaves (Size (Input (d_layout d)) + 2) None wait w) as H.
    destruct (transfer d _ None wait w) as [c w1]. destruct H as (H1 & H2 & H3 & _ & H5).
    split_and!; [done|done|by destruct (submitted c); rewrite app_nil_r in H3|].
    destruct (result c); [done|]. rewrite u32_small by lia.
    destruct (Z.eqb_spec (done_ c) (Size (Input (d_layout d)) + 1)) as [Hd|]; [|done].
    destruct (Z.eqb_spec (contents c !!! 0%nat) (SpecID (Input (d_layout d)))) as [Hid|]; [|done].
    intros got [= <-]. split; [exact Hid|]. cbn [Data]. destruct H5 as [[H5 H6] _]; [lia|].
    unfold slice. unfold len in *. rewrite length_take, length_drop. lia.
  - unfold Write. destruct (_ || _) eqn:Hg; [by split_and!|]. apply orb_false_iff in Hg as [_ Hlen].
    apply negb_false_iff, Z.eqb_eq in Hlen.
    pose proof (transfer_leaves 0 (Some (ReportID report :: Data report)) 0 w) as H.
    destruct (transfer d 0 _ 0 w) as [c w1]. destruct H as (H1 & H2 & H3 & H4 & H5).
    assert (Hl : 1 <= len (ReportID report :: Data report) <= 4097).
    { rewrite len_cons. pose proof (len_nonneg (Data report)). lia. }
    rewrite u32_small by lia. destruct (submitted c); cbn [negb].
    + destruct (Z.eqb_spec (done_ c) (len (ReportID report :: Data report))) as [Hd|].
      * split_and!; [done|done|done|]. destruct H5 as (_ & event & v & Hv); [lia|]. exists event, v. by rewrite Hv, Hd.
      * split_and!; try done. by destruct (result c).
    + destruct (H4 eq_refl) as [Herr _]. rewrite app_nil_r in H3. by split_and!.
Qed.
End IO.
End WindowsIO.

(** ** The collections that an inventory opens

    [opened] are the paths given to CreateFile, in order; no other call
    changes it. *)
Class OpenLaws {W : Type} `{!Win32 W} (opened : W → list (list Z)) : Prop := {
  open_queries :: QueryLaws opened;
  CreateFile_opened path access flags w : opened (CreateFile path access flags w).2 = opened w ++ [path];
  CloseHandle_opened h w : opened (CloseHandle h w).2 = opened w;
  GetPreparsedData_opened h w : opened (HidD_GetPreparsedData h w).2 = opened w;
  FreePreparsedData_opened p w : opened (HidD_FreePreparsedData p w) = opened w;
  GetClassDevs_opened w : opened (SetupDiGetClassDevs w).2 = opened w;
  DestroyList_opened s w : opened (SetupDiDestroyDeviceInfoList s w) = opened w;
}.
#[export] Hint Resolve CloseHandle_opened GetPreparsedData_opened GetClassDevs_opened open_queries : win.

Module WindowsSelective.
Import WindowsNative WindowsInventory WindowsKept WindowsOwnership.

Section Selective.
Context {W : Type} `{!Win32 W} (opened : W → list (list Z)) `{!OpenLaws opened}.
Context (select : Endpoint → bool * bool).

Lemma readCaps_opened h w : opened (readCaps h w).2 = opened w.
Proof.
  unfold readCaps. repeat (kept_call opened || case_match); cbn [snd]; rewrite ?FreePreparsedData_opened; congruence.
Qed.
#[local] Hint Resolve readCaps_opened : win.

Lemma metadataFromHandle_opened h ep strings w : opened (metadataFromHandle h ep strings w).2 = opened w.
Proof.
  unfold metadataFromHandle. pose proof (GetAttributes_obs (obs:=opened) h w) as H0.
  destruct (HidD_GetAttributes h w) as [[[result err] [vendor product]] w1]. cbn [snd] in H0.
  pose proof (readCaps_opened h w1) as H1. destruct (readCaps h w1) as [[[caps p]|e] w2]; cbn [snd] in H1;
    try pose proof (FreePreparsedData_opened p w2);
    (destruct strings; [repeat (kept_call opened)|]; cbn [snd]; congruence).
Qed.

(** The candidate whose membership is known from the interface. *)
Definition chosen (path : list Z) (ep : Endpoint) : Prop :=
  select ep = (true, false) ∧ UTF16FromString (EPath ep) = Ok path.
Definition opens_chosen (w w' : W) : Prop :=
  ∃ paths, opened w' = opened w ++ paths ∧ Forall (λ path, ∃ ep, chosen path ep) paths.

#[local] Instance opens_chosen_preorder : PreOrder opens_chosen.
Proof.
  split; [intros w; exists []; by rewrite app_nil_r|].
  intros a b c (p1 & H1 & F1) (p2 & H2 & F2). exists (p1 ++ p2). rewrite H2, H1, <-app_assoc.
  split; [done|by apply Forall_app].
Qed.
Lemma opens_none w w' : opened w' = opened w → opens_chosen w w'.
Proof. intros H. exists []. by rewrite app_nil_r. Qed.

Lemma openPath_opened path access overlapped w :
  opened (openPath path access overlapped w).2 =
    opened w ++ match UTF16FromString path with Ok wide => [wide] | Err _ => [] end.
Proof.
  unfold openPath. destruct (UTF16FromString path) as [wide|e]; [|by rewrite app_nil_r].
  pose proof (CreateFile_opened wide access (if overlapped then FILE_FLAG_OVERLAPPED else 0) w) as H.
  by destruct (CreateFile _ _ _ w) as [[]].
Qed.

(** No endpoint that the selector excludes. *)
Definition no_mismatch (snap : Snapshot) : Prop := Forall (λ e, select e ≠ (false, false)) (Endpoints snap).

Lemma inspect_selective snap ep strs w : select ep = (true, false) → no_mismatch snap →
  no_mismatch (inspect_interface snap ep strs (Some select) nativeInventorySystem w).1 ∧
  opens_chosen w (inspect_interface snap ep strs (Some select) nativeInventorySystem w).2.
Proof.
  intros Hsel Hsnap. unfold inspect_interface. cbn [nativeInventorySystem inv_open inv_metadata inv_close].
  pose proof (openPath_opened (EPath ep) 0 false w) as Ho.
  assert (Hretain : ∀ e s, no_mismatch s → select e ≠ (false, false) → no_mismatch (retain e s)).
  { intros e s Hs He. apply Forall_app. by split; [|constructor]. }
  assert (Hopens : ∀ w', opened w' = opened w ++ match UTF16FromString (EPath ep) with Ok wide => [wide] | Err _ => [] end →
    opens_chosen w w').
  { intros w' Hw'. eexists. split; [exact Hw'|]. destruct (UTF16FromString (EPath ep)) eqn:E; [|constructor].
    repeat constructor. by exists ep. }
  destruct (openPath (EPath ep) 0 false w) as [[h|e] w1]; cbn [snd] in Ho.
  - pose proof (metadataFromHandle_opened h ep strs w1) as Hm.
    destruct (metadataFromHandle h ep strs w1) as [[ep1 failure] w2]. cbn [snd] in Hm.
    pose proof (CloseHandle_opened h w2) as Hc. destruct (CloseHandle h w2) as [err w3]. cbn [snd] in Hc.
    assert (Hw3 : opens_chosen w w3) by (apply Hopens; congruence).
    destruct err; destruct (select ep1) as [[] []] eqn:E1; cbn [negb andb fst snd]; (split; [|exact Hw3]);
      try exact Hsnap; apply Hretain; try congruence; by destruct failure.
  - rewrite Hsel. cbn [negb andb fst snd]. split; [|by apply Hopens]. apply Hretain; [done|congruence].
Qed.

Lemma append_selective strs snap ep w : no_mismatch snap →
  no_mismatch (appendInventoryEndpoint snap ep strs (Some select) nativeInventorySystem w).1 ∧
  opens_chosen w (appendInventoryEndpoint snap ep strs (Some select) nativeInventorySystem w).2.
Proof.
  intros Hsnap. unfold appendInventoryEndpoint. destruct (select ep) as [m []] eqn:E.
  - split; [|by apply opens_none]. apply Forall_app. split; [done|]. constructor; [congruence|done].
  - destruct m; cbn [negb]; [by apply inspect_selective|]. split; [done|by apply opens_none].
Qed.

(** An inventory leaves the collections it is not asked for alone. With a
    filter, CreateFile is called only on interfaces that the system's own
    metadata already shows to match: one that does not match, or of which that
    is unknown - it may be a keyboard - is never opened. The endpoints returned
    contain none that the filter excludes, the metadata of the handle
    included. *)
Theorem windows_inventory_selective (strings : bool) (w : W) :
  ∃ r w', Enumerate strings (Some select) w = Some (r, w') ∧
  (∃ paths, opened w' = opened w ++ paths ∧
     Forall (λ path, ∃ ep, select ep = (true, false) ∧ UTF16FromString (EPath ep) = Ok path) paths) ∧
  Forall (λ e, select e ≠ (false, false)) (Endpoints r.1).
Proof.
  unfold Enumerate. pose proof (Load_obs (obs:=opened) w) as Hload. destruct (hid_Load w) as [[e|] w0]; cbn [snd] in Hload.
  { eexists _, w0. split; [done|]. split; [by apply opens_none|constructor]. }
  pose proof (GetClassDevs_opened w0) as Hs. destruct (SetupDiGetClassDevs w0) as [[s|e] w1]; cbn [snd] in Hs.
  2: { eexists _, w1. split; [done|]. split; [apply opens_none; congruence|constructor]. }
  destruct (interfaces_loop_spec opens_chosen
    (λ s i v, opens_none _ _ (enum_interface_obs opened s i v)) (λ s d v, opens_none _ _ (interfacePath_obs opened s d v))
    (λ dev ep v, opens_none _ _ (metadataFromDevInfo_obs opened dev ep v)) no_mismatch strings (Some select) turns
    (λ s d ep v, opens_none _ _ (metadataFromInterface_obs opened s d ep v)) (λ e snap Hsnap, Hsnap)
    (append_selective strings) 0 s (MkSnapshot [] true []) w1) as (snap & w2 & -> & Hr & Hp); [constructor|lia|done|].
  eexists _, _. split; [done|]. split; [|exact Hp]. destruct Hr as (paths & Hr & HF). exists paths.
  rewrite DestroyList_opened, Hr, Hs, Hload. by split.
Qed.
End Selective.
End WindowsSelective.
