(* ===== verification/WindowsSim.v ===== *)
(** * A Windows host

    The calls of [Win32] for a machine with one security key, for the
    witnesses of WindowsProps. *)
From S2P Require Import Prelude GoErrors GoText GoEncoding GoIO Descriptors Registry ReportDesc HidConnection.
From S2P Require Import HidNative WindowsNative WindowsInventory WindowsDevice WindowsProps.

Module WindowsSim.
Import WindowsNative WindowsInventory WindowsDevice.

Record host := MkHost {
  things : gset (Z * Z);
  busy : gset Z;
  sent : list bytes;
  opens : list (list Z);
  last_io : bytes;
}.

Definition in_use (w : host) : list Z := elements (set_map snd (things w) ∪ busy w : gset Z).
Definition next (w : host) : Z := infinite_fresh (in_use w).
Definition add (x : Z * Z) (w : host) : host := MkHost ({[x]} ∪ things w) (busy w) (sent w) (opens w) (last_io w).
Definition drop_ (x : Z * Z) (w : host) : host := MkHost (things w ∖ {[x]}) (busy w) (sent w) (opens w) (last_io w).
Definition begin_io (e : Z) (data : bytes) (w : host) : host :=
  MkHost (things w) ({[e]} ∪ busy w) (sent w) (opens w) data.

Definition units (s : string) : list Z := bytes_of_string s.
Definition instance : string := "USB\VID_1050&PID_0407&MI_01".

#[local] Instance host_win32 : Win32 host := {|
  hid_Load w := (None, w);
  HidD_GetAttributes _ w := ((1, 0, (0x1050, 0x0407)), w);
  HidD_GetPreparsedData _ w := ((1, 0, next w), add (a_preparsed (next w)) w);
  HidD_FreePreparsedData p w := drop_ (a_preparsed p) w;
  HidP_GetCaps _ w := ((hidpSuccess, MkCapabilities 1 0xf1d0 65 65), w);
  HidP_InitializeReportForID _ i _ _ w := (if i =? 0 then hidpSuccess else hidpReportDoesNotExist, w);
  HidD_GetString _ _ w := ((0, 0, []), w);
  SetupDiGetClassDevs w := (Ok (next w), add (a_set (next w)) w);
  SetupDiDestroyDeviceInfoList s w := drop_ (a_set s) w;
  SetupDiEnumDeviceInterfaces _ i w := (if i =? 0 then (1, 0, 7) else (0, ERROR_NO_MORE_ITEMS, 0), w);
  SetupDiGetDeviceInterfaceDetailSize _ _ w := ((0, ERROR_INSUFFICIENT_BUFFER, 10), w);
  SetupDiGetDeviceInterfaceDetail _ _ _ w := ((1, 0, (10, [8; 0] ++ units "p1" ++ [0], 5)), w);
  SetupDiGetDeviceInterfaceProperty _ _ p w :=
    (if p =? 2 then (1, 0, (0xf1d0, 5, 2)) else if p =? 3 then (1, 0, (1, 5, 2)) else (0, 1168, (0, 0, 0)), w);
  CM_Get_Device_ID _ w := ((0, units instance ++ [0]), w);
  CM_Get_Parent _ w := ((13, 0), w);
  UTF16ToString us := GoStrings.string_of_bytes (default us (before_zero us));
  UTF16FromString s := if has_nul s then Err (EErrno 87) else Ok (units s);
  CreateFile path _ _ w :=
    (Ok (next w), MkHost ({[a_handle (next w)]} ∪ things w) (busy w) (sent w) (opens w ++ [path]) (last_io w));
  CloseHandle h w := (None, drop_ (a_handle h) w);
  CreateEvent w := (Ok (next w), add (a_handle (next w)) w);
  ReadFile _ e n w := (Some (EErrno ERROR_IO_PENDING), begin_io e (0 :: replicate (Z.to_nat (n - 2)) 7) w);
  WriteFile _ e b w :=
    (Some (EErrno ERROR_IO_PENDING),
     begin_io e b (MkHost (things w) (busy w) (sent w ++ [b]) (opens w) (last_io w)));
  GetOverlappedResult _ e w :=
    ((Ok (len (last_io w)), last_io w), MkHost (things w) (busy w ∖ {[e]}) (sent w) (opens w) (last_io w));
  WaitForSingleObject _ _ w := (Ok 0, w);
  CancelIoEx _ _ w := (None, w);
|}.

Lemma next_new w t : (t, next w) ∉ things w.
Proof.
  intros H. apply (infinite_is_fresh (in_use w)). unfold in_use. apply elem_of_elements, elem_of_union_l, elem_of_map.
  by exists (t, next w).
Qed.
Lemma next_idle w : next w ∉ busy w.
Proof.
  intros H. apply (infinite_is_fresh (in_use w)). unfold in_use. apply elem_of_elements. by apply elem_of_union_r.
Qed.

#[local] Instance host_queries {T} (obs : host → T) : QueryLaws obs.
Proof. by constructor. Qed.
#[local] Instance host_handles : HandleLaws things.
Proof. constructor; intros; try done; try apply host_queries; simpl; (split; [apply next_new|done]). Qed.
#[local] Instance host_io : IoLaws things busy sent.
Proof.
  constructor; intros; try apply _; try done; simpl.
  - split_and!; [done..|]. intros e [= <-]. apply next_idle.
  - split_and!; [done..|]. intros n [= <-]. pose proof (len_nonneg (last_io w)). lia.
Qed.
#[local] Instance host_opens : OpenLaws opens.
Proof. constructor; intros; try apply _; done. Qed.

Definition start : host := MkHost ∅ ∅ [] [] [].
Definition wanted : Endpoint := address_endpoint "p1".
Definition key : device :=
  MkDev 0 (with_usage (MkField (MkUsage 0xf1d0 1) true) wanted) (MkLayout (MkSpec 0 64) (MkSpec 0 64)).
Definition fido (ep : Endpoint) : bool * bool :=
  let known := Known (EUsage ep) in
  (known && bool_decide (EUsage ep = MkField (MkUsage 0xf1d0 1) true), negb known).

Lemma windows_open_owned_witness :
  ∃ d w', Open wanted start = Some (Ok d, w') ∧ things (Close d w').2 = ∅.
Proof.
  destruct (WindowsOwnership.windows_open_owned things wanted true None start) as [(r & w' & Ho & H) _].
  destruct r as [d|e]; [|exfalso; vm_compute in Ho; discriminate Ho].
  exists d, w'. split; [exact Ho|]. exact (proj2 H).
Defined.

Lemma windows_io_settled_witness :
  busy (Read key 1500 start).2 = ∅ ∧ (Read key 1500 start).1 = Ok (MkReport 0 (replicate 64 7)) ∧
  sent (Write key (MkReport 0 (replicate 64 1)) start).2 = [0 :: replicate 64 1].
Proof.
  destruct (WindowsIO.windows_io_settled things busy sent key (MkReport 0 (replicate 64 1)) 1500 start)
    as (Hr & _ & Hw); [simpl; lia..|].
  assert (E : Read key 1500 start = ((Read key 1500 start).1, (Read key 1500 start).2)) by apply surjective_pairing.
  rewrite E in Hr. destruct Hr as (_ & Hb & _). split; [exact Hb|]. split; vm_compute; reflexivity.
Defined.

Lemma windows_inventory_selective_witness :
  ∃ r w', Enumerate true (Some fido) start = Some (r, w') ∧ opens w' = [units "p1"] ∧
    Forall (λ e, fido e ≠ (false, false)) (Endpoints r.1).
Proof.
  destruct (WindowsSelective.windows_inventory_selective opens fido true start) as (r & w' & He & _ & Hn).
  exists r, w'. split; [exact He|]. split; [|exact Hn]. vm_compute in He. injection He as _ <-. reflexivity.
Defined.
End WindowsSim.
