(* ===== verification/DarwinBinding.v ===== *)
(** * The macOS HID binding: src/pkg/hid/internal/darwin/darwin.go

    The Go half of the binding.  The functions of native.h that it calls
    through cgo are the class [IOHid]; what the connection behind hid_connect
    does is modelled in DarwinConnection and DarwinLifecycle, the inventory in
    DarwinRegistry. *)
From S2P Require Import Prelude GoErrors GoText GoEncoding GoIO Descriptors Registry ReportDesc HidConnection.
From S2P Require Import HidNative.
From stdpp Require Import sorting.

(** [hid_entry], with its C strings and its descriptor as values. *)
Record hid_entry := MkEntry {
  registry_id : Z; known : Z; vendor : Z; product : Z; interface_number : Z; bus : Z;
  path : string; serial : string; manufacturer : string; product_name : string;
  descriptor : bytes; descriptor_length : Z;
}.
Record hid_inventory := MkInventory { entries : list hid_entry; inv_complete : bool; limited : bool; inv_error : Z }.
Record hid_write_result := MkWriteResult {
  io : Z; setup_error : Z; restore_error : Z; wr_submitted : bool; wr_completed : bool;
}.

(** Storage of the C side is named by a pointer. *)
Class IOHid (W : Type) := {
  hid_enumerate : bool → W → option (Z * hid_inventory) * W;
  hid_inventory_free : Z → W → W;
  (** The entry, or an error code. *)
  hid_lookup : Z → bool → W → (option (Z * hid_entry) * Z) * W;
  hid_entry_free : Z → W → W;
  (** A connection for an entry and the two reports; an IOReturn; a pthread error. *)
  hid_connect : Z → ReportSpec → ReportSpec → W → (option Z * Z * Z) * W;
  (** The status, the IOReturn, and the report. *)
  hid_read : Z → Z → W → (Z * Z * bytes) * W;
  hid_write : Z → bytes → W → hid_write_result * W;
  hid_disconnect : Z → W → Z * W;
  hid_error_message : Z → string;
  (** [C.CBytes], [C.free] and the text of a [syscall.Errno]. *)
  CBytes : bytes → W → option Z * W;
  C_free : Z → W → W;
  errno_text : Z → string;
}.

Module DarwinBinding.
Import GoStrings ReportDesc NativeHID.
#[local] Open Scope string_scope.
#[local] Open Scope Z_scope.

Definition MaxInventoryEndpoints : Z := 1024.
Definition ETIMEDOUT : Z := 60.
Definition kIOReturnNoMemory : Z := 0xe00002bd.
Definition kIOReturnNoResources : Z := 0xe00002be.
Definition kIOReturnNoDevice : Z := 0xe00002c0.
Definition kIOReturnNotPrivileged : Z := 0xe00002c1.
Definition kIOReturnExclusiveAccess : Z := 0xe00002c5.
Definition kIOReturnUnsupported : Z := 0xe00002c7.
Definition kIOReturnNotOpen : Z := 0xe00002cd.
Definition kIOReturnBusy : Z := 0xe00002d5.
Definition kIOReturnOffline : Z := 0xe00002d7.
Definition kIOReturnNotPermitted : Z := 0xe00002e2.

Definition failure (op : string) (kind : driver_kind) (message : string) : goerror :=
  EDriver op kind "" 0 message None.

(** *** Endpoint IDs *)
Definition u64_bytes (v : Z) : bytes := (put_u32 (Z.shiftr v 32) ++ put_u32 v)%list.
Definition colon : ascii := ":"%char.
Definition endpointID (registryID collection : Z) : string :=
  ("darwin:" ++ Hex.EncodeToString (u64_bytes registryID) ++ ":" ++ Strconv.Itoa collection)%string.

Definition address (id : string) : res (Z * Z) :=
  let refused := Err (failure "open" KindInvalidArgument "invalid endpoint ID") in
  match Split colon id with
  | [kind; registry; collection] =>
      if negb (String.eqb kind "darwin") then refused
      else
        match Strconv.ParseUint registry 16 64, Strconv.Atoi collection with
        | Ok registryID, Ok index =>
            if (registryID =? 0) || (index <? -1) || negb (String.eqb (endpointID registryID index) id)
            then refused else Ok (registryID, index)
        | _, _ => refused
        end
  | _ => refused
  end.

Definition bus_of (n : Z) : Bus :=
  if n =? 1 then BusUSB else if n =? 2 then BusBluetooth else if n =? 3 then BusI2C
  else if n =? 4 then BusSPI else if n =? 0 then BusUnknown else BusOther.

Definition endpoint (entry : hid_entry) : Endpoint :=
  let bit b := negb (Z.land (u32 (known entry)) b =? 0) in
  MkEndpoint "" (path entry) (MkField (vendor entry) (bit 1)) (MkField (product entry) (bit 2))
    (MkField (MkUsage 0 0) false) (MkField (interface_number entry) (bit 4)) (bus_of (bus entry))
    (MkField (serial entry) (bit 8)) (MkField (manufacturer entry) (bit 16)) (MkField (product_name entry) (bit 32)).
Definition with_id (id : string) (e : Endpoint) : Endpoint :=
  MkEndpoint id (EPath e) (EVendorID e) (EProductID e) (EUsage e) (EInterface e) (EBus e) (ESerial e)
    (EManufacturer e) (EProduct e).
Definition with_usage (usage : Usage) (e : Endpoint) : Endpoint :=
  MkEndpoint (EndpointID e) (EPath e) (EVendorID e) (EProductID e) (MkField usage true) (EInterface e) (EBus e)
    (ESerial e) (EManufacturer e) (EProduct e).

(** [None] is the fuel of the parser, which never runs out. *)
Definition describe (entry : hid_entry) : option (Description * option goerror) :=
  if descriptor_length entry =? -2
  then Some ([], Some (failure "descriptor" KindResourceLimit "native descriptor allocation failed"))
  else if (descriptor_length entry <? 1) || (MaxDescriptorSize <? descriptor_length entry)
  then Some ([], Some (EMsg "report descriptor unavailable or exceeds supported bound"))
  else Inventory (take (Z.to_nat (descriptor_length entry)) (descriptor entry)).

Definition equalField {T} `{EqDecision T} (expected actual : Field T) : bool :=
  negb (Known expected) || Known actual && bool_decide (Value expected = Value actual).
Definition matches (expected actual : Endpoint) : bool :=
  String.eqb (EndpointID expected) (EndpointID actual)
  && equalField (EVendorID expected) (EVendorID actual) && equalField (EProductID expected) (EProductID actual)
  && equalField (EUsage expected) (EUsage actual) && equalField (EInterface expected) (EInterface actual)
  && equalField (ESerial expected) (ESerial actual) && equalField (EManufacturer expected) (EManufacturer actual)
  && equalField (EProduct expected) (EProduct actual)
  && (bool_decide (EBus expected = BusUnknown) || bool_decide (EBus expected = EBus actual)).

(** *** The inventory *)
Definition retain (ep : Endpoint) (s : Snapshot) : Snapshot :=
  MkSnapshot (Endpoints s ++ [ep])%list (Complete s) (Warnings s).
Definition warn (e : goerror) (s : Snapshot) : Snapshot :=
  MkSnapshot (Endpoints s) (Complete s) (Warnings s ++ [e])%list.
Definition incomplete (s : Snapshot) : Snapshot := MkSnapshot (Endpoints s) false (Warnings s).
Definition limit_reached (s : Snapshot) : Snapshot :=
  warn (failure "enumerate" KindResourceLimit "inventory endpoint limit reached") (incomplete s).
Definition full (s : Snapshot) : bool := len (Endpoints s) =? MaxInventoryEndpoints.

(** The loop over the collections; the boolean tells that the limit was reached. *)
Fixpoint add_collections (entry : hid_entry) (cs : Description) (s : Snapshot) : Snapshot * bool :=
  match cs with
  | [] => (s, false)
  | c :: cs =>
      if full s then (limit_reached s, true)
      else add_collections entry cs
             (retain (with_usage (CUsage c) (with_id (endpointID (registry_id entry) (Index c)) (endpoint entry))) s)
  end.

Section Inventory.
Context `{!ErrorText}.

Definition unresolved (entry : hid_entry) (err : option goerror) (s : Snapshot) : Snapshot :=
  let base := with_id (endpointID (registry_id entry) (-1)) (endpoint entry) in
  let err := default (EMsg "no Application collections in descriptor") err in
  warn (EDriver "enumerate" KindIO "" 0
          ("cannot resolve Application collections for " ++ EndpointID base ++ ": " ++ Error err)%string (Some err))
    (incomplete (retain base s)).

Fixpoint add_entries (es : list hid_entry) (s : Snapshot) : option (Snapshot * bool) :=
  match es with
  | [] => Some (s, false)
  | entry :: es =>
      if full s then Some (limit_reached s, true)
      else
        match describe entry with
        | None => None
        | Some ([], err) => add_entries es (unresolved entry err s)
        | Some (cs, err) =>
            let '(s, stop) :=
              add_collections entry cs (match err with Some e => warn e s | None => s end) in
            if stop then Some (s, true) else add_entries es s
        end
  end.

End Inventory.

Definition id_le (a b : Endpoint) : Prop := String.le (EndpointID a) (EndpointID b).
#[export] Instance id_le_dec : RelDecision id_le := λ a b, _.
Definition sort_endpoints (s : Snapshot) : Snapshot :=
  MkSnapshot (merge_sort id_le (Endpoints s)) (Complete s) (Warnings s).

Section Binding.
Context {W : Type} `{!IOHid W}.

Definition ioError (op : string) (code : Z) : goerror :=
  let kind :=
    if (code =? kIOReturnNoDevice) || (code =? kIOReturnOffline) then KindRemoved
    else if (code =? kIOReturnNotPrivileged) || (code =? kIOReturnNotPermitted) then KindPermission
    else if (code =? kIOReturnExclusiveAccess) || (code =? kIOReturnBusy) then KindBusy
    else if code =? kIOReturnUnsupported then KindUnsupported
    else if (code =? kIOReturnNoMemory) || (code =? kIOReturnNoResources) then KindResourceLimit
    else if code =? kIOReturnNotOpen then KindClosed
    else KindIO in
  EDriver op kind "iokit" code (hid_error_message code) None.
Definition pthreadError (op : string) (code : Z) : goerror :=
  EDriver op KindIO "pthread" code (errno_text code) None.

Definition collect `{!ErrorText} (native : hid_inventory) : option (Snapshot * option goerror) :=
  let snapshot := MkSnapshot [] (inv_complete native) [] in
  if negb (inv_error native =? 0) then Some (snapshot, Some (ioError "enumerate" (inv_error native)))
  else
    let snapshot :=
      if inv_complete native then snapshot
      else warn (failure "enumerate" (if limited native then KindResourceLimit else KindIO)
                   "native inventory traversal incomplete") snapshot in
    match add_entries (entries native) snapshot with
    | None => None
    | Some (snapshot, true) => Some (snapshot, None)
    | Some (snapshot, false) => Some (sort_endpoints snapshot, None)
    end.

Definition Enumerate `{!ErrorText} (resolveStrings : bool) (w : W) : option ((Snapshot * option goerror) * W) :=
  match hid_enumerate resolveStrings w with
  | (None, w) =>
      Some ((MkSnapshot [] false [],
             Some (failure "enumerate" KindResourceLimit "native inventory allocation failed")), w)
  | (Some (p, native), w) =>
      match collect native with
      | None => None
      | Some r => Some (r, hid_inventory_free p w)
      end
  end.

(** *** Opening *)
Record device := MkDev { native : Z; d_endpoint : Endpoint; d_layout : ReportLayout }.

Definition fido_usage : Usage := MkUsage 0xf1d0 1.

(** The collection of an entry that may be opened. *)
Definition qualify (expected : Endpoint) (index : Z) (entry : hid_entry) : option (res (Endpoint * ReportLayout)) :=
  match describe entry with
  | None => None
  | Some (_, Some err) => Some (Err (EDriver "open" KindUnsupported "" 0 "" (Some err)))
  | Some (collections, None) =>
      Some match find (λ c, Index c =? index) collections with
           | None => Err (failure "open" (if index =? -1 then KindUnsupported else KindStaleEndpoint)
                            "Application collection unavailable")
           | Some selected =>
               let actual := with_usage (CUsage selected)
                               (with_id (endpointID (registry_id entry) (Index selected)) (endpoint entry)) in
               if negb (matches expected actual)
               then Err (failure "open" KindStaleEndpoint "endpoint descriptor changed")
               else if negb (Supported selected) || negb (bool_decide (EBus actual = BusUSB))
                       || negb (bool_decide (CUsage selected = fido_usage))
               then Err (failure "open" KindUnsupported
                           "only unambiguous USB FIDO Input/Output collections are qualified")
               else Ok (actual, Layout selected)
           end
  end.

Definition Open (expected : Endpoint) : M W device := λ w,
  match address (EndpointID expected) with
  | Err e => Some (Err e, w)
  | Ok (registryID, index) =>
      let resolveStrings := Known (ESerial expected) || Known (EManufacturer expected) || Known (EProduct expected) in
      match hid_lookup registryID resolveStrings w with
      | ((None, code), w) => Some (Err (ioError "open" code), w)
      | ((Some (p, entry), _), w) =>
          match qualify expected index entry with
          | None => None
          | Some (Err e) => Some (Err e, hid_entry_free p w)
          | Some (Ok (actual, layout)) =>
              let '((connection, code, threadError), w) := hid_connect p (Input layout) (Output layout) w in
              Some (match connection with
                    | Some c => Ok (MkDev c actual layout)
                    | None => Err (if negb (threadError =? 0) then pthreadError "open" threadError
                                   else ioError "open" code)
                    end, hid_entry_free p w)
          end
      end
  end.

(** *** Report I/O *)
Definition status_error (status : Z) : goerror :=
  if (0 <? status) && negb (status =? ETIMEDOUT) then pthreadError "read" status
  else if status =? ETIMEDOUT then failure "read" KindTimeout "input wait timeout"
  else if status =? -2 then failure "read" KindIO "native input queue overflow"
  else if status =? -3 then failure "read" KindIO "input report length or ID does not match descriptor"
  else if status =? -4 then failure "read" KindIO "writer retired after signal mask restoration failure"
  else if status =? -5 then failure "read" KindClosed "connection closed"
  else failure "read" KindIO "native input wait failed".

Definition Read (d : device) (wait : Z) (w : W) : res Report * W :=
  if wait <? 0 then (Err (failure "read" KindInvalidArgument "negative wait"), w)
  else
    let '((status, code, report), w) := hid_read (native d) wait w in
    (if negb (code =? 0) then Err (ioError "read" code)
     else if negb (status =? 0) then Err (status_error status)
     else Ok (MkReport (SpecID (Input (d_layout d))) report), w).

Definition write_causes (n : hid_write_result) : list goerror :=
  ((if negb (io n =? 0) then [ioError "write" (io n)] else []) ++
   (if negb (setup_error n =? 0) then [pthreadError "write: block SIGURG" (setup_error n)] else []) ++
   (if negb (restore_error n =? 0) then [pthreadError "write: restore signal mask" (restore_error n)] else []))%list.

Definition Write (d : device) (report : Report) (w : W) : (outcome * option goerror) * W :=
  let spec := Output (d_layout d) in
  if negb (ReportID report =? SpecID spec) || negb (len (Data report) =? Descriptors.Size spec)
  then ((OutcomeNotSubmitted, Some (failure "write" KindInvalidReport "output report does not match descriptor")), w)
  else
    match CBytes (Data report) w with
    | (None, w) =>
        ((OutcomeNotSubmitted, Some (failure "write" KindResourceLimit "output buffer allocation failed")), w)
    | (Some buffer, w) =>
        let '(n, w) := hid_write (native d) (Data report) w in
        let outcome := if wr_completed n then OutcomeCompleted
                       else if wr_submitted n then OutcomeUnknown else OutcomeNotSubmitted in
        ((outcome, match write_causes n with [] => None | causes => Some (EJoin causes) end), C_free buffer w)
    end.

(** The device keeps no connection afterwards: [d.native = nil]. *)
Definition nil : Z := 0.
Definition Close (d : device) (w : W) : (option goerror * device) * W :=
  let '(code, w) := hid_disconnect (native d) w in
  ((if negb (code =? 0) then Some (ioError "close" code) else None, MkDev nil (d_endpoint d) (d_layout d)), w).
End Binding.
End DarwinBinding.
