(* ===== verification/DarwinProps.v ===== *)
(** * What the macOS HID binding guarantees

    Endpoint IDs are addresses, opening owns one connection and nothing else,
    and an inventory is the bounded list of the collections of its entries. *)
From S2P Require Import Prelude GoErrors GoText GoEncoding GoIO Descriptors Registry ReportDesc HidConnection.
From S2P Require Import HidNative DarwinBinding.
From stdpp Require Import sorting.
#[local] Open Scope Z_scope.

(** ** Endpoint IDs *)
Module DarwinAddress.
Import GoStrings Strconv DarwinBinding.

(** Two hexadecimal digits read as their byte. *)
Lemma digit_symbol (n : Z) : 0 <= n < 16 → digit (symbol Hex.alphabet n) = Some n ∧ symbol Hex.alphabet n ≠ colon.
Proof.
  intros Hn. assert (H : n ∈ [0; 1; 2; 3; 4; 5; 6; 7; 8; 9; 10; 11; 12; 13; 14; 15]) by (rewrite !elem_of_cons; lia).
  rewrite !elem_of_cons in H. by destruct_or! H; subst; try set_solver.
Qed.

Lemma nibbles (b : Z) : byte_ok b →
  0 <= Z.shiftr b 4 < 16 ∧ 0 <= Z.land b 15 < 16 ∧ b = 16 * Z.shiftr b 4 + Z.land b 15.
Proof.
  unfold byte_ok. intros Hb. change 15 with (Z.ones 4). rewrite Z.land_ones, Z.shiftr_div_pow2 by lia.
  change (2 ^ 4) with 16. pose proof (Z.div_mod b 16). pose proof (Z.mod_pos_bound b 16).
  split_and!; [apply Z.div_pos; lia|apply Z.div_lt_upper_bound; lia|lia|lia|lia].
Qed.

Lemma digits_hex (bs : bytes) : bytes_ok bs → ∀ acc,
  digits 16 acc (Hex.EncodeToString bs) = Some (fold_left (λ a b, a * 256 + b) bs acc).
Proof.
  induction 1 as [|b bs Hb _ IH]; intros acc; [done|]. destruct (nibbles b Hb) as (Hh & Hl & E).
  cbn [Hex.EncodeToString digits fold_left].
  rewrite (proj1 (digit_symbol _ Hh)), (proj1 (digit_symbol _ Hl)), !(proj2 (Z.ltb_lt _ 16)), IH by lia.
  do 2 f_equal. lia.
Qed.

Lemma hex_no_colon (bs : bytes) : bytes_ok bs → colon ∉ String.list_ascii_of_string (Hex.EncodeToString bs).
Proof.
  induction 1 as [|b bs Hb _ IH]; simpl; [apply not_elem_of_nil|]. destruct (nibbles b Hb) as (Hh & Hl & _).
  apply digit_symbol in Hh, Hl. rewrite !list.not_elem_of_cons. naive_solver.
Qed.

Lemma u64_bytes_ok v : bytes_ok (u64_bytes v).
Proof. repeat constructor; apply u8_range. Qed.

Lemma u64_bytes_value v : 0 <= v < 2 ^ 64 → fold_left (λ a b, a * 256 + b) (u64_bytes v) 0 = v.
Proof.
  intros Hv. unfold u64_bytes, put_u32, u8, wrap. cbn [app fold_left].
  rewrite !Z.shiftr_shiftr, !Z.shiftr_div_pow2 by lia.
  change (32 + 24) with 56. change (32 + 16) with 48. change (32 + 8) with 40.
  change (2 ^ 8) with 256. change (2 ^ 16) with (256 * 256). change (2 ^ 24) with (256 * 256 * 256).
  change (2 ^ 32) with (256 * 256 * 256 * 256). change (2 ^ 40) with (256 * 256 * 256 * 256 * 256).
  change (2 ^ 48) with (256 * 256 * 256 * 256 * 256 * 256).
  change (2 ^ 56) with (256 * 256 * 256 * 256 * 256 * 256 * 256).
  rewrite <-!Z.div_div by lia.
  pose proof (Z.div_mod v 256). set (v1 := v / 256) in *. pose proof (Z.div_mod v1 256). set (v2 := v1 / 256) in *.
  pose proof (Z.div_mod v2 256). set (v3 := v2 / 256) in *. pose proof (Z.div_mod v3 256). set (v4 := v3 / 256) in *.
  pose proof (Z.div_mod v4 256). set (v5 := v4 / 256) in *. pose proof (Z.div_mod v5 256). set (v6 := v5 / 256) in *.
  pose proof (Z.div_mod v6 256). set (v7 := v6 / 256) in *.
  assert (0 <= v7 < 256).
  { subst v7 v6 v5 v4 v3 v2 v1. rewrite !Z.div_div by lia.
    split; [apply Z.div_pos; lia|apply Z.div_lt_upper_bound; lia]. }
  rewrite (Z.mod_small v7) by lia. lia.
Qed.

Lemma ParseUint_registry (v : Z) : 0 <= v < 2 ^ 64 →
  ParseUint (Hex.EncodeToString (u64_bytes v)) 16 64 = Ok v.
Proof.
  intros Hv. pose proof (digits_hex (u64_bytes v) (u64_bytes_ok v) 0) as Hd. rewrite (u64_bytes_value v Hv) in Hd.
  unfold ParseUint. destruct (Hex.EncodeToString (u64_bytes v)) as [|a s] eqn:E; [done|].
  by rewrite Hd, (proj2 (Z.ltb_lt _ _) (proj2 Hv)).
Qed.

(** Decimal numbers have no colon. *)
Lemma pretty_no_colon (x : N) : ∀ s, colon ∉ String.list_ascii_of_string s →
  colon ∉ String.list_ascii_of_string (pretty_N_go x s).
Proof.
  induction (N.lt_wf_0 x) as [x _ IH]. intros s Hs.
  destruct (decide (x = 0%N)) as [->|Hx]; [by rewrite pretty_N_go_0|].
  rewrite pretty_N_go_step by lia. apply IH; [apply N.div_lt; lia|].
  cbn [String.list_ascii_of_string]. apply list.not_elem_of_cons. split; [|done].
  intros E. pose proof (digit_pretty (x `mod` 10) ltac:(by apply N.mod_lt)) as Hd. by rewrite <-E in Hd.
Qed.
Lemma Itoa_no_colon z : colon ∉ String.list_ascii_of_string (Itoa z).
Proof.
  assert (HN : ∀ x : N, colon ∉ String.list_ascii_of_string (pretty x)).
  { intros x. unfold pretty, pretty_N. case_decide; [set_solver|]. apply pretty_no_colon. set_solver. }
  unfold Itoa. destruct z as [|p|p]; [set_solver|apply (HN (N.pos p))|].
  change (pretty (Z.neg p)) with (String "-" (pretty (N.pos p))). cbn [String.list_ascii_of_string].
  apply list.not_elem_of_cons. split; [done|apply HN].
Qed.

Lemma Split_endpointID r i :
  Split colon (endpointID r i) = ["darwin"; Hex.EncodeToString (u64_bytes r); Itoa i]%string.
Proof.
  unfold endpointID. change ("darwin:" ++ ?s)%string with ("darwin" ++ String colon s)%string.
  change (":" ++ Itoa i)%string with (String colon (Itoa i)).
  rewrite Split_app_nosep by set_solver. rewrite Split_app_nosep by apply hex_no_colon, u64_bytes_ok.
  by rewrite Split_nosep by apply Itoa_no_colon.
Qed.

(** The ID of an endpoint is its address. [address] accepts exactly the
    texts that [endpointID] prints of a registry entry ID that is not zero and
    a collection index that is not below -1, and returns that pair: no other
    spelling of the numbers is an ID, and two collections never share one. *)
Theorem darwin_address_exact (id : string) (registry index : Z) :
  address id = Ok (registry, index) ↔
    id = endpointID registry index ∧ 0 < registry < 2 ^ 64 ∧ -1 <= index < 2 ^ 63.
Proof.
  unfold address. split.
  - destruct (Split colon id) as [|a [|b [|c [|? ?]]]]; try done.
    destruct (negb (String.eqb a "darwin")); [done|].
    destruct (ParseUint b 16 64) as [r|] eqn:Er; [|done]. destruct (Atoi c) as [i|] eqn:Ei; [|done].
    destruct (_ || _) eqn:Hg; [done|]. intros [= -> ->]. rewrite !orb_false_iff, negb_false_iff in Hg.
    destruct Hg as [[H0 H1] H2%String.eqb_eq]. apply Z.eqb_neq in H0. apply Z.ltb_ge in H1.
    apply Atoi_bound in Ei. apply ParseUint_range in Er; [|lia]. split_and!; [done|lia..].
  - intros (-> & Hr & Hi). rewrite Split_endpointID, String.eqb_refl. cbn [negb].
    rewrite ParseUint_registry, Atoi_Itoa, String.eqb_refl by lia.
    rewrite (proj2 (Z.eqb_neq _ _)), (proj2 (Z.ltb_ge _ _)) by lia. done.
Qed.
End DarwinAddress.

(** ** Ownership

    What the process owns of the C side: the inventory, the entry and the
    connection a pointer names, and the buffers of [C.CBytes]. *)
Definition an_inventory (p : Z) : Z * Z := (0, p).
Definition an_entry (p : Z) : Z * Z := (1, p).
Definition a_connection (c : Z) : Z * Z := (2, c).
Definition a_buffer (p : Z) : Z * Z := (3, p).

Definition acquires_some {W} (owned : W → gset (Z * Z)) (x : option (Z * Z)) (w w' : W) : Prop :=
  match x with Some x => acquires owned x w w' | None => owned w' = owned w end.

Class StorageLaws {W : Type} `{!IOHid W} (owned : W → gset (Z * Z)) : Prop := {
  enumerate_owned strings w :
    let '(r, w') := hid_enumerate strings w in acquires_some owned (an_inventory ∘ fst <$> r) w w';
  inventory_free_owned p w : owned (hid_inventory_free p w) = owned w ∖ {[an_inventory p]};
  lookup_owned registry strings w :
    let '((r, _), w') := hid_lookup registry strings w in acquires_some owned (an_entry ∘ fst <$> r) w w';
  entry_free_owned p w : owned (hid_entry_free p w) = owned w ∖ {[an_entry p]};
  connect_owned p input output w :
    let '((c, _, _), w') := hid_connect p input output w in acquires_some owned (a_connection <$> c) w w';
  read_owned c wait w : owned (hid_read c wait w).2 = owned w;
  write_owned c data w : owned (hid_write c data w).2 = owned w;
  disconnect_owned c w : owned (hid_disconnect c w).2 = owned w ∖ {[a_connection c]};
  CBytes_owned bs w : let '(b, w') := CBytes bs w in acquires_some owned (a_buffer <$> b) w w';
  C_free_owned b w : owned (C_free b w) = owned w ∖ {[a_buffer b]};
}.

Module DarwinOwnership.
Import ReportDesc ReportDescFacts DarwinBinding.

Lemma describe_total entry : ∃ r, describe entry = Some r.
Proof.
  unfold describe. destruct (_ =? _); [by eexists|]. destruct (_ || _); [by eexists|].
  destruct (Inventory_total (take (Z.to_nat (descriptor_length entry)) (descriptor entry))) as (cs & e & H). by eexists.
Qed.

(** What makes a collection of an entry the one that [expected] names. *)
Definition qualified (expected : Endpoint) (index : Z) (entry : hid_entry) (ep : Endpoint) (layout : ReportLayout) : Prop :=
  ∃ cs c, describe entry = Some (cs, None) ∧ c ∈ cs ∧ Index c = index ∧ layout = Layout c ∧
    ep = with_usage (CUsage c) (with_id (endpointID (registry_id entry) index) (endpoint entry)) ∧
    matches expected ep = true ∧ EBus ep = BusUSB ∧ CUsage c = fido_usage ∧ Supported c = true.

Lemma qualify_spec expected index entry : ∃ r, qualify expected index entry = Some r ∧
  ∀ ep layout, r = Ok (ep, layout) → qualified expected index entry ep layout.
Proof.
  unfold qualify. destruct (describe_total entry) as [[cs [e|]] Hd]; rewrite Hd; [by eexists|].
  eexists. split; [done|]. intros ep layout. destruct (List.find _ cs) as [c|] eqn:Hf; [|done].
  apply List.find_some in Hf as [Hin Hix%Z.eqb_eq]. destruct (matches _ _) eqn:Hm; [|done]. cbn [negb].
  destruct (_ || _) eqn:Hg; [done|]. intros [= <- <-]. rewrite !orb_false_iff, !negb_false_iff in Hg.
  destruct Hg as [[Hs Hb%bool_decide_eq_true] Hu%bool_decide_eq_true].
  exists cs, c. rewrite <-list_elem_of_In in Hin. subst index. by split_and!.
Qed.

Section Ownership.
Context {W : Type} `{!IOHid W} (owned : W → gset (Z * Z)) `{!StorageLaws owned}.

(** Opening on macOS owns exactly what it returns. Whatever the lookup and
    the connection answer, [Open] returns, the entry it looked up is released,
    and the process owns one connection more - that of the device - or, after
    an error, nothing more. A device it returns is a collection of the entry
    at the address that was asked for, with a descriptor that parsed, that
    matches every known field of the expected endpoint, of a supported layout,
    on USB and of the FIDO usage; and closing it gives the connection back. *)
Theorem darwin_open_owned (expected : Endpoint) (w : W) :
  ∃ r w', Open expected w = Some (r, w') ∧
    match r with
    | Err _ => owned w' = owned w
    | Ok d =>
        acquires owned (a_connection (native d)) w w' ∧ owned (Close d w').2 = owned w ∧
        ∃ registry index p entry, address (EndpointID expected) = Ok (registry, index) ∧
          (hid_lookup registry
             (Known (ESerial expected) || Known (EManufacturer expected) || Known (EProduct expected)) w).1.1
            = Some (p, entry) ∧
          qualified expected index entry (d_endpoint d) (d_layout d)
    end.
Proof.
  unfold Open. destruct (address (EndpointID expected)) as [[registry index]|e]; [|by eexists _, _].
  set (strings := _ || _). pose proof (lookup_owned (owned:=owned) registry strings w) as Hl.
  destruct (hid_lookup registry strings w) as [[[[p entry]|] code] w1] eqn:El; cbn in Hl; [|by eexists _, _].
  destruct (qualify_spec expected index entry) as (q & -> & Hq). pose proof (entry_free_owned (owned:=owned) p) as Hf.
  destruct Hl as [Hnew Hl]. destruct q as [[ep layout]|e].
  2: { eexists _, _. split; [done|]. cbn. rewrite Hf, Hl. set_solver. }
  pose proof (connect_owned (owned:=owned) p (Input layout) (Output layout) w1) as Hc.
  destruct (hid_connect _ _ _ w1) as [[[[c|] cd] t] w2]; cbn in Hc; eexists _, _; (split; [done|]); cbn.
  2: { rewrite Hf, Hc, Hl. set_solver. }
  destruct Hc as [Hc Hc']. assert (an_entry p ≠ a_connection c) by done.
  unfold acquires, Close. pose proof (disconnect_owned (owned:=owned) c (hid_entry_free p w2)) as Hd. cbn [native] in *.
  destruct (hid_disconnect _ _) as [? w3]. cbn [snd] in *. rewrite Hd, Hf, Hc', Hl.
  split_and!; [set_solver|set_solver|set_solver|]. exists registry, index, p, entry.
  split_and!; [done|by rewrite El|by apply Hq].
Qed.
End Ownership.
End DarwinOwnership.

(** ** The inventory *)
Module DarwinInventory.
Import ReportDesc DarwinBinding DarwinOwnership.

(** The endpoints of an entry: its collections, or the interface itself. *)
Definition collection_endpoint (entry : hid_entry) (c : Collection) : Endpoint :=
  with_usage (CUsage c) (with_id (endpointID (registry_id entry) (Index c)) (endpoint entry)).
Definition resolved (entry : hid_entry) : bool :=
  match describe entry with Some (_ :: _, _) => true | _ => false end.
Definition listed (entry : hid_entry) : list Endpoint :=
  match describe entry with
  | Some (c :: cs, _) => map (collection_endpoint entry) (c :: cs)
  | _ => [with_id (endpointID (registry_id entry) (-1)) (endpoint entry)]
  end.

Definition limit : nat := 1024.
Definition explained (s : Snapshot) : Prop := Complete s = false → Warnings s ≠ [].

Lemma explained_warn e s : explained (warn e s).
Proof. intros _ H. by apply app_eq_nil in H as [_ ?]. Qed.

Lemma darwin_collections_spec entry cs : ∀ s, (length (Endpoints s) <= limit)%nat → explained s →
  let '(s', stop) := add_collections entry cs s in
  let all := (Endpoints s ++ map (collection_endpoint entry) cs)%list in
  Endpoints s' = take limit all ∧ explained s' ∧
  stop = bool_decide (limit < length all)%nat ∧ Complete s' = Complete s && negb stop.
Proof.
  induction cs as [|c cs IH]; intros s Hs Hx; cbn [add_collections map].
  { rewrite app_nil_r, take_ge by done. rewrite bool_decide_eq_false_2 by lia. by rewrite andb_true_r. }
  unfold full, MaxInventoryEndpoints, len. destruct (Z.eqb_spec (Z.of_nat (length (Endpoints s))) 1024) as [Hf|Hf].
  - cbn. rewrite take_app_length' by (unfold limit; lia). rewrite andb_false_r.
    rewrite bool_decide_eq_true_2 by (rewrite length_app; cbn [length]; unfold limit; lia).
    split_and!; try done. apply explained_warn.
  - specialize (IH (retain (collection_endpoint entry c) s)).
    unfold collection_endpoint at 1 2 in IH. destruct (add_collections _ _ _) as [s' stop].
    cbn [retain Endpoints Complete] in IH. rewrite <-app_assoc in IH. apply IH; [|done].
    rewrite length_app. cbn [length]. unfold limit in *. lia.
Qed.

Lemma listed_described entry cs err : describe entry = Some (cs, err) →
  resolved entry = match cs with [] => false | _ => true end ∧
  listed entry = match cs with
                 | [] => [with_id (endpointID (registry_id entry) (-1)) (endpoint entry)]
                 | _ => map (collection_endpoint entry) cs
                 end.
Proof. unfold resolved, listed. intros ->. by destruct cs. Qed.

Lemma listed_pos entry : (1 <= length (listed entry))%nat.
Proof. unfold listed. destruct (describe entry) as [[[|c cs] err]|]; cbn; lia. Qed.

Section Texts.
Context {text : ErrorText}.

(** An entry, with the limit not yet reached. *)
Lemma add_entries_spec es : ∀ s, (length (Endpoints s) <= limit)%nat → explained s →
  ∃ s' stop, add_entries es s = Some (s', stop) ∧
    let all := (Endpoints s ++ concat (map listed es))%list in
    Endpoints s' = take limit all ∧ explained s' ∧ stop = bool_decide (limit < length all)%nat ∧
    Complete s' = Complete s && forallb resolved es && negb stop.
Proof.
  induction es as [|entry es IH]; intros s Hs Hx; cbn [add_entries map concat].
  { eexists _, _. split; [done|]. cbn. rewrite app_nil_r, take_ge by done.
    rewrite bool_decide_eq_false_2 by lia. by rewrite !andb_true_r. }
  unfold full, MaxInventoryEndpoints, len. destruct (Z.eqb_spec (Z.of_nat (length (Endpoints s))) 1024) as [Hf|Hf].
  { eexists _, _. split; [done|]. cbn. pose proof (listed_pos entry).
    rewrite take_app_length' by (unfold limit; lia). rewrite andb_false_r.
    rewrite bool_decide_eq_true_2 by (rewrite !length_app; unfold limit in *; lia).
    split_and!; try done. apply explained_warn. }
  destruct (describe_total entry) as [[cs err] Hd]. rewrite Hd. cbn [forallb].
  destruct (listed_described entry cs err Hd) as [-> ->]. destruct cs as [|c cs].
  - destruct (IH (unresolved entry err s)) as (s' & stop & -> & H).
    { cbn. rewrite length_app. cbn [length]. unfold limit in *. lia. } { apply explained_warn. }
    exists s', stop. split; [done|]. cbn [unresolved warn incomplete retain Endpoints Complete] in H.
    rewrite <-app_assoc in H. by rewrite andb_false_r.
  - set (s0 := match err with Some e => warn e s | None => s end).
    assert (Hs0 : Endpoints s0 = Endpoints s ∧ Complete s0 = Complete s ∧ explained s0).
    { subst s0. destruct err; [|done]. split_and!; [done|done|apply explained_warn]. }
    destruct Hs0 as (He & Hc & Hx0). pose proof (darwin_collections_spec entry (c :: cs) s0) as H.
    rewrite He, Hc in H. specialize (H Hs Hx0).
    destruct (add_collections entry (c :: cs) s0) as [s1 stop]. destruct H as (H1 & H2 & H3 & H4).
    set (mine := map (collection_endpoint entry) (c :: cs)) in *. rewrite app_assoc. case_bool_decide as Hl; subst stop.
    + eexists _, _. split; [done|]. rewrite H1, H4, !andb_false_r, (take_app_le (Endpoints s ++ mine)) by lia.
      rewrite bool_decide_eq_true_2 by (rewrite length_app; lia). done.
    + rewrite take_ge in H1 by lia. destruct (IH s1) as (s' & stop & -> & H); [rewrite H1; lia|done|].
      exists s', stop. split; [done|]. rewrite H1, H4 in H. by rewrite !andb_true_r in H.
Qed.
End Texts.

#[local] Instance id_le_trans : Transitive id_le.
Proof. intros a b c. unfold id_le. apply transitivity. Qed.
#[local] Instance id_le_total : Total id_le.
Proof. intros a b. apply (total String.le). Qed.

Section Enumerate.
Context {W : Type} `{!IOHid W} {text : ErrorText} (owned : W → gset (Z * Z)) `{!StorageLaws owned}.

(** What an answer of the C side lists: every collection of every entry, in
    the order of the IDs; past 1024 endpoints only the first ones, unsorted,
    and then the snapshot is not complete. *)
Definition snapshot_of (native : hid_inventory) (s : Snapshot) : Prop :=
  let all := concat (map listed (entries native)) in
  if decide (length all <= limit)%nat
  then Endpoints s ≡ₚ all ∧ StronglySorted id_le (Endpoints s) ∧
       Complete s = inv_complete native && forallb resolved (entries native)
  else Endpoints s = take limit all ∧ Complete s = false.

Lemma collect_spec native : inv_error native = 0 →
  ∃ s, collect native = Some (s, None) ∧ snapshot_of native s ∧ explained s ∧ (length (Endpoints s) <= limit)%nat.
Proof.
  intros He. unfold collect. rewrite He. cbn [Z.eqb negb].
  set (s0 := if inv_complete native then _ else _).
  assert (Hs0 : Endpoints s0 = [] ∧ Complete s0 = inv_complete native ∧ explained s0).
  { subst s0. unfold explained. by destruct (inv_complete native). }
  destruct Hs0 as (H1 & H2 & H3). destruct (add_entries_spec (entries native) s0) as (s & stop & -> & H);
    [rewrite H1; cbn; lia|done|]. rewrite H1, H2 in H. destruct H as (Heq & Hx & -> & Hc). cbn [app] in *.
  unfold snapshot_of. case_bool_decide as Hl; destruct (decide _) as [Hle|Hgt]; try lia.
  - eexists. split; [done|]. split_and!; [done|by rewrite Hc, andb_false_r|done|].
    rewrite Heq, length_take. lia.
  - eexists. split; [done|]. rewrite take_ge in Heq by lia. cbn [sort_endpoints Endpoints Complete].
    split_and!; [by rewrite merge_sort_Permutation, Heq|apply (StronglySorted_merge_sort _)| |exact Hx|].
    + by rewrite Hc, andb_true_r.
    + by rewrite merge_sort_Permutation, Heq.
Qed.

(** A macOS inventory lists the collections of every entry. [Enumerate]
    returns, releases the C side's list, and gives at most 1024 endpoints. When
    the C side reports no error neither does it, and its endpoints are exactly
    the Application collections of the entries - an entry without any is
    listed as itself, at the address that cannot be opened - sorted by ID, as
    long as they are at most 1024, and the first 1024 otherwise. The snapshot
    is called complete exactly when the C side says so, every entry resolved
    and none was cut off, and one that is not complete carries a warning. *)
Theorem darwin_inventory_exact (strings : bool) (w : W) :
  ∃ s err w', Enumerate strings w = Some ((s, err), w') ∧ owned w' = owned w ∧
    len (Endpoints s) <= MaxInventoryEndpoints ∧
    match (hid_enumerate strings w).1 with
    | None => Endpoints s = [] ∧ is_Some err
    | Some (_, native) =>
        if decide (inv_error native = 0) then err = None ∧ snapshot_of native s ∧ explained s
        else Endpoints s = [] ∧ err = Some (ioError "enumerate" (inv_error native))
    end.
Proof.
  unfold Enumerate. pose proof (enumerate_owned (owned:=owned) strings w) as Ho.
  pose proof (inventory_free_owned (owned:=owned)) as Hf.
  destruct (hid_enumerate strings w) as [[[p native]|] w1]; cbn in Ho.
  2: { eexists _, _, _. split; [done|]. by split_and!. }
  destruct Ho as [Hnew Ho]. assert (Hfree : owned (hid_inventory_free p w1) = owned w) by (rewrite Hf, Ho; set_solver).
  cbn [fst]. destruct (decide (inv_error native = 0)) as [He|He].
  - destruct (collect_spec native He) as (s & -> & Hs & Hx & Hl). eexists _, _, _. split; [done|].
    split_and!; try done. unfold len, MaxInventoryEndpoints, limit in *. lia.
  - unfold collect. rewrite (proj2 (Z.eqb_neq _ _) He). eexists _, _, _. split; [done|]. by split_and!.
Qed.
End Enumerate.
End DarwinInventory.
