(* ===== verification/DarwinConnection.v ===== *)
(** * The connection of the macOS HID binding: connection_darwin.c

    The storage that the reader thread, the writer thread and the callers share
    under one lock.  Every critical section is a function on it, and a
    transition system interleaves them; the device itself, the signal mask and
    the clock answer as they like.  The diagnostics compiled in with
    HID_DIAGNOSTICS are left out. *)
From S2P Require Import Prelude GoErrors GoIO Descriptors DarwinBinding.
From stdpp Require Import relations.
#[local] Open Scope Z_scope.

Module DarwinConnection.
Definition HID_QUEUE_SIZE : Z := 64.
Definition HID_MAX_REPORT : Z := 4096.
Definition kIOHIDReportTypeInput : Z := 0.
Definition kIOReturnBadArgument : Z := 0xe00002c2.
Definition ETIMEDOUT : Z := DarwinBinding.ETIMEDOUT.

(** The queue is an array of [HID_QUEUE_SIZE] reports. *)
Record hid_connection := MkConnection {
  input_id : Z; input_size : Z; output_id : Z; output_size : Z;
  queue : list bytes; head : Z; count : Z;
  terminal : Z; io_error : Z; stop : bool;
  write_pending : bool; write_done : bool; writer_stop : bool; writer_dead : bool;
  output_buffer : bytes; write_result : hid_write_result;
}.

(** [calloc] and the parameters of [hid_connect]. *)
Definition no_result : hid_write_result := MkWriteResult 0 0 0 false false.
Definition new_connection (input output : ReportSpec) : hid_connection :=
  MkConnection (SpecID input) (Descriptors.Size input) (SpecID output) (Descriptors.Size output)
    (replicate 64 []) 0 0 0 0 false false false false false [] no_result.
Definition refuses_sizes (input output : ReportSpec) : bool :=
  (Descriptors.Size input <? 1) || (HID_MAX_REPORT <? Descriptors.Size input)
  || (Descriptors.Size output <? 1) || (HID_MAX_REPORT <? Descriptors.Size output).

Definition set_queue (q : list bytes) (h n : Z) (c : hid_connection) : hid_connection :=
  MkConnection (input_id c) (input_size c) (output_id c) (output_size c) q h n
    (terminal c) (io_error c) (stop c) (write_pending c) (write_done c) (writer_stop c) (writer_dead c)
    (output_buffer c) (write_result c).
Definition set_terminal (t e : Z) (c : hid_connection) : hid_connection :=
  MkConnection (input_id c) (input_size c) (output_id c) (output_size c) (queue c) (head c) (count c)
    t e (stop c) (write_pending c) (write_done c) (writer_stop c) (writer_dead c) (output_buffer c) (write_result c).
Definition set_stops (c : hid_connection) : hid_connection :=
  MkConnection (input_id c) (input_size c) (output_id c) (output_size c) (queue c) (head c) (count c)
    (terminal c) (io_error c) true (write_pending c) (write_done c) true (writer_dead c)
    (output_buffer c) (write_result c).
Definition set_pending (buffer : bytes) (c : hid_connection) : hid_connection :=
  MkConnection (input_id c) (input_size c) (output_id c) (output_size c) (queue c) (head c) (count c)
    (terminal c) (io_error c) (stop c) true false (writer_stop c) (writer_dead c) buffer (write_result c).
Definition set_done (dead : bool) (r : hid_write_result) (c : hid_connection) : hid_connection :=
  MkConnection (input_id c) (input_size c) (output_id c) (output_size c) (queue c) (head c) (count c)
    (terminal c) (io_error c) (stop c) false true (writer_stop c) (dead || writer_dead c) (output_buffer c) r.

(** The report with its ID, where there is one. *)
Definition prefix (id : Z) : Z := if id =? 0 then 0 else 1.
Definition wire (id : Z) (data : bytes) : bytes := (if id =? 0 then data else id :: data)%list.

Definition fail_locked (t e : Z) (c : hid_connection) : hid_connection :=
  if terminal c =? 0 then set_terminal t e c else c.

Definition enqueue (data : bytes) (c : hid_connection) : hid_connection :=
  set_queue (<[Z.to_nat ((head c + count c) mod HID_QUEUE_SIZE) := data]> (queue c)) (head c) (count c + 1) c.

Definition input_callback (result typ report_id : Z) (report : bytes) (c : hid_connection) : hid_connection :=
  if stop c || negb (terminal c =? 0) then c
  else if negb (result =? 0) then fail_locked (-1) result c
  else if negb (typ =? kIOHIDReportTypeInput) || negb (report_id =? input_id c) then c
  else if negb (len report =? input_size c + prefix (input_id c))
          || (negb (input_id c =? 0) && negb (report !!! 0%nat =? input_id c))
  then fail_locked (-3) 0 c
  else if count c =? HID_QUEUE_SIZE then fail_locked (-2) 0 c
  else enqueue (take (Z.to_nat (input_size c)) (drop (Z.to_nat (prefix (input_id c))) report)) c.

Definition removal_callback (c : hid_connection) : hid_connection :=
  fail_locked (-1) DarwinBinding.kIOReturnNoDevice c.

(** The condition on which [hid_read] stops waiting, and what it does then;
    [status] is that of the wait: 0, ETIMEDOUT or another error. *)
Definition readable (c : hid_connection) : bool := negb (count c =? 0) || negb (terminal c =? 0) || stop c.
Definition hid_read (status : Z) (c : hid_connection) : (Z * Z * bytes) * hid_connection :=
  if negb (terminal c =? 0) then ((terminal c, io_error c, []), c)
  else if stop c then ((-5, 0, []), c)
  else if negb (count c =? 0)
  then ((0, 0, queue c !!! Z.to_nat (head c)),
        set_queue (queue c) ((head c + 1) mod HID_QUEUE_SIZE) (count c - 1) c)
  else ((status, 0, []), c).

(** The first half of [hid_write]: a refusal, or a pending write. *)
Definition hid_write (data : bytes) (c : hid_connection) : option hid_write_result * hid_connection :=
  let refused io := Some (MkWriteResult io 0 0 false false) in
  if stop c || negb (terminal c =? 0) || writer_dead c
  then (refused (if io_error c =? 0 then DarwinBinding.kIOReturnNotOpen else io_error c), c)
  else if negb (len data =? output_size c) then (refused kIOReturnBadArgument, c)
  else (None, set_pending (wire (output_id c) data) c).

(** [protected_write]: the answers of the signal mask, of the device and of the
    signal mask again; and whether the device was called. *)
Definition protected_write (setup io restore : Z) : hid_write_result :=
  if negb (setup =? 0) then MkWriteResult 0 setup 0 false false
  else MkWriteResult io 0 restore true (io =? 0).

(** The end of a turn of [writer_main]. *)
Definition write_finished (r : hid_write_result) (c : hid_connection) : hid_connection :=
  let dead := negb (restore_error r =? 0) in
  let c := set_done dead r c in
  if dead then fail_locked (-4) 0 c else c.

(** *** The threads *)
Inductive writer_pc := WIdle | WTaken | WWrote (r : hid_write_result) | WExited.
Inductive reader_pc := RLoop | RExited.

(** The state, with the history: the reports queued and returned, the calls of
    IOHIDDeviceSetReport, and the results of [hid_write]. *)
Record system := MkSystem {
  conn : hid_connection; reader : reader_pc; writer : writer_pc; call : option bytes;
  accepted : list bytes; returned : list bytes; sent : list bytes; results : list (bytes * hid_write_result);
}.

Definition start (input output : ReportSpec) : system :=
  MkSystem (new_connection input output) RLoop WIdle None [] [] [] [].

Definition queued (c c' : hid_connection) (report : bytes) : list bytes :=
  if count c' =? count c then []
  else [take (Z.to_nat (input_size c)) (drop (Z.to_nat (prefix (input_id c))) report)].

(** [hid_write] has one caller at a time, and [hid_disconnect] is called when
    it has none: the workers of a [HidConnection] see to both.  The callbacks run
    in the loop of the reader. *)
Inductive actor := LoopCallback | ReaderExit | WriterThread | Callers | Closer.
Inductive turn : actor → system → system → Prop :=
  | input_arrives s result typ id report : reader s = RLoop →
      let c := input_callback result typ id report (conn s) in
      turn LoopCallback s (MkSystem c (reader s) (writer s) (call s)
                (accepted s ++ queued (conn s) c report) (returned s) (sent s) (results s))
  | device_removed s : reader s = RLoop →
      turn LoopCallback s (MkSystem (removal_callback (conn s)) (reader s) (writer s) (call s)
                (accepted s) (returned s) (sent s) (results s))
  | reader_stops s : reader s = RLoop → stop (conn s) = true →
      turn ReaderExit s (MkSystem (conn s) RExited (writer s) (call s) (accepted s) (returned s) (sent s) (results s))
  | read_returns s status r c : readable (conn s) = true ∨ status ≠ 0 → hid_read status (conn s) = (r, c) →
      turn Callers s (MkSystem c (reader s) (writer s) (call s) (accepted s)
                (returned s ++ if count c =? count (conn s) then [] else [r.2]) (sent s) (results s))
  | write_refused s data r c : call s = None → hid_write data (conn s) = (Some r, c) →
      turn Callers s (MkSystem c (reader s) (writer s) None (accepted s) (returned s) (sent s) (results s ++ [(data, r)]))
  | write_admitted s data c : call s = None → hid_write data (conn s) = (None, c) →
      turn Callers s (MkSystem c (reader s) (writer s) (Some data) (accepted s) (returned s) (sent s) (results s))
  | writer_takes s : writer s = WIdle → write_pending (conn s) = true → writer_stop (conn s) = false →
      turn WriterThread s (MkSystem (conn s) (reader s) WTaken (call s) (accepted s) (returned s) (sent s) (results s))
  | writer_writes s setup io restore : writer s = WTaken →
      let r := protected_write setup io restore in
      turn WriterThread s (MkSystem (conn s) (reader s) (WWrote r) (call s) (accepted s) (returned s)
                (sent s ++ if wr_submitted r then [output_buffer (conn s)] else []) (results s))
  | writer_finishes s r : writer s = WWrote r →
      let c := write_finished r (conn s) in
      turn WriterThread s (MkSystem c (reader s) (if writer_dead c then WExited else WIdle) (call s)
                (accepted s) (returned s) (sent s) (results s))
  | writer_stops s : writer s = WIdle → writer_stop (conn s) = true →
      turn WriterThread s (MkSystem (conn s) (reader s) WExited (call s) (accepted s) (returned s) (sent s) (results s))
  | write_returns s data : call s = Some data → write_done (conn s) = true →
      turn Callers s (MkSystem (conn s) (reader s) (writer s) None (accepted s) (returned s) (sent s)
                (results s ++ [(data, write_result (conn s))]))
  | disconnect_begins s : call s = None →
      turn Closer s (MkSystem (set_stops (conn s)) (reader s) (writer s) None
                (accepted s) (returned s) (sent s) (results s)).
Definition step (s s' : system) : Prop := ∃ a, turn a s s'.

Definition reachable (input output : ReportSpec) (s : system) : Prop := rtc step (start input output) s.
End DarwinConnection.
