(* ===== verification/DarwinConnProps.v ===== *)
(** * What the macOS connection guarantees

    The ring of reports refines a FIFO, a terminal state is final, and the
    result of a write is evidence of whether the device was called. *)
From S2P Require Import Prelude GoErrors GoIO Descriptors HidConnection DarwinBinding DarwinProps DarwinConnection.
From stdpp Require Import relations.
#[local] Open Scope Z_scope.

Module DarwinConnProps.
Import DarwinConnection.

(** ** The ring *)
Definition slot (c : hid_connection) (i : nat) : bytes :=
  queue c !!! Z.to_nat ((head c + Z.of_nat i) mod HID_QUEUE_SIZE).
Definition contents (c : hid_connection) : list bytes := map (slot c) (seq 0 (Z.to_nat (count c))).

Record ring_ok (c : hid_connection) : Prop := {
  ring_length : length (queue c) = 64%nat;
  ring_head : 0 <= head c < HID_QUEUE_SIZE;
  ring_count : 0 <= count c <= HID_QUEUE_SIZE;
}.

Lemma ring_new input output : ring_ok (new_connection input output).
Proof. split; cbn; unfold HID_QUEUE_SIZE; [done|lia..]. Qed.

Lemma mod_slot_inj h i j : 0 <= i < 64 → 0 <= j < 64 → (h + i) mod 64 = (h + j) mod 64 → i = j.
Proof. intros Hi Hj E. pose proof (Z.div_mod (h + i) 64). pose proof (Z.div_mod (h + j) 64). lia. Qed.

Lemma ring_enqueue c data : ring_ok c → count c < HID_QUEUE_SIZE →
  ring_ok (enqueue data c) ∧ contents (enqueue data c) = contents c ++ [data].
Proof.
  intros [Hl Hh Hc] Hlt. unfold HID_QUEUE_SIZE in *. split.
  { split; cbn; [by rewrite length_insert|done|unfold HID_QUEUE_SIZE; lia]. }
  unfold contents, enqueue, slot. cbn. replace (Z.to_nat (count c + 1)) with (S (Z.to_nat (count c))) by lia.
  rewrite seq_S, map_app. cbn [map Nat.add]. unfold HID_QUEUE_SIZE. f_equal.
  - apply map_ext_in. intros i [_ Hi]%in_seq. apply list_lookup_total_insert_ne. intros E.
    apply Z2Nat.inj in E; [|apply Z.mod_pos_bound; lia..]. apply mod_slot_inj in E; lia.
  - rewrite Z2Nat.id by lia. rewrite list_lookup_total_insert_eq; [done|].
    rewrite Hl. pose proof (Z.mod_pos_bound (head c + count c) 64). lia.
Qed.

Lemma ring_dequeue c : ring_ok c → 0 < count c →
  let c' := set_queue (queue c) ((head c + 1) mod HID_QUEUE_SIZE) (count c - 1) c in
  ring_ok c' ∧ contents c = (queue c !!! Z.to_nat (head c)) :: contents c'.
Proof.
  intros [Hl Hh Hc] Hlt. cbv zeta. unfold HID_QUEUE_SIZE in *. split.
  { split; cbn; [done|by apply Z.mod_pos_bound|unfold HID_QUEUE_SIZE; lia]. }
  unfold contents, slot. cbn. replace (Z.to_nat (count c)) with (S (Z.to_nat (count c - 1))) by lia.
  cbn [seq map]. unfold HID_QUEUE_SIZE. rewrite Z.add_0_r, Z.mod_small by lia. f_equal.
  rewrite <-seq_shift, map_map. apply map_ext. intros i. do 2 f_equal.
  rewrite Z.add_mod_idemp_l by lia. f_equal. lia.
Qed.

(** ** Critical sections *)
Lemma fail_locked_spec t e c : let c' := fail_locked t e c in
  c' = c ∨ terminal c = 0 ∧ c' = set_terminal t e c.
Proof. unfold fail_locked. cbv zeta. destruct (Z.eqb_spec (terminal c) 0); [by right|by left]. Qed.

(** A report is queued whole, or the queue is left as it is. *)
Lemma input_callback_spec result typ id report c : ring_ok c →
  let c' := input_callback result typ id report c in
  ring_ok c' ∧ contents c' = contents c ++ queued c c' report ∧
  Forall (λ data, len data = Z.max 0 (input_size c)) (queued c c' report) ∧
  (terminal c ≠ 0 → c' = c) ∧ (stop c = true → c' = c).
Proof.
  intros Hr. cbv zeta. unfold input_callback, queued.
  assert (Hsame : ∀ c', ring_ok c' → contents c' = contents c → count c' = count c →
    (terminal c ≠ 0 → c' = c) → (stop c = true → c' = c) →
    ring_ok c' ∧ contents c' = contents c ++ queued c c' report ∧
    Forall (λ data, len data = Z.max 0 (input_size c)) (queued c c' report) ∧
    (terminal c ≠ 0 → c' = c) ∧ (stop c = true → c' = c)).
  { intros c' H1 H2 H3 H4 H5. unfold queued. rewrite H3, Z.eqb_refl, app_nil_r. by split_and!. }
  destruct (stop c || negb (terminal c =? 0)) eqn:Hg; [by apply Hsame|].
  apply orb_false_iff in Hg as [Hs Ht%negb_false_iff%Z.eqb_eq].
  assert (Hfail : ∀ t e, ring_ok (fail_locked t e c) ∧ contents (fail_locked t e c) = contents c ∧
    count (fail_locked t e c) = count c).
  { intros t e. destruct (fail_locked_spec t e c) as [->|[_ ->]]; [done|]. by destruct Hr. }
  destruct (negb (result =? 0)); [apply Hsame; first [apply Hfail | intros; congruence]|].
  destruct (negb (typ =? _) || _); [by apply Hsame|]. destruct (negb (len report =? _) || _) eqn:E2; [apply Hsame; first [apply Hfail | intros; congruence]|].
  destruct (Z.eqb_spec (count c) HID_QUEUE_SIZE); [apply Hsame; first [apply Hfail | intros; congruence]|].
  assert (Hlt : count c < HID_QUEUE_SIZE) by (destruct Hr; lia).
  destruct (ring_enqueue c (take (Z.to_nat (input_size c)) (drop (Z.to_nat (prefix (input_id c))) report)) Hr Hlt) as [H1 H2].
  cbn [enqueue set_queue count]. destruct (Z.eqb_spec (count c + 1) (count c)); [lia|].
  split_and!; [done|exact H2| |intros; congruence|intros; congruence]. constructor; [|done].
  apply orb_false_iff in E2 as [Hlen%negb_false_iff%Z.eqb_eq _]. unfold len in *. rewrite length_take, length_drop.
  unfold prefix in *. destruct (input_id c =? 0); lia.
Qed.

Lemma input_callback_size result typ id report c :
  input_size (input_callback result typ id report c) = input_size c ∧
  output_id (input_callback result typ id report c) = output_id c.
Proof. unfold input_callback, fail_locked. by repeat case_match. Qed.

Lemma removal_spec c : ring_ok c →
  ring_ok (removal_callback c) ∧ contents (removal_callback c) = contents c ∧
  (terminal c ≠ 0 → removal_callback c = c).
Proof.
  intros Hr. unfold removal_callback. destruct (fail_locked_spec (-1) DarwinBinding.kIOReturnNoDevice c) as [->|[Ht ->]]; [done|].
  split_and!; [by destruct Hr|done|done].
Qed.

Lemma hid_read_spec status c r c' : ring_ok c → hid_read status c = (r, c') →
  ring_ok c' ∧ contents c = (if count c' =? count c then [] else [r.2]) ++ contents c' ∧
  terminal c' = terminal c ∧ io_error c' = io_error c.
Proof.
  intros Hr. unfold hid_read. destruct (negb (terminal c =? 0)).
  { intros [= <- <-]. by rewrite Z.eqb_refl. }
  destruct (stop c). { intros [= <- <-]. by rewrite Z.eqb_refl. }
  destruct (Z.eqb_spec (count c) 0) as [|Hc]. { intros [= <- <-]. by rewrite Z.eqb_refl. }
  intros [= <- <-]. cbn [set_queue count snd]. assert (Hpos : 0 < count c) by (destruct Hr; lia).
  destruct (ring_dequeue c Hr Hpos) as [H1 H2]. destruct (Z.eqb_spec (count c - 1) (count c)); [lia|].
  by split_and!.
Qed.

(** ** Reading *)
Record reads_ok (s : system) : Prop := {
  reads_ring : ring_ok (conn s);
  reads_fifo : accepted s = returned s ++ contents (conn s);
  reads_sizes : Forall (λ data, len data = Z.max 0 (input_size (conn s))) (accepted s);
}.

(** What leaves the queue and the terminal state as they are. *)
Definition same_reads (c c' : hid_connection) : Prop :=
  (queue c', head c', count c', input_size c', terminal c', io_error c') =
  (queue c, head c, count c, input_size c, terminal c, io_error c).

Lemma same_reads_ring c c' : same_reads c c' → ring_ok c → ring_ok c' ∧ contents c' = contents c.
Proof.
  intros [= E1 E2 E3 _ _ _] [H1 H2 H3]. split; [split; congruence|]. unfold contents, slot. by rewrite E1, E2, E3.
Qed.

Lemma hid_write_spec data c r c' : hid_write data c = (r, c') →
  match r with
  | Some r => c' = c ∧ wr_submitted r = false ∧ wr_completed r = false ∧ io r ≠ 0 ∧ restore_error r = 0
  | None => c' = set_pending (wire (output_id c) data) c ∧ stop c = false ∧ terminal c = 0 ∧ writer_dead c = false
  end.
Proof.
  unfold hid_write. destruct (_ || _) eqn:E.
  - intros [= <- <-]. split_and!; try done. cbn. by destruct (Z.eqb_spec (io_error c) 0).
  - rewrite !orb_false_iff, negb_false_iff, Z.eqb_eq in E. destruct E as [[E1 E2] E3].
    destruct (negb _); intros [= <- <-]; by split_and!.
Qed.

(** The end of a write may set the terminal state, and nothing of the queue. *)
Lemma write_finished_reads r c : let c' := write_finished r c in
  input_size c' = input_size c ∧ output_id c' = output_id c ∧
  (ring_ok c → ring_ok c') ∧ contents c' = contents c ∧
  (terminal c ≠ 0 → terminal c' = terminal c ∧ io_error c' = io_error c).
Proof.
  unfold write_finished. cbv zeta. destruct (negb _); [|by split_and!; try (intros [? ? ?]; split)].
  destruct (fail_locked_spec (-4) 0 (set_done true r c)) as [->|[Ht ->]]; cbn in *; split_and!; try done;
    by intros [? ? ?].
Qed.

Lemma reads_step s s' : step s s' → reads_ok s →
  reads_ok s' ∧ input_size (conn s') = input_size (conn s) ∧
  (terminal (conn s) ≠ 0 → terminal (conn s') = terminal (conn s) ∧ io_error (conn s') = io_error (conn s) ∧
     accepted s' = accepted s ∧ returned s' = returned s).
Proof.
  intros Hstep [Hr Hf Hs].
  assert (Hsame : ∀ c rd w cl snt rs, same_reads (conn s) c →
    let s' := MkSystem c rd w cl (accepted s) (returned s) snt rs in
    reads_ok s' ∧ input_size (conn s') = input_size (conn s) ∧
    (terminal (conn s) ≠ 0 → terminal (conn s') = terminal (conn s) ∧ io_error (conn s') = io_error (conn s) ∧
       accepted s' = accepted s ∧ returned s' = returned s)).
  { intros c rd w cl snt rs Hc. destruct (same_reads_ring _ _ Hc Hr) as [H1 H2]. injection Hc as _ _ _ Hi Ht He.
    cbv zeta. split_and!; [|done|done]. split; cbn; [done|congruence|by rewrite Hi]. }
  destruct Hstep as [a Hstep].
  destruct Hstep as [s result typ id report Hrd c|s Hrd| | s status r c Hw Hread| s data r c Hcall Hw | s data c Hcall Hw
    | |  | s r Hw c | | |]; try (apply Hsame; done).
  - pose proof (input_callback_spec result typ id report (conn s) Hr) as (H1 & H2 & H3 & H4 & _). fold c in H1, H2, H3, H4.
    assert (Hi : input_size c = input_size (conn s)) by (subst c; apply input_callback_size).
    cbn [conn accepted returned]. split_and!; [|done|].
    + split; cbn; [done|by rewrite Hf, H2, (assoc_L (++))|]. rewrite Hi. by apply Forall_app.
    + intros Ht. rewrite (H4 Ht). unfold queued. by rewrite Z.eqb_refl, app_nil_r.
  - pose proof (removal_spec (conn s) Hr) as (H1 & H2 & H3).
    assert (Hi : input_size (removal_callback (conn s)) = input_size (conn s)).
    { unfold removal_callback, fail_locked. by destruct (_ =? _). }
    cbn [conn accepted returned]. split_and!; [|done|intros Ht; by rewrite (H3 Ht)].
    split; cbn; [done|congruence|by rewrite Hi].
  - pose proof (hid_read_spec status (conn s) r c Hr Hread) as (H1 & H2 & H3 & H4).
    assert (Hi : input_size c = input_size (conn s)).
    { unfold hid_read in Hread. repeat case_match; by simplify_eq. }
    cbn [conn accepted returned]. split_and!; [|done|].
    + split; cbn; [done|by rewrite Hf, H2, (assoc_L (++))|by rewrite Hi].
    + intros Ht. split_and!; [done..|]. unfold hid_read in Hread. rewrite (proj2 (Z.eqb_neq _ _) Ht) in Hread.
      injection Hread as <- <-. by rewrite Z.eqb_refl, app_nil_r.
  - apply hid_write_spec in Hw as [-> _]. by apply Hsame.
  - apply hid_write_spec in Hw as [-> _]. by apply Hsame.
  - pose proof (write_finished_reads r (conn s)) as (H1 & _ & H3 & H4 & H5). fold c in H1, H3, H4, H5.
    cbn [conn accepted returned]. split_and!; [|done|naive_solver].
    split; cbn; [by apply H3|congruence|by rewrite H1].
Qed.

Lemma reads_kept s s' : rtc step s s' → reads_ok s →
  reads_ok s' ∧ input_size (conn s') = input_size (conn s) ∧
  (terminal (conn s) ≠ 0 → terminal (conn s') = terminal (conn s) ∧ io_error (conn s') = io_error (conn s) ∧
     accepted s' = accepted s ∧ returned s' = returned s).
Proof.
  induction 1 as [s|s s1 s' Hstep _ IH]; intros Hs; [done|].
  destruct (reads_step s s1 Hstep Hs) as (H1 & H2 & H3). destruct (IH H1) as (H4 & H5 & H6).
  split_and!; [done|congruence|]. intros Ht. destruct (H3 Ht) as (E1 & E2 & E3 & E4).
  destruct H6 as (E5 & E6 & E7 & E8); [congruence|]. split_and!; congruence.
Qed.

Lemma reads_start input output : reads_ok (start input output).
Proof. split; [apply ring_new|done|constructor]. Qed.

(** C26: the connection delivers input reports in order, once each and whole,
    and its failure is final. However the callbacks, the readers, the writer
    and the disconnection interleave, the reports the reads have returned are
    the reports accepted so far less the at most 64 still queued; each has the
    size that the descriptor gives, the report ID removed; a read succeeds only
    with the oldest queued report. Once the connection is in a terminal state
    (an error, the removal of the device, an overflow, a report of the wrong
    form), every later read fails with that same state and error, and no
    report is accepted or returned any more. *)
Theorem connection_reads_exact (input output : ReportSpec) (s : system) :
  0 <= Descriptors.Size input → reachable input output s →
  accepted s = returned s ++ contents (conn s) ∧ len (contents (conn s)) <= HID_QUEUE_SIZE ∧
  Forall (λ data, len data = Descriptors.Size input) (accepted s) ∧
  (∀ status r c, hid_read status (conn s) = (r, c) → readable (conn s) = true ∨ status ≠ 0 → r.1.1 = 0 →
     contents (conn s) = r.2 :: contents c) ∧
  (terminal (conn s) ≠ 0 → ∀ s', rtc step s s' →
     accepted s' = accepted s ∧ returned s' = returned s ∧
     ∀ status, hid_read status (conn s') = ((terminal (conn s), io_error (conn s), []), conn s')).
Proof.
  intros Hsize Hreach. destruct (reads_kept _ _ Hreach (reads_start input output)) as (Hok & Hi & _).
  pose proof Hok as [Hr Hf Hs]. cbn in Hi. rewrite Hi in Hs. split_and!; [done| | | |].
  - unfold contents, len. rewrite length_map, length_seq. destruct Hr. lia.
  - eapply Forall_impl; [exact Hs|]. cbn. lia.
  - intros status r c Hread Hw H0. pose proof (hid_read_spec _ _ _ _ Hr Hread) as (_ & Hc & _ & _).
    unfold hid_read in Hread. unfold readable in Hw. destruct (Z.eqb_spec (terminal (conn s)) 0) as [Et|Et]; cbn in *.
    2: { injection Hread as <- <-. done. }
    destruct (stop (conn s)); [by injection Hread as <- <-|].
    destruct (Z.eqb_spec (count (conn s)) 0); cbn in *.
    { injection Hread as <- <-. cbn in H0. naive_solver. }
    injection Hread as <- <-. cbn [set_queue count] in Hc.
    by destruct (Z.eqb_spec (count (conn s) - 1) (count (conn s))); [lia|].
  - intros Ht s' Hs'. destruct (reads_kept _ _ Hs' Hok) as (_ & _ & H). destruct (H Ht) as (H1 & H2 & H3 & H4).
    split_and!; [done|done|]. intros status. unfold hid_read. by rewrite H1, H2, (proj2 (Z.eqb_neq _ _) Ht).
Qed.

(** ** Writing *)
Definition evidence (r : hid_write_result) : Prop :=
  (wr_completed r = true ↔ wr_submitted r = true ∧ io r = 0) ∧
  (wr_completed r = false → io r ≠ 0 ∨ setup_error r ≠ 0).
Definition undamaged (rs : list (bytes * hid_write_result)) : Prop := Forall (λ x, restore_error x.2 = 0) rs.
Definition sent_of (id : Z) (x : bytes * hid_write_result) : list bytes :=
  if wr_submitted x.2 then [wire id x.1] else [].
Definition all_sent (id : Z) (rs : list (bytes * hid_write_result)) : list bytes := concat (map (sent_of id) rs).

(** The calls of the device for the write that has not returned. *)
Definition in_flight (s : system) : list bytes :=
  match call s with
  | None => []
  | Some data =>
      match writer s with
      | WWrote r => sent_of (output_id (conn s)) (data, r)
      | _ => if write_done (conn s) then sent_of (output_id (conn s)) (data, write_result (conn s)) else []
      end
  end.

(** What the writer and the caller know of each other. *)
Definition handshake (s : system) (data : bytes) : Prop :=
  output_buffer (conn s) = wire (output_id (conn s)) data ∧ undamaged (results s) ∧
  (write_done (conn s) = true → evidence (write_result (conn s)) ∧
     (restore_error (write_result (conn s)) ≠ 0 → writer_dead (conn s) = true)) ∧
  match writer s with
  | WIdle => write_pending (conn s) = negb (write_done (conn s))
  | WTaken => write_pending (conn s) = true ∧ write_done (conn s) = false
  | WWrote r => write_pending (conn s) = true ∧ write_done (conn s) = false ∧ evidence r
  | WExited => write_pending (conn s) = false ∧ write_done (conn s) = true
  end.

(** After a result that damaged the signal mask, nothing is submitted. *)
Definition retired_after (rs : list (bytes * hid_write_result)) : Prop :=
  ∀ before x after, rs = before ++ x :: after → restore_error x.2 ≠ 0 →
    Forall (λ y, wr_submitted y.2 = false) after.

Record writes_ok (s : system) : Prop := {
  writes_call : match call s with
                | None => write_pending (conn s) = false ∧ (writer s = WIdle ∨ writer s = WExited)
                | Some data => handshake s data
                end;
  writes_stop : writer_stop (conn s) = true → stop (conn s) = true ∧ call s = None;
  writes_exit : writer s = WExited → stop (conn s) = true ∨ writer_dead (conn s) = true;
  writes_dead : writer_dead (conn s) = true → writer s = WExited;
  writes_sent : sent s = all_sent (output_id (conn s)) (results s) ++ in_flight s;
  writes_results : Forall (λ x, evidence x.2) (results s) ∧ retired_after (results s) ∧
                   (writer_dead (conn s) = false → undamaged (results s));
}.

Lemma retired_snoc rs y : retired_after rs → (¬ undamaged rs → wr_submitted y.2 = false) → retired_after (rs ++ [y]).
Proof.
  intros Hrs Hy before x after E Hx. destruct after as [|z after' _] using rev_ind; [constructor|].
  rewrite app_comm_cons, app_assoc in E. apply app_inj_tail in E as [-> ->]. apply Forall_app. split; [by eapply Hrs|].
  constructor; [|done]. apply Hy. intros H. apply Forall_app in H as [_ [H _]%Forall_cons]. done.
Qed.
Lemma all_sent_snoc id rs x : all_sent id (rs ++ [x]) = all_sent id rs ++ sent_of id x.
Proof. unfold all_sent. rewrite map_app, concat_app. cbn. by rewrite app_nil_r. Qed.

#[local] Arguments all_sent : simpl never.

Definition same_writes (c c' : hid_connection) : Prop :=
  (write_pending c', write_done c', writer_dead c', output_buffer c', write_result c', output_id c', stop c', writer_stop c') =
  (write_pending c, write_done c, writer_dead c, output_buffer c, write_result c, output_id c, stop c, writer_stop c).

Lemma fail_locked_writes t e c : same_writes c (fail_locked t e c).
Proof. unfold fail_locked. by destruct (_ =? _). Qed.
Lemma input_callback_writes result typ id report c : same_writes c (input_callback result typ id report c).
Proof. unfold input_callback. repeat case_match; try done; apply fail_locked_writes. Qed.
Lemma hid_read_writes status c r c' : hid_read status c = (r, c') → same_writes c c'.
Proof. unfold hid_read. repeat case_match; intros [= <- <-]; done. Qed.

Lemma writes_same s c rd acc ret : same_writes (conn s) c → writes_ok s →
  writes_ok (MkSystem c rd (writer s) (call s) acc ret (sent s) (results s)).
Proof.
  intros [= E1 E2 E3 E4 E5 E6 E7 E8] [H1 H2 H3 H4 H5 H6].
  split; unfold handshake, in_flight in *; cbn; rewrite ?E1, ?E2, ?E3, ?E4, ?E5, ?E6, ?E7, ?E8; done.
Qed.

Lemma protected_write_evidence setup o restore : evidence (protected_write setup o restore).
Proof.
  unfold protected_write, evidence. destruct (Z.eqb_spec setup 0); cbn; [|naive_solver].
  destruct (Z.eqb_spec o 0); split; naive_solver.
Qed.

Lemma write_finished_writes r c : let c' := write_finished r c in
  write_pending c' = false ∧ write_done c' = true ∧ write_result c' = r ∧ output_buffer c' = output_buffer c ∧
  output_id c' = output_id c ∧ stop c' = stop c ∧ writer_stop c' = writer_stop c ∧
  (writer_dead c' = true ↔ restore_error r ≠ 0 ∨ writer_dead c = true).
Proof.
  unfold write_finished. cbv zeta. destruct (Z.eqb_spec (restore_error r) 0); cbn [negb].
  - cbn. split_and!; try done. naive_solver.
  - pose proof (fail_locked_writes (-4) 0 (set_done true r c)) as [= -> -> -> -> -> -> -> ->]. cbn. split_and!; naive_solver.
Qed.

(** A write is refused. *)
Lemma refused_ok s data r c : writes_ok s → call s = None → hid_write data (conn s) = (Some r, c) →
  writes_ok (MkSystem c (reader s) (writer s) None (accepted s) (returned s) (sent s) (results s ++ [(data, r)])).
Proof.
  intros Hs Hcall Hw.
  apply hid_write_spec in Hw as (-> & Hsub & Hcomp & Hio & Hrest). destruct Hs as [H1 H2 H3 H4 H5 (H6 & H7 & H8)].
  rewrite Hcall in H1. split; cbn; [done|naive_solver|done|done| |].
  + unfold in_flight in *. cbn. rewrite Hcall in H5. rewrite H5, all_sent_snoc. unfold sent_of. cbn. by rewrite Hsub, !app_nil_r.
  + split_and!; [apply Forall_app; split; [done|constructor; [|done]]|by apply retired_snoc|].
    * clear -Hsub Hcomp Hio. unfold evidence. cbn. rewrite Hsub, Hcomp. naive_solver.
    * intros Hdead. apply Forall_app. split; [by apply H8|]. by constructor.
Qed.

(** A write is admitted. *)
Lemma admitted_ok s data c : writes_ok s → call s = None → hid_write data (conn s) = (None, c) →
  writes_ok (MkSystem c (reader s) (writer s) (Some data) (accepted s) (returned s) (sent s) (results s)).
Proof.
  intros Hs Hcall Hw.
  apply hid_write_spec in Hw as (-> & Hst & Hterm & Hdead). destruct Hs as [H1 H2 H3 H4 H5 (H6 & H7 & H8)].
  rewrite Hcall in H1. destruct H1 as [_ [Hw|Hw]]; [|destruct (H3 Hw); congruence].
  split; cbn; [unfold handshake; cbn; rewrite Hw; naive_solver|intros Hx; destruct (H2 Hx); congruence|done|done| |done].
  unfold in_flight in *. cbn. rewrite Hcall in H5. by rewrite H5, Hw.
Qed.

(** The writer takes it. *)
Lemma taken_ok s : writes_ok s → writer s = WIdle → write_pending (conn s) = true → writer_stop (conn s) = false →
  writes_ok (MkSystem (conn s) (reader s) WTaken (call s) (accepted s) (returned s) (sent s) (results s)).
Proof.
  intros Hs Hw Hp Hst.
  destruct Hs as [H1 H2 H3 H4 H5 H6]. destruct (call s) as [data|] eqn:Hcall; [|destruct H1; congruence].
  assert (Hd : write_done (conn s) = false).
  { destruct H1 as (_ & _ & _ & H1). rewrite Hw, Hp in H1. by destruct (write_done (conn s)). }
  split; cbn; [unfold handshake in *; cbn; naive_solver|by intros Hx; destruct (H2 Hx)|done|intros Hx; specialize (H4 Hx); congruence| |done].
  unfold in_flight in *. cbn. rewrite Hcall in H5. rewrite H5, Hw. done.
Qed.

(** The device is called, or not. *)
Lemma written_ok s setup o restore : writes_ok s → writer s = WTaken →
  let r := protected_write setup o restore in
  writes_ok (MkSystem (conn s) (reader s) (WWrote r) (call s) (accepted s) (returned s)
               (sent s ++ if wr_submitted r then [output_buffer (conn s)] else []) (results s)).
Proof.
  intros Hs Hw r.
  destruct Hs as [H1 H2 H3 H4 H5 H6]. destruct (call s) as [data|] eqn:Hcall; [|rewrite Hw in H1; naive_solver].
  pose proof (protected_write_evidence setup o restore) as He. fold r in He.
  destruct H1 as (Hb & Hu & Hres & Hwr). rewrite Hw in Hwr. destruct Hwr as [Hp Hd].
  split; cbn; [by unfold handshake; cbn; split_and!|by intros Hx; destruct (H2 Hx)|done|intros Hx; specialize (H4 Hx); congruence| |done].
  unfold in_flight in *. cbn. rewrite Hcall, Hw, Hd, app_nil_r in H5. rewrite H5. unfold sent_of. cbn. by rewrite Hb.
Qed.

(** The result is published. *)
Lemma finished_ok s r : writes_ok s → writer s = WWrote r →
  let c := write_finished r (conn s) in
  writes_ok (MkSystem c (reader s) (if writer_dead c then WExited else WIdle) (call s)
               (accepted s) (returned s) (sent s) (results s)).
Proof.
  intros Hs Hw c.
  destruct Hs as [H1 H2 H3 H4 H5 (H6 & H7 & H8)].
  destruct (call s) as [data|] eqn:Hcall; [|rewrite Hw in H1; naive_solver].
  destruct H1 as (Hb & Hu & Hres & Hwr). rewrite Hw in Hwr. destruct Hwr as (Hp & Hd & He).
  pose proof (write_finished_writes r (conn s)) as (E1 & E2 & E3 & E4 & E5 & E6 & E7 & E8).
  fold c in E1, E2, E3, E4, E5, E6, E7, E8.
  assert (Hnd : writer_dead (conn s) = false).
  { destruct (writer_dead (conn s)) eqn:E; [|done]. specialize (H4 eq_refl). congruence. }
  split; cbn.
  + unfold handshake. cbn. rewrite E1, E2, E3, E4, E5. split_and!; [done|done| |by destruct (writer_dead c)].
    intros _. split; [done|]. intros Hr. apply E8. by left.
  + rewrite E6, E7. intros Hx. destruct (H2 Hx). congruence.
  + destruct (writer_dead c); [by right|done].
  + by intros ->.
  + unfold in_flight in *. cbn. rewrite Hcall, Hw in H5. rewrite E2, E3, E5, H5. by destruct (writer_dead c).
  + split_and!; [done|done|]. intros _. by apply H8.
Qed.

(** The writer stops. *)
Lemma stopped_ok s : writes_ok s → writer s = WIdle → writer_stop (conn s) = true →
  writes_ok (MkSystem (conn s) (reader s) WExited (call s) (accepted s) (returned s) (sent s) (results s)).
Proof.
  intros Hs Hw Hst.
  destruct Hs as [H1 H2 H3 H4 H5 H6]. destruct (H2 Hst) as [Hstop Hcall]. rewrite Hcall in *.
  split; cbn; rewrite ?Hcall; [|done|by left|done| |done].
  + split; [by destruct H1|by right].
  + unfold in_flight in *. cbn. by rewrite Hcall in H5.
Qed.

(** The result returns. *)
Lemma returned_ok s data : writes_ok s → call s = Some data → write_done (conn s) = true →
  writes_ok (MkSystem (conn s) (reader s) (writer s) None (accepted s) (returned s) (sent s)
               (results s ++ [(data, write_result (conn s))])).
Proof.
  intros Hs Hcall Hd.
  destruct Hs as [H1 H2 H3 H4 H5 (H6 & H7 & H8)]. rewrite Hcall in H1. destruct H1 as (Hb & Hu & Hres & Hwr).
  destruct (Hres Hd) as [He Hrest].
  assert (Hnext : write_pending (conn s) = false ∧ (writer s = WIdle ∨ writer s = WExited)).
  { destruct (writer s) eqn:Hwr'; rewrite ?Hd in Hwr; [by split; [|left]|naive_solver|naive_solver|naive_solver]. }
  split; cbn; [done|naive_solver|done|done| |].
  + unfold in_flight in *. cbn. rewrite Hcall, Hd in H5. rewrite H5, app_nil_r, all_sent_snoc.
    by destruct (proj2 Hnext) as [->| ->].
  + split_and!; [apply Forall_app; by split; [|constructor]|by apply retired_snoc|].
    intros Hdead. apply Forall_app. split; [done|]. constructor; [|done]. cbn.
    destruct (Z.eqb_spec (restore_error (write_result (conn s))) 0); [done|]. rewrite Hrest in Hdead; done.
Qed.

(** The connection is closed. *)
Lemma disconnected_ok s : writes_ok s → call s = None →
  writes_ok (MkSystem (set_stops (conn s)) (reader s) (writer s) None (accepted s) (returned s) (sent s) (results s)).
Proof.
  intros Hs Hcall.
  destruct Hs as [H1 H2 H3 H4 H5 H6]. rewrite Hcall in H1. split; cbn; [done|done|by left|done| |done].
  unfold in_flight in *. cbn. by rewrite Hcall in H5.
Qed.

Lemma writes_step s s' : step s s' → writes_ok s → writes_ok s'.
Proof.
  intros Hstep Hs.
  destruct Hstep as [a Hstep]. destruct Hstep as [s result typ id report _ c|s _|s _ Hst|s status r c _ Hread| | | | | | | |];
    try (apply (writes_same s); [|done]).
  - apply input_callback_writes.
  - apply fail_locked_writes.
  - done.
  - by eapply hid_read_writes.
  - by apply refused_ok.
  - by apply admitted_ok.
  - by apply taken_ok.
  - by apply written_ok.
  - by apply finished_ok.
  - by apply stopped_ok.
  - by apply returned_ok.
  - by apply disconnected_ok.
Qed.

Lemma step_output_id s s' : step s s' → output_id (conn s') = output_id (conn s).
Proof.
  intros [a Hstep]. destruct Hstep as [s result typ id report _ c|s _| |s status r c _ Hread|s data r c _ Hw|s data c _ Hw
    | | |s r _ c| | |]; cbn; try done.
  - by injection (input_callback_writes result typ id report (conn s)).
  - by injection (fail_locked_writes (-1) DarwinBinding.kIOReturnNoDevice (conn s)).
  - by injection (hid_read_writes _ _ _ _ Hread).
  - by apply hid_write_spec in Hw as [-> _].
  - by apply hid_write_spec in Hw as [-> _].
  - apply (write_finished_writes r (conn s)).
Qed.

Lemma writes_kept s s' : rtc step s s' → writes_ok s → writes_ok s' ∧ output_id (conn s') = output_id (conn s).
Proof.
  induction 1 as [s|s s1 s' Hstep _ IH]; intros Hs; [done|].
  destruct IH as [H1 H2]; [by eapply writes_step|]. split; [done|]. rewrite H2. by apply step_output_id.
Qed.

Lemma writes_start input output : writes_ok (start input output).
Proof.
  split; cbn; try done; [by split; [|left]|]. split_and!; [constructor| |by constructor].
  intros [] x after H; done.
Qed.

Lemma turn_step a s s' : turn a s s' → step s s'.
Proof. by exists a. Qed.

(** A finished write returns to its caller. *)
Lemma returns s data : call s = Some data → write_done (conn s) = true →
  ∃ s', step s s' ∧ call s' = None ∧ results s' = results s ++ [(data, write_result (conn s))].
Proof. intros Hc Hd. eexists. split; [by eapply turn_step, write_returns|done]. Qed.

Lemma finishes s data r : call s = Some data → writer s = WWrote r →
  ∃ s', nsteps step 2 s s' ∧ call s' = None ∧ results s' = results s ++ [(data, r)].
Proof.
  intros Hc Hw. pose proof (writer_finishes s r Hw) as Hf. cbv zeta in Hf. apply turn_step in Hf.
  pose proof (write_finished_writes r (conn s)) as (_ & Hd & Hr & _). set (s1 := MkSystem _ _ _ _ _ _ _ _) in Hf.
  destruct (returns s1 data Hc Hd) as (s2 & H2 & H3 & H4). exists s2. split_and!; [|done|].
  - eapply nsteps_l; [exact Hf|]. by apply nsteps_once.
  - rewrite H4. cbn. by rewrite Hr.
Qed.

(** The result of a write is evidence, and a write that waits is answered.
    However the threads interleave, the calls of IOHIDDeviceSetReport are, in
    order, one for each result that says submitted - with the report of that
    write and its ID - and one at most for the write in progress; a result says
    completed exactly when the device was called and succeeded, and one that
    does not carries an error. After a write whose signal mask could not be
    restored the device is never called again. A caller that waits is not
    forgotten: the writer and the caller alone, in at most four steps, bring
    its result, whatever the device answers. *)
Theorem connection_write_evidence (input output : ReportSpec) (s : system) : reachable input output s →
  sent s = all_sent (SpecID output) (results s) ++ in_flight s ∧
  Forall (λ x, evidence x.2) (results s) ∧ retired_after (results s) ∧
  ∀ data, call s = Some data → ∀ setup o restore,
    ∃ n s' r, (n <= 4)%nat ∧ nsteps step n s s' ∧ call s' = None ∧ results s' = results s ++ [(data, r)] ∧
      (writer s = WTaken ∨ write_done (conn s) = false ∧ writer s = WIdle → r = protected_write setup o restore).
Proof.
  intros Hreach. destruct (writes_kept _ _ Hreach (writes_start input output)) as [[H1 H2 H3 H4 H5 (H6 & H7 & H8)] Hid].
  cbn in Hid. rewrite Hid in H5. split_and!; [done|done|done|]. intros data Hc setup o restore. rewrite Hc in H1.
  destruct H1 as (_ & _ & _ & Hw).
  assert (Htaken : ∀ s0, writer s0 = WTaken → call s0 = Some data → ∃ s', nsteps step 3 s0 s' ∧ call s' = None ∧
    results s' = results s0 ++ [(data, protected_write setup o restore)]).
  { intros s0 Hw0 Hc0. pose proof (writer_writes s0 setup o restore Hw0) as Hs0. cbv zeta in Hs0. apply turn_step in Hs0.
    set (s1 := MkSystem _ _ _ _ _ _ _ _) in Hs0. destruct (finishes s1 data _ Hc0 eq_refl) as (s' & Hn & Hc' & Hr).
    exists s'. split_and!; [by eapply nsteps_l|done|exact Hr]. }
  destruct (writer s) as [| |r|] eqn:Ew.
  - destruct (write_done (conn s)) eqn:Hd.
    + destruct (returns s data Hc Hd) as (s' & Hs & Hc' & Hr). exists 1%nat, s', (write_result (conn s)).
      split_and!; [lia|by apply nsteps_once|done|done|naive_solver].
    + assert (Hst : writer_stop (conn s) = false).
      { destruct (writer_stop (conn s)) eqn:E; [|done]. destruct (H2 eq_refl). congruence. }
      pose proof (turn_step _ _ _ (writer_takes s Ew Hw Hst)) as Ht. set (s1 := MkSystem _ _ _ _ _ _ _ _) in Ht.
      destruct (Htaken s1 eq_refl Hc) as (s' & Hn & Hc' & Hr). exists 4%nat, s', (protected_write setup o restore).
      split_and!; [lia|by eapply nsteps_l|done|exact Hr|done].
  - destruct (Htaken s Ew Hc) as (s' & Hn & Hc' & Hr). eexists 3%nat, s', _. split_and!; [lia|done|done|exact Hr|done].
  - destruct (finishes s data r Hc Ew) as (s' & Hn & Hc' & Hr). exists 2%nat, s', r. split_and!; [lia|done|done|done|naive_solver].
  - destruct Hw as [_ Hd]. destruct (returns s data Hc Hd) as (s' & Hs & Hc' & Hr).
    exists 1%nat, s', (write_result (conn s)). split_and!; [lia|by apply nsteps_once|done|done|naive_solver].
Qed.
End DarwinConnProps.

(** ** Report I/O of the device

    The binding reads a [hid_write_result] as the evidence that the theorem
    above shows it to be. *)
Class EvidenceLaw {W : Type} `{!IOHid W} : Prop :=
  write_evidence c data w : DarwinConnProps.evidence (hid_write c data w).1.

Module DarwinIO.
Import DarwinBinding DarwinConnProps.

Section IO.
Context {W : Type} `{!IOHid W} (owned : W → gset (Z * Z)) `{!StorageLaws owned} `{!EvidenceLaw}.

(** What the caller of a write may conclude from its outcome. *)
Definition outcome_means (n : hid_write_result) (o : outcome) (err : option goerror) : Prop :=
  match o with
  | OutcomeCompleted => wr_submitted n = true ∧ io n = 0 ∧ (err = None ↔ setup_error n = 0 ∧ restore_error n = 0)
  | OutcomeUnknown => wr_submitted n = true ∧ io n ≠ 0 ∧ is_Some err
  | OutcomeNotSubmitted => wr_submitted n = false ∧ is_Some err
  end.

Lemma write_causes_none n : (write_causes n = [] ↔ io n = 0 ∧ setup_error n = 0 ∧ restore_error n = 0).
Proof.
  unfold write_causes. destruct (Z.eqb_spec (io n) 0), (Z.eqb_spec (setup_error n) 0), (Z.eqb_spec (restore_error n) 0);
    cbn; naive_solver.
Qed.

(** Report I/O on macOS says what is known and leaks nothing. A read gives
    a report of the input ID or an error, and a negative wait reaches no native
    code. A write of a report that does not fit the descriptor is refused
    unsent; otherwise the copy made for the C side is given back, and the
    outcome is the evidence of the native result: completed when the device
    accepted the report, unknown when it was called and failed, not submitted
    only when it was never called, each but the first with an error. *)
Theorem darwin_io_evidence (d : device) (wait : Z) (report : Report) (w : W) :
  (let '(r, w') := Read d wait w in
   owned w' = owned w ∧
   (wait < 0 → w' = w ∧ ∃ e, r = Err e) ∧
   (0 <= wait → let '(status, code, data) := (hid_read (native d) wait w).1 in
      if decide (status = 0 ∧ code = 0) then r = Ok (MkReport (SpecID (Input (d_layout d))) data) else ∃ e, r = Err e)) ∧
  (let '((o, err), w') := Write d report w in
   owned w' = owned w ∧
   if decide (ReportID report = SpecID (Output (d_layout d)) ∧ len (Data report) = Descriptors.Size (Output (d_layout d)))
   then match CBytes (Data report) w with
        | (None, _) => o = OutcomeNotSubmitted ∧ is_Some err
        | (Some _, w1) => outcome_means (hid_write (native d) (Data report) w1).1 o err
        end
   else o = OutcomeNotSubmitted ∧ is_Some err ∧ w' = w).
Proof.
  split.
  - unfold Read. destruct (Z.ltb_spec wait 0).
    { split_and!; [done|intros _; split; [done|by eexists]|lia]. }
    pose proof (read_owned (owned:=owned) (native d) wait w) as Ho.
    destruct (hid_read (native d) wait w) as [[[status code] data] w1]. cbn [fst snd] in *.
    split_and!; [done|lia|]. intros _.
    destruct (Z.eqb_spec code 0), (Z.eqb_spec status 0), (decide _) as [[? ?]|?]; cbn [negb]; try naive_solver; by eexists.
  - unfold Write. destruct (Z.eqb_spec (ReportID report) (SpecID (Output (d_layout d)))) as [E1|E1];
      destruct (Z.eqb_spec (len (Data report)) (Descriptors.Size (Output (d_layout d)))) as [E2|E2]; cbn [negb orb];
      destruct (decide _) as [[? ?]|?]; try naive_solver.
    pose proof (CBytes_owned (owned:=owned) (Data report) w) as Hb.
    destruct (CBytes (Data report) w) as [[b|] w1]; cbn in Hb; [|by split_and!].
    destruct Hb as [Hnew Hb]. pose proof (write_owned (owned:=owned) (native d) (Data report) w1) as Ho.
    pose proof (write_evidence (native d) (Data report) w1) as [Hc He]. pose proof (C_free_owned (owned:=owned) b) as Hf.
    destruct (hid_write _ _ w1) as [n w2]. cbn [fst snd] in *. split; [rewrite Hf, Ho, Hb; set_solver|].
    pose proof (write_causes_none n) as Hn. unfold outcome_means.
    destruct (wr_completed n); [|specialize (He eq_refl); destruct (wr_submitted n)]; destruct (write_causes n);
      split_and!; naive_solver.
Qed.
End IO.
End DarwinIO.
