(* ===== verification/DarwinRegistry.v ===== *)
(** * The macOS inventory: src/pkg/hid/internal/darwin/inventory_darwin.c

    The C functions that darwin.go calls to list and to look up devices, with
    the memory, the CoreFoundation references and the ports that they get and
    give back.  IOKit and the allocator are the class [IORegistry]; every call
    may change the world, since devices come and go. *)
From S2P Require Import Prelude GoText DarwinBinding.
#[local] Open Scope Z_scope.

(** A property of a device: a number, where it fits an int; a string as UTF-8;
    data; or something else. *)
Inductive property := Number (int : option Z) | Text (utf8 : string) | Data (contents : bytes) | Other.

(** Results are [None] for NULL, a zero port or a failed call. *)
Class IORegistry (W : Type) := {
  alloc : Z → W → option Z * W;
  realloc : option Z → Z → W → option Z * W;
  free : Z → W → W;
  (** IOServiceGetMatchingServices: an error and an iterator. *)
  GetMatchingServices : W → (Z * Z) * W;
  IteratorNext : Z → W → option Z * W;
  IteratorIsValid : Z → W → bool * W;
  ObjectRelease : Z → W → W;
  GetRegistryEntryID : Z → W → option Z * W;
  DeviceCreate : Z → W → option Z * W;
  GetPath : Z → W → option string * W;
  GetProperty : Z → string → W → option property * W;
  (** IORegistryEntrySearchCFProperty of bInterfaceNumber: a reference. *)
  SearchInterface : Z → W → option (Z * property) * W;
  CFRelease : Z → W → W;
  (** A matching dictionary, which IOServiceGetMatchingService consumes. *)
  EntryIDMatching : Z → W → option Z * W;
  GetMatchingService : Z → W → option Z * W;
  ConformsTo : Z → W → bool * W;
  (** How many services the iterators have still to give. *)
  services_left : W → nat;
}.

Module DarwinRegistry.
Import DarwinBinding.
#[local] Open Scope string_scope.
#[local] Open Scope Z_scope.

Definition HID_MAX_DESCRIPTOR : Z := 65536.
Definition HID_MAX_DEVICES : Z := 128.
Definition kIOReturnError : Z := 0xe00002bc.

(** The entry of native.h, with its references: the device and the storage of
    the descriptor. *)
Record native_entry := MkNative { device : option Z; descriptor_at : option Z; fields : hid_entry }.
Record native_inventory := MkNativeInventory {
  inventory_at : Z; entries_at : option Z; items : list native_entry;
  complete : bool; is_limited : bool; error : Z;
}.

(** A C string ends at its first NUL. *)
Fixpoint c_text (s : string) : string :=
  match s with
  | EmptyString => ""
  | String c s => if Ascii.eqb c "000" then "" else String c (c_text s)
  end.

Definition set_known (bit : Z) (e : hid_entry) : hid_entry :=
  MkEntry (registry_id e) (Z.lor (known e) bit) (vendor e) (product e) (interface_number e) (DarwinBinding.bus e)
    (path e) (serial e) (manufacturer e) (product_name e) (descriptor e) (descriptor_length e).
Definition set_numbers (v p i b : Z) (e : hid_entry) : hid_entry :=
  MkEntry (registry_id e) (known e) v p i b (path e) (serial e) (manufacturer e) (product_name e) (descriptor e)
    (descriptor_length e).
Definition set_texts (l s m p : string) (e : hid_entry) : hid_entry :=
  MkEntry (registry_id e) (known e) (vendor e) (product e) (interface_number e) (DarwinBinding.bus e) l s m p
    (descriptor e) (descriptor_length e).
Definition set_descriptor (bs : bytes) (n : Z) (e : hid_entry) : hid_entry :=
  MkEntry (registry_id e) (known e) (vendor e) (product e) (interface_number e) (DarwinBinding.bus e)
    (path e) (serial e) (manufacturer e) (product_name e) bs n.
(** [memset] and the registry ID. *)
Definition zeroed (id : Z) : hid_entry := MkEntry id 0 0 0 0 0 "" "" "" "" [] 0.

Section Inventory.
Context {W : Type} `{!IORegistry W}.

Definition number (d : Z) (key : string) (w : W) : option Z * W :=
  let '(v, w) := GetProperty d key w in
  (match v with Some (Number i) => i | _ => None end, w).
(** [size] is that of the buffer, which the string has to fit with its NUL;
    what a failed call leaves there is in no field that is known. *)
Definition string_property (d : Z) (key : string) (size : Z) (w : W) : option string * W :=
  let '(v, w) := GetProperty d key w in
  (match v with
   | Some (Text s) => if Z.of_nat (String.length s) <? size then Some (c_text s) else None
   | _ => None
   end, w).

Definition bus_type (d : Z) (w : W) : Z * W :=
  let '(transport, w) := string_property d "Transport" 64 w in
  (match transport with
   | None => 0
   | Some t =>
       if String.eqb t "USB" then 1
       else if String.eqb t "Bluetooth" || String.eqb t "Bluetooth Low Energy" then 2
       else if String.eqb t "I2C" then 3
       else if String.eqb t "SPI" then 4
       else 5
   end, w).

Definition in_range (v : Z) : bool := (0 <=? v) && (v <=? 65535).
Definition fill_vendor (d : Z) (e : hid_entry) (w : W) : hid_entry * W :=
  let '(v, w) := number d "VendorID" w in
  (match v with
   | Some v => if in_range v
               then set_known 1 (set_numbers v (product e) (interface_number e) (DarwinBinding.bus e) e) else e
   | None => e
   end, w).
Definition fill_product (d : Z) (e : hid_entry) (w : W) : hid_entry * W :=
  let '(v, w) := number d "ProductID" w in
  (match v with
   | Some v => if in_range v
               then set_known 2 (set_numbers (vendor e) v (interface_number e) (DarwinBinding.bus e) e) else e
   | None => e
   end, w).
Definition fill_interface (service : Z) (e : hid_entry) (w : W) : hid_entry * W :=
  let '(found, w) := SearchInterface service w in
  match found with
  | Some (reference, value) =>
      (match value with
       | Number (Some v) =>
           if 0 <=? v then set_known 4 (set_numbers (vendor e) (product e) v (DarwinBinding.bus e) e) else e
       | _ => e
       end, CFRelease reference w)
  | None => (e, w)
  end.
Definition fill_strings (d : Z) (e : hid_entry) (w : W) : hid_entry * W :=
  let '(s, w) := string_property d "SerialNumber" 1024 w in
  let e := match s with
           | Some s => set_known 8 (set_texts (path e) s (manufacturer e) (product_name e) e) | None => e
           end in
  let '(s, w) := string_property d "Manufacturer" 1024 w in
  let e := match s with
           | Some s => set_known 16 (set_texts (path e) (serial e) s (product_name e) e) | None => e
           end in
  let '(s, w) := string_property d "Product" 1024 w in
  (match s with
   | Some s => set_known 32 (set_texts (path e) (serial e) (manufacturer e) s e) | None => e
   end, w).
(** The copy of the descriptor, and where it is. *)
Definition fill_descriptor (d : Z) (e : hid_entry) (w : W) : (option Z * hid_entry) * W :=
  let '(v, w) := GetProperty d "ReportDescriptor" w in
  match v with
  | Some (Data bs) =>
      if (0 <? len bs) && (len bs <=? HID_MAX_DESCRIPTOR) then
        match alloc (len bs) w with
        | (Some p, w) => ((Some p, set_descriptor bs (len bs) e), w)
        | (None, w) => ((None, set_descriptor [] (-2) e), w)
        end
      else ((None, e), w)
  | _ => ((None, e), w)
  end.

(** [None] when it returns 0. *)
Definition fill_entry (service : Z) (strings : bool) (w : W) : option native_entry * W :=
  match GetRegistryEntryID service w with
  | (None, w) => (None, w)
  | (Some id, w) =>
      match DeviceCreate service w with
      | (None, w) => (None, w)
      | (Some d, w) =>
          let '(p, w) := GetPath service w in
          let e := match p with
                   | Some p => set_texts (String.substring 0 1023 (c_text p)) "" "" "" (zeroed id) | None => zeroed id
                   end in
          let '(e, w) := fill_vendor d e w in
          let '(e, w) := fill_product d e w in
          let '(e, w) := fill_interface service e w in
          let '(b, w) := bus_type d w in
          let e := set_numbers (vendor e) (product e) (interface_number e) b e in
          let '(e, w) := if strings then fill_strings d e w else (e, w) in
          let '((at_, e), w) := fill_descriptor d e w in
          (Some (MkNative (Some d) at_ e), w)
      end
  end.

Definition free_opt (p : option Z) (w : W) : W := match p with Some p => free p w | None => w end.
Definition clear_entry (n : native_entry) (w : W) : W :=
  free_opt (descriptor_at n) (match device n with Some d => CFRelease d w | None => w end).

(** ** hid_enumerate *)
Definition incomplete (i : native_inventory) : native_inventory :=
  MkNativeInventory (inventory_at i) (entries_at i) (items i) false (is_limited i) (error i).
Definition limit (i : native_inventory) : native_inventory :=
  MkNativeInventory (inventory_at i) (entries_at i) (items i) false true (error i).
Definition moved (p : Z) (i : native_inventory) : native_inventory :=
  MkNativeInventory (inventory_at i) (Some p) (items i) (complete i) (is_limited i) (error i).
Definition added (n : native_entry) (i : native_inventory) : native_inventory :=
  MkNativeInventory (inventory_at i) (entries_at i) (items i ++ [n]) (complete i) (is_limited i) (error i).

Fixpoint collect (fuel : nat) (strings : bool) (iterator : Z) (i : native_inventory) (w : W)
    : option (native_inventory * W) :=
  match fuel with
  | O => None
  | S fuel =>
      match IteratorNext iterator w with
      | (None, w) => Some (i, w)
      | (Some service, w) =>
          if HID_MAX_DEVICES <=? len (items i) then Some (limit i, ObjectRelease service w)
          else
            match realloc (entries_at i) (len (items i) + 1) w with
            | (None, w) => Some (limit i, ObjectRelease service w)
            | (Some p, w) =>
                let '(n, w) := fill_entry service strings w in
                let i := match n with Some n => added n (moved p i) | None => incomplete (moved p i) end in
                collect fuel strings iterator i (ObjectRelease service w)
            end
      end
  end.

Definition hid_enumerate (strings : bool) (w : W) : option (option native_inventory * W) :=
  match alloc 1 w with
  | (None, w) => Some (None, w)
  | (Some p, w) =>
      let '((code, iterator), w) := GetMatchingServices w in
      if negb (code =? 0) then Some (Some (MkNativeInventory p None [] false false code), w)
      else
        match collect (S (services_left w)) strings iterator (MkNativeInventory p None [] true false 0) w with
        | None => None
        | Some (i, w) =>
            let '(valid, w) := IteratorIsValid iterator w in
            Some (Some (if valid then i else incomplete i), ObjectRelease iterator w)
        end
  end.

Definition hid_inventory_free (i : option native_inventory) (w : W) : W :=
  match i with
  | None => w
  | Some i => free (inventory_at i) (free_opt (entries_at i) (foldl (λ w n, clear_entry n w) w (items i)))
  end.

(** ** hid_lookup: an entry in storage of its own, or an error. *)
Definition hid_lookup (registry : Z) (strings : bool) (w : W) : (option (Z * native_entry) * Z) * W :=
  match EntryIDMatching registry w with
  | (None, w) => ((None, kIOReturnNoMemory), w)
  | (Some matching, w) =>
      match GetMatchingService matching w with
      | (None, w) => ((None, kIOReturnNoDevice), w)
      | (Some service, w) =>
          let '(r, w) :=
            match alloc 1 w with
            | (None, w) => ((None, kIOReturnNoMemory), w)
            | (Some p, w) =>
                let '(hid, w) := ConformsTo service w in
                let '(n, w) := if hid then fill_entry service strings w else (None, w) in
                match n with
                | Some n => ((Some (p, n), 0), w)
                | None => ((None, kIOReturnError), free p w)
                end
            end in
          (r, ObjectRelease service w)
      end
  end.
Definition hid_entry_free (e : option (Z * native_entry)) (w : W) : W :=
  match e with None => w | Some (p, n) => free p (clear_entry n w) end.
End Inventory.
End DarwinRegistry.
