(* ===== verification/DarwinRegistryProps.v ===== *)
(** * What the macOS inventory guarantees

    A ledger of the memory, the references and the ports of the process: an
    inventory owns what its entries hold and no more, freeing it gives exactly
    that back, and what the Go half reads from an entry is well formed.  At the
    end, a registry of two services for the witness. *)
From S2P Require Import Prelude GoText DarwinBinding DarwinRegistry.
From stdpp Require Import gmultiset.
#[local] Open Scope Z_scope.

(** A block of memory, a CoreFoundation reference, a port. *)
Definition block (p : Z) : Z * Z := (0, p).
Definition reference (d : Z) : Z * Z := (1, d).
Definition port (s : Z) : Z * Z := (2, s).
Abbreviation objects := (gmultiset (Z * Z)).
Definition some_of {A} (f : A → Z * Z) (o : option A) : objects := match o with Some a => {[+ f a +]} | None => ∅ end.

(** From [w] to [w'], [got] came to the ledger and [gone] left it, and the
    iterators have not got longer. *)
Definition changes {W} `{!IORegistry W} (owned : W → objects) (got gone : objects) (w w' : W) : Prop :=
  owned w' ⊎ gone = owned w ⊎ got ∧ (services_left w' <= services_left w)%nat.

(** The documented ownership rules: functions that create or copy give a
    reference, the others none; what is released has to be owned. *)
Class RegistryLaws {W : Type} `{!IORegistry W} (owned : W → objects) : Prop := {
  alloc_changes n w : let '(r, w') := alloc n w in changes owned (some_of block r) ∅ w w';
  realloc_changes b n w : some_of block b ⊆ owned w →
    let '(r, w') := realloc b n w in
    changes owned (some_of block r) (match r with Some _ => some_of block b | None => ∅ end) w w';
  free_changes p w : block p ∈ owned w → changes owned ∅ {[+ block p +]} w (free p w);
  matching_changes w : let '((code, iterator), w') := GetMatchingServices w in
    owned w' = owned w ⊎ (if code =? 0 then {[+ port iterator +]} else ∅);
  next_changes i w : let '(r, w') := IteratorNext i w in
    changes owned (some_of port r) ∅ w w' ∧ (is_Some r → (services_left w' < services_left w)%nat);
  valid_changes i w : changes owned ∅ ∅ w (IteratorIsValid i w).2;
  release_changes s w : port s ∈ owned w → changes owned ∅ {[+ port s +]} w (ObjectRelease s w);
  entry_id_changes s w : changes owned ∅ ∅ w (GetRegistryEntryID s w).2;
  device_changes s w : let '(r, w') := DeviceCreate s w in changes owned (some_of reference r) ∅ w w';
  path_changes s w : changes owned ∅ ∅ w (GetPath s w).2;
  property_changes d k w : changes owned ∅ ∅ w (GetProperty d k w).2;
  search_changes s w : let '(r, w') := SearchInterface s w in
    changes owned (some_of (λ x, reference x.1) r) ∅ w w';
  cf_release_changes d w : reference d ∈ owned w → changes owned ∅ {[+ reference d +]} w (CFRelease d w);
  dictionary_changes r w : let '(r, w') := EntryIDMatching r w in changes owned (some_of reference r) ∅ w w';
  service_changes m w : reference m ∈ owned w →
    let '(r, w') := GetMatchingService m w in changes owned (some_of port r) {[+ reference m +]} w w';
  conforms_changes s w : changes owned ∅ ∅ w (ConformsTo s w).2;
}.

Module DarwinRegistryProps.
Import DarwinRegistry.
#[local] Arguments disj_union : simpl never.
#[local] Arguments singletonMS : simpl never.

Lemma sub_left (X Y X' : objects) : X ⊎ Y ⊆ X' → X ⊆ X'.
Proof. multiset_solver. Qed.
Lemma in_left (x : Z * Z) (X Y : objects) : {[+ x +]} ⊎ Y ⊆ X → x ∈ X.
Proof. intros H%sub_left. by apply gmultiset_singleton_subseteq_l. Qed.

Lemma entered (a b h e l : objects) : a ⊎ (b ⊎ h) ⊎ (e ⊎ l) = b ⊎ (l ⊎ h) ⊎ a ⊎ (∅ ⊎ (e ⊎ ∅)).
Proof. multiset_solver. Qed.

Section Ledger.
Context {W : Type} `{!IORegistry W} (owned : W → objects) `{!RegistryLaws owned}.
Abbreviation changes := (changes owned).

Lemma changes_refl w : changes ∅ ∅ w w.
Proof. by split. Qed.
Lemma changes_trans g r g' r' w w1 w2 : changes g r w w1 → changes g' r' w1 w2 → changes (g ⊎ g') (r ⊎ r') w w2.
Proof. intros [H1 H2] [H3 H4]. split; [multiset_solver|lia]. Qed.
Lemma changes_eq g r g' r' w w' : changes g r w w' → g ⊎ r' = g' ⊎ r → changes g' r' w w'.
Proof. intros [H1 H2] E. split; [multiset_solver|done]. Qed.
Lemma changes_owned x g w w' : changes ({[+ x +]} ⊎ g) ∅ w w' → x ∈ owned w'.
Proof. intros [H1 _]. multiset_solver. Qed.

Lemma quiet_trans g r w w1 w2 : changes ∅ ∅ w w1 → changes g r w1 w2 → changes g r w w2.
Proof. intros H1 H2. eapply changes_eq; [by eapply changes_trans|]. multiset_solver. Qed.
Lemma quiet_after g r w w1 w2 : changes g r w w1 → changes ∅ ∅ w1 w2 → changes g r w w2.
Proof. intros H1 H2. eapply changes_eq; [by eapply changes_trans|]. multiset_solver. Qed.

(** ** Entries *)
Lemma number_changes d k w : changes ∅ ∅ w (number d k w).2.
Proof. unfold number. pose proof (property_changes (owned:=owned) d k w) as H. by destruct (GetProperty d k w). Qed.
Lemma string_changes d k n w : changes ∅ ∅ w (string_property d k n w).2.
Proof. unfold string_property. pose proof (property_changes (owned:=owned) d k w) as H. by destruct (GetProperty d k w). Qed.
Lemma bus_changes d w : changes ∅ ∅ w (bus_type d w).2.
Proof. unfold bus_type. pose proof (string_changes d "Transport" 64 w) as H. by destruct (string_property _ _ _ w). Qed.
Lemma vendor_changes d e w : changes ∅ ∅ w (fill_vendor d e w).2.
Proof. unfold fill_vendor. pose proof (number_changes d "VendorID" w) as H. by destruct (number _ _ w). Qed.
Lemma product_changes d e w : changes ∅ ∅ w (fill_product d e w).2.
Proof. unfold fill_product. pose proof (number_changes d "ProductID" w) as H. by destruct (number _ _ w). Qed.
Lemma interface_changes s e w : changes ∅ ∅ w (fill_interface s e w).2.
Proof.
  unfold fill_interface. pose proof (search_changes (owned:=owned) s w) as H.
  destruct (SearchInterface s w) as [[[r v]|] w1]; [|exact H]. cbn in *.
  assert (Hr : reference r ∈ owned w1) by (apply (changes_owned (reference r) ∅ w); eapply changes_eq; [exact H|multiset_solver]).
  eapply changes_eq; [eapply changes_trans; [exact H|by apply cf_release_changes]|]. multiset_solver.
Qed.
Lemma strings_changes d e w : changes ∅ ∅ w (fill_strings d e w).2.
Proof.
  unfold fill_strings. pose proof (string_changes d "SerialNumber" 1024 w) as H1. destruct (string_property _ _ _ w) as [s1 w1].
  pose proof (string_changes d "Manufacturer" 1024 w1) as H2. destruct (string_property _ _ _ w1) as [s2 w2].
  pose proof (string_changes d "Product" 1024 w2) as H3. destruct (string_property _ _ _ w2) as [s3 w3].
  eapply quiet_trans; [exact H1|]. by eapply quiet_trans.
Qed.
Lemma descriptor_changes d e w : let '((p, _), w') := fill_descriptor d e w in changes (some_of block p) ∅ w w'.
Proof.
  unfold fill_descriptor. pose proof (property_changes (owned:=owned) d "ReportDescriptor" w) as H.
  destruct (GetProperty _ _ w) as [[[]|] w1]; try exact H. destruct (_ && _); [|exact H].
  pose proof (alloc_changes (owned:=owned) (len contents) w1) as Ha. destruct (alloc _ w1) as [[p|] w2];
    by eapply quiet_trans.
Qed.

Definition holds (n : native_entry) : objects := some_of reference (device n) ⊎ some_of block (descriptor_at n).

Lemma fill_changes service strings w : let '(n, w') := fill_entry service strings w in
  changes (match n with Some n => holds n | None => ∅ end) ∅ w w'.
Proof.
  unfold fill_entry. pose proof (entry_id_changes (owned:=owned) service w) as H0.
  destruct (GetRegistryEntryID service w) as [[id|] w0]; [|exact H0].
  pose proof (device_changes (owned:=owned) service w0) as H1.
  destruct (DeviceCreate service w0) as [[d|] w1]; [|by eapply quiet_trans].
  pose proof (path_changes (owned:=owned) service w1) as H2. destruct (GetPath service w1) as [l w2]. cbn in H2.
  match goal with |- context [fill_vendor d ?e w2] =>
    pose proof (vendor_changes d e w2) as H3; destruct (fill_vendor d e w2) as [e3 w3] end.
  pose proof (product_changes d e3 w3) as H4. destruct (fill_product _ _ w3) as [e4 w4].
  pose proof (interface_changes service e4 w4) as H5. destruct (fill_interface _ _ w4) as [e5 w5].
  pose proof (bus_changes d w5) as H6. destruct (bus_type d w5) as [b w6]. set (e6 := set_numbers _ _ _ _ _).
  assert (H7 : changes ∅ ∅ w6 (if strings then fill_strings d e6 w6 else (e6, w6)).2).
  { destruct strings; [apply strings_changes|apply changes_refl]. }
  destruct (if strings then _ else _) as [e7 w7].
  pose proof (descriptor_changes d e7 w7) as H8. destruct (fill_descriptor _ _ w7) as [[p e8] w8]. cbn in *.
  assert (Hq : changes ∅ ∅ w1 w7) by (repeat (eapply quiet_trans; [eassumption|]); apply changes_refl).
  eapply quiet_trans; [exact H0|]. eapply changes_eq; [eapply changes_trans; [exact H1|eapply quiet_trans; [exact Hq|exact H8]]|].
  unfold holds. cbn. multiset_solver.
Qed.

Lemma free_opt_changes p w : some_of block p ⊆ owned w → changes ∅ (some_of block p) w (free_opt p w).
Proof. destruct p; cbn; [|intros; apply changes_refl]. intros H. apply free_changes. by apply gmultiset_singleton_subseteq_l. Qed.
Lemma clear_changes n w : holds n ⊆ owned w → changes ∅ (holds n) w (clear_entry n w).
Proof.
  unfold holds, clear_entry. destruct n as [d p e]; cbn. intros H.
  assert (H1 : changes ∅ (some_of reference d) w match d with Some d => CFRelease d w | None => w end).
  { destruct d; cbn in *; [|apply changes_refl]. apply cf_release_changes. by eapply in_left. }
  eapply changes_eq; [eapply changes_trans; [exact H1|apply free_opt_changes]|multiset_solver].
  destruct H1 as [H1 _]. multiset_solver.
Qed.

(** ** Inventories *)
Definition all_held (ns : list native_entry) : objects := foldr (λ n x, holds n ⊎ x) ∅ ns.
Lemma all_held_app ns n : all_held (ns ++ [n]) = all_held ns ⊎ holds n.
Proof. unfold all_held. induction ns as [|m ns IH]; cbn; [|rewrite IH]; multiset_solver. Qed.
Definition listed (i : native_inventory) : objects := some_of block (entries_at i) ⊎ all_held (items i).

Lemma clear_all_changes ns w : all_held ns ⊆ owned w → changes ∅ (all_held ns) w (foldl (λ w n, clear_entry n w) w ns).
Proof.
  revert w. induction ns as [|n ns IH]; intros w H; cbn; [apply changes_refl|]. change (holds n ⊎ all_held ns ⊆ owned w) in H.
  assert (H1 : changes ∅ (holds n) w (clear_entry n w)) by (by eapply clear_changes, sub_left).
  destruct (IH (clear_entry n w)) as [H2 H3].
  { destruct H1 as [H1 _]. multiset_solver. }
  eapply changes_eq; [by eapply changes_trans|]. multiset_solver.
Qed.

Lemma collect_changes fuel strings iterator i w : (services_left w < fuel)%nat → listed i ⊆ owned w →
  len (items i) <= HID_MAX_DEVICES →
  ∃ i' w', collect fuel strings iterator i w = Some (i', w') ∧ changes (listed i') (listed i) w w' ∧
    inventory_at i' = inventory_at i ∧ len (items i') <= HID_MAX_DEVICES.
Proof.
  revert i w. induction fuel as [|fuel IH]; intros i w Hf Hi Hn; [lia|]. cbn.
  pose proof (next_changes (owned:=owned) iterator w) as Hx.
  destruct (IteratorNext iterator w) as [[s|] w1]; cbn in Hx.
  2: { exists i, w1. split_and!; [done| |done|done]. eapply changes_eq; [apply Hx|multiset_solver]. }
  destruct Hx as [Hx Hlt]. specialize (Hlt (ex_intro _ s eq_refl)). pose proof Hx as [Hx1 _].
  assert (Hgive : ∀ j w2, changes (listed j ⊎ {[+ port s +]}) (listed i) w w2 →
    changes (listed j) (listed i) w (ObjectRelease s w2) ∧ (services_left (ObjectRelease s w2) <= services_left w2)%nat).
  { intros j w2 H. assert (Hs : changes ∅ {[+ port s +]} w2 (ObjectRelease s w2)).
    { apply release_changes. destruct H as [H _]. multiset_solver. }
    split; [|apply Hs]. eapply changes_eq; [by eapply changes_trans|multiset_solver]. }
  destruct (Z.leb_spec HID_MAX_DEVICES (len (items i))).
  { eexists _, _. split_and!; [done| |done|done]. apply (Hgive (limit i)). eapply changes_eq; [exact Hx|]. cbn. multiset_solver. }
  assert (Hb : some_of block (entries_at i) ⊆ owned w1) by (unfold listed in Hi; multiset_solver).
  pose proof (realloc_changes (owned:=owned) (entries_at i) (len (items i) + 1) w1 Hb) as Hr.
  destruct (realloc _ _ w1) as [[p|] w2]; cbn in Hr.
  2: { eexists _, _. split_and!; [done| |done|done]. apply (Hgive (limit i)). eapply changes_eq; [by eapply changes_trans|]. multiset_solver. }
  pose proof (fill_changes s strings w2) as He. destruct (fill_entry s strings w2) as [n w3].
  set (j := match n with Some n => added n (moved p i) | None => _ end).
  assert (Hj : changes (listed j ⊎ {[+ port s +]}) (listed i) w w3).
  { eapply changes_eq; [eapply changes_trans; [exact Hx|by eapply changes_trans]|].
    assert (E : listed j = some_of block (Some p) ⊎ (all_held (items i) ⊎ match n with Some n => holds n | None => ∅ end)).
    { unfold j, listed. destruct n; cbn [entries_at items moved added incomplete]; [by rewrite all_held_app|].
      by rewrite (right_id_L ∅ (⊎)). }
    rewrite E. apply entered. }
  pose proof (Hgive _ _ Hj) as [Hk Hk2]. pose proof Hk as [Hk1 _].
  destruct (IH j (ObjectRelease s w3)) as (i' & w' & H1 & H2 & H3 & H4).
  - destruct Hr as [_ Hr], He as [_ He]. lia.
  - multiset_solver.
  - unfold j. destruct n; cbn; [|done]. unfold len in *. rewrite length_app. cbn. lia.
  - exists i', w'. split_and!; [done| |rewrite H3; by destruct n|done].
    eapply changes_eq; [eapply changes_trans; [exact Hk|exact H2]|]. multiset_solver.
Qed.

(** ** What the Go half reads *)
Definition fits (s : string) : Prop := Z.of_nat (String.length s) < 1024 ∧ c_text s = s.
(** The fields, with the bits of [known] below [bound]. *)
Record sound (bound : Z) (e : hid_entry) : Prop := {
  sound_known : 0 <= known e < bound;
  sound_ids : 0 <= vendor e < 65536 ∧ 0 <= product e < 65536;
  sound_interface : 0 <= interface_number e;
  sound_bus : 0 <= DarwinBinding.bus e <= 5;
  sound_texts : fits (path e) ∧ fits (serial e) ∧ fits (manufacturer e) ∧ fits (product_name e);
}.
Definition described (at_ : option Z) (e : hid_entry) : Prop :=
  match at_ with
  | Some _ => descriptor_length e = len (descriptor e) ∧ 0 < len (descriptor e) <= HID_MAX_DESCRIPTOR
  | None => descriptor e = [] ∧ (descriptor_length e = 0 ∨ descriptor_length e = -2)
  end.
Definition wellformed (strings : bool) (n : native_entry) : Prop :=
  is_Some (device n) ∧ sound (if strings then 64 else 8) (fields n) ∧ described (descriptor_at n) (fields n).

Lemma c_text_idem s : c_text (c_text s) = c_text s ∧ (String.length (c_text s) <= String.length s)%nat.
Proof.
  induction s as [|c s [IH1 IH2]]; [done|]. cbn. destruct (Ascii.eqb c "000") eqn:E; cbn; [split; [done|lia]|].
  rewrite E, IH1. split; [done|lia].
Qed.
Lemma c_text_fits s : Z.of_nat (String.length s) < 1024 → fits (c_text s).
Proof. intros H. destruct (c_text_idem s) as [H1 H2]. split; [lia|done]. Qed.
Lemma prefix_fits s : fits (String.substring 0 1023 (c_text s)).
Proof.
  assert (H : ∀ n s, c_text (String.substring 0 n (c_text s)) = String.substring 0 n (c_text s) ∧
    (String.length (String.substring 0 n (c_text s)) <= n)%nat).
  { clear. induction n as [|n IH]; intros s; [destruct s; cbn; [split; [done|lia]|destruct (Ascii.eqb _ _); split; done || (cbn; lia)]|].
    destruct s as [|c s]; cbn; [split; [done|lia]|]. destruct (Ascii.eqb c "000") eqn:E; cbn; [split; [done|lia]|].
    destruct (IH s) as [H1 H2]. rewrite E, H1. split; [done|lia]. }
  destruct (H 1023%nat s) as [H1 H2]. split; [lia|done].
Qed.
Lemma lor_known a b k : 0 <= a < 2 ^ k → 0 <= b < 2 ^ k → 0 <= k → 0 <= Z.lor a b < 2 ^ k.
Proof.
  intros Ha Hb Hk. split; [apply Z.lor_nonneg; lia|]. destruct (Z.eq_dec (Z.lor a b) 0); [lia|].
  assert (0 <= Z.lor a b) by (apply Z.lor_nonneg; lia).
  apply Z.log2_lt_pow2; [lia|]. rewrite Z.log2_lor by lia.
  assert (∀ x, 0 <= x < 2 ^ k → x = 0 ∨ Z.log2 x < k).
  { intros x Hx. destruct (Z.eq_dec x 0); [by left|right; apply Z.log2_lt_pow2; lia]. }
  destruct (H0 a Ha) as [->|], (H0 b Hb) as [->|]; try (cbn in *; lia).
  - rewrite Z.lor_0_l in n. done.
  - change (Z.log2 0) with 0. pose proof (Z.log2_nonneg b). lia.
  - change (Z.log2 0) with 0. pose proof (Z.log2_nonneg a). lia.
Qed.

Lemma set_known_sound k b e : 0 <= k → 0 <= b < 2 ^ k → sound (2 ^ k) e → sound (2 ^ k) (set_known b e).
Proof. intros Hk Hb [H1 H2 H3 H4 H5]. split; cbn; [by apply lor_known|done..]. Qed.
Lemma set_numbers_sound n e v p i b : sound n e → 0 <= v < 65536 → 0 <= p < 65536 → 0 <= i → 0 <= b <= 5 →
  sound n (set_numbers v p i b e).
Proof. intros [H1 H2 H3 H4 H5] ? ? ? ?. by split. Qed.
Lemma set_texts_sound n e l s m p : sound n e → fits l → fits s → fits m → fits p → sound n (set_texts l s m p e).
Proof. intros [H1 H2 H3 H4 H5] ? ? ? ?. by split. Qed.
Lemma zeroed_sound n id : 0 < n → sound n (zeroed id).
Proof. intros. by split; cbn; try lia. Qed.
Lemma sound_weaken n m e : n <= m → sound n e → sound m e.
Proof. intros ? [H1 H2 H3 H4 H5]. split; [lia|done..]. Qed.

Lemma in_range_spec v : in_range v = true → 0 <= v < 65536.
Proof. unfold in_range. lia. Qed.
Lemma vendor_sound k d e w : 0 < k → sound (2 ^ k) e → sound (2 ^ k) (fill_vendor d e w).1.
Proof.
  intros Hk He. pose proof (Z.pow_le_mono_r 2 1 k). unfold fill_vendor. destruct (number _ _ w) as [[v|] w1]; [|done]. cbn.
  destruct (in_range v) eqn:E; [|done]. apply in_range_spec in E. pose proof He as [_ [_ ?] ? ? _].
  apply set_known_sound; [lia|lia|]. by apply set_numbers_sound.
Qed.
Lemma product_sound k d e w : 1 < k → sound (2 ^ k) e → sound (2 ^ k) (fill_product d e w).1.
Proof.
  intros Hk He. pose proof (Z.pow_le_mono_r 2 2 k). unfold fill_product. destruct (number _ _ w) as [[v|] w1]; [|done]. cbn.
  destruct (in_range v) eqn:E; [|done]. apply in_range_spec in E. pose proof He as [_ [? _] ? ? _].
  apply set_known_sound; [lia|lia|]. by apply set_numbers_sound.
Qed.
Lemma interface_sound k s e w : 2 < k → sound (2 ^ k) e → sound (2 ^ k) (fill_interface s e w).1.
Proof.
  intros Hk He. pose proof (Z.pow_le_mono_r 2 3 k). unfold fill_interface.
  destruct (SearchInterface s w) as [[[r []]|] w1]; try done. cbn. destruct int as [v|]; [|done].
  destruct (Z.leb_spec 0 v); [|done]. pose proof He as [_ [? ?] ? ? _].
  apply set_known_sound; [lia|lia|]. by apply set_numbers_sound.
Qed.
Lemma bus_range d w : 0 <= (bus_type d w).1 <= 5.
Proof. unfold bus_type. destruct (string_property _ _ _ w) as [[t|] w1]; cbn; repeat case_match; lia. Qed.
Lemma string_fits d k w s : (string_property d k 1024 w).1 = Some s → fits s.
Proof.
  unfold string_property. destruct (GetProperty _ _ w) as [[[]|] w1]; cbn; try done.
  destruct (Z.ltb_spec (Z.of_nat (String.length utf8)) 1024); [|done]. intros [= <-]. by apply c_text_fits.
Qed.
Lemma strings_sound d e w : sound 64 e → sound 64 (fill_strings d e w).1.
Proof.
  intros He. unfold fill_strings.
  pose proof (string_fits d "SerialNumber" w) as H1. destruct (string_property _ _ _ w) as [s1 w1].
  pose proof (string_fits d "Manufacturer" w1) as H2. destruct (string_property _ _ _ w1) as [s2 w2].
  pose proof (string_fits d "Product" w2) as H3. destruct (string_property _ _ _ w2) as [s3 w3]. cbn in *.
  assert (Hk : ∀ b e, 0 <= b < 2 ^ 6 → sound 64 e → sound 64 (set_known b e)) by (intros; by apply (set_known_sound 6)).
  assert (Ha : sound 64 (match s1 with Some s => set_known 8 (set_texts (path e) s (manufacturer e) (product_name e) e) | None => e end)).
  { destruct s1; [|done]. pose proof He as [_ _ _ _ (? & ? & ? & ?)]. apply Hk; [done|]. apply set_texts_sound; auto. }
  set (e1 := match s1 with Some _ => _ | None => _ end) in *.
  assert (Hb : sound 64 (match s2 with Some s => set_known 16 (set_texts (path e1) (serial e1) s (product_name e1) e1) | None => e1 end)).
  { destruct s2; [|done]. pose proof Ha as [_ _ _ _ (? & ? & ? & ?)]. apply Hk; [done|]. apply set_texts_sound; auto. }
  set (e2 := match s2 with Some _ => _ | None => _ end) in *.
  destruct s3; [|done]. pose proof Hb as [_ _ _ _ (? & ? & ? & ?)]. apply Hk; [done|]. apply set_texts_sound; auto.
Qed.

(** Nothing has touched the descriptor. *)
Definition blank (e : hid_entry) : Prop := descriptor e = [] ∧ descriptor_length e = 0.
Lemma fills_blank d s e w : blank e →
  blank (fill_vendor d e w).1 ∧ blank (fill_product d e w).1 ∧ blank (fill_interface s e w).1 ∧ blank (fill_strings d e w).1.
Proof.
  intros He. unfold fill_vendor, fill_product, fill_interface, fill_strings. split_and!.
  - destruct (number _ _ w) as [[v|] ?]; cbn; [by destruct (in_range v)|done].
  - destruct (number _ _ w) as [[v|] ?]; cbn; [by destruct (in_range v)|done].
  - destruct (SearchInterface s w) as [[[r [[v|]| | |]]|] ?]; cbn; try done. by destruct (0 <=? v).
  - destruct (string_property _ _ _ w) as [[?|] w1], (string_property _ _ _ w1) as [[?|] w2],
      (string_property _ _ _ w2) as [[?|] w3]; done.
Qed.
Lemma descriptor_described d n e w : sound n e → blank e →
  let '((p, e'), _) := fill_descriptor d e w in sound n e' ∧ described p e'.
Proof.
  intros [H1 H2 H3 H4 H5] [Hb1 Hb2]. unfold fill_descriptor.
  destruct (GetProperty _ _ w) as [[[]|] w1]; try by (split; [by split|]; split; [|left]).
  destruct (_ && _) eqn:E; [|by split; [by split|]; split; [|left]]. apply andb_true_iff in E as [E1 E2].
  destruct (alloc _ w1) as [[p|] w2]; (split; [by split|]); cbn; [split; [done|lia]|]. split; [done|by right].
Qed.

Lemma fill_wellformed service strings w n w' : fill_entry service strings w = (Some n, w') → wellformed strings n.
Proof.
  unfold fill_entry. destruct (GetRegistryEntryID service w) as [[id|] w0]; [|done].
  destruct (DeviceCreate service w0) as [[d|] w1]; [|done]. destruct (GetPath service w1) as [l w2].
  set (e2 := match l with Some p => _ | None => _ end).
  assert (H2 : sound (2 ^ 3) e2 ∧ blank e2).
  { unfold e2. destruct l; (split; [|done]); [|by apply zeroed_sound].
    apply set_texts_sound; [by apply zeroed_sound|apply prefix_fits|done..]. }
  destruct H2 as [H2 B2]. pose proof (vendor_sound 3 d e2 w2 ltac:(lia) H2) as H3.
  destruct (fills_blank d service e2 w2 B2) as [B3 _]. destruct (fill_vendor d e2 w2) as [e3 w3]. cbn [fst] in *.
  pose proof (product_sound 3 d e3 w3 ltac:(lia) H3) as H4.
  destruct (fills_blank d service e3 w3 B3) as (_ & B4 & _). destruct (fill_product d e3 w3) as [e4 w4]. cbn [fst] in *.
  pose proof (interface_sound 3 service e4 w4 ltac:(lia) H4) as H5.
  destruct (fills_blank d service e4 w4 B4) as (_ & _ & B5 & _). destruct (fill_interface _ e4 w4) as [e5 w5]. cbn [fst] in *.
  pose proof (bus_range d w5) as H6. destruct (bus_type d w5) as [b w6]. cbn [fst] in *. set (e6 := set_numbers _ _ _ _ _).
  assert (S6 : sound (2 ^ 3) e6) by (pose proof H5 as [_ [? ?] ? _ _]; by apply set_numbers_sound).
  assert (B6 : blank e6) by exact B5.
  assert (H7 : sound (if strings then 64 else 8) (if strings then fill_strings d e6 w6 else (e6, w6)).1 ∧
    blank (if strings then fill_strings d e6 w6 else (e6, w6)).1).
  { destruct strings; [|done]. split; [apply strings_sound; by eapply (sound_weaken (2 ^ 3))|by apply (fills_blank d service)]. }
  destruct (if strings then fill_strings d e6 w6 else (e6, w6)) as [e7 w7]. cbn in H7. destruct H7 as [H7 B7].
  pose proof (descriptor_described d _ e7 w7 H7 B7) as H8. destruct (fill_descriptor _ _ w7) as [[p e8] w8].
  intros [= <- _]. destruct H8. by split_and!.
Qed.

Lemma collect_wellformed fuel strings iterator i w i' w' : collect fuel strings iterator i w = Some (i', w') →
  Forall (wellformed strings) (items i) → (is_limited i = true → complete i = false) →
  Forall (wellformed strings) (items i') ∧ (is_limited i' = true → complete i' = false) ∧ error i' = error i.
Proof.
  revert i w. induction fuel as [|fuel IH]; intros i w; [done|]. cbn. intros E Hf Hl.
  destruct (IteratorNext iterator w) as [[s|] w1]; [|by injection E as <- <-].
  destruct (_ <=? _); [by injection E as <- <-|].
  destruct (realloc _ _ w1) as [[p|] w2]; [|by injection E as <- <-].
  destruct (fill_entry s strings w2) as [[n|] w3] eqn:En; (apply IH in E; [exact E| |]); cbn; try done.
  apply Forall_app. split; [done|]. constructor; [by eapply fill_wellformed|done].
Qed.

(** ** Theorems *)
Definition held (i : native_inventory) : objects := {[+ block (inventory_at i) +]} ⊎ listed i.
Definition held_entry (x : Z * native_entry) : objects := {[+ block x.1 +]} ⊎ holds x.2.

Lemma inventory_free_changes i w : held i ⊆ owned w → changes ∅ (held i) w (hid_inventory_free (Some i) w).
Proof.
  unfold held, listed. intros H. cbn.
  assert (H1 : changes ∅ (all_held (items i)) w (foldl (λ w n, clear_entry n w) w (items i))).
  { apply clear_all_changes. multiset_solver. }
  set (w1 := foldl _ w (items i)) in *.
  assert (H2 : changes ∅ (some_of block (entries_at i)) w1 (free_opt (entries_at i) w1)).
  { apply free_opt_changes. destruct H1 as [H1 _]. multiset_solver. }
  assert (H3 : changes ∅ {[+ block (inventory_at i) +]} (free_opt (entries_at i) w1)
                 (free (inventory_at i) (free_opt (entries_at i) w1))).
  { apply free_changes. destruct H1 as [H1 _], H2 as [H2 _]. apply gmultiset_singleton_subseteq_l. multiset_solver. }
  eapply changes_eq; [eapply changes_trans; [exact H1|eapply changes_trans; [exact H2|exact H3]]|]. multiset_solver.
Qed.
Lemma entry_free_changes x w : held_entry x ⊆ owned w → changes ∅ (held_entry x) w (hid_entry_free (Some x) w).
Proof.
  destruct x as [p n]. unfold held_entry. intros H. cbn in *.
  assert (H1 : changes ∅ (holds n) w (clear_entry n w)) by (apply clear_changes; multiset_solver).
  assert (H2 : changes ∅ {[+ block p +]} (clear_entry n w) (free p (clear_entry n w))).
  { apply free_changes. destruct H1 as [H1 _]. apply gmultiset_singleton_subseteq_l. multiset_solver. }
  eapply changes_eq; [eapply changes_trans; [exact H1|exact H2]|]. multiset_solver.
Qed.
Lemma ledger_back g w w' : changes ∅ g w w' → owned w = owned w' ⊎ g.
Proof. intros [H _]. multiset_solver. Qed.

Lemma enumerate_changes strings w : ∃ r w', hid_enumerate strings w = Some (r, w') ∧
  owned w' = owned w ⊎ match r with Some i => held i | None => ∅ end ∧
  ∀ i, r = Some i → len (items i) <= HID_MAX_DEVICES ∧ Forall (wellformed strings) (items i) ∧
    (is_limited i = true ∨ error i ≠ 0 → complete i = false).
Proof.
  unfold hid_enumerate. pose proof (alloc_changes (owned:=owned) 1 w) as H1. destruct (alloc 1 w) as [[p|] w1].
  2: { eexists _, _. split; [done|]. split; [|done]. destruct H1 as [H1 _]. cbn in H1. multiset_solver. }
  destruct H1 as [H1 _]. cbn [some_of] in H1.
  pose proof (matching_changes (owned:=owned) w1) as H2. destruct (GetMatchingServices w1) as [[code it] w2].
  destruct (Z.eqb_spec code 0) as [->|Hc]; cbn [negb].
  2: { eexists _, _. split; [done|]. split.
       - unfold held, listed. cbn. multiset_solver.
       - intros i [= <-]. cbn. by split_and!. }
  set (i0 := MkNativeInventory p None [] true false 0).
  destruct (collect_changes (S (services_left w2)) strings it i0 w2) as (i & w3 & Hc & H3 & Hat & Hn); [lia| |done|].
  { unfold listed, i0. cbn. multiset_solver. }
  destruct (collect_wellformed _ _ _ _ _ _ _ Hc) as (Hw & Hl & He); [constructor|done|]. rewrite Hc.
  pose proof (valid_changes (owned:=owned) it w3) as H4. destruct (IteratorIsValid it w3) as [valid w4]. cbn [snd] in H4.
  assert (E0 : listed i0 = ∅) by (unfold listed; cbn; multiset_solver). rewrite E0 in H3. destruct H3 as [H3 _], H4 as [H4 _].
  assert (H5 : changes ∅ {[+ port it +]} w4 (ObjectRelease it w4)).
  { apply release_changes. apply gmultiset_singleton_subseteq_l. cbn in H2. multiset_solver. }
  destruct H5 as [H5 _]. cbn in H2. eexists _, _. split; [done|]. split.
  - assert (E : held (if valid then i else incomplete i) = {[+ block p +]} ⊎ listed i).
    { unfold held. cbn in Hat. by destruct valid; cbn; rewrite Hat. }
    rewrite E. multiset_solver.
  - intros j [= <-]. cbn in He. destruct valid; cbn; (split_and!; [done|done|]); [|done]. intros [?|?]; [by apply Hl|congruence].
Qed.

Lemma lookup_changes registry strings w : let '((r, code), w') := hid_lookup registry strings w in
  owned w' = owned w ⊎ match r with Some x => held_entry x | None => ∅ end ∧
  match r with Some x => code = 0 ∧ wellformed strings x.2 | None => code ≠ 0 end.
Proof.
  unfold hid_lookup. pose proof (dictionary_changes (owned:=owned) registry w) as H1.
  destruct (EntryIDMatching registry w) as [[m|] w1]; destruct H1 as [H1 _]; cbn in H1; [|split; [multiset_solver|done]].
  assert (Hm : reference m ∈ owned w1) by (apply gmultiset_singleton_subseteq_l; multiset_solver).
  pose proof (service_changes (owned:=owned) m w1 Hm) as H2.
  destruct (GetMatchingService m w1) as [[s|] w2]; destruct H2 as [H2 _]; cbn in H2; [|split; [multiset_solver|done]].
  assert (Hs : owned w2 = owned w ⊎ {[+ port s +]}) by multiset_solver. clear H1 H2 Hm.
  assert (Hend : ∀ g w3, owned w3 = owned w2 ⊎ g → owned (ObjectRelease s w3) = owned w ⊎ g).
  { intros g w3 H. assert (Hp : port s ∈ owned w3) by (apply gmultiset_singleton_subseteq_l; multiset_solver).
    destruct (release_changes (owned:=owned) s w3 Hp) as [H5 _]. multiset_solver. }
  pose proof (alloc_changes (owned:=owned) 1 w2) as H3. destruct (alloc 1 w2) as [[p|] w3]; destruct H3 as [H3 _]; cbn [some_of] in H3.
  2: { split; [|done]. apply Hend. multiset_solver. }
  pose proof (conforms_changes (owned:=owned) s w3) as H4. destruct (ConformsTo s w3) as [hid w4]. destruct H4 as [H4 _]. cbn [snd] in H4.
  pose proof (fill_changes s strings w4) as H5. pose proof (fill_wellformed s strings w4) as Hw.
  assert (Hfree : ∀ w5, owned w5 = owned w4 → owned (ObjectRelease s (free p w5)) = owned w ⊎ ∅).
  { intros w5 H. apply Hend. assert (Hp : block p ∈ owned w5) by (apply gmultiset_singleton_subseteq_l; multiset_solver).
    destruct (free_changes (owned:=owned) p w5 Hp) as [H6 _]. multiset_solver. }
  destruct hid; [|by split; [apply Hfree|]].
  destruct (fill_entry s strings w4) as [[n|] w5]; destruct H5 as [H5 _].
  - split; [|split; [done|by eapply Hw]]. apply Hend. unfold held_entry. cbn [fst snd]. multiset_solver.
  - split; [|done]. apply Hfree. multiset_solver.
Qed.

(** The C side of the macOS inventory returns, holds what it returns and
    nothing else, and gives back exactly that. hid_enumerate, whatever the
    registry and the allocator answer, returns NULL and has kept nothing, or an
    inventory of at most 128 entries: then the process owns in addition the
    blocks of the inventory and, for each entry, its device and the copy of its
    descriptor - no service, no iterator, no property - and hid_inventory_free
    gives these back, once each. hid_lookup and hid_entry_free do the same for
    one entry; without an entry there is an error. What an entry tells is well
    formed: the numbers are in range where they are known, the strings end
    within their buffers and are not known unless they were asked for, the
    length of a descriptor is that of its copy, and an inventory that was cut
    short or failed does not claim to be complete. *)
Theorem inventory_storage_exact (strings : bool) (registry : Z) (w : W) :
  (∃ r w', hid_enumerate strings w = Some (r, w') ∧
     match r with
     | None => owned w' = owned w
     | Some i =>
         owned w' = owned w ⊎ held i ∧ len (items i) <= HID_MAX_DEVICES ∧ Forall (wellformed strings) (items i) ∧
         (is_limited i = true ∨ error i ≠ 0 → complete i = false) ∧
         ∀ w2, held i ⊆ owned w2 → owned w2 = owned (hid_inventory_free (Some i) w2) ⊎ held i
     end) ∧
  (let '((r, code), w') := hid_lookup registry strings w in
   match r with
   | None => owned w' = owned w ∧ code ≠ 0
   | Some x =>
       owned w' = owned w ⊎ held_entry x ∧ code = 0 ∧ wellformed strings x.2 ∧
       ∀ w2, held_entry x ⊆ owned w2 → owned w2 = owned (hid_entry_free (Some x) w2) ⊎ held_entry x
   end).
Proof.
  split.
  - destruct (enumerate_changes strings w) as (r & w' & E & Ho & Hr). exists r, w'. split; [exact E|].
    destruct r as [i|]; [|by rewrite (right_id_L ∅ (⊎)) in Ho]. destruct (Hr i eq_refl) as (H1 & H2 & H3).
    split_and!; [done..|]. intros w2 H. by apply ledger_back, inventory_free_changes.
  - pose proof (lookup_changes registry strings w) as H. destruct (hid_lookup registry strings w) as [[[x|] code] w'].
    + destruct H as (H1 & H2 & H3). split_and!; [done..|]. intros w2 Hx. by apply ledger_back, entry_free_changes.
    + destruct H as [H1 H2]. by rewrite (right_id_L ∅ (⊎)) in H1.
Qed.
End Ledger.
End DarwinRegistryProps.

(** ** A registry

    Two HID services, of which the second is gone before it can be looked at,
    and a ledger. *)
Module DarwinRegistrySim.
Import DarwinRegistry.
#[local] Open Scope string_scope.
#[local] Open Scope Z_scope.

(** The ledger, and the services that the iterator has still to give. *)
Record world := MkWorld { ledger : objects; services : list Z }.
Definition get (x : Z * Z) (w : world) : world := MkWorld (ledger w ⊎ {[+ x +]}) (services w).
Definition give (x : Z * Z) (w : world) : world := MkWorld (ledger w ∖ {[+ x +]}) (services w).
Definition property_of (key : string) : option property :=
  if String.eqb key "VendorID" then Some (Number (Some 0x1050))
  else if String.eqb key "ProductID" then Some (Number (Some 70000))
  else if String.eqb key "Transport" then Some (Text "USB")
  else if String.eqb key "SerialNumber" then Some (Text "42")
  else if String.eqb key "ReportDescriptor" then Some (Data [0x06; 0xd0; 0xf1])
  else None.

#[export] Instance registry : IORegistry world := {
  alloc _ w := (Some 1, get (block 1) w);
  realloc b _ w := (Some 2, get (block 2) (match b with Some b => give (block b) w | None => w end));
  free p w := give (block p) w;
  GetMatchingServices w := ((0, 9), get (port 9) (MkWorld (ledger w) [100; 101]));
  IteratorNext _ w :=
    match services w with [] => (None, w) | s :: ss => (Some s, get (port s) (MkWorld (ledger w) ss)) end;
  IteratorIsValid _ w := (true, w);
  ObjectRelease s w := give (port s) w;
  GetRegistryEntryID s w := (Some (s + 1000), w);
  DeviceCreate s w := if s =? 100 then (Some 7, get (reference 7) w) else (None, w);
  GetPath _ w := (Some "IOService:/key", w);
  GetProperty _ key w := (property_of key, w);
  SearchInterface _ w := (Some (8, Number (Some 2)), get (reference 8) w);
  CFRelease d w := give (reference d) w;
  EntryIDMatching _ w := (Some 6, get (reference 6) w);
  GetMatchingService m w := (Some 100, get (port 100) (give (reference m) w));
  ConformsTo _ w := (true, w);
  services_left w := length (services w);
}.

Lemma get_changes x w : changes ledger {[+ x +]} ∅ w (get x w).
Proof. split; [cbn; multiset_solver|done]. Qed.
Lemma give_changes x w : x ∈ ledger w → changes ledger ∅ {[+ x +]} w (give x w).
Proof. intros H%gmultiset_singleton_subseteq_l. split; [cbn; multiset_solver|done]. Qed.
Lemma same_changes w : changes ledger ∅ ∅ w w.
Proof. by split. Qed.

#[export] Instance registry_laws : RegistryLaws ledger.
Proof.
  split; try (intros; first [apply get_changes|by apply give_changes|apply same_changes]).
  - intros b n w H. cbn. destruct b as [b|]; [|apply get_changes]. split; [|done]. cbn in *. multiset_solver.
  - intros w. cbn. multiset_solver.
  - intros i w. cbn. destruct w as [l [|s ss]]; cbn; [by split; [split|intros []]|].
    split; [|cbn; lia]. split; [cbn; multiset_solver|cbn; lia].
  - intros s w. cbn. destruct (s =? 100); [apply get_changes|apply same_changes].
  - intros m w H%gmultiset_singleton_subseteq_l. split; [cbn; multiset_solver|done].
Qed.

Definition listed_key : native_inventory := Eval vm_compute in
  default (MkNativeInventory 0 None [] true false 0) (hid_enumerate true (MkWorld ∅ []) ≫= fst).

Lemma inventory_storage_exact_witness : ∃ w',
  hid_enumerate true (MkWorld ∅ []) = Some (Some listed_key, w') ∧
  length (items listed_key) = 1%nat ∧ complete listed_key = false ∧
  ledger w' = ledger (hid_inventory_free (Some listed_key) w') ⊎ DarwinRegistryProps.held listed_key.
Proof.
  destruct (DarwinRegistryProps.inventory_storage_exact ledger true 1100 (MkWorld ∅ [])) as [(r & w' & E & H) _].
  assert (Hr : fst <$> hid_enumerate true (MkWorld ∅ []) = Some (Some listed_key)) by (vm_compute; reflexivity).
  rewrite E in Hr. cbn in Hr. injection Hr as ->. destruct H as (Ho & _ & _ & _ & Hf).
  exists w'. split_and!; [exact E|reflexivity|reflexivity|]. apply Hf. rewrite Ho. cbn. multiset_solver.
Defined.
End DarwinRegistrySim.
