(* ===== verification/DarwinLifecycle.v ===== *)
(** * The life of a macOS connection: hid_connect, its threads, hid_disconnect

    What DarwinConnection leaves out: the storage, the lock and the condition,
    the reference to the device, the starting and joining of the two threads,
    and what the reader does with the device before and after its loop.  The
    opener, the closer, the threads and the callers are interleaved; while the
    loops run they take the turns of DarwinConnection. *)
From S2P Require Import Prelude Descriptors DarwinBinding DarwinConnection.
From stdpp Require Import relations.
#[local] Open Scope Z_scope.

Module DarwinLifecycle.
Import DarwinConnection.

Definition kIOReturnNoMemory : Z := 0xe00002bd.

(** Where the caller of [hid_connect], and then of [hid_disconnect], is: each
    constructor is the next call or locked region.  The errors are [*io_error]
    and [*thread_error]. *)
Inductive owner_pc :=
  | OCheck | OAlloc | OMutex | OCond | OReader | OReady | OWriter
  | OStop (thread : Z) | OJoin (io thread : Z)
  | ODestroyCond (io thread : Z) | ODestroyLock (io thread : Z) | OFree (io thread : Z) | ONull (io thread : Z)
  | OConnected
  | DJoinWriter | DJoinReader | DRelease (result : Z) | DDestroyCond (result : Z) | DDestroyLock (result : Z)
  | DFree (result : Z) | ODisconnected (result : Z).

(** The reader thread: [RLoops] is its loop, [RDone] a thread that is over and
    not joined. *)
Inductive reader_life :=
  | RNone | ROpen | RRegister | RPublish (opened : Z) | RLoops | RUnregister | RClose | RClear | RDone | RJoined.
Inductive writer_life := WNone | WStarted | WJoined.

(** [alive] is the storage, [refs] counts the references to the device that
    the connection has; [opened] and [registered] are the device's. *)
Record life := MkLife {
  sys : system; owner : owner_pc; rd : reader_life; wr : writer_life;
  alive : bool; refs : Z; lock : bool; cond : bool;
  runloop : bool; ready : bool; opened : bool; registered : bool; close_error : Z;
}.

Definition begin (input output : ReportSpec) : life :=
  MkLife (start input output) OCheck RNone WNone false 0 false false false false false false 0.

Definition with_sys (s : system) (l : life) : life :=
  MkLife s (owner l) (rd l) (wr l) (alive l) (refs l) (lock l) (cond l) (runloop l) (ready l) (opened l) (registered l)
    (close_error l).
Definition at_owner (o : owner_pc) (l : life) : life :=
  MkLife (sys l) o (rd l) (wr l) (alive l) (refs l) (lock l) (cond l) (runloop l) (ready l) (opened l) (registered l)
    (close_error l).
Definition at_reader (r : reader_life) (l : life) : life :=
  MkLife (sys l) (owner l) r (wr l) (alive l) (refs l) (lock l) (cond l) (runloop l) (ready l) (opened l) (registered l)
    (close_error l).
Definition at_writer (w : writer_life) (l : life) : life :=
  MkLife (sys l) (owner l) (rd l) w (alive l) (refs l) (lock l) (cond l) (runloop l) (ready l) (opened l) (registered l)
    (close_error l).
Definition with_storage (a : bool) (n : Z) (l : life) : life :=
  MkLife (sys l) (owner l) (rd l) (wr l) a n (lock l) (cond l) (runloop l) (ready l) (opened l) (registered l)
    (close_error l).
Definition with_sync (m c : bool) (l : life) : life :=
  MkLife (sys l) (owner l) (rd l) (wr l) (alive l) (refs l) m c (runloop l) (ready l) (opened l) (registered l)
    (close_error l).
Definition with_loop (b r : bool) (l : life) : life :=
  MkLife (sys l) (owner l) (rd l) (wr l) (alive l) (refs l) (lock l) (cond l) b r (opened l) (registered l)
    (close_error l).
Definition with_device (o r : bool) (e : Z) (l : life) : life :=
  MkLife (sys l) (owner l) (rd l) (wr l) (alive l) (refs l) (lock l) (cond l) (runloop l) (ready l) o r e.

Definition with_conn (c : hid_connection) (s : system) : system :=
  MkSystem c (reader s) (writer s) (call s) (accepted s) (returned s) (sent s) (results s).
Definition exited (s : system) : system :=
  MkSystem (conn s) RExited (writer s) (call s) (accepted s) (returned s) (sent s) (results s).
(** [c->stop = 1]; the run loop is stopped where there is one. *)
Definition set_stop (c : hid_connection) : hid_connection :=
  MkConnection (input_id c) (input_size c) (output_id c) (output_size c) (queue c) (head c) (count c)
    (terminal c) (io_error c) true (write_pending c) (write_done c) (writer_stop c) (writer_dead c)
    (output_buffer c) (write_result c).
Definition stopping (l : life) : life := with_sys (with_conn (set_stop (conn (sys l))) (sys l)) l.

(** ** The opener and the closer

    [answer] is what the call of the turn returned: for [calloc] a pointer,
    otherwise an error number. *)
Definition owner_turn (input output : ReportSpec) (answer : Z) (l : life) : option life :=
  match owner l with
  | OCheck =>
      Some (at_owner (if refuses_sizes input output then ONull kIOReturnBadArgument 0 else OAlloc) l)
  | OAlloc =>
      Some (if answer =? 0 then at_owner (ONull kIOReturnNoMemory 0) l
            else at_owner OMutex (with_sys (start input output) (with_storage true 1 l)))
  | OMutex => Some (if answer =? 0 then at_owner OCond (with_sync true false l) else at_owner (OFree 0 answer) l)
  | OCond => Some (if answer =? 0 then at_owner OReader (with_sync true true l) else at_owner (ODestroyLock 0 answer) l)
  | OReader => Some (if answer =? 0 then at_owner OReady (at_reader ROpen l) else at_owner (ODestroyCond 0 answer) l)
  | OReady =>
      if ready l then
        let io := io_error (conn (sys l)) in
        Some (if io =? 0 then at_owner OWriter l else at_owner (OJoin io 0) (stopping l))
      else None
  | OWriter => Some (if answer =? 0 then at_owner OConnected (at_writer WStarted l) else at_owner (OStop answer) l)
  | OStop thread => Some (at_owner (OJoin 0 thread) (stopping l))
  | OJoin io thread =>
      match rd l with RDone => Some (at_owner (ODestroyCond io thread) (at_reader RJoined l)) | _ => None end
  | ODestroyCond io thread => Some (at_owner (ODestroyLock io thread) (with_sync (lock l) false l))
  | ODestroyLock io thread => Some (at_owner (OFree io thread) (with_sync false (cond l) l))
  | OFree io thread => Some (at_owner (ONull io thread) (with_storage false (refs l - 1) l))
  | OConnected =>
      match call (sys l) with
      | None => Some (at_owner DJoinWriter (with_sys (with_conn (set_stops (conn (sys l))) (sys l)) l))
      | Some _ => None
      end
  | DJoinWriter =>
      match writer (sys l) with WExited => Some (at_owner DJoinReader (at_writer WJoined l)) | _ => None end
  | DJoinReader =>
      match rd l with RDone => Some (at_owner (DRelease (close_error l)) (at_reader RJoined l)) | _ => None end
  | DRelease r => Some (at_owner (DDestroyCond r) (with_storage (alive l) (refs l - 1) l))
  | DDestroyCond r => Some (at_owner (DDestroyLock r) (with_sync (lock l) false l))
  | DDestroyLock r => Some (at_owner (DFree r) (with_sync false (cond l) l))
  | DFree r => Some (at_owner (ODisconnected r) (with_storage false (refs l) l))
  | ONull _ _ | ODisconnected _ => None
  end.

(** ** The reader

    [answer] is that of IOHIDDeviceOpen or IOHIDDeviceClose. *)
Definition reader_turn (answer : Z) (l : life) : option life :=
  match rd l with
  | ROpen =>
      Some (if answer =? 0 then at_reader RRegister (with_device true false 0 l) else at_reader (RPublish answer) l)
  | RRegister => Some (at_reader (RPublish 0) (with_device (opened l) true (close_error l) l))
  | RPublish o =>
      Some (if o =? 0 then at_reader RLoops (with_loop true true l)
            else at_reader RDone (with_sys (with_conn (fail_locked (-1) o (conn (sys l))) (sys l)) (with_loop false true l)))
  | RLoops => if stop (conn (sys l)) then Some (at_reader RUnregister (with_sys (exited (sys l)) l)) else None
  | RUnregister => Some (at_reader RClose (with_device (opened l) false (close_error l) l))
  | RClose => Some (at_reader RClear (with_device false (registered l) answer l))
  | RClear => Some (at_reader RDone (with_loop false (ready l) l))
  | RNone | RDone | RJoined => None
  end.

(** ** Everything together

    The callbacks run in the loop of the reader, and callers call while they
    have the connection; the supervisor closes it when it has no call under way
    (theorem conn_driver_contract). *)
Section Steps.
Variables input output : ReportSpec.

Inductive life_step : life → life → Prop :=
  | owner_moves answer l l' : owner_turn input output answer l = Some l' → life_step l l'
  | reader_moves answer l l' : reader_turn answer l = Some l' → life_step l l'
  | callback_runs l s : rd l = RLoops → turn LoopCallback (sys l) s → life_step l (with_sys s l)
  | writer_works l s : wr l = WStarted → turn WriterThread (sys l) s → life_step l (with_sys s l)
  | caller_calls l s : owner l = OConnected → turn Callers (sys l) s → life_step l (with_sys s l).

Definition lives (l : life) : Prop := rtc life_step (begin input output) l.
End Steps.

(** Whether hid_connect or hid_disconnect has returned. *)
Definition over (o : owner_pc) : bool := match o with ONull _ _ | ODisconnected _ => true | _ => false end.
Definition settled (o : owner_pc) : bool := match o with OConnected => true | _ => over o end.
End DarwinLifecycle.
