(* ===== verification/DarwinLifeProps.v ===== *)
(** * What holds over the life of a macOS connection

    An invariant ties what exists to where the owner, the reader and the writer
    are; the work of the threads is a run of DarwinConnection, so that its
    theorems hold of the connections that hid_connect makes; and hid_connect
    and hid_disconnect return. *)
From S2P Require Import Prelude Descriptors DarwinBinding DarwinConnection DarwinConnProps DarwinLifecycle.
From stdpp Require Import relations.
#[local] Open Scope Z_scope.

Module DarwinLifeProps.
Import DarwinConnection DarwinConnProps DarwinLifecycle.

(** ** The invariant *)
Definition storage_at (o : owner_pc) : bool * Z * bool * bool :=
  match o with
  | OCheck | OAlloc | ONull _ _ | ODisconnected _ => (false, 0, false, false)
  | OMutex | OFree _ _ => (true, 1, false, false)
  | OCond | ODestroyLock _ _ => (true, 1, true, false)
  | DDestroyCond _ => (true, 0, true, true)
  | DDestroyLock _ => (true, 0, true, false)
  | DFree _ => (true, 0, false, false)
  | _ => (true, 1, true, true)
  end.
Definition device_at (r : reader_life) : bool * bool * bool * bool :=
  match r with
  | RNone | ROpen => (false, false, false, false)
  | RRegister => (false, false, true, false)
  | RPublish o => (false, false, o =? 0, o =? 0)
  | RLoops | RUnregister => (true, true, true, true)
  | RClose => (true, true, true, false)
  | RClear => (true, true, false, false)
  | RDone | RJoined => (false, true, false, false)
  end.
Definition reader_at (o : owner_pc) (r : reader_life) : bool :=
  match o with
  | OCheck | OAlloc | OMutex | OCond | OReader => match r with RNone => true | _ => false end
  | OReady => match r with ROpen | RRegister | RPublish _ | RLoops | RDone => true | _ => false end
  | OWriter | OStop _ | OConnected => match r with RLoops => true | _ => false end
  | OJoin _ _ | DJoinWriter | DJoinReader =>
      match r with RLoops | RUnregister | RClose | RClear | RDone => true | _ => false end
  | ODestroyCond _ _ | ODestroyLock _ _ | OFree _ _ | ONull _ _ => match r with RNone | RJoined => true | _ => false end
  | _ => match r with RJoined => true | _ => false end
  end.
Definition writer_at (o : owner_pc) : writer_life :=
  match o with
  | OConnected | DJoinWriter => WStarted
  | DJoinReader | DRelease _ | DDestroyCond _ | DDestroyLock _ | DFree _ | ODisconnected _ => WJoined
  | _ => WNone
  end.
(** Whether the connection is being given up, or closed. *)
Definition failing (o : owner_pc) : bool :=
  match o with
  | OJoin _ _ | ODestroyCond _ _ | ODestroyLock _ _ | OFree _ _ | ONull _ _ => true
  | _ => false
  end.
Definition closing (o : owner_pc) : bool :=
  match o with
  | DJoinWriter | DJoinReader | DRelease _ | DDestroyCond _ | DDestroyLock _ | DFree _ | ODisconnected _ => true
  | _ => false
  end.
Definition before_loop (r : reader_life) : bool :=
  match r with RNone | ROpen | RRegister | RPublish _ => true | _ => false end.
Definition errors_at (o : owner_pc) : Prop :=
  match o with
  | OJoin io thread | ODestroyCond io thread | ODestroyLock io thread | OFree io thread | ONull io thread =>
      io ≠ 0 ∨ thread ≠ 0
  | OStop thread => thread ≠ 0
  | _ => True
  end.
Definition result_at (l : life) : Prop :=
  match owner l with
  | DRelease r | DDestroyCond r | DDestroyLock r | DFree r | ODisconnected r => r = close_error l
  | _ => True
  end.

Section Invariant.
Variables input output : ReportSpec.

Record life_ok (l : life) : Prop := {
  ok_storage : (alive l, refs l, lock l, cond l) = storage_at (owner l);
  ok_device : (runloop l, ready l, opened l, registered l) = device_at (rd l);
  ok_reader : reader_at (owner l) (rd l) = true;
  ok_writer : wr l = writer_at (owner l);
  ok_start : before_loop (rd l) = true → failing (owner l) = false → sys l = start input output;
  ok_loop : rd l = RLoops → reader (sys l) = RLoop;
  ok_open : owner l = OReady → rd l = RDone → io_error (conn (sys l)) ≠ 0;
  ok_stop : match owner l with
            | OJoin _ _ => stop (conn (sys l)) = true
            | o => (stop (conn (sys l)), writer_stop (conn (sys l))) = (closing o, closing o) ∨ failing o = true
            end;
  ok_call : closing (owner l) = true → call (sys l) = None;
  ok_written : closing (owner l) = true → owner l ≠ DJoinWriter → writer (sys l) = WExited;
  ok_errors : errors_at (owner l);
  ok_result : result_at l;
  ok_reach : failing (owner l) = false → reachable input output (sys l);
}.

Lemma begin_ok : life_ok (begin input output).
Proof. split; try done; cbn; first [by left|by intros; apply rtc_refl]. Qed.

(** Turns of the loops leave to the closer what is the closer's. *)
Lemma turn_keeps a s s' : turn a s s' → a = LoopCallback ∨ a = WriterThread ∨ a = Callers →
  reader s' = reader s ∧ stop (conn s') = stop (conn s) ∧ writer_stop (conn s') = writer_stop (conn s) ∧
  (a ≠ Callers → call s' = call s) ∧ (a ≠ WriterThread → writer s' = writer s).
Proof.
  assert (Hs : ∀ c c', same_writes c c' → stop c' = stop c ∧ writer_stop c' = writer_stop c) by (by intros c c' [= _ _ _ _ _ _ E1 E2]).
  destruct 1 as [s result typ id report _ c|s _|s _ Hst|s status r c _ Hread|s data r c _ Hw|s data c _ Hw| | |s r _ c| | |];
    intros Ha; cbn; try (by destruct Ha as [|[|]]).
  - destruct (Hs _ _ (input_callback_writes result typ id report (conn s))). by split_and!.
  - destruct (Hs _ _ (fail_locked_writes (-1) DarwinBinding.kIOReturnNoDevice (conn s))). by split_and!.
  - destruct (Hs _ _ (hid_read_writes _ _ _ _ Hread)). by split_and!.
  - apply hid_write_spec in Hw as [-> _]. by split_and!.
  - apply hid_write_spec in Hw as [-> _]. by split_and!.
  - destruct (write_finished_writes r (conn s)) as (_ & _ & _ & _ & _ & H1 & H2 & _). by split_and!.
Qed.

Lemma disconnect_reachable s : call s = None → reachable input output s →
  reachable input output (with_conn (set_stops (conn s)) s).
Proof.
  intros Hc Hs. eapply rtc_r; [exact Hs|]. exists Closer. unfold with_conn. rewrite Hc. by apply disconnect_begins.
Qed.
Lemma exited_reachable s : reader s = RLoop → stop (conn s) = true → reachable input output s →
  reachable input output (exited s).
Proof. intros Hr Hst Hs. eapply rtc_r; [exact Hs|]. exists ReaderExit. by apply reader_stops. Qed.

(** The opener or the closer moves. *)
Lemma owner_ok answer l l' : owner_turn input output answer l = Some l' → life_ok l → life_ok l'.
Proof.
  intros E [H1 H2 H3 H4 H5 H6 H7 H8 H9 H10 H11 H12 H13].
  destruct l as [s o r w al rf lk cd rl rdy opn reg ce]. cbn in *.
  destruct o; cbn in *; repeat case_match; simplify_eq/=.
  all: split; cbn; try done; try congruence.
  all: rewrite ?Z.eqb_neq, ?Z.eqb_eq in *; try first [done|by left|by right|by destruct (H7 eq_refl eq_refl)|by intros; apply H10].
  - intros _. apply disconnect_reachable; [done|by apply H13].
Qed.

(** A failed IOHIDDeviceOpen looks like a callback with an error. *)
Lemma open_fails_reachable o s : o ≠ 0 → s = start input output →
  reachable input output (with_conn (fail_locked (-1) o (conn s)) s).
Proof.
  intros Ho ->. apply rtc_once. exists LoopCallback.
  pose proof (input_arrives (start input output) o 0 0 [] eq_refl) as Hi. cbv zeta in Hi.
  assert (E : input_callback o 0 0 [] (conn (start input output)) = fail_locked (-1) o (conn (start input output))).
  { unfold input_callback. cbn. by rewrite (proj2 (Z.eqb_neq _ _) Ho). }
  rewrite E in Hi. exact Hi.
Qed.

Lemma reader_ok answer l l' : reader_turn answer l = Some l' → life_ok l → life_ok l'.
Proof.
  intros E [H1 H2 H3 H4 H5 H6 H7 H8 H9 H10 H11 H12 H13].
  destruct l as [s o r w al rf lk cd rl rdy opn reg ce]. cbn in *.
  destruct r; cbn in *; repeat case_match; simplify_eq/=.
  all: split; cbn; try done; try congruence.
  all: try (destruct H8 as [[= ? ?]|]; congruence).
  all: try (intros; apply exited_reachable; auto).
  all: rewrite ?Z.eqb_neq in *; pose proof (H5 eq_refl eq_refl) as ->; try done.
  intros _. by apply open_fails_reachable.
Qed.

(** A loop moves, or a caller. *)
Lemma work_ok a s l : turn a (sys l) s →
  a = LoopCallback ∧ rd l = RLoops ∨ a = WriterThread ∧ wr l = WStarted ∨ a = Callers ∧ owner l = OConnected →
  life_ok l → life_ok (with_sys s l).
Proof.
  intros Ht Ha [H1 H2 H3 H4 H5 H6 H7 H8 H9 H10 H11 H12 H13].
  destruct (turn_keeps a (sys l) s Ht) as (E1 & E2 & E3 & E4 & E5); [naive_solver|].
  destruct l as [s0 o r w al rf lk cd rl rdy opn reg ce]. cbn in *.
  assert (before_loop r = false ∧ (a = Callers → closing o = false) ∧ (o = OReady → r ≠ RDone) ∧
          (a = WriterThread → closing o = true → o = DJoinWriter)) as (B1 & B2 & B3 & B4).
  { destruct Ha as [[-> ->]|[[-> ->]|[-> ->]]]; [done| |by destruct r]. destruct o; try done; by destruct r. }
  split; cbn; try done.
  - by rewrite B1.
  - intros Hr. by rewrite E1, H6.
  - intros Ho Hr. by destruct (B3 Ho).
  - by rewrite E2, E3.
  - intros Hc. rewrite E4; [by apply H9|]. intros ->. by rewrite B2 in Hc.
  - intros Hc Hn. rewrite E5; [by apply H10|]. intros ->. by destruct Hn; apply B4.
  - intros Hf. eapply rtc_r; [by apply H13|by exists a].
Qed.

Lemma life_step_ok l l' : life_step input output l l' → life_ok l → life_ok l'.
Proof.
  destruct 1; [by eapply owner_ok|by eapply reader_ok|..]; eapply work_ok; eauto.
Qed.
Lemma lives_ok l : lives input output l → life_ok l.
Proof.
  intros Hl. assert (H : ∀ l0, rtc (life_step input output) l0 l → life_ok l0 → life_ok l).
  { induction 1 as [|l1 l2 l3 H12 _ IH]; [done|]. intros. by eapply IH, life_step_ok. }
  by apply (H _ Hl), begin_ok.
Qed.

Definition running (r : reader_life) : bool := match r with RNone | RJoined => false | _ => true end.
(** The connection is no more: nothing of it is left. *)
Definition nothing_left (l : life) : Prop :=
  (alive l, refs l, lock l, cond l) = (false, 0, false, false) ∧
  (runloop l, opened l, registered l) = (false, false, false) ∧ running (rd l) = false ∧ wr l ≠ WStarted.

(** C27: a macOS connection is built and torn down safely. However the
    opener, the two threads, the callbacks, the callers and the closer
    interleave, and whatever the calls of the system answer: while a thread has
    not been joined or the connection is in the hands of its owner, its storage,
    lock and condition exist and it holds one reference to the device; a run
    loop that can be stopped is that of a running thread, and callbacks are
    registered only with an open device. hid_connect returns NULL with an error
    and with nothing left, or a connection whose reader is in its loop; what
    the threads then do is a run of the connection as the other theorems take
    it; and hid_disconnect leaves nothing and returns what IOHIDDeviceClose
    answered. *)
Theorem connection_lifecycle l : lives input output l →
  (running (rd l) = true ∨ wr l = WStarted ∨ owner l = OConnected →
     (alive l, refs l, lock l, cond l) = (true, 1, true, true)) ∧
  (runloop l = true → running (rd l) = true) ∧ (registered l = true → opened l = true ∧ running (rd l) = true) ∧
  match owner l with
  | ONull io thread => (io ≠ 0 ∨ thread ≠ 0) ∧ nothing_left l
  | OConnected => rd l = RLoops ∧ opened l = true ∧ stop (conn (sys l)) = false ∧ reachable input output (sys l)
  | ODisconnected r => r = close_error l ∧ nothing_left l ∧ reachable input output (sys l)
  | _ => True
  end.
Proof.
  intros [H1 H2 H3 H4 _ _ _ H8 _ _ H11 H12 H13]%lives_ok.
  destruct l as [s o r w al rf lk cd rl rdy opn reg ce]. unfold nothing_left, result_at in *. cbn in *.
  split; [|split; [|split]].
  - intros Hu. subst w. rewrite H1. by destruct Hu as [Hr|[Hw|Ho]], o; cbn in *; try done; destruct r.
  - intros ->. by destruct r.
  - intros ->. destruct r as [| | |[| |]| | | | | |]; by simplify_eq/=.
  - destruct o; try done.
    + split; [done|]. destruct r; by simplify_eq/=.
    + destruct r; try done. simplify_eq/=. destruct H8 as [[= -> _]|]; [|done]. split_and!; try done. by apply H13.
    + destruct r; try done. simplify_eq/=. split_and!; try done. by apply H13.
Qed.

(** ** The calls return *)
Definition owner_rank (o : owner_pc) : Z :=
  match o with
  | OCheck => 20 | OAlloc => 19 | OMutex => 18 | OCond => 17 | OReader => 16 | OReady => 15 | OWriter => 14
  | OStop _ => 13 | OJoin _ _ => 12 | ODestroyCond _ _ => 11 | ODestroyLock _ _ => 10 | OFree _ _ => 9
  | OConnected => 8 | DJoinWriter => 7 | DJoinReader => 6 | DRelease _ => 5 | DDestroyCond _ => 4
  | DDestroyLock _ => 3 | DFree _ => 2 | ONull _ _ | ODisconnected _ => 0
  end.
Definition reader_rank (r : reader_life) : Z :=
  match r with
  | ROpen => 7 | RRegister => 6 | RPublish _ => 5 | RLoops => 4 | RUnregister => 3 | RClose => 2 | RClear => 1
  | RNone | RDone | RJoined => 0
  end.
Definition writer_rank (w : writer_pc) : Z := match w with WExited => 0 | _ => 1 end.
Definition rank (l : life) : Z := 10 * owner_rank (owner l) + reader_rank (rd l) + writer_rank (writer (sys l)).

Lemma owner_rank_step answer l l' : owner_turn input output answer l = Some l' → rank l' < rank l.
Proof.
  destruct l as [s o r w al rf lk cd rl rdy opn reg ce]. unfold owner_turn, rank.
  assert (Hw : 0 <= writer_rank (writer s) <= 1) by (by destruct (writer s)).
  assert (Hr : 0 <= reader_rank r) by (by destruct r).
  destruct o; cbn [owner sys rd]; repeat case_match; intros [= <-]; subst; cbn -[Z.mul writer_rank writer]; try (cbn; lia).
  match goal with H : writer _ = _ |- _ => rewrite H end. cbn. lia.
Qed.
Lemma reader_rank_step answer l l' : reader_turn answer l = Some l' → rank l' < rank l.
Proof.
  destruct l as [s o r w al rf lk cd rl rdy opn reg ce]. unfold reader_turn, rank.
  destruct r; cbn [rd sys]; repeat case_match; intros [= <-]; subst; cbn -[Z.mul writer_rank writer]; try (cbn; lia).
Qed.

(** After the request to close, the writer has nothing to do but to stop. *)
Lemma closing_writer l : life_ok l → owner l = DJoinWriter →
  writer (sys l) = WExited ∨
  writer (sys l) = WIdle ∧ writer_stop (conn (sys l)) = true.
Proof.
  intros [_ _ _ _ _ _ _ H8 H9 _ _ _ H13] Ho. rewrite Ho in *.
  destruct (writes_kept _ _ (H13 eq_refl) (writes_start input output)) as [[Hc _ _ _ _ _] _].
  rewrite (H9 eq_refl) in Hc. destruct Hc as [_ [Hc|Hc]]; [right|by left].
  destruct H8 as [[= _ E]|]; [by split|done].
Qed.
Lemma writer_turn_rank s s' : turn WriterThread s s' → writer s = WIdle → writer_stop (conn s) = true → writer s' = WExited.
Proof. inversion 1; cbn; intros; congruence. Qed.

(** The turns that bring hid_connect or hid_disconnect further. *)
Definition proceeds (answer : Z) (l l' : life) : Prop :=
  owner_turn input output answer l = Some l' ∨ reader_turn answer l = Some l' ∨
  ∃ s, wr l = WStarted ∧ turn WriterThread (sys l) s ∧ l' = with_sys s l.

Lemma can_proceed answer l : life_ok l → settled (owner l) = false → ∃ l', proceeds answer l l'.
Proof.
  intros Hok Hs. pose proof (closing_writer l Hok) as Hw. destruct Hok as [_ H2 H3 H4 _ _ _ H8 H9 _ _ _ _].
  assert (Hread : rd l = RLoops → stop (conn (sys l)) = true → ∃ l', reader_turn answer l = Some l').
  { intros Hr Hst. unfold reader_turn. rewrite Hr, Hst. by eexists. }
  assert (Hlast : (∀ o, owner l = o → rd l = RDone → ∃ l', owner_turn input output answer l = Some l') →
    reader_at (OJoin 0 0) (rd l) = true → stop (conn (sys l)) = true → ∃ l', proceeds answer l l').
  { intros Hd Hr Hst. destruct (rd l) eqn:E; try done;
      first [destruct (Hd _ eq_refl eq_refl) as [l' Hl]; exists l'; by left
            |destruct (Hread eq_refl Hst) as [l' Hl]; exists l'; right; by left
            |eexists; right; left; unfold reader_turn; by rewrite E]. }
  destruct (owner l) eqn:Eo; try done; try (eexists; left; unfold owner_turn; rewrite Eo; reflexivity).
  - destruct (ready l) eqn:Er; [eexists; left; unfold owner_turn; by rewrite Eo, Er|].
    destruct (rd l) eqn:E; try done; eexists; right; left; unfold reader_turn; by rewrite E.
  - apply Hlast; [|done|done]. intros o _ Hr. unfold owner_turn. rewrite Eo, Hr. by eexists.
  - destruct (Hw eq_refl) as [Hx|[Hx Hst]].
    + eexists. left. unfold owner_turn. by rewrite Eo, Hx.
    + eexists. right; right. eexists. split; [done|]. split; [by apply writer_stops|done].
  - apply Hlast; [|done|by destruct H8 as [[= ? _]|]]. intros o _ Hr. unfold owner_turn. rewrite Eo, Hr. by eexists.
Qed.

(** C28: hid_connect and hid_disconnect return. Until the one or the other has,
    there is a turn that brings it further, whatever the calls of the system
    answer: the opener never waits for a reader that is gone, nor a join for a
    thread that was not told to stop; each such turn lowers a rank of at
    most 300, and the only other steps are callbacks, which change neither the
    rank nor where anybody is. *)
Theorem connection_calls_return l : lives input output l → settled (owner l) = false →
  0 <= rank l <= 300 ∧ (∀ answer, ∃ l', proceeds answer l l') ∧
  ∀ l', life_step input output l l' →
    rank l' < rank l ∨ rank l' = rank l ∧ ∃ s, rd l = RLoops ∧ turn LoopCallback (sys l) s ∧ l' = with_sys s l.
Proof.
  intros Hl%lives_ok Hs. split; [|split; [intros; by apply can_proceed|]].
  { unfold rank. destruct (owner l), (rd l), (writer (sys l)); cbn; lia. }
  destruct 1 as [answer l l' E|answer l l' E|l s Hr Ht|l s Hw Ht|l s Ho Ht].
  - left. by eapply owner_rank_step.
  - left. by eapply reader_rank_step.
  - right. split; [|by exists s]. destruct (turn_keeps _ _ _ Ht) as (_ & _ & _ & _ & E); [by left|].
    unfold rank. cbn. by rewrite E.
  - left. assert (Ho : owner l = DJoinWriter). { destruct Hl as [_ _ _ H4 _ _ _ _ _ _ _ _ _]. rewrite H4 in Hw. by destruct (owner l). }
    destruct (closing_writer l Hl Ho) as [E|[E1 E2]].
    + inversion Ht; congruence.
    + pose proof (writer_turn_rank _ _ Ht E1 E2) as E. unfold rank. cbn. rewrite E, E1. cbn. lia.
  - by rewrite Ho in Hs.
Qed.

End Invariant.
End DarwinLifeProps.
