(* ===== verification/DarwinSim.v ===== *)
(** * A macOS host

    The C side of the binding for a machine with one security key, and a run
    of its connection, for the witnesses of DarwinProps, DarwinConnProps and
    DarwinLifeProps. *)
From S2P Require Import Prelude GoErrors GoText GoEncoding GoIO Descriptors Registry ReportDesc HidConnection.
From S2P Require Import HidNative DarwinBinding DarwinProps DarwinConnection DarwinConnProps.
From S2P Require Import DarwinLifecycle DarwinLifeProps.
From stdpp Require Import relations.
#[local] Open Scope Z_scope.

Module DarwinSim.
Import DarwinBinding.

(** One Application collection of the FIDO usage, with 64-byte reports. *)
Definition fido_descriptor : bytes :=
  [0x06; 0xd0; 0xf1; 0x09; 0x01; 0xa1; 0x01; 0x09; 0x20; 0x15; 0x00; 0x26; 0xff; 0x00; 0x75; 0x08; 0x95; 0x40;
   0x81; 0x02; 0x09; 0x21; 0x15; 0x00; 0x26; 0xff; 0x00; 0x75; 0x08; 0x95; 0x40; 0x91; 0x02; 0xc0].
Definition entry_of (registry : Z) (d : bytes) : hid_entry :=
  MkEntry registry 3 0x1050 0x0407 0 1 "IOService:/key" "" "" "" d (len d).
Definition key_entry : hid_entry := entry_of 0x100000abc fido_descriptor.
Definition broken_entry : hid_entry := entry_of 0x100000abd [0xc0].

(** The world is what the process owns; storage is named by [next]. *)
Definition next (w : gset (Z * Z)) : Z := infinite_fresh (elements (set_map snd w : gset Z)).
Lemma next_unowned t w : (t, next w) ∉ w.
Proof.
  intros H. apply (infinite_is_fresh (elements (set_map snd w : gset Z))).
  apply elem_of_elements, elem_of_map. by exists (t, next w).
Qed.

#[local] Instance host : IOHid (gset (Z * Z)) := {|
  hid_enumerate _ w :=
    (Some (next w, MkInventory [broken_entry; key_entry] true false 0), {[an_inventory (next w)]} ∪ w);
  hid_inventory_free p w := w ∖ {[an_inventory p]};
  hid_lookup registry _ w :=
    if registry =? registry_id key_entry then ((Some (next w, key_entry), 0), {[an_entry (next w)]} ∪ w)
    else ((None, kIOReturnNoDevice), w);
  hid_entry_free p w := w ∖ {[an_entry p]};
  hid_connect _ _ _ w := ((Some (next w), 0, 0), {[a_connection (next w)]} ∪ w);
  hid_read _ _ w := ((0, 0, replicate 64 7), w);
  hid_write _ _ w := (DarwinConnection.protected_write 0 0 0, w);
  hid_disconnect c w := (0, w ∖ {[a_connection c]});
  hid_error_message _ := "error";
  CBytes _ w := (Some (next w), {[a_buffer (next w)]} ∪ w);
  C_free b w := w ∖ {[a_buffer b]};
  errno_text _ := "errno";
|}.
#[local] Instance host_text : ErrorText := λ e, match e with EMsg m => m | _ => "error" end.

#[local] Instance host_storage : StorageLaws (λ w, w).
Proof.
  constructor; intros; try done; simpl; try (by split; [apply next_unowned|]).
  destruct (_ =? _); [by split; [apply next_unowned|]|done].
Qed.
#[local] Instance host_evidence : EvidenceLaw.
Proof. intros c data w. apply DarwinConnProps.protected_write_evidence. Qed.

Definition wanted : Endpoint := with_id (endpointID (registry_id key_entry) 0) (endpoint key_entry).
Definition key : device := MkDev 1 wanted (MkLayout (MkSpec 0 64) (MkSpec 0 64)).

Lemma darwin_open_owned_witness :
  ∃ d w', Open wanted ∅ = Some (Ok d, w') ∧ (Close d w').2 = ∅ ∧ d_layout d = MkLayout (MkSpec 0 64) (MkSpec 0 64).
Proof.
  destruct (DarwinOwnership.darwin_open_owned (λ w, w) wanted ∅) as (r & w' & Ho & H).
  destruct r as [d|e]; [|exfalso; vm_compute in Ho; discriminate Ho].
  exists d, w'. split; [exact Ho|]. split; [exact (proj1 (proj2 H))|].
  assert (E : (r ← Open wanted ∅; Some (match r.1 with Ok d => Some (d_layout d) | Err _ => None end)) =
    Some (Some (MkLayout (MkSpec 0 64) (MkSpec 0 64)))) by (vm_compute; reflexivity).
  rewrite Ho in E. cbn in E. by injection E.
Defined.

Lemma darwin_inventory_exact_witness :
  ∃ s w', Enumerate true ∅ = Some ((s, None), w') ∧ w' = ∅ ∧ len (Endpoints s) = 2 ∧ Complete s = false.
Proof.
  destruct (DarwinInventory.darwin_inventory_exact (λ w, w) true ∅) as (s & err & w' & He & Ho & _ & H).
  cbn in H. destruct H as (-> & Hs & _). exists s, w'. split; [exact He|]. split; [exact Ho|].
  assert (E : (r ← Enumerate true ∅; Some (len (Endpoints r.1.1), Complete r.1.1)) = Some (2, false))
    by (vm_compute; reflexivity).
  rewrite He in E. cbn in E. injection E as E1 E2. exact (conj E1 E2).
Defined.

Lemma darwin_io_evidence_witness :
  (Read key 1000 ∅).1 = Ok (MkReport 0 (replicate 64 7)) ∧
  (Write key (MkReport 0 (replicate 64 1)) ∅).1 = (OutcomeCompleted, None) ∧
  (Write key (MkReport 0 (replicate 64 1)) ∅).2 = ∅.
Proof.
  pose proof (DarwinIO.darwin_io_evidence (λ w, w) key 1000 (MkReport 0 (replicate 64 1)) ∅) as [_ Hw].
  split; [reflexivity|].
  assert (E : (Write key (MkReport 0 (replicate 64 1)) ∅).1 = (OutcomeCompleted, None)) by (vm_compute; reflexivity).
  split; [exact E|]. destruct (Write key (MkReport 0 (replicate 64 1)) ∅) as [[o err] w'].
  exact (proj1 Hw).
Defined.

(** ** A run of the connection: a report, a write, the removal of the device. *)
Import DarwinConnection.
Definition report64 : ReportSpec := MkSpec 0 64.
Definition one : bytes := replicate 64 1.
Definition c0 : hid_connection := new_connection report64 report64.
Definition c1 : hid_connection := input_callback 0 0 0 one c0.
Definition c2 : hid_connection := (hid_write one c1).2.
Definition s1 : system := MkSystem c1 RLoop WIdle None [one] [] [] [].
Definition s2 : system := MkSystem c2 RLoop WIdle (Some one) [one] [] [] [].
Definition s3 : system := MkSystem (removal_callback c2) RLoop WIdle (Some one) [one] [] [] [].

Lemma run_reachable : reachable report64 report64 s2 ∧ reachable report64 report64 s3.
Proof.
  assert (H1 : step (DarwinConnection.start report64 report64) s1).
  { exists LoopCallback. refine (input_arrives (DarwinConnection.start report64 report64) 0 0 0 one eq_refl). }
  assert (H2 : step s1 s2) by (exists Callers; refine (write_admitted s1 one c2 eq_refl _); vm_compute; reflexivity).
  assert (H3 : step s2 s3) by (exists LoopCallback; exact (device_removed s2 eq_refl)).
  split; [do 2 (eapply rtc_l; [eassumption|]); apply rtc_refl|].
  do 3 (eapply rtc_l; [eassumption|]); apply rtc_refl.
Qed.

Lemma connection_reads_exact_witness :
  accepted s3 = returned s3 ++ DarwinConnProps.contents (conn s3) ∧
  (hid_read 0 (conn s3)).1 = (-1, kIOReturnNoDevice, []).
Proof.
  destruct (DarwinConnProps.connection_reads_exact report64 report64 s3) as (H1 & _ & _ & _ & H5);
    [by vm_compute|apply run_reachable|].
  split; [exact H1|]. destruct (H5 ltac:(by vm_compute) s3 (rtc_refl _ _)) as (_ & _ & H). by rewrite H.
Defined.

Lemma connection_write_evidence_witness :
  ∃ n s' r, (n <= 4)%nat ∧ nsteps step n s2 s' ∧ call s' = None ∧ results s' = [(one, r)] ∧
    r = protected_write 0 0 0.
Proof.
  destruct (DarwinConnProps.connection_write_evidence report64 report64 s2) as (_ & _ & _ & H);
    [apply run_reachable|].
  destruct (H one eq_refl 0 0 0) as (n & s' & r & Hn & Hs & Hc & Hr & Hp). exists n, s', r.
  split_and!; [exact Hn|exact Hs|exact Hc|exact Hr|]. apply Hp. right. by split.
Defined.

(** ** The life of a connection: it is opened, gets a report and is closed. *)
Import DarwinLifecycle.

Inductive move := Owner (answer : Z) | ReaderDoes (answer : Z).
Definition move_of (m : move) (l : life) : option life :=
  match m with Owner a => owner_turn report64 report64 a l | ReaderDoes a => reader_turn a l end.
Fixpoint play (ms : list move) (l : life) : option life :=
  match ms with [] => Some l | m :: ms => l' ← move_of m l; play ms l' end.

Lemma play_lives ms l l' : lives report64 report64 l → play ms l = Some l' → lives report64 report64 l'.
Proof.
  revert l. induction ms as [|m ms IH]; intros l Hl; [by intros [= <-]|].
  cbn. destruct (move_of m l) as [l1|] eqn:E; [|done]. cbn. apply IH. eapply rtc_r; [exact Hl|].
  destruct m; [by eapply owner_moves|by eapply reader_moves].
Qed.

Definition starting : life := Eval vm_compute in default (begin report64 report64) 
  (play [Owner 0; Owner 1; Owner 0; Owner 0; Owner 0; ReaderDoes 0] (begin report64 report64)).
Definition connected : life := Eval vm_compute in default starting (play [ReaderDoes 0; ReaderDoes 0; Owner 0; Owner 0] starting).
Definition reported : life := Eval vm_compute in with_sys s1 connected.
Definition closing : life := Eval vm_compute in default reported (play [Owner 0] reported).
Definition written_off : life := Eval vm_compute in with_sys (MkSystem (conn (sys closing)) RLoop WExited None [one] [] [] []) closing.
Definition closed : life := Eval vm_compute in 
  default written_off (play [Owner 0; ReaderDoes 0; ReaderDoes 0; ReaderDoes 7; ReaderDoes 0; Owner 0; Owner 0; Owner 0; Owner 0; Owner 0] written_off).

Lemma starting_lives : lives report64 report64 starting.
Proof. apply (play_lives [Owner 0; Owner 1; Owner 0; Owner 0; Owner 0; ReaderDoes 0] _ _ (rtc_refl _ _)). vm_compute; reflexivity. Qed.
Lemma reported_lives : lives report64 report64 reported.
Proof.
  eapply rtc_r; [apply (play_lives [ReaderDoes 0; ReaderDoes 0; Owner 0; Owner 0] _ _ starting_lives); vm_compute; reflexivity|].
  apply (callback_runs _ _ connected s1); [vm_compute; reflexivity|].
  vm_compute. exact (input_arrives (DarwinConnection.start report64 report64) 0 0 0 one eq_refl).
Qed.
Lemma closed_lives : lives report64 report64 closed.
Proof.
  assert (H : lives report64 report64 closing) by (apply (play_lives [Owner 0] _ _ reported_lives); vm_compute; reflexivity).
  assert (H1 : lives report64 report64 written_off).
  { eapply rtc_r; [exact H|]. apply writer_works; [vm_compute; reflexivity|].
    vm_compute. by refine (writer_stops _ _ _). }
  by apply (play_lives [Owner 0; ReaderDoes 0; ReaderDoes 0; ReaderDoes 7; ReaderDoes 0; Owner 0; Owner 0; Owner 0; Owner 0; Owner 0] _ _ H1); vm_compute.
Qed.

Lemma connection_lifecycle_witness :
  owner closed = ODisconnected 7 ∧ accepted (sys closed) = [one] ∧ DarwinLifeProps.nothing_left closed.
Proof.
  destruct (DarwinLifeProps.connection_lifecycle report64 report64 closed closed_lives) as (_ & _ & _ & _ & H & _).
  split; [vm_compute; reflexivity|]. split; [vm_compute; reflexivity|exact H].
Defined.
Lemma connection_calls_return_witness :
  owner starting = OReady ∧ ∀ answer, ∃ l', DarwinLifeProps.proceeds report64 report64 answer starting l'.
Proof.
  destruct (DarwinLifeProps.connection_calls_return report64 report64 starting starting_lives ltac:(vm_compute; reflexivity)) as (_ & H & _).
  split; [vm_compute; reflexivity|exact H].
Defined.
End DarwinSim.
