(* ===== verification/Diagnostics.v ===== *)
(** * The diagnostic scenario runner:
      src/internal/diagnostics/{runner,evidence,report,selection}.go

    Scenarios are values with callbacks; a callback runs against the world
    and the scenario's [Scope], returns an error or panics.  A cleanup
    callback is named by a [K], and [run_cleanup] runs it, so that a scope is
    first-order data.  Durations are nanoseconds. *)
From S2P Require Import Prelude GoErrors GoText GoIO Descriptors Registry.

Module Diagnostics.

Definition Status := string.
Definition Pass : Status := "PASS".
Definition Fail : Status := "FAIL".
Definition Skip : Status := "SKIP".
Definition Inconclusive : Status := "INCONCLUSIVE".

Definition Mode := string.
Definition Deterministic : Mode := "".
Definition Hardware : Mode := "hardware".
Definition Strict : Mode := "strict".
Definition Interactive : Mode := "interactive".

Record Environment := MkEnvironment {
  OS : string; Arch : string; GoVersion : string; GoroutinesBefore : Z; GoroutinesAfter : Z;
}.

Record NativeError := MkNative { Operation : string; Domain : string; Code : Z; Message : string }.

Record Cleanup := MkCleanup { Complete : bool; CleanupDuration : Z; Errors : list string }.

Record Result := MkResult {
  ScenarioID : string;
  Layer : string;
  RMode : Mode;
  RStatus : Status;
  Requirements : list string;
  StartedAt : Z;
  Duration : Z;
  Reason : string;
  RCleanup : Cleanup;
  Counters : gmap string Z;
  Facts : gmap string bool;
  NativeErrors : list NativeError;
}.

Record Report := MkReport {
  SchemaVersion : Z;
  REnvironment : Environment;
  RStartedAt : Z;
  RDuration : Z;
  Results : list Result;
}.

Record Options := MkOptions {
  Capabilities : gmap string bool;
  EnabledModes : gmap Mode bool;
  CleanupTimeout : Z;
}.

(** *** Dispositions *)
(** The two values of [status] that can be made. *)
Definition SkipReason (reason : string) : goerror := EDisposition false reason.
Definition InconclusiveReason (reason : string) : goerror := EDisposition true reason.

Definition as_disposition (e : goerror) : option Status :=
  match e with
  | EDisposition inconclusive _ => Some (if inconclusive then Inconclusive else Skip)
  | _ => None
  end.

(** [("", false)] is [None]. *)
Definition Disposition (err : goerror) : option Status := As as_disposition err.

(** How a callback ends; a panic carries the type of its value. *)
Inductive outcome := Returned (err : option goerror) | Panicked (type : string).

Definition panic_error (type : string) : goerror :=
  EMsg ("diagnostics: callback panic (" +:+ type +:+ ")").

(** ** Scopes *)
Record Scope {K : Type} := MkScope {
  counters : gmap string Z;
  facts : gmap string bool;
  nativeErrors : list NativeError;
  cleanup : list K;
}.
Arguments Scope : clear implicits.

Section Scopes.
Context {K : Type}.
Implicit Types s : Scope K.

Definition new_scope : Scope K := MkScope K ∅ ∅ [] [].
Definition Counter (name : string) (value : Z) s : Scope K :=
  MkScope K (<[name := value]> (counters s)) (facts s) (nativeErrors s) (cleanup s).
Definition Fact (name : string) (value : bool) s : Scope K :=
  MkScope K (counters s) (<[name := value]> (facts s)) (nativeErrors s) (cleanup s).
Definition Native (err : NativeError) s : Scope K :=
  MkScope K (counters s) (facts s) (nativeErrors s ++ [err]) (cleanup s).
Definition Defer (k : option K) s : Scope K :=
  match k with
  | None => s
  | Some k => MkScope K (counters s) (facts s) (nativeErrors s) (cleanup s ++ [k])
  end.
End Scopes.

(** ** The runner *)
(** [time.Now], and what the runtime says of itself. *)
Class Runtime (W : Type) := {
  time_Now : W → Z * W;
  GOOS : string;
  GOARCH : string;
  Version : string;
  NumGoroutine : W → Z * W;
  (** [err.Error()]. *)
  Error : goerror → string;
}.

Section Runner.
Context {W K : Type} `{!GoContext W} `{!Runtime W}.

Definition Callback : Type := ctx → Scope K → W → outcome * Scope K * W.

Record Scenario := MkScenario {
  ID : string;
  SLayer : string;
  SMode : Mode;
  SRequirements : list string;
  Timeout : Z;
  Run : option Callback;
  Validate : option (Result → outcome);
}.

Context (run_cleanup : K → Callback).

(** [invoke]: a panic is an error. *)
Definition recovered (o : outcome) : option goerror :=
  match o with Returned err => err | Panicked type => Some (panic_error type) end.
Definition invoke (c : ctx) (callback : Callback) (s : Scope K) (w : W) : option goerror * Scope K * W :=
  let '(o, s, w) := callback c s w in (recovered o, s, w).

(** [for i := len(cleanup) - 1; i >= 0; i--]: [i + 1] turns are left. *)
Fixpoint cleanup_loop (i : nat) (callbacks : list K) (c : ctx) (errors : list string) (s : Scope K) (w : W)
    : list string * Scope K * W :=
  match i with
  | O => (errors, s, w)
  | S i =>
      match callbacks !! i with
      | None => (errors, s, w)
      | Some k =>
          let '(err, s, w) := invoke c (run_cleanup k) s w in
          let errors := match err with Some e => errors ++ [Error e] | None => errors end in
          cleanup_loop i callbacks c errors s w
      end
  end.

Definition set_status (status : Status) (reason : string) (r : Result) : Result :=
  MkResult (ScenarioID r) (Layer r) (RMode r) status (Requirements r) (StartedAt r) (Duration r) reason
    (RCleanup r) (Counters r) (Facts r) (NativeErrors r).
Definition set_duration (d : Z) (r : Result) : Result :=
  MkResult (ScenarioID r) (Layer r) (RMode r) (RStatus r) (Requirements r) (StartedAt r) d (Reason r)
    (RCleanup r) (Counters r) (Facts r) (NativeErrors r).
Definition set_cleanup (c : Cleanup) (r : Result) : Result :=
  MkResult (ScenarioID r) (Layer r) (RMode r) (RStatus r) (Requirements r) (StartedAt r) (Duration r)
    (Reason r) c (Counters r) (Facts r) (NativeErrors r).
Definition set_evidence (s : Scope K) (r : Result) : Result :=
  MkResult (ScenarioID r) (Layer r) (RMode r) (RStatus r) (Requirements r) (StartedAt r) (Duration r)
    (Reason r) (RCleanup r) (counters s) (facts s) (nativeErrors s).

Definition enabled (m : gmap string bool) (key : string) : bool := default false (m !! key).

(** Why a scenario is not attempted. *)
Definition skip_reason (scenario : Scenario) (options : Options) : option string :=
  if negb (String.eqb (SMode scenario) Deterministic) && negb (enabled (EnabledModes options) (SMode scenario))
  then Some ("execution mode not requested: " +:+ SMode scenario)
  else
    match List.find (λ requirement, negb (enabled (Capabilities options) requirement)) (SRequirements scenario) with
    | Some requirement => Some ("unavailable requirement: " +:+ requirement)
    | None => None
    end.

Definition new_result (scenario : Scenario) (started : Z) : Result :=
  MkResult (ID scenario) (SLayer scenario) (SMode scenario) Pass (SRequirements scenario) started 0 ""
    (MkCleanup false 0 []) ∅ ∅ [].

(** The scenario's own callback, under its timeout. *)
Definition attempt_run (scenario : Scenario) (run : Callback) (parent : ctx) (w : W)
    : option goerror * Scope K * W :=
  let bounded := WithTimeout parent (Timeout scenario) in
  let '(err, s, w) := invoke bounded run new_scope w in
  match err with
  | Some e => (Some e, s, w)
  | None => let '(e, w) := ctx_Err bounded w in (e, s, w)
  end.

(** Every registered callback, last first, under a budget of its own. *)
Definition clean (timeout : Z) (s : Scope K) (w : W) : Cleanup * Scope K * W :=
  let '(cleanupStarted, w) := time_Now w in
  let cleanupCtx := WithTimeout Background timeout in
  let callbacks := cleanup s in
  let '(errors, s, w) := cleanup_loop (length callbacks) callbacks cleanupCtx [] s w in
  let '(err, w) := ctx_Err cleanupCtx w in
  let errors := match err, errors with Some e, [] => [Error e] | _, _ => errors end in
  let '(now, w) := time_Now w in
  (MkCleanup (match errors with [] => true | _ => false end) (now - cleanupStarted) errors, s, w).

Definition validated (scenario : Scenario) (r : Result) : Result :=
  match Validate scenario with
  | Some validate =>
      if String.eqb (RStatus r) Pass then
        match recovered (validate r) with
        | Some e => set_status Fail ("evidence validation failed: " +:+ Error e) r
        | None => r
        end
      else r
  | None => r
  end.

Definition runScenario (c : ctx) (scenario : Scenario) (run : Callback) (options : Options) (w : W)
    : Result * W :=
  let '(started, w) := time_Now w in
  let result := new_result scenario started in
  match skip_reason scenario options with
  | Some reason =>
      let '(now, w) := time_Now w in
      (set_duration (now - started) (set_cleanup (MkCleanup true 0 []) (set_status Skip reason result)), w)
  | None =>
      let '(err, s, w) := attempt_run scenario run c w in
      let result := match err with
                    | Some e => set_status (default Fail (Disposition e)) (Error e) result
                    | None => result
                    end in
      let '(cleaned, s, w) := clean (CleanupTimeout options) s w in
      let result := set_cleanup cleaned result in
      let result :=
        if negb (Complete cleaned)
        then set_status Fail (if str_empty (Reason result) then "cleanup failed" else Reason result) result
        else result in
      let result := validated scenario (set_evidence s result) in
      let '(now, w) := time_Now w in
      (set_duration (now - started) result, w)
  end.

(** *** Run *)
Definition known_mode (mode : Mode) : bool :=
  existsb (String.eqb mode) [Deterministic; Hardware; Strict; Interactive].

(** The definitions, checked before any of them runs. *)
Fixpoint check_scenarios (seen : gset string) (scenarios : list Scenario) : option goerror :=
  match scenarios with
  | [] => None
  | scenario :: scenarios =>
      if str_empty (ID scenario) || match Run scenario with None => true | Some _ => false end
         || (Timeout scenario <=? 0) || bool_decide (ID scenario ∈ seen)
      then Some (EMsg "diagnostics: scenarios require unique IDs, positive timeouts and callbacks")
      else if negb (known_mode (SMode scenario)) then Some (EMsg "diagnostics: unknown execution mode")
      else check_scenarios ({[ID scenario]} ∪ seen) scenarios
  end.

Fixpoint run_loop (c : ctx) (scenarios : list Scenario) (options : Options) (results : list Result) (w : W)
    : (list Result * option goerror) * W :=
  match scenarios with
  | [] => let '(err, w) := ctx_Err c w in ((results, err), w)
  | scenario :: scenarios =>
      let '(err, w) := ctx_Err c w in
      match err, Run scenario with
      | Some e, _ => ((results, Some e), w)
      | None, None => ((results, None), w)
      | None, Some run =>
          let '(result, w) := runScenario c scenario run options w in
          run_loop c scenarios options (results ++ [result]) w
      end
  end.

Definition with_cleanup_timeout (options : Options) : Options :=
  if CleanupTimeout options <=? 0
  then MkOptions (Capabilities options) (EnabledModes options) (2 * 1000000000)
  else options.

(** [octx]: a nil context is [None]. *)
Definition RunAll (octx : option ctx) (scenarios : list Scenario) (options : Options) (w : W)
    : (Report * option goerror) * W :=
  let '(started, w) := time_Now w in
  let '(before, w) := NumGoroutine w in
  let finish results err w :=
    let '(now, w) := time_Now w in
    let '(after, w) := NumGoroutine w in
    ((MkReport 1 (MkEnvironment GOOS GOARCH Version before after) started (now - started) results, err), w) in
  match octx with
  | None => finish [] (Some (EMsg "diagnostics: context is required")) w
  | Some c =>
      let options := with_cleanup_timeout options in
      match check_scenarios ∅ scenarios with
      | Some e => finish [] (Some e) w
      | None => let '((results, err), w) := run_loop c scenarios options [] w in finish results err w
      end
  end.

(** ** selection.go *)
Definition selector_error : goerror := EMsg "invalid or duplicate diagnostic scenario selector".

Fixpoint check_selectors (seen : gset string) (ids : list string) : bool :=
  match ids with
  | [] => true
  | id :: ids =>
      if str_empty id || negb (String.eqb (GoStrings.TrimSpace id) id) || bool_decide (id ∈ seen) then false
      else check_selectors ({[id]} ∪ seen) ids
  end.

Definition ParseScenarioIDs (value : string) : res (list string) :=
  if str_empty value then Ok []
  else
    let ids := GoStrings.Split "," value in
    if check_selectors ∅ ids then Ok ids else Err selector_error.

Fixpoint known_scenarios (scenarios : list Scenario) (known : gmap string Scenario) : res (gmap string Scenario) :=
  match scenarios with
  | [] => Ok known
  | scenario :: scenarios =>
      match known !! ID scenario with
      | Some _ => Err (EMsg "duplicate diagnostic scenario definition")
      | None => known_scenarios scenarios (<[ID scenario := scenario]> known)
      end
  end.

Fixpoint select_loop (known : gmap string Scenario) (seen : gset string) (ids : list string)
    (selected : list Scenario) : res (list Scenario) :=
  match ids with
  | [] => Ok selected
  | id :: ids =>
      match known !! id with
      | None => Err (EMsg "unknown diagnostic scenario ID")
      | Some scenario =>
          if bool_decide (id ∈ seen) then Err (EMsg "duplicate diagnostic scenario ID")
          else select_loop known ({[id]} ∪ seen) ids (selected ++ [scenario])
      end
  end.

Definition Select (scenarios : list Scenario) (ids : list string) : res (list Scenario) :=
  match ids with
  | [] => Ok scenarios
  | _ => known ←? known_scenarios scenarios ∅; select_loop known ∅ ids []
  end.
End Runner.
Arguments Scenario : clear implicits.

(** ** evidence.go *)
Record Evidence := MkEvidence { errors : list goerror }.

Definition Errorf (format : string) (e : Evidence) : Evidence := MkEvidence (errors e ++ [EMsg format]).
Definition RequireFacts (r : Result) (names : list string) (e : Evidence) : Evidence :=
  List.fold_left (λ e name,
    if negb (default false (Facts r !! name)) then Errorf ("missing evidence " +:+ name) e else e) names e.
Definition Err (e : Evidence) : option goerror := Registry.Join (errors e).

(** ** report.go

    [encode] is [WriteJSON] on an open file. *)
Class ReportFile (W : Type) := {
  file_OpenFile : string → Z → W → res Z * W;
  file_Chmod : Z → Z → W → option goerror * W;
  file_Encode : Z → Report → W → option goerror * W;
  file_Close : Z → W → option goerror * W;
}.

(** 0600. *)
Definition owner_only : Z := 0x180.

Section WriteFile.
Context {W : Type} `{!ReportFile W}.

Definition WriteFile (path : string) (report : Report) (w : W) : option goerror * W :=
  if str_empty path then (None, w)
  else if negb (Filepath.IsAbs path) then (Some (EMsg "diagnostic report path must be absolute"), w)
  else
    match file_OpenFile path owner_only w with
    | (GoErrors.Err e, w) => (Some (EFmt "open diagnostic report: %w" [e]), w)
    | (Ok f, w) =>
        match file_Chmod f owner_only w with
        | (Some e, w) =>
            let '(closeErr, w) := file_Close f w in
            (Registry.Join (EFmt "restrict diagnostic report permissions: %w" [e] :: option_list closeErr), w)
        | (None, w) =>
            let '(writeErr, w) := file_Encode f report w in
            let '(closeErr, w) := file_Close f w in
            (Registry.Join (option_list writeErr ++ option_list closeErr), w)
        end
    end.
End WriteFile.
End Diagnostics.
