(* ===== verification/DiagnosticsProps.v ===== *)
(** * What the diagnostic runner guarantees *)
From S2P Require Import Prelude GoErrors GoText GoIO Descriptors Registry Diagnostics.

Module RunnerProps.
Import Diagnostics.

Section Runner.
Context {W K : Type} `{!GoContext W} `{!Runtime W} (run_cleanup : K → Callback (W:=W) (K:=K)).

(** ** Cleanup *)

(** The callbacks of a list, in its order, and the errors they returned. *)
Fixpoint clean_all (callbacks : list K) (c : ctx) (s : Scope K) (w : W) : list string * Scope K * W :=
  match callbacks with
  | [] => ([], s, w)
  | k :: callbacks =>
      let '(o, s, w) := run_cleanup k c s w in
      let '(errs, s, w) := clean_all callbacks c s w in
      (match recovered o with Some e => Error e :: errs | None => errs end, s, w)
  end.

Lemma cleanup_loop_app i cbs k c errs s w : (i <= length cbs)%nat →
  cleanup_loop run_cleanup i (cbs ++ [k]) c errs s w = cleanup_loop run_cleanup i cbs c errs s w.
Proof.
  revert errs s w. induction i as [|i IH]; intros errs s w Hi; simpl; [done|].
  rewrite lookup_app_l by lia. destruct (cbs !! i) as [k'|]; [|done].
  destruct (invoke c (run_cleanup k') s w) as [[e s1] w1]. apply IH. lia.
Qed.

(** The loop by index is the list backwards. *)
Lemma cleanup_loop_reverse cbs c : ∀ errs s w,
  cleanup_loop run_cleanup (length cbs) cbs c errs s w =
  let '(errs', s, w) := clean_all (rev cbs) c s w in (errs ++ errs', s, w).
Proof.
  induction cbs as [|k cbs IH] using rev_ind; intros errs s w; simpl; [by rewrite app_nil_r|].
  rewrite length_app. simpl. rewrite Nat.add_1_r. simpl.
  rewrite lookup_app_r, Nat.sub_diag by lia. simpl. rewrite rev_app_distr. simpl.
  unfold invoke. destruct (run_cleanup k c s w) as [[o s1] w1].
  rewrite cleanup_loop_app by lia. rewrite IH.
  destruct (clean_all (rev cbs) c s1 w1) as [[errs' s2] w2].
  destruct (recovered o); [|done]. by rewrite <- (assoc_L (++)).
Qed.

(** ** One scenario *)
Definition cleanup_ctx (options : Options) : ctx := WithTimeout Background (CleanupTimeout options).

(** The evidence the validator sees, and its verdict. *)
Definition verdict (scenario : Scenario W K) (r : Result) : option goerror :=
  match Validate scenario with Some validate => recovered (validate r) | None => None end.

Lemma Disposition_status e status : Disposition e = Some status → status = Skip ∨ status = Inconclusive.
Proof.
  intros [node Hn]%As_node. destruct node; try done. injection Hn as <-. destruct inconclusive; auto.
Qed.

(** The record of a scenario that was attempted, before the validator. *)
Definition observed_result (scenario : Scenario W K) (started : Z) (err : option goerror)
    (cleaned : Cleanup) (s : Scope K) : Result :=
  let status := match err with Some e => default Fail (Disposition e) | None => Pass end in
  let reason := match err with Some e => Error e | None => ""%string end in
  let reason' := if Complete cleaned then reason
                 else if str_empty reason then "cleanup failed"%string else reason in
  MkResult (ID scenario) (SLayer scenario) (SMode scenario) (if Complete cleaned then status else Fail)
    (SRequirements scenario) started 0 reason' cleaned (counters s) (facts s) (nativeErrors s).

(** A scenario that is skipped touches nothing but the clock. *)
Lemma runScenario_skipped c scenario run options w reason : skip_reason scenario options = Some reason →
  let '(r, w') := runScenario run_cleanup c scenario run options w in
  RStatus r = Skip ∧ Reason r = reason ∧ Complete (RCleanup r) = true ∧ w' = (time_Now (time_Now w).2).2.
Proof.
  intros Hs. unfold runScenario. destruct (time_Now w) as [t0 w0]. rewrite Hs.
  simpl. by destruct (time_Now w0) as [t1 w1].
Qed.

(** The cleanup phase, against the list of callbacks. *)
Lemma clean_spec timeout s w :
  let '(cleaned, s', w') := clean run_cleanup timeout s w in
  let '(errs, s2, w2) := clean_all (rev (cleanup s)) (WithTimeout Background timeout) s (time_Now w).2 in
  s' = s2 ∧ ∃ late, (ctx_Err (WithTimeout Background timeout) w2).1 = late ∧
    (Complete cleaned = true ↔ errs = [] ∧ late = None) ∧
    Errors cleaned = match late, errs with Some e, [] => [Error e] | _, _ => errs end.
Proof.
  unfold clean. destruct (time_Now w) as [t0 w0]. simpl. rewrite cleanup_loop_reverse.
  destruct (clean_all _ _ _ _) as [[errs s2] w2]. simpl.
  destruct (ctx_Err _ w2) as [late w3]. simpl. destruct (time_Now w3) as [t1 w4]. simpl.
  split; [done|]. exists late. split; [done|]. destruct late, errs; simpl; naive_solver.
Qed.

(** The verdict on a record that would pass. *)
Lemma validated_spec scenario r d :
  let r' := set_duration d (validated scenario r) in
  Counters r' = Counters r ∧ Facts r' = Facts r ∧ NativeErrors r' = NativeErrors r ∧
  RCleanup r' = RCleanup r ∧
  (RStatus r ≠ Pass → RStatus r' = RStatus r) ∧
  (RStatus r = Pass → Reason r = ""%string → Duration r = 0 →
     (RStatus r' = Pass ↔ verdict scenario (set_status Pass "" (set_duration 0 r')) = None) ∧
     (RStatus r' = Pass ∨ RStatus r' = Fail)).
Proof.
  unfold validated, verdict. destruct (Validate scenario) as [validate|]; simpl; [|split_and!; try done; intros; split; [done|by left]].
  destruct (String.eqb_spec (RStatus r) Pass) as [Hp|Hp].
  2: by split_and!.
  assert (Hr : r = set_status Pass "" (set_duration 0 r) ∨ Reason r ≠ ""%string ∨ Duration r ≠ 0).
  { destruct r as [? ? ? ? ? ? dur reason ? ? ? ?]; simpl in *; subst.
    destruct (decide (reason = ""%string)) as [->|]; [|auto]. destruct (decide (dur = 0)) as [->|]; auto. }
  destruct (recovered (validate r)) as [e|] eqn:E; simpl; (split_and!; try done); intros _ H1 H2;
    (destruct Hr as [Hr|[?|?]]; [|done|done]); (split; [|by auto]).
  - split; [done|]. intros Hv. exfalso. revert Hv.
    match goal with |- recovered (validate ?x) = None → _ => replace x with r by (rewrite Hr at 1; done) end.
    congruence.
  - split; [|done]. intros _.
    match goal with |- recovered (validate ?x) = None => replace x with r by (rewrite Hr at 1; done) end.
    exact E.
Qed.

Lemma scenario_status scenario started err cleaned s d :
  let r := set_duration d (validated scenario (observed_result scenario started err cleaned s)) in
  (RStatus r = Pass ↔ err = None ∧ Complete cleaned = true ∧
     verdict scenario (set_status Pass "" (set_duration 0 r)) = None) ∧
  (RStatus r ≠ Pass → RStatus r ≠ Fail →
     Complete cleaned = true ∧ ∃ e, err = Some e ∧ Disposition e = Some (RStatus r)).
Proof.
  pose proof (validated_spec scenario (observed_result scenario started err cleaned s) d) as H.
  cbv zeta in *. destruct H as (_ & _ & _ & _ & Hother & Hpass).
  set (r := set_duration d _) in *. clearbody r. unfold observed_result in *. simpl in *.
  destruct (Complete cleaned).
  2: { rewrite Hother by done. split; [naive_solver|done]. }
  destruct err as [e|].
  - destruct (Disposition e) as [st|] eqn:Hd; simpl in *.
    + apply Disposition_status in Hd as Hs. rewrite Hother by (by destruct Hs as [-> | ->]).
      split; [|by eauto]. split; [by destruct Hs as [-> | ->]|naive_solver].
    + rewrite Hother by done. split; [naive_solver|done].
  - destruct (Hpass eq_refl eq_refl eq_refl) as [Hiff Hor]. split; [rewrite Hiff; naive_solver|naive_solver].
Qed.

(** C39: a scenario passes on evidence only, and is cleaned up whatever happens.
    A scenario whose mode is not requested or whose requirements are not met is
    skipped without running anything. Any other is run once under its own
    timeout; then every cleanup callback it registered is run exactly once, in
    the reverse order of registration, even if the scenario or a callback
    panicked, under a budget that does not depend on the caller's context. The
    result is PASS exactly if the scenario returned no error and its context
    was still alive, every cleanup callback succeeded within the budget, and
    the validator accepts the very record that is reported; cleanup that
    failed makes it FAIL whatever the scenario said; and SKIP and INCONCLUSIVE
    come from the scenario's own error only. The evidence in the record is
    what the scope held after cleanup. *)
Theorem scenario_result_exact (c : ctx) (scenario : Scenario W K) (run : Callback) (options : Options) (w : W) :
  let '(r, w') := runScenario run_cleanup c scenario run options w in
  match skip_reason scenario options with
  | Some reason => RStatus r = Skip ∧ Reason r = reason ∧ w' = (time_Now (time_Now w).2).2
  | None =>
      ∃ err s w1 errs s' w2 late,
        (let '(o, s0, w0) := run (WithTimeout c (Timeout scenario)) new_scope (time_Now w).2 in
         s = s0 ∧ match recovered o with
                  | Some e => err = Some e ∧ w1 = w0
                  | None => ctx_Err (WithTimeout c (Timeout scenario)) w0 = (err, w1)
                  end) ∧
        clean_all (rev (cleanup s)) (cleanup_ctx options) s (time_Now w1).2 = (errs, s', w2) ∧
        (ctx_Err (cleanup_ctx options) w2).1 = late ∧
        Counters r = counters s' ∧ Facts r = facts s' ∧ NativeErrors r = nativeErrors s' ∧
        (Complete (RCleanup r) = true ↔ errs = [] ∧ late = None) ∧
        (RStatus r = Pass ↔ err = None ∧ errs = [] ∧ late = None ∧
           verdict scenario (set_status Pass "" (set_duration 0 r)) = None) ∧
        (RStatus r ≠ Pass → RStatus r ≠ Fail →
           Complete (RCleanup r) = true ∧ ∃ e, err = Some e ∧ Disposition e = Some (RStatus r))
  end.
Proof.
  destruct (skip_reason scenario options) as [reason|] eqn:Hskip.
  { pose proof (runScenario_skipped c scenario run options w reason Hskip) as H.
    destruct (runScenario _ _ _ _ _ w). naive_solver. }
  unfold runScenario. destruct (time_Now w) as [started w0] eqn:Ht. rewrite Hskip. simpl.
  unfold attempt_run, invoke.
  destruct (run (WithTimeout c (Timeout scenario)) new_scope w0) as [[o s] wr].
  set (a := match recovered o with Some e => _ | None => _ end).
  assert (Ha : ∃ err w1, a = (err, s, w1) ∧
    match recovered o with
    | Some e => err = Some e ∧ w1 = wr
    | None => ctx_Err (WithTimeout c (Timeout scenario)) wr = (err, w1)
    end).
  { subst a. destruct (recovered o) as [e|]; [by exists (Some e), wr|].
    destruct (ctx_Err _ wr) as [e w1]. by exists e, w1. }
  clearbody a. destruct Ha as (err & w1 & -> & Hrun).
  pose proof (clean_spec (CleanupTimeout options) s w1) as Hc. unfold cleanup_ctx.
  destruct (clean run_cleanup (CleanupTimeout options) s w1) as [[cleaned s'] w3].
  destruct (clean_all _ _ s (time_Now w1).2) as [[errs s2] w2] eqn:Hclean.
  destruct Hc as (-> & late & Hlate & Hcomplete & _).
  destruct (time_Now w3) as [t3 w4].
  exists err, s, w1, errs, s2, w2, late.
  set (r0 := set_evidence s2 _).
  assert (H0 : r0 = observed_result scenario started err cleaned s2).
  { subst r0. unfold observed_result. destruct (Complete cleaned), err; done. }
  clearbody r0. subst r0. set (r0 := observed_result scenario started err cleaned s2).
  destruct (validated_spec scenario r0 (t3 - started)) as (HC & HF & HN & HK & Hother & Hpass).
  change (RCleanup r0) with cleaned in HK. rewrite HC, HF, HN, HK.
  destruct (scenario_status scenario started err cleaned s2 (t3 - started)) as [Hst Hother'].
  subst r0. split_and!; try done. rewrite Hst, Hcomplete. naive_solver.
Qed.

(** ** A run of several scenarios *)
Definition well_defined (scenario : Scenario W K) : Prop :=
  ID scenario ≠ ""%string ∧ is_Some (Run scenario) ∧ 0 < Timeout scenario ∧ known_mode (SMode scenario) = true.

Lemma str_empty_true s : str_empty s = true ↔ s = ""%string.
Proof. by destruct s. Qed.

Lemma check_scenarios_spec (l : list (Scenario W K)) : ∀ seen,
  check_scenarios seen l = None ↔
  Forall well_defined l ∧ NoDup (map ID l) ∧ ∀ x, x ∈ map ID l → x ∉ seen.
Proof.
  induction l as [|x l IH]; intros seen; simpl.
  { split; [|done]. intros _. split_and!; [constructor|constructor|set_solver]. }
  rewrite Forall_cons, NoDup_cons.
  destruct (_ || bool_decide (ID x ∈ seen)) eqn:E.
  { split; [done|]. intros ((Hx & _) & _ & Hseen). exfalso. destruct Hx as (Hid & [run Hrun] & Ht & _).
    rewrite !orb_true_iff, str_empty_true, Hrun, Z.leb_le, bool_decide_eq_true in E.
    destruct E as [[[?|?]|?]|E]; [done|done|lia|]. apply (Hseen (ID x)); [set_solver|done]. }
  rewrite !orb_false_iff, Z.leb_gt, bool_decide_eq_false in E. destruct E as [[[E1 E2] E3] E4].
  assert (Hid : ID x ≠ ""%string) by (intros He; apply str_empty_true in He; congruence).
  destruct (known_mode (SMode x)) eqn:Hm; simpl.
  2: { split; [done|]. intros ((Hx & _) & _). destruct Hx as (_ & _ & _ & Hx). congruence. }
  rewrite IH. unfold well_defined at 2. split.
  - intros (Hf & Hn & Hs). split_and!; try done; [by destruct (Run x)|set_solver|].
    intros y [->|Hy]%elem_of_cons; [done|]. specialize (Hs y Hy). set_solver.
  - intros ((_ & Hf) & (Hx & Hn) & Hs). split_and!; try done. intros y Hy.
    specialize (Hs y ltac:(set_solver)). set_solver.
Qed.

Lemma ScenarioID_runScenario c (x : Scenario W K) run options w :
  ScenarioID (runScenario run_cleanup c x run options w).1 = ID x.
Proof.
  unfold runScenario. destruct (time_Now w) as [t w0]. destruct (skip_reason x options) as [reason|].
  { by destruct (time_Now w0). }
  destruct (attempt_run x run c w0) as [[err s] w1].
  destruct (clean _ _ s w1) as [[cleaned s'] w2].
  destruct (time_Now w2). unfold validated. simpl.
  destruct (Validate x); [|by destruct (Complete cleaned), err].
  destruct (String.eqb _ _); [destruct (recovered _)|]; by destruct (Complete cleaned), err.
Qed.

Lemma run_loop_spec c options (l : list (Scenario W K)) : ∀ results w, Forall well_defined l →
  let '((results', err), w') := run_loop run_cleanup c l options results w in
  ∃ n, (n <= length l)%nat ∧ map ScenarioID results' = map ScenarioID results ++ map ID (take n l) ∧
    (err = None → n = length l) ∧ ∃ w0, ctx_Err c w0 = (err, w').
Proof.
  induction l as [|x l IH]; intros results w Hl; simpl.
  { destruct (ctx_Err c w) as [err w1] eqn:E. exists O. simpl. rewrite app_nil_r. split_and!; eauto. }
  apply Forall_cons in Hl as [Hx Hl]. destruct (ctx_Err c w) as [[e|] w1] eqn:E.
  { exists O. simpl. rewrite app_nil_r. split_and!; [lia|done|done|by exists w]. }
  destruct Hx as (_ & [run Hrun] & _). rewrite Hrun.
  pose proof (ScenarioID_runScenario c x run options w1) as Hid.
  destruct (runScenario run_cleanup c x run options w1) as [r w2]. simpl in Hid.
  specialize (IH (results ++ [r]) w2 Hl).
  destruct (run_loop run_cleanup c l options (results ++ [r]) w2) as [[results' err] w3].
  destruct IH as (n & Hn & Hmap & Hall & Hw). exists (S n). split_and!; [lia| | |done].
  - rewrite Hmap, map_app, <- (assoc_L (++)). simpl. by rewrite Hid.
  - intros ->. f_equal. by apply Hall.
Qed.

(** A run is all or nothing in its definitions, and honest in its results.
    Unless every scenario is well defined - an identifier of its own, a
    callback, a positive timeout, a known mode - no scenario runs: the call
    fails, the report is empty and the world is as the clock and the runtime
    left it. Otherwise the report holds exactly one record for each scenario
    up to some point, in the order given; it holds all of them when the run
    reports no error; and the error it reports is the one of the context. *)
Theorem run_exact (c : ctx) (scenarios : list (Scenario W K)) (options : Options) (w : W) :
  let '((report, err), w') := RunAll run_cleanup (Some c) scenarios options w in
  (Forall well_defined scenarios ∧ NoDup (map ID scenarios) →
     ∃ n, map ScenarioID (Results report) = map ID (take n scenarios) ∧
       (err = None → map ScenarioID (Results report) = map ID scenarios) ∧
       ∃ w0, (ctx_Err c w0).1 = err) ∧
  (¬ (Forall well_defined scenarios ∧ NoDup (map ID scenarios)) →
     Results report = [] ∧ err ≠ None ∧
     w' = (NumGoroutine (time_Now (NumGoroutine (time_Now w).2).2).2).2).
Proof.
  unfold RunAll. destruct (time_Now w) as [t0 w0]. simpl. destruct (NumGoroutine w0) as [g0 w1]. simpl.
  pose proof (check_scenarios_spec scenarios ∅) as Hspec.
  destruct (check_scenarios ∅ scenarios) as [e|].
  - simpl. destruct (time_Now w1) as [t2 w2]. simpl. destruct (NumGoroutine w2) as [g2 w3]. simpl.
    split; [|done]. intros [Hf Hn]. exfalso. assert (Some e = None) as [=]. apply Hspec.
    split_and!; [done|done|set_solver].
  - assert (Hwd : Forall well_defined scenarios) by (by apply Hspec).
    assert (Hnd : NoDup (map ID scenarios)) by (by apply Hspec).
    pose proof (run_loop_spec c (with_cleanup_timeout options) scenarios [] w1 Hwd) as Hl.
    destruct (run_loop run_cleanup c scenarios _ [] w1) as [[results err] w2].
    destruct Hl as (n & Hn & Hmap & Hall & wx & Hwx). simpl in Hmap.
    destruct (time_Now w2) as [t3 w3]. destruct (NumGoroutine w3) as [g3 w4]. simpl.
    split; [|intros Hc; exfalso; by apply Hc]. intros _. exists n. split_and!; [done| |].
    + intros He. rewrite Hmap, Hall, firstn_all; done.
    + exists wx. by rewrite Hwx.
Qed.

End Runner.

(** ** Selection *)
Section Selection.
Context {W K : Type}.
Implicit Types l selected : list (Scenario W K).

Lemma known_scenarios_spec l : ∀ known : gmap string (Scenario W K),
  match known_scenarios l known with
  | Ok m => NoDup (map ID l) ∧ (∀ x, x ∈ map ID l → known !! x = None) ∧
      ∀ id x, m !! id = Some x ↔ known !! id = Some x ∨ (x ∈ l ∧ ID x = id)
  | GoErrors.Err _ => ¬ (NoDup (map ID l) ∧ ∀ x, x ∈ map ID l → known !! x = None)
  end.
Proof.
  induction l as [|x l IH]; intros known; simpl.
  { split_and!; [constructor|set_solver|set_solver]. }
  destruct (known !! ID x) as [y|] eqn:E.
  { intros [_ H]. specialize (H (ID x) ltac:(set_solver)). congruence. }
  specialize (IH (<[ID x := x]> known)).
  destruct (known_scenarios l _) as [m|e]; rewrite NoDup_cons.
  - destruct IH as (Hn & Hfree & Hm). split_and!; [|done| |intros id y].
    + intros Hx. specialize (Hfree _ Hx). by rewrite lookup_insert_eq in Hfree.
    + intros y [->|Hy]%elem_of_cons; [done|]. specialize (Hfree y Hy).
      by apply lookup_insert_None in Hfree as [? _].
    + rewrite Hm, lookup_insert_Some, elem_of_cons. split; [naive_solver|].
      intros [H|[[->|H] <-]]; [|naive_solver|naive_solver].
      left. right. split; [|done]. intros <-. congruence.
  - intros [[Hx Hn] Hfree]. apply IH. split; [done|]. intros y Hy.
    apply lookup_insert_None. split; [apply Hfree; set_solver|]. intros <-. done.
Qed.

Lemma select_loop_spec (known : gmap string (Scenario W K)) ids : ∀ seen acc,
  (∀ id x, known !! id = Some x → ID x = id) →
  match select_loop known seen ids acc with
  | Ok selected => NoDup ids ∧ (∀ id, id ∈ ids → id ∉ seen) ∧
      ∃ tail, selected = acc ++ tail ∧ map ID tail = ids ∧ ∀ x, x ∈ tail → known !! ID x = Some x
  | GoErrors.Err _ => ¬ (NoDup ids ∧ (∀ id, id ∈ ids → id ∉ seen) ∧ ∀ id, id ∈ ids → is_Some (known !! id))
  end.
Proof.
  induction ids as [|id ids IH]; intros seen acc Hk; simpl.
  { split_and!; [constructor|set_solver|]. exists []. rewrite app_nil_r. split_and!; set_solver. }
  destruct (known !! id) as [x|] eqn:E.
  2: { intros (_ & _ & H). destruct (H id) as [? ?]; [set_solver|congruence]. }
  case_bool_decide as Hs.
  { intros (_ & H & _). apply (H id); set_solver. }
  specialize (IH ({[id]} ∪ seen) (acc ++ [x]) Hk).
  destruct (select_loop known _ ids _) as [selected|e]; rewrite NoDup_cons.
  - destruct IH as (Hn & Hfree & tail & -> & Hmap & Hin). split_and!; [set_solver|done|set_solver|].
    exists (x :: tail). rewrite <- (assoc_L (++)). split_and!; [done| |].
    + simpl. by rewrite Hmap, (Hk id x E).
    + intros y [->|Hy]%elem_of_cons; [by rewrite (Hk id x E)|by apply Hin].
  - intros ((Hid & Hn) & Hfree & Hall). apply IH. split_and!; set_solver.
Qed.

(** Joining and splitting are inverse on words without the separator. *)
Lemma Split_Join sep ws : ws ≠ [] → Forall (λ w, sep ∉ String.list_ascii_of_string w) ws →
  GoStrings.Split sep (GoStrings.Join (String sep "") ws) = ws.
Proof.
  induction ws as [|w ws IH]; [done|]. intros _ [Hw Hws]%Forall_cons.
  destruct ws as [|w' ws]; [by apply GoStrings.Split_nosep|].
  change (GoStrings.Join _ (w :: w' :: ws))
    with (w +:+ String sep (GoStrings.Join (String sep "") (w' :: ws))).
  rewrite GoStrings.Split_app_nosep by done. f_equal. by apply IH.
Qed.

Lemma Split_spec sep s : let ws := GoStrings.Split sep s in
  ws ≠ [] ∧ GoStrings.Join (String sep "") ws = s ∧
  Forall (λ w, sep ∉ String.list_ascii_of_string w) ws.
Proof.
  cbv zeta. induction s as [|a s (Hne & Hj & Hf)]; simpl.
  { split_and!; [done|done|]. repeat constructor. set_solver. }
  destruct (Ascii.eqb_spec a sep) as [->|Ha].
  - split_and!; [done| |constructor; [set_solver|done]].
    destruct (GoStrings.Split sep s) as [|w ws]; [done|].
    change (String sep (GoStrings.Join (String sep "") (w :: ws)) = String sep s). by rewrite Hj.
  - destruct (GoStrings.Split sep s) as [|w ws]; [done|]. apply Forall_cons in Hf as [Hw Hws].
    split_and!; [done| |constructor; [simpl; set_solver|done]].
    rewrite <- Hj. by destruct ws.
Qed.

Definition clean_id (id : string) : Prop :=
  id ≠ ""%string ∧ GoStrings.TrimSpace id = id.

Lemma check_selectors_spec ids : ∀ seen, check_selectors seen ids = true ↔
  Forall clean_id ids ∧ NoDup ids ∧ ∀ id, id ∈ ids → id ∉ seen.
Proof.
  induction ids as [|id ids IH]; intros seen; simpl.
  { split; [|done]. intros _. split_and!; [constructor|constructor|set_solver]. }
  rewrite Forall_cons, NoDup_cons. destruct (_ || bool_decide (id ∈ seen)) eqn:E.
  - split; [done|]. intros ((Hc & _) & _ & Hs). exfalso. destruct Hc as [H1 H2].
    rewrite !orb_true_iff, str_empty_true, negb_true_iff, String.eqb_neq, bool_decide_eq_true in E.
    destruct E as [[?|?]|E]; [done|done|]. apply (Hs id); [set_solver|done].
  - rewrite !orb_false_iff, negb_false_iff, String.eqb_eq, bool_decide_eq_false in E.
    destruct E as [[E1 E2] E3].
    assert (id ≠ ""%string) by (intros He; apply str_empty_true in He; congruence).
    rewrite IH. unfold clean_id at 2. set_solver.
Qed.

(** The selector of scenarios is read back exactly, and selects exactly. A
    selector parses to a list of identifiers if and only if it is these
    identifiers joined by commas, none of them empty or surrounded by space
    and no two equal - the empty selector being the empty list. Selecting by
    a non-empty list of identifiers succeeds if and only if the catalog and
    the list have no duplicates and every identifier is known, and then gives
    the scenarios of these identifiers in the order of the list; the empty
    list gives the whole catalog. *)
Theorem selection_exact (value : string) (ids : list string) l selected :
  (ParseScenarioIDs value = Ok ids ↔
     (value = ""%string ∧ ids = []) ∨
     (ids ≠ [] ∧ value = GoStrings.Join "," ids ∧ Forall clean_id ids ∧ NoDup ids ∧
      Forall (λ id, ","%char ∉ String.list_ascii_of_string id) ids)) ∧
  (Select l ids = Ok selected ↔
     (ids = [] ∧ selected = l) ∨
     (ids ≠ [] ∧ NoDup (map ID l) ∧ NoDup ids ∧ map ID selected = ids ∧ ∀ x, x ∈ selected → x ∈ l)).
Proof.
  split.
  - unfold ParseScenarioIDs. destruct (str_empty value) eqn:Ev.
    { apply str_empty_true in Ev as ->. split; [intros [= <-]; by left|].
      intros [[_ ->]|(Hne & Hj & Hc & _)]; [done|]. exfalso.
      destruct ids as [|i [|j ids]]; [done| |]; apply Forall_cons in Hc as [[Hi _] _]; simpl in Hj.
      - congruence.
      - destruct i; [done|discriminate]. }
    destruct (Split_spec "," value) as (Hne & Hj & Hf).
    assert (Hval : value ≠ ""%string) by (intros He; apply str_empty_true in He; congruence).
    pose proof (check_selectors_spec (GoStrings.Split "," value) ∅) as Hspec.
    destruct (check_selectors ∅ _); (split; [intros H|intros [[? _]|(H1 & H2 & H3 & H4 & H5)]]; try done).
    + injection H as <-. right. destruct (proj1 Hspec eq_refl) as (Hc & Hn & _). by split_and!.
    + rewrite H2, Split_Join by done. done.
    + exfalso. assert (false = true) as [=]. apply Hspec.
      rewrite H2, Split_Join by done. split_and!; [done|done|set_solver].
  - unfold Select. destruct ids as [|id ids]; [naive_solver|].
    pose proof (known_scenarios_spec l ∅) as Hk. destruct (known_scenarios l ∅) as [m|e]; cbn [rbind].
    2: { split; [done|]. intros [[? _]|(_ & Hn & _)]; [done|]. exfalso. apply Hk. split; [done|].
         intros. apply lookup_empty. }
    destruct Hk as (Hnd & _ & Hm).
    assert (Hid : ∀ i x, m !! i = Some x → ID x = i).
    { intros i x [H|[_ H]]%Hm; [by rewrite lookup_empty in H|done]. }
    pose proof (select_loop_spec m (id :: ids) ∅ [] Hid) as Hs.
    destruct (select_loop m ∅ (id :: ids) []) as [sel|e].
    + destruct Hs as (Hn & _ & tail & -> & Hmap & Hin). simpl. split.
      * intros [= <-]. right. split_and!; try done. intros x Hx. apply Hin, Hm in Hx as [H|[H _]]; [|done].
        by rewrite lookup_empty in H.
      * intros [[? _]|(_ & _ & _ & Hsel & Hall)]; [done|]. f_equal.
        assert (Huniq : ∀ a b : list (Scenario W K), map ID a = map ID b →
          (∀ x, x ∈ a → m !! ID x = Some x) → (∀ x, x ∈ b → m !! ID x = Some x) → a = b).
        { clear. induction a as [|x a IH]; intros [|y b] Heq Ha Hb; try done. injection Heq as Hxy Heq.
          f_equal; [|apply IH; set_solver].
          assert (Some x = Some y) as [=]; [|done].
          rewrite <- (Ha x), <- (Hb y), Hxy by set_solver. done. }
        apply Huniq; [congruence|done|]. intros x Hx. apply Hm. right. auto.
    + split; [done|]. intros [[? _]|(_ & _ & Hn & Hsel & Hall)]; [done|]. exfalso. apply Hs.
      split_and!; [done|set_solver|]. intros i Hi. rewrite <- Hsel in Hi.
      apply list_elem_of_In, in_map_iff in Hi as (x & <- & Hx). exists x. apply Hm. right.
      split; [|done]. by apply Hall, list_elem_of_In.
Qed.
End Selection.

(** Evidence is complete exactly when every fact was recorded as true. *)
Lemma RequireFacts_exact (r : Result) (names : list string) :
  Diagnostics.Err (RequireFacts r names (MkEvidence [])) = None ↔ Forall (λ name, Facts r !! name = Some true) names.
Proof.
  assert (H : ∀ e, Diagnostics.Err (RequireFacts r names e) = None ↔
    errors e = [] ∧ Forall (λ name, Facts r !! name = Some true) names); [|rewrite H; naive_solver].
  induction names as [|name names IH]; intros e; simpl.
  { unfold Diagnostics.Err, RequireFacts. simpl. destruct (errors e); simpl; split; try done; naive_solver. }
  change (RequireFacts r (name :: names) e) with
    (RequireFacts r names (if negb (default false (Facts r !! name))
                           then Errorf ("missing evidence " +:+ name) e else e)).
  rewrite IH, Forall_cons. destruct (Facts r !! name) as [[]|]; simpl; [naive_solver| |];
    (split; [intros [H _]; by destruct (errors e)|naive_solver]).
Qed.
End RunnerProps.
