(* ===== verification/Ctap2.v ===== *)
(** * CTAP2 messages: src/pkg/ctap2

    The command and response types and their validation.  CBOR is a library:
    the class [Cbor] holds its marshal function for each request type and its
    unmarshal function for each response type, which the [cbor] struct tags
    of the source determine.  [any] of Go is a parameter, a [nil] pointer is
    [None], and the response target of a command is a typed value, the one that
    [DecodeInto] finds in a target of any type; Clone is the identity on these values,
    and is modelled over memory in Copies. *)
From S2P Require Import Prelude GoErrors.

(** ** types.go *)
Module Types.
Definition COSEKeyTypeEC2 : Z := 2.
Definition COSEAlgorithmECDHESHKDF256 : Z := -25.
Definition COSECurveP256 : Z := 1.

Record COSEKey := MkCOSE {
  KeyType : Z;
  Algorithm : Z;
  Curve : Z;
  X : bytes;
  Y : bytes;
}.

Definition ValidateEC2 (key : option COSEKey) : res COSEKey :=
  match key with
  | None => Err (EMsg "ctap2: COSE key is required")
  | Some key =>
      if negb (KeyType key =? COSEKeyTypeEC2) then Err (EMsg "ctap2: COSE key type must be %d")
      else if negb (Algorithm key =? 0) && negb (Algorithm key =? COSEAlgorithmECDHESHKDF256)
      then Err (EMsg "ctap2: COSE key algorithm must be %d")
      else if negb (Curve key =? COSECurveP256) then Err (EMsg "ctap2: COSE key curve must be %d")
      else if (len (X key) =? 0) || (len (Y key) =? 0)
      then Err (EMsg "ctap2: COSE key must include both EC2 coordinates")
      else if (32 <? len (X key)) || (32 <? len (Y key))
      then Err (EMsg "ctap2: COSE key coordinates must be at most 32 bytes")
      else Ok key
  end.

Record RelyingPartyEntity := MkRP { RPID : string; RPName : string }.
Record UserEntity := MkUser { UserID : bytes; UserName : string; DisplayName : string }.
Record CredentialParameter := MkParam { ParamType : string; Alg : Z }.
Record CredentialDescriptor := MkCredential {
  CredType : string;
  CredID : bytes;
  Transports : list string;
}.
Record MakeCredentialOptions := MkMCOptions {
  MCResidentKey : bool;
  MCUserPresence : bool;
  MCUserVerification : bool;
}.
Record GetAssertionOptions := MkGAOptions { GAUserPresence : bool; GAUserVerification : bool }.

Definition PermissionMakeCredential : Z := 0x01.
Definition PermissionGetAssertion : Z := 0x02.
Definition PermissionCredentialManagement : Z := 0x04.
Definition PermissionBioEnrollment : Z := 0x08.
Definition PermissionLargeBlobWrite : Z := 0x10.
Definition PermissionAuthenticatorConfig : Z := 0x20.
End Types.

(** ** errors.go: the message of a status code *)
Module Status.
Definition names : list (Z * string) :=
  [(0x00, "success"); (0x01, "invalid command"); (0x02, "invalid parameter");
   (0x03, "invalid length"); (0x04, "invalid sequence"); (0x05, "timeout"); (0x06, "channel busy");
   (0x0a, "lock required"); (0x0b, "invalid channel"); (0x11, "CBOR unexpected type");
   (0x12, "invalid CBOR"); (0x14, "missing parameter"); (0x15, "limit exceeded");
   (0x16, "unsupported extension"); (0x17, "fingerprint database full");
   (0x18, "large blob storage full"); (0x19, "credential excluded"); (0x21, "processing");
   (0x22, "invalid credential"); (0x23, "user action pending"); (0x24, "operation pending");
   (0x25, "no operations"); (0x26, "unsupported algorithm"); (0x27, "operation denied");
   (0x28, "key store full"); (0x2b, "unsupported option"); (0x2c, "invalid option");
   (0x2d, "keepalive cancel"); (0x2e, "no credentials"); (0x2f, "user action timeout");
   (0x30, "not allowed"); (0x31, "PIN invalid"); (0x32, "PIN blocked");
   (0x33, "PIN authentication invalid"); (0x34, "PIN authentication blocked");
   (0x35, "PIN not set"); (0x36, "pinUvAuthToken required"); (0x37, "PIN policy violation");
   (0x39, "request too large"); (0x3a, "action timeout"); (0x3b, "user presence required");
   (0x3c, "user verification blocked"); (0x3d, "integrity failure"); (0x3e, "invalid subcommand");
   (0x3f, "user verification invalid"); (0x40, "unauthorized permission"); (0x7f, "other error");
   (0xdf, "specification-defined error boundary"); (0xe0, "extension-specific error");
   (0xef, "extension-specific error boundary"); (0xf0, "vendor-specific error");
   (0xff, "vendor-specific error boundary")]%string.

Definition statusText (code : Z) : string :=
  match List.find (λ p, p.1 =? code) names with Some p => p.2 | None => "unknown status" end.
End Status.

(** ** Requests and responses, in the order of the files *)
Module Messages.
Import Types.

Definition CommandMakeCredential : Z := 0x01.
Definition CommandGetAssertion : Z := 0x02.
Definition CommandGetInfo : Z := 0x04.
Definition CommandClientPIN : Z := 0x06.
Definition CommandReset : Z := 0x07.
Definition CommandCredentialManagement : Z := 0x0a.
Definition CommandCredentialManagementPreview : Z := 0x41.

(** *** client_pin.go *)
Definition ClientPINGetRetries : Z := 0x01.
Definition ClientPINGetKeyAgreement : Z := 0x02.
Definition ClientPINSetPIN : Z := 0x03.
Definition ClientPINChangePIN : Z := 0x04.
Definition ClientPINGetPINToken : Z := 0x05.
Definition ClientPINGetPINTokenWithUV : Z := 0x06.
Definition ClientPINGetUVRetries : Z := 0x07.
Definition ClientPINGetPINTokenWithPIN : Z := 0x09.

(** [ClientPINCommand] and its wire form [clientPINRequest]: the same fields. *)
Record ClientPINCommand := MkPIN {
  PinUVAuthProtocol : Z;
  Subcommand : Z;
  KeyAgreement : option COSEKey;
  PinUVAuthParam : bytes;
  NewPINEnc : bytes;
  PINHashEnc : bytes;
  Permissions : Z;
  PermissionsRPID : string;
}.

Definition NewClientPINCommand (protocolVersion subcommand : Z) : ClientPINCommand :=
  MkPIN protocolVersion subcommand None [] [] [] 0 "".
Definition NewClientPINGetRetriesCommand (protocolVersion : Z) : ClientPINCommand :=
  NewClientPINCommand protocolVersion ClientPINGetRetries.

Record ClientPINResponse := MkPINResponse {
  RKeyAgreement : option COSEKey;
  RPinUVAuthToken : bytes;
  RPINRetries : Z;
  RPowerCycleState : bool;
  RUVRetries : Z;
}.
Definition zero_pin_response : ClientPINResponse := MkPINResponse None [] 0 false 0.

(** *** credential_management.go *)
Definition CredentialManagementGetMetadata : Z := 0x01.
Definition CredentialManagementEnumerateRPsBegin : Z := 0x02.
Definition CredentialManagementEnumerateRPsGetNext : Z := 0x03.
Definition CredentialManagementEnumerateCredentialsBegin : Z := 0x04.
Definition CredentialManagementEnumerateCredentialsGetNext : Z := 0x05.
Definition CredentialManagementDeleteCredential : Z := 0x06.
Definition CredentialManagementUpdateUserInformation : Z := 0x07.

Record CredentialManagementSubcommandParams := MkParams {
  PRPIDHash : bytes;
  PCredentialID : option CredentialDescriptor;
  PUser : option UserEntity;
}.

Record CredentialManagementCommand := MkCM {
  CommandCode : Z;
  CMSubcommand : Z;
  SubcommandParams : option CredentialManagementSubcommandParams;
  CMProtocol : Z;
  CMParam : bytes;
}.

Record credentialManagementRequest := MkCMRequest {
  QSubcommand : Z;
  QParams : option CredentialManagementSubcommandParams;
  QProtocol : Z;
  QParam : bytes;
}.

(** [PublicKey] is a [map[int64]any]; the program never reads it. *)
Record CredentialManagementResponse := MkCMResponse {
  ExistingCount : Z;
  MaxRemainingCount : Z;
  CRP : option RelyingPartyEntity;
  CRPIDHash : bytes;
  TotalRPs : Z;
  CUser : option UserEntity;
  CCredentialID : option CredentialDescriptor;
  TotalCredentials : Z;
  CCredProtect : Z;
  CLargeBlobKey : bytes;
}.
Definition zero_cm_response : CredentialManagementResponse :=
  MkCMResponse 0 0 None [] 0 None None 0 0 [].

Definition NewCredentialManagementCommand (commandCode subcommand : Z) : CredentialManagementCommand :=
  MkCM (if commandCode =? 0 then CommandCredentialManagement else commandCode) subcommand None 0 [].
Definition CommandByte (command : CredentialManagementCommand) : Z :=
  if CommandCode command =? 0 then CommandCredentialManagement else CommandCode command.

(** *** get_info.go *)
Record getInfoResponseWire := MkInfo {
  Versions : list string;
  Extensions : list string;
  AAGUID : bytes;
  Options : gmap string bool;
  MaxMsgSize : Z;
  PinUVAuthProtocols : list Z;
  MaxCredentialCountInList : Z;
  MaxCredentialIDLength : Z;
  InfoTransports : list string;
  Algorithms : list CredentialParameter;
  MaxSerializedLargeBlobArray : Z;
  ForcePINChange : bool;
  MinPINLength : Z;
  FirmwareVersion : Z;
  MaxCredBlobLength : Z;
  MaxRPIDsForSetMinPINLength : Z;
  PreferredPlatformUVAttempts : Z;
  UVModality : Z;
  Certifications : gmap string Z;
  RemainingDiscoverableCredentials : Z;
  VendorPrototypeConfigCommands : list Z;
}.
(** The fields of the wire form, which [UnmarshalCBOR] copies, and [Raw]. *)
Record GetInfoResponse := MkInfoResponse { Wire :> getInfoResponseWire; Raw : gmap Z bytes }.
Definition zero_info : GetInfoResponse :=
  MkInfoResponse (MkInfo [] [] [] ∅ 0 [] 0 0 [] [] 0 false 0 0 0 0 0 0 ∅ 0 []) ∅.

Definition has_raw (key : Z) (r : GetInfoResponse) : bool := bool_decide (is_Some (Raw r !! key)).

Definition Validate (r : GetInfoResponse) : res GetInfoResponse :=
  if len (Versions r) =? 0 then Err (EMsg "ctap2: get info response missing versions")
  else if negb (len (AAGUID r) =? 16)
  then Err (EMsg "ctap2: get info response has invalid AAGUID length %d")
  else if has_raw 0x06 r && (len (PinUVAuthProtocols r) =? 0)
  then Err (EMsg "ctap2: get info response pinUvAuthProtocols must not be empty")
  else if has_raw 0x09 r && (len (InfoTransports r) =? 0)
  then Err (EMsg "ctap2: get info response transports must not be empty")
  else if has_raw 0x0A r && (len (Algorithms r) =? 0)
  then Err (EMsg "ctap2: get info response algorithms must not be empty")
  else Ok r.

Section Any.
Context {Any : Type}.

(** *** get_assertion.go and make_credential.go: command and wire request
    have the same fields. *)
Record GetAssertionCommand := MkGA {
  GARPID : string;
  GAClientDataHash : bytes;
  AllowList : list CredentialDescriptor;
  GAExtensions : gmap string Any;
  GAOptions : option GetAssertionOptions;
  GAParam : bytes;
  GAProtocol : Z;
}.
Definition NewGetAssertionCommand (rpID : string) (clientDataHash : bytes) : GetAssertionCommand :=
  MkGA rpID clientDataHash [] ∅ None [] 0.

Record GetAssertionResponse := MkGAResponse {
  ACredential : CredentialDescriptor;
  AAuthData : bytes;
  ASignature : bytes;
  AUser : option UserEntity;
  NumberOfCredentials : Z;
  UserSelected : bool;
  ALargeBlobKey : bytes;
}.
Definition zero_assertion : GetAssertionResponse :=
  MkGAResponse (MkCredential "" [] []) [] [] None 0 false [].

Record MakeCredentialCommand := MkMC {
  MCClientDataHash : bytes;
  RelyingParty : RelyingPartyEntity;
  MCUser : UserEntity;
  CredentialParameters : list CredentialParameter;
  ExcludeList : list CredentialDescriptor;
  MCExtensions : gmap string Any;
  MCOptions : option MakeCredentialOptions;
  MCParam : bytes;
  MCProtocol : Z;
  EnterpriseAttestation : Z;
}.
Definition NewMakeCredentialCommand (clientDataHash : bytes) (relyingParty : RelyingPartyEntity)
    (user : UserEntity) (credentialParameters : list CredentialParameter) : MakeCredentialCommand :=
  MkMC clientDataHash relyingParty user credentialParameters [] ∅ None [] 0 0.

Record MakeCredentialResponse := MkMCResponse {
  Format : string;
  MAuthData : bytes;
  AttestationStatement : option (gmap string Any);
  MEnterpriseAttestation : bool;
  MLargeBlobKey : bytes;
}.
Definition zero_attestation : MakeCredentialResponse := MkMCResponse "" [] None false [].
End Any.
Arguments GetAssertionCommand : clear implicits.
Arguments MakeCredentialCommand : clear implicits.
Arguments MakeCredentialResponse : clear implicits.
End Messages.

(** The CBOR library on the types of the program. *)
Class Cbor (Any : Type) := {
  marshal_pin : Messages.ClientPINCommand → res bytes;
  marshal_params : Messages.CredentialManagementSubcommandParams → res bytes;
  marshal_cm : Messages.credentialManagementRequest → res bytes;
  marshal_assertion : Messages.GetAssertionCommand Any → res bytes;
  marshal_credential : Messages.MakeCredentialCommand Any → res bytes;
  unmarshal_pin : bytes → res Messages.ClientPINResponse;
  unmarshal_cm : bytes → res Messages.CredentialManagementResponse;
  unmarshal_info : bytes → res Messages.getInfoResponseWire;
  unmarshal_raw : bytes → res (gmap Z bytes);
  unmarshal_assertion : bytes → res Messages.GetAssertionResponse;
  unmarshal_credential : bytes → res (Messages.MakeCredentialResponse Any);
}.

Module Codec.
Import Types Messages.

Section Codec.
Context {Any : Type} `{!Cbor Any}.

(** ** cbor.go.  A nil request is [None]. *)
Definition encodeCommand (command : Z) (request : option (res bytes)) : res bytes :=
  match request with
  | None => Ok [command]
  | Some (Ok encoded) => Ok (command :: encoded)
  | Some (Err e) => Err (EFmt "ctap2: encode command 0x%02x: %w" [e])
  end.

(** [zero]: the target as the caller declared it; [unmarshal = None]: a nil target. *)
Definition decodeCommandResponse {T} (zero : T) (unmarshal : option (bytes → res T)) (data : bytes)
    : res T :=
  match data with
  | [] => Err (EMsg "ctap2: response is empty")
  | status :: body =>
      if negb (status =? 0) then Err (ECtap2 status)
      else
        match body, unmarshal with
        | [], _ | _, None => Ok zero
        | _, Some f =>
            match f body with Ok r => Ok r | Err e => Err (EFmt "ctap2: decode response: %w" [e]) end
        end
  end.

(** A response target of any type: a pointer, perhaps nil, to a value of the
    type of a name, or something else.  DecodeInto takes a pointer to the type
    it is called at. *)
Inductive Target (value : string → Type) :=
  | PointerTo (T : string) (target : option (value T))
  | OtherTarget.
Definition DecodeInto {value : string → Type} (T operation : string) (response : Target value) : res (value T) :=
  let prefix := ("ctap2: " ++ (if String.eqb operation "" then "" else operation ++ " "))%string in
  let refused := Err (EMsg (prefix ++ "response target must be *" ++ T)) in
  match response with
  | PointerTo _ U (Some target) =>
      match String.string_dec U T with
      | left E => Ok (eq_rect U value target T E)
      | right _ => refused
      end
  | _ => refused
  end.

(** ** client_pin.go *)
Definition EncodeClientPIN (command : ClientPINCommand) : res bytes :=
  if Subcommand command =? 0 then Err (EMsg "ctap2: client PIN subcommand is required")
  else
    match KeyAgreement command with
    | None => encodeCommand CommandClientPIN (Some (marshal_pin command))
    | Some key =>
        match ValidateEC2 (Some key) with
        | Err e => Err (EFmt "ctap2: client PIN key agreement: %w" [e])
        | Ok _ => encodeCommand CommandClientPIN (Some (marshal_pin command))
        end
    end.

Definition DecodeClientPIN (data : bytes) : res ClientPINResponse :=
  target ←? decodeCommandResponse zero_pin_response (Some unmarshal_pin) data;
  match RKeyAgreement target with
  | None => Ok target
  | Some key =>
      match ValidateEC2 (Some key) with
      | Err e => Err (EFmt "ctap2: decode client PIN response: %w" [e])
      | Ok _ => Ok target
      end
  end.

(** ** credential_management.go *)
Definition encodedSubcommandParams (command : CredentialManagementCommand) : res bytes :=
  match SubcommandParams command with
  | None => Ok []
  | Some params =>
      match marshal_params params with
      | Ok encoded => Ok encoded
      | Err e => Err (EFmt "ctap2: encode credential management params: %w" [e])
      end
  end.

Definition AuthenticationMessage (command : CredentialManagementCommand) : res bytes :=
  if CMSubcommand command =? 0
  then Err (EMsg "ctap2: credential management subcommand is required")
  else
    encodedParams ←? encodedSubcommandParams command;
    Ok (u8 (CMSubcommand command) :: encodedParams).

Definition EncodeCM (command : CredentialManagementCommand) : res bytes :=
  if CMSubcommand command =? 0
  then Err (EMsg "ctap2: credential management subcommand is required")
  else
    encodeCommand (CommandByte command)
      (Some (marshal_cm (MkCMRequest (CMSubcommand command) (SubcommandParams command)
                           (CMProtocol command) (CMParam command)))).

Definition DecodeCM (data : bytes) : res CredentialManagementResponse :=
  decodeCommandResponse zero_cm_response (Some unmarshal_cm) data.

(** ** get_info.go *)
Definition UnmarshalCBOR (data : bytes) : res GetInfoResponse :=
  wire ←? unmarshal_info data;
  raw ←? unmarshal_raw data;
  Ok (MkInfoResponse wire raw).

Definition EncodeGetInfo : res bytes := Ok [CommandGetInfo].
Definition DecodeGetInfo (data : bytes) : res GetInfoResponse :=
  target ←? decodeCommandResponse zero_info (Some UnmarshalCBOR) data;
  Validate target.

(** ** get_assertion.go *)
Definition EncodeGetAssertion (command : GetAssertionCommand Any) : res bytes :=
  if String.eqb (GARPID command) "" then Err (EMsg "ctap2: get assertion rpId is required")
  else if negb (len (GAClientDataHash command) =? 32)
  then Err (EMsg "ctap2: get assertion clientDataHash must be 32 bytes")
  else encodeCommand CommandGetAssertion (Some (marshal_assertion command)).

Definition DecodeGetAssertion (data : bytes) : res GetAssertionResponse :=
  target ←? decodeCommandResponse zero_assertion (Some unmarshal_assertion) data;
  if len (CredID (ACredential target)) =? 0
  then Err (EMsg "ctap2: get assertion response missing credential id")
  else if len (AAuthData target) =? 0
  then Err (EMsg "ctap2: get assertion response missing authData")
  else if len (ASignature target) =? 0
  then Err (EMsg "ctap2: get assertion response missing signature")
  else Ok target.

(** ** make_credential.go *)
Definition EncodeMakeCredential (command : MakeCredentialCommand Any) : res bytes :=
  if negb (len (MCClientDataHash command) =? 32)
  then Err (EMsg "ctap2: make credential clientDataHash must be 32 bytes")
  else if String.eqb (RPID (RelyingParty command)) ""
  then Err (EMsg "ctap2: make credential rp.id is required")
  else if len (CredentialParameters command) =? 0
  then Err (EMsg "ctap2: make credential pubKeyCredParams is required")
  else encodeCommand CommandMakeCredential (Some (marshal_credential command)).

Definition DecodeMakeCredential (data : bytes) : res (MakeCredentialResponse Any) :=
  target ←? decodeCommandResponse zero_attestation (Some unmarshal_credential) data;
  if String.eqb (Format target) "" then Err (EMsg "ctap2: make credential response missing fmt")
  else if len (MAuthData target) =? 0
  then Err (EMsg "ctap2: make credential response missing authData")
  else
    match AttestationStatement target with
    | None => Err (EMsg "ctap2: make credential response missing attStmt")
    | Some _ => Ok target
    end.

(** ** reset.go *)
Definition EncodeReset : res bytes := encodeCommand CommandReset None.
Definition DecodeReset (data : bytes) : res () := decodeCommandResponse () None data.
End Codec.
End Codec.

Module CodecProps.
Import Types Messages Codec.

Section Props.
Context {Any : Type} `{!Cbor Any}.

Lemma encodeCommand_Ok command request bs :
  encodeCommand command (Some request) = Ok bs ↔ ∃ body, request = Ok body ∧ bs = command :: body.
Proof. destruct request as [body|e]; simpl; naive_solver. Qed.

Lemma decodeCommand_Ok {T} (zero : T) f data r :
  decodeCommandResponse zero (Some f) data = Ok r ↔
  ∃ body, data = 0 :: body ∧ ((body = [] ∧ r = zero) ∨ (body ≠ [] ∧ f body = Ok r)).
Proof.
  unfold decodeCommandResponse. destruct data as [|status body]; [naive_solver|].
  destruct (Z.eqb_spec status 0) as [->|Hne]; cbn [negb]; [|naive_solver].
  destruct body as [|b body].
  - split; [intros [= <-]; eauto|]. intros (? & [= <-] & [[_ ->]|[? _]]); done.
  - destruct (f (b :: body)) as [r'|e] eqn:E; split; try done.
    + intros [= <-]. exists (b :: body). split; [done|]. right. by split.
    + intros (? & [= <-] & [[? _]|[_ Hr]]); congruence.
    + intros (? & [= <-] & [[? _]|[_ Hr]]); congruence.
Qed.

Lemma decodeCommand_status {T} (zero : T) f status body :
  status ≠ 0 → decodeCommandResponse zero f (status :: body) = Err (ECtap2 status).
Proof. intros Hs. simpl. destruct (Z.eqb_spec status 0); [done|]. done. Qed.

(** A target is taken when it points to a value of the type, and only then. *)
Lemma DecodeInto_exact {value : string → Type} T operation (response : Target value) r :
  DecodeInto T operation response = Ok r ↔ response = PointerTo _ T (Some r).
Proof.
  unfold DecodeInto. split.
  - destruct response as [U [p|]|]; try done. destruct (String.string_dec U T) as [<-|]; [|done]. by intros [= ->].
  - intros ->. destruct (String.string_dec T T) as [E|]; [|done].
    by rewrite (Eqdep_dec.UIP_dec String.string_dec E eq_refl).
Qed.

Lemma ValidateEC2_Ok key key' : ValidateEC2 key = Ok key' ↔
  key = Some key' ∧ KeyType key' = COSEKeyTypeEC2 ∧
  (Algorithm key' = 0 ∨ Algorithm key' = COSEAlgorithmECDHESHKDF256) ∧ Curve key' = COSECurveP256 ∧
  (0 < len (X key') ≤ 32) ∧ (0 < len (Y key') ≤ 32).
Proof.
  unfold ValidateEC2. destruct key as [k|]; [|naive_solver].
  pose proof (len_nonneg (X k)). pose proof (len_nonneg (Y k)).
  destruct (Z.eqb_spec (KeyType k) COSEKeyTypeEC2); cbn [negb]; [|naive_solver].
  destruct (Z.eqb_spec (Algorithm k) 0), (Z.eqb_spec (Algorithm k) COSEAlgorithmECDHESHKDF256);
    cbn [negb andb]; try naive_solver;
  (destruct (Z.eqb_spec (Curve k) COSECurveP256); cbn [negb]; [|naive_solver]);
  destruct (Z.eqb_spec (len (X k)) 0), (Z.eqb_spec (len (Y k)) 0); cbn [orb];
    try (split; [done|]; intros ([= ->] & ?); lia);
  destruct (Z.ltb_spec 32 (len (X k))), (Z.ltb_spec 32 (len (Y k))); cbn [orb];
    try (split; [done|]; intros ([= ->] & ?); lia);
  (split; [intros [= <-]; split_and!; auto; lia|by intros ([= ->] & _)]).
Qed.

Lemma eqb_empty s : String.eqb s "" = false ↔ s ≠ ""%string.
Proof. apply String.eqb_neq. Qed.

Lemma len_empty {A} (l : list A) : (len l =? 0) = false ↔ l ≠ [].
Proof. rewrite Z.eqb_neq, len_zero. done. Qed.

(** [if c { return err }] succeeded. *)
Lemma guarded {A} (c : bool) (e : goerror) (k : res A) a :
  (if c then Err e else k) = Ok a ↔ c = false ∧ k = Ok a.
Proof. destruct c; naive_solver. Qed.

Lemma Validate_Ok r r' : Validate r = Ok r' ↔
  r' = r ∧ Versions r ≠ [] ∧ len (AAGUID r) = 16 ∧
  (is_Some (Raw r !! 0x06) → PinUVAuthProtocols r ≠ []) ∧
  (is_Some (Raw r !! 0x09) → InfoTransports r ≠ []) ∧
  (is_Some (Raw r !! 0x0A) → Algorithms r ≠ []).
Proof.
  assert (Hraw : ∀ {A} k (l : list A),
    has_raw k r && (len l =? 0) = false ↔ (is_Some (Raw r !! k) → l ≠ [])).
  { intros A k l. unfold has_raw. rewrite <-len_empty. case_bool_decide; simpl; naive_solver. }
  unfold Validate. rewrite !guarded, !Hraw, len_empty, negb_false_iff, Z.eqb_eq. naive_solver.
Qed.

(** CTAP2 messages are admitted and decoded exactly.  MakeCredential and
    GetAssertion requests are encoded precisely when their required members
    have the sizes CTAP2 demands, as the command byte and the CBOR of the
    request; a response is accepted precisely when its status byte is zero
    and its CBOR body decodes to a value with every required member; and any
    other status becomes the CTAP2 error of that code. *)
Theorem messages_exact :
  (∀ command bs, EncodeMakeCredential command = Ok bs ↔
     len (MCClientDataHash command) = 32 ∧ RPID (RelyingParty command) ≠ ""%string ∧
     CredentialParameters command ≠ [] ∧
     ∃ body, marshal_credential command = Ok body ∧ bs = CommandMakeCredential :: body) ∧
  (∀ command bs, EncodeGetAssertion command = Ok bs ↔
     GARPID command ≠ ""%string ∧ len (GAClientDataHash command) = 32 ∧
     ∃ body, marshal_assertion command = Ok body ∧ bs = CommandGetAssertion :: body) ∧
  (∀ data r, DecodeMakeCredential data = Ok r ↔
     ∃ body, data = 0 :: body ∧ body ≠ [] ∧ unmarshal_credential body = Ok r ∧
       Format r ≠ ""%string ∧ MAuthData r ≠ [] ∧ AttestationStatement r ≠ None) ∧
  (∀ data r, DecodeGetAssertion data = Ok r ↔
     ∃ body, data = 0 :: body ∧ body ≠ [] ∧ unmarshal_assertion body = Ok r ∧
       CredID (ACredential r) ≠ [] ∧ AAuthData r ≠ [] ∧ ASignature r ≠ []) ∧
  (∀ data r, DecodeGetInfo data = Ok r ↔
     ∃ body, data = 0 :: body ∧ body ≠ [] ∧
       unmarshal_info body = Ok (Wire r) ∧ unmarshal_raw body = Ok (Raw r) ∧
       Versions r ≠ [] ∧ len (AAGUID r) = 16 ∧
       (is_Some (Raw r !! 0x06) → PinUVAuthProtocols r ≠ []) ∧
       (is_Some (Raw r !! 0x09) → InfoTransports r ≠ []) ∧
       (is_Some (Raw r !! 0x0A) → Algorithms r ≠ [])) ∧
  (∀ status body, status ≠ 0 →
     DecodeMakeCredential (status :: body) = Err (ECtap2 status) ∧
     DecodeGetAssertion (status :: body) = Err (ECtap2 status) ∧
     DecodeGetInfo (status :: body) = Err (ECtap2 status) ∧
     DecodeClientPIN (status :: body) = Err (ECtap2 status) ∧
     DecodeCM (status :: body) = Err (ECtap2 status) ∧
     DecodeReset (status :: body) = Err (ECtap2 status)).
Proof.
  split_and!.
  - intros c bs. unfold EncodeMakeCredential.
    by rewrite !guarded, negb_false_iff, Z.eqb_eq, eqb_empty, len_empty, encodeCommand_Ok.
  - intros c bs. unfold EncodeGetAssertion.
    by rewrite !guarded, negb_false_iff, Z.eqb_eq, eqb_empty, encodeCommand_Ok.
  - intros data r. unfold DecodeMakeCredential. rewrite rbind_Ok. setoid_rewrite decodeCommand_Ok.
    setoid_rewrite guarded. setoid_rewrite eqb_empty. setoid_rewrite guarded. setoid_rewrite len_empty.
    split.
    + intros (t & (body & -> & [[-> ->]|[Hb Ht]]) & Hf & Hm & Ha); [done|].
      destruct (AttestationStatement t) eqn:E; simplify_eq. exists body. split_and!; try done. congruence.
    + intros (body & -> & Hb & Hu & Hf & Hm & Ha). exists r. split; [exists body; split; [done|by right]|].
      split_and!; try done. by destruct (AttestationStatement r).
  - intros data r. unfold DecodeGetAssertion. rewrite rbind_Ok. setoid_rewrite decodeCommand_Ok.
    setoid_rewrite guarded. setoid_rewrite guarded. setoid_rewrite guarded. setoid_rewrite len_empty.
    split.
    + intros (t & (body & -> & [[-> ->]|[Hb Ht]]) & Hf & Hm & Ha & [= <-]); [done|]. eauto 10.
    + intros (body & -> & Hb & Hu & Hf & Hm & Ha). exists r. split; [exists body; split; [done|by right]|].
      by split_and!.
  - intros data r. unfold DecodeGetInfo. rewrite rbind_Ok. setoid_rewrite decodeCommand_Ok.
    setoid_rewrite Validate_Ok. unfold UnmarshalCBOR. setoid_rewrite rbind_Ok. setoid_rewrite rbind_Ok. split.
    + intros (t & (body & -> & [[-> ->]|[Hb (w & Hw & raw & Hr & [= <-])]]) & -> & Hv); [by destruct Hv|].
      exists body. by split_and!; try apply Hv.
    + intros (body & -> & Hb & Hw & Hr & Hv). exists r. split; [|by split].
      exists body. split; [done|]. right. split; [done|]. exists (Wire r). split; [done|].
      exists (Raw r). split; [done|]. by destruct r.
  - intros status body Hs. unfold DecodeMakeCredential, DecodeGetAssertion, DecodeGetInfo,
      DecodeClientPIN, DecodeCM, DecodeReset. by rewrite !decodeCommand_status.
Qed.
End Props.
End CodecProps.
