(* ===== verification/PinProtocol.v ===== *)
(** * PIN/UV auth protocols: src/internal/client/ctap2/protocol.go

    The two pinUvAuthProtocols of the platform side.  The primitives (the AES
    block, SHA-256, P-256) are the class [Crypto], with their documented laws
    in [CryptoLaws]; the modes the standard library builds of them and the
    program calls (CBC, HMAC, HKDF) are defined.  Random bytes and ephemeral
    keys come from the world.  [Authenticator] is the other side of the
    protocol, written independently from the specification: the reference the
    theorems compare with. *)
From S2P Require Import Prelude GoErrors GoIO Ctap2.

Definition string_bytes (s : string) : bytes :=
  map (λ a, Z.of_N (Ascii.N_of_ascii a)) (String.list_ascii_of_string s).

Class Crypto := {
  aes_encrypt : bytes → bytes → bytes;
  aes_decrypt : bytes → bytes → bytes;
  sha256 : bytes → bytes;
  (** [ecdh.P256().NewPublicKey] accepts the uncompressed point. *)
  p256_valid : bytes → bool;
  private_key : Type;
  public_bytes : private_key → bytes;
  ecdh : private_key → bytes → res bytes;
}.

(** Documented behaviour: AES decrypts what it encrypts, blocks have 16
    bytes; SHA-256 has 32; a P-256 public key is 65 bytes from 4 on, is
    accepted, and both sides of an exchange compute one secret of 32 bytes. *)
Class CryptoLaws `{Crypto} := {
  aes_inverse k b : len k = 32 → length b = 16%nat → aes_decrypt k (aes_encrypt k b) = b;
  aes_encrypt_length k b : length (aes_encrypt k b) = 16%nat;
  aes_decrypt_length k b : length (aes_decrypt k b) = 16%nat;
  sha256_length m : length (sha256 m) = 32%nat;
  public_shape a : ∃ x y, public_bytes a = 4 :: x ++ y ∧ length x = 32%nat ∧ length y = 32%nat;
  public_valid a : p256_valid (public_bytes a) = true;
  ecdh_agrees a b : ∃ s, ecdh a (public_bytes b) = Ok s ∧ ecdh b (public_bytes a) = Ok s ∧
                         length s = 32%nat;
}.

(** [crypto/rand.Read] and [GenerateKey]. *)
Class Random `{Crypto} (W : Type) := {
  rand_Read : nat → W → res bytes * W;
  GenerateKey : W → res private_key * W;
}.

(** ** The modes of the standard library *)
Module Modes.
Section Modes.
Context `{Crypto}.

Definition BlockSize : Z := 16.
Definition xor_bytes (a b : bytes) : bytes := zip_with Z.lxor a b.

(** [NewCBCEncrypter(block, iv).CryptBlocks] over [n] blocks. *)
Fixpoint cbc_encrypt (n : nat) (key iv plaintext : bytes) : bytes :=
  match n with
  | O => []
  | S n =>
      let c := aes_encrypt key (xor_bytes (take 16 plaintext) iv) in
      c ++ cbc_encrypt n key c (drop 16 plaintext)
  end.

Fixpoint cbc_decrypt (n : nat) (key iv ciphertext : bytes) : bytes :=
  match n with
  | O => []
  | S n =>
      let c := take 16 ciphertext in
      xor_bytes (aes_decrypt key c) iv ++ cbc_decrypt n key c (drop 16 ciphertext)
  end.

Definition blocks (bs : bytes) : nat := (length bs / 16)%nat.

(** [aes.NewCipher] accepts keys of 16, 24 and 32 bytes. *)
Definition NewCipher (key : bytes) : res () :=
  if (len key =? 16) || (len key =? 24) || (len key =? 32) then Ok ()
  else Err (EMsg "crypto/aes: invalid key size").

(** [hmac.New(sha256.New, key)]: keys longer than a block are hashed. *)
Definition hmac (key message : bytes) : bytes :=
  let k := pad_to 64 (if 64 <? len key then sha256 key else key) in
  sha256 (map (Z.lxor 0x5c) k ++ sha256 (map (Z.lxor 0x36) k ++ message)).

(** [hkdf.Key] for one block of output. *)
Definition hkdf (secret salt : bytes) (info : string) (keyLength : nat) : bytes :=
  take keyLength (hmac (hmac salt secret) (string_bytes info ++ [1])).
End Modes.
End Modes.

(** ** protocol.go *)
Module Protocol.
Import Types Messages Codec Modes.

Section Protocol.
Context `{HC : Crypto}.

Definition unsupported_protocol {A} : res A := Err (EMsg "client: unsupported pinUvAuthProtocol %d").

Definition SelectPINUVAuthProtocol (protocols : list Z) : res Z :=
  if len protocols =? 0 then Ok 1
  else if existsb (Z.eqb 2) protocols then Ok 2
  else if existsb (Z.eqb 1) protocols then Ok 1
  else Err (EMsg "client: supported pinUvAuthProtocol not found").

Definition leftPadCoordinate (coordinate : bytes) : bytes :=
  if len coordinate =? 32 then coordinate
  else replicate (32 - length coordinate) 0 ++ coordinate.

Definition COSEEC2PublicKey (coseKey : option COSEKey) : res bytes :=
  key ←? ValidateEC2 coseKey;
  let encoded := 4 :: leftPadCoordinate (X key) ++ leftPadCoordinate (Y key) in
  if p256_valid encoded then Ok encoded
  else Err (EFmt "client: parse COSE EC2 public key: %w" [EMsg "crypto/ecdh: invalid public key"]).

Definition pinProtocolKDF (protocolVersion : Z) (sharedPoint : bytes) : res bytes :=
  if protocolVersion =? 1 then Ok (sha256 sharedPoint)
  else if protocolVersion =? 2 then
    let salt := replicate 32 0 in
    Ok (hkdf sharedPoint salt "CTAP2 HMAC key" 32 ++ hkdf sharedPoint salt "CTAP2 AES key" 32)
  else unsupported_protocol.

Definition PinProtocol1Encrypt (key plaintext : bytes) : res bytes :=
  if negb (len plaintext mod BlockSize =? 0)
  then Err (EMsg "client: plaintext length %d is not a multiple of %d")
  else
    match NewCipher key with
    | Err e => Err (EFmt "client: create AES cipher: %w" [e])
    | Ok _ => Ok (cbc_encrypt (blocks plaintext) key (replicate 16 0) plaintext)
    end.

Definition PinProtocol1Decrypt (key ciphertext : bytes) : res bytes :=
  if negb (len ciphertext mod BlockSize =? 0)
  then Err (EMsg "client: ciphertext length %d is not a multiple of %d")
  else
    match NewCipher key with
    | Err e => Err (EFmt "client: create AES cipher: %w" [e])
    | Ok _ => Ok (cbc_decrypt (blocks ciphertext) key (replicate 16 0) ciphertext)
    end.

(** [key[32:64]]. *)
Definition aes_part (key : bytes) : bytes := slice 32 64 key.

Definition pinProtocol2Decrypt (key ciphertext : bytes) : res bytes :=
  if len key <? 64 then Err (EMsg "client: pinUvAuthProtocol 2 shared secret is too short")
  else if len ciphertext <? BlockSize
  then Err (EMsg "client: pinUvAuthProtocol 2 ciphertext is too short")
  else
    let iv := take 16 ciphertext in
    let ct := drop 16 ciphertext in
    if negb (len ct mod BlockSize =? 0)
    then Err (EMsg "client: ciphertext length %d is not a multiple of %d")
    else
      match NewCipher (aes_part key) with
      | Err e => Err (EFmt "client: create AES cipher: %w" [e])
      | Ok _ => Ok (cbc_decrypt (blocks ct) (aes_part key) iv ct)
      end.

Definition pinProtocolDecrypt (protocolVersion : Z) (key ciphertext : bytes) : res bytes :=
  if protocolVersion =? 1 then PinProtocol1Decrypt key ciphertext
  else if protocolVersion =? 2 then pinProtocol2Decrypt key ciphertext
  else unsupported_protocol.

Definition PinProtocol1Authenticate (key message : bytes) : bytes := take 16 (hmac key message).
Definition pinProtocol2Authenticate (key message : bytes) : bytes :=
  hmac (if 32 <? len key then take 32 key else key) message.

Definition PinProtocolAuthenticate (protocolVersion : Z) (key message : bytes) : bytes :=
  if protocolVersion =? 2 then pinProtocol2Authenticate key message
  else PinProtocol1Authenticate key message.

Definition PinProtocolAuthParam `{!Cbor Any} (protocolVersion : Z) (key : bytes)
    (command : CredentialManagementCommand) : res bytes :=
  message ←? AuthenticationMessage command;
  Ok (PinProtocolAuthenticate protocolVersion key message).

Record pinProtocolSession := MkPinSession {
  version : Z;
  sharedSecret : bytes;
  keyAgreement : COSEKey;
}.

Context {W : Type} `{!Random W}.

Definition pinProtocol2Encrypt (key plaintext : bytes) : M W bytes :=
  if len key <? 64 then throw (EMsg "client: pinUvAuthProtocol 2 shared secret is too short")
  else if negb (len plaintext mod BlockSize =? 0)
  then throw (EMsg "client: plaintext length %d is not a multiple of %d")
  else
    match NewCipher (aes_part key) with
    | Err e => throw (EFmt "client: create AES cipher: %w" [e])
    | Ok _ =>
        iv ←! map_err (λ e, EFmt "client: generate pinUvAuthProtocol 2 IV: %w" [e])
                (λ w, Some (rand_Read 16 w));
        ret (iv ++ cbc_encrypt (blocks plaintext) (aes_part key) iv plaintext)
    end.

Definition pinProtocolEncrypt (protocolVersion : Z) (key plaintext : bytes) : M W bytes :=
  if protocolVersion =? 1 then lift (PinProtocol1Encrypt key plaintext)
  else if protocolVersion =? 2 then pinProtocol2Encrypt key plaintext
  else lift unsupported_protocol.

Definition newPINProtocolSession (protocolVersion : Z) (peerKeyAgreement : option COSEKey)
    : M W pinProtocolSession :=
  peerPublicKey ←! lift (COSEEC2PublicKey peerKeyAgreement);
  privateKey ←! map_err (λ e, EFmt "client: generate key agreement key: %w" [e])
                  (λ w, Some (GenerateKey w));
  sharedPoint ←! map_err (λ e, EFmt "client: derive shared secret: %w" [e])
                   (lift (ecdh privateKey peerPublicKey));
  sharedSecret ←! lift (pinProtocolKDF protocolVersion sharedPoint);
  let publicKeyBytes := public_bytes privateKey in
  ret (MkPinSession protocolVersion sharedSecret
         (MkCOSE COSEKeyTypeEC2 COSEAlgorithmECDHESHKDF256 COSECurveP256
            (slice 1 33 publicKeyBytes) (slice 33 65 publicKeyBytes))).
End Protocol.
End Protocol.

(** ** The authenticator's side of the protocols

    Written from CTAP 2.1, sections 6.5.6 and 6.5.7, and not from protocol.go:
    of the program's side it uses nothing but the message types and the modes
    of the standard library.  A shared secret is a pair of keys. *)
Module Authenticator.
Import Types Messages Modes.

Record secrets := MkSecrets { mac_key : bytes; aes_key : bytes }.

Section Authenticator.
Context `{HC : Crypto}.

(** The key agreement key: kty EC2 (2), alg ECDH-ES+HKDF-256 (-25), crv P-256
    (1), and the two coordinates of the uncompressed point. *)
Definition cose (a : private_key) : COSEKey :=
  MkCOSE 2 (-25) 1 (take 32 (drop 1 (public_bytes a))) (take 32 (drop 33 (public_bytes a))).

(** [kdf(Z)]: protocol 1 hashes the coordinate, protocol 2 expands it twice. *)
Definition derive (protocol : Z) (z : bytes) : option secrets :=
  if protocol =? 1 then Some (MkSecrets (sha256 z) (sha256 z))
  else if protocol =? 2 then
    Some (MkSecrets (hkdf z (replicate 32 0) "CTAP2 HMAC key" 32)
                    (hkdf z (replicate 32 0) "CTAP2 AES key" 32))
  else None.

(** [decapsulate(peer COSE key)]. *)
Definition decapsulate (protocol : Z) (a : private_key) (platform : COSEKey) : option secrets :=
  if (KeyType platform =? 2) && (Algorithm platform =? -25) && (Curve platform =? 1) then
    match ecdh a (4 :: X platform ++ Y platform) with
    | Ok z => derive protocol z
    | Err _ => None
    end
  else None.

(** AES-256-CBC: under protocol 1 from the zero vector, under protocol 2 from
    a vector sent before the blocks. *)
Definition encrypt (protocol : Z) (s : secrets) (iv plaintext : bytes) : bytes :=
  if protocol =? 2
  then iv ++ cbc_encrypt (length plaintext / 16) (aes_key s) iv plaintext
  else cbc_encrypt (length plaintext / 16) (aes_key s) (replicate 16 0) plaintext.

Definition decrypt (protocol : Z) (s : secrets) (ciphertext : bytes) : option bytes :=
  let iv := if protocol =? 2 then take 16 ciphertext else replicate 16 0 in
  let blocks := if protocol =? 2 then drop 16 ciphertext else ciphertext in
  if (length iv =? 16)%nat && (length blocks mod 16 =? 0)%nat
  then Some (cbc_decrypt (length blocks / 16) (aes_key s) iv blocks)
  else None.

(** HMAC-SHA-256, of which protocol 1 keeps 16 bytes; under protocol 2 a key
    is cut to its first 32 bytes. *)
Definition authenticate (protocol : Z) (key message : bytes) : bytes :=
  if protocol =? 2 then hmac (take 32 key) message else take 16 (hmac key message).

Definition verify (protocol : Z) (key message signature : bytes) : bool :=
  bytes_eqb signature (authenticate protocol key message).
End Authenticator.
End Authenticator.

Module ProtocolProps.
Import Types Messages Modes Protocol Authenticator.

Section Props.
Context `{HC : Crypto} `{HL : !CryptoLaws}.

Lemma xor_cancel a b : length a = length b → xor_bytes (xor_bytes a b) b = a.
Proof.
  revert b. induction a as [|x a IH]; intros [|y b] Hl; simplify_eq/=; [done|].
  unfold xor_bytes in *. simpl. rewrite IH by done. f_equal.
  by rewrite Z.lxor_assoc, Z.lxor_nilpotent, Z.lxor_0_r.
Qed.

Lemma length_xor a b : length a = length b → length (xor_bytes a b) = length a.
Proof. intros Hl. unfold xor_bytes. rewrite length_zip_with. lia. Qed.

Lemma cbc_encrypt_length n : ∀ key iv pt, length (cbc_encrypt n key iv pt) = (n * 16)%nat.
Proof.
  induction n as [|n IH]; intros key iv pt; [done|]. simpl.
  by rewrite length_app, aes_encrypt_length, IH.
Qed.

Lemma cbc_inverse n : ∀ key iv pt, len key = 32 → length iv = 16%nat → length pt = (n * 16)%nat →
  cbc_decrypt n key iv (cbc_encrypt n key iv pt) = pt.
Proof.
  induction n as [|n IH]; intros key iv pt Hk Hiv Hpt; [by destruct pt|].
  cbn [cbc_encrypt cbc_decrypt]. set (x := xor_bytes (take 16 pt) iv).
  assert (Ht : length (take 16 pt) = 16%nat) by (rewrite length_take; lia).
  assert (Hx : length x = 16%nat) by (unfold x; rewrite length_xor; lia).
  pose proof (aes_encrypt_length key x) as Hc.
  rewrite take_app_length' by done. rewrite drop_app_length' by done.
  rewrite IH; [|done|done|rewrite length_drop; lia].
  rewrite aes_inverse by done. unfold x. rewrite xor_cancel by lia. apply take_drop.
Qed.

Lemma blocks_exact bs : len bs mod BlockSize = 0 → length bs = (blocks bs * 16)%nat.
Proof.
  unfold len, BlockSize, blocks. intros Hm.
  assert (Hn : (length bs mod 16 = 0)%nat) by (apply Nat2Z.inj; rewrite Nat2Z.inj_mod; exact Hm).
  pose proof (Nat.div_mod_eq (length bs) 16). lia.
Qed.

Lemma blocks_length n bs : length bs = (n * 16)%nat → blocks bs = n.
Proof. intros Hl. unfold blocks. rewrite Hl. apply Nat.div_mul. lia. Qed.

Lemma aligned_length n (bs : bytes) : length bs = (n * 16)%nat → len bs mod BlockSize = 0.
Proof. intros Hl. unfold len, BlockSize. rewrite Hl, Nat2Z.inj_mul. apply Z.mod_mul. lia. Qed.

Lemma hmac_length key m : length (hmac key m) = 32%nat.
Proof. apply sha256_length. Qed.

Lemma KDF_length v z s : pinProtocolKDF v z = Ok s →
  (v = 1 ∧ len s = 32) ∨ (v = 2 ∧ len s = 64).
Proof.
  unfold pinProtocolKDF, unsupported_protocol.
  destruct (Z.eqb_spec v 1) as [->|]; [intros [= <-]; left; unfold len; by rewrite sha256_length|].
  destruct (Z.eqb_spec v 2) as [->|]; [|done]. intros [= <-]. right. split; [done|].
  unfold len, hkdf. by rewrite length_app, !length_take, !hmac_length.
Qed.

(** A secret of the protocol's length. *)
Definition secret_ok (v : Z) (key : bytes) : Prop := (v = 1 ∧ len key = 32) ∨ (v = 2 ∧ len key = 64).

Lemma NewCipher_32 key : len key = 32 → NewCipher key = Ok ().
Proof. intros Hk. unfold NewCipher. by rewrite Hk. Qed.

Lemma aes_part_len key : len key = 64 → len (aes_part key) = 32.
Proof. unfold len, aes_part, slice. rewrite length_take, length_drop. lia. Qed.

Lemma cose_shape a :
  4 :: X (cose a) ++ Y (cose a) = public_bytes a ∧
  length (X (cose a)) = 32%nat ∧ length (Y (cose a)) = 32%nat.
Proof.
  destruct (public_shape a) as (x & y & Hp & Hx & Hy). unfold cose; cbn [X Y]. rewrite Hp.
  change (drop 1 (4 :: x ++ y)) with (x ++ y). change (drop 33 (4 :: x ++ y)) with (drop 32 (x ++ y)).
  rewrite drop_app_length', take_app_length', (take_ge y) by lia. done.
Qed.

Lemma cose_valid a : ValidateEC2 (Some (cose a)) = Ok (cose a).
Proof.
  destruct (cose_shape a) as (_ & Hx & Hy). apply CodecProps.ValidateEC2_Ok.
  unfold len. rewrite Hx, Hy. split_and!; try done. by right.
Qed.

Lemma leftPad_32 x : length x = 32%nat → leftPadCoordinate x = x.
Proof. intros Hx. unfold leftPadCoordinate, len. by rewrite Hx. Qed.

Lemma COSEEC2_cose a : COSEEC2PublicKey (Some (cose a)) = Ok (public_bytes a).
Proof.
  destruct (cose_shape a) as (He & Hx & Hy). unfold COSEEC2PublicKey. rewrite cose_valid. cbn [rbind]; cbv zeta.
  by rewrite !leftPad_32, He, public_valid by done.
Qed.

(** The bytes in which the program keeps the authenticator's pair of keys. *)
Definition secret_bytes (v : Z) (s : secrets) : bytes :=
  if v =? 2 then mac_key s ++ aes_key s else aes_key s.

Definition secrets_ok (v : Z) (s : secrets) : Prop :=
  length (mac_key s) = 32%nat ∧ length (aes_key s) = 32%nat ∧ (v = 1 → mac_key s = aes_key s).

Lemma secret_bytes_ok v s : v = 1 ∨ v = 2 → secrets_ok v s → secret_ok v (secret_bytes v s).
Proof.
  intros [-> | ->] (Hm & Ha & _); unfold secret_ok, secret_bytes, len; simpl.
  - left. by rewrite Ha.
  - right. by rewrite length_app, Hm, Ha.
Qed.

(** The program's key derivation is the authenticator's. *)
Lemma KDF_derives v z : v = 1 ∨ v = 2 →
  ∃ s, derive v z = Some s ∧ pinProtocolKDF v z = Ok (secret_bytes v s) ∧ secrets_ok v s.
Proof.
  assert (Hk : ∀ salt info, length (hkdf z salt info 32) = 32%nat).
  { intros salt info. unfold hkdf. by rewrite length_take, hmac_length. }
  intros [-> | ->]; unfold derive, pinProtocolKDF; simpl; (eexists; split; [reflexivity|]).
  - split; [done|]. unfold secrets_ok; cbn [mac_key aes_key]. by rewrite sha256_length.
  - split; [done|]. unfold secrets_ok; cbn [mac_key aes_key]. by rewrite !Hk.
Qed.

(** ... as is its authentication, for any key and for a shared secret. *)
Lemma authenticate_same v key m : PinProtocolAuthenticate v key m = authenticate v key m.
Proof.
  unfold PinProtocolAuthenticate, authenticate, pinProtocol2Authenticate, PinProtocol1Authenticate.
  destruct (v =? 2); [|done]. destruct (Z.ltb_spec 32 (len key)) as [|Hl]; [done|].
  unfold len in Hl. by rewrite take_ge by lia.
Qed.

Lemma authenticate_secret v s m : v = 1 ∨ v = 2 → secrets_ok v s →
  PinProtocolAuthenticate v (secret_bytes v s) m = authenticate v (mac_key s) m.
Proof.
  intros Hv (Hm & Ha & He). rewrite authenticate_same. unfold authenticate, secret_bytes.
  destruct Hv as [-> | ->]; simpl; [by rewrite He|].
  by rewrite take_app_length', (take_ge (mac_key s)) by lia.
Qed.

Lemma verify_own v key m : verify v key m (authenticate v key m) = true.
Proof. unfold verify, bytes_eqb. by apply bool_decide_eq_true_2. Qed.

Lemma aes_part_secret s : secrets_ok 2 s → aes_part (secret_bytes 2 s) = aes_key s.
Proof.
  intros (Hm & Ha & _). unfold aes_part, secret_bytes, slice; simpl.
  change (Z.to_nat 64 - Z.to_nat 32)%nat with 32%nat. change (Z.to_nat 32) with 32%nat.
  rewrite drop_app_length' by done. by rewrite take_ge by lia.
Qed.

Lemma encrypt_length v s iv pt n : length iv = 16%nat → length pt = (n * 16)%nat →
  length (encrypt v s iv pt) = (length pt + (if (v =? 2)%Z then 16 else 0))%nat.
Proof.
  intros Hiv Hp. unfold encrypt. destruct (v =? 2); rewrite ?length_app, cbc_encrypt_length, Hp, Nat.div_mul by lia; lia.
Qed.

(** Decryption on the authenticator's side undoes the encryption. *)
Lemma decrypt_encrypt v s iv pt n : length (aes_key s) = 32%nat → length iv = 16%nat →
  length pt = (n * 16)%nat → decrypt v s (encrypt v s iv pt) = Some pt.
Proof.
  intros Ha Hiv Hp. assert (Hk : len (aes_key s) = 32) by (unfold len; by rewrite Ha).
  unfold decrypt, encrypt. rewrite Hp, Nat.div_mul by lia.
  destruct (v =? 2); [rewrite take_app_length', drop_app_length', Hiv by done|];
    rewrite cbc_encrypt_length, Nat.Div0.mod_mul, Nat.div_mul by lia; simpl; by rewrite cbc_inverse.
Qed.

(** The program decrypts what the authenticator encrypts. *)
Lemma pinProtocolDecrypt_encrypt v s iv pt n : v = 1 ∨ v = 2 → secrets_ok v s → length iv = 16%nat →
  length pt = (n * 16)%nat → pinProtocolDecrypt v (secret_bytes v s) (encrypt v s iv pt) = Ok pt.
Proof.
  intros Hv Hs Hiv Hp. pose proof Hs as (Hm & Ha & _). pose proof (secret_bytes_ok v s Hv Hs) as Hok.
  assert (Hk : len (aes_key s) = 32) by (unfold len; by rewrite Ha).
  set (ct := λ iv, cbc_encrypt n (aes_key s) iv pt).
  assert (Hl : ∀ iv, length (ct iv) = (n * 16)%nat) by (intros; apply cbc_encrypt_length).
  unfold pinProtocolDecrypt, encrypt. rewrite Hp, Nat.div_mul by lia. fold (ct iv) (ct (replicate 16 0)).
  destruct Hv as [-> | ->]; cbn [Z.eqb Pos.eqb].
  - unfold PinProtocol1Decrypt. rewrite (aligned_length _ _ (Hl _)), (blocks_length _ _ (Hl _)).
    change (secret_bytes 1 s) with (aes_key s). rewrite NewCipher_32 by done. simpl.
    unfold ct. by rewrite cbc_inverse.
  - unfold pinProtocol2Decrypt. destruct Hok as [[? _]|[_ Hk2]]; [done|].
    rewrite Hk2, aes_part_secret, NewCipher_32, take_app_length', drop_app_length' by done.
    rewrite (aligned_length _ _ (Hl _)), (blocks_length _ _ (Hl _)).
    cbn [Z.ltb Z.compare Pos.compare Pos.compare_cont Z.eqb negb].
    destruct (Z.ltb_spec (len (iv ++ ct iv)) BlockSize) as [Hb|_].
    { unfold len, BlockSize in Hb. rewrite length_app, Hiv in Hb. lia. }
    unfold ct. by rewrite cbc_inverse.
Qed.

Section World.
Context {W : Type} `{!Random W}.

(** Both sides of a key agreement derive the same keys. *)
Lemma session_agrees v a b w w' : v = 1 ∨ v = 2 → GenerateKey w = (Ok b, w') →
  ∃ s, newPINProtocolSession v (Some (cose a)) w =
         Some (Ok (MkPinSession v (secret_bytes v s) (cose b)), w') ∧
    secrets_ok v s ∧ decapsulate v a (cose b) = Some s.
Proof.
  intros Hv Hg. destruct (ecdh_agrees b a) as (z & Hba & Hab & _).
  destruct (KDF_derives v z Hv) as (s & Hd & Hk & Hok). exists s.
  unfold newPINProtocolSession, decapsulate, bind, lift, map_err.
  rewrite COSEEC2_cose, Hg, Hba, Hk. split; [done|]. split; [done|].
  rewrite (proj1 (cose_shape b)), Hab. exact Hd.
Qed.

(** The program's encryption is the authenticator's, from the vector drawn. *)
Lemma encrypt_agrees v s pt n iv w w' : v = 1 ∨ v = 2 → secrets_ok v s → length pt = (n * 16)%nat →
  rand_Read 16 w = (Ok iv, w') →
  pinProtocolEncrypt v (secret_bytes v s) pt w =
    Some (Ok (encrypt v s iv pt), if v =? 2 then w' else w).
Proof.
  intros Hv Hs Hp Hr. pose proof Hs as (Hm & Ha & _). pose proof (secret_bytes_ok v s Hv Hs) as Hok.
  assert (Hk : len (aes_key s) = 32) by (unfold len; by rewrite Ha).
  unfold pinProtocolEncrypt, encrypt. rewrite Hp, Nat.div_mul by lia.
  destruct Hv as [-> | ->]; cbn [Z.eqb Pos.eqb].
  - unfold PinProtocol1Encrypt. rewrite (aligned_length _ _ Hp), (blocks_length _ _ Hp).
    change (secret_bytes 1 s) with (aes_key s). by rewrite NewCipher_32.
  - unfold pinProtocol2Encrypt. destruct Hok as [[? _]|[_ Hk2]]; [done|].
    rewrite Hk2, aes_part_secret, NewCipher_32 by done.
    rewrite (aligned_length _ _ Hp), (blocks_length _ _ Hp).
    cbn [Z.ltb Z.compare Pos.compare Pos.compare_cont Z.eqb negb].
    unfold bind, map_err. by rewrite Hr.
Qed.
End World.
End Props.
End ProtocolProps.
