(* ===== verification/Manager.v ===== *)
(** * The CTAP2 manager: src/internal/client/ctap2/manager.go

    ClientPIN (set, change, retries, tokens) and credential management
    (enumeration, deletion, the fallback to the preview command) over a raw
    command invoker.  [wipeBytes] overwrites buffers no value of this model
    refers to afterwards; it is modelled, over memory, in Copies.  The two
    reference authenticators, CredentialStore and PinStore, are written from
    CTAP 2.1. *)
From S2P Require Import Prelude GoErrors GoIO Ctap2 PinProtocol.

(** [Invoker], with the random source of the protocol sessions. *)
Class Invoker `{Crypto} (W : Type) := {
  invoker_random :: Random W;
  InvokeCTAP2 : ctx → Z → bytes → W → res bytes * W;
}.

Module Manager.
Import Types Messages Codec Modes Protocol.

Definition clientPINPaddedLength : Z := 64.
Definition clientPINChangeAttempts : nat := 3.

Record DiscoverableCredential := MkDiscoverable {
  DRP : RelyingPartyEntity;
  DRPIDHash : bytes;
  DUser : UserEntity;
  DCredential : CredentialDescriptor;
  DCredProtect : Z;
  DLargeBlobKey : bytes;
}.

Record CredentialListResult := MkList {
  LExisting : Z;
  LMaxRemaining : Z;
  LCredentials : list DiscoverableCredential;
}.

Record PINRetries := MkRetries { NPINRetries : Z; NUVRetries : Z; NPowerCycleState : bool }.

Record relyingPartyCredentialSet := MkRPSet { SRP : RelyingPartyEntity; SRPIDHash : bytes }.

(** A nil [*GetInfoResponse] is [None]. *)
Definition optionEnabled (info : option GetInfoResponse) (key : string) : bool :=
  match info with None => false | Some i => default false (Options i !! key) end.

Definition credentialManagementCommandCode (info : option GetInfoResponse) : res Z :=
  match info with
  | None => Err (EMsg "client: no capable protocol")
  | Some _ =>
      if optionEnabled info "credMgmt" then Ok CommandCredentialManagement
      else if optionEnabled info "credentialMgmtPreview" then Ok CommandCredentialManagementPreview
      else Err (EMsg "client: credential management is not supported")
  end.

Definition discoverableCredentialFromResponse (relyingParty : relyingPartyCredentialSet)
    (response : CredentialManagementResponse) : res DiscoverableCredential :=
  match CUser response, CCredentialID response with
  | Some user, Some credential =>
      Ok (MkDiscoverable (SRP relyingParty) (SRPIDHash relyingParty) user credential
            (CCredProtect response) (CLargeBlobKey response))
  | _, _ => Err (EMsg "client: credential management response is incomplete")
  end.

Definition preview_codes : list Z := [0x01; 0x02; 0x12; 0x14; 0x2b; 0x2c; 0x36; 0x3e; 0x40].

Definition shouldRetryCredentialManagementWithPreview (info : option GetInfoResponse) (err : goerror)
    : bool :=
  optionEnabled info "credentialMgmtPreview" &&
  match As as_ctap2 err with Some code => existsb (Z.eqb code) preview_codes | None => false end.

Definition shouldRetryCredentialManagement (err : goerror) : bool :=
  match As as_ctap2 err with Some code => code =? 0x12 | None => false end.
Definition shouldRetryClientPINChange (err : goerror) : bool :=
  match As as_ctap2 err with Some code => code =? 0x12 | None => false end.

Definition padClientPIN (pin : bytes) : res bytes :=
  if len pin =? 0 then Err (EMsg "client: new pin is required")
  else if clientPINPaddedLength - 1 <? len pin then Err (EMsg "client: pin length %d exceeds %d bytes")
  else Ok (pad_to (Z.to_nat clientPINPaddedLength) pin).

Definition NormalizeCredentialDescriptor (credential : CredentialDescriptor) : res CredentialDescriptor :=
  if len (CredID credential) =? 0 then Err (EMsg "client: credential id is required")
  else Ok (MkCredential
             (if String.eqb (CredType credential) "" then "public-key"%string else CredType credential)
             (CredID credential) (Transports credential)).

Section Manager.
Context `{HC : Crypto} {Any W : Type} `{!Cbor Any} `{!Invoker W}.

Definition invoke (c : ctx) (command : Z) (payload : bytes) : M W bytes :=
  λ w, Some (InvokeCTAP2 c command payload w).

(** [encoded, err := command.Encode(); ...; command.DecodeResponse(...)]. *)
Definition client_pin (c : ctx) (command : ClientPINCommand) : M W ClientPINResponse :=
  encoded ←! lift (EncodeClientPIN command);
  responseBytes ←! invoke c CommandClientPIN (drop 1 encoded);
  lift (DecodeClientPIN responseBytes).

Definition invokeCredentialManagement (c : ctx) (command : CredentialManagementCommand)
    : M W CredentialManagementResponse :=
  encoded ←! lift (EncodeCM command);
  responseBytes ←! invoke c (CommandByte command) (drop 1 encoded);
  lift (DecodeCM responseBytes).

Definition getPINProtocolSession (c : ctx) (protocolVersion : Z) : M W pinProtocolSession :=
  response ←! client_pin c (NewClientPINCommand protocolVersion ClientPINGetKeyAgreement);
  match RKeyAgreement response with
  | None => throw (EMsg "client: authenticator did not return key agreement")
  | Some key => newPINProtocolSession protocolVersion (Some key)
  end.

(** *** ClientPIN *)
Definition SetPIN (c : ctx) (info : GetInfoResponse) (newPIN : bytes) : M W () :=
  protocolVersion ←! lift (SelectPINUVAuthProtocol (PinUVAuthProtocols info));
  session ←! getPINProtocolSession c protocolVersion;
  paddedNewPIN ←! lift (padClientPIN newPIN);
  newPINEnc ←! pinProtocolEncrypt (version session) (sharedSecret session) paddedNewPIN;
  _ ←! client_pin c (MkPIN protocolVersion ClientPINSetPIN (Some (keyAgreement session))
         (PinProtocolAuthenticate (version session) (sharedSecret session) newPINEnc)
         newPINEnc [] 0 "");
  ret ().

Definition GetPINRetries (c : ctx) (info : GetInfoResponse) : M W PINRetries :=
  if negb (optionEnabled (Some info) "clientPin")
  then throw (EMsg "client: authenticator does not have a PIN configured")
  else
    protocolVersion ←! lift (SelectPINUVAuthProtocol (PinUVAuthProtocols info));
    response ←! client_pin c (NewClientPINGetRetriesCommand protocolVersion);
    ret (MkRetries (RPINRetries response) (RUVRetries response) (RPowerCycleState response)).

Definition changePINOnce (c : ctx) (info : GetInfoResponse) (currentPIN newPIN : bytes) : M W () :=
  if negb (optionEnabled (Some info) "clientPin")
  then throw (EMsg "client: authenticator does not have a PIN configured")
  else
    protocolVersion ←! lift (SelectPINUVAuthProtocol (PinUVAuthProtocols info));
    session ←! getPINProtocolSession c protocolVersion;
    pinHashEnc ←! pinProtocolEncrypt (version session) (sharedSecret session)
                    (take 16 (sha256 currentPIN));
    paddedNewPIN ←! lift (padClientPIN newPIN);
    newPINEnc ←! pinProtocolEncrypt (version session) (sharedSecret session) paddedNewPIN;
    _ ←! client_pin c (MkPIN protocolVersion ClientPINChangePIN (Some (keyAgreement session))
           (PinProtocolAuthenticate (version session) (sharedSecret session) (newPINEnc ++ pinHashEnc))
           newPINEnc pinHashEnc 0 "");
    ret ().

(** [attempts]: iterations left. *)
Fixpoint change_loop (attempts : nat) (c : ctx) (info : GetInfoResponse) (currentPIN newPIN : bytes)
    : M W () :=
  match attempts with
  | O => ret ()
  | S attempts =>
      r ←! attempt (changePINOnce c info currentPIN newPIN);
      match r with
      | Ok _ => ret ()
      | Err e =>
          if negb (shouldRetryClientPINChange e) then throw e
          else match attempts with
               | O => throw e
               | S _ => change_loop attempts c info currentPIN newPIN
               end
      end
  end.

Definition ChangePIN (c : ctx) (info : GetInfoResponse) (currentPIN newPIN : bytes) : M W () :=
  change_loop clientPINChangeAttempts c info currentPIN newPIN.

(** *** Tokens *)

(** The common tail of the three token requests. *)
Definition request_token (c : ctx) (session : pinProtocolSession) (command : ClientPINCommand)
    : M W bytes :=
  response ←! client_pin c command;
  if len (RPinUVAuthToken response) =? 0
  then throw (EMsg "client: authenticator did not return pinUvAuthToken")
  else lift (pinProtocolDecrypt (version session) (sharedSecret session) (RPinUVAuthToken response)).

Definition getPINTokenWithPermissions (c : ctx) (protocolVersion : Z) (pin : bytes) (permissions : Z)
    (permissionsRPID : string) : M W bytes :=
  session ←! getPINProtocolSession c protocolVersion;
  pinHashEnc ←! pinProtocolEncrypt (version session) (sharedSecret session) (take 16 (sha256 pin));
  request_token c session
    (MkPIN protocolVersion ClientPINGetPINTokenWithPIN (Some (keyAgreement session)) [] [] pinHashEnc
       permissions permissionsRPID).

Definition getUVTokenWithPermissions (c : ctx) (protocolVersion : Z) (permissions : Z)
    (permissionsRPID : string) : M W bytes :=
  session ←! getPINProtocolSession c protocolVersion;
  request_token c session
    (MkPIN protocolVersion ClientPINGetPINTokenWithUV (Some (keyAgreement session)) [] [] []
       permissions permissionsRPID).

Definition getPINToken (c : ctx) (protocolVersion : Z) (pin : bytes) : M W bytes :=
  session ←! getPINProtocolSession c protocolVersion;
  pinHashEnc ←! pinProtocolEncrypt (version session) (sharedSecret session) (take 16 (sha256 pin));
  request_token c session
    (MkPIN protocolVersion ClientPINGetPINToken (Some (keyAgreement session)) [] [] pinHashEnc 0 "").

Definition PinTokenForPermission (c : ctx) (info : GetInfoResponse) (pin : bytes) (permission : Z)
    (permissionsRPID : string) : M W (bytes * Z) :=
  protocolVersion ←! lift (SelectPINUVAuthProtocol (PinUVAuthProtocols info));
  if optionEnabled (Some info) "pinUvAuthToken"
  then
    pinToken ←! getPINTokenWithPermissions c protocolVersion pin permission permissionsRPID;
    ret (pinToken, protocolVersion)
  else
    pinToken ←! getPINToken c protocolVersion pin;
    ret (pinToken, protocolVersion).

Record credentialManagementTokenSource := MkSource {
  token : ctx → Z → Z → M W bytes;
  supportsPreviewCommand : bool;
}.

Definition getCredentialManagementPINToken (c : ctx) (commandCode protocolVersion : Z) (pin : bytes)
    : M W bytes :=
  if commandCode =? CommandCredentialManagementPreview then getPINToken c protocolVersion pin
  else getPINTokenWithPermissions c protocolVersion pin PermissionCredentialManagement "".

Definition getCredentialManagementUVToken (c : ctx) (_ protocolVersion : Z) : M W bytes :=
  getUVTokenWithPermissions c protocolVersion PermissionCredentialManagement "".

Definition pinCredentialManagementTokenSource (pin : bytes) : credentialManagementTokenSource :=
  MkSource (λ c commandCode protocolVersion,
              getCredentialManagementPINToken c commandCode protocolVersion pin) true.
Definition builtInUVCredentialManagementTokenSource : credentialManagementTokenSource :=
  MkSource getCredentialManagementUVToken false.

(** *** Credential management *)

(** A command with its pinUvAuthParam. *)
Definition authenticated (commandCode protocolVersion : Z) (pinToken : bytes) (subcommand : Z)
    (params : option CredentialManagementSubcommandParams) : res CredentialManagementCommand :=
  let command := NewCredentialManagementCommand commandCode subcommand in
  let command := MkCM (CommandCode command) (CMSubcommand command) params protocolVersion [] in
  pinUVAuthParam ←? PinProtocolAuthParam protocolVersion pinToken command;
  Ok (MkCM (CommandCode command) (CMSubcommand command) params protocolVersion pinUVAuthParam).

Definition getCredentialMetadata (c : ctx) (commandCode protocolVersion : Z) (pinToken : bytes)
    : M W CredentialListResult :=
  command ←! lift (authenticated commandCode protocolVersion pinToken
                     CredentialManagementGetMetadata None);
  response ←! invokeCredentialManagement c command;
  ret (MkList (ExistingCount response) (MaxRemainingCount response) []).

(** The loop of [enumerateRelyingParties]. *)
Fixpoint more_rps (fuel : nat) (c : ctx) (commandCode totalRPs : Z)
    (result : list relyingPartyCredentialSet) : M W (list relyingPartyCredentialSet) :=
  if len result <? totalRPs then
    match fuel with
    | O => out_of_fuel
    | S fuel =>
        response ←! invokeCredentialManagement c
          (NewCredentialManagementCommand commandCode CredentialManagementEnumerateRPsGetNext);
        match CRP response with
        | None => throw (EMsg "client: credential management response missing relying party")
        | Some rp => more_rps fuel c commandCode totalRPs (result ++ [MkRPSet rp (CRPIDHash response)])
        end
    end
  else ret result.

Definition enumerateRelyingParties (c : ctx) (commandCode protocolVersion : Z) (pinToken : bytes)
    : M W (list relyingPartyCredentialSet) :=
  command ←! lift (authenticated commandCode protocolVersion pinToken
                     CredentialManagementEnumerateRPsBegin None);
  response ←! invokeCredentialManagement c command;
  match CRP response with
  | None => ret []
  | Some rp =>
      let totalRPs := if TotalRPs response =? 0 then 1 else TotalRPs response in
      more_rps (Z.to_nat totalRPs) c commandCode totalRPs [MkRPSet rp (CRPIDHash response)]
  end.

(** The loop of [enumerateCredentials]. *)
Fixpoint more_credentials (fuel : nat) (c : ctx) (commandCode : Z) (relyingParty : relyingPartyCredentialSet)
    (totalCredentials : Z) (result : list DiscoverableCredential) : M W (list DiscoverableCredential) :=
  if len result <? totalCredentials then
    match fuel with
    | O => out_of_fuel
    | S fuel =>
        response ←! invokeCredentialManagement c
          (NewCredentialManagementCommand commandCode CredentialManagementEnumerateCredentialsGetNext);
        credential ←! lift (discoverableCredentialFromResponse relyingParty response);
        more_credentials fuel c commandCode relyingParty totalCredentials (result ++ [credential])
    end
  else ret result.

Definition enumerateCredentials (c : ctx) (commandCode protocolVersion : Z) (pinToken : bytes)
    (relyingParty : relyingPartyCredentialSet) : M W (list DiscoverableCredential) :=
  command ←! lift (authenticated commandCode protocolVersion pinToken
                     CredentialManagementEnumerateCredentialsBegin
                     (Some (MkParams (SRPIDHash relyingParty) None None)));
  response ←! invokeCredentialManagement c command;
  credential ←! lift (discoverableCredentialFromResponse relyingParty response);
  let totalCredentials := if TotalCredentials response =? 0 then 1 else TotalCredentials response in
  more_credentials (Z.to_nat totalCredentials) c commandCode relyingParty totalCredentials [credential].

(** The loop over the relying parties. *)
Fixpoint all_credentials (c : ctx) (commandCode protocolVersion : Z) (pinToken : bytes)
    (relyingParties : list relyingPartyCredentialSet) (result : list DiscoverableCredential)
    : M W (list DiscoverableCredential) :=
  match relyingParties with
  | [] => ret result
  | relyingParty :: relyingParties =>
      credentials ←! enumerateCredentials c commandCode protocolVersion pinToken relyingParty;
      all_credentials c commandCode protocolVersion pinToken relyingParties (result ++ credentials)
  end.

Definition listCredentialsWithCommand (c : ctx) (commandCode protocolVersion : Z)
    (tokenSource : credentialManagementTokenSource) : M W CredentialListResult :=
  pinToken ←! token tokenSource c commandCode protocolVersion;
  result ←! getCredentialMetadata c commandCode protocolVersion pinToken;
  if LExisting result =? 0 then ret result
  else
    relyingParties ←! enumerateRelyingParties c commandCode protocolVersion pinToken;
    credentials ←! all_credentials c commandCode protocolVersion pinToken relyingParties [];
    ret (MkList (LExisting result) (LMaxRemaining result) credentials).

Definition deleteCredentialWithCommand (c : ctx) (commandCode protocolVersion : Z)
    (credential : CredentialDescriptor) (tokenSource : credentialManagementTokenSource) : M W () :=
  pinToken ←! token tokenSource c commandCode protocolVersion;
  command ←! lift (authenticated commandCode protocolVersion pinToken
                     CredentialManagementDeleteCredential
                     (Some (MkParams [] (Some credential) None)));
  _ ←! invokeCredentialManagement c command;
  ret ().

(** The retry policy [listCredentials] and [deleteCredential] share: [run]
    is the operation with a command code. *)
Definition with_retries {A} (info : option GetInfoResponse) (commandCode : Z) (preview : bool)
    (run : Z → M W A) : M W A :=
  first ←! attempt (run commandCode);
  match first with
  | Ok a => ret a
  | Err e =>
      second ←! (if shouldRetryCredentialManagement e then attempt (run commandCode) else ret (Err e));
      match second with
      | Ok a => ret a
      | Err e =>
          if (commandCode =? CommandCredentialManagement) && preview
             && shouldRetryCredentialManagementWithPreview info e
          then run CommandCredentialManagementPreview
          else throw e
      end
  end.

Definition listCredentials (c : ctx) (info : option GetInfoResponse)
    (tokenSource : credentialManagementTokenSource) : M W CredentialListResult :=
  commandCode ←! lift (credentialManagementCommandCode info);
  protocolVersion ←! lift (SelectPINUVAuthProtocol
                             (match info with Some i => PinUVAuthProtocols i | None => [] end));
  with_retries info commandCode (supportsPreviewCommand tokenSource)
    (λ code, listCredentialsWithCommand c code protocolVersion tokenSource).

Definition deleteCredential (c : ctx) (info : option GetInfoResponse) (credential : CredentialDescriptor)
    (tokenSource : credentialManagementTokenSource) : M W () :=
  commandCode ←! lift (credentialManagementCommandCode info);
  protocolVersion ←! lift (SelectPINUVAuthProtocol
                             (match info with Some i => PinUVAuthProtocols i | None => [] end));
  with_retries info commandCode (supportsPreviewCommand tokenSource)
    (λ code, deleteCredentialWithCommand c code protocolVersion credential tokenSource).

Definition ListCredentials (c : ctx) (info : option GetInfoResponse) (pin : bytes) :=
  listCredentials c info (pinCredentialManagementTokenSource pin).
Definition ListCredentialsWithBuiltInUV (c : ctx) (info : option GetInfoResponse) :=
  listCredentials c info builtInUVCredentialManagementTokenSource.
Definition DeleteCredential (c : ctx) (info : option GetInfoResponse) (credential : CredentialDescriptor)
    (pin : bytes) :=
  deleteCredential c info credential (pinCredentialManagementTokenSource pin).
Definition DeleteCredentialWithBuiltInUV (c : ctx) (info : option GetInfoResponse)
    (credential : CredentialDescriptor) :=
  deleteCredential c info credential builtInUVCredentialManagementTokenSource.
End Manager.
Arguments credentialManagementTokenSource : clear implicits.
End Manager.

(** ** An authenticator with discoverable credentials

    The credential-management commands of CTAP 2.1, section 6.8: begin
    commands are authenticated with the token and set the cursor of the
    enumeration, the others advance it. *)
Module CredentialStore.
Import Types Messages Protocol Authenticator Manager.

Record stored := MkStored {
  s_user : UserEntity;
  s_credential : CredentialDescriptor;
  s_protect : Z;
  s_blob : bytes;
}.
Record entry := MkEntry { e_rp : RelyingPartyEntity; e_hash : bytes; e_creds : list stored }.
Record store := MkStore {
  entries : list entry;
  rest_rps : list entry;
  rest_creds : list stored;
}.

Definition count (es : list entry) : Z := len (concat (map e_creds es)).

Definition rp_response (e : entry) (total : Z) : CredentialManagementResponse :=
  MkCMResponse 0 0 (Some (e_rp e)) (e_hash e) total None None 0 0 [].
Definition cred_response (c : stored) (total : Z) : CredentialManagementResponse :=
  MkCMResponse 0 0 None [] 0 (Some (s_user c)) (Some (s_credential c)) total (s_protect c) (s_blob c).

Definition discoverable (e : entry) (c : stored) : DiscoverableCredential :=
  MkDiscoverable (e_rp e) (e_hash e) (s_user c) (s_credential c) (s_protect c) (s_blob c).
Definition all_discoverable (es : list entry) : list DiscoverableCredential :=
  concat (map (λ e, map (discoverable e) (e_creds e)) es).

Section Store.
Context `{HC : Crypto} {Any : Type} `{!Cbor Any}.

(** A status code, or a response. *)
Definition serve (v : Z) (tok : bytes) (remaining : Z) (q : credentialManagementRequest) (s : store)
    : (Z + CredentialManagementResponse) * store :=
  let params := match QParams q with
                | None => []
                | Some p => match marshal_params p with Ok b => b | Err _ => [] end
                end in
  let ok := (QProtocol q =? v) && verify v tok (u8 (QSubcommand q) :: params) (QParam q) in
  if QSubcommand q =? CredentialManagementGetMetadata then
    if ok then (inr (MkCMResponse (count (entries s)) remaining None [] 0 None None 0 0 []), s)
    else (inl 0x33, s)
  else if QSubcommand q =? CredentialManagementEnumerateRPsBegin then
    if negb ok then (inl 0x33, s)
    else match entries s with
         | [] => (inl 0x2e, s)
         | e :: es => (inr (rp_response e (len (entries s))), MkStore (entries s) es (rest_creds s))
         end
  else if QSubcommand q =? CredentialManagementEnumerateRPsGetNext then
    match rest_rps s with
    | [] => (inl 0x30, s)
    | e :: es => (inr (rp_response e 0), MkStore (entries s) es (rest_creds s))
    end
  else if QSubcommand q =? CredentialManagementEnumerateCredentialsBegin then
    if negb ok then (inl 0x33, s)
    else match List.find (λ e, bytes_eqb (e_hash e)
                     (match QParams q with Some p => PRPIDHash p | None => [] end)) (entries s) with
         | Some e =>
             match e_creds e with
             | [] => (inl 0x2e, s)
             | c :: cs => (inr (cred_response c (len (e_creds e))), MkStore (entries s) (rest_rps s) cs)
             end
         | None => (inl 0x2e, s)
         end
  else if QSubcommand q =? CredentialManagementEnumerateCredentialsGetNext then
    match rest_creds s with
    | [] => (inl 0x30, s)
    | c :: cs => (inr (cred_response c 0), MkStore (entries s) (rest_rps s) cs)
    end
  else (inl 0x3e, s).

Definition reply_bytes (enc : CredentialManagementResponse → bytes)
    (r : Z + CredentialManagementResponse) : bytes :=
  match r with inl code => [code] | inr resp => 0 :: enc resp end.

(** The requests of an enumeration. *)
Definition plain (q : credentialManagementRequest) : Prop :=
  QParams q = None ∨ ∃ h, QParams q = Some (MkParams h None None).
End Store.
End CredentialStore.

(** ** An authenticator with a PIN

    The PIN subcommands of authenticatorClientPIN as CTAP 2.1, section 6.5.5,
    specifies them, with the subcommands and status codes as numbers: the
    reference the PIN operations of the manager are compared with. *)
Module PinStore.
Import Types Messages Authenticator.

Section PinStore.
Context `{HC : Crypto}.

(** The stored PIN is the first half of its hash; [mismatches] counts wrong
    PINs in a row, [issued] the tokens, the last of which has the permissions
    and relying party [granted]. *)
Record state := MkState {
  agreement : private_key;
  stored : option bytes;
  retries : Z;
  mismatches : Z;
  issued : nat;
  granted : option (Z * string);
}.

(** The protocol, the PIN policy, and the values drawn at random: key
    agreement keys, tokens, initialisation vectors. *)
Context (v : Z) (acceptable : bytes → bool) (regenerate : private_key → private_key)
  (tokens vectors : nat → bytes).

Definition pin_digest (pin : bytes) : bytes := take 16 (sha256 pin).

(** A PIN without its trailing zero bytes. *)
Fixpoint strip (bs : bytes) : bytes :=
  match bs with
  | [] => []
  | b :: bs => match strip bs with
               | [] => if b =? 0 then [] else [b]
               | stripped => b :: stripped
               end
  end.

(** A status code, or success with or without a response. *)
Definition reply : Type := Z + option ClientPINResponse.

Definition with_secret (q : ClientPINCommand) (s : state) (k : secrets → reply * state) : reply * state :=
  match KeyAgreement q with
  | None => (inl 0x14, s)
  | Some key =>
      if negb (PinUVAuthProtocol q =? v) then (inl 0x02, s)
      else match decapsulate v (agreement s) key with
           | None => (inl 0x02, s)
           | Some secret => k secret
           end
  end.

(** The PIN of [newPinEnc]: 64 bytes, and as the policy wants it. *)
Definition new_pin (secret : secrets) (newPinEnc : bytes) : Z + bytes :=
  match decrypt v secret newPinEnc with
  | None => inl 0x33
  | Some padded =>
      if negb (len padded =? 64) then inl 0x02
      else if acceptable (strip padded) then inr (strip padded) else inl 0x37
  end.

(** The current PIN, checked against [pinHashEnc] for one retry. *)
Definition check_pin (secret : secrets) (pinHashEnc : bytes) (s : state)
    (k : state → reply * state) : reply * state :=
  match stored s with
  | None => (inl 0x35, s)
  | Some digest =>
      if retries s =? 0 then (inl 0x32, s)
      else if 3 <=? mismatches s then (inl 0x34, s)
      else if match decrypt v secret pinHashEnc with
              | Some h => bytes_eqb h digest
              | None => false
              end
      then k (MkState (agreement s) (stored s) 8 0 (issued s) (granted s))
      else (inl (if retries s - 1 =? 0 then 0x32 else if mismatches s + 1 =? 3 then 0x34 else 0x31),
            MkState (regenerate (agreement s)) (stored s) (retries s - 1) (mismatches s + 1) (issued s)
              (granted s))
  end.

Definition set_pin (q : ClientPINCommand) (s : state) : reply * state :=
  if (len (NewPINEnc q) =? 0) || (len (PinUVAuthParam q) =? 0) then (inl 0x14, s)
  else with_secret q s (λ secret,
    match stored s with
    | Some _ => (inl 0x33, s)
    | None =>
        if negb (verify v (mac_key secret) (NewPINEnc q) (PinUVAuthParam q)) then (inl 0x33, s)
        else match new_pin secret (NewPINEnc q) with
             | inl code => (inl code, s)
             | inr pin => (inr None, MkState (agreement s) (Some (pin_digest pin)) 8 0 (issued s) (granted s))
             end
    end).

(** A changed PIN ends the token in use. *)
Definition change_pin (q : ClientPINCommand) (s : state) : reply * state :=
  if (len (NewPINEnc q) =? 0) || (len (PINHashEnc q) =? 0) || (len (PinUVAuthParam q) =? 0)
  then (inl 0x14, s)
  else with_secret q s (λ secret,
    if negb (verify v (mac_key secret) (NewPINEnc q ++ PINHashEnc q) (PinUVAuthParam q)) then (inl 0x33, s)
    else check_pin secret (PINHashEnc q) s (λ s,
      match new_pin secret (NewPINEnc q) with
      | inl code => (inl code, s)
      | inr pin =>
          (inr None, MkState (agreement s) (Some (pin_digest pin)) (retries s) (mismatches s)
                       (S (issued s)) None)
      end)).

(** A token with [permissions] for [rpid], encrypted for the platform. *)
Definition get_token (q : ClientPINCommand) (permissions : Z) (rpid : string) (s : state) : reply * state :=
  if len (PINHashEnc q) =? 0 then (inl 0x14, s)
  else with_secret q s (λ secret, check_pin secret (PINHashEnc q) s (λ s,
    (inr (Some (MkPINResponse None
                  (encrypt v secret (vectors (S (issued s))) (tokens (S (issued s)))) 0 false 0)),
     MkState (agreement s) (stored s) (retries s) (mismatches s) (S (issued s)) (Some (permissions, rpid))))).

(** getPINRetries, getKeyAgreement, setPIN, changePIN, getPinToken (whose
    token has the permissions mc and ga) and getPinUvAuthTokenUsingPin-
    WithPermissions. *)
Definition serve_pin (q : ClientPINCommand) (s : state) : reply * state :=
  if Subcommand q =? 1 then (inr (Some (MkPINResponse None [] (retries s) false 0)), s)
  else if Subcommand q =? 2 then
    if PinUVAuthProtocol q =? v
    then (inr (Some (MkPINResponse (Some (cose (agreement s))) [] 0 false 0)), s)
    else (inl 0x02, s)
  else if Subcommand q =? 3 then set_pin q s
  else if Subcommand q =? 4 then change_pin q s
  else if Subcommand q =? 5 then
    if (Permissions q =? 0) && String.eqb (PermissionsRPID q) "" then get_token q 3 "" s
    else (inl 0x02, s)
  else if Subcommand q =? 9 then
    if Permissions q =? 0 then (inl 0x02, s) else get_token q (Permissions q) (PermissionsRPID q) s
  else (inl 0x3e, s).

Definition pin_reply_bytes (enc : ClientPINResponse → bytes) (r : reply) : bytes :=
  match r with
  | inl code => [code]
  | inr None => [0]
  | inr (Some response) => 0 :: enc response
  end.

Lemma strip_zeros bs n : strip (bs ++ replicate n 0) = strip bs.
Proof.
  induction bs as [|b bs IH]; simpl; [|by rewrite IH].
  induction n as [|n IH]; simpl; [done|]. by rewrite IH.
Qed.

Lemma strip_pad pin : len pin ≤ 64 → strip (pad_to 64 pin) = strip pin.
Proof. intros Hl. unfold len in Hl. unfold pad_to. rewrite take_ge by lia. apply strip_zeros. Qed.
End PinStore.
End PinStore.

Module ManagerFacts.
Import Types Messages Codec Modes Protocol Authenticator Manager CredentialStore CodecProps.

Section Facts.
Context `{HC : Crypto} {Any W : Type} `{!Cbor Any} `{!Invoker W}.

(** *** Totality *)
Lemma total_invoke c command payload : total (invoke c command payload).
Proof. apply total_call. Qed.
Hint Resolve total_invoke : total.

Lemma total_client_pin c command : total (client_pin c command).
Proof. unfold client_pin. totally. Qed.
Lemma total_cm c command : total (invokeCredentialManagement c command).
Proof. unfold invokeCredentialManagement. totally. Qed.
Hint Resolve total_client_pin total_cm : total.

Lemma total_session c v : total (getPINProtocolSession c v).
Proof. unfold getPINProtocolSession, newPINProtocolSession. totally. Qed.
Lemma total_encrypt v key pt : total (pinProtocolEncrypt v key pt).
Proof. unfold pinProtocolEncrypt, pinProtocol2Encrypt. totally. Qed.
Lemma total_request_token c s command : total (request_token c s command).
Proof. unfold request_token. totally. Qed.
Hint Resolve total_session total_encrypt total_request_token : total.

Lemma total_pin_token c code v pin : total (getCredentialManagementPINToken c code v pin).
Proof.
  unfold getCredentialManagementPINToken, getPINToken, getPINTokenWithPermissions. totally.
Qed.
Lemma total_uv_token c code v : total (getCredentialManagementUVToken c code v).
Proof. unfold getCredentialManagementUVToken, getUVTokenWithPermissions. totally. Qed.

Lemma total_more_rps c code n fuel : ∀ result, (Z.to_nat (n - len result) ≤ fuel)%nat →
  total (more_rps fuel c code n result).
Proof.
  induction fuel as [|fuel IH]; intros result Hf; cbn [more_rps];
    destruct (Z.ltb_spec (len result) n); auto with total; [lia|].
  apply total_bind; [auto with total|]. intros response.
  destruct (CRP response); [|auto with total]. apply IH. rewrite len_app, len_cons, len_nil. lia.
Qed.

Lemma total_more_credentials c code rp n fuel : ∀ result, (Z.to_nat (n - len result) ≤ fuel)%nat →
  total (more_credentials fuel c code rp n result).
Proof.
  induction fuel as [|fuel IH]; intros result Hf; cbn [more_credentials];
    destruct (Z.ltb_spec (len result) n); auto with total; [lia|].
  apply total_bind; [auto with total|]. intros response.
  apply total_bind; [auto with total|]. intros credential.
  apply IH. rewrite len_app, len_cons, len_nil. lia.
Qed.

Lemma total_enumerate_rps c code v tok : total (enumerateRelyingParties c code v tok).
Proof.
  unfold enumerateRelyingParties. totally; apply total_more_rps; unfold len; simpl; lia.
Qed.
Lemma total_enumerate_credentials c code v tok rp : total (enumerateCredentials c code v tok rp).
Proof.
  unfold enumerateCredentials. totally; apply total_more_credentials; unfold len; simpl; lia.
Qed.
Hint Resolve total_enumerate_rps total_enumerate_credentials : total.

Lemma total_all_credentials c code v tok rps : ∀ result, total (all_credentials c code v tok rps result).
Proof. induction rps as [|rp rps IH]; intros result; cbn [all_credentials]; totally. Qed.
Hint Resolve total_all_credentials : total.

Lemma total_list c code v source : (∀ c code v, total (token source c code v)) →
  total (listCredentialsWithCommand c code v source).
Proof. intros Ht. unfold listCredentialsWithCommand, getCredentialMetadata. totally. Qed.
Lemma total_delete c code v cred source : (∀ c code v, total (token source c code v)) →
  total (deleteCredentialWithCommand c code v cred source).
Proof. intros Ht. unfold deleteCredentialWithCommand. totally. Qed.

Lemma total_with_retries {A} info code preview (run : Z → M W A) :
  (∀ code, total (run code)) → total (with_retries info code preview run).
Proof. intros Hr. unfold with_retries. totally. Qed.

(** *** Retries *)
Definition allowed (info : option GetInfoResponse) (preview : bool) (code : Z) (e : goerror) (next : Z)
    : Prop :=
  (next = code ∧ As as_ctap2 e = Some 0x12) ∨
  (code = CommandCredentialManagement ∧ next = CommandCredentialManagementPreview ∧ preview = true ∧
   optionEnabled info "credentialMgmtPreview" = true ∧
   ∃ status, As as_ctap2 e = Some status ∧ In status preview_codes).

(** A sequence of runs, each after the error of the one before. *)
Inductive tries {A} (ok : Z → goerror → Z → Prop) (run : Z → M W A) : list Z → W → res A → W → Prop :=
  | tries_last code w r w' : run code w = Some (r, w') → tries ok run [code] w r w'
  | tries_again code next codes w e w1 r w' :
      run code w = Some (Err e, w1) → ok code e next → tries ok run (next :: codes) w1 r w' →
      tries ok run (code :: next :: codes) w r w'.

Definition plan (code : Z) (codes : list Z) : Prop :=
  codes = [code] ∨ codes = [code; code] ∨ codes = [code; CommandCredentialManagementPreview] ∨
  codes = [code; code; CommandCredentialManagementPreview].

Lemma preview_allowed info preview code e :
  (code =? CommandCredentialManagement) && preview
    && shouldRetryCredentialManagementWithPreview info e = true →
  allowed info preview code e CommandCredentialManagementPreview.
Proof.
  intros [[->%Z.eqb_eq ->]%andb_prop Hs]%andb_prop. right. split_and!; try done;
    unfold shouldRetryCredentialManagementWithPreview in Hs; apply andb_prop in Hs as [Ho Hs]; [done|].
  destruct (As as_ctap2 e) as [status|]; [|done]. exists status. split; [done|].
  apply existsb_exists in Hs as (x & Hin & ->%Z.eqb_eq). done.
Qed.

Lemma with_retries_tries {A} info code preview (run : Z → M W A) w r w' :
  with_retries info code preview run w = Some (r, w') →
  ∃ codes, plan code codes ∧ tries (allowed info preview) run codes w r w'.
Proof.
  unfold with_retries. unfold bind at 1, attempt at 1.
  destruct (run code w) as [[[a|e] w1]|] eqn:E1; [| |done].
  { intros [= <- <-]. exists [code]. split; [by left|by constructor]. }
  assert (Hfin : ∀ e' w2 rr ww, (if (code =? CommandCredentialManagement) && preview
             && shouldRetryCredentialManagementWithPreview info e'
          then run CommandCredentialManagementPreview else throw e') w2 = Some (rr, ww) →
    (rr = Err e' ∧ ww = w2) ∨ (allowed info preview code e' CommandCredentialManagementPreview ∧
      run CommandCredentialManagementPreview w2 = Some (rr, ww))).
  { intros e' w2 rr ww. destruct (_ && _) eqn:Ep; intros H; [right|left].
    - split; [by apply preview_allowed|done].
    - by injection H as <- <-. }
  destruct (shouldRetryCredentialManagement e) eqn:Er.
  - unfold bind, attempt. destruct (run code w1) as [[[a|e'] w2]|] eqn:E2; [| |done].
    all: assert (Hal : allowed info preview code e code) by
      (left; unfold shouldRetryCredentialManagement in Er;
       destruct (As as_ctap2 e); [apply Z.eqb_eq in Er; by subst|done]).
    + intros [= <- <-]. exists [code; code]. split; [by right; left|].
      eapply tries_again; [exact E1|done|by constructor].
    + intros [[-> ->]|[Ha H2]]%Hfin.
      * exists [code; code]. split; [by right; left|]. eapply tries_again; [exact E1|done|by constructor].
      * eexists. split; [by right; right; right|]. eapply tries_again; [exact E1|done|].
        eapply tries_again; [exact E2|done|by constructor].
  - unfold bind, ret. intros [[-> ->]|[Ha H2]]%Hfin.
    + exists [code]. split; [by left|by constructor].
    + eexists. split; [by right; right; left|]. eapply tries_again; [exact E1|done|by constructor].
Qed.

Lemma total_change c i cur new : total (changePINOnce c i cur new).
Proof. unfold changePINOnce. totally. Qed.

Lemma change_loop_tries c i cur new n : ∀ w,
  ∃ r w' codes, change_loop (S n) c i cur new w = Some (r, w') ∧ (1 ≤ length codes ≤ S n)%nat ∧
    tries (λ _ e _, As as_ctap2 e = Some 0x12) (λ _, changePINOnce c i cur new) codes w r w'.
Proof.
  induction n as [|n IH]; intros w; cbn [change_loop]; unfold bind at 1, attempt;
    destruct (total_change c i cur new w) as ([[]|e] & w1 & E); rewrite E.
  1, 3: exists (Ok ()), w1, [0]; (split; [done|]); (split; [simpl; lia|]); by constructor.
  - exists (Err e), w1, [0]. split; [by destruct (shouldRetryClientPINChange e)|].
    split; [simpl; lia|]. by constructor.
  - destruct (shouldRetryClientPINChange e) eqn:Er; cbn [negb].
    + destruct (IH w1) as (r & w' & codes & H1 & H2 & H3). exists r, w', (0 :: codes).
      split; [exact H1|]. split; [simpl; lia|]. destruct codes as [|code codes]; [simpl in H2; lia|].
      eapply tries_again; [exact E| |exact H3]. unfold shouldRetryClientPINChange in Er.
      destruct (As as_ctap2 e); [|done]. apply Z.eqb_eq in Er. by subst.
    + exists (Err e), w1, [0]. split; [done|]. split; [simpl; lia|]. by constructor.
Qed.

(** *** The exported operations always return *)
Lemma total_set_pin c info newPIN : total (SetPIN c info newPIN).
Proof. unfold SetPIN. totally. Qed.
Lemma total_retries c info : total (GetPINRetries c info).
Proof. unfold GetPINRetries. totally. Qed.
Lemma total_change_pin c info cur new : total (ChangePIN c info cur new).
Proof.
  intros w. destruct (change_loop_tries c info cur new 2 w) as (r & w' & _ & H & _). by exists r, w'.
Qed.
Lemma total_token_for c info pin permission rpid : total (PinTokenForPermission c info pin permission rpid).
Proof. unfold PinTokenForPermission, getPINTokenWithPermissions, getPINToken. totally. Qed.
Lemma total_list_credentials c info source : (∀ c code v, total (token source c code v)) →
  total (listCredentials c info source).
Proof.
  intros Ht. unfold listCredentials. totally. apply total_with_retries. intros code. by apply total_list.
Qed.
Lemma total_delete_credential c info cred source : (∀ c code v, total (token source c code v)) →
  total (deleteCredential c info cred source).
Proof.
  intros Ht. unfold deleteCredential. totally. apply total_with_retries. intros code. by apply total_delete.
Qed.
Lemma total_list_pin c info pin : total (ListCredentials c info pin).
Proof. apply total_list_credentials. intros. apply total_pin_token. Qed.
Lemma total_list_uv c info : total (ListCredentialsWithBuiltInUV c info).
Proof. apply total_list_credentials. intros. apply total_uv_token. Qed.
Lemma total_delete_pin c info cred pin : total (DeleteCredential c info cred pin).
Proof. apply total_delete_credential. intros. apply total_pin_token. Qed.
Lemma total_delete_uv c info cred : total (DeleteCredentialWithBuiltInUV c info cred).
Proof. apply total_delete_credential. intros. apply total_uv_token. Qed.
End Facts.
#[export] Hint Resolve total_set_pin total_retries total_change_pin total_token_for
  total_list_pin total_list_uv total_delete_pin total_delete_uv : total.
End ManagerFacts.

Module ManagerProps.
Import Types Messages Codec Modes Protocol Authenticator Manager CredentialStore PinStore CodecProps
  ProtocolProps ManagerFacts.

Section PinDevice.
Context `{HC : Crypto} `{HL : !CryptoLaws} {Any W : Type} `{!Cbor Any} `{!Invoker W}.

(** The authenticator behind the invoker: its state in a world, its protocol,
    policy and random values, and its encoding of responses. *)
Context (st : W → state) (c : ctx) (v : Z) (acceptable : bytes → bool).
Context (regenerate : private_key → private_key) (tokens vectors : nat → bytes).
Context (enc : ClientPINResponse → bytes).

Notation serve := (serve_pin v acceptable regenerate tokens vectors).

Definition answers : Prop :=
  (∀ q, ∃ body, marshal_pin q = Ok body ∧
     ∀ w, ∃ w', InvokeCTAP2 c 0x06 body w = (Ok (pin_reply_bytes enc (serve q (st w)).1), w') ∧
                st w' = (serve q (st w)).2) ∧
  (∀ r, enc r ≠ [] ∧ unmarshal_pin (enc r) = Ok r) ∧
  (∀ w, ∃ iv w', rand_Read 16 w = (Ok iv, w') ∧ length iv = 16%nat ∧ st w' = st w) ∧
  (∀ w, ∃ b w', GenerateKey w = (Ok b, w') ∧ st w' = st w) ∧
  (∀ n, (length (tokens n) = 16%nat ∨ length (tokens n) = 32%nat) ∧ length (vectors n) = 16%nat).

(** *** One command *)
Lemma client_pin_served command w : answers → Subcommand command ≠ 0 →
  (KeyAgreement command = None ∨ ∃ b, KeyAgreement command = Some (cose b)) →
  ∃ w', client_pin c command w =
          Some (DecodeClientPIN (pin_reply_bytes enc (serve command (st w)).1), w') ∧
        st w' = (serve command (st w)).2.
Proof.
  intros (Hq & _) Hs Hk. destruct (Hq command) as (body & Hm & Hi). destruct (Hi w) as (w' & Hw & Hst).
  exists w'. split; [|done]. unfold client_pin.
  assert (He : EncodeClientPIN command = Ok (0x06 :: body)).
  { unfold EncodeClientPIN. apply Z.eqb_neq in Hs. rewrite Hs.
    destruct Hk as [-> |[b ->]]; [|rewrite cose_valid]; by rewrite Hm. }
  rewrite He, bind_lift_Ok. unfold bind, invoke, lift. change CommandClientPIN with 0x06.
  change (drop 1 (0x06 :: body)) with body. by rewrite Hw.
Qed.

Lemma decode_refused code : code ≠ 0 → DecodeClientPIN [code] = Err (ECtap2 code).
Proof. intros Hc. unfold DecodeClientPIN. by rewrite decodeCommand_status. Qed.

Lemma decode_response r : answers → (RKeyAgreement r = None ∨ ∃ b, RKeyAgreement r = Some (cose b)) →
  DecodeClientPIN (0 :: enc r) = Ok r.
Proof.
  intros (_ & He & _) Hk. destruct (He r) as [Hne Hu]. unfold DecodeClientPIN.
  rewrite (proj2 (decodeCommand_Ok zero_pin_response unmarshal_pin (0 :: enc r) r));
    [|exists (enc r); split; [done|by right]].
  cbn [rbind]. destruct Hk as [-> |[b ->]]; [done|]. by rewrite cose_valid.
Qed.

Lemma session_runs w : answers → v = 1 ∨ v = 2 →
  ∃ b k w', getPINProtocolSession c v w = Some (Ok (MkPinSession v (secret_bytes v k) (cose b)), w') ∧
    secrets_ok v k ∧ decapsulate v (agreement (st w)) (cose b) = Some k ∧ st w' = st w.
Proof.
  intros Ha Hv. set (q := NewClientPINCommand v ClientPINGetKeyAgreement).
  destruct (client_pin_served q w Ha) as (w1 & H1 & E1); [done|by left|].
  assert (Hserve : serve q (st w) =
    (inr (Some (MkPINResponse (Some (cose (agreement (st w)))) [] 0 false 0)), st w)).
  { unfold serve_pin. change (Subcommand q) with 2. change (PinUVAuthProtocol q) with v. simpl.
    by rewrite Z.eqb_refl. }
  rewrite Hserve in H1, E1. cbn [fst snd pin_reply_bytes] in H1, E1.
  rewrite decode_response in H1; [|done|right; by eexists].
  pose proof Ha as (_ & _ & _ & Hg & _). destruct (Hg w1) as (b & w' & Hb & E2).
  destruct (session_agrees v (agreement (st w)) b w1 w' Hv Hb) as (k & Hs & Hk & Hd).
  exists b, k, w'. split_and!; [|done|done|congruence].
  unfold getPINProtocolSession. run_ok H1. exact Hs.
Qed.

Lemma encrypts k pt n w : answers → v = 1 ∨ v = 2 → secrets_ok v k → length pt = (n * 16)%nat →
  ∃ iv w', pinProtocolEncrypt v (secret_bytes v k) pt w = Some (Ok (encrypt v k iv pt), w') ∧
    length iv = 16%nat ∧ st w' = st w.
Proof.
  intros (_ & _ & Hr & _) Hv Hk Hp. destruct (Hr w) as (iv & w' & Hi & Hl & E).
  exists iv, (if v =? 2 then w' else w). split; [by eapply encrypt_agrees|]. split; [done|].
  by destruct (v =? 2).
Qed.

Lemma select_range protocols p : SelectPINUVAuthProtocol protocols = Ok p → p = 1 ∨ p = 2.
Proof. unfold SelectPINUVAuthProtocol. repeat case_match; intros [= <-]; auto. Qed.

Lemma pad_ok pin : 0 < len pin ≤ 63 → padClientPIN pin = Ok (pad_to 64 pin).
Proof.
  intros Hp. unfold padClientPIN, clientPINPaddedLength.
  destruct (Z.eqb_spec (len pin) 0); [lia|]. destruct (Z.ltb_spec (64 - 1) (len pin)); [lia|done].
Qed.

Lemma pad_refused pin : len pin = 0 ∨ 63 < len pin →
  ∃ e, padClientPIN pin = Err e ∧ As as_ctap2 e = None.
Proof.
  intros Hp. unfold padClientPIN, clientPINPaddedLength.
  destruct (Z.eqb_spec (len pin) 0); [by eexists|].
  destruct (Z.ltb_spec (64 - 1) (len pin)); [by eexists|lia].
Qed.

Lemma pad_blocks pin : length (pad_to 64 pin) = (4 * 16)%nat.
Proof. by rewrite length_pad_to. Qed.
Lemma digest_block pin : length (pin_digest pin) = (1 * 16)%nat.
Proof. unfold pin_digest. by rewrite length_take, sha256_length. Qed.

(** *** The authenticator's side of one command *)
Lemma nonempty (bs : bytes) n : length bs = S n → (len bs =? 0) = false.
Proof. intros Hl. unfold len. rewrite Hl. by apply Z.eqb_neq. Qed.

Lemma encrypt_nonempty k iv pt n : length iv = 16%nat → length pt = (S n * 16)%nat →
  (len (encrypt v k iv pt) =? 0) = false.
Proof.
  intros Hi Hp. eapply (nonempty _ _). rewrite (encrypt_length v k iv pt (S n)) by done.
  rewrite Hp. simpl. reflexivity.
Qed.

Lemma authenticate_nonempty key m : (len (authenticate v key m) =? 0) = false.
Proof.
  unfold authenticate. destruct (v =? 2); [by apply (nonempty _ 31), hmac_length|].
  apply (nonempty _ 15). by rewrite length_take, hmac_length.
Qed.

Lemma with_secret_runs q s b k f : PinUVAuthProtocol q = v → KeyAgreement q = Some (cose b) →
  decapsulate v (agreement s) (cose b) = Some k → with_secret v q s f = f k.
Proof. intros Hp Hk Hd. unfold with_secret. by rewrite Hk, Hp, Z.eqb_refl, Hd. Qed.

Lemma new_pin_runs k iv pin : secrets_ok v k → length iv = 16%nat → 0 < len pin ≤ 63 →
  new_pin v acceptable k (encrypt v k iv (pad_to 64 pin)) =
    if acceptable (strip pin) then inr (strip pin) else inl 0x37.
Proof.
  intros (_ & Ha & _) Hi Hp. unfold new_pin. rewrite (decrypt_encrypt _ _ _ _ 4) by (done || apply pad_blocks).
  unfold len at 1. rewrite length_pad_to. simpl. by rewrite strip_pad by lia.
Qed.

(** The PIN is checked when neither the retries nor the attempts in a row are
    used up. *)
Definition ready (s : state) : Prop := 0 < retries s ∧ mismatches s < 3.

Lemma check_runs k iv pin s f : secrets_ok v k → length iv = 16%nat → ready s → is_Some (stored s) →
  check_pin v regenerate k (encrypt v k iv (pin_digest pin)) s f =
    if decide (stored s = Some (pin_digest pin))
    then f (MkState (agreement s) (stored s) 8 0 (issued s) (granted s))
    else (inl (if retries s =? 1 then 0x32 else if mismatches s =? 2 then 0x34 else 0x31),
          MkState (regenerate (agreement s)) (stored s) (retries s - 1) (mismatches s + 1) (issued s)
            (granted s)).
Proof.
  intros (_ & Ha & _) Hi [Hr Hm] [digest Hd]. unfold check_pin. rewrite Hd.
  rewrite (decrypt_encrypt _ _ _ _ 1) by (done || apply digest_block).
  destruct (Z.eqb_spec (retries s) 0); [lia|]. destruct (Z.leb_spec 3 (mismatches s)); [lia|].
  unfold bytes_eqb. destruct (decide (Some digest = Some (pin_digest pin))) as [He|He].
  - injection He as ->. by rewrite bool_decide_eq_true_2.
  - rewrite bool_decide_eq_false_2 by congruence.
    replace (retries s - 1 =? 0) with (retries s =? 1) by (destruct (Z.eqb_spec (retries s) 1),
      (Z.eqb_spec (retries s - 1) 0); lia || done).
    by replace (mismatches s + 1 =? 3) with (mismatches s =? 2) by (destruct (Z.eqb_spec (mismatches s) 2),
      (Z.eqb_spec (mismatches s + 1) 3); lia || done).
Qed.

(** *** The operations against the authenticator *)
Definition finished (r : Z + option ClientPINResponse) : res () :=
  match r with inl code => Err (ECtap2 code) | inr _ => Ok () end.

Lemma finish_command command w code_or : answers → Subcommand command ≠ 0 →
  (∃ b, KeyAgreement command = Some (cose b)) → (serve command (st w)).1 = code_or →
  (code_or = inr None ∨ ∃ code, code_or = inl code ∧ code ≠ 0) →
  ∃ w', (_ ←! client_pin c command; ret ()) w = Some (finished code_or, w') ∧
        st w' = (serve command (st w)).2.
Proof.
  intros Ha Hs Hk Hr Hc. destruct (client_pin_served command w Ha Hs (or_intror Hk)) as (w' & H1 & E1).
  exists w'. split; [|done]. rewrite Hr in H1.
  destruct Hc as [-> |(code & -> & Hne)]; cbn [pin_reply_bytes] in H1.
  - by run_ok H1.
  - rewrite decode_refused in H1 by done. by run_err H1.
Qed.

Definition set_outcome (pin : bytes) (s : state) : (Z + option ClientPINResponse) * state :=
  match stored s with
  | Some _ => (inl 0x33, s)
  | None => if acceptable (strip pin)
            then (inr None, MkState (agreement s) (Some (pin_digest (strip pin))) 8 0 (issued s) (granted s))
            else (inl 0x37, s)
  end.

Lemma set_pin_runs (info : GetInfoResponse) pin w : answers → SelectPINUVAuthProtocol (PinUVAuthProtocols info) = Ok v →
  0 < len pin ≤ 63 →
  ∃ w', SetPIN c info pin w = Some (finished (set_outcome pin (st w)).1, w') ∧
        st w' = (set_outcome pin (st w)).2.
Proof.
  intros Ha Hsel Hpin. pose proof (select_range _ _ Hsel) as Hv.
  destruct (session_runs w Ha Hv) as (b & k & w1 & Hses & Hk & Hd & E1).
  destruct (encrypts k (pad_to 64 pin) 4 w1 Ha Hv Hk (pad_blocks pin)) as (iv & w2 & He & Hi & E2).
  unfold SetPIN. rewrite Hsel, bind_lift_Ok. run_ok Hses. cbn [version sharedSecret keyAgreement].
  rewrite (pad_ok pin Hpin), bind_lift_Ok. run_ok He. rewrite authenticate_secret by done.
  set (command := MkPIN _ _ _ _ _ _ _ _).
  assert (Hserve : serve command (st w2) = set_outcome pin (st w)).
  { rewrite E2, E1. unfold serve_pin, set_outcome. cbn [command Subcommand].
    change (ClientPINSetPIN =? 1) with false. change (ClientPINSetPIN =? 2) with false.
    change (ClientPINSetPIN =? 3) with true. cbv iota. unfold set_pin. cbn [command NewPINEnc PinUVAuthParam].
    rewrite (encrypt_nonempty k iv _ 3), authenticate_nonempty by (done || apply pad_blocks).
    cbn [orb]. rewrite (with_secret_runs _ _ b k) by done. destruct (stored (st w)); [done|].
    rewrite verify_own, new_pin_runs by done. cbn [negb]. by destruct (acceptable (strip pin)). }
  rewrite <-Hserve. apply finish_command; [done|done|by exists b|done|].
  rewrite Hserve. unfold set_outcome. destruct (stored (st w)); [right; by eexists|].
  destruct (acceptable _); [by left|right; by eexists].
Qed.

Definition refusal (s : state) : Z :=
  if retries s =? 1 then 0x32 else if mismatches s =? 2 then 0x34 else 0x31.

Definition change_outcome (cur pin : bytes) (s : state) : (Z + option ClientPINResponse) * state :=
  if decide (stored s = Some (pin_digest cur)) then
    if acceptable (strip pin)
    then (inr None, MkState (agreement s) (Some (pin_digest (strip pin))) 8 0 (S (issued s)) None)
    else (inl 0x37, MkState (agreement s) (stored s) 8 0 (issued s) (granted s))
  else (inl (refusal s), MkState (regenerate (agreement s)) (stored s) (retries s - 1) (mismatches s + 1)
                           (issued s) (granted s)).

Lemma refusal_cases s : refusal s = 0x32 ∨ refusal s = 0x34 ∨ refusal s = 0x31.
Proof. unfold refusal. repeat case_match; auto. Qed.

Lemma change_outcome_code cur pin s :
  (change_outcome cur pin s).1 = inr None ∨
  ∃ code, (change_outcome cur pin s).1 = inl code ∧ code ≠ 0 ∧ code ≠ 0x12.
Proof.
  unfold change_outcome. repeat case_match; [by left|right|right]; (eexists; split; [reflexivity|]); [done|].
  destruct (refusal_cases s) as [-> |[-> | ->]]; done.
Qed.

Lemma change_once_runs (info : GetInfoResponse) cur pin w : answers →
  SelectPINUVAuthProtocol (PinUVAuthProtocols info) = Ok v →
  optionEnabled (Some info) "clientPin" = true → 0 < len pin ≤ 63 → ready (st w) → is_Some (stored (st w)) →
  ∃ w', changePINOnce c info cur pin w = Some (finished (change_outcome cur pin (st w)).1, w') ∧
        st w' = (change_outcome cur pin (st w)).2.
Proof.
  intros Ha Hsel Hopt Hpin Hready Hsome. pose proof (select_range _ _ Hsel) as Hv.
  destruct (session_runs w Ha Hv) as (b & k & w1 & Hses & Hk & Hd & E1).
  destruct (encrypts k (pin_digest cur) 1 w1 Ha Hv Hk (digest_block cur)) as (iv & w2 & He & Hi & E2).
  destruct (encrypts k (pad_to 64 pin) 4 w2 Ha Hv Hk (pad_blocks pin)) as (iv' & w3 & He' & Hi' & E3).
  unfold changePINOnce. rewrite Hopt. cbn [negb]. rewrite Hsel, bind_lift_Ok. run_ok Hses.
  cbn [version sharedSecret keyAgreement]. fold (pin_digest cur). run_ok He.
  rewrite (pad_ok pin Hpin), bind_lift_Ok. run_ok He'. rewrite authenticate_secret by done.
  set (command := MkPIN _ _ _ _ _ _ _ _).
  assert (Hserve : serve command (st w3) = change_outcome cur pin (st w)).
  { rewrite E3, E2, E1. unfold serve_pin, change_outcome. cbn [command Subcommand].
    change (ClientPINChangePIN =? 1) with false. change (ClientPINChangePIN =? 2) with false.
    change (ClientPINChangePIN =? 3) with false. change (ClientPINChangePIN =? 4) with true. cbv iota.
    unfold change_pin. cbn [command NewPINEnc PINHashEnc PinUVAuthParam].
    rewrite (encrypt_nonempty k iv _ 0), (encrypt_nonempty k iv' _ 3), authenticate_nonempty
      by (done || apply pad_blocks || apply digest_block).
    cbn [orb]. rewrite (with_secret_runs _ _ b k), verify_own by done. cbn [negb].
    rewrite check_runs by done. case_decide; [|done].
    rewrite new_pin_runs by done. by destruct (acceptable (strip pin)). }
  rewrite <-Hserve. apply finish_command; [done|done|by exists b|done|].
  rewrite Hserve. destruct (change_outcome_code cur pin (st w)) as [?|(code & H1 & H2 & _)]; [by left|].
  right. by exists code.
Qed.

(** One attempt is enough unless it ended in status 0x12. *)
Lemma change_once (info : GetInfoResponse) cur pin w r w' : changePINOnce c info cur pin w = Some (r, w') →
  (∀ e, r = Err e → As as_ctap2 e ≠ Some 0x12) → ChangePIN c info cur pin w = Some (r, w').
Proof.
  intros Hrun Hr. unfold ChangePIN, clientPINChangeAttempts. cbn [change_loop]. unfold bind at 1, attempt.
  rewrite Hrun. destruct r as [[]|e]; [done|]. specialize (Hr e eq_refl).
  assert (Hs : shouldRetryClientPINChange e = false).
  { unfold shouldRetryClientPINChange. destruct (As as_ctap2 e) as [code|]; [|done].
    apply Z.eqb_neq. congruence. }
  by rewrite Hs.
Qed.

Lemma change_pin_runs (info : GetInfoResponse) cur pin w : answers →
  SelectPINUVAuthProtocol (PinUVAuthProtocols info) = Ok v →
  optionEnabled (Some info) "clientPin" = true → 0 < len pin ≤ 63 → ready (st w) → is_Some (stored (st w)) →
  ∃ w', ChangePIN c info cur pin w = Some (finished (change_outcome cur pin (st w)).1, w') ∧
        st w' = (change_outcome cur pin (st w)).2.
Proof.
  intros Ha Hsel Hopt Hpin Hready Hsome.
  destruct (change_once_runs info cur pin w) as (w' & H1 & H2); try done.
  exists w'. split; [|done]. eapply change_once; [exact H1|].
  destruct (change_outcome_code cur pin (st w)) as [-> |(code & -> & _ & Hc)]; [done|].
  intros e [= <-]. simpl. congruence.
Qed.

Lemma length_refused (info : GetInfoResponse) cur pin w : answers →
  SelectPINUVAuthProtocol (PinUVAuthProtocols info) = Ok v → len pin = 0 ∨ 63 < len pin →
  (∃ e w', SetPIN c info pin w = Some (Err e, w') ∧ st w' = st w) ∧
  (∃ e w', ChangePIN c info cur pin w = Some (Err e, w') ∧ st w' = st w).
Proof.
  intros Ha Hsel (e & He & Hn)%pad_refused. pose proof (select_range _ _ Hsel) as Hv.
  destruct (session_runs w Ha Hv) as (b & k & w1 & Hses & Hk & Hd & E1). split.
  - exists e, w1. split; [|done]. unfold SetPIN. rewrite Hsel, bind_lift_Ok. run_ok Hses.
    by rewrite He, bind_lift_Err.
  - destruct (encrypts k (pin_digest cur) 1 w1 Ha Hv Hk (digest_block cur)) as (iv & w2 & Hen & Hi & E2).
    destruct (optionEnabled (Some info) "clientPin") eqn:Hopt.
    + exists e, w2. split; [|congruence]. apply change_once; [|intros ? [= <-]; by rewrite Hn].
      unfold changePINOnce. rewrite Hopt. cbn [negb]. rewrite Hsel, bind_lift_Ok. run_ok Hses.
      cbn [version sharedSecret]. fold (pin_digest cur). run_ok Hen. by rewrite He, bind_lift_Err.
    + exists (EMsg "client: authenticator does not have a PIN configured"), w. split; [|done].
      apply change_once; [|by intros ? [= <-]]. unfold changePINOnce. by rewrite Hopt.
Qed.

Definition token_outcome (cur : bytes) (permissions : Z) (rpid : string) (s : state) : res bytes * state :=
  if decide (stored s = Some (pin_digest cur))
  then (Ok (tokens (S (issued s))),
        MkState (agreement s) (stored s) 8 0 (S (issued s)) (Some (permissions, rpid)))
  else (Err (ECtap2 (refusal s)),
        MkState (regenerate (agreement s)) (stored s) (retries s - 1) (mismatches s + 1) (issued s) (granted s)).

(** A token request under an agreed secret. *)
Lemma request_runs b k iv pin command permissions rpid w : answers → v = 1 ∨ v = 2 → secrets_ok v k →
  decapsulate v (agreement (st w)) (cose b) = Some k → length iv = 16%nat →
  PinUVAuthProtocol command = v → KeyAgreement command = Some (cose b) → Subcommand command ≠ 0 →
  PINHashEnc command = encrypt v k iv (pin_digest pin) →
  serve command (st w) = get_token v regenerate tokens vectors command permissions rpid (st w) →
  ready (st w) → is_Some (stored (st w)) →
  ∃ w', request_token c (MkPinSession v (secret_bytes v k) (cose b)) command w =
          Some ((token_outcome pin permissions rpid (st w)).1, w') ∧
        st w' = (token_outcome pin permissions rpid (st w)).2.
Proof.
  intros Ha Hv Hk Hd Hi Hp Hka Hs Hh Hserve Hready Hsome.
  destruct (client_pin_served command w Ha Hs) as (w' & H1 & E1); [right; by exists b|].
  exists w'. rewrite Hserve in H1, E1. unfold get_token in H1, E1.
  rewrite Hh, (encrypt_nonempty k iv _ 0), (with_secret_runs _ _ b k), check_runs in H1, E1
    by (done || apply digest_block).
  unfold token_outcome. case_decide; cbn [fst snd pin_reply_bytes issued] in *; (split; [|done]).
  - rewrite decode_response in H1; [|done|by left]. unfold request_token. run_ok H1.
    cbn [RPinUVAuthToken version sharedSecret].
    pose proof Ha as (_ & _ & _ & _ & Ht). destruct (Ht (S (issued (st w)))) as [Htok Hvec].
    assert (Hn : ∃ n, length (tokens (S (issued (st w)))) = (S n * 16)%nat)
      by (destruct Htok as [-> | ->]; [by exists 0%nat|by exists 1%nat]).
    destruct Hn as [n Hn]. rewrite (encrypt_nonempty _ _ _ n) by done.
    unfold lift. by rewrite (pinProtocolDecrypt_encrypt v k _ _ (S n)).
  - rewrite decode_refused in H1 by (destruct (refusal_cases (st w)) as [Hr|[Hr|Hr]]; unfold refusal in Hr;
      by rewrite Hr). unfold request_token. by run_err H1.
Qed.

Lemma token_runs (info : GetInfoResponse) pin permission rpid w : answers →
  SelectPINUVAuthProtocol (PinUVAuthProtocols info) = Ok v → permission ≠ 0 →
  ready (st w) → is_Some (stored (st w)) →
  let '(granted, rp) := if optionEnabled (Some info) "pinUvAuthToken" then (permission, rpid)
                        else (3, ""%string) in
  ∃ w', PinTokenForPermission c info pin permission rpid w =
          Some (rbind (token_outcome pin granted rp (st w)).1 (λ tok, Ok (tok, v)), w') ∧
        st w' = (token_outcome pin granted rp (st w)).2.
Proof.
  intros Ha Hsel Hperm Hready Hsome. pose proof (select_range _ _ Hsel) as Hv.
  destruct (session_runs w Ha Hv) as (b & k & w1 & Hses & Hk & Hd & E1).
  destruct (encrypts k (pin_digest pin) 1 w1 Ha Hv Hk (digest_block pin)) as (iv & w2 & He & Hi & E2).
  assert (E : st w2 = st w) by congruence. rewrite <-E in Hd, Hready, Hsome.
  unfold PinTokenForPermission. rewrite Hsel, bind_lift_Ok.
  destruct (optionEnabled (Some info) "pinUvAuthToken").
  - destruct (request_runs b k iv pin (MkPIN v ClientPINGetPINTokenWithPIN (Some (cose b)) [] []
      (encrypt v k iv (pin_digest pin)) permission rpid) permission rpid w2) as (w' & H1 & H2); try done.
    { unfold serve_pin. simpl. by apply Z.eqb_neq in Hperm as ->. }
    rewrite E in H1, H2. exists w'. split; [|done]. unfold getPINTokenWithPermissions, bind at 1.
    run_ok Hses. cbn [version sharedSecret keyAgreement]. fold (pin_digest pin). run_ok He. rewrite H1.
    by destruct (token_outcome _ _ _ _).1.
  - destruct (request_runs b k iv pin (MkPIN v ClientPINGetPINToken (Some (cose b)) [] []
      (encrypt v k iv (pin_digest pin)) 0 "") 3 "" w2) as (w' & H1 & H2); try done.
    rewrite E in H1, H2. exists w'. split; [|done]. unfold getPINToken, bind at 1.
    run_ok Hses. cbn [version sharedSecret keyAgreement]. fold (pin_digest pin). run_ok He. rewrite H1.
    by destruct (token_outcome _ _ _ _).1.
Qed.

(** ** Properties *)

(** C5: a new PIN is the one the authenticator keeps.  Against an
    authenticator written from CTAP 2.1, with its own key derivation,
    authentication and decryption, under protocol 1 or 2: SetPIN of a PIN of 1
    to 63 bytes succeeds when none is stored and the policy accepts it, and
    leaves the digest of that PIN stored with all retries; it is refused with
    status 0x37 by the policy and with 0x33 when a PIN is stored, and changes
    nothing.  ChangePIN with the current PIN succeeds and leaves the digest of
    the new one; with another it costs one retry, is refused with status 0x31
    (0x32 on the last retry, 0x34 on the third mistake in a row) and keeps the
    stored PIN.  An empty PIN or one over 63 bytes is refused by both with the
    authenticator unchanged. *)
Theorem new_pin_accepted (info : GetInfoResponse) pin cur w :
  answers → SelectPINUVAuthProtocol (PinUVAuthProtocols info) = Ok v →
  let s := st w in
  (0 < len pin ≤ 63 →
     (stored s = None → acceptable (strip pin) = true → ∃ w',
        SetPIN c info pin w = Some (Ok (), w') ∧
        st w' = MkState (agreement s) (Some (take 16 (sha256 (strip pin)))) 8 0 (issued s) (granted s)) ∧
     (stored s = None → acceptable (strip pin) = false → ∃ w',
        SetPIN c info pin w = Some (Err (ECtap2 0x37), w') ∧ st w' = s) ∧
     (is_Some (stored s) → ∃ w', SetPIN c info pin w = Some (Err (ECtap2 0x33), w') ∧ st w' = s) ∧
     (optionEnabled (Some info) "clientPin" = true → 0 < retries s → mismatches s < 3 →
        (stored s = Some (take 16 (sha256 cur)) → acceptable (strip pin) = true → ∃ w',
           ChangePIN c info cur pin w = Some (Ok (), w') ∧
           st w' = MkState (agreement s) (Some (take 16 (sha256 (strip pin)))) 8 0 (S (issued s)) None) ∧
        (is_Some (stored s) → stored s ≠ Some (take 16 (sha256 cur)) → ∃ w',
           ChangePIN c info cur pin w =
             Some (Err (ECtap2 (if retries s =? 1 then 0x32 else if mismatches s =? 2 then 0x34 else 0x31)),
                   w') ∧
           st w' = MkState (regenerate (agreement s)) (stored s) (retries s - 1) (mismatches s + 1)
                     (issued s) (granted s)))) ∧
  (len pin = 0 ∨ 63 < len pin →
     (∃ e w', SetPIN c info pin w = Some (Err e, w') ∧ st w' = s) ∧
     (∃ e w', ChangePIN c info cur pin w = Some (Err e, w') ∧ st w' = s)).
Proof.
  intros Ha Hsel s. split; [intros Hpin|by apply length_refused].
  destruct (set_pin_runs info pin w Ha Hsel Hpin) as (w' & H1 & H2). unfold set_outcome in H1, H2.
  fold s in H1, H2. split_and!.
  - intros Hs Hacc. rewrite Hs, Hacc in H1, H2. by exists w'.
  - intros Hs Hacc. rewrite Hs, Hacc in H1, H2. by exists w'.
  - intros [d Hs]. rewrite Hs in H1, H2. by exists w'.
  - intros Hopt Hr Hm. split; [intros Hs Hacc|intros Hsome Hs];
      (destruct (change_pin_runs info cur pin w) as (w2 & H3 & H4);
        [done|done|done|done|done|fold s; rewrite ?Hs; by eauto|]);
      exists w2; unfold change_outcome in H3, H4; fold s in H3, H4.
    + rewrite decide_True, Hacc in H3, H4 by done. done.
    + rewrite decide_False in H3, H4 by done. done.
Qed.

(** C17: a PIN buys the authenticator's token and no other.  Against the same
    authenticator, a token request with the PIN it stores returns exactly the
    token it issued, with the protocol in use; the token is granted the
    permissions and relying party asked for when the authenticator supports
    them (the defaults of getPinToken otherwise), and the retries are restored.
    With another PIN no token is issued and none returned: the request costs
    one retry and fails with the authenticator's status. *)
Theorem pin_token_agrees (info : GetInfoResponse) pin permission rpid w :
  answers → SelectPINUVAuthProtocol (PinUVAuthProtocols info) = Ok v → permission ≠ 0 →
  let s := st w in
  0 < retries s → mismatches s < 3 →
  (stored s = Some (take 16 (sha256 pin)) → ∃ w',
     PinTokenForPermission c info pin permission rpid w = Some (Ok (tokens (S (issued s)), v), w') ∧
     st w' = MkState (agreement s) (stored s) 8 0 (S (issued s))
               (Some (if optionEnabled (Some info) "pinUvAuthToken" then (permission, rpid)
                      else (3, ""%string)))) ∧
  (is_Some (stored s) → stored s ≠ Some (take 16 (sha256 pin)) → ∃ w',
     PinTokenForPermission c info pin permission rpid w =
       Some (Err (ECtap2 (if retries s =? 1 then 0x32 else if mismatches s =? 2 then 0x34 else 0x31)), w') ∧
     st w' = MkState (regenerate (agreement s)) (stored s) (retries s - 1) (mismatches s + 1)
               (issued s) (granted s)).
Proof.
  intros Ha Hsel Hperm s Hr Hm.
  pose proof (token_runs info pin permission rpid w Ha Hsel Hperm (conj Hr Hm)) as Hrun. fold s in Hrun.
  split; [intros Hs|intros Hsome Hs].
  - destruct (optionEnabled _ _); destruct Hrun as (w' & H1 & H2); [by rewrite Hs| |by rewrite Hs|];
      exists w'; unfold token_outcome in H1, H2; rewrite decide_True in H1, H2 by done; done.
  - destruct (optionEnabled _ _); destruct (Hrun Hsome) as (w' & H1 & H2);
      exists w'; unfold token_outcome in H1, H2; rewrite decide_False in H1, H2 by done; done.
Qed.
End PinDevice.

Section Retries.
Context `{HC : Crypto} {Any W : Type} `{!Cbor Any} `{!Invoker W}.

(** C8: management commands are repeated only after a refusal.  Listing and
    deletion always return; they run at most three times, with the command
    code of the authenticator, then with the same code only after status
    0x12, then with the preview code only after one of the statuses that ask
    for it and when the authenticator offers it; after a success nothing is
    repeated.  ChangePIN likewise makes at most three attempts, each but the
    first after status 0x12. *)
Theorem retry_discipline c (info : option GetInfoResponse) source cred code v w :
  credentialManagementCommandCode info = Ok code →
  SelectPINUVAuthProtocol (match info with Some i => PinUVAuthProtocols i | None => [] end) = Ok v →
  (∀ c code v, total (token source c code v)) →
  (∃ r w' codes, deleteCredential c info cred source w = Some (r, w') ∧ plan code codes ∧
     tries (allowed info (supportsPreviewCommand source))
       (λ code, deleteCredentialWithCommand c code v cred source) codes w r w') ∧
  (∃ r w' codes, listCredentials c info source w = Some (r, w') ∧ plan code codes ∧
     tries (allowed info (supportsPreviewCommand source))
       (λ code, listCredentialsWithCommand c code v source) codes w r w') ∧
  (∀ i cur new, ∃ r w' codes, ChangePIN c i cur new w = Some (r, w') ∧ (1 ≤ length codes ≤ 3)%nat ∧
     tries (λ _ e _, As as_ctap2 e = Some 0x12) (λ _, changePINOnce c i cur new) codes w r w').
Proof.
  intros Hcode Hv Ht. split_and!.
  - destruct (total_with_retries info code (supportsPreviewCommand source)
      (λ code, deleteCredentialWithCommand c code v cred source)
      (λ code, total_delete c code v cred source Ht) w) as (r & w' & Hrun).
    destruct (with_retries_tries _ _ _ _ _ _ _ Hrun) as (codes & Hp & Htr).
    exists r, w', codes. unfold deleteCredential. by rewrite Hcode, bind_lift_Ok, Hv, bind_lift_Ok.
  - destruct (total_with_retries info code (supportsPreviewCommand source)
      (λ code, listCredentialsWithCommand c code v source)
      (λ code, total_list c code v source Ht) w) as (r & w' & Hrun).
    destruct (with_retries_tries _ _ _ _ _ _ _ Hrun) as (codes & Hp & Htr).
    exists r, w', codes. unfold listCredentials. by rewrite Hcode, bind_lift_Ok, Hv, bind_lift_Ok.
  - intros i cur new. unfold ChangePIN, clientPINChangeAttempts.
    destruct (change_loop_tries c i cur new 2 w) as (r & w' & codes & H1 & H2 & H3).
    exists r, w', codes. split; [done|]. split; [lia|done].
Qed.
End Retries.
End ManagerProps.

(** ** Enumeration against a store of credentials *)
Module Enumeration.
Import Types Messages Codec Modes Protocol Authenticator Manager CredentialStore CodecProps ProtocolProps
  ManagerFacts.

Section Enumeration.
Context `{HC : Crypto} {Any W : Type} `{!Cbor Any} `{!Invoker W}.

(** The authenticator behind the invoker: its store in a world, its encoding
    of responses, the command code, protocol and token in force. *)
Context (st : W → store) (enc : CredentialManagementResponse → bytes).
Context (c : ctx) (code v remaining : Z) (tok : bytes).

Definition serves : Prop :=
  code ≠ 0 ∧
  (∀ h, ∃ b, marshal_params (MkParams h None None) = Ok b) ∧
  (∀ q, plain q → ∃ body, marshal_cm q = Ok body ∧
     ∀ w, ∃ w', InvokeCTAP2 c code body w =
                  (Ok (reply_bytes enc (serve v tok remaining q (st w)).1), w') ∧
                st w' = (serve v tok remaining q (st w)).2) ∧
  (∀ r, enc r ≠ [] ∧ unmarshal_cm (enc r) = Ok r).

Definition request_of (command : CredentialManagementCommand) : credentialManagementRequest :=
  MkCMRequest (CMSubcommand command) (SubcommandParams command) (CMProtocol command) (CMParam command).

Lemma invoke_served command r s' w :
  serves → CMSubcommand command ≠ 0 → CommandCode command = code → plain (request_of command) →
  serve v tok remaining (request_of command) (st w) = (inr r, s') →
  ∃ w', invokeCredentialManagement c command w = Some (Ok r, w') ∧ st w' = s'.
Proof.
  intros (Hcode & _ & Hcm & Henc) Hs Hcc Hp Hr. destruct (Hcm _ Hp) as (body & Hm & Hi).
  destruct (Hi w) as (w' & Hw & Hst). rewrite Hr in Hw, Hst. exists w'. split; [|done].
  unfold invokeCredentialManagement, EncodeCM. apply Z.eqb_neq in Hs. rewrite Hs.
  fold (request_of command). rewrite Hm. unfold encodeCommand. rewrite bind_lift_Ok.
  assert (Hby : CommandByte command = code).
  { unfold CommandByte. rewrite Hcc. apply Z.eqb_neq in Hcode. by rewrite Hcode. }
  rewrite Hby. change (drop 1 (code :: body)) with body. unfold bind, invoke, lift. rewrite Hw. unfold DecodeCM, reply_bytes. cbn [fst].
  destruct (Henc r) as [Hne Hu].
  rewrite (proj2 (decodeCommand_Ok zero_cm_response unmarshal_cm (0 :: enc r) r)); [done|].
  exists (enc r). split; [done|by right].
Qed.

Lemma new_code sub : code ≠ 0 → CommandCode (NewCredentialManagementCommand code sub) = code.
Proof. intros Hc. unfold NewCredentialManagementCommand. apply Z.eqb_neq in Hc. by rewrite Hc. Qed.

(** An authenticated command, and that the authenticator accepts it. *)
Lemma authenticated_ok sub params : code ≠ 0 → sub ≠ 0 →
  (∀ p, params = Some p → ∃ b, marshal_params p = Ok b) →
  ∃ command, authenticated code v tok sub params = Ok command ∧
    CMSubcommand command = sub ∧ CommandCode command = code ∧ SubcommandParams command = params ∧
    (QProtocol (request_of command) =? v) &&
      verify v tok (u8 sub :: match params with
                              | None => []
                              | Some p => match marshal_params p with Ok b => b | Err _ => [] end
                              end) (QParam (request_of command)) = true.
Proof.
  intros Hc Hs Hp. unfold authenticated, PinProtocolAuthParam, AuthenticationMessage, encodedSubcommandParams.
  cbn [CMSubcommand SubcommandParams NewCredentialManagementCommand]. apply Z.eqb_neq in Hs. rewrite Hs.
  destruct params as [p|].
  - destruct (Hp p eq_refl) as [b Hb]. rewrite Hb. cbn [rbind]. eexists. split; [reflexivity|].
    split_and!; try done; [by apply new_code|]. unfold request_of. simpl.
    by rewrite Z.eqb_refl, authenticate_same, verify_own.
  - cbn [rbind]. eexists. split; [reflexivity|].
    split_and!; try done; [by apply new_code|]. unfold request_of. simpl.
    by rewrite Z.eqb_refl, authenticate_same, verify_own.
Qed.

Definition set_of (e : entry) : relyingPartyCredentialSet := MkRPSet (e_rp e) (e_hash e).

Lemma metadata_served w : serves →
  ∃ w', getCredentialMetadata c code v tok w =
          Some (Ok (MkList (count (entries (st w))) remaining []), w') ∧ st w' = st w.
Proof.
  intros Hs. pose proof Hs as (Hc & _). unfold getCredentialMetadata.
  destruct (authenticated_ok CredentialManagementGetMetadata None Hc) as (cmd & Ha & H1 & H2 & H3 & H4);
    [done|by intros ?|].
  destruct (invoke_served cmd (MkCMResponse (count (entries (st w))) remaining None [] 0 None None 0 0 [])
    (st w) w Hs) as (w' & Hi & Hst); [by rewrite H1|done|left; by rewrite <-H3| |].
  - unfold serve. cbn [request_of QSubcommand QParams QProtocol QParam]. rewrite H1, H3. simpl.
    unfold request_of in H4; simpl in H4. by rewrite H4.
  - exists w'. rewrite Ha, bind_lift_Ok. run_ok Hi. done.
Qed.

Lemma more_rps_served n rest : ∀ fuel result w, serves →
  rest_rps (st w) = rest → len result + len rest = n → (length rest ≤ fuel)%nat →
  ∃ w', more_rps fuel c code n result w = Some (Ok (result ++ map set_of rest), w') ∧
        entries (st w') = entries (st w).
Proof.
  induction rest as [|e rest IH]; intros fuel result w Hs Hr Hn Hf.
  - rewrite len_nil in Hn. exists w. rewrite app_nil_r. destruct fuel; cbn [more_rps];
      (destruct (Z.ltb_spec (len result) n); [lia|done]).
  - destruct fuel as [|fuel]; [simpl in Hf; lia|]. cbn [more_rps].
    rewrite len_cons in Hn. pose proof (len_nonneg rest).
    destruct (Z.ltb_spec (len result) n); [|lia].
    destruct (invoke_served (NewCredentialManagementCommand code CredentialManagementEnumerateRPsGetNext)
      (rp_response e 0) (MkStore (entries (st w)) rest (rest_creds (st w))) w Hs)
      as (w' & Hi & Hst); [done|by apply new_code, Hs|by left|unfold serve; simpl; by rewrite Hr|].
    run_ok Hi. cbn [CRP rp_response CRPIDHash].
    destruct (IH fuel (result ++ [set_of e]) w' Hs) as (w2 & H1 & H2);
      [by rewrite Hst|rewrite len_app, len_cons; change (len (@nil relyingPartyCredentialSet)) with 0; lia
      |simpl in Hf; lia|].
    exists w2. unfold set_of in H1 at 1. rewrite H1, <-app_assoc. split; [done|]. by rewrite H2, Hst.
Qed.

Lemma rps_served w e es : serves → entries (st w) = e :: es →
  ∃ w', enumerateRelyingParties c code v tok w = Some (Ok (map set_of (e :: es)), w') ∧
        entries (st w') = e :: es.
Proof.
  intros Hs He. pose proof Hs as (Hc & _). unfold enumerateRelyingParties.
  destruct (authenticated_ok CredentialManagementEnumerateRPsBegin None Hc) as (cmd & Ha & H1 & H2 & H3 & H4);
    [done|by intros ?|].
  destruct (invoke_served cmd (rp_response e (len (e :: es)))
    (MkStore (e :: es) es (rest_creds (st w))) w Hs) as (w' & Hi & Hst);
    [by rewrite H1|done|left; by rewrite <-H3| |].
  - unfold serve. cbn [request_of QSubcommand QParams QProtocol QParam]. rewrite H1, H3, He. simpl.
    unfold request_of in H4; simpl in H4. by rewrite H4.
  - rewrite Ha, bind_lift_Ok. run_ok Hi. cbn [CRP rp_response CRPIDHash TotalRPs].
    assert (Hl : (if len (e :: es) =? 0 then 1 else len (e :: es)) = len (e :: es)).
    { rewrite len_cons. pose proof (len_nonneg es). by destruct (Z.eqb_spec (1 + len es) 0); [lia|]. }
    rewrite Hl. destruct (more_rps_served (len (e :: es)) es (Z.to_nat (len (e :: es))) [set_of e] w' Hs)
      as (w2 & Hm & He2); [by rewrite Hst|by rewrite !len_cons|unfold len; simpl; lia|].
    exists w2. split; [exact Hm|]. by rewrite He2, Hst.
Qed.

Lemma discover_response e s0 total :
  discoverableCredentialFromResponse (set_of e) (cred_response s0 total) = Ok (discoverable e s0).
Proof. done. Qed.

Lemma more_credentials_served e n rest : ∀ fuel result w, serves →
  rest_creds (st w) = rest → len result + len rest = n → (length rest ≤ fuel)%nat →
  ∃ w', more_credentials fuel c code (set_of e) n result w =
          Some (Ok (result ++ map (discoverable e) rest), w') ∧ entries (st w') = entries (st w).
Proof.
  induction rest as [|s0 rest IH]; intros fuel result w Hs Hr Hn Hf.
  - rewrite len_nil in Hn. exists w. rewrite app_nil_r. destruct fuel; cbn [more_credentials];
      (destruct (Z.ltb_spec (len result) n); [lia|done]).
  - destruct fuel as [|fuel]; [simpl in Hf; lia|]. cbn [more_credentials].
    rewrite len_cons in Hn. pose proof (len_nonneg rest).
    destruct (Z.ltb_spec (len result) n); [|lia].
    destruct (invoke_served
      (NewCredentialManagementCommand code CredentialManagementEnumerateCredentialsGetNext)
      (cred_response s0 0) (MkStore (entries (st w)) (rest_rps (st w)) rest) w Hs)
      as (w' & Hi & Hst); [done|by apply new_code, Hs|by left|unfold serve; simpl; by rewrite Hr|].
    run_ok Hi. rewrite discover_response, bind_lift_Ok.
    destruct (IH fuel (result ++ [discoverable e s0]) w' Hs) as (w2 & H1 & H2);
      [by rewrite Hst|rewrite len_app, len_cons; change (len (@nil DiscoverableCredential)) with 0; lia
      |simpl in Hf; lia|].
    exists w2. rewrite H1, <-app_assoc. split; [done|]. by rewrite H2, Hst.
Qed.

Lemma credentials_served e w : serves →
  List.find (λ e', bytes_eqb (e_hash e') (e_hash e)) (entries (st w)) = Some e → e_creds e ≠ [] →
  ∃ w', enumerateCredentials c code v tok (set_of e) w = Some (Ok (map (discoverable e) (e_creds e)), w') ∧
        entries (st w') = entries (st w).
Proof.
  intros Hs Hf Hne. pose proof Hs as (Hc & Hmp & _). unfold enumerateCredentials.
  destruct (e_creds e) as [|s0 rest] eqn:Ec; [done|].
  destruct (authenticated_ok CredentialManagementEnumerateCredentialsBegin
    (Some (MkParams (e_hash e) None None)) Hc) as (cmd & Ha & H1 & H2 & H3 & H4);
    [done|intros p [= <-]; apply Hmp|].
  destruct (invoke_served cmd (cred_response s0 (len (e_creds e)))
    (MkStore (entries (st w)) (rest_rps (st w)) rest) w Hs) as (w' & Hi & Hst);
    [by rewrite H1|done|right; exists (e_hash e); by rewrite <-H3| |].
  - unfold serve. cbn [request_of QSubcommand QParams QProtocol QParam]. rewrite H1, H3. simpl.
    unfold request_of in H4; simpl in H4. rewrite H4. simpl. by rewrite Hf, Ec.
  - cbn [SRPIDHash set_of]. rewrite Ha, bind_lift_Ok. run_ok Hi. rewrite discover_response, bind_lift_Ok.
    cbn [TotalCredentials cred_response]. rewrite Ec.
    assert (Hl : (if len (s0 :: rest) =? 0 then 1 else len (s0 :: rest)) = len (s0 :: rest)).
    { rewrite len_cons. pose proof (len_nonneg rest). by destruct (Z.eqb_spec (1 + len rest) 0); [lia|]. }
    rewrite Hl. destruct (more_credentials_served e (len (s0 :: rest)) rest (Z.to_nat (len (s0 :: rest)))
      [discoverable e s0] w' Hs) as (w2 & Hm & He2);
      [by rewrite Hst|by rewrite !len_cons|unfold len; simpl; lia|].
    exists w2. split; [exact Hm|]. by rewrite He2, Hst.
Qed.

(** The hash of an entry finds it. *)
Lemma find_entry es e : NoDup (map e_hash es) → In e es →
  List.find (λ e', bytes_eqb (e_hash e') (e_hash e)) es = Some e.
Proof.
  induction es as [|e' es IH]; intros Hnd Hin; [done|]. simpl in *. inversion_clear Hnd as [|? ? Hni Hnd'].
  unfold bytes_eqb. destruct Hin as [->|Hin]; [by rewrite bool_decide_eq_true_2|].
  rewrite bool_decide_eq_false_2; [by apply IH|]. intros Heq. apply Hni. rewrite Heq.
  apply list_elem_of_In, in_map. done.
Qed.

Lemma all_served es : ∀ result w, serves → NoDup (map e_hash (entries (st w))) →
  (∀ e, In e es → In e (entries (st w)) ∧ e_creds e ≠ []) →
  ∃ w', all_credentials c code v tok (map set_of es) result w =
          Some (Ok (result ++ all_discoverable es), w') ∧ entries (st w') = entries (st w).
Proof.
  induction es as [|e es IH]; intros result w Hs Hnd Hes.
  - exists w. simpl. unfold all_discoverable. simpl. by rewrite app_nil_r.
  - cbn [map all_credentials]. destruct (Hes e (or_introl eq_refl)) as [Hin Hne].
    destruct (credentials_served e w Hs (find_entry _ _ Hnd Hin) Hne) as (w1 & H1 & E1). run_ok H1.
    destruct (IH (result ++ map (discoverable e) (e_creds e)) w1 Hs) as (w2 & H2 & E2).
    + by rewrite E1.
    + rewrite E1. intros e' He'. apply Hes. by right.
    + exists w2. rewrite H2. unfold all_discoverable. simpl. rewrite <-app_assoc. split; [done|congruence].
Qed.

Lemma count_zero es : (∀ e, In e es → e_creds e ≠ []) → count es = 0 → es = [].
Proof.
  unfold count. destruct es as [|e es]; [done|]. simpl. intros Hne H0. rewrite len_app in H0.
  assert (He : e_creds e = []) by (apply len_zero; pose proof (len_nonneg (e_creds e));
    pose proof (len_nonneg (concat (map e_creds es))); lia).
  by destruct (Hne e (or_introl eq_refl)).
Qed.

(** C6: enumeration is complete and in order.  Against an authenticator whose
    store holds relying parties with different hashes and at least one
    credential each, and with its token, the listing returns the metadata
    and exactly the stored credentials, each once, in the store's order and
    with its relying party, and leaves the store as it was. *)
Theorem list_credentials_exact source w w1 :
  serves → token source c code v w = Some (Ok tok, w1) →
  NoDup (map e_hash (entries (st w1))) → (∀ e, In e (entries (st w1)) → e_creds e ≠ []) →
  ∃ w', listCredentialsWithCommand c code v source w =
          Some (Ok (MkList (count (entries (st w1))) remaining (all_discoverable (entries (st w1)))), w') ∧
        entries (st w') = entries (st w1).
Proof.
  intros Hs Ht Hnd Hne. unfold listCredentialsWithCommand. run_ok Ht.
  destruct (metadata_served w1 Hs) as (w2 & Hm & E2). run_ok Hm. cbn [LExisting LMaxRemaining].
  destruct (Z.eqb_spec (count (entries (st w1))) 0) as [H0|H0].
  - exists w2. rewrite (count_zero _ Hne H0), E2. by rewrite (count_zero _ Hne H0).
  - destruct (entries (st w1)) as [|e es] eqn:Ees; [done|].
    destruct (rps_served w2 e es Hs) as (w3 & Hr & E3); [by rewrite E2|]. run_ok Hr.
    destruct (all_served (e :: es) [] w3 Hs) as (w4 & Ha & E4).
    + by rewrite E3.
    + intros e' He'. rewrite E3. split; [done|]. by apply Hne.
    + run_ok Ha. exists w4. split; [done|]. by rewrite E4, E3.
Qed.
End Enumeration.
End Enumeration.
