(* ===== verification/ManagerSim.v ===== *)
(** * A simulated CTAP2 authenticator

    Instances of the classes the manager runs over: toy primitives that obey
    [CryptoLaws], a CBOR stand-in that numbers values, and an authenticator
    with a PIN, tokens and a credential store.  They make the theorems
    of [Manager] apply at concrete inputs. *)
From S2P Require Import Prelude GoErrors GoIO Ctap2 PinProtocol Manager.

Module Sim.
Import Types Messages Codec Protocol Authenticator Manager CredentialStore.

#[global] Instance toy_crypto : Crypto := {|
  aes_encrypt _ b := pad_to 16 b;
  aes_decrypt _ b := pad_to 16 b;
  sha256 m := pad_to 32 m;
  p256_valid _ := true;
  private_key := Z;
  public_bytes a := 4 :: replicate 32 a ++ replicate 32 a;
  ecdh a pub := Ok (replicate 32 (a + pub !!! 1%nat));
|}.

Lemma pad_id n bs : length bs = n → pad_to n bs = bs.
Proof. intros <-. unfold pad_to. rewrite take_ge, Nat.sub_diag by lia. apply app_nil_r. Qed.

#[global] Instance toy_laws : CryptoLaws.
Proof.
  split.
  - intros k b _ Hb. change (pad_to 16 (pad_to 16 b) = b). rewrite (pad_id 16 b Hb). by apply pad_id.
  - intros. apply length_pad_to.
  - intros. apply length_pad_to.
  - intros. apply length_pad_to.
  - intros a. by exists (replicate 32 a), (replicate 32 a).
  - done.
  - intros a b. exists (replicate 32 (a + b)). simpl. split_and!; try done. by rewrite Z.add_comm.
Qed.

(** Values as numbers. *)
Definition enc {A} `{Countable A} (a : A) : bytes := [Zpos (encode a)].
Definition dec {A} `{Countable A} (bs : bytes) : res A :=
  match bs with
  | [Zpos p] => match decode p with Some a => Ok a | None => Err (EMsg "cbor") end
  | _ => Err (EMsg "cbor")
  end.

Lemma dec_enc {A} `{Countable A} (a : A) : dec (enc a) = Ok a.
Proof. unfold dec, enc. by rewrite decode_encode. Qed.

#[global] Instance COSEKey_dec : EqDecision COSEKey. Proof. solve_decision. Defined.
#[global] Instance COSEKey_countable : Countable COSEKey.
Proof.
  refine (inj_countable' (λ k, (KeyType k, Algorithm k, Curve k, X k, Y k))
    (λ '(a, b, c, d, e), MkCOSE a b c d e) _). by intros [].
Defined.
#[global] Instance RP_dec : EqDecision RelyingPartyEntity. Proof. solve_decision. Defined.
#[global] Instance RP_countable : Countable RelyingPartyEntity.
Proof. refine (inj_countable' (λ k, (RPID k, RPName k)) (λ '(a, b), MkRP a b) _). by intros []. Defined.
#[global] Instance User_dec : EqDecision UserEntity. Proof. solve_decision. Defined.
#[global] Instance User_countable : Countable UserEntity.
Proof.
  refine (inj_countable' (λ k, (UserID k, UserName k, DisplayName k)) (λ '(a, b, c), MkUser a b c) _).
  by intros [].
Defined.
#[global] Instance Descriptor_dec : EqDecision CredentialDescriptor. Proof. solve_decision. Defined.
#[global] Instance Descriptor_countable : Countable CredentialDescriptor.
Proof.
  refine (inj_countable' (λ k, (CredType k, CredID k, Transports k)) (λ '(a, b, c), MkCredential a b c) _).
  by intros [].
Defined.
#[global] Instance PIN_dec : EqDecision ClientPINCommand. Proof. solve_decision. Defined.
#[global] Instance PIN_countable : Countable ClientPINCommand.
Proof.
  refine (inj_countable' (λ k, (PinUVAuthProtocol k, Subcommand k, KeyAgreement k, PinUVAuthParam k,
      NewPINEnc k, PINHashEnc k, Permissions k, PermissionsRPID k))
    (λ '(a, b, c, d, e, f, g, h), MkPIN a b c d e f g h) _). by intros [].
Defined.
#[global] Instance PINResponse_dec : EqDecision ClientPINResponse. Proof. solve_decision. Defined.
#[global] Instance PINResponse_countable : Countable ClientPINResponse.
Proof.
  refine (inj_countable' (λ k, (RKeyAgreement k, RPinUVAuthToken k, RPINRetries k, RPowerCycleState k,
      RUVRetries k)) (λ '(a, b, c, d, e), MkPINResponse a b c d e) _). by intros [].
Defined.
#[global] Instance Params_dec : EqDecision CredentialManagementSubcommandParams.
Proof. solve_decision. Defined.
#[global] Instance Params_countable : Countable CredentialManagementSubcommandParams.
Proof.
  refine (inj_countable' (λ k, (PRPIDHash k, PCredentialID k, PUser k)) (λ '(a, b, c), MkParams a b c) _).
  by intros [].
Defined.
#[global] Instance Request_dec : EqDecision credentialManagementRequest. Proof. solve_decision. Defined.
#[global] Instance Request_countable : Countable credentialManagementRequest.
Proof.
  refine (inj_countable' (λ k, (QSubcommand k, QParams k, QProtocol k, QParam k))
    (λ '(a, b, c, d), MkCMRequest a b c d) _). by intros [].
Defined.
#[global] Instance CMResponse_dec : EqDecision CredentialManagementResponse. Proof. solve_decision. Defined.
#[global] Instance CMResponse_countable : Countable CredentialManagementResponse.
Proof.
  refine (inj_countable' (λ k, (ExistingCount k, MaxRemainingCount k, CRP k, CRPIDHash k, TotalRPs k,
      CUser k, CCredentialID k, TotalCredentials k, CCredProtect k, CLargeBlobKey k))
    (λ '(a, b, c, d, e, f, g, h, i, j), MkCMResponse a b c d e f g h i j) _). by intros [].
Defined.

#[global] Instance toy_cbor : Cbor () := {|
  marshal_pin c := Ok (enc c);
  marshal_params p := Ok (enc p);
  marshal_cm q := Ok (enc q);
  marshal_assertion _ := Err (EMsg "cbor");
  marshal_credential _ := Err (EMsg "cbor");
  unmarshal_pin := dec;
  unmarshal_cm := dec;
  unmarshal_info _ := Err (EMsg "cbor");
  unmarshal_raw _ := Err (EMsg "cbor");
  unmarshal_assertion _ := Err (EMsg "cbor");
  unmarshal_credential _ := Err (EMsg "cbor");
|}.

(** The authenticator: a PIN, discoverable credentials, key 7, tokens of 32
    bytes, protocol 2, PINs of 4 bytes and more. *)
Definition auth_key : @private_key toy_crypto := 7.
Definition platform_key : @private_key toy_crypto := 5.
Definition auth_token : bytes := replicate 32 9.

Record world := MkWorld { pins : PinStore.state; creds : store }.

Definition acceptable (p : bytes) : bool := 4 <=? len p.
Definition regenerate (a : @private_key toy_crypto) : @private_key toy_crypto := a + 1.
Definition tokens (_ : nat) : bytes := auth_token.
Definition vectors (n : nat) : bytes := replicate 16 (Z.of_nat n).

#[global] Instance toy_random : Random world := {|
  rand_Read n w := (Ok (replicate n 3), w);
  GenerateKey w := (Ok platform_key, w);
|}.

#[global] Instance toy_invoker : Invoker world := {|
  InvokeCTAP2 _ command payload w :=
    if command =? 0x06 then
      match dec payload with
      | Ok q =>
          let r := PinStore.serve_pin 2 acceptable regenerate tokens vectors q (pins w) in
          (Ok (PinStore.pin_reply_bytes enc r.1), MkWorld r.2 (creds w))
      | Err _ => (Ok [0x12], w)
      end
    else
      match dec payload with
      | Ok q => let r := serve 2 auth_token 5 q (creds w) in
                (Ok (reply_bytes enc r.1), MkWorld (pins w) r.2)
      | Err _ => (Ok [0x12], w)
      end;
|}.

Definition demo_entry (name : string) (n : Z) : entry :=
  MkEntry (MkRP name "") [n] [MkStored (MkUser [n] "u" "") (MkCredential "public-key" [n; 1] []) 0 [];
                              MkStored (MkUser [n] "v" "") (MkCredential "public-key" [n; 2] []) 0 []].
Definition demo : store := MkStore [demo_entry "a" 1; demo_entry "b" 2] [] [].

(** The authenticator with the PIN [p], or without one. *)
Definition holding (p : option bytes) (left : Z) : world :=
  MkWorld (PinStore.MkState auth_key (PinStore.pin_digest <$> p) left 0 0 None) demo.

Lemma demo_answers : ManagerProps.answers pins Caller 2 acceptable regenerate tokens vectors enc.
Proof.
  split_and!.
  - intros q. exists (enc q). split; [done|]. intros w. eexists. split.
    + unfold InvokeCTAP2, toy_invoker. rewrite Z.eqb_refl, dec_enc. reflexivity.
    + done.
  - intros r. split; [done|apply dec_enc].
  - intros w. by eexists _, w.
  - intros w. by eexists _, w.
  - intros n. split; [by right|apply length_replicate].
Qed.

Lemma demo_serves : Enumeration.serves creds enc Caller CommandCredentialManagement 2 5 auth_token.
Proof.
  split; [done|]. split; [intros h; by eexists|]. split.
  - intros q _. exists (enc q). split; [done|]. intros w. eexists. split.
    + unfold InvokeCTAP2, toy_invoker.
      change (CommandCredentialManagement =? 0x06) with false. cbv iota. rewrite dec_enc. reflexivity.
    + done.
  - intros r. split; [done|apply dec_enc].
Qed.
End Sim.

Module SimWitnesses.
Import Types Messages Protocol Authenticator Manager CredentialStore ManagerFacts ManagerProps Enumeration Sim.

Definition pin : bytes := [49; 50; 51; 52].
Definition other_pin : bytes := [56; 55; 54; 53; 52].

(** An authenticator of protocol 2 that has a PIN and grants permissions. *)
Definition pin_info_2 : GetInfoResponse :=
  MkInfoResponse (MkInfo [] [] [] (<["clientPin"%string := true]> {["pinUvAuthToken"%string := true]}) 0 [1; 2]
                    0 0 [] [] 0 false 0 0 0 0 0 0 ∅ 0 []) ∅.

Lemma new_pin_accepted_witness :
  (∃ w', SetPIN Caller pin_info_2 pin (holding None 8) = Some (Ok (), w') ∧
         pins w' = pins (holding (Some pin) 8)) ∧
  (∃ w', SetPIN Caller pin_info_2 [49] (holding None 8) = Some (Err (ECtap2 0x37), w') ∧
         pins w' = pins (holding None 8)) ∧
  (∃ w', SetPIN Caller pin_info_2 other_pin (holding (Some pin) 8) = Some (Err (ECtap2 0x33), w') ∧
         pins w' = pins (holding (Some pin) 8)) ∧
  (∃ w', ChangePIN Caller pin_info_2 pin other_pin (holding (Some pin) 3) = Some (Ok (), w') ∧
         pins w' = PinStore.MkState auth_key (Some (PinStore.pin_digest other_pin)) 8 0 1 None) ∧
  (∃ w', ChangePIN Caller pin_info_2 other_pin pin (holding (Some pin) 1) = Some (Err (ECtap2 0x32), w') ∧
         pins w' = PinStore.MkState 8 (Some (PinStore.pin_digest pin)) 0 1 0 None) ∧
  (∃ e w', ChangePIN Caller pin_info_2 pin [] (holding (Some pin) 8) = Some (Err e, w') ∧
           pins w' = pins (holding (Some pin) 8)).
Proof.
  assert (Hin : ∀ p, In p [pin; other_pin; [49]] → 0 < len p ≤ 63).
  { intros p [<-|[<-|[<-|[]]]]; vm_compute; (split; [done|by intros ?]). }
  pose proof (λ p cur w, new_pin_accepted pins Caller 2 acceptable regenerate tokens vectors enc
    pin_info_2 p cur w demo_answers eq_refl) as Hp. cbv zeta in Hp. split_and!.
  - exact (proj1 (proj1 (Hp pin pin (holding None 8)) (Hin pin (or_introl eq_refl))) eq_refl eq_refl).
  - refine (proj1 (proj2 (proj1 (Hp [49] pin (holding None 8)) (Hin [49] _))) eq_refl eq_refl); auto using in_eq, in_cons.
  - refine (proj1 (proj2 (proj2 (proj1 (Hp other_pin pin (holding (Some pin) 8)) (Hin other_pin _)))) _);
      [auto using in_eq, in_cons|by eexists].
  - exact (proj1 (proj2 (proj2 (proj2 (proj1 (Hp other_pin pin (holding (Some pin) 3))
      (Hin other_pin (or_intror (or_introl eq_refl)))))) eq_refl eq_refl eq_refl) eq_refl eq_refl).
  - refine (proj2 (proj2 (proj2 (proj2 (proj1 (Hp pin other_pin (holding (Some pin) 1))
      (Hin pin (or_introl eq_refl))))) eq_refl eq_refl eq_refl) _ _); [by eexists|by vm_compute].
  - exact (proj2 (proj2 (Hp [] pin (holding (Some pin) 8)) (or_introl eq_refl))).
Defined.

Lemma pin_token_agrees_witness :
  (∃ w', PinTokenForPermission Caller pin_info_2 pin 4 "a" (holding (Some pin) 3) =
           Some (Ok (auth_token, 2), w') ∧
         pins w' = PinStore.MkState auth_key (Some (PinStore.pin_digest pin)) 8 0 1 (Some (4, "a"%string))) ∧
  (∃ w', PinTokenForPermission Caller pin_info_2 other_pin 4 "a" (holding (Some pin) 3) =
           Some (Err (ECtap2 0x31), w') ∧
         pins w' = PinStore.MkState 8 (Some (PinStore.pin_digest pin)) 2 1 0 None).
Proof.
  pose proof (λ p, pin_token_agrees pins Caller 2 acceptable regenerate tokens vectors enc pin_info_2 p 4 "a"
    (holding (Some pin) 3) demo_answers eq_refl) as Hp. cbv zeta in Hp. split.
  - refine (proj1 (Hp pin _ eq_refl eq_refl) eq_refl). lia.
  - refine (proj2 (Hp other_pin _ eq_refl eq_refl) _ _); [lia|by eexists|by vm_compute].
Defined.

Definition managing : GetInfoResponse :=
  MkInfoResponse (MkInfo [] [] [] {["credMgmt"%string := true]} 0 [2] 0 0 [] [] 0 false 0 0 0 0 0 0 ∅ 0 []) ∅.

Lemma retry_discipline_witness :
  ∃ r w' codes, deleteCredential Caller (Some managing) (MkCredential "" [1; 1] [])
      (pinCredentialManagementTokenSource pin) (holding (Some pin) 8) = Some (r, w') ∧ plan CommandCredentialManagement codes.
Proof.
  destruct (proj1 (retry_discipline Caller (Some managing) (pinCredentialManagementTokenSource pin)
    (MkCredential "" [1; 1] []) CommandCredentialManagement 2 (holding (Some pin) 8) eq_refl eq_refl
    (fun c code v => total_pin_token c code v pin))) as (r & w' & codes & H1 & H2 & _).
  exists r, w', codes. exact (conj H1 H2).
Defined.

Lemma list_credentials_exact_witness :
  ∃ w', listCredentialsWithCommand Caller CommandCredentialManagement 2
          (MkSource (λ _ _ _, ret auth_token) false) (holding None 8) =
          Some (Ok (MkList 4 5 (all_discoverable (entries demo))), w') ∧ entries (creds w') = entries demo.
Proof.
  refine (list_credentials_exact creds enc Caller CommandCredentialManagement 2 5 auth_token
    (MkSource (λ _ _ _, ret auth_token) false) (holding None 8) (holding None 8) demo_serves eq_refl _ _).
  - vm_compute. repeat constructor; set_solver.
  - intros e [<-|[<-|[]]]; done.
Defined.
End SimWitnesses.
