(* ===== verification/ClientCore.v ===== *)
(** * The client facade, its core: src/pkg/{protocol,middleware} and
      src/pkg/client/{client,options,default_invokers,hid,trace,hid_trace,close,capabilities}.go

    Sessions, raw invokers, middleware, interaction handlers and trace
    recorders are interface values: records of functions on a world [W].  A
    client is a record; what it keeps between calls, the cached
    capabilities, is threaded beside the world ([St]). *)
From S2P Require Import Prelude GoErrors GoIO Descriptors Ctap1 Ctap2.

(** ** protocol/family.go *)
Module Family.
Definition FamilyCTAP1 : string := "ctap1".
Definition FamilyCTAP2 : string := "ctap2".

Definition IsKnown (family : string) : bool :=
  String.eqb family FamilyCTAP1 || String.eqb family FamilyCTAP2.
Definition Validate (family : string) : option goerror :=
  if IsKnown family then None else Some (EUnknownFamily family).
End Family.

(** ** middleware/{middleware,hid}.go *)
Module Middleware.
Section Middleware.
Context {W : Type}.

Definition ExchangeFunc : Type := ctx → bytes → W → res bytes * W.
Definition HIDExchangeFunc : Type := ctx → Z → bytes → W → res bytes * W.

(** A [Middleware] is its [WrapExchange]; the loop runs from the last index
    down, so the first registered is the outermost. *)
Definition Chain (base : ExchangeFunc) (middlewares : list (ExchangeFunc → ExchangeFunc))
    : ExchangeFunc :=
  foldr (λ wrap next, wrap next) base middlewares.
Definition ChainHID (base : HIDExchangeFunc) (middlewares : list (HIDExchangeFunc → HIDExchangeFunc))
    : HIDExchangeFunc :=
  foldr (λ wrap next, wrap next) base middlewares.
End Middleware.
Arguments ExchangeFunc : clear implicits.
Arguments HIDExchangeFunc : clear implicits.
End Middleware.
Import Middleware.

(** ** trace.go and hid_trace.go *)
Module Trace.
Definition ctap2CommandClientPIN : Z := 0x06.
Definition ctap2CommandCredentialManagement : Z := 0x0a.
Definition ctap2CommandCredentialManagementPreview : Z := 0x41.

Inductive TraceDirection := TraceDirectionRequest | TraceDirectionResponse.

Record TraceEvent := MkEvent {
  Direction : TraceDirection;
  Payload : bytes;
  Redacted : bool;
  ECommand : Z;
  ELength : Z;
}.
Record HIDTraceEvent := MkHIDEvent {
  HDirection : TraceDirection;
  HCommand : Z;
  HPayload : bytes;
  HRedacted : bool;
  HLength : Z;
}.

(** A recorder in the world: its two lists of events. *)
Record TraceRecorder (W : Type) := MkRecorder {
  events : W → list TraceEvent;
  hidEvents : W → list HIDTraceEvent;
  append_event : TraceEvent → W → W;
  append_hid : HIDTraceEvent → W → W;
}.
Arguments MkRecorder {W}.
Arguments events {W} _ _.
Arguments hidEvents {W} _ _.
Arguments append_event {W} _ _ _.
Arguments append_hid {W} _ _ _.

Definition traceCommand (payload : bytes) : Z := match payload with [] => 0 | b :: _ => b end.

Definition traceCommandContainsSecrets (command : Z) : bool :=
  existsb (Z.eqb command)
    [ctap2CommandClientPIN; ctap2CommandCredentialManagement; ctap2CommandCredentialManagementPreview].

Section Trace.
Context {W : Type}.
Implicit Types recorder : TraceRecorder W.

Definition event_of (direction : TraceDirection) (payload : bytes) (command : Z) (redacted : bool)
    : TraceEvent :=
  MkEvent direction (if redacted then [] else payload) redacted command (len payload).
Definition record (recorder : TraceRecorder W) (direction : TraceDirection) (payload : bytes)
    (command : Z) (redacted : bool) (w : W) : W :=
  append_event recorder (event_of direction payload command redacted) w.

Definition hid_event_of (direction : TraceDirection) (command : Z) (payload : bytes) (redacted : bool)
    : HIDTraceEvent :=
  MkHIDEvent direction command (if redacted then [] else payload) redacted (len payload).
Definition recordHID (recorder : TraceRecorder W) (direction : TraceDirection) (command : Z)
    (payload : bytes) (redacted : bool) (w : W) : W :=
  append_hid recorder (hid_event_of direction command payload redacted) w.

(** In Go a response and an error may come together; here an error comes
    with no bytes, as every session of the repository answers. *)
Definition response_bytes (r : res bytes) : bytes := match r with Ok b => b | Err _ => [] end.

Definition WrapExchange (recorder : TraceRecorder W) (redactSecrets : bool) (next : ExchangeFunc W)
    : ExchangeFunc W := λ c req w,
  let command := traceCommand req in
  let redact := redactSecrets && traceCommandContainsSecrets command in
  let w := record recorder TraceDirectionRequest req command redact w in
  let '(r, w) := next c req w in
  let response := response_bytes r in
  let w := if negb (len response =? 0)
           then record recorder TraceDirectionResponse response command redact w else w in
  (r, w).

Definition WrapHIDExchange (recorder : TraceRecorder W) (redactSecrets : bool) (next : HIDExchangeFunc W)
    : HIDExchangeFunc W := λ c command payload w,
  let w := recordHID recorder TraceDirectionRequest command payload redactSecrets w in
  let '(r, w) := next c command payload w in
  let w := match r with
           | Ok response => recordHID recorder TraceDirectionResponse command response redactSecrets w
           | Err _ => w
           end in
  (r, w).
End Trace.
End Trace.

(** ** client.go, options.go, default_invokers.go, hid.go, close.go *)
Module Client.
Import Family Trace.

(** [transport.Session], with its optional interfaces. *)
Record Session (W : Type) := MkSession {
  SDevice : DeviceDescriptor;
  SExchange : ExchangeFunc W;
  SClose : W → option goerror * W;
  SExchangeHID : option (HIDExchangeFunc W);
  SCloseContext : option (ctx → W → option goerror * W);
}.
Arguments SDevice {W} _.
Arguments SExchange {W} _.
Arguments SClose {W} _.
Arguments SExchangeHID {W} _.
Arguments SCloseContext {W} _.

Record RawInvoker (W : Type) := MkInvoker {
  IProtocol : string;
  IInvokeRaw : ExchangeFunc W → ctx → Z → bytes → W → res bytes * W;
}.
Arguments MkInvoker {W}.
Arguments IProtocol {W} _.
Arguments IInvokeRaw {W} _.

(** *** interaction.go: the types *)
Inductive InteractionKind :=
  | InteractionAwaitingUserPresence | InteractionAwaitingUserVerification | InteractionAwaitingPIN
  | InteractionProcessing | InteractionReinsertRequired.
Record InteractionEvent := MkInteraction {
  IKind : InteractionKind;
  IOperation : string;
  IFamily : string;
  ITransport : string;
  IMessage : string;
  IRetryable : bool;
}.
Definition VerificationMethodPIN : string := "pin".
Definition VerificationMethodBuiltInUV : string := "built-in-uv".
Record PINRequest := MkPINRequest {
  POperation : string;
  PFamily : string;
  PTransport : string;
  PMethod : string;
  PMessage : string;
}.
Record InteractionHandler (W : Type) := MkHandler {
  OnInteraction : ctx → InteractionEvent → W → W;
  RequestPIN : ctx → PINRequest → W → res bytes * W;
}.
Arguments OnInteraction {W} _.
Arguments RequestPIN {W} _.

Section Client.
Context {W : Type}.

Definition ErrSessionRequired : goerror := ESent "client.ErrSessionRequired".
Definition ErrRawInvokerRequired : goerror := ESent "client.ErrRawInvokerRequired".
Definition ErrMiddlewareRequired : goerror := ESent "client.ErrMiddlewareRequired".
Definition ErrInteractionHandlerRequired : goerror := ESent "client.ErrInteractionHandlerRequired".
Definition ErrTraceRecorderRequired : goerror := ESent "client.ErrTraceRecorderRequired".
Definition ErrPINRequired : goerror := ESent "client.ErrPINRequired".
Definition ErrNewPINRequired : goerror := ESent "client.ErrNewPINRequired".
Definition ErrNoCapableProtocol : goerror := ESent "client.ErrNoCapableProtocol".

Record config := MkConfig {
  middlewares : list (ExchangeFunc W → ExchangeFunc W);
  hidMiddlewares : list (HIDExchangeFunc W → HIDExchangeFunc W);
  cfg_invokers : gmap string (RawInvoker W);
  cfg_interaction : option (InteractionHandler W);
}.
Definition empty_config : config := MkConfig [] [] ∅ None.

(** An [Option]; a nil argument is [None]. *)
Definition ClientOption : Type := config → res config.

Definition WithMiddleware (wrapper : option (ExchangeFunc W → ExchangeFunc W)) : ClientOption := λ cfg,
  match wrapper with
  | None => Err ErrMiddlewareRequired
  | Some m => Ok (MkConfig (middlewares cfg ++ [m]) (hidMiddlewares cfg) (cfg_invokers cfg)
                    (cfg_interaction cfg))
  end.

Definition WithHIDMiddleware (wrapper : option (HIDExchangeFunc W → HIDExchangeFunc W)) : ClientOption :=
  λ cfg,
  match wrapper with
  | None => Err ErrMiddlewareRequired
  | Some m => Ok (MkConfig (middlewares cfg) (hidMiddlewares cfg ++ [m]) (cfg_invokers cfg)
                    (cfg_interaction cfg))
  end.

Definition WithRawInvoker (invoker : option (RawInvoker W)) : ClientOption := λ cfg,
  match invoker with
  | None => Err ErrRawInvokerRequired
  | Some i =>
      let family := IProtocol i in
      match Validate family with
      | Some e => Err e
      | None =>
          match cfg_invokers cfg !! family with
          | Some _ => Err (EDuplicateRawInvoker family)
          | None => Ok (MkConfig (middlewares cfg) (hidMiddlewares cfg)
                          (<[family := i]> (cfg_invokers cfg)) (cfg_interaction cfg))
          end
      end
  end.

Definition WithInteraction (handler : option (InteractionHandler W)) : ClientOption := λ cfg,
  match handler with
  | None => Err ErrInteractionHandlerRequired
  | Some h => Ok (MkConfig (middlewares cfg) (hidMiddlewares cfg) (cfg_invokers cfg) (Some h))
  end.

(** [redactSecrets]: true unless the options say otherwise. *)
Definition WithTrace (recorder : option (TraceRecorder W)) (redactSecrets : bool) : ClientOption := λ cfg,
  match recorder with
  | None => Err ErrTraceRecorderRequired
  | Some r => Ok (MkConfig (middlewares cfg ++ [WrapExchange r redactSecrets])
                    (hidMiddlewares cfg ++ [WrapHIDExchange r redactSecrets]) (cfg_invokers cfg)
                    (cfg_interaction cfg))
  end.

Definition ctap1RawInvoker : RawInvoker W :=
  MkInvoker FamilyCTAP1 (λ exchange c command payload w,
    match Apdu.EncodeRawAPDU command payload with
    | Err e => (Err e, w)
    | Ok request => exchange c request w
    end).
Definition ctap2RawInvoker : RawInvoker W :=
  MkInvoker FamilyCTAP2 (λ exchange c command payload w, exchange c (command :: payload) w).

Definition WithDefaultRawInvokers : ClientOption := λ cfg,
  cfg ←? WithRawInvoker (Some ctap1RawInvoker) cfg;
  WithRawInvoker (Some ctap2RawInvoker) cfg.
Definition WithDefaultCTAP2RawInvoker : ClientOption := WithRawInvoker (Some ctap2RawInvoker).

(** The loop over the options; nil options are skipped. *)
Fixpoint apply_options (options : list (option ClientOption)) (cfg : config) : res config :=
  match options with
  | [] => Ok cfg
  | None :: options => apply_options options cfg
  | Some option :: options => cfg ←? option cfg; apply_options options cfg
  end.

Record client := MkClient {
  session : Session W;
  exchange : ExchangeFunc W;
  hidExchange : HIDExchangeFunc W;
  invokers : gmap string (RawInvoker W);
  interaction : option (InteractionHandler W);
}.

Definition unsupportedHIDExchange : goerror :=
  ETransport "exchange hid"
    (Transport.unsupported (EMsg "client: session does not support explicit CTAPHID exchange")).

Definition baseHIDExchange (s : Session W) : HIDExchangeFunc W := λ c command payload w,
  match SExchangeHID s with
  | Some f => f c command payload w
  | None => (Err unsupportedHIDExchange, w)
  end.

Definition New (s : option (Session W)) (options : list (option ClientOption)) : res client :=
  match s with
  | None => Err ErrSessionRequired
  | Some s =>
      cfg ←? apply_options options empty_config;
      Ok (MkClient s (Chain (SExchange s) (middlewares cfg))
            (ChainHID (baseHIDExchange s) (hidMiddlewares cfg)) (cfg_invokers cfg) (cfg_interaction cfg))
  end.

Definition InvokeRaw (cl : client) (c : ctx) (family : string) (command : Z) (payload : bytes) (w : W)
    : res bytes * W :=
  match Validate family with
  | Some e => (Err e, w)
  | None =>
      match invokers cl !! family with
      | None => (Err (EUnsupportedProtocol family), w)
      | Some invoker => IInvokeRaw invoker (exchange cl) c command payload w
      end
  end.

Definition ExchangeHID `{GoContext W} (cl : client) (c : ctx) (command : Z) (payload : bytes) (w : W)
    : res bytes * W :=
  match ctx_Err c w with
  | (Some e, w) => (Err (ETransport "exchange hid" e), w)
  | (None, w) => hidExchange cl c command payload w
  end.

(** The package function over any Client: one that is no HIDClient has no
    method to offer. *)
Definition ExchangeHIDClient `{GoContext W} (method : option (HIDExchangeFunc W)) (c : ctx) (command : Z)
    (payload : bytes) (w : W) : res bytes * W :=
  match ctx_Err c w with
  | (Some e, w) => (Err (ETransport "exchange hid" e), w)
  | (None, w) =>
      match method with
      | Some exchangeHID => exchangeHID c command payload w
      | None => (Err unsupportedHIDExchange, w)
      end
  end.

Definition Device (cl : client) : DeviceDescriptor := SDevice (session cl).
Definition Close (cl : client) (w : W) : option goerror * W := SClose (session cl) w.
Definition Supported (cl : client) (family : string) : bool :=
  bool_decide (is_Some (invokers cl !! family)).

Definition CloseContext (cl : client) (c : ctx) (w : W) : option goerror * W :=
  match SCloseContext (session cl) with
  | Some f => f c w
  | None => (Some (ETransport "close client with context"
               (Transport.unsupported
                  (EMsg "client: session does not support context-aware cleanup"))), w)
  end.
End Client.
Arguments client : clear implicits.
Arguments config : clear implicits.
Arguments ClientOption : clear implicits.
End Client.

(** ** capabilities.go *)
Module Capabilities.
Import Family Client Messages.

Record ProtocolCapabilities := MkProtocols { PCTAP1 : bool; PCTAP2 : bool; PPreferred : string }.
Record AuthenticatorCapabilities := MkAuthCaps {
  ResidentKey : bool;
  CredentialManagement : bool;
  CredentialManagementPreview : bool;
}.
Record VerificationCapabilities := MkVerification {
  VClientPIN : bool;
  VBuiltInUV : bool;
  VPinUVAuthToken : bool;
  VBioEnrollment : bool;
  VUVRetriesAvailable : bool;
}.
Record InteractionCapabilities := MkICaps {
  ICUserPresence : bool;
  ICUserVerification : bool;
  ICBuiltInUV : bool;
  ICNFCImplicitPresence : bool;
}.
Record Caps := MkCaps {
  Protocols : ProtocolCapabilities;
  Authenticator : AuthenticatorCapabilities;
  Verification : VerificationCapabilities;
  ICaps : InteractionCapabilities;
  RawCTAP1 : option bytes;
  RawCTAP2 : option GetInfoResponse;
}.

Definition HasCTAP1 (caps : Caps) : bool := match RawCTAP1 caps with Some _ => true | None => false end.
Definition HasCTAP2 (caps : Caps) : bool := match RawCTAP2 caps with Some _ => true | None => false end.

Definition optionPresent (info : option GetInfoResponse) (key : string) : bool :=
  match info with None => false | Some i => bool_decide (is_Some (Options i !! key)) end.
Definition optionEnabled (info : option GetInfoResponse) (key : string) : bool :=
  match info with None => false | Some i => default false (Options i !! key) end.
Definition supportsUserVerification (info : option GetInfoResponse) : bool :=
  optionPresent info "clientPin" || optionPresent info "uv".

Definition preferred (ctap1 : option bytes) (ctap2 : option GetInfoResponse) : string :=
  match ctap2, ctap1 with
  | Some _, _ => FamilyCTAP2
  | None, Some _ => FamilyCTAP1
  | None, None => ""
  end.

Definition buildCapabilities (rawCTAP1 : option bytes) (rawCTAP2 : option GetInfoResponse)
    (device : DeviceDescriptor) : Caps :=
  let c1 := match rawCTAP1 with Some _ => true | None => false end in
  let c2 := match rawCTAP2 with Some _ => true | None => false end in
  let uv := optionPresent rawCTAP2 "uv" in
  MkCaps (MkProtocols c1 c2 (preferred rawCTAP1 rawCTAP2))
    (MkAuthCaps (optionPresent rawCTAP2 "rk")
       (optionEnabled rawCTAP2 "credMgmt" || optionEnabled rawCTAP2 "credentialMgmtPreview")
       (optionEnabled rawCTAP2 "credentialMgmtPreview"))
    (MkVerification (optionPresent rawCTAP2 "clientPin") uv (optionEnabled rawCTAP2 "pinUvAuthToken")
       (optionPresent rawCTAP2 "bioEnroll") uv)
    (MkICaps (c1 || c2) (supportsUserVerification rawCTAP2) uv
       (String.eqb (Transport device) KindNFC))
    rawCTAP1 rawCTAP2.

Section Capabilities.
Context {Any W : Type} `{!Cbor Any}.

(** The cached capabilities, beside the world. *)
Definition St : Type := option Caps * W.

Definition on_world {A} (f : W → res A * W) : M St A := λ s,
  let '(r, w) := f s.2 in Some (r, (s.1, w)).

(** One probe: its errors are dropped. *)
Definition probe_ctap2 (cl : client W) (c : ctx) (w : W) : option GetInfoResponse * W :=
  match invokers cl !! FamilyCTAP2 with
  | None => (None, w)
  | Some _ =>
      match InvokeRaw cl c FamilyCTAP2 CommandGetInfo [] w with
      | (Err _, w) => (None, w)
      | (Ok responseBytes, w) =>
          (match Codec.DecodeGetInfo responseBytes with Ok info => Some info | Err _ => None end, w)
      end
  end.

Definition probe_ctap1 (cl : client W) (c : ctx) (w : W) : option bytes * W :=
  match invokers cl !! FamilyCTAP1 with
  | None => (None, w)
  | Some _ =>
      match InvokeRaw cl c FamilyCTAP1 U2F.CommandVersion [] w with
      | (Err _, w) => (None, w)
      | (Ok responseBytes, w) =>
          (match U2F.DecodeVersion responseBytes (Some []) with (None, v) => v | (Some _, _) => None end, w)
      end
  end.

Definition GetCapabilities (cl : client W) (c : ctx) : M St Caps := λ s,
  match s.1 with
  | Some caps => Some (Ok caps, s)
  | None =>
      let '(ctap2Caps, w) := probe_ctap2 cl c s.2 in
      let '(ctap1Caps, w) := probe_ctap1 cl c w in
      let caps := buildCapabilities ctap1Caps ctap2Caps (SDevice (session cl)) in
      if negb (HasCTAP1 caps) && negb (HasCTAP2 caps)
      then Some (Err ErrNoCapableProtocol, (None, w))
      else Some (Ok caps, (Some caps, w))
  end.
End Capabilities.
Arguments St : clear implicits.
End Capabilities.
