(* ===== verification/ClientFlows.v ===== *)
(** * The client facade, its flows:
      src/pkg/client/{operations,interaction,pin,register,authenticate,reset,
      credentials,credential_types,ctap2_surface,ctap2_helpers,authorization,secrets}.go

    Verification policy, registration, authentication, reset and the CTAP2
    management surface, over a client of [ClientCore] and the manager. *)
From S2P Require Import Prelude GoErrors GoIO Descriptors Ctap1 Ctap2 PinProtocol Manager ClientCore.

(** ** operations.go *)
Module Operations.
Import Types.

Definition authenticatorDataMinimumLength : Z := 37.
Definition attestedCredentialDataHeaderLength : Z := 18.
Definition authenticatorDataFlagUserPresent : Z := 0x01.
Definition authenticatorDataFlagUserVerified : Z := 0x04.
Definition authenticatorDataFlagAttestedCred : Z := 0x40.
Definition fidoU2FAttestationFormat : string := "fido-u2f".

(** The policy types are Go strings, so any value may come from a caller. *)
Definition UserVerificationDiscouraged : string := "discouraged".
Definition UserVerificationPreferred : string := "preferred".
Definition UserVerificationRequired : string := "required".
Definition RequirementDiscouraged : string := "discouraged".
Definition RequirementPreferred : string := "preferred".
Definition RequirementRequired : string := "required".

Record AuthenticatorSelection := MkSelection { SUserPresence : string; SUserVerification : string }.

Definition normalizedUserPresence (selection : AuthenticatorSelection) : string :=
  if String.eqb (SUserPresence selection) RequirementDiscouraged
     || String.eqb (SUserPresence selection) RequirementRequired
  then SUserPresence selection else RequirementPreferred.

Definition normalizedUserVerification (selection : AuthenticatorSelection) : string :=
  if String.eqb (SUserVerification selection) UserVerificationPreferred
     || String.eqb (SUserVerification selection) UserVerificationRequired
  then SUserVerification selection else UserVerificationDiscouraged.

Definition defaultCTAP1AuthenticateControl (selection : AuthenticatorSelection) : Z :=
  if String.eqb (normalizedUserPresence selection) RequirementDiscouraged
  then U2F.ControlDontEnforceUserPresenceAndSign else U2F.ControlEnforceUserPresenceAndSign.

Record CTAP1RegistrationOptions := MkReg1 { R1AppIDHash : bytes }.
(** The facade's CredentialParameter and CredentialDescriptor have the fields
    of the CTAP2 ones; the conversions between them copy field by field. *)
Record CTAP2RegistrationOptions := MkReg2 {
  R2RPName : string;
  R2ResidentKey : bool;
  R2CredentialParameters : list CredentialParameter;
  R2ExcludeList : list CredentialDescriptor;
}.
Record RegistrationRequest := MkRegistration {
  RegChallengeHash : bytes;
  RegRPID : string;
  RegUser : UserEntity;
  RegSelection : AuthenticatorSelection;
  RegCTAP1 : option CTAP1RegistrationOptions;
  RegCTAP2 : option CTAP2RegistrationOptions;
}.
Record CTAP1AuthenticationOptions := MkAuth1 { A1AppIDHash : bytes; A1KeyHandle : bytes; A1Control : Z }.
Record CTAP2AuthenticationOptions := MkAuth2 { A2AllowList : list CredentialDescriptor }.
Record AuthenticationRequest := MkAuthentication {
  AuthChallengeHash : bytes;
  AuthRPID : string;
  AuthSelection : AuthenticatorSelection;
  AuthCTAP1 : option CTAP1AuthenticationOptions;
  AuthCTAP2 : option CTAP2AuthenticationOptions;
}.

(** The results, with their raw responses. *)
Record RegistrationResult {Any : Type} := MkRegResult {
  RRProtocol : string;
  RRCredentialID : bytes;
  RRFormat : string;
  RRUserPresent : bool;
  RRUserVerified : bool;
  RRRawCTAP1 : option U2F.RegisterResponse;
  RRRawCTAP2 : option (Messages.MakeCredentialResponse Any);
}.
Arguments RegistrationResult : clear implicits.
Arguments MkRegResult {Any}.
Record AuthenticationResult := MkAuthResult {
  ARProtocol : string;
  ARCredentialID : bytes;
  ARSignature : bytes;
  ARSignCount : Z;
  ARUserPresent : bool;
  ARUserVerified : bool;
  ARRawCTAP1 : option U2F.AuthenticateResponse;
  ARRawCTAP2 : option Messages.GetAssertionResponse;
}.

Record parsedAuthenticatorData := MkParsed {
  PUserPresent : bool;
  PUserVerified : bool;
  PSignCount : Z;
  PCredentialID : bytes;
}.

Definition parseAuthenticatorData (data : bytes) : res parsedAuthenticatorData :=
  if len data <? authenticatorDataMinimumLength
  then Err (EMsg "client: authenticator data is %d bytes, need at least %d")
  else
    let flags := data !!! 32%nat in
    let parsed id := MkParsed (negb (Z.land flags authenticatorDataFlagUserPresent =? 0))
                       (negb (Z.land flags authenticatorDataFlagUserVerified =? 0))
                       (get_u32 (slice 33 37 data)) id in
    if Z.land flags authenticatorDataFlagAttestedCred =? 0 then Ok (parsed [])
    else
      let offset := authenticatorDataMinimumLength in
      if len data <? offset + attestedCredentialDataHeaderLength
      then Err (EMsg "client: authenticator data is missing attested credential data")
      else
        let offset := offset + 16 in
        let credentialIDLength := get_u16 (slice (Z.to_nat offset) (Z.to_nat offset + 2) data) in
        let offset := offset + 2 in
        if len data <? offset + credentialIDLength
        then Err (EMsg "client: authenticator data credential id length %d exceeds payload")
        else Ok (parsed (slice (Z.to_nat offset) (Z.to_nat (offset + credentialIDLength)) data)).
End Operations.

(** ** interaction.go, pin.go, register.go, authenticate.go, reset.go *)
Module Flows.
Import Types Messages Codec Family Client Capabilities Operations Protocol.

Definition registrationRPName (options : option CTAP2RegistrationOptions) : string :=
  match options with None => "" | Some o => R2RPName o end.
Definition registrationResidentKey (options : option CTAP2RegistrationOptions) : bool :=
  match options with None => false | Some o => R2ResidentKey o end.
Definition registrationCredentialParameters (options : option CTAP2RegistrationOptions)
    : list CredentialParameter :=
  match options with None => [] | Some o => R2CredentialParameters o end.
Definition registrationExcludeList (options : option CTAP2RegistrationOptions)
    : list CredentialDescriptor :=
  match options with None => [] | Some o => R2ExcludeList o end.
Definition authenticationAllowList (options : option CTAP2AuthenticationOptions)
    : list CredentialDescriptor :=
  match options with None => [] | Some o => A2AllowList o end.
Definition defaultCredentialParameters (parameters : list CredentialParameter)
    : list CredentialParameter :=
  if len parameters =? 0 then [MkParam "public-key" (-7)] else parameters.

Definition makeCredentialOptions (selection : AuthenticatorSelection) (useBuiltInUV : bool)
    (registration : option CTAP2RegistrationOptions) : option MakeCredentialOptions :=
  let o := MkMCOptions (registrationResidentKey registration)
             (String.eqb (normalizedUserPresence selection) RequirementRequired) useBuiltInUV in
  if negb (MCResidentKey o) && negb (MCUserPresence o) && negb (MCUserVerification o)
  then None else Some o.

Definition getAssertionOptions (selection : AuthenticatorSelection) (useBuiltInUV : bool)
    : option GetAssertionOptions :=
  let o := MkGAOptions (String.eqb (normalizedUserPresence selection) RequirementRequired) useBuiltInUV in
  if negb (GAUserPresence o) && negb (GAUserVerification o) then None else Some o.

Section Flows.
Context `{HC : Crypto} `{X509} {Any W : Type} `{!Cbor Any} `{!Random W}.
Context (cl : client W).

(** The invoker [ctap2Manager] hands to the manager. *)
#[local] Instance client_invoker : Invoker W := {|
  InvokeCTAP2 c command payload w := InvokeRaw cl c FamilyCTAP2 command payload w;
|}.

(** A run of the manager leaves the cache alone. *)
Definition managed {A} (m : M W A) : M (St W) A := λ s,
  match m s.2 with Some (r, w) => Some (r, (s.1, w)) | None => None end.

Definition invokeRaw (c : ctx) (family : string) (command : Z) (payload : bytes) : M (St W) bytes :=
  on_world (InvokeRaw cl c family command payload).

Definition fill_transport (t : string) : string :=
  if str_empty t then Transport (SDevice (session cl)) else t.

Definition emitInteraction (c : ctx) (event : InteractionEvent) : M (St W) () := λ s,
  match interaction cl with
  | None => Some (Ok (), s)
  | Some h =>
      let event := MkInteraction (IKind event) (IOperation event) (IFamily event)
                     (fill_transport (ITransport event)) (IMessage event) (IRetryable event) in
      Some (Ok (), (s.1, OnInteraction h c event s.2))
  end.

Definition requestPIN (c : ctx) (req : PINRequest) : M (St W) bytes :=
  match interaction cl with
  | None => throw ErrPINRequired
  | Some h =>
      let req := MkPINRequest (POperation req) (PFamily req) (fill_transport (PTransport req))
                   (PMethod req)
                   (if str_empty (PMessage req) then "Enter authenticator PIN"%string else PMessage req) in
      _ ←! emitInteraction c (MkInteraction InteractionAwaitingPIN (POperation req) (PFamily req)
             (PTransport req) (PMessage req) true);
      on_world (RequestPIN h c req)
  end.

Definition pinTokenForPermission (c : ctx) (info : GetInfoResponse) (pin : bytes) (permission : Z)
    (rpid : string) : M (St W) (bytes * Z) :=
  managed (Manager.PinTokenForPermission c info pin permission rpid).

(** [(useBuiltInUV, pinUVAuthParam, pinUVAuthProtocol)]. *)
Definition resolveCTAP2UserVerification (c : ctx) (info : GetInfoResponse) (operation : string)
    (selection : AuthenticatorSelection) (challengeHash : bytes) (permission : Z) (rpid : string)
    : M (St W) (bool * bytes * Z) :=
  let policy := normalizedUserVerification selection in
  if String.eqb policy UserVerificationDiscouraged then ret (false, [], 0)
  else if optionEnabled (Some info) "uv" then ret (true, [], 0)
  else if negb (optionPresent (Some info) "clientPin") then
    if String.eqb policy UserVerificationRequired
    then throw (EMsg "client: authenticator does not support requested user verification")
    else ret (false, [], 0)
  else
    asked ←! attempt (requestPIN c (MkPINRequest operation FamilyCTAP2 "" VerificationMethodPIN
                        ("Enter the authenticator PIN to continue " ++ operation ++ ".")%string));
    match asked with
    | Err e =>
        if bool_decide (is_sentinel "client.ErrPINRequired" e = Some ())
           && String.eqb policy UserVerificationPreferred
        then ret (false, [], 0) else throw e
    | Ok pin =>
        tok ←! pinTokenForPermission c info pin permission rpid;
        let '(pinToken, protocolVersion) := tok in
        ret (false, PinProtocolAuthenticate protocolVersion pinToken challengeHash, protocolVersion)
    end.

Definition presence (operation family message : string) : InteractionEvent :=
  MkInteraction InteractionAwaitingUserPresence operation family "" message true.

(** *** Register *)
Definition register_command (request : RegistrationRequest) (useBuiltInUV : bool)
    (pinUVAuthParam : bytes) (pinUVAuthProtocol : Z) : MakeCredentialCommand Any :=
  MkMC (RegChallengeHash request) (MkRP (RegRPID request) (registrationRPName (RegCTAP2 request)))
    (RegUser request)
    (defaultCredentialParameters (registrationCredentialParameters (RegCTAP2 request)))
    (registrationExcludeList (RegCTAP2 request)) ∅
    (makeCredentialOptions (RegSelection request) useBuiltInUV (RegCTAP2 request))
    pinUVAuthParam pinUVAuthProtocol 0.

Definition register_ctap2 (c : ctx) (info : GetInfoResponse) (request : RegistrationRequest)
    : M (St W) (RegistrationResult Any) :=
  uv ←! resolveCTAP2UserVerification c info "register" (RegSelection request) (RegChallengeHash request)
          PermissionMakeCredential (RegRPID request);
  let '(useBuiltInUV, pinUVAuthParam, pinUVAuthProtocol) := uv in
  _ ←! emitInteraction c (presence "register" FamilyCTAP2
         "Touch or tap the authenticator to continue registration.");
  encoded ←! lift (EncodeMakeCredential
                     (register_command request useBuiltInUV pinUVAuthParam pinUVAuthProtocol));
  responseBytes ←! invokeRaw c FamilyCTAP2 CommandMakeCredential (drop 1 encoded);
  response ←! lift (DecodeMakeCredential responseBytes);
  parsedAuthData ←! lift (parseAuthenticatorData (MAuthData response));
  if len (PCredentialID parsedAuthData) =? 0
  then throw (EMsg "client: ctap2 registration response is missing credential id")
  else ret (MkRegResult FamilyCTAP2 (PCredentialID parsedAuthData) (Format response)
              (PUserPresent parsedAuthData) (PUserVerified parsedAuthData) None (Some response)).

Definition register_ctap1 (c : ctx) (request : RegistrationRequest) : M (St W) (RegistrationResult Any) :=
  match RegCTAP1 request with
  | None => throw (EMsg "client: ctap1 registration requires ctap1 options")
  | Some o =>
      if negb (len (RegChallengeHash request) =? 32)
      then throw (EMsg "client: ctap1 register challenge hash must be 32 bytes")
      else if negb (len (R1AppIDHash o) =? 32)
      then throw (EMsg "client: ctap1 register app id hash must be 32 bytes")
      else
        _ ←! emitInteraction c (presence "register" FamilyCTAP1
               "Touch or tap the authenticator to continue registration.");
        responseBytes ←! invokeRaw c FamilyCTAP1 U2F.CommandRegister
                           (RegChallengeHash request ++ R1AppIDHash o);
        match U2F.DecodeRegister responseBytes (Some (U2F.MkRegisterResponse 0 [] [] [] [])) with
        | (Some e, _) => throw e
        | (None, None) => throw (EMsg "ctap1: response target is nil")
        | (None, Some response) =>
            ret (MkRegResult FamilyCTAP1 (U2F.RKeyHandle response) fidoU2FAttestationFormat true false
                   (Some response) None)
        end
  end.

Definition Register (c : ctx) (request : RegistrationRequest) : M (St W) (RegistrationResult Any) :=
  caps ←! GetCapabilities cl c;
  match RawCTAP2 caps with
  | Some info => register_ctap2 c info request
  | None => if negb (HasCTAP1 caps) then throw ErrNoCapableProtocol else register_ctap1 c request
  end.

(** *** Authenticate *)
Definition authenticate_command (request : AuthenticationRequest) (useBuiltInUV : bool)
    (pinUVAuthParam : bytes) (pinUVAuthProtocol : Z) : GetAssertionCommand Any :=
  MkGA (AuthRPID request) (AuthChallengeHash request) (authenticationAllowList (AuthCTAP2 request)) ∅
    (getAssertionOptions (AuthSelection request) useBuiltInUV) pinUVAuthParam pinUVAuthProtocol.

Definition authenticate_ctap2 (c : ctx) (info : GetInfoResponse) (request : AuthenticationRequest)
    : M (St W) AuthenticationResult :=
  uv ←! resolveCTAP2UserVerification c info "authenticate" (AuthSelection request)
          (AuthChallengeHash request) PermissionGetAssertion (AuthRPID request);
  let '(useBuiltInUV, pinUVAuthParam, pinUVAuthProtocol) := uv in
  _ ←! emitInteraction c (presence "authenticate" FamilyCTAP2
         "Touch or tap the authenticator to continue authentication.");
  encoded ←! lift (EncodeGetAssertion
                     (authenticate_command request useBuiltInUV pinUVAuthParam pinUVAuthProtocol));
  responseBytes ←! invokeRaw c FamilyCTAP2 CommandGetAssertion (drop 1 encoded);
  response ←! lift (DecodeGetAssertion responseBytes);
  parsedAuthData ←! lift (parseAuthenticatorData (AAuthData response));
  ret (MkAuthResult FamilyCTAP2 (CredID (ACredential response)) (Messages.ASignature response)
         (PSignCount parsedAuthData) (PUserPresent parsedAuthData) (PUserVerified parsedAuthData)
         None (Some response)).

(** The payload of the CTAP1 command; the control byte is computed for the
    command value, whose [Encode] is not called. *)
Definition ctap1_payload (request : AuthenticationRequest) (o : CTAP1AuthenticationOptions) : bytes :=
  AuthChallengeHash request ++ A1AppIDHash o ++ [u8 (len (A1KeyHandle o))] ++ A1KeyHandle o.
Definition ctap1_control (request : AuthenticationRequest) (o : CTAP1AuthenticationOptions) : Z :=
  if A1Control o =? 0 then defaultCTAP1AuthenticateControl (AuthSelection request) else A1Control o.

Definition authenticate_ctap1 (c : ctx) (request : AuthenticationRequest) : M (St W) AuthenticationResult :=
  match AuthCTAP1 request with
  | None => throw (EMsg "client: ctap1 authentication requires ctap1 options")
  | Some o =>
      if negb (len (AuthChallengeHash request) =? 32)
      then throw (EMsg "client: ctap1 authenticate challenge hash must be 32 bytes")
      else if negb (len (A1AppIDHash o) =? 32)
      then throw (EMsg "client: ctap1 authenticate app id hash must be 32 bytes")
      else if len (A1KeyHandle o) =? 0
      then throw (EMsg "client: ctap1 authenticate key handle must not be empty")
      else
        _ ←! emitInteraction c (presence "authenticate" FamilyCTAP1
               "Touch or tap the authenticator to continue authentication.");
        responseBytes ←! invokeRaw c FamilyCTAP1 U2F.CommandAuthenticate (ctap1_payload request o);
        match U2F.DecodeAuthenticate responseBytes (Some (U2F.MkAuthenticateResponse 0 0 [])) with
        | (Some e, _) => throw e
        | (None, None) => throw (EMsg "ctap1: response target is nil")
        | (None, Some response) =>
            ret (MkAuthResult FamilyCTAP1 (A1KeyHandle o) (U2F.ASignature response)
                   (U2F.Counter response) (U2F.UserPresent response) false (Some response) None)
        end
  end.

Definition Authenticate (c : ctx) (request : AuthenticationRequest) : M (St W) AuthenticationResult :=
  caps ←! GetCapabilities cl c;
  match RawCTAP2 caps with
  | Some info => authenticate_ctap2 c info request
  | None => if negb (HasCTAP1 caps) then throw ErrNoCapableProtocol else authenticate_ctap1 c request
  end.

(** *** Reset *)
Definition Reset (c : ctx) : M (St W) () :=
  caps ←! GetCapabilities cl c;
  if negb (HasCTAP2 caps) then
    if HasCTAP1 caps
    then throw (EMsg "client: authenticator supports CTAP1 only; reset requires CTAP2")
    else throw ErrNoCapableProtocol
  else
    _ ←! emitInteraction c (presence "reset" FamilyCTAP2
           "Touch or tap the authenticator to confirm reset.");
    responseBytes ←! invokeRaw c FamilyCTAP2 CommandReset [];
    lift (DecodeReset responseBytes).

(** ** pin.go and credentials.go *)
Definition requireCTAP2Capabilities (c : ctx) (operation : string) : M (St W) GetInfoResponse :=
  caps ←! GetCapabilities cl c;
  match RawCTAP2 caps with
  | Some info => ret info
  | None =>
      if HasCTAP1 caps
      then throw (EMsg ("client: authenticator supports CTAP1 only; " ++ operation ++ " requires CTAP2"))
      else throw ErrNoCapableProtocol
  end.

Definition SetPIN (c : ctx) (newPIN : bytes) : M (St W) () :=
  if len newPIN =? 0 then throw ErrNewPINRequired
  else
    info ←! requireCTAP2Capabilities c "setting a PIN";
    managed (Manager.SetPIN c info newPIN).

Definition GetPINRetries (c : ctx) : M (St W) Manager.PINRetries :=
  info ←! requireCTAP2Capabilities c "reading PIN retry counters";
  managed (Manager.GetPINRetries c info).

Definition ChangePIN (c : ctx) (currentPIN newPIN : bytes) : M (St W) () :=
  if len currentPIN =? 0 then throw ErrPINRequired
  else if len newPIN =? 0 then throw ErrNewPINRequired
  else
    info ←! requireCTAP2Capabilities c "changing the PIN";
    managed (Manager.ChangePIN c info currentPIN newPIN).

Definition ListCredentials (c : ctx) (pin : bytes) : M (St W) Manager.CredentialListResult :=
  if len pin =? 0 then throw ErrPINRequired
  else
    info ←! requireCTAP2Capabilities c "listing discoverable credentials";
    managed (Manager.ListCredentials c (Some info) pin).

Definition DeleteCredential (c : ctx) (credential : CredentialDescriptor) (pin : bytes) : M (St W) () :=
  if len pin =? 0 then throw ErrPINRequired
  else
    normalized ←! lift (Manager.NormalizeCredentialDescriptor credential);
    info ←! requireCTAP2Capabilities c "deleting discoverable credentials";
    managed (Manager.DeleteCredential c (Some info) normalized pin).

Definition listCredentialsWithBuiltInUV (c : ctx) (info : option GetInfoResponse)
    : M (St W) Manager.CredentialListResult :=
  managed (Manager.ListCredentialsWithBuiltInUV c info).

Definition deleteCredentialWithBuiltInUV (c : ctx) (credential : CredentialDescriptor)
    (info : option GetInfoResponse) : M (St W) () :=
  normalized ←! lift (Manager.NormalizeCredentialDescriptor credential);
  managed (Manager.DeleteCredentialWithBuiltInUV c info normalized).

(** ** ctap2_surface.go *)
Record UVAuthorization := MkUVAuth { UVPIN : bytes; UVMethod : string }.
(** [Info] is nil for a PIN authorization. *)
Record credentialAuthorization := MkCredAuth {
  CAMethod : string;
  CAPIN : bytes;
  CAInfo : option GetInfoResponse;
}.
Record PINStatus := MkStatus {
  Configured : bool;
  Retries : Z;
  UVRetries : Z;
  PowerCycleNeeded : bool;
}.

Definition credentialManagementOperation : string := "credential management".

Definition CTAP2Available (c : ctx) : M (St W) () :=
  caps ←! GetCapabilities cl c;
  if negb (HasCTAP2 caps) then throw (ECTAP2Unavailable (ID (SDevice (session cl)))) else ret ().

Definition SurfaceInfo (c : ctx) : M (St W) GetInfoResponse :=
  caps ←! GetCapabilities cl c;
  match RawCTAP2 caps with
  | None => throw (ECTAP2Unavailable (ID (SDevice (session cl))))
  | Some info => ret info
  end.

Definition PINManagerStatus (c : ctx) : M (St W) PINStatus :=
  info ←! requireCTAP2Capabilities c "reading PIN status";
  if negb (optionPresent (Some info) "clientPin")
  then throw (EMsg "client: authenticator does not support clientPin")
  else if negb (optionEnabled (Some info) "clientPin") then ret (MkStatus false 0 0 false)
  else
    retries ←! GetPINRetries c;
    ret (MkStatus true (Manager.NPINRetries retries) (Manager.NUVRetries retries)
           (Manager.NPowerCycleState retries)).

Definition PINManagerSet : ctx → bytes → M (St W) () := SetPIN.
Definition PINManagerChange : ctx → bytes → bytes → M (St W) () := ChangePIN.
Definition SurfaceReset : ctx → M (St W) () := Reset.

Definition resolveCredentialPINAuthorization (c : ctx) (authorization : UVAuthorization)
    (operation message : string) : M (St W) credentialAuthorization :=
  if len (UVPIN authorization) =? 0 then
    pin ←! requestPIN c (MkPINRequest operation FamilyCTAP2 "" VerificationMethodPIN message);
    ret (MkCredAuth VerificationMethodPIN pin None)
  else ret (MkCredAuth VerificationMethodPIN (UVPIN authorization) None).

Definition requireCredentialManagementBuiltInUV (c : ctx) : M (St W) GetInfoResponse :=
  info ←! requireCTAP2Capabilities c credentialManagementOperation;
  if negb (optionPresent (Some info) "uv")
  then throw (EMethodUnavailable VerificationMethodBuiltInUV credentialManagementOperation "")
  else if negb (optionEnabled (Some info) "uv")
  then throw (EMethodUnavailable VerificationMethodBuiltInUV credentialManagementOperation
                "authenticator built-in UV is not configured")
  else if negb (optionEnabled (Some info) "pinUvAuthToken")
  then throw (EMethodUnavailable VerificationMethodBuiltInUV credentialManagementOperation
                "authenticator does not support pinUvAuthToken for built-in UV")
  else if negb (optionEnabled (Some info) "credMgmt") then
    if optionEnabled (Some info) "credentialMgmtPreview"
    then throw (EUnsupportedMethod VerificationMethodBuiltInUV "credential management preview")
    else throw (EMsg "client: credential management is not supported")
  else ret info.

Definition resolveCredentialAuthorization (c : ctx) (authorization : UVAuthorization)
    (operation message : string) : M (St W) credentialAuthorization :=
  let method := if str_empty (UVMethod authorization) then VerificationMethodPIN
                else UVMethod authorization in
  if String.eqb method VerificationMethodPIN
  then resolveCredentialPINAuthorization c authorization operation message
  else if String.eqb method VerificationMethodBuiltInUV
  then
    info ←! requireCredentialManagementBuiltInUV c;
    ret (MkCredAuth VerificationMethodBuiltInUV [] (Some info))
  else throw (EUnsupportedMethod method credentialManagementOperation).

Definition CredentialManagerList (c : ctx) (authorization : UVAuthorization)
    : M (St W) Manager.CredentialListResult :=
  resolved ←! resolveCredentialAuthorization c authorization "list credentials"
                "Enter authenticator PIN to list discoverable credentials";
  if String.eqb (CAMethod resolved) VerificationMethodBuiltInUV
  then listCredentialsWithBuiltInUV c (CAInfo resolved)
  else ListCredentials c (CAPIN resolved).

Definition CredentialManagerDelete (c : ctx) (credential : CredentialDescriptor)
    (authorization : UVAuthorization) : M (St W) () :=
  resolved ←! resolveCredentialAuthorization c authorization "delete credential"
                "Enter authenticator PIN to delete a discoverable credential";
  if String.eqb (CAMethod resolved) VerificationMethodBuiltInUV
  then deleteCredentialWithBuiltInUV c credential (CAInfo resolved)
  else DeleteCredential c credential (CAPIN resolved).

Definition BioSupported (c : ctx) : M (St W) bool :=
  info ←! requireCTAP2Capabilities c "reading bio enrollment capabilities";
  ret (optionPresent (Some info) "bioEnroll").

(** The enrollments, always none. *)
Definition BioEnrollments (c : ctx) : M (St W) () :=
  info ←! requireCTAP2Capabilities c "enumerating bio enrollments";
  if negb (optionPresent (Some info) "bioEnroll")
  then throw (EMsg "client: bio enrollment is not supported")
  else if negb (optionEnabled (Some info) "bioEnroll") then ret ()
  else throw (EMsg "client: bio enrollment enumeration is not implemented").
End Flows.
End Flows.
