(* ===== verification/Locator.v ===== *)
(** * Locators: src/pkg/client/{locator,default_locator}.go

    The client-facing entry point: a registry of transport backends, whose
    sessions are wrapped in a client facade.  A session that was opened and
    could not be wrapped is closed again. *)
From S2P Require Import Prelude GoErrors GoIO Descriptors Registry ClientCore.

Module Locator.
Import Client.

Section Locator.
Context {W : Type}.

Record transportLocator := MkLocator { registry : Registry.t W (Session W) }.

Definition NewTransportLocator (backends : list (option (Backend W (Session W)))) : res transportLocator :=
  r ←? Registry.NewRegistry backends; Ok (MkLocator r).

Definition List (locator : transportLocator) (c : ctx) (w : W)
    : option ((list DeviceDescriptor * option goerror) * W) :=
  Registry.DiscoverAll (registry locator) c w.

(** The body of the loop, for the device whose identifier matches. *)
Definition open_device (locator : transportLocator) (c : ctx) (device : DeviceDescriptor)
    (options : list (option (ClientOption W))) : M W (client W) :=
  session ←! Registry.OpenDevice (registry locator) c device;
  match New (Some session) options with
  | Err e => λ w, let '(_, w) := SClose session w in Some (Err e, w)
  | Ok cl => ret cl
  end.

Fixpoint open_loop (locator : transportLocator) (c : ctx) (devices : list DeviceDescriptor)
    (deviceID : string) (options : list (option (ClientOption W))) : M W (client W) :=
  match devices with
  | [] => throw (EDeviceNotFound deviceID)
  | device :: devices =>
      if negb (String.eqb (ID device) deviceID) then open_loop locator c devices deviceID options
      else open_device locator c device options
  end.

Definition Open (locator : transportLocator) (c : ctx) (deviceID : string)
    (options : list (option (ClientOption W))) : M W (client W) := λ w,
  match Registry.DiscoverAll (registry locator) c w with
  | None => None
  | Some ((devices, err), w) =>
      match err, devices with
      | Some e, [] => Some (Err e, w)
      | None, [] => Some (Err (EDeviceNotFound deviceID), w)
      | _, device :: _ =>
          let deviceID := if str_empty deviceID then ID device else deviceID in
          open_loop locator c devices deviceID options w
      end
  end.

(** *** default_locator.go *)
Record TransportPreference := MkPreference { USB : bool; NFC : bool }.
Definition LocatorOption : Type := TransportPreference → TransportPreference.
Definition WithUSB (enabled : bool) : LocatorOption := λ p, MkPreference enabled (NFC p).
Definition WithNFC (enabled : bool) : LocatorOption := λ p, MkPreference (USB p) enabled.
Definition defaultLocatorOptions : TransportPreference := MkPreference true false.

(** The loop over the options; nil options are skipped. *)
Fixpoint resolve (options : list (option LocatorOption)) (p : TransportPreference) : TransportPreference :=
  match options with
  | [] => p
  | None :: options => resolve options p
  | Some option :: options => resolve options (option p)
  end.

Definition errDefaultLocatorTransportRequired : goerror :=
  EMsg "client: at least one default transport must be enabled".

(** The two constructors are package variables of the source. *)
Definition NewDefaultLocator (newDefaultUSBBackend : Backend W (Session W))
    (newDefaultNFCBackend : res (Backend W (Session W))) (options : list (option LocatorOption))
    : res transportLocator :=
  let preference := resolve options defaultLocatorOptions in
  let backends := if USB preference then [Some newDefaultUSBBackend] else [] in
  backends ←? (if NFC preference
               then nfcBackend ←? newDefaultNFCBackend; Ok (backends ++ [Some nfcBackend])
               else Ok backends);
  if len backends =? 0 then Err errDefaultLocatorTransportRequired
  else NewTransportLocator backends.
End Locator.
Arguments transportLocator : clear implicits.
End Locator.

Module LocatorProps.
Import Registry RegistryProps Client Locator.

Section Props.
Context {W : Type}.
Implicit Types (bs : list (Backend W (Session W))) (locator : transportLocator W).

Lemma locator_of obs locator : NewTransportLocator obs = Ok locator →
  ∃ bs, obs = map Some bs ∧ well_formed (registry locator) bs.
Proof.
  unfold NewTransportLocator. intros (r & Hr & [= <-])%rbind_Ok.
  destruct (register_all_Ok obs _ [] r well_formed_empty Hr) as (bs & -> & Hwf). by exists bs.
Qed.

Lemma discover_of locator bs c w : well_formed (registry locator) bs →
  DiscoverAll (registry locator) c w =
    let '((ds, es), w') := discovered bs c w in Some ((ds, Join es), w').
Proof.
  intros Hwf. pose proof Hwf as (Hord & _). unfold DiscoverAll.
  rewrite Hord, (discover_loop_spec _ bs bs) by done. by destruct (discovered bs c w) as [[ds es] w'].
Qed.

Lemma open_loop_find locator c id options ds w :
  open_loop locator c ds id options w =
  match list_find (λ d, ID d = id) ds with
  | None => Some (Err (EDeviceNotFound id), w)
  | Some (_, d) => open_device locator c d options w
  end.
Proof.
  induction ds as [|d ds IH]; simpl; [done|].
  destruct (String.eqb_spec (ID d) id) as [Hd|Hd]; cbn [negb].
  - by rewrite decide_True by done.
  - rewrite decide_False by done. rewrite IH. by destruct (list_find _ ds) as [[]|].
Qed.

Lemma open_device_backend locator bs c d b options w :
  well_formed (registry locator) bs → b ∈ bs → Kind b = Transport d →
  open_device locator c d options w =
  match Registry.Open b c d w with
  | None => None
  | Some (Err e, w') => Some (Err e, w')
  | Some (Ok session, w') =>
      match New (Some session) options with
      | Ok cl => Some (Ok cl, w')
      | Err e => Some (Err e, (SClose session w').2)
      end
  end.
Proof.
  intros (_ & _ & Hlk & _) Hin Hk. unfold open_device, OpenDevice.
  rewrite (proj2 (Hlk (Transport d) b)) by done. unfold bind.
  destruct (Registry.Open b c d w) as [[[session|e] w']|]; [|done|done].
  destruct (New (Some session) options); [done|]. by destruct (SClose session w').
Qed.

(** Opening through a locator selects exactly one device and leaks no
    session.  [Open] discovers on every backend once; without devices it
    fails, with the backends' errors if there are any.  Otherwise, even if
    some backend failed, it takes the first device with the given identifier
    (the first device when the identifier is empty), opens it once with the
    backend of its transport, and wraps the session in a client with the
    given options; when the options are refused the session, and only then,
    is closed again.  An identifier that matches nothing opens nothing. *)
Theorem locator_open_exact (obs : list (option (Backend W (Session W)))) (locator : transportLocator W)
    (c : ctx) (deviceID : string) (options : list (option (ClientOption W))) (w : W)
    (Hnew : NewTransportLocator obs = Ok locator) :
  ∃ bs ds es w1,
    obs = map Some bs ∧ discovered bs c w = ((ds, es), w1) ∧
    let id := if str_empty deviceID then match ds with d :: _ => ID d | [] => "" end else deviceID in
    (ds = [] →
       Open locator c deviceID options w =
         Some (Err (match es with [] => EDeviceNotFound deviceID | _ => EJoin es end), w1)) ∧
    (ds ≠ [] → Forall (λ d, ID d ≠ id) ds →
       Open locator c deviceID options w = Some (Err (EDeviceNotFound id), w1)) ∧
    (∀ before d after b, ds = before ++ d :: after → Forall (λ d, ID d ≠ id) before → ID d = id →
       b ∈ bs → Kind b = Transport d →
       Open locator c deviceID options w =
         match Registry.Open b c d w1 with
         | None => None
         | Some (Err e, w') => Some (Err e, w')
         | Some (Ok session, w') =>
             match New (Some session) options with
             | Ok cl => Some (Ok cl, w')
             | Err e => Some (Err e, (SClose session w').2)
             end
         end).
Proof.
  destruct (locator_of _ _ Hnew) as (bs & -> & Hwf). exists bs.
  destruct (discovered bs c w) as [[ds es] w1] eqn:Hd. exists ds, es, w1. split; [done|]. split; [done|].
  intros id.
  assert (Hdisc : DiscoverAll (registry locator) c w = Some ((ds, Join es), w1)).
  { by rewrite (discover_of _ bs) by done; rewrite Hd. }
  assert (Hopen : ds ≠ [] → Open locator c deviceID options w = open_loop locator c ds id options w1).
  { intros Hne. unfold Open. rewrite Hdisc. destruct ds as [|d ds]; [done|]. by destruct (Join es). }
  split; [|split].
  - intros ->. unfold Open. rewrite Hdisc. by destruct es.
  - intros Hne Hno. rewrite Hopen, open_loop_find by done.
    rewrite (proj2 (list_find_None _ _)); [done|]. exact Hno.
  - intros before d after b -> Hb Hid Hin Hk.
    rewrite Hopen by (by destruct before). rewrite open_loop_find.
    rewrite (proj2 (list_find_Some _ _ (length before) d)).
    + by apply (open_device_backend _ bs).
    + split; [by rewrite list_lookup_middle|]. split; [done|].
      intros j y Hj Hlt. rewrite lookup_app_l in Hj by done.
      by eapply (Forall_lookup_1 _ _ _ _ Hb).
Qed.
End Props.
End LocatorProps.
