(* ===== verification/ClientProps.v ===== *)
(** * Correctness of the facade's core

    Raw invocation and tracing, the capability cache, authenticator data and
    locators, over [ClientCore], [ClientFlows] and [Locator]. *)
From S2P Require Import Prelude GoErrors GoIO Descriptors Registry Ctap1 Ctap2 PinProtocol.
From S2P Require Import Manager ClientCore ClientFlows Locator.

(** ** Raw invocation *)
Module InvokeProps.
Import Family Client Trace Middleware.

Section Invoke.
Context {W : Type}.

(** Wrappers registered one by one. *)
Lemma apply_middlewares (ms : list (ExchangeFunc W → ExchangeFunc W)) : ∀ rest cfg,
  apply_options (map (λ m, Some (WithMiddleware (Some m))) ms ++ rest) cfg =
  apply_options rest (MkConfig (middlewares cfg ++ ms) (hidMiddlewares cfg) (cfg_invokers cfg)
                        (cfg_interaction cfg)).
Proof.
  induction ms as [|m ms IH]; intros rest cfg; simpl.
  - rewrite app_nil_r. by destruct cfg.
  - rewrite IH. simpl. by rewrite <-app_assoc.
Qed.

Definition default_invokers : gmap string (RawInvoker W) :=
  <[FamilyCTAP2 := ctap2RawInvoker]> (<[FamilyCTAP1 := ctap1RawInvoker]> ∅).

Lemma default_config (cfg : config W) : cfg_invokers cfg = ∅ →
  WithDefaultRawInvokers cfg =
  Ok (MkConfig (middlewares cfg) (hidMiddlewares cfg) default_invokers (cfg_interaction cfg)).
Proof.
  intros He. unfold WithDefaultRawInvokers, WithRawInvoker. cbn [IProtocol ctap1RawInvoker].
  change (Validate FamilyCTAP1) with (@None goerror). rewrite He, lookup_empty. cbn [rbind].
  cbn [IProtocol ctap2RawInvoker cfg_invokers]. change (Validate FamilyCTAP2) with (@None goerror).
  by rewrite lookup_insert_ne, lookup_empty by done.
Qed.

Lemma default_client s ms cl :
  New (Some s) (Some WithDefaultRawInvokers :: map (λ m, Some (WithMiddleware (Some m))) ms) = Ok cl →
  cl = MkClient s (Chain (SExchange s) ms) (ChainHID (baseHIDExchange s) []) default_invokers None.
Proof.
  cbn [New apply_options]. rewrite default_config by done. cbn [rbind].
  rewrite <-(app_nil_r (map _ ms)), apply_middlewares. by intros [= <-].
Qed.

Lemma invoke_ctap2 (cl : client W) c command payload w :
  invokers cl !! FamilyCTAP2 = Some ctap2RawInvoker →
  InvokeRaw cl c FamilyCTAP2 command payload w = exchange cl c (command :: payload) w.
Proof. intros H. unfold InvokeRaw. change (Validate FamilyCTAP2) with (@None goerror). by rewrite H. Qed.

(** Raw requests are routed exactly, through the middleware in
    registration order.  A client made with the default invokers and any
    middleware sends a CTAP2 request as the command byte and the payload, and
    a CTAP1 request as an APDU that a card parses back as that instruction and
    payload with zero parameters; the request passes the wrappers with the
    first registered outermost and the session innermost, and the answer is
    theirs.  An APDU that cannot be encoded (more than 65535 bytes of payload)
    and an unknown family are refused without touching the session, and a
    second registration of an invoker is refused. *)
Theorem invoke_routes (s : Session W) (ms : list (ExchangeFunc W → ExchangeFunc W)) (c : ctx)
    (command : Z) (payload : bytes) (w : W) :
  ∃ cl,
    New (Some s) (Some WithDefaultRawInvokers :: map (λ m, Some (WithMiddleware (Some m))) ms) = Ok cl ∧
    InvokeRaw cl c FamilyCTAP2 command payload w =
      foldr (λ m next, m next) (SExchange s) ms c (command :: payload) w ∧
    (len payload <= 65535 → ∃ apdu,
       InvokeRaw cl c FamilyCTAP1 command payload w =
         foldr (λ m next, m next) (SExchange s) ms c apdu w ∧
       Card.parse apdu = Some (Card.Command 0 command 0 0 payload 65536)) ∧
    (65535 < len payload → ∃ e, InvokeRaw cl c FamilyCTAP1 command payload w = (Err e, w)) ∧
    (∀ family, family ≠ FamilyCTAP1 → family ≠ FamilyCTAP2 →
       InvokeRaw cl c family command payload w = (Err (EUnknownFamily family), w)) ∧
    New (Some s) [Some WithDefaultRawInvokers; Some WithDefaultCTAP2RawInvoker] =
      Err (EDuplicateRawInvoker FamilyCTAP2).
Proof.
  assert (Hcl : ∃ cl, New (Some s)
      (Some WithDefaultRawInvokers :: map (λ m, Some (WithMiddleware (Some m))) ms) = Ok cl).
  { cbn [New apply_options]. rewrite default_config by done. cbn [rbind].
    rewrite <-(app_nil_r (map _ ms)), apply_middlewares. by eexists. }
  destruct Hcl as [cl Hcl]. exists cl. split; [done|]. apply default_client in Hcl as ->.
  split; [by apply invoke_ctap2|].
  assert (H1 : ∀ r, Apdu.EncodeRawAPDU command payload = r →
    InvokeRaw (MkClient s (Chain (SExchange s) ms) (ChainHID (baseHIDExchange s) []) default_invokers None)
      c FamilyCTAP1 command payload w =
    match r with Err e => (Err e, w) | Ok apdu => Chain (SExchange s) ms c apdu w end) by (by intros ? <-).
  split; [|split; [|split]].
  - intros Hl. destruct (Apdu.EncodeRawAPDU command payload) as [apdu|e] eqn:He.
    + exists apdu. split; [exact (H1 _ eq_refl)|]. by apply (Ctap1Props.encode_parse command 0 0 payload 65536).
    + exfalso. unfold Apdu.EncodeRawAPDU, Apdu.encodeAPDU in He.
      destruct (Z.ltb_spec 0xffff (len payload)); [lia|]. by destruct (_ && _).
  - intros Hl. unfold Apdu.EncodeRawAPDU, Apdu.encodeAPDU in H1.
    destruct (Z.ltb_spec 0xffff (len payload)); [|lia]. eexists. exact (H1 _ eq_refl).
  - intros family Hn1 Hn2. unfold InvokeRaw, Validate, IsKnown.
    by rewrite (proj2 (String.eqb_neq _ _) Hn1), (proj2 (String.eqb_neq _ _) Hn2).
  - cbn [New apply_options]. rewrite default_config by done. cbn [rbind].
    unfold WithDefaultCTAP2RawInvoker, WithRawInvoker. cbn [IProtocol ctap2RawInvoker cfg_invokers].
    change (Validate FamilyCTAP2) with (@None goerror). unfold default_invokers.
    by rewrite lookup_insert_eq.
Qed.
End Invoke.
End InvokeProps.

(** ** Tracing *)
Module TraceProps.
Import Middleware Family Client Trace InvokeProps.

Section Trace.
Context {W : Type}.

(** What a recorder promises: appending adds one event at the end of its
    list and leaves the other list alone. *)
Class TraceLaws (recorder : TraceRecorder W) : Prop := {
  events_append e w : events recorder (append_event recorder e w) = events recorder w ++ [e];
  hid_append e w : hidEvents recorder (append_hid recorder e w) = hidEvents recorder w ++ [e];
}.

(** A session that does not write to the recorder. *)
Definition untraced (recorder : TraceRecorder W) (next : ExchangeFunc W) : Prop :=
  ∀ c req w, events recorder (next c req w).2 = events recorder w.
Definition hid_untraced (recorder : TraceRecorder W) (next : HIDExchangeFunc W) : Prop :=
  ∀ c command payload w, hidEvents recorder (next c command payload w).2 = hidEvents recorder w.

(** The events of one exchange. *)
Definition exchange_events (redactSecrets : bool) (req : bytes) (r : res bytes) : list TraceEvent :=
  let command := traceCommand req in
  let redact := redactSecrets && traceCommandContainsSecrets command in
  event_of TraceDirectionRequest req command redact ::
  match response_bytes r with
  | [] => []
  | response => [event_of TraceDirectionResponse response command redact]
  end.

Lemma wrap_exchange recorder `{!TraceLaws recorder} redactSecrets next c req w :
  untraced recorder next →
  (∃ w1, (WrapExchange recorder redactSecrets next c req w).1 = (next c req w1).1) ∧
  events recorder (WrapExchange recorder redactSecrets next c req w).2 =
  events recorder w ++
    exchange_events redactSecrets req (WrapExchange recorder redactSecrets next c req w).1.
Proof.
  intros Hn. unfold WrapExchange. cbv zeta. set (w1 := record _ _ _ _ _ w).
  pose proof (Hn c req w1) as Hw. destruct (next c req w1) as [r w2] eqn:E. cbn [snd] in Hw.
  split; [exists w1; by rewrite E|]. cbn [fst snd]. unfold exchange_events.
  assert (H1 : events recorder w1 = events recorder w ++
    [event_of TraceDirectionRequest req (traceCommand req)
       (redactSecrets && traceCommandContainsSecrets (traceCommand req))]) by apply events_append.
  destruct (response_bytes r) as [|b response] eqn:Hr.
  - change (negb (len (@nil Z) =? 0)) with false. cbv iota. rewrite Hw, H1. done.
  - rewrite (proj2 (Z.eqb_neq _ _)) by (rewrite len_cons; pose proof (len_nonneg response); lia).
    cbn [negb]. unfold record. rewrite events_append, Hw, H1, <-app_assoc. done.
Qed.

Lemma wrap_hid recorder `{!TraceLaws recorder} redactSecrets next c command payload w :
  hid_untraced recorder next →
  (∃ w1, (WrapHIDExchange recorder redactSecrets next c command payload w).1 =
         (next c command payload w1).1) ∧
  hidEvents recorder (WrapHIDExchange recorder redactSecrets next c command payload w).2 =
  hidEvents recorder w ++ hid_event_of TraceDirectionRequest command payload redactSecrets ::
    match (WrapHIDExchange recorder redactSecrets next c command payload w).1 with
    | Ok response => [hid_event_of TraceDirectionResponse command response redactSecrets]
    | Err _ => []
    end.
Proof.
  intros Hn. unfold WrapHIDExchange. cbv zeta. set (w1 := recordHID _ _ _ _ _ w).
  pose proof (Hn c command payload w1) as Hw.
  destruct (next c command payload w1) as [r w2] eqn:E. cbn [snd] in Hw.
  split; [exists w1; by rewrite E|]. cbn [fst snd].
  assert (H1 : hidEvents recorder w1 = hidEvents recorder w ++
    [hid_event_of TraceDirectionRequest command payload redactSecrets]) by apply hid_append.
  destruct r as [response|e].
  - unfold recordHID. rewrite hid_append, Hw, H1, <-app_assoc. done.
  - by rewrite Hw, H1.
Qed.

(** Redacted events of equal lengths cannot be told apart. *)
Lemma events_hide req req' r r' :
  traceCommandContainsSecrets (traceCommand req) = true → traceCommand req = traceCommand req' →
  len req = len req' → len (response_bytes r) = len (response_bytes r') →
  exchange_events true req r = exchange_events true req' r'.
Proof.
  intros Hs Hc Hl Hr. unfold exchange_events, event_of. rewrite <-Hc, Hs, Hl. f_equal.
  destruct (response_bytes r) as [|b l], (response_bytes r') as [|b' l'];
    rewrite ?len_cons, ?len_nil in Hr.
  - done.
  - pose proof (len_nonneg l'); lia.
  - pose proof (len_nonneg l); lia.
  - cbn [andb]. rewrite !len_cons. by replace (1 + len l) with (1 + len l') by lia.
Qed.

(** C18: tracing is transparent and keeps secrets out of the trace.  A
    client made with the default invokers and [WithTrace] answers a CTAP2
    request with what its session answers, and appends exactly the events of
    that exchange: the request, then the response if there are bytes.  With
    redaction, ClientPIN (0x06) and credential-management (0x0a, 0x41) exchanges leave events
    with no payload at all, so two such exchanges whose requests and
    responses have the same lengths leave the same trace, whatever the PINs,
    tokens and credentials in them.  Explicit HID exchanges are traced the
    same way, and redacted whole. *)
Theorem trace_redacts (recorder : TraceRecorder W) (Hlaws : TraceLaws recorder) (s : Session W)
    (redactSecrets : bool) (cl : client W) (command : Z) (payload : bytes) (c : ctx) (w : W)
    (Huntraced : untraced recorder (SExchange s)) (Hhid : hid_untraced recorder (baseHIDExchange s))
    (Hnew : New (Some s) [Some WithDefaultRawInvokers; Some (WithTrace (Some recorder) redactSecrets)]
            = Ok cl) :
  let run := InvokeRaw cl c FamilyCTAP2 command payload w in
  (∃ w1, run.1 = (SExchange s c (command :: payload) w1).1) ∧
  events recorder run.2 = events recorder w ++ exchange_events redactSecrets (command :: payload) run.1 ∧
  (redactSecrets = true → command = 0x06 ∨ command = 0x0a ∨ command = 0x41 →
     Forall (λ e, Payload e = [] ∧ Redacted e = true ∧ ECommand e = command)
       (exchange_events redactSecrets (command :: payload) run.1) ∧
     ∀ payload' w',
       let run' := InvokeRaw cl c FamilyCTAP2 command payload' w' in
       len payload = len payload' → len (response_bytes run.1) = len (response_bytes run'.1) →
       events recorder w = events recorder w' → events recorder run.2 = events recorder run'.2) ∧
  let hid := hidExchange cl c command payload w in
  (∃ w1, hid.1 = (baseHIDExchange s c command payload w1).1) ∧
  hidEvents recorder hid.2 = hidEvents recorder w ++
    hid_event_of TraceDirectionRequest command payload redactSecrets ::
    match hid.1 with
    | Ok response => [hid_event_of TraceDirectionResponse command response redactSecrets]
    | Err _ => []
    end.
Proof.
  assert (Hhx : hidExchange cl = WrapHIDExchange recorder redactSecrets (baseHIDExchange s)).
  { cbn [New apply_options] in Hnew. rewrite default_config in Hnew by done.
    cbn [rbind WithTrace apply_options] in Hnew. by injection Hnew as <-. }
  assert (Hcl : ∀ payload w, InvokeRaw cl c FamilyCTAP2 command payload w =
    WrapExchange recorder redactSecrets (SExchange s) c (command :: payload) w).
  { intros p w0. cbn [New apply_options] in Hnew. rewrite default_config in Hnew by done.
    cbn [rbind WithTrace apply_options] in Hnew. injection Hnew as <-. by apply invoke_ctap2. }
  assert (Hw : ∀ payload w, _) by exact (λ payload w,
    wrap_exchange recorder redactSecrets (SExchange s) c (command :: payload) w Huntraced).
  cbv zeta. rewrite Hcl. destruct (Hw payload w) as [Ha He]. split; [done|]. split; [done|].
  split; [|rewrite Hhx; by apply wrap_hid].
  intros -> Hc.
  assert (Hs : traceCommandContainsSecrets command = true) by (by destruct Hc as [->|[->| ->]]).
  split.
  - unfold exchange_events. cbn [traceCommand]. rewrite Hs. cbn [andb].
    destruct (response_bytes _); repeat constructor.
  - intros payload' w'. rewrite Hcl. destruct (Hw payload' w') as [_ He'].
    intros Hl Hr Hev. rewrite He, He', Hev. f_equal. apply events_hide; try done.
    by rewrite !len_cons, Hl.
Qed.
End Trace.

(** A world that is a trace. *)
Definition listing : Type := list TraceEvent * list HIDTraceEvent.
Definition list_recorder : TraceRecorder listing :=
  MkRecorder fst snd (λ e w, (w.1 ++ [e], w.2)) (λ e w, (w.1, w.2 ++ [e])).
#[global] Instance list_laws : TraceLaws list_recorder.
Proof. by split. Qed.
(** A session that answers 0 and the request. *)
Definition echo : Session listing :=
  MkSession _ (MkDevice "" "" "" "" "" "" 0 0) (λ _ req w, (Ok (0 :: req), w))
    (λ w, (None, w)) None None.
End TraceProps.

(** ** The capability cache *)
Module CapsProps.
Import Types Messages Codec Family Client Capabilities Operations Flows ManagerFacts.

Section Caps.
Context `{HC : Crypto} `{X509} {Any W : Type} `{!Cbor Any} `{!Random W}.
Context (cl : client W).
Implicit Types s : St W.

(** What the cache may hold: capabilities built from the raw answers of at
    least one protocol and from the descriptor of the session. *)
Definition caps_built (caps : Caps) : Prop :=
  caps = buildCapabilities (RawCTAP1 caps) (RawCTAP2 caps) (SDevice (session cl)) ∧
  (HasCTAP1 caps = true ∨ HasCTAP2 caps = true).
Definition caps_inv s : Prop := ∀ caps, s.1 = Some caps → caps_built caps.

Definition keeps s s' : Prop :=
  (∀ caps, s.1 = Some caps → s'.1 = Some caps) ∧ (caps_inv s → caps_inv s').
#[local] Instance keeps_preorder : PreOrder keeps.
Proof. split; [done|]. intros s1 s2 s3 [A1 B1] [A2 B2]. split; auto. Qed.

Lemma keeps_same s w : keeps s (s.1, w).
Proof. by split. Qed.

Lemma caps_cases caps : (negb (HasCTAP1 caps) && negb (HasCTAP2 caps)) = false →
  HasCTAP1 caps = true ∨ HasCTAP2 caps = true.
Proof. destruct (HasCTAP1 caps), (HasCTAP2 caps); auto. Qed.

(** The four outcomes of [Capabilities]. *)
Lemma get_capabilities c s :
  (∃ caps, s.1 = Some caps ∧ GetCapabilities cl c s = Some (Ok caps, s)) ∨
  (s.1 = None ∧ ∃ ctap2 w1 ctap1 w2,
     probe_ctap2 cl c s.2 = (ctap2, w1) ∧ probe_ctap1 cl c w1 = (ctap1, w2) ∧
     let caps := buildCapabilities ctap1 ctap2 (SDevice (session cl)) in
     GetCapabilities cl c s =
       match ctap1, ctap2 with
       | None, None => Some (Err ErrNoCapableProtocol, (None, w2))
       | _, _ => Some (Ok caps, (Some caps, w2))
       end).
Proof.
  unfold GetCapabilities. destruct (s.1) as [caps|] eqn:Hs.
  - left. by exists caps.
  - right. split; [done|]. destruct (probe_ctap2 cl c s.2) as [ctap2 w1] eqn:E2.
    destruct (probe_ctap1 cl c w1) as [ctap1 w2] eqn:E1. exists ctap2, w1, ctap1, w2.
    split; [done|]. split; [done|]. by destruct ctap1, ctap2.
Qed.

Lemma keeps_capabilities c : steps_by keeps (GetCapabilities cl c).
Proof.
  intros s r s'. destruct (get_capabilities c s) as [(caps & _ & ->)|(Hs & ctap2 & w1 & ctap1 & w2 & _ & _ & ->)].
  - by intros [= <- <-].
  - cbv zeta. set (caps := buildCapabilities _ _ _).
    assert (Hb : ctap1 ≠ None ∨ ctap2 ≠ None → keeps s (Some caps, w2)).
    { intros Hc. split; [by rewrite Hs|]. intros _ caps' [= <-]. split; [done|].
      unfold caps, HasCTAP1, HasCTAP2. simpl. destruct ctap1, ctap2; auto. by destruct Hc. }
    destruct ctap1, ctap2; intros [= <- <-]; auto. by split; [rewrite Hs|intros _ ?].
Qed.

Lemma keeps_world {A} (f : W → res A * W) : steps_by keeps (on_world f).
Proof. intros s r s'. unfold on_world. destruct (f s.2). intros [= <- <-]. apply keeps_same. Qed.

Lemma keeps_managed {A} (m : M W A) : steps_by keeps (managed m).
Proof. intros s r s'. unfold managed. destruct (m s.2) as [[]|]; [|done]. intros [= <- <-]. apply keeps_same. Qed.

Lemma keeps_emit c event : steps_by keeps (emitInteraction cl c event).
Proof.
  intros s r s'. unfold emitInteraction. destruct (interaction cl); intros [= <- <-]; [|done].
  apply keeps_same.
Qed.

Lemma total_world {A} (f : W → res A * W) : total (on_world (W:=W) f).
Proof. intros s. unfold on_world. destruct (f s.2). by eexists _, _. Qed.
Lemma total_managed {A} (m : M W A) : total m → total (managed m).
Proof. intros Hm s. unfold managed. destruct (Hm s.2) as (r & w & ->). by eexists _, _. Qed.
Lemma total_emit c event : total (emitInteraction cl c event).
Proof. intros s. unfold emitInteraction. destruct (interaction cl); by eexists _, _. Qed.
Lemma total_capabilities c : total (GetCapabilities cl c).
Proof.
  intros s. destruct (get_capabilities c s) as [(caps & _ & ->)|(_ & ctap2 & w1 & ctap1 & w2 & _ & _ & ->)];
    [by eexists _, _|]. destruct ctap1, ctap2; by eexists _, _.
Qed.

#[local] Hint Resolve keeps_capabilities keeps_world keeps_managed keeps_emit : steps.
#[local] Hint Resolve total_world total_managed total_emit total_capabilities : total.
#[local] Hint Extern 1 (PreOrder keeps) => exact keeps_preorder : steps.

(** The calls a program may make on a client. *)
Inductive call :=
  | CCapabilities | CInfo
  | CRegister (request : RegistrationRequest)
  | CAuthenticate (request : AuthenticationRequest)
  | CReset
  | CSetPIN (newPIN : bytes)
  | CChangePIN (currentPIN newPIN : bytes)
  | CPINRetries | CPINStatus
  | CList (authorization : UVAuthorization)
  | CDelete (credential : CredentialDescriptor) (authorization : UVAuthorization)
  | CBioSupported | CBioEnrollments.

Definition discard {S A} (m : M S A) : M S () := _ ←! m; ret ().

Definition perform (c : ctx) (x : call) : M (St W) () :=
  match x with
  | CCapabilities => discard (GetCapabilities cl c)
  | CInfo => discard (SurfaceInfo cl c)
  | CRegister request => discard (Register cl c request)
  | CAuthenticate request => discard (Authenticate cl c request)
  | CReset => Reset cl c
  | CSetPIN newPIN => SetPIN cl c newPIN
  | CChangePIN currentPIN newPIN => ChangePIN cl c currentPIN newPIN
  | CPINRetries => discard (GetPINRetries cl c)
  | CPINStatus => discard (PINManagerStatus cl c)
  | CList authorization => discard (CredentialManagerList cl c authorization)
  | CDelete credential authorization => CredentialManagerDelete cl c credential authorization
  | CBioSupported => discard (BioSupported cl c)
  | CBioEnrollments => BioEnrollments cl c
  end.

(** A program that goes on after errors. *)
Definition program (calls : list (ctx * call)) : M (St W) () :=
  for_each (λ x, discard (attempt (perform x.1 x.2))) calls.

(** *** Every call returns *)
Lemma total_request_pin c req : total (requestPIN cl c req).
Proof. unfold requestPIN. totally. Qed.
Lemma total_require c operation : total (requireCTAP2Capabilities cl c operation).
Proof. unfold requireCTAP2Capabilities. totally. Qed.
#[local] Hint Resolve total_request_pin total_require : total.

Lemma total_resolve c info operation selection hash permission rpid :
  total (resolveCTAP2UserVerification cl c info operation selection hash permission rpid).
Proof. unfold resolveCTAP2UserVerification, pinTokenForPermission. totally. Qed.
Lemma total_authorization c authorization operation message :
  total (resolveCredentialAuthorization cl c authorization operation message).
Proof.
  unfold resolveCredentialAuthorization, resolveCredentialPINAuthorization,
    requireCredentialManagementBuiltInUV. totally.
Qed.
#[local] Hint Resolve total_resolve total_authorization : total.

Lemma total_discard {S A} (m : M S A) : total m → total (discard m).
Proof. intros. unfold discard. totally. Qed.

Lemma total_perform c x : total (perform c x).
Proof.
  destruct x; simpl; try apply total_discard.
  - auto with total.
  - unfold SurfaceInfo. totally.
  - unfold Register, register_ctap2, register_ctap1, invokeRaw. totally.
  - unfold Authenticate, authenticate_ctap2, authenticate_ctap1, invokeRaw. totally.
  - unfold Reset, invokeRaw. totally.
  - unfold SetPIN. totally.
  - unfold ChangePIN. totally.
  - unfold GetPINRetries. totally.
  - unfold PINManagerStatus, GetPINRetries. totally.
  - unfold CredentialManagerList, listCredentialsWithBuiltInUV, ListCredentials. totally.
  - unfold CredentialManagerDelete, deleteCredentialWithBuiltInUV, DeleteCredential. totally.
  - unfold BioSupported. totally.
  - unfold BioEnrollments. totally.
Qed.

(** *** Every call keeps the cache *)
Lemma keeps_request_pin c req : steps_by keeps (requestPIN cl c req).
Proof. unfold requestPIN. walk. Qed.
Lemma keeps_require c operation : steps_by keeps (requireCTAP2Capabilities cl c operation).
Proof. unfold requireCTAP2Capabilities. walk. Qed.
#[local] Hint Resolve keeps_request_pin keeps_require : steps.

Lemma keeps_resolve c info operation selection hash permission rpid :
  steps_by keeps (resolveCTAP2UserVerification cl c info operation selection hash permission rpid).
Proof. unfold resolveCTAP2UserVerification, pinTokenForPermission. walk. Qed.
Lemma keeps_authorization c authorization operation message :
  steps_by keeps (resolveCredentialAuthorization cl c authorization operation message).
Proof.
  unfold resolveCredentialAuthorization, resolveCredentialPINAuthorization,
    requireCredentialManagementBuiltInUV. walk.
Qed.
#[local] Hint Resolve keeps_resolve keeps_authorization : steps.

Lemma keeps_discard {A} (m : M (St W) A) : steps_by keeps m → steps_by keeps (discard m).
Proof. intros. unfold discard. walk. Qed.

Lemma keeps_perform c x : steps_by keeps (perform c x).
Proof.
  destruct x; simpl; try apply keeps_discard.
  - auto with steps.
  - unfold SurfaceInfo. walk.
  - unfold Register, register_ctap2, register_ctap1, invokeRaw. walk.
  - unfold Authenticate, authenticate_ctap2, authenticate_ctap1, invokeRaw. walk.
  - unfold Reset, invokeRaw. walk.
  - unfold SetPIN. walk.
  - unfold ChangePIN. walk.
  - unfold GetPINRetries. walk.
  - unfold PINManagerStatus, GetPINRetries. walk.
  - unfold CredentialManagerList, listCredentialsWithBuiltInUV, ListCredentials. walk.
  - unfold CredentialManagerDelete, deleteCredentialWithBuiltInUV, DeleteCredential. walk.
  - unfold BioSupported. walk.
  - unfold BioEnrollments. walk.
Qed.

Lemma program_runs calls s : ∃ s', program calls s = Some (Ok (), s') ∧ keeps s s'.
Proof.
  unfold program. revert s. induction calls as [|[c x] calls IH]; intros s; cbn [for_each fst snd].
  { by exists s. }
  destruct (total_perform c x s) as (r & s1 & H1).
  assert (Hd : discard (attempt (perform c x)) s = Some (Ok (), s1)).
  { unfold discard, bind, attempt. by rewrite H1. }
  rewrite (bind_Ok _ _ _ _ _ Hd). destruct (IH s1) as (s' & H2 & Hk). exists s'. split; [exact H2|].
  transitivity s1; [|exact Hk]. by eapply keeps_perform.
Qed.

(** Every call of the facade returns, and what it learns about the
    authenticator is learnt once.  Whatever program of calls runs on a fresh
    client, with whatever contexts and answers, every call returns; if the
    capabilities are known afterwards they were built from the raw answer of
    at least one protocol and the session's descriptor, CTAP2 preferred if it
    answered; and they never change in any program that runs later. *)
Theorem facade_capabilities_stable (calls later : list (ctx * call)) (w : W) :
  ∃ s', program calls (None, w) = Some (Ok (), s') ∧
    ∀ caps, s'.1 = Some caps →
      caps_built caps ∧
      PPreferred (Protocols caps) = (if HasCTAP2 caps then FamilyCTAP2 else FamilyCTAP1) ∧
      (∃ w', program later s' = Some (Ok (), (Some caps, w'))) ∧
      ∀ c, GetCapabilities cl c s' = Some (Ok caps, s').
Proof.
  destruct (program_runs calls (None, w)) as (s' & H1 & Hk). exists s'. split; [done|].
  intros caps Hc. assert (Hb : caps_built caps) by (by apply (proj2 Hk)).
  split; [done|]. split; [|split].
  - destruct Hb as [-> Hp]. unfold HasCTAP1, HasCTAP2 in *. simpl in *.
    destruct (RawCTAP2 caps); [done|]. destruct (RawCTAP1 caps); [done|]. by destruct Hp.
  - destruct (program_runs later s') as ([o w'] & H2 & Hl & _). exists w'.
    specialize (Hl caps Hc). simpl in Hl. by rewrite <-Hl.
  - intros c. unfold GetCapabilities. by rewrite Hc.
Qed.

(** *** The cache is not refreshed *)

(** C21: a PIN set through the facade stays invisible to it.  When the cached
    capabilities say that the authenticator supports a PIN and has none, then
    after [SetPIN] has succeeded the same client still answers that no PIN is
    configured, and refuses to change the PIN and to read the retry counters
    as if there were none, without a message to the authenticator. *)
Theorem set_pin_unseen (c : ctx) (caps : Caps) (info : GetInfoResponse) (pin cur new : bytes)
    (w : W) (s' : St W)
    (Hinfo : RawCTAP2 caps = Some info) (Hno : Options info !! "clientPin"%string = Some false)
    (Hcur : cur ≠ []) (Hnew : new ≠ [])
    (Hset : SetPIN cl c pin (Some caps, w) = Some (Ok (), s')) :
  PINManagerStatus cl c s' = Some (Ok (MkStatus false 0 0 false), s') ∧
  ∃ e, ChangePIN cl c cur new s' = Some (Err e, s') ∧ GetPINRetries cl c s' = Some (Err e, s').
Proof.
  assert (Hc : s'.1 = Some caps).
  { eapply (keeps_perform c (CSetPIN pin) (Some caps, w)); [exact Hset|done]. }
  destruct s' as [o w']. simpl in Hc. subst o.
  assert (Hr : ∀ operation, requireCTAP2Capabilities cl c operation (Some caps, w') =
    Some (Ok info, (Some caps, w'))).
  { intros operation. unfold requireCTAP2Capabilities. erewrite bind_Ok by done. by rewrite Hinfo. }
  assert (He : Capabilities.optionEnabled (Some info) "clientPin" = false).
  { unfold Capabilities.optionEnabled. by rewrite Hno. }
  assert (Hp : optionPresent (Some info) "clientPin" = true).
  { unfold optionPresent. rewrite Hno. by apply bool_decide_eq_true. }
  split.
  - unfold PINManagerStatus. rewrite (bind_Ok _ _ _ _ _ (Hr _)). by rewrite Hp, He.
  - exists (EMsg "client: authenticator does not have a PIN configured"). split.
    + unfold ChangePIN. destruct cur as [|? cur]; [done|]. destruct new as [|? new]; [done|].
      rewrite !(proj2 (Z.eqb_neq (len (_ :: _)) 0))
        by (rewrite len_cons; match goal with |- 1 + len ?l ≠ 0 => pose proof (len_nonneg l); lia end).
      rewrite (bind_Ok _ _ _ _ _ (Hr _)). unfold managed, Manager.ChangePIN.
      cbn [snd fst]. unfold Manager.clientPINChangeAttempts. cbn [Manager.change_loop].
      rewrite (bind_Ok _ _ _ (Err (EMsg "client: authenticator does not have a PIN configured")) w'); [done|]. unfold attempt, Manager.changePINOnce.
      unfold Manager.optionEnabled. by rewrite Hno.
    + unfold GetPINRetries. rewrite (bind_Ok _ _ _ _ _ (Hr _)). unfold managed, Manager.GetPINRetries.
      unfold Manager.optionEnabled. rewrite Hno. done.
Qed.
End Caps.
End CapsProps.
