(* ===== verification/FlowProps.v ===== *)
(** * Correctness of the facade's flows

    Authenticator data, the verification policy, and what registration and
    authentication send and return, over [ClientFlows]. *)
From S2P Require Import Prelude GoErrors GoIO Descriptors Ctap1 Ctap2 PinProtocol Manager.
From S2P Require Import ClientCore ClientFlows ClientProps.

(** ** Authenticator data *)
Module AuthDataProps.
Import Operations.

(** The layout of WebAuthn, section 6.1. *)
Definition authData (rpIDHash : bytes) (flags count : Z) (tail : bytes) : bytes :=
  rpIDHash ++ flags :: put_u32 count ++ tail.
Definition attested (aaguid id rest : bytes) : bytes := aaguid ++ put_u16 (len id) ++ id ++ rest.

Lemma land_bit flags n : 0 <= n → negb (Z.land flags (2 ^ n) =? 0) = Z.testbit flags n.
Proof.
  intros Hn. destruct (Z.testbit flags n) eqn:Hb.
  - apply negb_true_iff, Z.eqb_neq. intros Hz.
    assert (Z.testbit (Z.land flags (2 ^ n)) n = true).
    { rewrite Z.land_spec, Z.pow2_bits_true by done. by rewrite Hb. }
    rewrite Hz, Z.bits_0 in H. done.
  - apply negb_false_iff, Z.eqb_eq, Z.bits_inj_0. intros m. rewrite Z.land_spec.
    destruct (decide (m = n)) as [->|]; [by rewrite Hb|].
    rewrite Z.pow2_bits_false by done. apply andb_false_r.
Qed.

Lemma slice_at {A} (l k r : list A) (a b : nat) : length l = a → length k = (b - a)%nat →
  slice a b (l ++ k ++ r) = k.
Proof.
  intros <- Hk. unfold slice. rewrite drop_app_length, take_app_le by lia. rewrite take_ge; [done|lia].
Qed.

Section AuthData.
Variables (rpIDHash : bytes) (flags count : Z) (tail : bytes).
Hypothesis Hhash : length rpIDHash = 32%nat.
Hypothesis Hcount : 0 <= count < 2 ^ 32.

Lemma authData_flags : authData rpIDHash flags count tail !!! 32%nat = flags.
Proof.
  unfold authData. rewrite lookup_total_app_r by lia. by rewrite Hhash.
Qed.
Lemma authData_count : get_u32 (slice 33 37 (authData rpIDHash flags count tail)) = count.
Proof.
  unfold authData.
  replace (rpIDHash ++ flags :: put_u32 count ++ tail)
    with ((rpIDHash ++ [flags]) ++ put_u32 count ++ tail) by (by rewrite <-app_assoc).
  rewrite slice_at by (rewrite ?length_app; simpl; lia).
  rewrite <-(app_nil_r (put_u32 count)). by apply get_put_u32.
Qed.
Lemma authData_len : len (authData rpIDHash flags count tail) = 37 + len tail.
Proof.
  unfold authData. rewrite len_app, len_cons, len_app. unfold len at 1. rewrite Hhash.
  change (len (put_u32 count)) with 4. lia.
Qed.

Lemma land_flags n : 0 <= n → negb (Z.land flags (2 ^ n) =? 0) = Z.testbit flags n.
Proof. apply land_bit. Qed.

Lemma parse_plain : Z.testbit flags 6 = false →
  parseAuthenticatorData (authData rpIDHash flags count tail) =
  Ok (MkParsed (Z.testbit flags 0) (Z.testbit flags 2) count []).
Proof using All.
  intros H6. unfold parseAuthenticatorData. rewrite authData_flags, authData_count, authData_len by done.
  unfold authenticatorDataMinimumLength. pose proof (len_nonneg tail).
  destruct (Z.ltb_spec (37 + len tail) 37); [lia|]. cbv zeta.
  pose proof (land_flags 6) as E6. rewrite H6 in E6. apply negb_false_iff in E6; [|lia].
  unfold authenticatorDataFlagAttestedCred. change 0x40 with (2 ^ 6). rewrite E6.
  unfold authenticatorDataFlagUserPresent, authenticatorDataFlagUserVerified.
  change 0x01 with (2 ^ 0). change 0x04 with (2 ^ 2). by rewrite !land_bit by lia.
Qed.

Lemma parse_attested aaguid id rest : Z.testbit flags 6 = true → length aaguid = 16%nat →
  len id <= 65535 → tail = attested aaguid id rest →
  parseAuthenticatorData (authData rpIDHash flags count tail) =
  Ok (MkParsed (Z.testbit flags 0) (Z.testbit flags 2) count id).
Proof using All.
  intros H6 Ha Hid Ht. unfold parseAuthenticatorData.
  rewrite authData_flags, authData_count, authData_len by done.
  pose proof (len_nonneg id). pose proof (len_nonneg rest).
  assert (Hlt : len tail = 18 + len id + len rest).
  { rewrite Ht. unfold attested. rewrite !len_app. change (len (put_u16 (len id))) with 2.
    unfold len at 1. lia. }
  unfold authenticatorDataMinimumLength, attestedCredentialDataHeaderLength. cbv zeta.
  pose proof (land_flags 6) as E6. rewrite H6 in E6. apply negb_true_iff in E6; [|lia].
  unfold authenticatorDataFlagAttestedCred. change 0x40 with (2 ^ 6). rewrite E6.
  destruct (Z.ltb_spec (37 + len tail) 37); [lia|].
  destruct (Z.ltb_spec (37 + len tail) (37 + 18)); [lia|].
  assert (Hd : authData rpIDHash flags count tail =
    (rpIDHash ++ flags :: put_u32 count ++ aaguid) ++ put_u16 (len id) ++ (id ++ rest)).
  { unfold authData. rewrite Ht. unfold attested. by rewrite <-!app_assoc. }
  assert (Hl : length (rpIDHash ++ flags :: put_u32 count ++ aaguid) = 53%nat).
  { rewrite length_app. cbn [length]. rewrite length_app. simpl. lia. }
  assert (Hn : get_u16 (slice 53 55 (authData rpIDHash flags count tail)) = len id).
  { rewrite Hd, slice_at by (rewrite ?Hl; done). rewrite <-(app_nil_r (put_u16 _)). apply get_put_u16. lia. }
  change (Z.to_nat (37 + 16)) with 53%nat. change (53 + 2)%nat with 55%nat. rewrite Hn.
  destruct (Z.ltb_spec (37 + len tail) (37 + 16 + 2 + len id)); [lia|].
  unfold authenticatorDataFlagUserPresent, authenticatorDataFlagUserVerified.
  change 0x01 with (2 ^ 0). change 0x04 with (2 ^ 2). rewrite !land_bit by lia. do 2 f_equal.
  rewrite Hd, app_assoc.
  apply slice_at; [by rewrite length_app, Hl|]. unfold len. lia.
Qed.
End AuthData.

(** When data parses at all: no read is out of range. *)
Lemma parse_defined data :
  (∃ parsed, parseAuthenticatorData data = Ok parsed) ↔
  37 <= len data ∧
  (Z.testbit (data !!! 32%nat) 6 = true →
     55 <= len data ∧ 55 + get_u16 (slice 53 55 data) <= len data).
Proof.
  unfold parseAuthenticatorData, authenticatorDataMinimumLength, attestedCredentialDataHeaderLength.
  destruct (Z.ltb_spec (len data) 37); [split; [by intros [? ?]|lia]|]. cbv zeta.
  pose proof (land_bit (data !!! 32%nat) 6) as E6. change (2 ^ 6) with 64 in E6.
  unfold authenticatorDataFlagAttestedCred. change 0x40 with 64.
  destruct (Z.testbit (data !!! 32%nat) 6).
  - rewrite (proj1 (negb_true_iff _) (E6 ltac:(lia))).
    change (Z.to_nat (37 + 16)) with 53%nat. change (53 + 2)%nat with 55%nat.
    destruct (Z.ltb_spec (len data) (37 + 18)); [split; [by intros [? ?]|]; intros [_ Hx]; specialize (Hx eq_refl); lia|].
    destruct (Z.ltb_spec (len data) (37 + 16 + 2 + get_u16 (slice 53 55 data))).
    + split; [by intros [? ?]|]. intros [_ Hx]. specialize (Hx eq_refl). lia.
    + split; [lia|]. intros _. by eexists.
  - rewrite (proj1 (negb_false_iff _) (E6 ltac:(lia))). split; [done|]. intros _. by eexists.
Qed.

(** Authenticator data is parsed exactly.  For the layout of WebAuthn (a
    32-byte hash, flags, a big-endian counter, then attested credential data
    when bit 6 is set), the parser returns the two user flags, the counter
    and the credential id, whatever extensions follow; and it answers for
    exactly the inputs that hold the announced fields, so a truncated header
    or an id length past the end is an error and never an out-of-range
    read. *)
Theorem authenticator_data_exact (rpIDHash : bytes) (flags count : Z) (tail data : bytes)
    (Hhash : length rpIDHash = 32%nat) (Hcount : 0 <= count < 2 ^ 32) :
  (Z.testbit flags 6 = false →
     parseAuthenticatorData (authData rpIDHash flags count tail) =
     Ok (MkParsed (Z.testbit flags 0) (Z.testbit flags 2) count [])) ∧
  (∀ aaguid id rest, Z.testbit flags 6 = true → length aaguid = 16%nat → len id <= 65535 →
     parseAuthenticatorData (authData rpIDHash flags count (attested aaguid id rest)) =
     Ok (MkParsed (Z.testbit flags 0) (Z.testbit flags 2) count id)) ∧
  ((∃ parsed, parseAuthenticatorData data = Ok parsed) ↔
   37 <= len data ∧
   (Z.testbit (data !!! 32%nat) 6 = true →
      55 <= len data ∧ 55 + get_u16 (slice 53 55 data) <= len data)).
Proof.
  split; [by apply parse_plain|]. split; [|apply parse_defined].
  intros aaguid id rest H6 Ha Hid. by eapply parse_attested.
Qed.
End AuthDataProps.

(** ** User verification *)
Module VerificationProps.
Import Types Messages Codec Family Client Capabilities Operations Flows Protocol Modes CodecProps ProtocolProps
  CapsProps.

Section Verification.
Context `{HC : Crypto} `{HL : !CryptoLaws} `{X509} {Any W : Type} `{!Cbor Any} `{!Random W}.
Context (cl : client W).
Implicit Types s : St W.

Lemma authenticate_length v key message :
  len (Authenticator.authenticate v key message) = (if v =? 2 then 32 else 16).
Proof using HL.
  unfold Authenticator.authenticate, len.
  destruct (v =? 2); [by rewrite hmac_length|]. by rewrite length_take, hmac_length.
Qed.

(** The PIN the flow asks for. *)
Definition pin_request (operation : string) : PINRequest :=
  MkPINRequest operation FamilyCTAP2 "" VerificationMethodPIN
    ("Enter the authenticator PIN to continue " ++ operation ++ ".")%string.

(** A parameter made, as CTAP 2.1 authenticates a message, with a fresh token
    of the authenticator. *)
Definition by_pin (c : ctx) (info : GetInfoResponse) (operation : string) (challengeHash : bytes)
    (permission : Z) (rpid : string) (param : bytes) (proto : Z) s s' : Prop :=
  ∃ pin token s1,
    requestPIN cl c (pin_request operation) s = Some (Ok pin, s1) ∧
    pinTokenForPermission cl c info pin permission rpid s1 = Some (Ok (token, proto), s') ∧
    param = Authenticator.authenticate proto token challengeHash.

Lemma resolve_Ok c info operation selection challengeHash permission rpid s uv param proto s' :
  resolveCTAP2UserVerification cl c info operation selection challengeHash permission rpid s =
    Some (Ok (uv, param, proto), s') →
  (uv = true ∧ param = [] ∧ proto = 0 ∧ s' = s ∧ optionEnabled (Some info) "uv" = true) ∨
  (uv = false ∧ optionPresent (Some info) "clientPin" = true ∧
   by_pin c info operation challengeHash permission rpid param proto s s') ∨
  (uv = false ∧ param = [] ∧ proto = 0 ∧
   (normalizedUserVerification selection = UserVerificationDiscouraged ∧ s' = s ∨
    normalizedUserVerification selection = UserVerificationPreferred ∧
    (optionPresent (Some info) "clientPin" = false ∧ s' = s ∨
     requestPIN cl c (pin_request operation) s = Some (Err ErrPINRequired, s')))).
Proof.
  unfold resolveCTAP2UserVerification.
  assert (Hpol : normalizedUserVerification selection = UserVerificationDiscouraged ∨
    normalizedUserVerification selection = UserVerificationPreferred ∨
    normalizedUserVerification selection = UserVerificationRequired).
  { unfold normalizedUserVerification. destruct (String.eqb_spec (SUserVerification selection)
      UserVerificationPreferred) as [->|]; [by right; left|].
    destruct (String.eqb_spec (SUserVerification selection) UserVerificationRequired) as [->|];
      [by right; right|by left]. }
  destruct (String.eqb_spec (normalizedUserVerification selection) UserVerificationDiscouraged) as [Hd|Hd].
  { intros [= <- <- <- <-]. right; right. do 3 (split; [done|]). by left. }
  destruct (optionEnabled (Some info) "uv") eqn:Huv.
  { intros [= <- <- <- <-]. left. auto 6. }
  destruct (optionPresent (Some info) "clientPin") eqn:Hpin; cbn [negb].
  - destruct (total_request_pin cl c (pin_request operation) s) as (r & s1 & H1).
    assert (Ha : attempt (requestPIN cl c (pin_request operation)) s = Some (Ok r, s1)).
    { unfold attempt. by rewrite H1. }
    rewrite (bind_Ok _ _ _ _ _ Ha).
    destruct r as [pin|e].
    + intros [([token v] & s2 & H2 & H3)|(e & _ & ?)]%bind_inv; [|done].
      injection H3 as <- <- <- <-. right; left. split; [done|]. split; [done|]. exists pin, token, s1.
      by rewrite authenticate_same.
    + destruct (bool_decide _) eqn:Hb; cbn [andb]; [|done].
      destruct (String.eqb_spec (normalizedUserVerification selection) UserVerificationPreferred)
        as [Hp|]; [|done].
      intros [= <- <- <- <-]. right; right. do 3 (split; [done|]). right. split; [done|]. right.
      apply bool_decide_eq_true in Hb. destruct e; try done. simpl in Hb.
      destruct (String.eqb_spec name "client.ErrPINRequired") as [->|]; [exact H1|done].
  - destruct (String.eqb_spec (normalizedUserVerification selection) UserVerificationRequired)
      as [Hr|Hr]; [done|].
    intros [= <- <- <- <-]. right; right. do 3 (split; [done|]). right. split; [|by left].
    destruct Hpol as [?|[?|?]]; done.
Qed.

(** What a policy of Required leaves possible: the built-in option in the
    command, or a parameter of 16 or 32 bytes made with a PIN token. *)
Definition enforced (c : ctx) (info : GetInfoResponse) (operation : string) (challengeHash : bytes)
    (permission : Z) (rpid : string) (option_set : Prop) (uv : bool) (param : bytes) (proto : Z) s s'
    : Prop :=
  (uv = true ∧ option_set ∧ optionEnabled (Some info) "uv" = true) ∨
  (uv = false ∧ by_pin c info operation challengeHash permission rpid param proto s s' ∧
   (len param = 16 ∨ len param = 32)).

Lemma resolve_required c info operation selection challengeHash permission rpid s uv param proto s'
    (option_set : Prop) :
  resolveCTAP2UserVerification cl c info operation selection challengeHash permission rpid s =
    Some (Ok (uv, param, proto), s') →
  normalizedUserVerification selection = UserVerificationRequired → (uv = true → option_set) →
  enforced c info operation challengeHash permission rpid option_set uv param proto s s'.
Proof using HL.
  intros [(-> & _ & _ & _ & Huv)|[(-> & _ & Hpin)|(_ & _ & _ & Hp)]]%resolve_Ok Hreq Ho.
  - left. auto.
  - right. split; [done|]. split; [done|]. destruct Hpin as (pin & token & s1 & _ & _ & ->).
    rewrite authenticate_length. destruct (proto =? 2); auto.
  - rewrite Hreq in Hp. destruct Hp as [[? _]|[? _]]; done.
Qed.

Lemma emit_inv {A} c event (k : () → M (St W) A) s r s' :
  bind (emitInteraction cl c event) k s = Some (r, s') → ∃ s1, s1.1 = s.1 ∧ k () s1 = Some (r, s').
Proof.
  unfold bind, emitInteraction. destruct (interaction cl) as [h|]; intros Hk; [|by exists s].
  eexists. split; [|exact Hk]. done.
Qed.

Lemma lift_inv {A B} (r : res A) (k : A → M (St W) B) s b s' :
  bind (lift r) k s = Some (Ok b, s') → ∃ a, r = Ok a ∧ k a s = Some (Ok b, s').
Proof. destruct r as [a|e]; [|done]. intros Hk. by exists a. Qed.

Lemma invoke_inv {B} c family command payload (k : bytes → M (St W) B) s b s' :
  bind (invokeRaw cl c family command payload) k s = Some (Ok b, s') →
  ∃ reply w, InvokeRaw cl c family command payload s.2 = (Ok reply, w) ∧
             k reply (s.1, w) = Some (Ok b, s').
Proof.
  unfold bind, invokeRaw, on_world.
  destruct (InvokeRaw cl c family command payload s.2) as [[reply|e] w]; [|done]. intros Hk.
  by exists reply, w.
Qed.

(** The world after an event, its transport given. *)
Definition notified (c : ctx) (event : InteractionEvent) (w : W) : W :=
  match interaction cl with None => w | Some h => OnInteraction h c event w end.

Lemma presence_inv {A} c operation family message (k : () → M (St W) A) s :
  bind (emitInteraction cl c (presence operation family message)) k s =
  k () (s.1, notified c (MkInteraction InteractionAwaitingUserPresence operation family
                           (Transport (SDevice (session cl))) message true) s.2).
Proof. unfold bind, emitInteraction, notified. by destruct (interaction cl), s. Qed.

(** What a registration has to send, from the request and the outcome of the
    verification alone; the options are left out when none is set. *)
Definition credential_request (request : RegistrationRequest) (uv : bool) (param : bytes) (proto : Z)
    : MakeCredentialCommand Any :=
  let rk := match RegCTAP2 request with Some o => R2ResidentKey o | None => false end in
  let up := String.eqb (SUserPresence (RegSelection request)) "required" in
  {| MCClientDataHash := RegChallengeHash request;
     RelyingParty := {| RPID := RegRPID request;
                        RPName := match RegCTAP2 request with Some o => R2RPName o | None => "" end |};
     MCUser := RegUser request;
     CredentialParameters :=
       match RegCTAP2 request with
       | None | Some (MkReg2 _ _ [] _) => [MkParam "public-key" (-7)]
       | Some o => R2CredentialParameters o
       end;
     ExcludeList := match RegCTAP2 request with Some o => R2ExcludeList o | None => [] end;
     MCExtensions := ∅;
     MCOptions := if rk || up || uv then Some (MkMCOptions rk up uv) else None;
     MCParam := param;
     MCProtocol := proto;
     EnterpriseAttestation := 0 |}.

Lemma register_command_asked request uv param proto :
  register_command request uv param proto = credential_request request uv param proto.
Proof.
  assert (Hup : String.eqb (normalizedUserPresence (RegSelection request)) RequirementRequired =
                String.eqb (SUserPresence (RegSelection request)) "required").
  { unfold normalizedUserPresence. change RequirementRequired with "required"%string.
    destruct (String.eqb_spec (SUserPresence (RegSelection request)) "required") as [->|Hn]; [done|].
    destruct (String.eqb_spec (SUserPresence (RegSelection request)) RequirementDiscouraged) as [->|]; done. }
  unfold register_command, credential_request, makeCredentialOptions, defaultCredentialParameters,
    registrationRPName, registrationCredentialParameters, registrationExcludeList, registrationResidentKey.
  rewrite Hup. cbn [MCResidentKey MCUserPresence MCUserVerification].
  generalize (String.eqb (SUserPresence (RegSelection request)) "required"). intros up.
  destruct (RegCTAP2 request) as [[rp rk [|p ps] ex]|]; cbn [R2RPName R2ResidentKey R2CredentialParameters
    R2ExcludeList]; rewrite ?len_cons.
  2: destruct (Z.eqb_spec (1 + len ps) 0) as [Hz|_]; [pose proof (len_nonneg ps); lia|].
  1, 2: by destruct rk, up, uv.
  by destruct up, uv.
Qed.

(** How a registration may be verified: by the built-in method where it is
    enabled, by a PIN where the authenticator has one, or, when the policy is
    not Required, not at all. *)
Definition verified_by (c : ctx) (info : GetInfoResponse) (request : RegistrationRequest) (uv : bool)
    (param : bytes) (proto : Z) s s' : Prop :=
  let policy := SUserVerification (RegSelection request) in
  (uv = true ∧ param = [] ∧ proto = 0 ∧ s' = s ∧ optionEnabled (Some info) "uv" = true ∧
   (policy = "required" ∨ policy = "preferred")%string) ∨
  (uv = false ∧ optionPresent (Some info) "clientPin" = true ∧
   by_pin c info "register" (RegChallengeHash request) 0x01 (RegRPID request) param proto s s' ∧
   (policy = "required" ∨ policy = "preferred")%string) ∨
  (uv = false ∧ param = [] ∧ proto = 0 ∧ policy ≠ "required"%string ∧
   (policy ≠ "preferred"%string ∧ s' = s ∨
    policy = "preferred"%string ∧
    (optionPresent (Some info) "clientPin" = false ∧ s' = s ∨
     requestPIN cl c (pin_request "register") s = Some (Err ErrPINRequired, s')))).

Lemma policy_required selection : SUserVerification selection = "required"%string →
  normalizedUserVerification selection = UserVerificationRequired.
Proof. unfold normalizedUserVerification. by intros ->. Qed.
Lemma policy_preferred selection : SUserVerification selection = "preferred"%string →
  normalizedUserVerification selection = UserVerificationPreferred.
Proof. unfold normalizedUserVerification. by intros ->. Qed.

Lemma policy_cases selection :
  normalizedUserVerification selection = UserVerificationDiscouraged ∨
  SUserVerification selection = "required"%string ∨ SUserVerification selection = "preferred"%string.
Proof.
  unfold normalizedUserVerification.
  destruct (String.eqb_spec (SUserVerification selection) UserVerificationPreferred) as [->|]; [by auto|].
  destruct (String.eqb_spec (SUserVerification selection) UserVerificationRequired) as [->|]; by auto.
Qed.

Lemma resolve_discouraged c info operation selection challengeHash permission rpid s :
  normalizedUserVerification selection = UserVerificationDiscouraged →
  resolveCTAP2UserVerification cl c info operation selection challengeHash permission rpid s =
    Some (Ok (false, [], 0), s).
Proof. intros Hd. unfold resolveCTAP2UserVerification. by rewrite Hd. Qed.

Lemma resolve_verified c info request s uv param proto s' :
  resolveCTAP2UserVerification cl c info "register" (RegSelection request) (RegChallengeHash request)
    PermissionMakeCredential (RegRPID request) s = Some (Ok (uv, param, proto), s') →
  verified_by c info request uv param proto s s'.
Proof using HL.
  intros Hrun. pose proof Hrun as Hcase. apply resolve_Ok in Hcase.
  destruct (policy_cases (RegSelection request)) as [Hd|Hpol].
  - rewrite resolve_discouraged in Hrun by done. injection Hrun as <- <- <- <-. right; right.
    do 3 (split; [done|]). split; [by intros Hp%policy_required; rewrite Hp in Hd|].
    left. split; [by intros Hp%policy_preferred; rewrite Hp in Hd|done].
  - destruct Hcase as [(-> & -> & -> & -> & Huv)|[(-> & Hpin & Hby)|(-> & -> & -> & Hp)]].
    + left. auto 10.
    + right; left. auto.
    + right; right. do 3 (split; [done|]). destruct Hpol as [Hr|Hr].
      { rewrite (policy_required _ Hr) in Hp. by destruct Hp as [[? _]|[? _]]. }
      split; [by rewrite Hr|]. right. split; [done|].
      rewrite (policy_preferred _ Hr) in Hp. by destruct Hp as [[? _]|[_ ?]].
Qed.

Lemma decode_credential reply response : DecodeMakeCredential reply = Ok response →
  ∃ rb, reply = 0 :: rb ∧ unmarshal_credential rb = Ok response.
Proof.
  unfold DecodeMakeCredential. rewrite rbind_Ok. intros (r & (rb & -> & Hc)%decodeCommand_Ok & Hr).
  exists rb. split; [done|]. destruct Hc as [[-> ->]|[_ Hu]]; [done|].
  by repeat match type of Hr with context [if ?b then _ else _] => destruct b end;
     destruct (AttestationStatement r); simplify_eq.
Qed.

(** C7: a registration over CTAP2 sends what was asked and returns what came
    back.  When the authenticator has CTAP2 and [Register] succeeds, the user
    was verified in one of the ways the policy and the authenticator allow,
    the presence event was given to the handler, and then exactly one message
    was sent: MakeCredential (0x01) with the request's challenge, relying
    party, user, parameters (ES256 when none is given), exclude list and
    options, and with the pinUvAuthParam and protocol of that verification.
    Its answer gives the result: a non-empty credential id and the two user
    flags of its authenticator data.  User verification that is Required is
    never dropped: the command sets the built-in option of an authenticator
    that has it enabled, or it carries the authentication of the challenge, of
    16 or 32 bytes, with a token that a PIN of the user obtained for this
    relying party. *)
Theorem register_ctap2_exact (c : ctx) (request : RegistrationRequest) (caps : Caps)
    (info : GetInfoResponse) (s s1 s' : St W) (result : RegistrationResult Any)
    (Hcaps : GetCapabilities cl c s = Some (Ok caps, s1)) (Hinfo : RawCTAP2 caps = Some info)
    (Hrun : Register cl c request s = Some (Ok result, s')) :
  ∃ uv param proto s2 body rb response parsed,
    let command := credential_request request uv param proto in
    verified_by c info request uv param proto s1 s2 ∧
    marshal_credential command = Ok body ∧
    InvokeRaw cl c FamilyCTAP2 0x01 body
      (notified c (MkInteraction InteractionAwaitingUserPresence "register" FamilyCTAP2
                     (Transport (SDevice (session cl)))
                     "Touch or tap the authenticator to continue registration." true) s2.2) =
      (Ok (0 :: rb), s'.2) ∧
    s'.1 = s2.1 ∧ len (MCClientDataHash command) = 32 ∧ RPID (RelyingParty command) ≠ ""%string ∧
    unmarshal_credential rb = Ok response ∧
    parseAuthenticatorData (MAuthData response) = Ok parsed ∧ PCredentialID parsed ≠ [] ∧
    result = MkRegResult FamilyCTAP2 (PCredentialID parsed) (Format response) (PUserPresent parsed)
               (PUserVerified parsed) None (Some response) ∧
    (SUserVerification (RegSelection request) = "required"%string →
     enforced c info "register" (RegChallengeHash request) 0x01 (RegRPID request)
       (∃ o, MCOptions command = Some o ∧ MCUserVerification o = true)
       uv (MCParam command) (MCProtocol command) s1 s2).
Proof using HL.
  unfold Register in Hrun. rewrite (bind_Ok _ _ _ _ _ Hcaps), Hinfo in Hrun. unfold register_ctap2 in Hrun.
  apply bind_inv in Hrun as [([[uv param] proto] & s2 & H1 & Hrun)|(e & _ & ?)]; [|done].
  rewrite presence_inv, register_command_asked in Hrun.
  apply lift_inv in Hrun as (encoded & He & Hrun). apply invoke_inv in Hrun as (reply & w & Hw & Hrun).
  apply lift_inv in Hrun as (response & Hd & Hrun). apply lift_inv in Hrun as (parsed & Hp & Hrun).
  destruct (Z.eqb_spec (len (PCredentialID parsed)) 0) as [|Hne]; [done|]. injection Hrun as <- <-.
  apply decode_credential in Hd as (rb & -> & Hu).
  unfold EncodeMakeCredential in He. rewrite !guarded in He.
  destruct He as (Hlen & Hrp & _ & (body & Hm & ->)%encodeCommand_Ok).
  apply negb_false_iff, Z.eqb_eq in Hlen. apply String.eqb_neq in Hrp.
  exists uv, param, proto, s2, body, rb, response, parsed. cbv zeta.
  split; [by apply resolve_verified|]. do 7 (split; [done|]).
  split; [by intros Hz; rewrite Hz in Hne|]. split; [done|].
  intros Hreq. eapply resolve_required; [done|by apply policy_required|]. intros ->.
  eexists. split; [cbn [credential_request MCOptions]; by rewrite orb_true_r|done].
Qed.

(** An authentication over CTAP2 sends what was asked and returns what
    came back: one GetAssertion command with the request's relying party,
    challenge and allow list, whose decoded answer gives the credential id,
    the signature, the counter and the user flags of the result; and Required
    user verification is never dropped, as in a registration. *)
Theorem authenticate_ctap2_exact (c : ctx) (request : AuthenticationRequest) (caps : Caps)
    (info : GetInfoResponse) (s s1 s' : St W) (result : AuthenticationResult)
    (Hcaps : GetCapabilities cl c s = Some (Ok caps, s1)) (Hinfo : RawCTAP2 caps = Some info)
    (Hrun : Authenticate cl c request s = Some (Ok result, s')) :
  ∃ uv param proto s2 w2 encoded reply response parsed,
    let command := authenticate_command request uv param proto in
    resolveCTAP2UserVerification cl c info "authenticate" (AuthSelection request)
      (AuthChallengeHash request) PermissionGetAssertion (AuthRPID request) s1 =
      Some (Ok (uv, param, proto), s2) ∧
    EncodeGetAssertion command = Ok encoded ∧
    InvokeRaw cl c FamilyCTAP2 CommandGetAssertion (drop 1 encoded) w2 = (Ok reply, s'.2) ∧
    DecodeGetAssertion reply = Ok response ∧
    parseAuthenticatorData (AAuthData response) = Ok parsed ∧
    result = MkAuthResult FamilyCTAP2 (CredID (ACredential response)) (Messages.ASignature response)
               (PSignCount parsed) (PUserPresent parsed) (PUserVerified parsed) None (Some response) ∧
    (normalizedUserVerification (AuthSelection request) = UserVerificationRequired →
     enforced c info "authenticate" (AuthChallengeHash request) PermissionGetAssertion (AuthRPID request)
       (∃ o, GAOptions command = Some o ∧ GAUserVerification o = true) uv param proto s1 s2).
Proof using HL.
  unfold Authenticate in Hrun. rewrite (bind_Ok _ _ _ _ _ Hcaps), Hinfo in Hrun.
  unfold authenticate_ctap2 in Hrun.
  apply bind_inv in Hrun as [([[uv param] proto] & s2 & H1 & Hrun)|(e & _ & ?)]; [|done].
  apply emit_inv in Hrun as (s3 & _ & Hrun).
  apply lift_inv in Hrun as (encoded & He & Hrun). apply invoke_inv in Hrun as (reply & w & Hw & Hrun).
  apply lift_inv in Hrun as (response & Hd & Hrun). apply lift_inv in Hrun as (parsed & Hp & Hrun).
  injection Hrun as <- <-.
  exists uv, param, proto, s2, s3.2, encoded, reply, response, parsed. cbv zeta.
  do 6 (split; [done|]). intros Hreq. eapply resolve_required; [done|done|]. intros ->.
  eexists. split; [|shelve]. unfold authenticate_command, getAssertionOptions. simpl.
  by rewrite andb_false_r.
  Unshelve. done.
Qed.
End Verification.
End VerificationProps.

(** ** CTAP1 flows *)
Module Ctap1FlowProps.
Import Types Messages Family Client Capabilities Operations Flows CapsProps VerificationProps.

Section Ctap1Flows.
Context `{HC : Crypto} `{X509} {Any W : Type} `{!Cbor Any} `{!Random W}.
Context (cl : client W).
Implicit Types s : St W.

Definition reg_with (selection : AuthenticatorSelection) (request : RegistrationRequest)
    : RegistrationRequest :=
  MkRegistration (RegChallengeHash request) (RegRPID request) (RegUser request) selection
    (RegCTAP1 request) (RegCTAP2 request).
Definition auth_with (selection : AuthenticatorSelection) (control : Z) (request : AuthenticationRequest)
    : AuthenticationRequest :=
  MkAuthentication (AuthChallengeHash request) (AuthRPID request) selection
    (match AuthCTAP1 request with
     | None => None
     | Some o => Some (MkAuth1 (A1AppIDHash o) (A1KeyHandle o) control)
     end) (AuthCTAP2 request).

Lemma register_needs_ctap1 c request caps s s1 : GetCapabilities cl c s = Some (Ok caps, s1) →
  RawCTAP2 caps = None →
  Register cl c request s =
  (if negb (HasCTAP1 caps) then throw ErrNoCapableProtocol else register_ctap1 cl c request) s1.
Proof. intros Hc Hn. unfold Register. by rewrite (bind_Ok _ _ _ _ _ Hc), Hn. Qed.

Lemma authenticate_needs_ctap1 c request caps s s1 : GetCapabilities cl c s = Some (Ok caps, s1) →
  RawCTAP2 caps = None →
  Authenticate cl c request s =
  (if negb (HasCTAP1 caps) then throw ErrNoCapableProtocol else authenticate_ctap1 cl c request) s1.
Proof. intros Hc Hn. unfold Authenticate. by rewrite (bind_Ok _ _ _ _ _ Hc), Hn. Qed.

Lemma authenticate_with_same c request selection control s :
  authenticate_ctap1 cl c (auth_with selection control request) s = authenticate_ctap1 cl c request s.
Proof. unfold authenticate_ctap1. simpl. by destruct (AuthCTAP1 request) as [[]|]. Qed.

Lemma authenticate_ctap1_sends c request o s result s' :
  AuthCTAP1 request = Some o → authenticate_ctap1 cl c request s = Some (Ok result, s') →
  ARUserVerified result = false ∧
  ∃ reply w2, InvokeRaw cl c FamilyCTAP1 U2F.CommandAuthenticate (ctap1_payload request o) w2 =
              (Ok reply, s'.2).
Proof.
  intros Ho. unfold authenticate_ctap1. rewrite Ho.
  destruct (negb (len (AuthChallengeHash request) =? 32)); [done|].
  destruct (negb (len (A1AppIDHash o) =? 32)); [done|].
  destruct (len (A1KeyHandle o) =? 0); [done|].
  intros Hrun. apply emit_inv in Hrun as (s3 & _ & Hrun). apply invoke_inv in Hrun as (reply & w & Hw & Hrun).
  destruct (U2F.DecodeAuthenticate _ _) as [[e|] [response|]]; try done. injection Hrun as <- <-.
  split; [done|]. by exists reply, s3.2.
Qed.

Lemma control_nonzero command apdu : U2F.EncodeAuthenticate command = Ok apdu →
  U2F.AControl command ≠ 0 ∧
  Card.parse apdu = Some (Card.Command 0 U2F.CommandAuthenticate (U2F.AControl command) 0
    (U2F.AChallenge command ++ U2F.AApplication command ++ [u8 (len (U2F.AKeyHandle command))]
       ++ U2F.AKeyHandle command) 65536).
Proof.
  unfold U2F.EncodeAuthenticate, U2F.ValidateControl.
  destruct (existsb _ _) eqn:Hc; [|done].
  repeat (match goal with |- (if ?b then _ else _) = _ → _ => destruct b; [done|] end).
  intros He. split.
  - intros Hz. rewrite Hz in Hc. by vm_compute in Hc.
  - by apply Ctap1Props.encode_parse.
Qed.

(** C23: over CTAP1 the selection of a request has no effect.  When the
    authenticator has only CTAP1, [Register] and [Authenticate] behave the
    same for every user presence and user verification policy, Required
    included, and for every explicit control byte; what they return is marked
    as not user-verified.  With the default invoker the authentication APDU
    has P1 = 0, whereas the encoding of the very command the flow builds has
    its non-zero control byte there. *)
Theorem ctap1_selection_ignored (c : ctx) (caps : Caps) (s s1 : St W)
    (Hcaps : GetCapabilities cl c s = Some (Ok caps, s1)) (Honly : RawCTAP2 caps = None) :
  (∀ request selection,
     Register cl c (reg_with selection request) s = Register cl c request s) ∧
  (∀ request selection control,
     Authenticate cl c (auth_with selection control request) s = Authenticate cl c request s) ∧
  (∀ request result s', Register cl c request s = Some (Ok result, s') → RRUserVerified result = false) ∧
  (∀ request o result s', AuthCTAP1 request = Some o →
     invokers cl !! FamilyCTAP1 = Some ctap1RawInvoker →
     Authenticate cl c request s = Some (Ok result, s') →
     ARUserVerified result = false ∧
     ∃ apdu reply w2,
       exchange cl c apdu w2 = (Ok reply, s'.2) ∧
       Card.parse apdu =
         Some (Card.Command 0 U2F.CommandAuthenticate 0 0 (ctap1_payload request o) 65536) ∧
       ∀ apdu', U2F.EncodeAuthenticate (U2F.NewAuthenticateCommand (ctap1_control request o)
                  (AuthChallengeHash request) (A1AppIDHash o) (A1KeyHandle o)) = Ok apdu' →
         ∃ p1, p1 ≠ 0 ∧ Card.parse apdu' =
           Some (Card.Command 0 U2F.CommandAuthenticate p1 0 (ctap1_payload request o) 65536)).
Proof.
  split; [|split; [|split]].
  - intros request selection. by rewrite !(register_needs_ctap1 _ _ _ _ _ Hcaps Honly).
  - intros request selection control. rewrite !(authenticate_needs_ctap1 _ _ _ _ _ Hcaps Honly).
    destruct (negb (HasCTAP1 caps)); [done|]. apply authenticate_with_same.
  - intros request result s'. rewrite (register_needs_ctap1 _ _ _ _ _ Hcaps Honly).
    destruct (negb (HasCTAP1 caps)); [done|]. unfold register_ctap1.
    destruct (RegCTAP1 request) as [o|]; [|done].
    destruct (negb (len (RegChallengeHash request) =? 32)); [done|].
    destruct (negb (len (R1AppIDHash o) =? 32)); [done|].
    intros Hrun. apply emit_inv in Hrun as (s3 & _ & Hrun).
    apply invoke_inv in Hrun as (reply & w & Hw & Hrun).
    destruct (U2F.DecodeRegister _ _) as [[e|] [response|]]; try done. by injection Hrun as <- <-.
  - intros request o result s' Ho Hinv. rewrite (authenticate_needs_ctap1 _ _ _ _ _ Hcaps Honly).
    destruct (negb (HasCTAP1 caps)); [done|].
    intros (Huv & reply & w2 & Hw)%(authenticate_ctap1_sends c request o); [|done]. split; [done|].
    unfold InvokeRaw in Hw. change (Validate FamilyCTAP1) with (@None goerror) in Hw. rewrite Hinv in Hw.
    cbn [IInvokeRaw ctap1RawInvoker] in Hw.
    destruct (Apdu.EncodeRawAPDU _ _) as [apdu|e] eqn:He; [|done].
    exists apdu, reply, w2. split; [done|]. split.
    + by apply (Ctap1Props.encode_parse _ 0 0 _ 65536) in He.
    + intros apdu' [Hn Hp]%control_nonzero. eexists. split; [exact Hn|]. exact Hp.
Qed.
End Ctap1Flows.
End Ctap1FlowProps.

(** ** Authorization of credential management *)
Module AuthorizationProps.
Import Types Messages Family Client Capabilities Operations Flows CapsProps.

Section Authorization.
Context `{HC : Crypto} `{X509} {Any W : Type} `{!Cbor Any} `{!Random W}.
Context (cl : client W).
Implicit Types s : St W.

Lemma require_Ok c operation s info s' :
  requireCTAP2Capabilities cl c operation s = Some (Ok info, s') →
  ∃ caps, GetCapabilities cl c s = Some (Ok caps, s') ∧ RawCTAP2 caps = Some info.
Proof.
  unfold requireCTAP2Capabilities. intros [(caps & s1 & H1 & H2)|(e & _ & ?)]%bind_inv; [|done].
  destruct (RawCTAP2 caps) as [i|] eqn:Hi; [|by destruct (HasCTAP1 caps)].
  injection H2 as <- <-. by exists caps.
Qed.

(** The methods a caller may name. *)
Definition names_pin (authorization : UVAuthorization) : Prop :=
  UVMethod authorization = "" ∨ UVMethod authorization = VerificationMethodPIN.

(** The authenticators that can authorize by themselves. *)
Definition can_built_in (info : GetInfoResponse) : Prop :=
  optionEnabled (Some info) "uv" = true ∧ optionEnabled (Some info) "pinUvAuthToken" = true ∧
  optionEnabled (Some info) "credMgmt" = true.

Lemma require_built_in c s info s' :
  requireCredentialManagementBuiltInUV cl c s = Some (Ok info, s') →
  can_built_in info ∧ requireCTAP2Capabilities cl c credentialManagementOperation s = Some (Ok info, s').
Proof.
  unfold requireCredentialManagementBuiltInUV. intros [(i & s1 & H1 & H2)|(e & _ & ?)]%bind_inv; [|done].
  unfold can_built_in.
  destruct (optionPresent (Some i) "uv"); [|done]. destruct (optionEnabled (Some i) "uv") eqn:Hu; [|done].
  destruct (optionEnabled (Some i) "pinUvAuthToken") eqn:Ht; [|done].
  destruct (optionEnabled (Some i) "credMgmt") eqn:Hm;
    [|by cbn [negb] in H2; destruct (optionEnabled (Some i) "credentialMgmtPreview")].
  injection H2 as <- <-. by rewrite Hu, Ht, Hm.
Qed.

Lemma authorization_cases c authorization operation message s r s' :
  resolveCredentialAuthorization cl c authorization operation message s = Some (r, s') →
  (names_pin authorization ∧ resolveCredentialPINAuthorization cl c authorization operation message s =
     Some (r, s')) ∨
  (UVMethod authorization = VerificationMethodBuiltInUV ∧
   (info ←! requireCredentialManagementBuiltInUV cl c;
    ret (MkCredAuth VerificationMethodBuiltInUV [] (Some info))) s = Some (r, s')) ∨
  (¬ names_pin authorization ∧ UVMethod authorization ≠ VerificationMethodBuiltInUV ∧
   r = Err (EUnsupportedMethod (UVMethod authorization) credentialManagementOperation) ∧ s' = s).
Proof.
  unfold resolveCredentialAuthorization, names_pin, str_empty.
  destruct (String.eqb_spec (UVMethod authorization) "") as [He|He]; [by left; auto|].
  destruct (String.eqb_spec (UVMethod authorization) VerificationMethodPIN) as [Hp|Hp]; [by left; auto|].
  destruct (String.eqb_spec (UVMethod authorization) VerificationMethodBuiltInUV) as [Hb|Hb];
    [by right; left|].
  intros [= <- <-]. right; right. split; [by intros [?|?]|done].
Qed.

(** C22: a listing of credentials runs only under the authorization that was
    asked for.  A listing that succeeds was either authorized by a PIN, when
    the caller named the PIN or nothing: the caller's PIN, or the non-empty
    answer to one prompt when it gave none; or by the authenticator's
    built-in verification, when the caller named it, on an authenticator that
    has uv, pinUvAuthToken and credMgmt all enabled.  One never stands in for
    the other, and any other method is refused before a message is sent. *)
Theorem credential_authorization (c : ctx) (authorization : UVAuthorization) (s s' : St W)
    (r : res Manager.CredentialListResult)
    (Hrun : CredentialManagerList cl c authorization s = Some (r, s')) :
  (∀ result, r = Ok result →
     (names_pin authorization ∧ ∃ pin s1 s2 info,
        pin ≠ [] ∧ (UVPIN authorization = pin ∧ s1 = s ∨
                    UVPIN authorization = [] ∧ ∃ req, requestPIN cl c req s = Some (Ok pin, s1)) ∧
        requireCTAP2Capabilities cl c "listing discoverable credentials" s1 = Some (Ok info, s2) ∧
        managed (Manager.ListCredentials (Invoker0 := client_invoker cl) c (Some info) pin) s2 =
          Some (r, s')) ∨
     (UVMethod authorization = VerificationMethodBuiltInUV ∧ ∃ info s1,
        can_built_in info ∧
        requireCTAP2Capabilities cl c credentialManagementOperation s = Some (Ok info, s1) ∧
        managed (Manager.ListCredentialsWithBuiltInUV (Invoker0 := client_invoker cl) c (Some info)) s1 =
          Some (r, s'))) ∧
  (¬ names_pin authorization → UVMethod authorization ≠ VerificationMethodBuiltInUV →
     r = Err (EUnsupportedMethod (UVMethod authorization) credentialManagementOperation) ∧ s' = s).
Proof.
  unfold CredentialManagerList in Hrun.
  destruct (total_authorization cl c authorization "list credentials"
    "Enter authenticator PIN to list discoverable credentials" s) as (a & s1 & Ha).
  destruct (authorization_cases _ _ _ _ _ _ _ Ha) as [[Hn Hp]|[[Hb Hp]|(Hn & Hb & -> & ->)]].
  - split; [|done]. intros result ->. left. split; [done|].
    apply bind_inv in Hrun as [(resolved & s3 & H1 & H2)|(e & _ & ?)]; [|done].
    rewrite Ha in H1. injection H1 as -> ->.
    assert (Hres : ∃ pin, resolved = MkCredAuth VerificationMethodPIN pin None ∧
      (UVPIN authorization = pin ∧ pin ≠ [] ∧ s3 = s ∨
       UVPIN authorization = [] ∧ ∃ req, requestPIN cl c req s = Some (Ok pin, s3))).
    { unfold resolveCredentialPINAuthorization in Hp.
      destruct (Z.eqb_spec (len (UVPIN authorization)) 0) as [Hz|Hz].
      - apply bind_inv in Hp as [(pin & s4 & H3 & H4)|(e & _ & ?)]; [|done]. injection H4 as <- <-.
        exists pin. split; [done|]. right. split; [by apply len_zero|]. by eexists.
      - injection Hp as <- <-. exists (UVPIN authorization). split; [done|]. left.
        split; [done|]. split; [|done]. by intros Hx; rewrite Hx in Hz. }
    destruct Hres as (pin & -> & Hpin). cbn [CAMethod CAPIN] in H2.
    change (String.eqb VerificationMethodPIN VerificationMethodBuiltInUV) with false in H2. cbv iota in H2.
    unfold ListCredentials in H2. destruct (Z.eqb_spec (len pin) 0) as [|Hne]; [done|].
    apply bind_inv in H2 as [(info & s5 & H3 & H4)|(e & _ & ?)]; [|done].
    exists pin, s3, s5, info. split; [by intros Hx; rewrite Hx in Hne|]. split; [|done].
    destruct Hpin as [(? & ? & ?)|?]; [by left|by right].
  - split; [|by intros ? []]. intros result ->. right. split; [done|].
    apply bind_inv in Hrun as [(resolved & s3 & H1 & H2)|(e & _ & ?)]; [|done].
    rewrite Ha in H1. injection H1 as -> ->.
    apply bind_inv in Hp as [(info & s4 & H3 & H4)|(e & _ & ?)]; [|done]. injection H4 as <- <-.
    apply require_built_in in H3 as [Hc Hr]. exists info, s4. by split_and!.
  - rewrite (bind_Err _ _ _ _ _ Ha) in Hrun. injection Hrun as <- <-. split; [done|]. by split.
Qed.
End Authorization.
End AuthorizationProps.
