(* ===== verification/ClientSim.v ===== *)
(** * Simulated sessions for the facade

    A session that gives canned answers, over the toy primitives of
    [ManagerSim]: the theorems on the facade apply at concrete inputs. *)
From S2P Require Import Prelude GoErrors GoIO Descriptors Registry Ctap1 Ctap2 PinProtocol.
From S2P Require Import Manager ManagerSim ClientCore ClientFlows Locator ClientProps.
From S2P Require Import FlowProps.

Module ClientSim.
Import Middleware Types Messages Codec Protocol Authenticator Family Client Trace Capabilities Operations Flows
  InvokeProps TraceProps CapsProps AuthDataProps VerificationProps Ctap1FlowProps AuthorizationProps Sim
  SimWitnesses.

(** *** Canned answers; the world counts exchanges *)
#[local] Instance nat_random : Random nat := {|
  rand_Read n w := (Ok (replicate n 0), w);
  GenerateKey w := (Ok platform_key, w);
|}.

Definition device : DeviceDescriptor := MkDevice "d" KindUSB "" "" "" "" 0 0.
Definition auth_data : bytes := authData (replicate 32 1) 0x45 7 (attested (replicate 16 2) [8; 9] []).

(** The token, as protocol 1 sends it to the platform. *)
Definition sealed_token : bytes :=
  Eval vm_compute in
  match newPINProtocolSession 1 (Some (cose auth_key)) 0%nat with
  | Some (Ok session, _) =>
      match PinProtocol1Encrypt (sharedSecret session) auth_token with Ok t => t | Err _ => [] end
  | _ => []
  end.

#[local] Instance canned_cbor : Cbor () := {|
  marshal_pin _ := Ok [1];
  marshal_params _ := Ok [1];
  marshal_cm _ := Ok [1];
  marshal_assertion _ := Ok [1];
  marshal_credential command :=
    Ok (MCClientDataHash command ++ string_bytes (RPID (RelyingParty command)) ++
        UserID (MCUser command) ++ [MCProtocol command] ++ MCParam command);
  unmarshal_pin _ := Ok (MkPINResponse (Some (cose auth_key)) sealed_token 3 false 0);
  unmarshal_cm _ := Ok zero_cm_response;
  unmarshal_info _ := Err (EMsg "cbor");
  unmarshal_raw _ := Err (EMsg "cbor");
  unmarshal_assertion _ :=
    Ok (MkGAResponse (MkCredential "public-key" [8; 9] []) auth_data [5] None 0 false []);
  unmarshal_credential _ := Ok (MkMCResponse "packed" auth_data (Some ∅) false []);
|}.

#[local] Instance no_x509 : X509 := {|
  asn1_Unmarshal _ := Err (EMsg "asn1");
  x509_ParseCertificate _ := None;
|}.

(** CTAP2 commands get a status byte and a body, APDUs an assertion. *)
Definition canned : Session nat :=
  MkSession _ device (λ _ req w, (Ok (match req with 0 :: _ => [1; 0; 0; 0; 7; 5; 0x90; 0] | _ => [0; 1] end), S w))
    (λ w, (None, w)) None None.

Definition with_pin : InteractionHandler nat :=
  MkHandler _ (λ _ _ w, w) (λ _ _ w, (Ok pin, w)).

Definition cl : client nat :=
  MkClient canned (Chain (SExchange canned) []) (ChainHID (baseHIDExchange canned) []) default_invokers
    (Some with_pin).

Lemma cl_made : New (Some canned) [Some WithDefaultRawInvokers; Some (WithInteraction (Some with_pin))] = Ok cl.
Proof. reflexivity. Qed.

(** *** Cached capabilities *)
Definition info_with (options : gmap string bool) : GetInfoResponse :=
  MkInfoResponse (MkInfo ["FIDO_2_0"%string] [] (replicate 16 0) options 0 [] 0 0 [] [] 0 false 0 0 0 0 0 0 ∅ 0 []) ∅.
Definition no_pin_info : GetInfoResponse := info_with {["clientPin"%string := false]}.
Definition pin_info : GetInfoResponse := info_with {["clientPin"%string := true]}.
Definition built_in_info : GetInfoResponse :=
  info_with (<["uv"%string := true]> (<["pinUvAuthToken"%string := true]> {["credMgmt"%string := true]})).
Definition no_pin_caps : Caps := buildCapabilities None (Some no_pin_info) device.
Definition pin_caps : Caps := buildCapabilities None (Some pin_info) device.
Definition built_in_caps : Caps := buildCapabilities None (Some built_in_info) device.
Definition ctap1_caps : Caps := buildCapabilities (Some [85]) None device.

Definition required : AuthenticatorSelection := MkSelection "" UserVerificationRequired.
Definition registration : RegistrationRequest :=
  MkRegistration (replicate 32 3) "rp" (MkUser [1] "u" "") required None None.
Definition authentication : AuthenticationRequest :=
  MkAuthentication (replicate 32 3) "rp" required
    (Some (MkAuth1 (replicate 32 4) [6; 6] 0)) None.

Lemma set_pin_unseen_witness :
  PINManagerStatus cl Caller (Some no_pin_caps, 2%nat) =
    Some (Ok (MkStatus false 0 0 false), (Some no_pin_caps, 2%nat)) ∧
  ∃ e, ChangePIN cl Caller [1] [2] (Some no_pin_caps, 2%nat) = Some (Err e, (Some no_pin_caps, 2%nat)) ∧
       GetPINRetries cl Caller (Some no_pin_caps, 2%nat) = Some (Err e, (Some no_pin_caps, 2%nat)).
Proof.
  refine (set_pin_unseen cl Caller no_pin_caps no_pin_info pin [1] [2] 0%nat (Some no_pin_caps, 2%nat)
    eq_refl eq_refl _ _ _); [done|done|]. vm_compute. reflexivity.
Defined.

(** *** Flows under a policy of Required *)
Definition start (caps : Caps) : St nat := (Some caps, 0%nat).
Definition finish {A} (m : M (St nat) A) (caps : Caps) : option (res A * St nat) := m (start caps).

Definition registered : RegistrationResult () * St nat :=
  Eval vm_compute in
  match finish (Register cl Caller registration) pin_caps with
  | Some (Ok result, s) => (result, s)
  | _ => (MkRegResult "" [] "" false false None None, start pin_caps)
  end.
Definition authenticated : AuthenticationResult * St nat :=
  Eval vm_compute in
  match finish (Authenticate cl Caller authentication) pin_caps with
  | Some (Ok result, s) => (result, s)
  | _ => (MkAuthResult "" [] [] 0 false false None None, start pin_caps)
  end.

Lemma registered_run : Register cl Caller registration (start pin_caps) = Some (Ok registered.1, registered.2).
Proof. vm_compute. reflexivity. Qed.
Lemma authenticated_run :
  Authenticate cl Caller authentication (start pin_caps) = Some (Ok authenticated.1, authenticated.2).
Proof. vm_compute. reflexivity. Qed.

(** The PIN is asked for, buys the token, and the token authenticates the
    challenge in the command that is sent. *)
Lemma asked_pin : requestPIN cl Caller (pin_request "register") (start pin_caps) =
  Some (Ok pin, (Some pin_caps, 0%nat)).
Proof. vm_compute. reflexivity. Qed.
Lemma bought_token :
  pinTokenForPermission cl Caller pin_info pin 0x01 "rp" (Some pin_caps, 0%nat) =
    Some (Ok (auth_token, 1), (Some pin_caps, 2%nat)).
Proof. vm_compute. reflexivity. Qed.

Lemma register_ctap2_exact_witness :
  ∃ rb response,
    InvokeRaw cl Caller FamilyCTAP2 0x01
      (replicate 32 3 ++ string_bytes "rp" ++ [1] ++ [1] ++
       Authenticator.authenticate 1 auth_token (replicate 32 3)) 2%nat = (Ok (0 :: rb), registered.2.2) ∧
    unmarshal_credential rb = Ok response ∧ RRRawCTAP2 registered.1 = Some response ∧
    RRCredentialID registered.1 = [8; 9].
Proof.
  destruct (register_ctap2_exact cl Caller registration pin_caps pin_info (start pin_caps)
    (start pin_caps) registered.2 registered.1 eq_refl eq_refl registered_run)
    as (uv & param & proto & s2 & body & rb & response & parsed & _ & H1 & H2 & _ & _ & _ & H3 & _ & _ & H4 & H5).
  destruct (H5 eq_refl) as [(_ & _ & Huv)|(_ & (p & tok & s3 & Hp & Ht & Hm) & _)]; [discriminate Huv|].
  rewrite asked_pin in Hp. injection Hp as <- <-. cbn [registration RegRPID] in Ht.
  rewrite bought_token in Ht. injection Ht as <- Hproto <-.
  cbn [credential_request MCParam MCProtocol] in Hm, Hproto. subst param proto.
  injection H1 as <-. exists rb, response. split; [exact H2|]. split; [exact H3|].
  split; [rewrite H4; reflexivity|]. reflexivity.
Defined.

Lemma authenticate_ctap2_exact_witness :
  ∃ uv param proto s2,
    resolveCTAP2UserVerification cl Caller pin_info "authenticate" required (replicate 32 3)
      PermissionGetAssertion "rp" (start pin_caps) = Some (Ok (uv, param, proto), s2) ∧
    enforced cl Caller pin_info "authenticate" (replicate 32 3) PermissionGetAssertion "rp"
      (∃ o, GAOptions (authenticate_command (Any:=()) authentication uv param proto) = Some o ∧
            GAUserVerification o = true) uv param proto (start pin_caps) s2.
Proof.
  destruct (authenticate_ctap2_exact cl Caller authentication pin_caps pin_info (start pin_caps)
    (start pin_caps) authenticated.2 authenticated.1 eq_refl eq_refl authenticated_run)
    as (uv & param & proto & s2 & w2 & encoded & reply & response & parsed & H1 & _ & _ & _ & _ & _ & H2).
  exists uv, param, proto, s2. exact (conj H1 (H2 eq_refl)).
Defined.

(** Over CTAP1 the same request succeeds without verification. *)
Lemma ctap1_selection_ignored_witness :
  ∃ result s', Authenticate cl Caller authentication (start ctap1_caps) = Some (Ok result, s') ∧
    ARUserVerified result = false ∧
    ∃ apdu reply w2, exchange cl Caller apdu w2 = (Ok reply, s'.2) ∧
      Card.parse apdu = Some (Card.Command 0 U2F.CommandAuthenticate 0 0
        (ctap1_payload authentication (MkAuth1 (replicate 32 4) [6; 6] 0)) 65536).
Proof.
  set (result := MkAuthResult FamilyCTAP1 [6; 6] [5] 7 true false
                   (Some (U2F.MkAuthenticateResponse 1 7 [5])) None).
  assert (Hrun : Authenticate cl Caller authentication (start ctap1_caps) =
    Some (Ok result, (Some ctap1_caps, 1%nat))) by (vm_compute; reflexivity).
  exists result, (Some ctap1_caps, 1%nat). split; [exact Hrun|].
  destruct (proj2 (proj2 (proj2 (ctap1_selection_ignored cl Caller ctap1_caps (start ctap1_caps)
    (start ctap1_caps) eq_refl eq_refl))) authentication (MkAuth1 (replicate 32 4) [6; 6] 0) result
    (Some ctap1_caps, 1%nat) eq_refl eq_refl Hrun) as (Hv & apdu & reply & w2 & H1 & H2 & _).
  split; [exact Hv|]. exists apdu, reply, w2. exact (conj H1 H2).
Defined.

Definition by_built_in : UVAuthorization := MkUVAuth [] VerificationMethodBuiltInUV.
Definition listed : St nat :=
  Eval vm_compute in
  match CredentialManagerList cl Caller by_built_in (start built_in_caps) with
  | Some (_, s) => s
  | None => start built_in_caps
  end.
Lemma listed_run : CredentialManagerList cl Caller by_built_in (start built_in_caps) =
  Some (Ok (Manager.MkList 0 0 []), listed).
Proof. vm_compute. reflexivity. Qed.

Lemma credential_authorization_witness :
  CredentialManagerList cl Caller by_built_in (start built_in_caps) =
    Some (Ok (Manager.MkList 0 0 []), listed) ∧
  ∃ info s1, can_built_in info ∧
    requireCTAP2Capabilities cl Caller credentialManagementOperation (start built_in_caps) =
      Some (Ok info, s1).
Proof.
  split; [exact listed_run|].
  destruct (proj1 (credential_authorization cl Caller by_built_in (start built_in_caps) listed
    (Ok (Manager.MkList 0 0 [])) listed_run) (Manager.MkList 0 0 []) eq_refl)
    as [[[Hn|Hn] _]|(_ & info & s1 & H1 & H2 & _)]; [discriminate Hn|discriminate Hn|].
  exists info, s1. exact (conj H1 H2).
Defined.

Lemma authenticator_data_exact_witness :
  parseAuthenticatorData auth_data = Ok (MkParsed true true 7 [8; 9]).
Proof.
  refine (proj1 (proj2 (authenticator_data_exact (replicate 32 1) 0x45 7 [] [] eq_refl _))
    (replicate 16 2) [8; 9] [] eq_refl eq_refl _); [lia|by vm_compute].
Defined.

Lemma trace_redacts_witness :
  ∃ cl, New (Some echo) [Some WithDefaultRawInvokers; Some (WithTrace (Some list_recorder) true)] = Ok cl ∧
    events list_recorder (InvokeRaw cl Caller FamilyCTAP2 6 [1; 2] ([], [])).2 =
    events list_recorder (InvokeRaw cl Caller FamilyCTAP2 6 [3; 4] ([], [])).2.
Proof.
  eexists. split; [reflexivity|].
  refine (proj2 (proj1 (proj2 (proj2 (trace_redacts list_recorder list_laws echo true _ 6 [1; 2] Caller
    ([], []) _ _ eq_refl))) eq_refl (or_introl eq_refl)) [3; 4] ([], []) eq_refl _ eq_refl).
  - by intros c req w.
  - by intros c command payload w.
  - reflexivity.
Defined.

(** *** A locator over one backend *)
Definition usb_backend : Backend nat (Session nat) :=
  MkBackend KindUSB (λ _ w, (([device], None), w)) (λ _ _ w, Some (Ok canned, w)).
Definition usb_locator : Locator.transportLocator nat :=
  Eval vm_compute in
  match Locator.NewTransportLocator [Some usb_backend] with
  | Ok l => l
  | Err _ => Locator.MkLocator (Registry.MkRegistry ∅ [])
  end.

(** Two registrations of the CTAP2 invoker: the options are refused. *)
Lemma locator_open_exact_witness :
  Locator.Open usb_locator Caller "" [Some WithDefaultRawInvokers; Some WithDefaultCTAP2RawInvoker] 0%nat =
    Some (Err (EDuplicateRawInvoker FamilyCTAP2), 0%nat).
Proof.
  destruct (LocatorProps.locator_open_exact [Some usb_backend] usb_locator Caller ""
    [Some WithDefaultRawInvokers; Some WithDefaultCTAP2RawInvoker] 0%nat eq_refl)
    as (bs & ds & es & w1 & Hbs & Hd & H).
  destruct bs as [|b [|]]; [done| |done]. injection Hbs as <-. injection Hd as <- <- <-.
  exact (proj2 (proj2 H) [] device [] usb_backend eq_refl (List.Forall_nil _) eq_refl
    (list_elem_of_here _ _) eq_refl).
Defined.
End ClientSim.
