(* ===== verification/CliApp.v ===== *)
(** * The service layer of fidoctl: src/internal/cli/fidoctl/app.go

    Every operation opens a client through a locator, runs over the client
    facade, and closes it; a lost authenticator is waited for and the
    operation repeated.  [Terminal] is the status writer and the clock. *)
From S2P Require Import Prelude GoErrors GoIO Descriptors Ctap2 PinProtocol Manager ClientCore ClientFlows.
From S2P Require Import Ctap1 Locator.

(** [Fprintf] to the status stream, its errors dropped, and one [select] of a
    wait loop: the ticker, or the end of the context with its error. *)
Class Terminal (W : Type) := {
  Fprintln : string → W → W;
  wait_tick : ctx → W → option goerror * W;
}.

Module CliApp.
Import Client Capabilities Operations Flows Locator Messages.

Abbreviation Device := DeviceDescriptor.

Definition ctap2StatusNotAllowed : Z := 0x30.

Record App {W : Type} := MkApp {
  locator : transportLocator W;
  interactive : bool;
  status : bool;
  defaultMode : bool;
}.
Arguments App : clear implicits.

Record RawRequest := MkRawRequest {
  RRDeviceID : string; RRProtocol : string; RRCommand : Z; RRPayload : bytes; UnsafeTrace : bool;
}.
Record RawResult := MkRawResult { RawProtocol : string; RawCommand : Z; RawResponse : bytes }.
Record TraceResult := MkTraceResult { TResponse : bytes; TEvents : list Trace.TraceEvent }.
Record InfoResult := MkInfoResult {
  InfoDevice : Device; InfoCapabilities : Caps; InfoPINRetries : option Manager.PINRetries;
}.
Record CredentialListResult := MkCredentials { CDevice : Device; CCredentials : Manager.CredentialListResult }.
Record PINRetriesResult := MkPINRetriesResult { PRDevice : Device; PRPINRetries : Manager.PINRetries }.

(** *** Which device to go on with *)
Definition samePhysicalDevice (left right : Device) : bool :=
  if negb (str_empty (SerialNumber left)) && negb (str_empty (SerialNumber right))
  then String.eqb (Transport left) (Transport right)
       && String.eqb (SerialNumber left) (SerialNumber right)
       && (VendorID left =? VendorID right) && (ProductID left =? ProductID right)
  else String.eqb (Transport left) (Transport right)
       && (VendorID left =? VendorID right) && (ProductID left =? ProductID right)
       && String.eqb (Product left) (Product right)
       && String.eqb (Manufacturer left) (Manufacturer right).

Definition reconnectTargetAvailable (devices : list Device) (deviceID : string) (previous : option Device)
    : bool :=
  match devices with
  | [] => false
  | _ =>
      match previous with
      | Some p => existsb (λ device, samePhysicalDevice device p) devices
      | None => false
      end
      || str_empty deviceID
      || existsb (λ device, String.eqb (ID device) deviceID) devices
  end.

Definition pinStatusToRetries (st : PINStatus) : Manager.PINRetries :=
  Manager.MkRetries (Retries st) (UVRetries st) (PowerCycleNeeded st).

(** *** When to go on *)
Definition as_not_found (e : goerror) : option unit := match e with EDeviceNotFound _ => Some () | _ => None end.

Definition shouldWaitForReconnect {W} (app : App W) (err : goerror) : bool :=
  interactive app &&
  (match As as_not_found err with Some _ => true | None => false end
   || Is err Transport.ErrDisconnected || Is err Transport.ErrTemporary).

Definition shouldRetryResetAfterPowerCycle {W} (app : App W) (err : goerror) : bool :=
  interactive app &&
  match As as_ctap2 err with Some code => code =? ctap2StatusNotAllowed | None => false end.

Section Service.
Context `{HC : Crypto} `{X509} {Any W : Type} `{!Cbor Any} `{!Random W} `{!Terminal W}.

Definition New (loc : transportLocator W) : App W := MkApp W loc true false false.

(** [build] is the package variable [buildDefaultLocator]; [configured] tells
    that its transports are those of the preference. *)
Definition ConfigureTransportPreferences (build : TransportPreference → res (transportLocator W))
    (preference : TransportPreference) (app : App W) : res (App W) :=
  if negb (defaultMode app) then Ok app
  else
    loc ←? build preference;
    Ok (MkApp W loc (interactive app) (status app) (defaultMode app)).

Definition buildDefaultLocator (newDefaultUSBBackend : Registry.Backend W (Session W))
    (newDefaultNFCBackend : res (Registry.Backend W (Session W))) (preference : TransportPreference)
    : res (transportLocator W) :=
  NewDefaultLocator newDefaultUSBBackend newDefaultNFCBackend
    [Some (WithUSB (USB preference)); Some (WithNFC (NFC preference))].

Definition NewDefault (build : TransportPreference → res (transportLocator W)) : res (App W) :=
  loc ←? build (MkPreference true false); Ok (MkApp W loc true false true).

Definition ConfigureInteraction (inter : bool) (st : bool) (app : App W) : App W :=
  MkApp W (locator app) inter st (defaultMode app).

Definition writeStatus (app : App W) (line : string) (w : W) : W :=
  if status app then Fprintln line w else w.
Definition status_line (app : App W) (line : string) : M W () := λ w, Some (Ok (), writeStatus app line w).

Definition default_message (kind : InteractionKind) : string :=
  match kind with
  | InteractionAwaitingUserPresence => "Touch or tap the authenticator to continue."
  | InteractionAwaitingUserVerification => "Complete authenticator verification to continue."
  | InteractionAwaitingPIN => "Authenticator PIN is required."
  | InteractionReinsertRequired => "Reinsert or retap the authenticator to continue."
  | InteractionProcessing => "Processing authenticator request."
  end.
Definition OnInteraction (app : App W) (event : InteractionEvent) (w : W) : W :=
  if negb (interactive app) then w
  else writeStatus app (if str_empty (IMessage event) then default_message (IKind event) else IMessage event) w.
Definition RequestPIN (app : App W) (req : PINRequest) (w : W) : res bytes * W :=
  (Err ErrPINRequired, if negb (str_empty (PMessage req)) then writeStatus app (PMessage req) w else w).
Definition handler (app : App W) : InteractionHandler W :=
  MkHandler W (λ _, OnInteraction app) (λ _, RequestPIN app).

(** *** One attempt *)
Definition openClient (app : App W) (c : ctx) (deviceID : string) (options : list (option (ClientOption W)))
    : M W (client W) :=
  Locator.Open (locator app) c deviceID
    ([Some WithDefaultRawInvokers; Some (WithInteraction (Some (handler app)))] ++ options).

Definition operation (T : Type) : Type := client W → M (St W) T.

(** The result, and the device that was opened; the client's capability cache
    is empty when it is made. *)
Definition runWithClient {T} (app : App W) (c : ctx) (deviceID : string)
    (options : list (option (ClientOption W))) (op : operation T) (w : W) : option ((res T * option Device) * W) :=
  match openClient app c deviceID options w with
  | None => None
  | Some (Err e, w) => Some ((Err e, None), w)
  | Some (Ok candidate, w) =>
      let device := Client.Device candidate in
      match op candidate (None, w) with
      | None => None
      | Some (r, (_, w)) => Some ((r, Some device), (Close candidate w).2)
      end
  end.

(** *** Waiting *)
Definition listDevices (app : App W) (c : ctx) : M W (list Device) := λ w,
  match Locator.List (locator app) c w with
  | None => None
  | Some ((devices, err), w) =>
      Some (Ok (match err, devices with Some _, [] => [] | _, _ => devices end), w)
  end.

(** [select] on the context and the ticker; the error is wrapped. *)
Definition pause (c : ctx) (message : string) : M W () :=
  map_err (λ e, EFmt message [e]) (call_err (wait_tick c)).

Fixpoint wait_available (fuel : nat) (app : App W) (c : ctx) (deviceID : string) (previous : option Device)
    (message : string) : M W () :=
  match fuel with
  | O => out_of_fuel
  | S fuel =>
      devices ←! listDevices app c;
      if reconnectTargetAvailable devices deviceID previous then ret ()
      else
        _ ←! pause c message;
        wait_available fuel app c deviceID previous message
  end.

Definition waitForReconnect (fuel : nat) (app : App W) (c : ctx) (deviceID : string) (previous : option Device)
    : M W () :=
  wait_available fuel app c deviceID previous "wait for authenticator reconnect: %w".

Fixpoint wait_removed (fuel : nat) (app : App W) (c : ctx) (deviceID : string) (previous : option Device)
    (removed : bool) : M W () :=
  if removed then ret ()
  else
    match fuel with
    | O => out_of_fuel
    | S fuel =>
        _ ←! pause c "wait for authenticator removal before reset retry: %w";
        devices ←! listDevices app c;
        wait_removed fuel app c deviceID previous (negb (reconnectTargetAvailable devices deviceID previous))
    end.

Definition waitForResetWindow (fuel : nat) (app : App W) (c : ctx) (deviceID : string) (previous : option Device)
    : M W () :=
  _ ←! status_line app "Authenticator reset was rejected because the reset window is closed. Reinsert or retap the authenticator, then touch it when prompted.";
  match previous with
  | None => waitForReconnect fuel app c deviceID previous
  | Some _ =>
      devices ←! listDevices app c;
      _ ←! wait_removed fuel app c deviceID previous (negb (reconnectTargetAvailable devices deviceID previous));
      _ ←! status_line app "Authenticator removed. Waiting for it to reconnect inside the reset window.";
      _ ←! wait_available fuel app c deviceID previous
             "wait for authenticator reconnect before reset retry: %w";
      status_line app "Authenticator detected again. Retrying reset immediately."
  end.

(** The wait after a mutation; its error is dropped. *)
Definition waitForPostMutationReconnect (fuel : nat) (app : App W) (c : ctx) (deviceID : string)
    (previous : option Device) (what : string) : M W () :=
  match previous with
  | None => ret ()
  | Some _ =>
      if negb (interactive app) then ret ()
      else
        devices ←! listDevices app c;
        if reconnectTargetAvailable devices deviceID previous then ret ()
        else
          _ ←! status_line app ("Waiting for authenticator to reconnect after " ++ what ++ ".");
          waited ←! attempt (waitForReconnect fuel app c deviceID previous);
          match waited with
          | Ok _ => status_line app "Authenticator detected again."
          | Err _ => ret ()
          end
  end.

(** *** With one retry *)
Definition connection_lost : string :=
  "Authenticator connection was lost. Reconnect the device to continue; waiting until the command timeout expires.".
Definition detected_again : string := "Authenticator detected again. Retrying the command.".

(** The second attempt, after the wait. *)
Definition retry_after {T} (wait : M W ()) (again : W → option ((res T * option Device) * W)) : M W T :=
  _ ←! wait;
  λ w, match again w with None => None | Some ((r, _), w) => Some (r, w) end.

Definition reconnect (fuel : nat) (app : App W) (c : ctx) (deviceID : string) (previous : option Device) : M W () :=
  _ ←! status_line app connection_lost;
  _ ←! waitForReconnect fuel app c deviceID previous;
  status_line app detected_again.

Definition withClient {T} (fuel : nat) (app : App W) (c : ctx) (deviceID : string)
    (options : list (option (ClientOption W))) (op : operation T) : M W T := λ w,
  match runWithClient app c deviceID options op w with
  | None => None
  | Some ((Ok result, _), w) => Some (Ok result, w)
  | Some ((Err e, previous), w) =>
      if negb (shouldWaitForReconnect app e) then Some (Err e, w)
      else retry_after (reconnect fuel app c deviceID previous) (runWithClient app c deviceID options op) w
  end.

(** *** The operations *)
Definition ListDevices (app : App W) (c : ctx) (w : W) : option ((list Device * option goerror) * W) :=
  Locator.List (locator app) c w.

(** The PIN counters, when they can be read. *)
Definition attachPINRetries (app : App W) (c : ctx) (candidate : client W) (caps : Caps)
    : M (St W) (option Manager.PINRetries) :=
  if negb (HasCTAP2 caps) || negb (VClientPIN (Verification caps)) then ret None
  else
    read ←! attempt (_ ←! CTAP2Available candidate c; PINManagerStatus candidate c);
    match read with
    | Err e => λ s, Some (Ok None, (s.1, writeStatus app "warning: unable to read authenticator PIN status: %v" s.2))
    | Ok st => ret (if Configured st then Some (pinStatusToRetries st) else None)
    end.

Definition Info (fuel : nat) (app : App W) (c : ctx) (deviceID : string) : M W InfoResult :=
  withClient fuel app c deviceID [] (λ candidate,
    caps ←! GetCapabilities candidate c;
    retries ←! attachPINRetries app c candidate caps;
    ret (MkInfoResult (Client.Device candidate) caps retries)).

Definition invoke_raw (c : ctx) (request : RawRequest) (candidate : client W) : M (St W) bytes :=
  on_world (InvokeRaw candidate c (RRProtocol request) (RRCommand request) (RRPayload request)).

Definition Raw (fuel : nat) (app : App W) (c : ctx) (request : RawRequest) : M W RawResult :=
  withClient fuel app c (RRDeviceID request) [] (λ candidate,
    response ←! invoke_raw c request candidate;
    ret (MkRawResult (RRProtocol request) (RRCommand request) response)).

(** [recorder] is the fresh recorder of the call. *)
Definition Trace (recorder : Trace.TraceRecorder W) (fuel : nat) (app : App W) (c : ctx) (request : RawRequest)
    : M W TraceResult :=
  withClient fuel app c (RRDeviceID request) [Some (WithTrace (Some recorder) (negb (UnsafeTrace request)))]
    (λ candidate,
      response ←! invoke_raw c request candidate;
      λ s, Some (Ok (MkTraceResult response (Trace.events recorder s.2)), s)).

Definition PINRetries (fuel : nat) (app : App W) (c : ctx) (deviceID : string) : M W PINRetriesResult :=
  withClient fuel app c deviceID [] (λ candidate,
    _ ←! CTAP2Available candidate c;
    st ←! PINManagerStatus candidate c;
    ret (MkPINRetriesResult (Client.Device candidate) (pinStatusToRetries st))).

(** A mutation of the PIN: one attempt, then the device is waited for. *)
Definition mutate (fuel : nat) (app : App W) (c : ctx) (deviceID : string) (op : operation ()) (what : string)
    : M W () := λ w,
  match runWithClient app c deviceID [] op w with
  | None => None
  | Some ((Err e, _), w) => Some (Err e, w)
  | Some ((Ok _, previous), w) => waitForPostMutationReconnect fuel app c deviceID previous what w
  end.

Definition SetPIN (fuel : nat) (app : App W) (c : ctx) (deviceID : string) (newPIN : bytes) : M W () :=
  mutate fuel app c deviceID
    (λ candidate, _ ←! CTAP2Available candidate c; Flows.SetPIN candidate c newPIN) "PIN setup".

Definition ChangePIN (fuel : nat) (app : App W) (c : ctx) (deviceID : string) (currentPIN newPIN : bytes)
    : M W () :=
  mutate fuel app c deviceID
    (λ candidate, _ ←! CTAP2Available candidate c; Flows.ChangePIN candidate c currentPIN newPIN) "PIN change".

Definition Register (fuel : nat) (app : App W) (c : ctx) (deviceID : string) (request : RegistrationRequest)
    : M W (RegistrationResult Any) :=
  withClient fuel app c deviceID [] (λ candidate, Flows.Register candidate c request).

Definition Authenticate (fuel : nat) (app : App W) (c : ctx) (deviceID : string)
    (request : AuthenticationRequest) : M W AuthenticationResult :=
  withClient fuel app c deviceID [] (λ candidate, Flows.Authenticate candidate c request).

Definition reset_operation (c : ctx) : operation () := λ candidate,
  _ ←! CTAP2Available candidate c; Flows.Reset candidate c.

Definition Reset (fuel : nat) (app : App W) (c : ctx) (deviceID : string) : M W () := λ w,
  let attempt_reset := runWithClient app c deviceID [] (reset_operation c) in
  match attempt_reset w with
  | None => None
  | Some ((Ok _, _), w) => Some (Ok (), w)
  | Some ((Err e, previous), w) =>
      if shouldRetryResetAfterPowerCycle app e
      then retry_after (waitForResetWindow fuel app c deviceID previous) attempt_reset w
      else if shouldWaitForReconnect app e
      then retry_after (reconnect fuel app c deviceID previous) attempt_reset w
      else Some (Err e, w)
  end.

Definition ListCredentials (fuel : nat) (app : App W) (c : ctx) (deviceID : string) (pin : bytes)
    : M W CredentialListResult :=
  withClient fuel app c deviceID [] (λ candidate,
    _ ←! CTAP2Available candidate c;
    credentials ←! CredentialManagerList candidate c (MkUVAuth pin VerificationMethodPIN);
    ret (MkCredentials (Client.Device candidate) credentials)).
End Service.
End CliApp.
