(* ===== verification/CliProps.v ===== *)
(** * What the service layer of fidoctl guarantees *)
From S2P Require Import Prelude GoErrors GoIO Descriptors Ctap1 Ctap2 PinProtocol Manager.
From S2P Require Import ClientCore ClientFlows Locator CliApp.

Module CliProps.
Import Client Capabilities Operations Flows Locator CliApp.CliApp.

(** ** The target of a retry *)
Lemma reconnectTargetAvailable_spec ds id previous :
  reconnectTargetAvailable ds id previous = true ↔
  ds ≠ [] ∧ (id = ""%string ∨ (∃ d, d ∈ ds ∧ ID d = id) ∨
             ∃ d p, d ∈ ds ∧ previous = Some p ∧ samePhysicalDevice d p = true).
Proof.
  unfold reconnectTargetAvailable. destruct ds as [|d0 ds]; [naive_solver|]. generalize (d0 :: ds) at 1 2 4 5.
  intros l. rewrite !orb_true_iff, existsb_exists. unfold str_empty. rewrite String.eqb_eq.
  setoid_rewrite String.eqb_eq. setoid_rewrite list_elem_of_In. split.
  - intros [[H|H]|H]; (split; [done|]); [|by left|right; left; naive_solver].
    right. right. destruct previous as [p|]; [|done]. apply existsb_exists in H. naive_solver.
  - intros [_ [H|[H|(d & p & Hd & -> & Hs)]]]; [by left; right|right; naive_solver|].
    left. left. apply existsb_exists. eauto.
Qed.

Section Service.
Context `{HC : Crypto} `{X509} {Any W : Type} `{!Cbor Any} `{!Random W} `{!Terminal W}.
Context (app : App W).

(** The environment of the service: how many sessions are open, how often an
    operation has run, and how many more ticks the command's context allows. *)
Context (live runs patience : W → nat).

Definition quiet (w w' : W) : Prop :=
  live w' = live w ∧ runs w' = runs w ∧ (patience w' <= patience w)%nat.
#[export] Instance quiet_preorder : PreOrder quiet.
Proof. split; [by intros w|]. unfold quiet. intros a b c ? ?. lia. Qed.

(** The laws of a locator and a terminal: an open makes one session, a close
    ends it, and waiting for a tick brings the end of the context closer. *)
Class Environment : Prop := {
  env_list c w : ∃ r w', Locator.List (locator app) c w = Some (r, w') ∧ quiet w w';
  env_open c id options w : ∃ r w', Locator.Open (locator app) c id options w = Some (r, w') ∧
    runs w' = runs w ∧ (patience w' <= patience w)%nat ∧
    match r with
    | Ok cl => live w' = S (live w) ∧ ∀ v, live (Close cl v).2 = pred (live v) ∧
        runs (Close cl v).2 = runs v ∧ (patience (Close cl v).2 <= patience v)%nat
    | Err _ => live w' = live w
    end;
  env_print line w : quiet w (Fprintln line w);
  env_tick c w :
    match wait_tick c w with
    | (None, w') => live w' = live w ∧ runs w' = runs w ∧ (patience w' < patience w)%nat
    | (Some _, w') => quiet w w'
    end;
}.

(** An operation on a client of the locator: it returns, opens and closes no
    session, and causes the event that [runs] counts at most once. *)
Definition counted {T} (options : list (option (ClientOption W))) (op : operation (W:=W) T) : Prop :=
  ∀ c id cl w0 w1, openClient app c id options w0 = Some (Ok cl, w1) →
  ∀ caps w, ∃ r caps' w', op cl (caps, w) = Some (r, (caps', w')) ∧
    live w' = live w ∧ (runs w' <= S (runs w))%nat ∧ (patience w' <= patience w)%nat.

Context `{!Environment}.

Lemma quiet_status line w : quiet w (writeStatus app line w).
Proof. unfold writeStatus. destruct (status app); [apply env_print|reflexivity]. Qed.

Lemma runWithClient_spec {T} c id options (op : operation T) w : counted options op →
  ∃ r previous w', runWithClient app c id options op w = Some ((r, previous), w') ∧
    live w' = live w ∧ (runs w' <= S (runs w))%nat ∧ (patience w' <= patience w)%nat.
Proof.
  intros Hop. unfold runWithClient. pose proof (Hop c id) as Hcl. unfold openClient in *.
  set (all := [Some WithDefaultRawInvokers; Some (WithInteraction (Some (handler app)))] ++ options) in *.
  destruct (env_open c id all w) as (r & w1 & Ho & Hr & Hp & Hl). rewrite Ho.
  destruct r as [cl|e]; [|exists (Err e), None, w1; split_and!; [done|done|lia|done]].
  destruct Hl as [Hl Hc].
  destruct (Hcl cl w w1 Ho None w1) as (r & caps & w2 & -> & Hl2 & Hr2 & Hp2).
  destruct (Hc w2) as (Hl3 & Hr3 & Hp3).
  exists r, (Some (Client.Device cl)), (Close cl w2).2. split_and!; [done|lia|lia|lia].
Qed.

(** *** The waits *)
Definition waits (m : M W ()) (w : W) : Prop := ∃ r w', m w = Some (r, w') ∧ quiet w w'.

Lemma waits_bind {A} (m : M W A) (k : A → M W ()) w r w1 : m w = Some (r, w1) → quiet w w1 →
  (∀ a, r = Ok a → waits (k a) w1) → waits (bind m k) w.
Proof.
  intros Hm Hq Hk. unfold waits, bind. rewrite Hm. destruct r as [a|e]; [|by exists (Err e), w1].
  destruct (Hk a eq_refl) as (r & w2 & -> & Hq2). exists r, w2. split; [done|by etransitivity].
Qed.

Lemma waits_status line w : waits (status_line app line) w.
Proof. eexists _, _. split; [done|apply quiet_status]. Qed.

Lemma waits_then_status {A} (m : M W A) (k : A → string) (w : W) r w1 :
  m w = Some (r, w1) → quiet w w1 → waits (bind m (λ a, status_line app (k a))) w.
Proof. intros Hm Hq. apply (waits_bind _ _ _ _ _ Hm Hq). intros. apply waits_status. Qed.

Lemma listDevices_run c w : ∃ ds w', listDevices app c w = Some (Ok ds, w') ∧ quiet w w'.
Proof.
  unfold listDevices. destruct (env_list c w) as ([ds err] & w' & -> & Hq). by eexists _, _.
Qed.

Lemma pause_run c message w : ∃ r w', pause c message w = Some (r, w') ∧ quiet w w' ∧
  (r = Ok () → (patience w' < patience w)%nat).
Proof.
  unfold pause, map_err, call_err. pose proof (env_tick c w) as Ht.
  destruct (wait_tick c w) as [[e|] w'].
  - by eexists _, w'.
  - eexists _, w'. split; [done|]. unfold quiet. split_and!; [lia|lia|lia|]. intros _. lia.
Qed.

Lemma waits_available fuel c id previous message : ∀ w, (patience w < fuel)%nat →
  waits (wait_available fuel app c id previous message) w.
Proof.
  induction fuel as [|fuel IH]; intros w Hf; [lia|]. cbn [wait_available].
  destruct (listDevices_run c w) as (ds & w1 & Hl & Hq). apply (waits_bind _ _ _ _ _ Hl Hq).
  intros a _. destruct (reconnectTargetAvailable a id previous); [by eexists _, w1|].
  destruct (pause_run c message w1) as (r & w2 & Hp & Hq2 & Hlt). apply (waits_bind _ _ _ _ _ Hp Hq2).
  intros [] ->. apply IH. specialize (Hlt eq_refl). destruct Hq as (_ & _ & ?). lia.
Qed.

Lemma waits_removed fuel c id previous : ∀ removed w, (patience w < fuel)%nat →
  waits (wait_removed fuel app c id previous removed) w.
Proof.
  induction fuel as [|fuel IH]; intros removed w Hf; [lia|]. cbn [wait_removed].
  destruct removed; [by eexists _, w|].
  destruct (pause_run c "wait for authenticator removal before reset retry: %w" w)
    as (r & w1 & Hp & Hq & Hlt). apply (waits_bind _ _ _ _ _ Hp Hq). intros [] ->.
  specialize (Hlt eq_refl). destruct (listDevices_run c w1) as (ds & w2 & Hl & Hq2).
  apply (waits_bind _ _ _ _ _ Hl Hq2). intros a _. apply IH. destruct Hq2 as (_ & _ & ?). lia.
Qed.

Lemma waits_then {m : M W ()} {k : () → M W ()} {w} : waits m w →
  (∀ w1, quiet w w1 → waits (k ()) w1) → waits (bind m k) w.
Proof.
  intros (r & w1 & Hm & Hq) Hk. apply (waits_bind _ _ _ _ _ Hm Hq). intros [] _. by apply Hk.
Qed.

Lemma quiet_patience w w1 n : quiet w w1 → (patience w < n)%nat → (patience w1 < n)%nat.
Proof. intros (_ & _ & ?). lia. Qed.

Lemma waits_reconnect fuel c id previous w : (patience w < fuel)%nat →
  waits (reconnect fuel app c id previous) w.
Proof.
  intros Hf. unfold reconnect. apply (waits_then (waits_status _ w)). intros w1 H1.
  apply waits_then; [apply waits_available; by eapply quiet_patience|].
  intros w2 _. apply waits_status.
Qed.

Lemma waits_reset_window fuel c id previous w : (patience w < fuel)%nat →
  waits (waitForResetWindow fuel app c id previous) w.
Proof.
  intros Hf. unfold waitForResetWindow. apply (waits_then (waits_status _ w)). intros w1 H1.
  apply (quiet_patience _ _ _ H1) in Hf. destruct previous as [p|]; [|by apply waits_available].
  destruct (listDevices_run c w1) as (ds & w2 & Hl & Hq). apply (waits_bind _ _ _ _ _ Hl Hq). intros a _.
  apply (quiet_patience _ _ _ Hq) in Hf. apply waits_then; [by apply waits_removed|]. intros w3 H3.
  apply (quiet_patience _ _ _ H3) in Hf. apply (waits_then (waits_status _ w3)). intros w4 H4.
  apply (quiet_patience _ _ _ H4) in Hf. apply waits_then; [by apply waits_available|].
  intros w5 _. apply waits_status.
Qed.

Lemma waits_post_mutation fuel c id previous what w : (patience w < fuel)%nat →
  waits (waitForPostMutationReconnect fuel app c id previous what) w.
Proof.
  intros Hf. unfold waitForPostMutationReconnect. destruct previous as [p|]; [|by eexists _, w].
  destruct (interactive app); cbn [negb]; [|by eexists _, w].
  destruct (listDevices_run c w) as (ds & w1 & Hl & Hq). apply (waits_bind _ _ _ _ _ Hl Hq). intros a _.
  destruct (reconnectTargetAvailable a id (Some p)); [by eexists _, w1|].
  apply (waits_then (waits_status _ w1)). intros w2 H2.
  destruct (waits_available fuel c id (Some p) "wait for authenticator reconnect: %w" w2) as (r & w3 & Hw & H3).
  { eapply quiet_patience; [exact H2|]. by eapply quiet_patience. }
  apply (waits_bind _ _ _ (Ok r) w3); [unfold attempt, waitForReconnect; by rewrite Hw|done|].
  intros r' _. destruct r'; [apply waits_status|by eexists _, w3].
Qed.

(** *** The operations *)
Definition lost (e : goerror) : Prop :=
  is_Some (As as_not_found e) ∨ Is e Transport.ErrDisconnected = true ∨ Is e Transport.ErrTemporary = true.

Lemma shouldWait_spec e : shouldWaitForReconnect app e = true → interactive app = true ∧ lost e.
Proof.
  unfold shouldWaitForReconnect, lost. rewrite andb_true_iff, !orb_true_iff.
  intros [Hi [[Hn|Hd]|Ht]]; (split; [done|]); [left|by right; left|by right; right].
  by destruct (As as_not_found e).
Qed.

Lemma retry_after_spec {T} (wait : M W ()) c id options (op : operation T) w : counted options op → waits wait w →
  ∃ r w', retry_after wait (runWithClient app c id options op) w = Some (r, w') ∧
    live w' = live w ∧ (runs w' <= S (runs w))%nat.
Proof.
  intros Hop (r & w1 & Hw & Hq). unfold retry_after, bind. rewrite Hw. destruct Hq as (Hl & Hr & _).
  destruct r as [[]|e]; [|exists (Err e), w1; split_and!; [done|done|lia]].
  destruct (runWithClient_spec c id options op w1 Hop) as (r & p & w2 & -> & H1 & H2 & _).
  exists r, w2. split_and!; [done|lia|lia].
Qed.

(** C33: the operations of fidoctl return, leak no session, and are repeated
    at most once and only for a reason. Whatever the devices do, an operation
    that goes through a client returns as soon as the ticks of its context are
    used up, and leaves as many sessions open as it found. An effect that one
    run of the action has at most once - a reset command sent, a PIN changed -
    happens at most once when the service is not interactive, and at most twice
    otherwise: the second time only after the first run failed with a lost,
    missing or busy device - or, for a reset, with the status that its window
    is closed. Setting and changing a PIN have it at most once in any case. *)
Theorem cli_operations {T} (op : operation T) (change : operation ()) (c : ctx) (id what : string)
    (options : list (option (ClientOption W))) (fuel : nat) (w : W)
    (Hop : counted options op) (Hchange : counted [] change) (Hreset : counted [] (reset_operation c))
    (Hfuel : (patience w < fuel)%nat) :
  (∃ r w', withClient fuel app c id options op w = Some (r, w') ∧ live w' = live w ∧
     (runs w' <= runs w + if interactive app then 2 else 1)%nat ∧
     (runs w' = runs w + 2 → ∃ e previous w1,
        runWithClient app c id options op w = Some ((Err e, previous), w1) ∧ lost e)%nat) ∧
  (∃ r w', Reset fuel app c id w = Some (r, w') ∧ live w' = live w ∧
     (runs w' <= runs w + if interactive app then 2 else 1)%nat ∧
     (runs w' = runs w + 2 → ∃ e previous w1,
        runWithClient app c id [] (reset_operation c) w = Some ((Err e, previous), w1) ∧
        (lost e ∨ As as_ctap2 e = Some 0x30%Z))%nat) ∧
  (∃ r w', mutate fuel app c id change what w = Some (r, w') ∧ live w' = live w ∧
     (runs w' <= runs w + 1)%nat).
Proof.
  split; [|split].
  - unfold withClient.
    destruct (runWithClient_spec c id options op w Hop) as (r & p & w1 & Hrun & Hl & Hr & Hp).
    rewrite Hrun. destruct r as [a|e].
    { exists (Ok a), w1. split_and!; [done|done|case_match; lia|lia]. }
    destruct (shouldWaitForReconnect app e) eqn:Hs; cbn [negb].
    2: { exists (Err e), w1. split_and!; [done|done|case_match; lia|lia]. }
    apply shouldWait_spec in Hs as [Hi Hlost]. rewrite Hi.
    destruct (retry_after_spec (reconnect fuel app c id p) c id options op w1 Hop) as (r & w2 & -> & H1 & H2);
      [apply waits_reconnect; lia|].
    exists r, w2. split_and!; [done|lia|lia|]. intros _. by exists e, p, w1.
  - unfold Reset.
    destruct (runWithClient_spec c id [] (reset_operation c) w Hreset) as (r & p & w1 & Hrun & Hl & Hr & Hp).
    rewrite Hrun. destruct r as [a|e].
    { exists (Ok ()), w1. split_and!; [done|done|case_match; lia|lia]. }
    destruct (shouldRetryResetAfterPowerCycle app e) eqn:Hs.
    { unfold shouldRetryResetAfterPowerCycle in Hs. apply andb_true_iff in Hs as [Hi Hs]. rewrite Hi.
      destruct (retry_after_spec (waitForResetWindow fuel app c id p) c id [] (reset_operation c) w1 Hreset)
        as (r & w2 & -> & H1 & H2); [apply waits_reset_window; lia|].
      exists r, w2. split_and!; [done|lia|lia|]. intros _. exists e, p, w1. split; [done|]. right.
      destruct (As as_ctap2 e) as [code|]; [|done]. apply Z.eqb_eq in Hs as ->. done. }
    destruct (shouldWaitForReconnect app e) eqn:Hw.
    2: { exists (Err e), w1. split_and!; [done|done|case_match; lia|lia]. }
    apply shouldWait_spec in Hw as [Hi Hlost]. rewrite Hi.
    destruct (retry_after_spec (reconnect fuel app c id p) c id [] (reset_operation c) w1 Hreset)
      as (r & w2 & -> & H1 & H2); [apply waits_reconnect; lia|].
    exists r, w2. split_and!; [done|lia|lia|]. intros _. exists e, p, w1. by split; [|left].
  - unfold mutate.
    destruct (runWithClient_spec c id [] change w Hchange) as (r & p & w1 & -> & Hl & Hr & Hp).
    destruct r as [a|e]; [|exists (Err e), w1; split_and!; [done|done|lia]].
    destruct (waits_post_mutation fuel c id p what w1) as (r & w2 & -> & Hq); [lia|].
    destruct Hq as (H1 & H2 & _). exists r, w2. split_and!; [done|lia|lia].
Qed.

(** The world once a line is on the status stream, if there is one. *)
Definition told (line : string) (w : W) : W := if status app then Fprintln line w else w.

(** C34: a retry without a device identifier takes whatever device is there. In
    an interactive run, with the status stream fidoctl sets or without one,
    when the device a reset was sent to is lost the command says so and waits
    for it to come back; but without an identifier the first listing that shows
    any device ends the wait, even if none of the devices is the one that was
    lost, and after the line that the authenticator was detected again the
    reset is sent to the device the locator opens then. *)
Theorem reset_reaches_another_device (c : ctx) (fuel : nat) (w w1 w2 : W) (e : goerror) (A : Device)
    (ds : list Device) (err : option goerror)
    (Hi : interactive app = true)
    (Hrun : runWithClient app c "" [] (reset_operation c) w = Some ((Err e, Some A), w1))
    (Hlost : Is e Transport.ErrDisconnected = true) (Hstatus : As as_ctap2 e = None)
    (Hlist : Locator.List (locator app) c
       (told "Authenticator connection was lost. Reconnect the device to continue; waiting until the command timeout expires." w1) =
       Some ((ds, err), w2))
    (Hds : ds ≠ []) (Hother : Forall (λ d, samePhysicalDevice d A = false) ds) :
  Reset (S fuel) app c "" w =
  match runWithClient app c "" [] (reset_operation c)
          (told "Authenticator detected again. Retrying the command." w2) with
  | Some ((r, _), w3) => Some (r, w3)
  | None => None
  end.
Proof.
  unfold Reset. rewrite Hrun.
  assert (shouldRetryResetAfterPowerCycle app e = false) as ->.
  { unfold shouldRetryResetAfterPowerCycle. rewrite Hstatus. by destruct (interactive app). }
  assert (shouldWaitForReconnect app e = true) as ->.
  { unfold shouldWaitForReconnect. rewrite Hi, Hlost. simpl. by rewrite orb_true_r. }
  assert (Hl : listDevices app c (told connection_lost w1) = Some (Ok ds, w2)).
  { unfold listDevices, connection_lost. rewrite Hlist. by destruct err, ds. }
  assert (Hav : reconnectTargetAvailable ds "" (Some A) = true).
  { apply reconnectTargetAvailable_spec. split; [done|by left]. }
  assert (Hsay : ∀ line v, status_line app line v = Some (Ok (), told line v)) by done.
  unfold retry_after, reconnect, waitForReconnect. cbn [wait_available].
  unfold bind. rewrite Hsay, Hl, Hav. unfold ret. rewrite Hsay. unfold detected_again.
  by destruct (runWithClient _ _ _ _ _ (told _ w2)) as [[[r p] w3]|].
Qed.
End Service.
End CliProps.
