(* ===== verification/CliSim.v ===== *)
(** * A desk with authenticators

    The parameters of the fidoctl service instantiated: keys that can be
    plugged and unplugged, a terminal, and a locator over one backend. *)
From S2P Require Import Prelude GoErrors GoIO Descriptors Registry Ctap1 Ctap2 PinProtocol.
From S2P Require Import Manager ManagerSim ClientCore ClientFlows Locator CliApp CliProps.

Module CliSim.
Import Middleware Messages Codec Client Capabilities Operations Flows Sim CliApp.CliApp CliProps.

Record desk := MkDesk {
  plugged : list Device;
  log : list (string * bytes);
  sessions : nat;
  ticks : nat;
  screen : list string;
}.

Definition key (name serial : string) : Device := MkDevice name KindUSB "" "Maker" "Key" serial 1 2.
Definition keyA : Device := key "A" "0001".
Definition keyB : Device := key "B" "0002".

Definition info : GetInfoResponse :=
  MkInfoResponse (MkInfo ["FIDO_2_0"%string] [] (replicate 16 0) ∅ 0 [] 0 0 [] [] 0 false 0 0 0 0 0 0 ∅ 0 []) ∅.

#[local] Instance desk_random : Random desk := {|
  rand_Read n w := (Ok (replicate n 0), w);
  GenerateKey w := (Ok 1, w);
|}.
#[local] Instance desk_x509 : X509 := {|
  asn1_Unmarshal _ := Err (EMsg "asn1");
  x509_ParseCertificate _ := None;
|}.
#[local] Instance desk_cbor : Cbor () := {|
  marshal_pin _ := Ok [1];
  marshal_params _ := Ok [1];
  marshal_cm _ := Ok [1];
  marshal_assertion _ := Ok [1];
  marshal_credential _ := Ok [1];
  unmarshal_pin _ := Err (EMsg "cbor");
  unmarshal_cm _ := Err (EMsg "cbor");
  unmarshal_info _ := Ok (Wire info);
  unmarshal_raw _ := Ok ∅;
  unmarshal_assertion _ := Err (EMsg "cbor");
  unmarshal_credential _ := Err (EMsg "cbor");
|}.
#[local] Instance desk_terminal : Terminal desk := {|
  Fprintln line w := MkDesk (plugged w) (log w) (sessions w) (ticks w) (screen w ++ [line]);
  wait_tick _ w := match ticks w with
                   | O => (Some (ECtx DeadlineExceeded), w)
                   | S n => (None, MkDesk (plugged w) (log w) (sessions w) n (screen w))
                   end;
|}.

(** Key A is pulled out while it is being reset. *)
Definition answer (d : Device) (request : bytes) (w : desk) : res bytes * desk :=
  if bool_decide (request = [7]) then
    let w := MkDesk (plugged w) (log w ++ [(ID d, request)]) (sessions w) (ticks w) (screen w) in
    if String.eqb (ID d) "A"
    then (Err (ESent Transport.ErrDisconnected), MkDesk [keyB] (log w) (sessions w) (ticks w) (screen w))
    else (Ok [0], w)
  else (Ok [0; 1], w).

Definition key_session (d : Device) : Session desk :=
  MkSession _ d (λ _ request, answer d request)
    (λ w, (None, MkDesk (plugged w) (log w) (pred (sessions w)) (ticks w) (screen w))) None None.

Definition usb : Registry.Backend desk (Session desk) :=
  Registry.MkBackend KindUSB (λ _ w, ((plugged w, None), w))
    (λ _ d w, Some (Ok (key_session d), MkDesk (plugged w) (log w) (S (sessions w)) (ticks w) (screen w))).

Definition desk_locator : Locator.transportLocator desk :=
  Eval vm_compute in
  match Locator.NewTransportLocator [Some usb] with
  | Ok l => l
  | Err _ => Locator.MkLocator (Registry.MkRegistry ∅ [])
  end.

(** As the command line configures it: interactive, with a status stream. *)
Definition app : App desk := MkApp desk desk_locator true true false.

Definition resets (w : desk) : nat := length (filter (λ e, e.2 = [7]) (log w)).

(** Key A in front; key B is plugged in as well when A goes away. *)
Definition start : desk := MkDesk [keyA] [] 0 3 [].

(** The desk after the reset: both keys have been sent one. *)
Definition touch : string := "Touch or tap the authenticator to confirm reset.".
Definition both_reset : desk :=
  MkDesk [keyB] [("A"%string, [7]); ("B"%string, [7])] 0 3 [touch; connection_lost; detected_again; touch].
Lemma reset_run : Reset 4 app Caller "" start = Some (Ok (), both_reset).
Proof. vm_compute. reflexivity. Qed.

(** *** The laws of the environment *)
Lemma desk_list c w : Locator.List desk_locator c w = Some ((plugged w, None), w).
Proof. reflexivity. Qed.

Lemma New_session (s : Session desk) options cl : Client.New (Some s) options = Ok cl → session cl = s.
Proof. unfold Client.New. intros (cfg & _ & [= <-])%rbind_Ok. done. Qed.

Lemma desk_open_device c d w :
  Registry.OpenDevice (Locator.registry desk_locator) c d w =
  if decide (Transport d = KindUSB)
  then Some (Ok (key_session d), MkDesk (plugged w) (log w) (S (sessions w)) (ticks w) (screen w))
  else Some (Err (ETransport "open device" (Transport.unsupported
         (EFmt "transport: %w: %s" [Registry.errBackendNotFound]))), w).
Proof.
  assert (Hb : Registry.backends (Locator.registry desk_locator) = {[KindUSB := usb]}) by reflexivity.
  unfold Registry.OpenDevice. rewrite Hb. case_decide as Hd.
  - by rewrite Hd, lookup_singleton_eq.
  - rewrite lookup_singleton_ne by congruence. done.
Qed.

(** Every open of the desk's locator, whole. *)
Lemma desk_open c id options w :
  (∃ e, Locator.Open desk_locator c id options w = Some (Err e, w)) ∨
  ∃ d cl, Client.New (Some (key_session d)) options = Ok cl ∧
    Locator.Open desk_locator c id options w =
      Some (Ok cl, MkDesk (plugged w) (log w) (S (sessions w)) (ticks w) (screen w)).
Proof.
  unfold Locator.Open.
  assert (Registry.DiscoverAll (Locator.registry desk_locator) c w = Some ((plugged w, None), w)) as -> by done.
  destruct (plugged w) as [|d0 ds] eqn:Hp; [left; by eexists|]. rewrite LocatorProps.open_loop_find.
  destruct (list_find _ (d0 :: ds)) as [[i d]|]; [|left; by eexists].
  unfold Locator.open_device, bind. rewrite desk_open_device. case_decide; [|left; by eexists].
  destruct (Client.New (Some (key_session d)) options) as [cl|e] eqn:Hn.
  - right. exists d, cl. split; [exact Hn|]. by rewrite Hp.
  - left. exists e. simpl. rewrite Hp. by destruct w; simpl in *; subst.
Qed.

#[local] Instance desk_environment : Environment app sessions resets ticks.
Proof.
  constructor.
  - intros c w. eexists _, w. split; [apply desk_list|done].
  - intros c id options w. change (locator app) with desk_locator. destruct (desk_open c id options w) as [[e ->]|(d & cl & Hn & ->)].
    + by exists (Err e), w.
    + eexists (Ok cl), _. split; [done|]. split_and!; [done|simpl; lia|done|].
      intros v. unfold Close. rewrite (New_session _ _ _ Hn). simpl. split_and!; [done|done|lia].
  - done.
  - intros c w. simpl. destruct w as [p l n [|t] o]; simpl; [done|]. split_and!; [done|done|lia].
Qed.

(** *** The clients of the service *)
Lemma desk_client c id cl w0 w1 : openClient app c id [] w0 = Some (Ok cl, w1) →
  ∃ d, Client.New (Some (key_session d)) [Some WithDefaultRawInvokers; Some (WithInteraction (Some (handler app)))] = Ok cl.
Proof.
  unfold openClient. change (locator app) with desk_locator.
  match goal with |- Locator.Open _ _ _ ?o _ = _ → _ => pose proof (desk_open c id o w0) as Ho end.
  destruct Ho as [[e He]|(d & k & Hn & He)]; rewrite He; intros H.
  - done.
  - injection H as <- _. exists d. exact Hn.
Qed.

Lemma answer_quiet d request w : sessions (answer d request w).2 = sessions w ∧
  (resets (answer d request w).2 <= S (resets w))%nat ∧ (ticks (answer d request w).2 <= ticks w)%nat ∧
  (request ≠ [7] → (answer d request w).2 = w).
Proof.
  unfold answer, resets. case_bool_decide as Hr; [|simpl; split_and!; [done|lia|lia|done]].
  assert (Hlog : (length (filter (λ e : string * bytes, e.2 = [7%Z]) (log w ++ [(ID d, request)])) <=
    S (length (filter (λ e : string * bytes, e.2 = [7%Z]) (log w))))%nat).
  { rewrite list.filter_app, length_app. cbn [filter list_filter]. case_decide; simpl; lia. }
  case_match; simpl; split_and!; done.
Qed.

Definition desk_cl (d : Device) : client desk :=
  MkClient (key_session d) (λ _ request, answer d request) (baseHIDExchange (key_session d))
    (<[Family.FamilyCTAP2 := ctap2RawInvoker]> {[Family.FamilyCTAP1 := ctap1RawInvoker]}) (Some (handler app)).

Lemma desk_client_is c id cl w0 w1 : openClient app c id [] w0 = Some (Ok cl, w1) → ∃ d, cl = desk_cl d.
Proof.
  intros (d & Hn)%desk_client. exists d.
  assert (Hd : Client.New (Some (key_session d))
    [Some WithDefaultRawInvokers; Some (WithInteraction (Some (handler app)))] = Ok (desk_cl d)) by reflexivity.
  rewrite Hd in Hn. by injection Hn.
Qed.

Lemma desk_capabilities d c caps w : ∃ caps',
  GetCapabilities (desk_cl d) c (caps, w) = Some (Ok caps', (Some caps', w)).
Proof.
  destruct caps as [caps|]; [by exists caps|].
  assert (probe_ctap2 (desk_cl d) c w = (Some info, w)) as Hp by reflexivity.
  assert (∃ v, probe_ctap1 (desk_cl d) c w = (v, w)) as [v Hv] by (eexists; reflexivity).
  exists (buildCapabilities v (Some info) d). unfold GetCapabilities. change ((None, w).2) with w.
  rewrite Hp, Hv. destruct v; reflexivity.
Qed.

Lemma reset_counted c : counted app sessions resets ticks [] (reset_operation c).
Proof.
  intros c0 id cl w0 w1 (d & ->)%desk_client_is caps w.
  set (said := Fprintln (Terminal:=desk_terminal) "Touch or tap the authenticator to confirm reset." w).
  destruct (answer_quiet d [7] said) as (Hs & Hr & Ht & _).
  destruct (desk_capabilities d c caps w) as [k Hk].
  assert (Hk2 : GetCapabilities (desk_cl d) c (Some k, w) = Some (Ok k, (Some k, w))) by reflexivity.
  assert (Hstop : ∀ e : goerror, ∃ (r : res ()) caps' w', Some (Err e, (Some k, w)) = Some (r, (caps', w')) ∧
    sessions w' = sessions w ∧ (resets w' <= S (resets w))%nat ∧ (ticks w' <= ticks w)%nat).
  { intros e. eexists _, _, w. split_and!; [done|done|lia|lia]. }
  unfold reset_operation, CTAP2Available, Flows.Reset. unfold bind at 1 2. rewrite Hk.
  destruct (HasCTAP2 k) eqn:H2; cbn [negb]; [|apply Hstop]. unfold ret at 1.
  unfold bind at 1. rewrite Hk2. rewrite H2. cbn [negb].
  exists (match (answer d [7] said).1 with Ok b => Codec.DecodeReset b | Err e => Err e end), (Some k),
    (answer d [7] said).2.
  split_and!; [|exact Hs|exact Hr|exact Ht].
  assert (Hi : invokeRaw (desk_cl d) c Family.FamilyCTAP2 CommandReset [] (Some k, said) =
    (let '(r, w') := answer d [7] said in Some (r, (Some k, w')))) by reflexivity.
  assert (He : ∀ A (f : () → M (St desk) A), bind (emitInteraction (desk_cl d) c
    (presence "reset" Family.FamilyCTAP2 "Touch or tap the authenticator to confirm reset.")) f (Some k, w) =
    f () (Some k, said)) by reflexivity.
  rewrite He. unfold bind. rewrite Hi. by destruct (answer d [7] said) as [[b|e] w'].
Qed.

Lemma cli_operations_witness :
  ∃ r w', Reset 4 app Caller "" start = Some (r, w') ∧ sessions w' = 0%nat ∧ (resets w' <= 2)%nat.
Proof.
  destruct (cli_operations app sessions resets ticks (reset_operation Caller) (reset_operation Caller) Caller
    "" "" [] 4 start (reset_counted Caller) (reset_counted Caller) (reset_counted Caller))
    as (_ & (r & w' & H1 & H2 & H3 & _) & _); [simpl; lia|].
  exists r, w'. split; [exact H1|]. split; [exact H2|exact H3].
Defined.

(** Key A is lost during its reset, key B is in its place: the reset goes to
    key B. *)
Definition pulled : desk := MkDesk [keyB] [("A"%string, [7])] 0 3 [touch].

Lemma reset_reaches_another_device_witness :
  status app = true ∧ Reset 4 app Caller "" start = Some (Ok (), both_reset) ∧
  samePhysicalDevice keyB keyA = false.
Proof.
  split; [reflexivity|]. split; [|reflexivity].
  rewrite (reset_reaches_another_device app Caller 3 start pulled (told app connection_lost pulled)
    (ESent Transport.ErrDisconnected) keyA [keyB] None); try reflexivity; [discriminate|]. repeat constructor.
Defined.
End CliSim.
