(* ===== verification/CliService.v ===== *)
(** * The values fidoctl prints, its service interface and its terminal

    [Service] is the interface of src/internal/cli/fidoctl/app.go that the
    commands call, with the two optional interfaces of
    src/cmd/fidoctl/root.go; [app_service] is its implementation by App. *)
From S2P Require Import Prelude GoErrors GoText GoIO Descriptors Ctap1 Ctap2 PinProtocol Manager.
From S2P Require Import ClientCore ClientFlows Locator CliApp.
Import Client Capabilities Operations Flows Locator.

(** A value given to the JSON encoder, which is not modelled. *)
Inductive Value (Any : Type) :=
  | VDevices (devices : list DeviceDescriptor)
  | VInfo (result : CliApp.InfoResult)
  | VRaw (result : CliApp.RawResult)
  | VTrace (result : CliApp.TraceResult)
  | VPINRetries (result : CliApp.PINRetriesResult)
  | VRegistration (result : RegistrationResult Any)
  | VAuthentication (result : AuthenticationResult)
  | VCredentials (result : CliApp.CredentialListResult)
  | VDone (key : string)
  | VVersion (binary version : string)
  | VError (message : string) (exitCode : Z) (kind : string).
Arguments VDevices {Any}. Arguments VInfo {Any}. Arguments VRaw {Any}. Arguments VTrace {Any}.
Arguments VPINRetries {Any}. Arguments VRegistration {Any}. Arguments VAuthentication {Any}.
Arguments VCredentials {Any}. Arguments VDone {Any}. Arguments VVersion {Any}. Arguments VError {Any}.

(** What is written: a formatted text, a text aligned by a tabwriter at its
    [Flush], the JSON of a value, raw bytes. *)
Inductive Chunk (Any : Type) :=
  | Text (s : string)
  | Table (s : string)
  | Json (v : Value Any)
  | Binary (b : bytes).
Arguments Text {Any}. Arguments Table {Any}. Arguments Json {Any}. Arguments Binary {Any}.

(** The streams of cliDependencies, and [os.Stderr]. *)
Inductive stream := Stdout | Stderr | OsStderr.

(** The process around the commands: the environment variables, standard
    input - a terminal whose password prompt is [term.ReadPassword], or the
    lines of a buffered reader - and the output streams. *)
Class Console (W Any : Type) := {
  LookupEnv : string → W → option string;
  IsTerminal : W → bool;
  ReadPassword : W → res bytes * W;
  ReadLine : W → (bytes * option goerror) * W;
  Write : stream → Chunk Any → W → option goerror * W;
}.

Class Service (S W Any : Type) := {
  ListDevices : S → ctx → W → option ((list DeviceDescriptor * option goerror) * W);
  Info : S → ctx → string → M W CliApp.InfoResult;
  Raw : S → ctx → CliApp.RawRequest → M W CliApp.RawResult;
  Trace : S → ctx → CliApp.RawRequest → M W CliApp.TraceResult;
  PINRetries : S → ctx → string → M W CliApp.PINRetriesResult;
  SetPIN : S → ctx → string → bytes → M W ();
  ChangePIN : S → ctx → string → bytes → bytes → M W ();
  Register : S → ctx → string → RegistrationRequest → M W (RegistrationResult Any);
  Authenticate : S → ctx → string → AuthenticationRequest → M W AuthenticationResult;
  Reset : S → ctx → string → M W ();
  ListCredentials : S → ctx → string → bytes → M W CliApp.CredentialListResult;
  transportPreferenceConfigurer : option (TransportPreference → S → res S);
  interactionConfigurer : option (bool → bool → S → S);
}.

(** App implements the service. *)
Section AppService.
Context `{HC : Crypto} `{X509} {Any W : Type} `{!Cbor Any} `{!Random W} `{!Terminal W}.

Definition app_service (build : TransportPreference → res (transportLocator W))
    (recorder : ClientCore.Trace.TraceRecorder W) (fuel : nat) : Service (CliApp.App W) W Any := {|
  ListDevices := CliApp.ListDevices;
  Info := CliApp.Info fuel;
  Raw := CliApp.Raw fuel;
  Trace := CliApp.Trace recorder fuel;
  PINRetries := CliApp.PINRetries fuel;
  SetPIN := CliApp.SetPIN fuel;
  ChangePIN := CliApp.ChangePIN fuel;
  Register := CliApp.Register fuel;
  Authenticate := CliApp.Authenticate fuel;
  Reset := CliApp.Reset fuel;
  ListCredentials := CliApp.ListCredentials fuel;
  transportPreferenceConfigurer := Some (CliApp.ConfigureTransportPreferences build);
  interactionConfigurer := Some CliApp.ConfigureInteraction;
|}.
End AppService.
