(* ===== verification/GoFmt.v ===== *)
(** * Formatting texts: strconv.Quote, the verbs %x and %w

    What the messages of the program use of fmt.  The table of printable
    characters beyond Latin-1 is that of the standard library and a parameter
    (PrintTable); everything else is written out. *)
From S2P Require Import Prelude GoErrors GoText GoEncoding.

Module GoFmt.
Import GoStrings.
#[local] Open Scope string_scope.
#[local] Open Scope list_scope.
#[local] Open Scope Z_scope.

Class PrintTable := IsPrintWide : Z → bool.

(** ** utf8.DecodeRune: the character and its width *)
Definition RuneError : Z := 0xFFFD.
Definition between (lo hi x : Z) : bool := (lo <=? x) && (x <=? hi).
Definition continues (x : Z) : bool := between 0x80 0xBF x.
Definition second_range (b0 : Z) : Z * Z :=
  if b0 =? 0xE0 then (0xA0, 0xBF) else if b0 =? 0xED then (0x80, 0x9F)
  else if b0 =? 0xF0 then (0x90, 0xBF) else if b0 =? 0xF4 then (0x80, 0x8F) else (0x80, 0xBF).

Definition DecodeRune (s : bytes) : Z * nat :=
  match s with
  | [] => (RuneError, 0%nat)
  | b0 :: rest =>
      let invalid := (RuneError, 1%nat) in
      let '(lo, hi) := second_range b0 in
      if b0 <? 0x80 then (b0, 1%nat)
      else if between 0xC2 0xDF b0 then
        match rest with
        | b1 :: _ => if continues b1 then (Z.lor (Z.shiftl (Z.land b0 0x1F) 6) (Z.land b1 0x3F), 2%nat) else invalid
        | _ => invalid
        end
      else if between 0xE0 0xEF b0 then
        match rest with
        | b1 :: b2 :: _ =>
            if between lo hi b1 && continues b2
            then (Z.lor (Z.lor (Z.shiftl (Z.land b0 0x0F) 12) (Z.shiftl (Z.land b1 0x3F) 6)) (Z.land b2 0x3F), 3%nat)
            else invalid
        | _ => invalid
        end
      else if between 0xF0 0xF4 b0 then
        match rest with
        | b1 :: b2 :: b3 :: _ =>
            if between lo hi b1 && continues b2 && continues b3
            then (Z.lor (Z.lor (Z.shiftl (Z.land b0 0x07) 18) (Z.shiftl (Z.land b1 0x3F) 12))
                        (Z.lor (Z.shiftl (Z.land b2 0x3F) 6) (Z.land b3 0x3F)), 4%nat)
            else invalid
        | _ => invalid
        end
      else invalid
  end.

(** [width] hexadecimal digits of a number. *)
Fixpoint hex_digits (width : nat) (x : Z) : string :=
  match width with
  | O => ""
  | S width => hex_digits width (x / 16) ++ String (symbol Hex.alphabet (x mod 16)) ""
  end%string.
(** As many as it has: [%x]. *)
Fixpoint hex_width (fuel : nat) (x : Z) : nat :=
  match fuel with O => 1%nat | S fuel => if x <? 16 then 1%nat else S (hex_width fuel (x / 16)) end.
Definition hex_number (x : Z) : string := hex_digits (hex_width 16 x) x.

(** [%0nx] of a number that may need more digits. *)
Definition hex_padded (width : nat) (x : Z) : string := hex_digits (Nat.max width (hex_width 16 x)) x.

(** ** strconv.Quote *)
Section Quote.
Context `{!PrintTable}.

Definition IsPrint (r : Z) : bool :=
  if r <=? 0xFF then between 0x20 0x7E r || (between 0xA1 0xFF r && negb (r =? 0xAD)) else IsPrintWide r.

(** One character, [text] being its bytes. *)
Definition backslash : ascii := "\".
Definition quote_mark : ascii := "034".
Definition escaped (c : ascii) : string := String backslash (String c "").
Definition quote_rune (r : Z) (text : bytes) : string :=
  if (r =? 34) || (r =? 92) then escaped (char_of r)
  else if IsPrint r then string_of_bytes text
  else if r =? 7 then escaped "a" else if r =? 8 then escaped "b" else if r =? 12 then escaped "f"
  else if r =? 10 then escaped "n" else if r =? 13 then escaped "r" else if r =? 9 then escaped "t"
  else if r =? 11 then escaped "v"
  else if (r <? 32) || (r =? 127) then (escaped "x" ++ hex_digits 2 r)%string
  else if r <? 0x10000 then (escaped "u" ++ hex_digits 4 r)%string
  else (escaped "U" ++ hex_digits 8 r)%string.

Fixpoint quote_body (fuel : nat) (s : bytes) : string :=
  match fuel, s with
  | S fuel, b0 :: _ =>
      let '(r, width) := DecodeRune s in
      let text := if (r =? RuneError) && (width =? 1)%nat then (escaped "x" ++ hex_digits 2 b0)%string
                  else quote_rune r (firstn width s) in
      (text ++ quote_body fuel (skipn width s))%string
  | _, _ => ""
  end.

Definition Quote (s : string) : string :=
  (String quote_mark (quote_body (String.length s) (bytes_of_string s)) ++ String quote_mark "")%string.
End Quote.

(** ** The verb %w, and %v of an error *)
(** The operands take the places of the verbs, in order. *)
Fixpoint expand (format : string) (operands : list string) : string :=
  match format, operands with
  | String "%" (String "w" rest), text :: operands => text ++ expand rest operands
  | String c rest, _ => String c (expand rest operands)
  | "", _ => ""
  end%string.

(** *** Laws *)
Definition plain (a : ascii) : bool :=
  let r := byte_of a in between 0x20 0x7E r && negb ((r =? 34) || (r =? 92)).
Definition plain_text (s : string) : bool := forallb plain (String.list_ascii_of_string s).

Section QuoteLaws.
Context `{!PrintTable}.

Lemma quote_plain_char a s fuel : plain a = true →
  quote_body (S fuel) (byte_of a :: s) = String a (quote_body fuel s).
Proof.
  unfold plain. set (r := byte_of a). intros [Hp Hq]%andb_true_iff. assert (Hr : 0x20 <= r <= 0x7E).
  { unfold between in Hp. apply andb_true_iff in Hp as [?%Z.leb_le ?%Z.leb_le]. lia. }
  cbn [quote_body]. unfold DecodeRune. destruct (second_range r) as [lo hi].
  destruct (Z.ltb_spec r 0x80); [|lia]. cbn [Nat.eqb]. destruct (Z.eqb_spec r RuneError); [unfold RuneError in *; lia|].
  cbn [andb]. unfold quote_rune. apply negb_true_iff in Hq. rewrite Hq.
  unfold IsPrint. destruct (Z.leb_spec r 0xFF); [|lia]. rewrite Hp. cbn [orb firstn skipn].
  unfold string_of_bytes. cbn. unfold r, byte_of. rewrite N2Z.id, Ascii.ascii_N_embedding. done.
Qed.

(** A text with nothing to escape is put between quotes. *)
Lemma Quote_plain s : plain_text s = true → Quote s = (String quote_mark s ++ String quote_mark "")%string.
Proof.
  intros Hs. unfold Quote. f_equal. f_equal. revert Hs. unfold plain_text, bytes_of_string.
  induction s as [|a s IH]; [done|]. cbn [String.list_ascii_of_string forallb]. intros [Ha Hs]%andb_true_iff.
  cbn [String.length map]. rewrite quote_plain_char by done. by rewrite IH.
Qed.
End QuoteLaws.
End GoFmt.
