(* ===== verification/CliCommands.v ===== *)
(** * The commands of fidoctl: src/cmd/fidoctl

    Every command is its flags, read by cobra, and its RunE over a [Service]
    and a [Console].  Formatted text is written out; of a secret the bytes
    are modelled, and not where they are stored.  [quoted] is the %q of a text
    without characters to escape. *)
From S2P Require Import Prelude GoErrors GoText GoEncoding GoIO Descriptors Ctap1 Ctap2 Manager.
From S2P Require Import ClientCore ClientFlows Locator CliApp CliService GoFmt.
From stdpp Require Import sorting.

Module Output.
Import Client Capabilities Operations Flows GoStrings.
#[local] Open Scope string_scope.
#[local] Open Scope list_scope.
#[local] Open Scope Z_scope.

Definition line_end : string := String newline "".
Definition tab : string := String (Ascii.ascii_of_nat 9) "".
Definition quoted (s : string) : string := (String "034"%char s ++ String "034"%char "")%string.

(** A line of a tabwriter. *)
Definition cells (l : list string) : string := (Join tab l ++ line_end)%string.
Definition lines (l : list string) : string := String.concat "" l.
(** [if cond] around a line. *)
Definition when (cond : bool) (l : list string) : list string := if cond then [cells l] else [].

Definition credentialUserLabel (credential : Manager.DiscoverableCredential) : string :=
  let user := Manager.DUser credential in
  if negb (str_empty (Types.DisplayName user)) then Types.DisplayName user
  else if negb (str_empty (Types.UserName user)) then Types.UserName user
  else if 0 <? len (Types.UserID user) then Hex.EncodeToString (Types.UserID user)
  else "-".

Definition deviceLabel (device : DeviceDescriptor) : string :=
  if negb (str_empty (Manufacturer device)) && negb (str_empty (Product device))
  then (Manufacturer device ++ " " ++ Product device)%string
  else if negb (str_empty (Product device)) then Product device
  else Descriptors.DisplayName device.

Definition formatUint64List (values : list Z) : string := Join ", " (map Strconv.Itoa values).

(** [sort.Strings] of the keys, in whatever order the map gives them. *)
Definition string_le (a b : string) : Prop := Is_true (String.leb a b).
#[export] Instance string_le_dec : RelDecision string_le := λ a b, _.
Definition sortedOptionKeys (options : gmap string bool) : list string :=
  merge_sort string_le ((map_to_list options).*1).

Section Write.
Context {Any W : Type} `{!Console W Any} {print : GoFmt.PrintTable}.

Definition write (writer : stream) (c : Chunk Any) : M W () := call_err (Write writer c).

Definition writeDeviceTable (writer : stream) (devices : list DeviceDescriptor) : M W () :=
  if len devices =? 0 then write writer (Text ("No devices found" ++ line_end)%string)
  else
    write writer (Table (lines (cells ["ID"; "TRANSPORT"; "PRODUCT"; "SERIAL"] ::
      map (λ device, cells [ID device; Transport device; deviceLabel device;
        if negb (str_empty (SerialNumber device)) then SerialNumber device else "-"]) devices))).

Definition info_ctap2 (info : Messages.GetInfoResponse) : list string :=
  let wire := Messages.Wire info in
  when (0 <? len (Messages.Versions wire)) ["CTAP2 Versions"; Join ", " (Messages.Versions wire)] ++
  when (0 <? len (Messages.Extensions wire)) ["CTAP2 Extensions"; Join ", " (Messages.Extensions wire)] ++
  when (0 <? len (Messages.InfoTransports wire)) ["CTAP2 Transports"; Join ", " (Messages.InfoTransports wire)] ++
  when (0 <? len (Messages.PinUVAuthProtocols wire))
    ["PIN/UV Protocols"; formatUint64List (Messages.PinUVAuthProtocols wire)] ++
  when (0 <? len (Messages.AAGUID wire)) ["AAGUID"; Hex.EncodeToString (Messages.AAGUID wire)] ++
  when (0 <? Messages.MaxMsgSize wire) ["Max Message Size"; Strconv.Itoa (Messages.MaxMsgSize wire)] ++
  when (0 <? Messages.MaxCredentialIDLength wire)
    ["Max Credential ID Length"; Strconv.Itoa (Messages.MaxCredentialIDLength wire)] ++
  when (0 <? Messages.MaxCredentialCountInList wire)
    ["Max Credential Count"; Strconv.Itoa (Messages.MaxCredentialCountInList wire)].

Definition retries_rows (retries : Manager.PINRetries) : list string :=
  cells ["PIN Retries"; Strconv.Itoa (Manager.NPINRetries retries)] ::
  when (0 <? Manager.NUVRetries retries) ["UV Retries"; Strconv.Itoa (Manager.NUVRetries retries)] ++
  when (Manager.NPowerCycleState retries) ["Power Cycle Required"; "true"].

Definition info_rows (result : CliApp.InfoResult) : list string :=
  let device := CliApp.InfoDevice result in
  let caps := CliApp.InfoCapabilities result in
  let preferred := if HasCTAP2 caps then Family.FamilyCTAP2
                   else if HasCTAP1 caps then Family.FamilyCTAP1 else "unknown" in
  [cells ["Device"; Descriptors.DisplayName device]; cells ["ID"; ID device];
   cells ["Transport"; Transport device]; cells ["Preferred"; preferred]] ++
  when (negb (str_empty (Manufacturer device))) ["Manufacturer"; Manufacturer device] ++
  when (negb (str_empty (Product device))) ["Product"; Product device] ++
  when (negb (str_empty (SerialNumber device))) ["Serial"; SerialNumber device] ++
  when (negb (str_empty (Path device)) && negb (String.eqb (Path device) (ID device))) ["Path"; Path device] ++
  match RawCTAP1 caps with
  | Some version => [cells ["CTAP1 Version"; string_of_bytes version]]
  | None => []
  end ++
  match RawCTAP2 caps with Some info => info_ctap2 info | None => [] end ++
  match CliApp.InfoPINRetries result with Some retries => retries_rows retries | None => [] end.

(** The loop over the options. *)
Definition writeOptions (writer : stream) (options : gmap string bool) : M W () :=
  if len (map_to_list options) =? 0 then ret ()
  else
    _ ←! write writer (Text ("Options:" ++ line_end)%string);
    for_each (λ key, write writer (Text ("  " ++ key ++ "="
      ++ (if default false (options !! key) then "true" else "false") ++ line_end)%string))
      (sortedOptionKeys options).

Definition writeInfoHuman (writer : stream) (result : option CliApp.InfoResult) : M W () :=
  match result with
  | None => write writer (Text ("No authenticator information available" ++ line_end)%string)
  | Some result =>
      _ ←! write writer (Table (lines (info_rows result)));
      match RawCTAP2 (CliApp.InfoCapabilities result) with
      | Some info => writeOptions writer (Messages.Options (Messages.Wire info))
      | None => ret ()
      end
  end.

Definition writeCredentialTable (writer : stream) (result : option CliApp.CredentialListResult) : M W () :=
  let credentials := match result with
    Some result => Manager.LCredentials (CliApp.CCredentials result) | None => [] end in
  if len credentials =? 0 then write writer (Text ("No discoverable credentials found" ++ line_end)%string)
  else
    write writer (Table (lines (cells ["RP ID"; "USER"; "CREDENTIAL ID"; "PROTECT"] ::
      map (λ credential, cells [Types.RPID (Manager.DRP credential); credentialUserLabel credential;
        Hex.EncodeToString (Types.CredID (Manager.DCredential credential));
        if negb (Manager.DCredProtect credential =? 0) then Strconv.Itoa (Manager.DCredProtect credential) else "-"])
        credentials))).

Definition writePINRetriesHuman (writer : stream) (result : option CliApp.PINRetriesResult) : M W () :=
  match result with
  | None => write writer (Text ("No PIN retry information available" ++ line_end)%string)
  | Some result =>
      let device := CliApp.PRDevice result in
      write writer (Table (lines (cells ["Device"; Descriptors.DisplayName device] :: cells ["ID"; ID device] ::
        retries_rows (CliApp.PRPINRetries result))))
  end.

Definition writeValue (writer : stream) (format : string) (value : Value Any) (human : stream → M W ()) : M W () :=
  if String.eqb format "human" then human writer
  else if String.eqb format "json" then write writer (Json value)
  else throw (EMsg ("unsupported format " ++ GoFmt.Quote format)%string).

Definition writeRawValue (writer : stream) (format : string) (raw : bytes) (value : Value Any)
    (human : stream → M W ()) : M W () :=
  if String.eqb format "raw" then write writer (Binary raw) else writeValue writer format value human.
End Write.
End Output.

(** ** secrets.go *)
Module Secrets.
Import GoStrings.
#[local] Open Scope string_scope.
#[local] Open Scope Z_scope.

Record secretRequest := MkSecretRequest {
  SValue : string; EnvName : string; DefaultEnv : string; ReadStdin : bool; Missing : option goerror; Label : string;
}.

Definition EOF : string := "io.EOF".

(** [bytes.TrimRight(value, "\r\n")]. *)
Fixpoint TrimLineEnd (value : bytes) : bytes :=
  match value with
  | [] => []
  | b :: rest =>
      match TrimLineEnd rest with
      | [] => if (b =? 13) || (b =? 10) then [] else [b]
      | rest => b :: rest
      end
  end.

Section Secrets.
Context {Any W : Type} `{!Console W Any}.

(** Go's [ReadBytes] and [ReadString] with an end of file that is no error. *)
Definition read_line (message : string) : M W bytes := λ w,
  let '((value, err), w) := ReadLine w in
  match err with
  | Some e => Some (if Is e EOF then Ok value else Err (EFmt message [e]), w)
  | None => Some (Ok value, w)
  end.

Definition readSecret (label : string) : M W bytes := λ w,
  let message := ("read " ++ (if str_empty label then "secret" else label) ++ " from stdin: %w") in
  if IsTerminal w then
    match ReadPassword w with
    | (Err e, w) => Some (Err (EFmt message [e]), w)
    | (Ok value, w) => Some (Ok (TrimLineEnd value), (Write OsStderr (Text Output.line_end) w).2)
    end
  else (value ←! read_line message; ret (TrimLineEnd value)) w.

(** A nil secret is the empty one. *)
Definition missing_secret (request : secretRequest) : M W bytes :=
  match Missing request with Some e => throw e | None => ret [] end.

Definition Resolve (request : secretRequest) : M W bytes := λ w,
  if negb (str_empty (SValue request)) then Some (Ok (bytes_of_string (SValue request)), w)
  else
    let envName := if str_empty (EnvName request) then DefaultEnv request else EnvName request in
    let value := if str_empty envName then "" else default "" (LookupEnv envName w) in
    if negb (str_empty value) then Some (Ok (bytes_of_string value), w)
    else if ReadStdin request then
      (value ←! readSecret (Label request); if negb (len value =? 0) then ret value else missing_secret request) w
    else missing_secret request w.
End Secrets.
End Secrets.

(** ** The values of the flags: raw.go *)
Module Flags.
Import GoStrings Strconv.
#[local] Open Scope string_scope.
#[local] Open Scope Z_scope.

Section Values.
Context {print : GoFmt.PrintTable}.

Definition parseProtocol (value : string) : res string :=
  let v := ToLower (TrimSpace value) in
  if String.eqb v "ctap1" || String.eqb v "u2f" then Ok Family.FamilyCTAP1
  else if String.eqb v "ctap2" then Ok Family.FamilyCTAP2
  else Err (EMsg ("unsupported protocol " ++ GoFmt.Quote value)).

Definition parseCommand (value : string) : res Z :=
  if str_empty value then Err (EMsg "command is required")
  else
    match ParseUint (TrimPrefix (ToLower value) "0x") 16 8, HasPrefix (ToLower value) "0x" with
    | Ok parsed, true => Ok (u8 parsed)
    | _, _ =>
        match ParseUint value 10 8 with
        | Ok parsed => Ok (u8 parsed)
        | Err _ => Err (EMsg ("invalid command " ++ GoFmt.Quote value))
        end
    end.

(** A nil slice is the empty one. *)
Definition decodeBinary (value : string) : res bytes :=
  if str_empty value then Ok []
  else
    match Hex.DecodeString value with
    | Ok decoded => Ok decoded
    | Err _ =>
        match Base64.StdDecode value with
        | Ok decoded => Ok decoded
        | Err _ =>
            match Base64.RawStdDecode value with
            | Ok decoded => Ok decoded
            | Err _ => Err (EMsg ("invalid binary value " ++ GoFmt.Quote value))
            end
        end
    end.

Definition decodeOptionalBinary (value : string) : res bytes :=
  if str_empty value then Ok [] else decodeBinary value.
End Values.
End Flags.

(** ** errors.go *)
Module Errors.
Import GoStrings.
#[local] Open Scope Z_scope.

Definition exitSuccess : Z := 0.
Definition exitGeneralError : Z := 1.
Definition exitUsageError : Z := 2.
Definition exitDeviceError : Z := 3.
Definition exitTimeout : Z := 4.
Definition exitProtocol : Z := 5.

Definition errResetConfirmationRequired : string := "main.errResetConfirmationRequired".

Definition is_deadline (e : goerror) : bool :=
  match As (λ e, match e with ECtx DeadlineExceeded => Some () | _ => None end) e with
  | Some _ => true
  | None => false
  end.

Definition errorKind (exitCode : Z) : string :=
  if exitCode =? exitUsageError then "usage"
  else if exitCode =? exitDeviceError then "device"
  else if exitCode =? exitTimeout then "timeout"
  else if exitCode =? exitProtocol then "protocol"
  else "general".

Section Errors.
Context {Any W : Type} `{!Console W Any} `{!ErrorText}.

Definition classifyError (err : goerror) : Z :=
  if match As CliApp.as_not_found err with Some _ => true | None => false end then exitDeviceError
  else if is_deadline err then exitTimeout
  else if Contains (ToLower (Error err)) "ctap" then exitProtocol
  else if Is err "client.ErrPINRequired" || Is err "client.ErrNewPINRequired" then exitUsageError
  else if Is err errResetConfirmationRequired then exitUsageError
  else exitGeneralError.

Definition writeCommandError (writer : stream) (format : string) (err : goerror) : M W () :=
  if String.eqb format "json"
  then Output.write writer (Json (VError (Error err) (classifyError err) (errorKind (classifyError err))))
  else Output.write writer (Text ("Error: " ++ Error err ++ Output.line_end)%string).
End Errors.
End Errors.

(** ** root.go and the commands *)
Module Commands.
Import Client Capabilities Operations Flows Locator GoStrings Output Secrets Flags Errors.
Import CliService.
#[local] Open Scope string_scope.
#[local] Open Scope Z_scope.

Record globalFlags := MkGlobalFlags {
  deviceID : string; nfc : bool; timeout : Z; format : string; jsonOutput : bool;
  verbose : bool; debug : bool; noInteractive : bool;
}.
Definition set_format (format : string) (flags : globalFlags) : globalFlags :=
  MkGlobalFlags (deviceID flags) (nfc flags) (timeout flags) format (jsonOutput flags)
    (verbose flags) (debug flags) (noInteractive flags).

Record cliDependencies (S : Type) := MkDeps { service : S; version : string; flags : globalFlags }.
Arguments MkDeps {S}. Arguments service {S}. Arguments version {S}. Arguments flags {S}.

(** The flags of the commands. *)
Record SecretFlags := MkSecretFlags { env : string; from_stdin : bool }.
Record RawFlags := MkRawFlags { protocolFlag : string; commandFlag : string; payloadFlag : string }.
Record RegisterFlags := MkRegisterFlags {
  challengeFlag : string; rpIDFlag : string; rpNameFlag : string; userIDFlag : string;
  userNameFlag : string; userDisplayNameFlag : string; appIDHashFlag : string;
}.
Record AuthenticateFlags := MkAuthenticateFlags {
  aChallengeFlag : string; aRPIDFlag : string; aAppIDHashFlag : string; keyHandleFlag : string;
}.

Inductive Command :=
  | DevicesCommand | InfoCommand
  | RawCommand (f : RawFlags) | TraceCommand (f : RawFlags) (unsafeIncludeSecrets : bool)
  | PinRetriesCommand | PinSetCommand (newPIN : SecretFlags) | PinChangeCommand (currentPIN newPIN : SecretFlags)
  | RegisterCommand (f : RegisterFlags) | AuthenticateCommand (f : AuthenticateFlags)
  | ResetCommand (force : bool) | CredentialsListCommand (pin : SecretFlags) | VersionCommand.

Definition withTimeout (timeout : Z) : ctx :=
  if timeout <=? 0 then Background else WithTimeout Background timeout.

Definition pin_request (pin : SecretFlags) : secretRequest :=
  MkSecretRequest "" (env pin) "FIDO_PIN" (from_stdin pin) (Some ErrPINRequired) "pin".
Definition current_pin_request (pin : SecretFlags) : secretRequest :=
  MkSecretRequest "" (env pin) "FIDO_PIN" (from_stdin pin) (Some ErrPINRequired) "current pin".
Definition new_pin_request (pin : SecretFlags) : secretRequest :=
  MkSecretRequest "" (env pin) "FIDO_NEW_PIN" (from_stdin pin) (Some ErrNewPINRequired) "new pin".

Definition resetConfirmationValue : string := "RESET".

Section Commands.
Context {S Any W : Type} `{!Service S W Any} `{!Console W Any} {print : GoFmt.PrintTable}.

Definition confirmReset (interactive force : bool) : M W () :=
  if force then ret ()
  else if negb interactive
  then throw (EFmt "%w: rerun with --yes when using --no-interactive" [ESent errResetConfirmationRequired])
  else
    _ ←! write Stderr (Text ("Reset will permanently erase authenticator state. Type "
           ++ quoted resetConfirmationValue ++ " to continue: "));
    confirmation ←! read_line "read reset confirmation: %w";
    if negb (String.eqb (TrimSpace (string_of_bytes confirmation)) resetConfirmationValue)
    then throw (EFmt "%w: destructive reset aborted" [ESent errResetConfirmationRequired])
    else ret ().

(** A line of text as the human form of a result. *)
Definition say (line : string) (writer : stream) : M W () := write writer (Text (line ++ line_end)).

(** *** raw.go *)
Definition raw_request (deps : cliDependencies S) (f : RawFlags) (unsafe : bool) : res CliApp.RawRequest :=
  family ←? parseProtocol (protocolFlag f);
  commandByte ←? parseCommand (commandFlag f);
  payload ←? decodeBinary (payloadFlag f);
  Ok (CliApp.MkRawRequest (deviceID (flags deps)) family commandByte payload unsafe).

Definition newRawCommand (deps : cliDependencies S) (f : RawFlags) : M W () :=
  request ←! lift (raw_request deps f false);
  result ←! Raw (service deps) (withTimeout (timeout (flags deps))) request;
  writeRawValue Stdout (format (flags deps)) (CliApp.RawResponse result) (VRaw result)
    (say (CliApp.RawProtocol result ++ " 0x" ++ Hex.EncodeToString [CliApp.RawCommand result] ++ " => "
          ++ Hex.EncodeToString (CliApp.RawResponse result))).

Definition direction_name (direction : ClientCore.Trace.TraceDirection) : string :=
  match direction with
  | ClientCore.Trace.TraceDirectionRequest => "request"
  | ClientCore.Trace.TraceDirectionResponse => "response"
  end.
Definition say_event (writer : stream) (event : ClientCore.Trace.TraceEvent) : M W () :=
  let direction := direction_name (ClientCore.Trace.Direction event) in
  say (if ClientCore.Trace.Redacted event
       then direction ++ " command=0x" ++ Hex.EncodeToString [ClientCore.Trace.ECommand event]
              ++ " length=" ++ Strconv.Itoa (ClientCore.Trace.ELength event) ++ " redacted"
       else direction ++ " " ++ Hex.EncodeToString (ClientCore.Trace.Payload event)) writer.

Definition newTraceCommand (deps : cliDependencies S) (f : RawFlags) (unsafeIncludeSecrets : bool) : M W () :=
  request ←! lift (raw_request deps f unsafeIncludeSecrets);
  result ←! Trace (service deps) (withTimeout (timeout (flags deps))) request;
  writeValue Stdout (format (flags deps)) (VTrace result) (λ writer,
    _ ←! for_each (say_event writer) (CliApp.TEvents result);
    say ("response " ++ Hex.EncodeToString (CliApp.TResponse result)) writer).

(** *** pin.go *)
Definition newPinRetriesCommand (deps : cliDependencies S) : M W () :=
  result ←! PINRetries (service deps) (withTimeout (timeout (flags deps))) (deviceID (flags deps));
  writeValue Stdout (format (flags deps)) (VPINRetries result) (λ writer, writePINRetriesHuman writer (Some result)).

Definition newPinSetCommand (deps : cliDependencies S) (newPIN : SecretFlags) : M W () :=
  resolvedNewPIN ←! Resolve (new_pin_request newPIN);
  _ ←! SetPIN (service deps) (withTimeout (timeout (flags deps))) (deviceID (flags deps)) resolvedNewPIN;
  writeValue Stdout (format (flags deps)) (VDone "set") (say "PIN set").

Definition newPinChangeCommand (deps : cliDependencies S) (currentPIN newPIN : SecretFlags) : M W () :=
  resolvedCurrentPIN ←! Resolve (current_pin_request currentPIN);
  resolvedNewPIN ←! Resolve (new_pin_request newPIN);
  _ ←! ChangePIN (service deps) (withTimeout (timeout (flags deps))) (deviceID (flags deps))
         resolvedCurrentPIN resolvedNewPIN;
  writeValue Stdout (format (flags deps)) (VDone "changed") (say "PIN changed").

(** *** register.go *)
Definition registration_request (f : RegisterFlags) : res RegistrationRequest :=
  challengeHash ←? decodeBinary (challengeFlag f);
  userID ←? decodeBinary (userIDFlag f);
  appIDHash ←? decodeOptionalBinary (appIDHashFlag f);
  Ok (MkRegistration challengeHash (rpIDFlag f)
        (Types.MkUser userID (userNameFlag f) (userDisplayNameFlag f)) (MkSelection "" "")
        (if negb (len appIDHash =? 0) then Some (MkReg1 appIDHash) else None)
        (if negb (str_empty (rpNameFlag f)) then Some (MkReg2 (rpNameFlag f) false [] []) else None)).

Definition newRegisterCommand (deps : cliDependencies S) (f : RegisterFlags) : M W () :=
  request ←! lift (registration_request f);
  result ←! Register (service deps) (withTimeout (timeout (flags deps))) (deviceID (flags deps)) request;
  writeValue Stdout (format (flags deps)) (VRegistration result)
    (say ("registration completed via " ++ RRProtocol result)).

Definition authentication_request (f : AuthenticateFlags) : res AuthenticationRequest :=
  challengeHash ←? decodeBinary (aChallengeFlag f);
  appIDHash ←? decodeOptionalBinary (aAppIDHashFlag f);
  keyHandle ←? decodeOptionalBinary (keyHandleFlag f);
  Ok (MkAuthentication challengeHash (aRPIDFlag f) (MkSelection "" "")
        (if negb (len appIDHash =? 0) || negb (len keyHandle =? 0)
         then Some (MkAuth1 appIDHash keyHandle 0) else None) None).

Definition newAuthenticateCommand (deps : cliDependencies S) (f : AuthenticateFlags) : M W () :=
  request ←! lift (authentication_request f);
  result ←! Authenticate (service deps) (withTimeout (timeout (flags deps))) (deviceID (flags deps)) request;
  writeValue Stdout (format (flags deps)) (VAuthentication result)
    (say ("authentication completed via " ++ ARProtocol result)).

(** *** reset.go and credentials.go *)
Definition newResetCommand (deps : cliDependencies S) (force : bool) : M W () :=
  _ ←! confirmReset (negb (noInteractive (flags deps))) force;
  _ ←! Reset (service deps) (withTimeout (timeout (flags deps))) (deviceID (flags deps));
  writeValue Stdout (format (flags deps)) (VDone "reset") (say "reset completed").

Definition newCredentialsCommand (deps : cliDependencies S) (pin : SecretFlags) : M W () :=
  resolvedPIN ←! Resolve (pin_request pin);
  result ←! ListCredentials (service deps) (withTimeout (timeout (flags deps))) (deviceID (flags deps)) resolvedPIN;
  writeValue Stdout (format (flags deps)) (VCredentials result) (λ writer, writeCredentialTable writer (Some result)).

Definition newInfoCommand (deps : cliDependencies S) : M W () :=
  result ←! Info (service deps) (withTimeout (timeout (flags deps))) (deviceID (flags deps));
  writeValue Stdout (format (flags deps)) (VInfo result) (λ writer, writeInfoHuman writer (Some result)).

Definition newVersionCommand (deps : cliDependencies S) : M W () :=
  writeValue Stdout (format (flags deps)) (VVersion "fidoctl" (version deps)) (say ("fidoctl " ++ version deps)).

Section Texts.
Context `{!ErrorText}.

Definition newDevicesCommand (deps : cliDependencies S) : M W () := λ w,
  match ListDevices (service deps) (withTimeout (timeout (flags deps))) w with
  | None => None
  | Some ((devices, err), w) =>
      let print := writeValue Stdout (format (flags deps)) (VDevices devices)
                     (λ writer, writeDeviceTable writer devices) in
      match err with
      | Some e =>
          if len devices =? 0 then Some (Err e, w)
          else print (Write Stderr (Text ("warning: " ++ Error e ++ line_end)) w).2
      | None => print w
      end
  end.

Definition RunE (deps : cliDependencies S) (command : Command) : M W () :=
  match command with
  | DevicesCommand => newDevicesCommand deps
  | InfoCommand => newInfoCommand deps
  | RawCommand f => newRawCommand deps f
  | TraceCommand f unsafe => newTraceCommand deps f unsafe
  | PinRetriesCommand => newPinRetriesCommand deps
  | PinSetCommand newPIN => newPinSetCommand deps newPIN
  | PinChangeCommand currentPIN newPIN => newPinChangeCommand deps currentPIN newPIN
  | RegisterCommand f => newRegisterCommand deps f
  | AuthenticateCommand f => newAuthenticateCommand deps f
  | ResetCommand force => newResetCommand deps force
  | CredentialsListCommand pin => newCredentialsCommand deps pin
  | VersionCommand => newVersionCommand deps
  end.

(** The flags after [if deps.flags.jsonOutput]. *)
Definition apply_json (flags : globalFlags) : globalFlags :=
  if jsonOutput flags then set_format "json" flags else flags.

Definition PersistentPreRunE (deps : cliDependencies S) : res (cliDependencies S) :=
  let flags := apply_json (flags deps) in
  service ←? match transportPreferenceConfigurer with
             | Some configure => configure (MkPreference true (nfc flags)) (service deps)
             | None => Ok (service deps)
             end;
  Ok (MkDeps match interactionConfigurer with
             | Some configure => configure (negb (noInteractive flags)) true service
             | None => service
             end (version deps) flags).

Definition Execute (deps : cliDependencies S) (command : Command) : M W () :=
  deps ←! lift (PersistentPreRunE deps); RunE deps command.

(** [main]: the exit status. [made] is what [fidoctl.NewDefault] returns. *)
Definition main (made : res S) (version : string) (flags : globalFlags) (command : Command) (w : W)
    : option (Z * W) :=
  match made with
  | Err e =>
      match writeCommandError OsStderr "human" e w with
      | Some (_, w) => Some (exitGeneralError, w)
      | None => None
      end
  | Ok service =>
      match Execute (MkDeps service version flags) command w with
      | None => None
      | Some (Ok _, w) => Some (exitSuccess, w)
      | Some (Err e, w) =>
          match writeCommandError OsStderr (format (apply_json flags)) e w with
          | Some (Ok _, w) => Some (classifyError e, w)
          | Some (Err _, w) =>
              Some (classifyError e, (Write OsStderr (Text ("Error: " ++ Error e ++ line_end)) w).2)
          | None => None
          end
      end
  end.
End Texts.
End Commands.
End Commands.
