(* ===== verification/CliCommandProps.v ===== *)
(** * What the commands of fidoctl guarantee

    The values of the flags, the secrets, the confirmation of a reset, and the
    exit status, over any service and any console that keeps the laws below. *)
From S2P Require Import Prelude GoErrors GoText GoEncoding GoIO Descriptors Manager.
From S2P Require Import ClientCore ClientFlows Locator CliApp CliService GoFmt CliCommands.
Import Client Capabilities Operations GoStrings Output Secrets Flags Errors Commands CliService.

(** ** Binary flags *)
Module FlagProps.

Lemma str_empty_spec s : str_empty s = true ↔ s = ""%string.
Proof. apply String.eqb_eq. Qed.

Lemma Encode_nonempty padded bs : Base64.Encode padded bs = ""%string → bs = [].
Proof. by destruct bs as [|x [|y [|z bs]]]. Qed.

(** Padding is no hexadecimal digit. *)
Lemma padded_not_hex bs : len bs `mod` 3 ≠ 0 → ∃ e, Hex.DecodeString (Base64.Encode true bs) = Err e.
Proof.
  intros Hlen. destruct (Hex.DecodeString (Base64.Encode true bs)) as [r|e] eqn:E; [|by exists e].
  exfalso. apply Hex.Decode_digits in E. rewrite Forall_forall in E.
  assert (Hin : Base64.pad ∈ String.list_ascii_of_string (Base64.Encode true bs)).
  { clear E. revert bs Hlen. apply (Base64.by_threes (λ bs, len bs `mod` 3 ≠ 0 →
      Base64.pad ∈ String.list_ascii_of_string (Base64.Encode true bs))); [done|..].
    - intros x _. simpl. rewrite !elem_of_cons. by do 2 right; left.
    - intros x y _. simpl. rewrite !elem_of_cons. by do 3 right; left.
    - intros x y z bs IH H. rewrite Base64.Encode_group. simpl. rewrite !elem_of_cons. do 4 right. apply IH.
      intros H0. apply H. rewrite !len_cons. replace (1 + (1 + (1 + len bs))) with (len bs + 1 * 3) by lia.
      by rewrite Z_mod_plus_full. }
  apply E in Hin. by destruct Hin.
Qed.

(** Binary flags are read back. A value is accepted in hexadecimal, in
    padded base64 and in unpadded base64, and reads as the bytes it encodes.
    Hexadecimal is tried first, so a base64 text made of hexadecimal digits
    alone is taken for hexadecimal; that cannot happen when it ends in padding,
    as the base64 of a 32-byte hash does. *)
Theorem decodeBinary_roundtrip {print : GoFmt.PrintTable} (bs : bytes) (Hbs : bytes_ok bs) :
  decodeBinary (Hex.EncodeToString bs) = Ok bs ∧
  (∀ padded, let s := Base64.Encode padded bs in
     decodeBinary s = match Hex.DecodeString s with Ok misread => Ok misread | Err _ => Ok bs end) ∧
  (len bs `mod` 3 ≠ 0 → decodeBinary (Base64.Encode true bs) = Ok bs).
Proof.
  assert (H64 : ∀ padded, decodeBinary (Base64.Encode padded bs) =
    match Hex.DecodeString (Base64.Encode padded bs) with Ok misread => Ok misread | Err _ => Ok bs end).
  { intros padded. unfold decodeBinary. destruct (str_empty _) eqn:E.
    { apply str_empty_spec, Encode_nonempty in E as ->. by destruct padded. }
    destruct (Hex.DecodeString _); [done|]. destruct padded; [by rewrite Base64.StdDecode_Encode|].
    rewrite Base64.RawStdDecode_Encode by done. by destruct (Base64.StdDecode_Raw bs Hbs) as [->| ->]. }
  split; [|split; [exact H64|]].
  - unfold decodeBinary. destruct bs as [|b bs]; [done|]. rewrite Hex.Decode_Encode by done. done.
  - intros Hlen. rewrite H64. by destruct (padded_not_hex bs Hlen) as [e ->].
Qed.
End FlagProps.

(** ** The commands *)
Module CommandProps.
#[local] Open Scope string_scope.
#[local] Open Scope Z_scope.

(** What the console promises: writing and reading do not reach the service,
    whose work [reached] tells; a file is read line by line, and nothing
    changes the environment variables. *)
Class ConsoleLaws {Any W : Type} `{!Console W Any} {print : GoFmt.PrintTable} (reached : W → nat) : Prop := {
  write_reached s (c : Chunk Any) w : reached (Write s c w).2 = reached w;
  read_reached w : reached (ReadLine w).2 = reached w;
}.

Class LineConsole {Any W : Type} `{!Console W Any} {print : GoFmt.PrintTable} (input : W → list bytes) : Prop := {
  no_terminal w : IsTerminal w = false;
  read_line_law w : ∃ w', input w' = tail (input w) ∧ (∀ name, LookupEnv name w' = LookupEnv name w) ∧
    ReadLine w = match input w with
                 | l :: _ => ((app l [10], None), w')
                 | [] => (([], Some (ESent EOF)), w')
                 end;
}.

Section Commands.
Context {S Any W : Type} `{!Service S W Any} `{!Console W Any} {print : GoFmt.PrintTable}.
Context (deps : cliDependencies S).

Abbreviation context := (withTimeout (timeout (flags deps))).
Abbreviation target := (deviceID (flags deps)).

(** *** The confirmation of a reset *)
Definition prompt : Chunk Any :=
  Text ("Reset will permanently erase authenticator state. Type " ++ quoted "RESET" ++ " to continue: ").

(** The user agreed, and [w1] is the world after that. *)
Definition confirmed (force : bool) (w w1 : W) : Prop :=
  force = true ∧ w1 = w ∨
  force = false ∧ noInteractive (flags deps) = false ∧
  ∃ w0 line err, Write Stderr prompt w = (None, w0) ∧ ReadLine w0 = ((line, err), w1) ∧
    (∀ e, err = Some e → Is e EOF = true) ∧ TrimSpace (string_of_bytes line) = "RESET".

(** Why the command stopped before: no agreement, or a stream that failed. *)
Definition refused (w : W) (e : goerror) : Prop :=
  Is e errResetConfirmationRequired = true ∨
  (Write Stderr prompt w).1 = Some e ∨
  ∃ cause, (ReadLine (Write Stderr prompt w).2).1.2 = Some cause ∧ Is cause EOF = false ∧
    e = EFmt "read reset confirmation: %w" [cause].

Lemma read_line_cases message w :
  (∃ line err, ReadLine w = ((line, err), (ReadLine w).2) ∧ (∀ e, err = Some e → Is e EOF = true) ∧
     read_line message w = Some (Ok line, (ReadLine w).2)) ∨
  (∃ cause, (ReadLine w).1.2 = Some cause ∧ Is cause EOF = false ∧
     read_line message w = Some (Err (EFmt message [cause]), (ReadLine w).2)).
Proof.
  unfold read_line. destruct (ReadLine w) as [[line [e|]] w1]; [|left; by exists line, None].
  simpl. destruct (Is e EOF) eqn:E; [left|right; by exists e].
  exists line, (Some e). split_and!; [done| |done]. by intros ? [= <-].
Qed.

Lemma confirmReset_cases (reached : W → nat) `{!ConsoleLaws reached} force w :
  (∃ w1, confirmed force w w1 ∧ confirmReset (negb (noInteractive (flags deps))) force w = Some (Ok (), w1)) ∨
  (∃ e w1, refused w e ∧ reached w1 = reached w ∧
     confirmReset (negb (noInteractive (flags deps))) force w = Some (Err e, w1)).
Proof.
  unfold confirmReset, confirmed. destruct force; [left; exists w; by split; [left|]|].
  destruct (noInteractive (flags deps)); cbn [negb].
  { right. eexists _, w. split_and!; cycle 2; [reflexivity|by left|done]. }
  change (write Stderr (Text _)) with (write (Any:=Any) Stderr prompt).
  unfold bind, write, call_err, refused. pose proof (write_reached Stderr prompt w) as Hw.
  destruct (Write Stderr prompt w) as [[e|] w0]; simpl in *; [right; exists e, w0; auto|].
  pose proof (read_reached w0) as Hr.
  destruct (read_line_cases "read reset confirmation: %w" w0)
    as [(line & err & Hl & He & ->)|(cause & Hc & He & ->)].
  - destruct (String.eqb_spec (TrimSpace (string_of_bytes line)) resetConfirmationValue) as [Ht|Ht]; cbn [negb].
    + left. exists (ReadLine w0).2. split; [|done]. right. split_and!; [done|done|]. by exists w0, line, err.
    + right. eexists _, (ReadLine w0).2. split_and!; cycle 2; [reflexivity|by left|congruence].
  - right. eexists _, (ReadLine w0).2. split_and!; cycle 2; [reflexivity|right; right; by exists cause|congruence].
Qed.

(** C35: no reset without agreement. The reset command reaches the service only
    with --yes, or when it may ask and the user typed RESET on a line of the
    standard input, perhaps without its end; from there on it is the service's
    reset of the device asked for, under the command's timeout, and the report.
    Otherwise the command fails, because the confirmation is missing or a
    stream failed, and the service has done nothing. *)
Theorem reset_confirmed (reached : W → nat) (force : bool) (w : W) (Hconsole : ConsoleLaws (Any:=Any) reached) :
  (∃ w1, confirmed force w w1 ∧
     newResetCommand deps force w =
       bind (Reset (service deps) context target) (λ _,
         writeValue Stdout (format (flags deps)) (VDone "reset") (say "reset completed")) w1) ∨
  (∃ e w1, newResetCommand deps force w = Some (Err e, w1) ∧ refused w e ∧ reached w1 = reached w).
Proof.
  unfold newResetCommand.
  destruct (confirmReset_cases reached force w) as [(w1 & Hc & E)|(e & w1 & He & Hr & E)]; [left|right].
  - exists w1. split; [done|]. by rewrite (bind_Ok _ _ _ _ _ E).
  - exists e, w1. split; [by rewrite (bind_Err _ _ _ _ _ E)|done].
Qed.

(** *** Secrets *)

(** The secret that a variable's value, the stdin flag and the lines of the
    input give, and the lines that remain. *)
Definition source (value : string) (stdin : bool) (input : list bytes) : option bytes * list bytes :=
  if negb (str_empty value) then (Some (bytes_of_string value), input)
  else if stdin then
    (match TrimLineEnd (default [] (head input)) with [] => None | secret => Some secret end, tail input)
  else (None, input).

Definition variable (w : W) (name : string) (f : SecretFlags) : string :=
  default "" (LookupEnv (if str_empty (env f) then name else env f) w).

Lemma TrimLineEnd_line l : TrimLineEnd (app l [10]) = TrimLineEnd l.
Proof. induction l as [|b l IH]; [done|]. cbn [app TrimLineEnd]. by rewrite IH. Qed.

Lemma bytes_of_string_nil v : bytes_of_string v = [] → v = "".
Proof. by destruct v. Qed.

Context (reached : W → nat) (input : W → list bytes).
Context `{!ConsoleLaws (Any:=Any) reached} `{!LineConsole (Any:=Any) input}.

Lemma readSecret_line label w :
  ∃ w1, reached w1 = reached w ∧ input w1 = tail (input w) ∧ (∀ name, LookupEnv name w1 = LookupEnv name w) ∧
    readSecret label w = Some (Ok (TrimLineEnd (default [] (head (input w)))), w1).
Proof.
  destruct (read_line_law w) as (w1 & Hi & Hn & Hl). pose proof (read_reached w) as Hreached.
  rewrite Hl in Hreached. exists w1. split_and!; [by destruct (input w)|done|done|].
  unfold readSecret. rewrite no_terminal. unfold bind, read_line. rewrite Hl.
  destruct (input w) as [|l ls]; [done|]. simpl. unfold ret. by rewrite TrimLineEnd_line.
Qed.

Lemma Resolve_source f name e label w : name ≠ "" →
  ∃ w1, reached w1 = reached w ∧ input w1 = (source (variable w name f) (from_stdin f) (input w)).2 ∧
    (∀ n, LookupEnv n w1 = LookupEnv n w) ∧
    Resolve (MkSecretRequest "" (env f) name (from_stdin f) (Some e) label) w =
      Some (match (source (variable w name f) (from_stdin f) (input w)).1 with Some s => Ok s | None => Err e end, w1).
Proof.
  intros Hname. unfold Resolve. cbn [SValue EnvName DefaultEnv ReadStdin Missing Label]. cbn [str_empty negb String.eqb].
  assert (str_empty (if str_empty (env f) then name else env f) = false) as ->.
  { destruct (str_empty (env f)) eqn:E; [|done]. by apply String.eqb_neq. }
  unfold source. fold (variable w name f). destruct (str_empty (variable w name f)); cbn [negb]; [|by exists w].
  destruct (from_stdin f); [|by exists w].
  destruct (readSecret_line label w) as (w1 & Hc & Hi & Hn & Hr). exists w1. split_and!; [done|done|done|].
  rewrite (bind_Ok _ _ _ _ _ Hr). unfold missing_secret. cbn [Missing].
  by destruct (TrimLineEnd _).
Qed.

(** What a change does with the current PIN and, after it, the new one. *)
Definition change_sends (first : option bytes * list bytes) (second : list bytes → option bytes * list bytes)
    (cur new : SecretFlags) (w : W) : Prop :=
  ∃ w1, reached w1 = reached w ∧
        match first.1, (second first.2).1 with
        | None, _ => newPinChangeCommand deps cur new w = Some (Err ErrPINRequired, w1)
        | Some _, None => newPinChangeCommand deps cur new w = Some (Err ErrNewPINRequired, w1)
        | Some p, Some q => input w1 = (second first.2).2 ∧ newPinChangeCommand deps cur new w =
            bind (ChangePIN (service deps) context target p q) (λ _,
              writeValue Stdout (format (flags deps)) (VDone "changed") (say "PIN changed")) w1
        end.

Lemma change_sources cur new w :
  change_sends (source (variable w "FIDO_PIN" cur) (from_stdin cur) (input w))
    (λ ls, source (variable w "FIDO_NEW_PIN" new) (from_stdin new) ls) cur new w.
Proof.
  unfold change_sends, newPinChangeCommand.
  destruct (Resolve_source cur "FIDO_PIN" ErrPINRequired "current pin" w) as (w1 & Hc & Hi & Hn & Hr); [done|].
  unfold current_pin_request. destruct (source (variable w "FIDO_PIN" cur) _ _) as [[p|] ls]; cbn [fst snd] in *.
  2: { exists w1. by rewrite (bind_Err _ _ _ _ _ Hr). }
  rewrite (bind_Ok _ _ _ _ _ Hr).
  destruct (Resolve_source new "FIDO_NEW_PIN" ErrNewPINRequired "new pin" w1)
    as (w2 & Hc2 & Hi2 & _ & Hr2); [done|].
  assert (Hv : variable w1 "FIDO_NEW_PIN" new = variable w "FIDO_NEW_PIN" new) by (unfold variable; by rewrite Hn).
  rewrite Hv, Hi in Hi2, Hr2. unfold new_pin_request.
  destruct (source (variable w "FIDO_NEW_PIN" new) _ _) as [[q|] ls2]; cbn [fst snd] in *; exists w2;
    (split; [congruence|]).
  - split; [done|]. by rewrite (bind_Ok _ _ _ _ _ Hr2).
  - by rewrite (bind_Err _ _ _ _ _ Hr2).
Qed.

(** C38: which PINs a change sends. With the input redirected from a file, each
    of the two PINs is the value of its environment variable when there is a
    non-empty one, or else, when its flag asks for it, the next line of the
    input without its end; a PIN that is missing ends the command before the
    service is reached, and both go to the service as they are. As a consequence,
    with FIDO_PIN set, "pin change" with both stdin flags does not read the
    current PIN from the input as the flag says, and takes the first line - the
    current PIN of the user - for the new one. *)
Theorem pin_change_secrets (cur new : SecretFlags) (w : W) :
  change_sends (source (variable w "FIDO_PIN" cur) (from_stdin cur) (input w))
    (λ ls, source (variable w "FIDO_NEW_PIN" new) (from_stdin new) ls) cur new w ∧
  (∀ value line rest,
   LookupEnv "FIDO_PIN" w = Some value → value ≠ "" → LookupEnv "FIDO_NEW_PIN" w = None →
   input w = line :: rest → TrimLineEnd line ≠ [] → ∃ w1, reached w1 = reached w ∧
   newPinChangeCommand deps (MkSecretFlags "" true) (MkSecretFlags "" true) w =
     bind (ChangePIN (service deps) context target (bytes_of_string value) (TrimLineEnd line)) (λ _,
       writeValue Stdout (format (flags deps)) (VDone "changed") (say "PIN changed")) w1).
Proof.
  split; [apply change_sources|]. intros value line rest Hv Hne Hnone Hin Hline.
  pose proof (change_sources (MkSecretFlags "" true) (MkSecretFlags "" true) w) as H.
  unfold change_sends, source, variable in H. cbn in H.
  rewrite Hv, Hnone, Hin in H. cbn in H. apply String.eqb_neq in Hne. unfold str_empty in H. rewrite Hne in H.
  cbn in H. destruct H as (w1 & Hc & H). exists w1. split; [done|].
  destruct (TrimLineEnd line) as [|b l]; [done|]. by destruct H.
Qed.
End Commands.

(** *** The exit status *)
Section Status.
Context {S Any W : Type} `{!Service S W Any} `{!Console W Any} {print : GoFmt.PrintTable} `{!ErrorText}.

Definition not_found (e : goerror) : Prop := is_Some (As CliApp.as_not_found e).
Definition mentions_ctap (e : goerror) : Prop := Contains (ToLower (Error e)) "ctap" = true.
Definition input_missing (e : goerror) : Prop :=
  Is e "client.ErrPINRequired" = true ∨ Is e "client.ErrNewPINRequired" = true ∨
  Is e errResetConfirmationRequired = true.

Lemma classifyError_cases e :
  1 <= classifyError e <= 5 ∧
  (classifyError e = 3 ↔ not_found e) ∧
  (classifyError e = 4 ↔ ¬ not_found e ∧ is_deadline e = true) ∧
  (classifyError e = 5 ↔ ¬ not_found e ∧ is_deadline e = false ∧ mentions_ctap e) ∧
  (classifyError e = 2 ↔ ¬ not_found e ∧ is_deadline e = false ∧ ¬ mentions_ctap e ∧ input_missing e).
Proof.
  unfold classifyError, not_found, mentions_ctap, input_missing, exitDeviceError, exitTimeout, exitProtocol,
    exitUsageError, exitGeneralError.
  destruct (As CliApp.as_not_found e) as [[]|].
  { assert (is_Some (Some ())) by (by eexists). split_and!; try lia; intuition congruence. }
  assert (¬ is_Some (@None ())) by (by intros [? ?]).
  destruct (is_deadline e); [split_and!; try lia; intuition congruence|].
  destruct (Contains _ _); [split_and!; try lia; intuition congruence|].
  destruct (Is e "client.ErrPINRequired"), (Is e "client.ErrNewPINRequired"), (Is e errResetConfirmationRequired);
    simpl; split_and!; try lia; intuition congruence.
Qed.

(** A format for which the command has no output. *)
Definition unsupported (format : string) (command : Command) : Prop :=
  format ≠ "human" ∧ format ≠ "json" ∧ match command with RawCommand _ => format ≠ "raw" | _ => True end.

Definition fails {A} (m : M W A) : Prop := ∀ w r w', m w = Some (r, w') → ∃ e, r = Err e.

Lemma fails_bind {A B} (m : M W A) (k : A → M W B) : (∀ a, fails (k a)) → fails (bind m k).
Proof. intros Hk w r w' [(a & w1 & _ & Ha)|(e & _ & ->)]%bind_inv; [by eapply Hk|by eexists]. Qed.

Lemma writeValue_unsupported writer format value (human : stream → M W ()) w : format ≠ "human" → format ≠ "json" →
  writeValue (Any:=Any) writer format value human w = Some (Err (EMsg ("unsupported format " ++ GoFmt.Quote format)), w).
Proof. intros Hh Hj. unfold writeValue. apply String.eqb_neq in Hh as ->. by apply String.eqb_neq in Hj as ->. Qed.

Lemma fails_writeValue writer format value (human : stream → M W ()) : format ≠ "human" → format ≠ "json" →
  fails (writeValue (Any:=Any) writer format value human).
Proof. intros ?? w r w'. rewrite writeValue_unsupported by done. intros [= <- _]. by eexists. Qed.

Lemma RunE_unsupported (deps : cliDependencies S) command :
  unsupported (format (flags deps)) command → fails (RunE deps command).
Proof.
  intros (Hh & Hj & Hraw).
  assert (Hw : ∀ writer value human, fails (writeValue (Any:=Any) (W:=W) writer (format (flags deps)) value human)).
  { intros. by apply fails_writeValue. }
  destruct command; cbn [RunE]; try (repeat (apply fails_bind; intros ?); apply Hw).
  - intros w r w'. unfold newDevicesCommand. destruct (ListDevices _ _ w) as [[[ds [e|]] w1]|]; [|apply Hw|done].
    destruct (_ =? 0); [intros [= <- _]; by eexists|apply Hw].
  - do 2 (apply fails_bind; intros ?). unfold writeRawValue. apply String.eqb_neq in Hraw as ->. apply Hw.
Qed.

(** C36: the exit status tells what happened. When the service could be made,
    fidoctl exits with 0 exactly when its command succeeded, and otherwise with
    a status from 1 to 5 that the error determines: a device that was not
    found, then the deadline, then a text that mentions CTAP in any case, then
    a PIN or a confirmation that is missing, then everything else; and the
    report of that error, in the format of the command, is written to the
    standard error stream. A format the command does not support never gives
    status 0, but it is noticed only when the result is to be printed: a
    confirmed reset, a PIN that is set and a PIN that is changed have taken
    effect by then - the command ends in the world the service left - and the
    command reports failure. *)
Theorem command_status (service : S) (version : string) (fl : globalFlags) (command : Command) (w w' : W)
    (code : Z) (Hrun : main (Ok service) version fl command w = Some (code, w')) :
  (∃ r w1, Execute (MkDeps service version fl) command w = Some (r, w1) ∧
   match r with
   | Ok _ => code = 0 ∧ w' = w1
   | Err e =>
       1 <= code <= 5 ∧ (code = 3 ↔ not_found e) ∧ (code = 4 ↔ ¬ not_found e ∧ is_deadline e = true) ∧
       (code = 5 ↔ ¬ not_found e ∧ is_deadline e = false ∧ mentions_ctap e) ∧
       (code = 2 ↔ ¬ not_found e ∧ is_deadline e = false ∧ ¬ mentions_ctap e ∧ input_missing e) ∧
       ∃ err w2, (err = None → w' = w2) ∧
         Write OsStderr (if String.eqb (format (apply_json fl)) "json"
                         then Json (VError (Error e) code (errorKind code))
                         else Text ("Error: " ++ Error e ++ line_end)) w1 = (err, w2)
   end) ∧
  (unsupported (format (apply_json fl)) command → code ≠ 0) ∧
  (∀ deps : cliDependencies S,
     format (flags deps) ≠ "human" → format (flags deps) ≠ "json" →
     let context := withTimeout (timeout (flags deps)) in
     let failed := Err (EMsg ("unsupported format " ++ GoFmt.Quote (format (flags deps)))) in
     (∀ force v v1 w1,
        confirmReset (negb (noInteractive (flags deps))) force v = Some (Ok (), v1) →
        Reset (Commands.service deps) context (deviceID (flags deps)) v1 = Some (Ok (), w1) →
        RunE deps (ResetCommand force) v = Some (failed, w1)) ∧
     (∀ new pin v v1 w1, Resolve (new_pin_request new) v = Some (Ok pin, v1) →
        SetPIN (Commands.service deps) context (deviceID (flags deps)) pin v1 = Some (Ok (), w1) →
        RunE deps (PinSetCommand new) v = Some (failed, w1)) ∧
     (∀ cur new old pin v v1 v2 w1, Resolve (current_pin_request cur) v = Some (Ok old, v1) →
        Resolve (new_pin_request new) v1 = Some (Ok pin, v2) →
        ChangePIN (Commands.service deps) context (deviceID (flags deps)) old pin v2 = Some (Ok (), w1) →
        RunE deps (PinChangeCommand cur new) v = Some (failed, w1))).
Proof.
  assert (Hr : ∃ r w1, Execute (MkDeps service version fl) command w = Some (r, w1) ∧
   match r with
   | Ok _ => code = 0 ∧ w' = w1
   | Err e => code = classifyError e ∧ ∃ err w2, (err = None → w' = w2) ∧
         Write OsStderr (if String.eqb (format (apply_json fl)) "json"
                         then Json (VError (Error e) code (errorKind code))
                         else Text ("Error: " ++ Error e ++ line_end)) w1 = (err, w2)
   end).
  { unfold main in Hrun. destruct (Execute _ _ w) as [[[[]|e] w1]|]; [by exists (Ok ()), w1; simplify_eq| |done].
    exists (Err e), w1. split; [done|]. unfold writeCommandError, write, call_err in Hrun.
    destruct (String.eqb (format (apply_json fl)) "json");
      (destruct (Write OsStderr _ w1) as [[err|] w2] eqn:Ew; injection Hrun as <- <-; (split; [done|]);
       eexists _, _; (split; [|exact Ew || reflexivity]); done). }
  split; [|split].
  - destruct Hr as (r & w1 & Hx & Hr). exists r, w1. split; [done|]. destruct r as [u|e]; [done|].
    destruct Hr as (-> & Hwrite). destruct (classifyError_cases e) as (H1 & H2 & H3 & H4 & H5).
    exact (conj H1 (conj H2 (conj H3 (conj H4 (conj H5 Hwrite))))).
  - intros Hu. destruct Hr as ([[]|e] & w1 & Hx & Hr).
    + unfold Execute, PersistentPreRunE in Hx. apply bind_inv in Hx as [(d & w2 & Hd & Hx)|(? & _ & ?)]; [|done].
      injection Hd as Hd _. apply rbind_Ok in Hd as (s & _ & Hd). injection Hd as <-.
      apply RunE_unsupported in Hx; [by destruct Hx|done].
    + destruct Hr as (-> & _). pose proof (classifyError_cases e). lia.
  - intros deps Hh Hj context failed. cbn [RunE]. split_and!.
    + intros force v v1 w1 Hconfirm Hreset. unfold newResetCommand. run_ok Hconfirm. run_ok Hreset.
      by apply writeValue_unsupported.
    + intros new pin v v1 w1 Hpin Hset. unfold newPinSetCommand. run_ok Hpin. run_ok Hset.
      by apply writeValue_unsupported.
    + intros cur new old pin v v1 v2 w1 Hcur Hnew Hchange. unfold newPinChangeCommand. run_ok Hcur.
      run_ok Hnew. run_ok Hchange. by apply writeValue_unsupported.
Qed.
End Status.
End CommandProps.
