(* ===== verification/CliCommandSim.v ===== *)
(** * fidoctl at the desk

    The commands run over App on the desk of CliSim, and over a service that
    notes the PINs it is asked to set and to change, with a standard input of lines. *)
From S2P Require Import Prelude GoErrors GoText GoEncoding GoIO Descriptors Ctap1 Ctap2 PinProtocol Manager.
From S2P Require Import ManagerSim ClientCore ClientFlows Locator CliApp CliSim CliService GoFmt CliCommands.
From S2P Require Import CliCommandProps.

Module CliCommandSim.
Import Sim CliSim Commands CommandProps.
#[local] Existing Instance desk_random.
#[local] Existing Instance desk_x509.
#[local] Existing Instance desk_cbor.
#[local] Existing Instance desk_terminal.
#[local] Open Scope string_scope.
#[local] Open Scope Z_scope.

(** No character beyond Latin-1 is printed here. *)
#[local] Instance desk_print : GoFmt.PrintTable := λ _, false.

Lemma decodeBinary_roundtrip_witness :
  Flags.decodeBinary (Hex.EncodeToString [0; 255; 16]) = Ok [0; 255; 16] ∧
  Base64.Encode true [105; 183; 29] = "abcd" ∧ Flags.decodeBinary "abcd" = Ok [171; 205].
Proof.
  assert (H1 : bytes_ok [0; 255; 16]) by (repeat (apply Forall_cons_2; [unfold byte_ok; lia|]); apply Forall_nil_2).
  assert (H2 : bytes_ok [105; 183; 29]) by (repeat (apply Forall_cons_2; [unfold byte_ok; lia|]); apply Forall_nil_2).
  split; [exact (proj1 (FlagProps.decodeBinary_roundtrip _ H1))|]. split; [reflexivity|].
  destruct (FlagProps.decodeBinary_roundtrip _ H2) as (_ & H & _). specialize (H true). exact H.
Defined.

(** ** The desk *)
#[local] Instance desk_console : Console desk () := {|
  LookupEnv _ _ := None;
  IsTerminal _ := false;
  ReadPassword w := (Ok [], w);
  ReadLine w := ((bytes_of_string "RESET" ++ [10], None), w)%list;
  Write _ _ w := (None, w);
|}.
#[local] Instance desk_text : ErrorText := λ e, match e with EMsg m | EFmt m _ => m | _ => "error" end.

Definition recorder : ClientCore.Trace.TraceRecorder desk :=
  ClientCore.Trace.MkRecorder (λ _, []) (λ _, []) (λ _ w, w) (λ _ w, w).
#[local] Instance desk_service : Service (CliApp.App desk) desk () := app_service (λ _, Ok desk_locator) recorder 4.

#[local] Instance desk_laws : ConsoleLaws (Any:=()) resets.
Proof. by constructor. Qed.

Definition xml : globalFlags := MkGlobalFlags "" false 30000 "xml" false false false false.
Definition deps : cliDependencies (CliApp.App desk) := MkDeps app "dev" xml.

(** Typing RESET lets the reset through to the keys. *)
Lemma reset_confirmed_witness :
  ∃ w1, confirmed deps false start w1 ∧
    newResetCommand deps false start = Some (Err (EMsg ("unsupported format " ++ GoFmt.Quote "xml")),
      both_reset).
Proof.
  destruct (reset_confirmed deps resets false start desk_laws) as [(w1 & Hc & H)|(e & w1 & H & _ & Hw)].
  - exists w1. split; [exact Hc|]. vm_compute. reflexivity.
  - exfalso. vm_compute in H. injection H as _ H. subst w1. vm_compute in Hw. discriminate Hw.
Defined.

(** ** A service that notes the PINs set and changed *)
Record room := MkRoom { typed : list bytes; fido_pin : option string; changes : list (bytes * bytes) }.

Definition no_service {A} : M room A := throw (EMsg "no authenticator").
#[local] Instance room_service : Service () room () := {|
  ListDevices _ _ w := Some (([], None), w);
  Info _ _ _ := no_service;
  Raw _ _ _ := no_service;
  Trace _ _ _ := no_service;
  PINRetries _ _ _ := no_service;
  SetPIN _ _ _ p w := Some (Ok (), MkRoom (typed w) (fido_pin w) (changes w ++ [([], p)])%list);
  ChangePIN _ _ _ p q w := Some (Ok (), MkRoom (typed w) (fido_pin w) (changes w ++ [(p, q)])%list);
  Register _ _ _ _ := no_service;
  Authenticate _ _ _ _ := no_service;
  Reset _ _ _ := no_service;
  ListCredentials _ _ _ _ := no_service;
  transportPreferenceConfigurer := None;
  interactionConfigurer := None;
|}.
#[local] Instance room_console : Console room () := {|
  LookupEnv name w := if String.eqb name "FIDO_PIN" then fido_pin w else None;
  IsTerminal _ := false;
  ReadPassword w := (Ok [], w);
  ReadLine w :=
    match typed w with
    | l :: ls => ((l ++ [10], None), MkRoom ls (fido_pin w) (changes w))%list
    | [] => (([], Some (ESent Secrets.EOF)), w)
    end;
  Write _ _ w := (None, w);
|}.

Definition requests (w : room) : nat := length (changes w).
#[local] Instance room_laws : ConsoleLaws (Any:=()) requests.
Proof. constructor; [done|]. intros w. simpl. by destruct (typed w). Qed.
#[local] Instance room_lines : LineConsole (Any:=()) typed.
Proof.
  constructor; [done|]. intros w. exists (MkRoom (tail (typed w)) (fido_pin w) (changes w)).
  split; [done|]. split; [done|]. simpl. destruct w as [[|l ls] p c]; done.
Qed.

Definition old : bytes := bytes_of_string "1234".
Definition fresh : bytes := bytes_of_string "9876".
Definition human : globalFlags := MkGlobalFlags "" false 30000 "human" false false false false.
Definition room_deps : cliDependencies () := MkDeps () "dev" human.
Definition stdin : SecretFlags := MkSecretFlags "" true.

(** A format that does not exist gives status 1, after the reset, the new PIN
    or the change of PIN. *)
Definition room_xml : cliDependencies () := MkDeps () "dev" xml.
Definition no_xml : res () := Err (EMsg ("unsupported format " ++ GoFmt.Quote "xml")).

Lemma command_status_witness :
  (main (Ok app) "dev" xml (ResetCommand true) start = Some (1, both_reset) ∧ 1 ≠ 0) ∧
  (main (Ok ()) "dev" xml (PinSetCommand stdin) (MkRoom [fresh] None []) =
     Some (1, MkRoom [] None [([], fresh)]) ∧
   RunE room_xml (PinSetCommand stdin) (MkRoom [fresh] None []) =
     Some (no_xml, MkRoom [] None [([], fresh)]) ∧
   RunE room_xml (PinChangeCommand stdin stdin) (MkRoom [old; fresh] None []) =
     Some (no_xml, MkRoom [] None [(old, fresh)])).
Proof.
  assert (H : main (Ok app) "dev" xml (ResetCommand true) start = Some (1, both_reset))
    by (vm_compute; reflexivity).
  assert (H2 : main (Ok ()) "dev" xml (PinSetCommand stdin) (MkRoom [fresh] None []) =
     Some (1, MkRoom [] None [([], fresh)])) by (vm_compute; reflexivity).
  split; [split; [exact H|]|split; [exact H2|]].
  - destruct (command_status app "dev" xml (ResetCommand true) start _ 1 H) as (_ & Hf & _). by apply Hf.
  - destruct (command_status () "dev" xml (PinSetCommand stdin) (MkRoom [fresh] None []) _ 1 H2)
      as (_ & _ & Hp).
    destruct (Hp room_xml) as (_ & Hset & Hchange); [discriminate|discriminate|]. split.
    + exact (Hset stdin fresh (MkRoom [fresh] None []) (MkRoom [] None []) _ eq_refl eq_refl).
    + exact (Hchange stdin stdin old fresh (MkRoom [old; fresh] None []) (MkRoom [fresh] None [])
        (MkRoom [] None []) _ eq_refl eq_refl eq_refl).
Defined.

(** With FIDO_PIN set, the old PIN that the user types becomes the new PIN. *)
Lemma pin_change_secrets_witness :
  newPinChangeCommand room_deps stdin stdin (MkRoom [old; fresh] None []) =
    Some (Ok (), MkRoom [] None [(old, fresh)]) ∧
  newPinChangeCommand room_deps stdin stdin (MkRoom [old; fresh] (Some "1234") []) =
    Some (Ok (), MkRoom [fresh] (Some "1234") [(old, old)]).
Proof.
  split.
  - destruct (pin_change_secrets room_deps requests typed stdin stdin (MkRoom [old; fresh] None []))
      as ((w1 & Hw & H) & _).
    vm_compute. reflexivity.
  - destruct (pin_change_secrets room_deps requests typed stdin stdin (MkRoom [old; fresh] (Some "1234") []))
      as (_ & H).
    destruct (H "1234" old [fresh]) as (w1 & _ & _); [reflexivity|discriminate|reflexivity|reflexivity|discriminate|].
    vm_compute. reflexivity.
Defined.
End CliCommandSim.
