(* ===== verification/CliTree.v ===== *)
(** * The command tree of fidoctl: newRootCommand and the constructors under it

    What the constructors hand to cobra: the commands with their names and
    aliases, the flags of each with their defaults, and what its RunE makes of
    the values.  Cobra finds the command and reads the values, which are data
    here; flags that are not given have their defaults.  Durations are in
    milliseconds. *)
From S2P Require Import Prelude GoErrors GoText GoFmt CliService CliCommands.

Module CliTree.
Import Commands.
#[local] Open Scope string_scope.
#[local] Open Scope list_scope.
#[local] Open Scope Z_scope.

(** ** Flags *)
Inductive flag_default := StringFlag (value : string) | BoolFlag (value : bool) | DurationFlag (value : Z).
Record Flag := MkFlag { name : string; value : flag_default; usage : string }.

Definition StringVar (name value usage : string) : Flag := MkFlag name (StringFlag value) usage.
Definition BoolVar (name : string) (value : bool) (usage : string) : Flag := MkFlag name (BoolFlag value) usage.
Definition DurationVar (name : string) (value : Z) (usage : string) : Flag := MkFlag name (DurationFlag value) usage.

(** The values given on a command line, by the names of the flags. *)
Record Values := MkValues {
  given_string : string → option string; given_bool : string → option bool; given_duration : string → option Z;
}.
Definition no_values : Values := MkValues (λ _, None) (λ _, None) (λ _, None).

Definition declared (flags : list Flag) (n : string) : option flag_default :=
  value <$> List.find (λ f, String.eqb (name f) n) flags.
Definition string_of (flags : list Flag) (n : string) (v : Values) : string :=
  match declared flags n with Some (StringFlag d) => default d (given_string v n) | _ => "" end.
Definition bool_of (flags : list Flag) (n : string) (v : Values) : bool :=
  match declared flags n with Some (BoolFlag d) => default d (given_bool v n) | _ => false end.
Definition duration_of (flags : list Flag) (n : string) (v : Values) : Z :=
  match declared flags n with Some (DurationFlag d) => default d (given_duration v n) | _ => 0 end.

(** ** Commands *)
Inductive CobraCommand := MkCobra {
  Use : string; Aliases : list string; Short : string; Flags : list Flag;
  Run : option (Values → Command); Subcommands : list CobraCommand;
}.

(** *** raw.go *)
Definition protocol_flags : list Flag :=
  [StringVar "protocol" "ctap2" "Protocol family: ctap1 or ctap2";
   StringVar "command" "" "Command byte in decimal or hex"; StringVar "payload" "" "Hex or base64 payload"].
Definition raw_flags (flags : list Flag) (v : Values) : RawFlags :=
  MkRawFlags (string_of flags "protocol" v) (string_of flags "command" v) (string_of flags "payload" v).
Definition raw : CobraCommand :=
  MkCobra "raw" [] "Send a raw CTAP command" protocol_flags (Some (λ v, RawCommand (raw_flags protocol_flags v))) [].
Definition trace_flags : list Flag :=
  protocol_flags ++ [BoolVar "unsafe-include-secrets" false "Include sensitive raw payloads in trace output"].
Definition trace : CobraCommand :=
  MkCobra "trace" [] "Send a raw CTAP command with payload tracing" trace_flags
    (Some (λ v, TraceCommand (raw_flags trace_flags v) (bool_of trace_flags "unsafe-include-secrets" v))) [].

(** *** pin.go and credentials.go *)
Definition secret_flags (env_name stdin_name : string) (flags : list Flag) (v : Values) : SecretFlags :=
  MkSecretFlags (string_of flags env_name v) (bool_of flags stdin_name v).
Definition new_pin_flags : list Flag :=
  [StringVar "new-pin-env" "" "Read the new PIN from the specified environment variable";
   BoolVar "new-pin-stdin" false "Read the new PIN from stdin"].
Definition pin_change_flags : list Flag :=
  [StringVar "old-pin-env" "" "Read the current PIN from the specified environment variable";
   BoolVar "old-pin-stdin" false "Read the current PIN from stdin"] ++ new_pin_flags.
Definition pin_retries : CobraCommand :=
  MkCobra "retries" [] "Show remaining PIN retries" [] (Some (λ _, PinRetriesCommand)) [].
Definition pin_set : CobraCommand :=
  MkCobra "set" [] "Set the authenticator PIN" new_pin_flags
    (Some (λ v, PinSetCommand (secret_flags "new-pin-env" "new-pin-stdin" new_pin_flags v))) [].
Definition pin_change : CobraCommand :=
  MkCobra "change" [] "Change the authenticator PIN" pin_change_flags
    (Some (λ v, PinChangeCommand (secret_flags "old-pin-env" "old-pin-stdin" pin_change_flags v)
                                 (secret_flags "new-pin-env" "new-pin-stdin" pin_change_flags v))) [].
Definition pin : CobraCommand :=
  MkCobra "pin" [] "Manage the authenticator PIN" [] None [pin_retries; pin_set; pin_change].

Definition pin_flags : list Flag :=
  [StringVar "pin-env" "" "Read the PIN from the specified environment variable";
   BoolVar "pin-stdin" false "Read the PIN from stdin"].
Definition credentials_list : CobraCommand :=
  MkCobra "list" [] "List discoverable credentials" pin_flags
    (Some (λ v, CredentialsListCommand (secret_flags "pin-env" "pin-stdin" pin_flags v))) [].
Definition credentials : CobraCommand :=
  MkCobra "credentials" ["creds"] "Manage discoverable credentials" [] None [credentials_list].

(** *** register.go *)
Definition register_flags : list Flag :=
  [StringVar "challenge" "" "Challenge hash in hex or base64"; StringVar "rp-id" "" "Relying party identifier";
   StringVar "rp-name" "" "Relying party display name"; StringVar "user-id" "" "User identifier in hex or base64";
   StringVar "user-name" "" "User name"; StringVar "user-display-name" "" "User display name";
   StringVar "app-id-hash" "" "CTAP1 app id hash in hex or base64"].
Definition register : CobraCommand :=
  MkCobra "register" [] "Run a basic registration flow" register_flags
    (Some (λ v, let s n := string_of register_flags n v in
                RegisterCommand (MkRegisterFlags (s "challenge") (s "rp-id") (s "rp-name") (s "user-id")
                                   (s "user-name") (s "user-display-name") (s "app-id-hash")))) [].
Definition authenticate_flags : list Flag :=
  [StringVar "challenge" "" "Challenge hash in hex or base64"; StringVar "rp-id" "" "Relying party identifier";
   StringVar "app-id-hash" "" "CTAP1 app id hash in hex or base64";
   StringVar "key-handle" "" "CTAP1 key handle in hex or base64"].
Definition authenticate : CobraCommand :=
  MkCobra "authenticate" [] "Run a basic authentication flow" authenticate_flags
    (Some (λ v, let s n := string_of authenticate_flags n v in
                AuthenticateCommand (MkAuthenticateFlags (s "challenge") (s "rp-id") (s "app-id-hash") (s "key-handle")))) [].

(** *** reset.go *)
Definition reset_flags : list Flag := [BoolVar "yes" false "Skip the reset confirmation prompt"].
Definition reset : CobraCommand :=
  MkCobra "reset" [] "Reset a CTAP2 authenticator" reset_flags (Some (λ v, ResetCommand (bool_of reset_flags "yes" v))) [].

(** *** root.go *)
Definition devices : CobraCommand :=
  MkCobra "devices" ["list"] "List discovered authenticators" [] (Some (λ _, DevicesCommand)) [].
Definition info : CobraCommand :=
  MkCobra "info" [] "Show capabilities for one authenticator" [] (Some (λ _, InfoCommand)) [].
Definition version : CobraCommand := MkCobra "version" [] "Print CLI version" [] (Some (λ _, VersionCommand)) [].

Definition persistent_flags : list Flag :=
  [StringVar "device-id" "" "Select a specific device; defaults to the first discovered authenticator";
   BoolVar "nfc" false "Enable NFC/PCSC discovery in addition to USB HID";
   DurationVar "timeout" 30000 "Command timeout"; StringVar "format" "human" "Output format: human, json, raw";
   BoolVar "json" false "Emit JSON to stdout"; BoolVar "verbose" false "Enable verbose output";
   BoolVar "debug" false "Enable debug output"; BoolVar "no-interactive" false "Disable interactive prompts"].
Definition global_flags (v : Values) : globalFlags :=
  MkGlobalFlags (string_of persistent_flags "device-id" v) (bool_of persistent_flags "nfc" v)
    (duration_of persistent_flags "timeout" v) (string_of persistent_flags "format" v)
    (bool_of persistent_flags "json" v) (bool_of persistent_flags "verbose" v)
    (bool_of persistent_flags "debug" v) (bool_of persistent_flags "no-interactive" v).

(** Its own RunE prints the help, as groups do. *)
Definition newRootCommand : CobraCommand :=
  MkCobra "fidoctl" [] "FIDO authenticator command-line interface" [] None
    [devices; info; raw; trace; pin; register; authenticate; reset; credentials; version].

(** The commands under a command, with the words that lead to them. *)
Fixpoint reachable (command : CobraCommand) : list (list string * (Values → Command)) :=
  match command with
  | MkCobra use _ _ _ run subcommands =>
      map (λ p, (use :: p.1, p.2)) (match run with Some f => [([], f)] | None => [] end ++ flat_map reachable subcommands)
  end.

(** A run of the tool whose command line leads to a command. *)
Section Main.
Context {S Any W : Type} `{!Service S W Any} `{!Console W Any} {print : GoFmt.PrintTable} `{!ErrorText}.
Definition run_line (made : res S) (build : string) (line : list string) (v : Values) (w : W) : option (Z * W) :=
  match List.find (λ p, bool_decide (p.1 = line)) (reachable newRootCommand) with
  | Some p => main made build (global_flags v) (p.2 v) w
  | None => None
  end.
End Main.

(** ** What cobra and pflag ask of a tree *)
(** [AddFlag] panics on a name that a flag set has; a persistent flag is hidden
    by a flag of the command with its name, and cobra adds the flag help. *)
Definition flags_distinct (flags : list Flag) : bool :=
  bool_decide (NoDup ("help" :: map name (flags ++ persistent_flags))) && forallb (λ f, negb (String.eqb (name f) "")) flags.
Definition names_distinct (subcommands : list CobraCommand) : bool :=
  bool_decide (NoDup ("help" :: "completion" :: flat_map (λ c, Use c :: Aliases c) subcommands)).
Fixpoint well_formed (command : CobraCommand) : bool :=
  match command with
  | MkCobra _ _ _ flags _ subcommands =>
      flags_distinct flags && names_distinct subcommands && forallb well_formed subcommands
  end.

(** ** Theorems *)
Lemma tree_well_formed : well_formed newRootCommand = true.
Proof. vm_compute. reflexivity. Qed.

(** The values under which a command is what a line gives. *)
Definition giving (strings : list (string * string)) (bools : list (string * bool)) : Values :=
  MkValues (λ n, snd <$> List.find (λ p, String.eqb p.1 n) strings) (λ n, snd <$> List.find (λ p, String.eqb p.1 n) bools) (λ _, None).

Definition line_of (c : Command) : list string :=
  match c with
  | DevicesCommand => ["devices"] | InfoCommand => ["info"] | RawCommand _ => ["raw"] | TraceCommand _ _ => ["trace"]
  | PinRetriesCommand => ["pin"; "retries"] | PinSetCommand _ => ["pin"; "set"] | PinChangeCommand _ _ => ["pin"; "change"]
  | RegisterCommand _ => ["register"] | AuthenticateCommand _ => ["authenticate"] | ResetCommand _ => ["reset"]
  | CredentialsListCommand _ => ["credentials"; "list"] | VersionCommand => ["version"]
  end.
Definition values_of (c : Command) : Values :=
  match c with
  | RawCommand (MkRawFlags p c d) => giving [("protocol", p); ("command", c); ("payload", d)] []
  | TraceCommand (MkRawFlags p c d) u =>
      giving [("protocol", p); ("command", c); ("payload", d)] [("unsafe-include-secrets", u)]
  | PinSetCommand (MkSecretFlags e s) => giving [("new-pin-env", e)] [("new-pin-stdin", s)]
  | PinChangeCommand (MkSecretFlags e s) (MkSecretFlags e' s') =>
      giving [("old-pin-env", e); ("new-pin-env", e')] [("old-pin-stdin", s); ("new-pin-stdin", s')]
  | RegisterCommand (MkRegisterFlags a b c d e f g) =>
      giving [("challenge", a); ("rp-id", b); ("rp-name", c); ("user-id", d); ("user-name", e); ("user-display-name", f);
              ("app-id-hash", g)] []
  | AuthenticateCommand (MkAuthenticateFlags a b c d) =>
      giving [("challenge", a); ("rp-id", b); ("app-id-hash", c); ("key-handle", d)] []
  | ResetCommand y => giving [] [("yes", y)]
  | CredentialsListCommand (MkSecretFlags e s) => giving [("pin-env", e)] [("pin-stdin", s)]
  | _ => no_values
  end.

Lemma reachable_line line f v : (line, f) ∈ reachable newRootCommand → line = "fidoctl" :: line_of (f v).
Proof.
  intros H%list_elem_of_In. cbn in H. repeat (destruct H as [H|H]; [by injection H as <- <-|]). done.
Qed.

(** The tree of commands is sound: no flag is declared twice or hides another,
    and no two commands share a name, so that building it does not panic; every
    command with any values of its flags is what a line gives, and only the
    lines of one command give it; and a flag that is not given has its default. *)
Theorem command_lines_exact :
  well_formed newRootCommand = true ∧
  (∀ c, ∃ f, ("fidoctl" :: line_of c, f) ∈ reachable newRootCommand ∧ f (values_of c) = c) ∧
  (∀ line f v line' f' v', (line, f) ∈ reachable newRootCommand → (line', f') ∈ reachable newRootCommand →
     f v = f' v' → line = line') ∧
  (∀ v, (∀ n, given_string v n = None) → (∀ n, given_bool v n = None) → (∀ n, given_duration v n = None) →
     global_flags v = MkGlobalFlags "" false 30000 "human" false false false false ∧
     ∀ f, (["fidoctl"; "raw"], f) ∈ reachable newRootCommand → f v = RawCommand (MkRawFlags "ctap2" "" "")).
Proof.
  split; [exact tree_well_formed|]. split; [|split].
  - intros c. assert (∀ f, f (values_of c) = c → (line_of c, f) ∈ flat_map reachable (Subcommands newRootCommand) →
      ∃ f, ("fidoctl" :: line_of c, f) ∈ reachable newRootCommand ∧ f (values_of c) = c) as Hc.
    { intros f Hf Hin. exists f. split; [|done]. by apply (list_elem_of_fmap_2 (λ p, ("fidoctl" :: p.1, p.2)) _ (line_of c, f)). }
    destruct c as [| |[p c d]|[p c d] u| |[e s]|[e s] [e' s']|[]|[]|y|[e s]|];
      (eapply Hc; [|apply list_elem_of_In; cbn; repeat first [left; reflexivity|right]]; reflexivity).
  - intros line f v line' f' v' H1 H2 E. rewrite (reachable_line _ _ v H1), (reachable_line _ _ v' H2). by rewrite E.
  - intros v Hs Hb Hd. unfold global_flags, string_of, bool_of, duration_of. split.
    + cbn. by rewrite !Hs, !Hb, Hd.
    + intros f Hf%list_elem_of_In. cbn in Hf.
      repeat (destruct Hf as [Hf|Hf]; [first [discriminate Hf|injection Hf as <-; unfold raw_flags, string_of; cbn; by rewrite !Hs]|]). done.
Qed.
End CliTree.
