(* ===== verification/GoHeap.v ===== *)
(** * Memory

    Slices, maps and pointers as references into a store, for the code whose
    point is who shares what with whom: defensive copies and the wiping of
    secrets.  [Value R V] says that data of type [R] in a heap stands for a
    value of type [V], through the locations it reaches; [makes] is what a
    defensive copy promises: that value, in storage of its own. *)
From S2P Require Import Prelude.

Definition loc : Type := positive.

(** An object of the heap may be an array, a map or a structure. *)
Class Stored (A obj : Type) := {
  inject : A → obj;
  project : obj → option A;
  project_inject a : project (inject a) = Some a;
}.

(** [nil], or elements [off], ..., [off + slen - 1] of an array. *)
Record window := MkWindow { array : loc; off : nat; slen : nat }.
Definition slice (A : Type) : Type := option window.
(** [nil], or a map (a structure) of type [A]. *)
Definition mapref (A : Type) : Type := option loc.
Definition ptr (A : Type) : Type := option loc.
(** A slice whose elements hold references. *)
Definition rslice (R : Type) : Type := option window.
#[global] Typeclasses Opaque slice mapref ptr rslice.

Section Heap.
Context {obj : Type}.
#[local] Notation heap := (gmap loc obj).

Definition alloc `{!Stored A obj} (a : A) (h : heap) : loc * heap :=
  let l := fresh (dom h) in (l, <[l := inject a]> h).

Definition deref `{!Stored A obj} (h : heap) (l : loc) : option A := h !! l ≫= project.

(** The elements of a slice, its length, and [append([]A(nil), s...)], which
    is nil when there is nothing to append. *)
Definition elements_of `{!Stored (list A) obj} (h : heap) (s : slice A) : list A :=
  match s with
  | None => []
  | Some w => take (slen w) (drop (off w) (default [] (deref h (array w))))
  end.
Definition slice_of `{!Stored (list A) obj} (l : list A) (h : heap) : slice A * heap :=
  let '(a, h) := alloc l h in (Some (MkWindow a 0 (length l)), h).
Definition append_nil `{!Stored (list A) obj} (s : slice A) (h : heap) : slice A * heap :=
  match elements_of h s with
  | [] => (None, h)
  | l => slice_of l h
  end.

(** [s[i] = v] for every element of the slice. *)
Definition fill `{!Stored (list A) obj} (v : A) (s : slice A) (h : heap) : heap :=
  match s with
  | None => h
  | Some w =>
      match deref h (array w) with
      | None => h
      | Some l => <[array w := inject (list_inserts (off w) (replicate (length (take (slen w) (drop (off w) l))) v) l)]> h
      end
  end.

(** ** What data in the heap stands for *)
Definition agree_on (F : gset loc) (h h' : heap) : Prop := ∀ l, l ∈ F → h' !! l = h !! l.

Class Value (R V : Type) := {
  reach : heap → R → gset loc;
  view : heap → R → V;
  value_local h h' r : agree_on (reach h r) h h' → reach h' r = reach h r ∧ view h' r = view h r;
}.

(** [r] stands for [v] in [h], in the storage [F]. *)
Definition stands `{!Value R V} (h : heap) (r : R) (v : V) (F : gset loc) : Prop :=
  reach h r = F ∧ view h r = v ∧ F ⊆ dom h.

Lemma agree_subseteq F h h' : F ⊆ dom h → h ⊆ h' → agree_on F h h'.
Proof.
  intros HF Hh l Hl. apply HF in Hl. apply elem_of_dom in Hl as [o Ho]. rewrite Ho.
  by eapply lookup_weaken.
Qed.

Lemma stands_agree `{!Value R V} h h' r v F : stands h r v F → agree_on F h h' → F ⊆ dom h' → stands h' r v F.
Proof. intros (<- & <- & HF) Ha Hd. destruct (value_local h h' r Ha) as [E1 E2]. by split_and!; [| |]. Qed.

Lemma stands_mono `{!Value R V} h h' r v F : stands h r v F → h ⊆ h' → stands h' r v F.
Proof.
  intros H Hh. pose proof H as (_ & _ & HF). eapply stands_agree; [done|by apply agree_subseteq|].
  etrans; [exact HF|]. by apply subseteq_dom.
Qed.

(** Storing elsewhere does not matter. *)
Lemma stands_store `{!Value R V} h r v F l o : stands h r v F → l ∉ F → stands (<[l := o]> h) r v F.
Proof.
  intros H Hl. pose proof H as (_ & _ & HF). eapply stands_agree; [done| |rewrite dom_insert; set_solver].
  intros l' Hl'. rewrite lookup_insert_ne; [done|]. set_solver.
Qed.

(** ** Copies *)
Definition makes `{!Value R V} (h0 : heap) (m : heap → R * heap) (v : V) : Prop :=
  ∀ h, h0 ⊆ h → let '(r, h') := m h in h ⊆ h' ∧ ∃ F, stands h' r v F ∧ F ## dom h.

(** A copy that may share the storage [S] with what was there. *)
Definition makes_over `{!Value R V} (S : gset loc) (h0 : heap) (m : heap → R * heap) (v : V) : Prop :=
  ∀ h, h0 ⊆ h → let '(r, h') := m h in h ⊆ h' ∧ ∃ F, stands h' r v F ∧ F ∩ dom h ⊆ S.

Lemma makes_over_empty `{!Value R V} h0 (m : heap → R * heap) v : makes h0 m v ↔ makes_over ∅ h0 m v.
Proof.
  split; intros Hm h Hh; specialize (Hm h Hh); destruct (m h) as [r h']; destruct Hm as (Hh' & F & HF & Hd);
    (split; [done|]; exists F; split; [done|set_solver]).
Qed.

Lemma alloc_spec `{!Stored A obj} (a : A) h l h' : alloc a h = (l, h') →
  (l ∉ dom h) ∧ h ⊆ h' ∧ deref h' l = Some a ∧ dom h' = ({[l]} ∪ dom h).
Proof.
  intros [= <- <-]. pose proof (is_fresh (dom h)) as Hf. split_and!; [done| | |].
  - apply insert_subseteq. by apply not_elem_of_dom.
  - unfold deref. rewrite lookup_insert_eq. apply project_inject.
  - apply dom_insert_L.
Qed.

(** The array of a slice; the object of a pointer. *)
Definition array_cell (s : option window) : gset loc := match s with None => ∅ | Some w => {[array w]} end.
Definition cell (p : option loc) : gset loc := match p with None => ∅ | Some l => {[l]} end.
Definition target `{!Stored A obj} (h : heap) (p : option loc) : option A := p ≫= deref h.

(** *** Slices, whose elements are no references *)
#[global] Program Instance slice_value `{!Stored (list A) obj} : Value (slice A) (list A) := {|
  reach h s := array_cell s;
  view := elements_of;
|}.
Next Obligation.
  intros A ? h h' [w|] Ha; [|done]. split; [done|]. unfold elements_of, deref. by rewrite (Ha (array w)) by set_solver.
Qed.

Lemma makes_slice_of `{!Stored (list A) obj} h0 (l : list A) : makes h0 (slice_of l) l.
Proof.
  intros h _. unfold slice_of. destruct (alloc l h) as [a h'] eqn:E. apply alloc_spec in E as (Hn & Hh & Hd & Hdom).
  split; [done|]. exists {[a]}. split; [|set_solver]. split_and!; [done| |set_solver]. cbn.
  by rewrite Hd, drop_0, firstn_all.
Qed.

Lemma makes_append_nil `{!Stored (list A) obj} h0 (s : slice A) l F : stands h0 s l F → makes h0 (append_nil s) l.
Proof.
  intros Hs h Hh. unfold append_nil. apply (stands_mono _ h) in Hs; [|done]. destruct Hs as (_ & Hv & _).
  cbn in Hv. rewrite Hv. destruct l as [|a l].
  - split; [done|]. exists ∅. by split; [|set_solver].
  - by apply (makes_slice_of h).
Qed.

(** *** Maps without references *)
#[global] Program Instance mapref_value `{Countable K} `{!Stored (gmap K A) obj} : Value (mapref (gmap K A)) (gmap K A) := {|
  reach h m := cell m;
  view h m := default ∅ (target h m);
|}.
Next Obligation.
  intros K A ??? h h' [l|] Ha; [|done]. split; [done|]. unfold target, deref. cbn. by rewrite (Ha l) by set_solver.
Qed.

(** [make] and a copying loop; nil stays nil. *)
Definition copy_map `{Countable K} `{!Stored (gmap K A) obj} (m : mapref (gmap K A)) (h : heap) : mapref (gmap K A) * heap :=
  match m with
  | None => (None, h)
  | Some l => let '(l, h) := alloc (default ∅ (deref h l)) h in (Some l, h)
  end.

Lemma makes_copy_map `{Countable K} `{!Stored (gmap K A) obj} h0 (m : mapref (gmap K A)) v F :
  stands h0 m v F → makes h0 (copy_map m) v.
Proof.
  intros Hs h Hh. apply (stands_mono _ h) in Hs; [|done]. destruct Hs as (_ & Hv & _). cbn in Hv.
  unfold copy_map. destruct m as [l|]; cbn in Hv.
  - rewrite Hv. destruct (alloc v h) as [l' h'] eqn:E. apply alloc_spec in E as (Hn & Hs & Hd & Hdom).
    split; [done|]. exists {[l']}. split; [|set_solver]. split_and!; [done| |set_solver]. cbn. by rewrite Hd.
  - subst v. split; [done|]. exists ∅. by split; [|set_solver].
Qed.

(** *** Structures behind a pointer *)
#[global] Program Instance ptr_value `{!Stored R obj} `{!Value R V} : Value (ptr R) (option V) := {|
  reach h p := cell p ∪ from_option (reach h) ∅ (target h p);
  view h p := view h <$> target h p;
|}.
Next Obligation.
  intros R ? V ? h h' p Ha. cbn beta in *.
  assert (E : target (A:=R) h' p = target h p).
  { destruct p as [l|]; [|done]. unfold target, deref. cbn. by rewrite (Ha l) by (cbn; set_solver). }
  rewrite E. destruct (target h p) as [r|]; [|done].
  destruct (value_local h h' r) as [E1 E2]; [intros l' Hl'; apply Ha; cbn; set_solver|]. cbn. by rewrite E1, E2.
Qed.

Definition new_ptr `{!Stored R obj} (r : R) (h : heap) : ptr R * heap := let '(l, h) := alloc r h in (Some l, h).

Lemma stands_ptr `{!Stored R obj} `{!Value R V} h l (r : R) v F :
  deref h l = Some r → stands h r v F → stands h (Some l : ptr R) (Some v) ({[l]} ∪ F).
Proof.
  intros Hd (<- & <- & HF). split_and!; cbn; [by rewrite Hd|by rewrite Hd|].
  unfold deref in Hd. destruct (h !! l) eqn:E; [|done]. apply elem_of_dom_2 in E. set_solver.
Qed.

(** A structure made last, of parts that were copied before. *)
Lemma stands_new `{!Stored R obj} `{!Value R V} hb h (r : R) v F l h' :
  stands h r v F → F ## dom hb → hb ⊆ h → alloc r h = (l, h') →
  hb ⊆ h' ∧ ∃ G, stands h' (Some l : ptr R) (Some v) G ∧ G ## dom hb.
Proof.
  intros Hr HF Hh E. apply alloc_spec in E as (Hn & Hh' & Hd & Hdom). split; [by etrans|].
  exists ({[l]} ∪ F). split; [by eapply stands_ptr; [done|]; by eapply stands_mono|]. apply subseteq_dom in Hh. set_solver.
Qed.

Lemma makes_ptr `{!Stored R obj} `{!Value R V} h0 (m : heap → R * heap) v :
  makes h0 m v → makes h0 (λ h, let '(r, h) := m h in new_ptr r h) (Some v).
Proof.
  intros Hm h Hh. specialize (Hm h Hh). destruct (m h) as [r h1]. destruct Hm as (Hh1 & F & Hr & HF).
  unfold new_ptr. destruct (alloc r h1) as [l h2] eqn:E. by eapply (stands_new h h1).
Qed.

(** *** Maps of references *)
Section Refs.
Context {K R V : Type} `{Countable K} `{!Value R V}.

#[global] Program Instance gmap_value : Value (gmap K R) (gmap K V) := {|
  reach h m := ⋃ (map (λ kr, reach h kr.2) (map_to_list m));
  view h m := view h <$> m;
|}.
Next Obligation.
  intros h h' m Ha.
  assert (Hk : ∀ k r, m !! k = Some r → reach h' r = reach h r ∧ view h' r = view h r).
  { intros k r Hk. apply value_local. intros l Hl. apply Ha. apply elem_of_union_list.
    exists (reach h r). split; [|done]. apply list_elem_of_fmap. exists (k, r). split; [done|]. by apply elem_of_map_to_list. }
  split.
  - f_equal. apply map_ext_in. intros [k r] Hin%list_elem_of_In%elem_of_map_to_list. by apply (Hk k).
  - apply map_eq. intros k. rewrite !lookup_fmap. destruct (m !! k) as [r|] eqn:E; [|done]. cbn. f_equal. by apply (Hk k).
Qed.

Lemma elem_of_reach (h : heap) (m : gmap K R) l : l ∈ reach h m ↔ ∃ k r, m !! k = Some r ∧ l ∈ reach h r.
Proof.
  cbn. rewrite elem_of_union_list. setoid_rewrite list_elem_of_fmap. split.
  - intros (X & ([k r] & -> & Hkr%elem_of_map_to_list) & Hl). by exists k, r.
  - intros (k & r & Hkr & Hl). exists (reach h r). split; [|done]. exists (k, r). by rewrite elem_of_map_to_list.
Qed.

(** [for k, v := range m { clone[k] = copied(v) }] *)
Definition copy_values {R'} (f : R → heap → R' * heap) (m : gmap K R) (h : heap) : gmap K R' * heap :=
  map_fold (λ k r '(acc, h), let '(r, h) := f r h in (<[k := r]> acc, h)) (∅, h) m.
End Refs.

Lemma makes_copy_values {K} `{Countable K} `{!Value R V} `{!Value R' V} (f : R → heap → R' * heap) h0 (m : gmap K R) v F :
  (∀ r v F, stands h0 r v F → makes h0 (f r) v) → stands h0 m v F → makes h0 (copy_values f m) v.
Proof.
  intros Hf (<- & <- & HF) h Hh.
  assert (Hm : ∀ k r, m !! k = Some r → stands h0 r (view h0 r) (reach h0 r)).
  { intros k r Hk. split_and!; [done..|]. intros l Hl. apply HF. apply elem_of_reach. by exists k, r. }
  clear HF. revert Hm. unfold copy_values.
  apply (map_fold_weak_ind (λ res m, (∀ k r, m !! k = Some r → stands h0 r (view h0 r) (reach h0 r)) →
    let '(acc, h') := res in h ⊆ h' ∧ ∃ F, stands h' acc (view h0 m) F ∧ F ## dom h)).
  - intros _. split; [done|]. exists ∅. split; [|set_solver]. split_and!; cbn; [done|by rewrite !fmap_empty|set_solver].
  - intros k r m' [acc h1] Hk IH Hm. destruct IH as (Hh1 & F & Hacc & HF).
    { intros k' r' Hk'. apply (Hm k'). rewrite lookup_insert_ne; [done|congruence]. }
    pose proof (Hf r _ _ (Hm k r (lookup_insert_eq _ _ _)) h1 ltac:(by etrans)) as Hr.
    destruct (f r h1) as [r' h2]. destruct Hr as (Hh2 & F' & (E1 & E2 & E3) & HF').
    split; [by etrans|]. apply (stands_mono _ h2) in Hacc as (E4 & E5 & E6); [|done].
    assert (Hreach : ∀ l, l ∈ reach h2 (<[k := r']> acc) → l ∈ F' ∨ l ∈ F).
    { intros l (k' & x & Hx & Hl)%elem_of_reach. apply lookup_insert_Some in Hx as [[<- <-]|[_ Hx]].
      - left. by rewrite <-E1.
      - right. rewrite <-E4. apply elem_of_reach. by exists k', x. }
    apply subseteq_dom in Hh1, Hh2. exists (reach h2 (<[k := r']> acc)). split; [split_and!|set_solver].
    + done.
    + cbn. rewrite !fmap_insert, E2. f_equal. exact E5.
    + intros l Hl. apply Hreach in Hl. set_solver.
Qed.

(** *** Sequences of references *)
Section Lists.
Context {R V : Type} `{!Value R V}.

#[global] Program Instance list_value : Value (list R) (list V) := {|
  reach h l := ⋃ (map (reach h) l);
  view h l := map (view h) l;
|}.
Next Obligation.
  intros h h' l Ha.
  assert (Hl : ∀ r, r ∈ l → reach h' r = reach h r ∧ view h' r = view h r).
  { intros r Hr. apply value_local. intros x Hx. apply Ha. apply elem_of_union_list.
    exists (reach h r). split; [|done]. by apply list_elem_of_fmap_2. }
  split; [f_equal|]; apply map_ext_in; intros r Hr%list_elem_of_In; by apply Hl.
Qed.

Lemma stands_nil (h : heap) : stands h [] [] ∅.
Proof. by split_and!. Qed.
Lemma stands_cons (h : heap) r l v vs F Fs : stands h r v F → stands h l vs Fs → stands h (r :: l) (v :: vs) (F ∪ Fs).
Proof. intros (<- & <- & HF) (<- & <- & HFs). split_and!; cbn; [done|done|set_solver]. Qed.

Definition copy_list {R'} (f : R → heap → R' * heap) : list R → heap → list R' * heap :=
  fix go l h :=
    match l with
    | [] => ([], h)
    | r :: l => let '(r, h) := f r h in let '(l, h) := go l h in (r :: l, h)
    end.
End Lists.

Lemma makes_over_copy_list `{!Value R V} `{!Value R' V} (f : R → heap → R' * heap) S h0 l vs F :
  (∀ r v F, r ∈ l → stands h0 r v F → makes_over S h0 (f r) v) → S ⊆ dom h0 → stands h0 l vs F →
  makes_over S h0 (copy_list f l) vs.
Proof.
  intros Hf HS (<- & <- & HF). induction l as [|r l IH]; intros h Hh; cbn [copy_list].
  - split; [done|]. exists ∅. split; [apply stands_nil|set_solver].
  - assert (Hr : stands h0 r (view h0 r) (reach h0 r)) by (split_and!; [done..|]; cbn in HF; set_solver).
    pose proof (Hf r _ _ ltac:(left) Hr h Hh) as Hr'. destruct (f r h) as [r' h1]. destruct Hr' as (Hh1 & F & HF1 & Hd).
    specialize (IH ltac:(intros; eapply Hf; [by right|done]) ltac:(cbn in *; set_solver) h1 ltac:(by etrans)).
    destruct (copy_list f l h1) as [l' h2].
    destruct IH as (Hh2 & F' & HF2 & Hd'). split; [by etrans|]. exists (F ∪ F'). split.
    + apply stands_cons; [by eapply stands_mono|done].
    + apply subseteq_dom in Hh1. set_solver.
Qed.

Lemma makes_copy_list `{!Value R V} `{!Value R' V} (f : R → heap → R' * heap) h0 l vs F :
  (∀ r v F, stands h0 r v F → makes h0 (f r) v) → stands h0 l vs F → makes h0 (copy_list f l) vs.
Proof.
  intros Hf Hl. apply makes_over_empty. eapply makes_over_copy_list; [|set_solver|done].
  intros r v G _ Hr. apply makes_over_empty. by eapply Hf.
Qed.

Definition items_of `{!Stored (list R) obj} (h : heap) (s : rslice R) : list R := @elements_of R _ h s.

#[global] Program Instance rslice_value `{!Stored (list R) obj} `{!Value R V} : Value (rslice R) (list V) := {|
  reach h s := array_cell s ∪ reach h (items_of h s);
  view h s := view h (items_of h s);
|}.
Next Obligation.
  intros R ? V ? h h' s Ha. cbn beta in Ha.
  assert (E : items_of h' s = items_of h s).
  { destruct s as [w|]; [|done]. unfold items_of, elements_of, deref. by rewrite (Ha (array w)) by set_solver. }
  cbn beta. rewrite E. destruct (value_local h h' (items_of h s)) as [E1 E2]; [intros l Hl; apply Ha; set_solver|].
  cbn in *. by rewrite E1, E2.
Qed.

(** [if len(s) != 0 { make; for i, v := range s { result[i] = f(v) } }]; nil
    for an empty slice. *)
Definition convert_slice `{!Stored (list R) obj} `{!Stored (list R') obj} (f : R → heap → R' * heap) (s : rslice R)
    (h : heap) : rslice R' * heap :=
  match items_of h s with
  | [] => (None, h)
  | l => let '(l, h) := copy_list f l h in @slice_of R' _ l h
  end.

(** A slice of what was copied before. *)
Lemma stands_slice `{!Stored (list R) obj} `{!Value R V} S hb h (l : list R) vs F :
  stands h l vs F → F ∩ dom hb ⊆ S → hb ⊆ h →
  let '(s, h') := @slice_of R _ l h in hb ⊆ h' ∧ ∃ G, stands (R:=rslice R) h' s vs G ∧ G ∩ dom hb ⊆ S.
Proof.
  intros Hl HF Hh. unfold slice_of. destruct (alloc l h) as [a h2] eqn:E. apply alloc_spec in E as (Hn & Hh2 & Hda & Hdom).
  split; [by etrans|]. apply (stands_mono _ h2) in Hl as (E1 & E2 & E3); [|done].
  assert (Eit : items_of h2 (Some (MkWindow a 0 (length l)) : rslice R) = l).
  { unfold items_of, elements_of. cbn. by rewrite Hda, drop_0, firstn_all. }
  apply subseteq_dom in Hh. exists ({[a]} ∪ F). split; [split_and!|set_solver].
  - cbn [reach rslice_value]. rewrite Eit. cbn. by rewrite <-E1.
  - cbn [view rslice_value]. by rewrite Eit.
  - rewrite Hdom in E3 |- *. set_solver.
Qed.

Lemma makes_over_convert_slice `{!Stored (list R) obj} `{!Stored (list R') obj} `{!Value R V} `{!Value R' V}
    (f : R → heap → R' * heap) S h0 (s : rslice R) vs F :
  (∀ r v F, r ∈ items_of h0 s → stands h0 r v F → makes_over S h0 (f r) v) → S ⊆ dom h0 → stands h0 s vs F →
  makes_over (R:=rslice R') S h0 (convert_slice f s) vs.
Proof.
  intros Hf HS Hs h Hh. unfold convert_slice.
  assert (Hi : items_of h s = items_of h0 s).
  { pose proof Hs as (<- & _ & HF). destruct s as [w|]; [|done]. unfold items_of, elements_of, deref.
    assert (Hw : array w ∈ dom h0) by (apply HF; cbn; set_solver). apply elem_of_dom in Hw as [o Ho].
    by rewrite Ho, (lookup_weaken _ _ _ _ Ho Hh). }
  rewrite Hi. destruct Hs as (<- & Hv & HF). cbn in Hv.
  destruct (items_of h0 s) as [|r l] eqn:El.
  { subst vs. split; [done|]. exists ∅. by split; [|set_solver]. }
  assert (Hl : stands h0 (r :: l) vs (reach h0 (r :: l))).
  { split_and!; [done|done|]. etrans; [|exact HF]. cbn. rewrite El. set_solver. }
  pose proof (makes_over_copy_list f S h0 (r :: l) vs _ Hf HS Hl h Hh) as Hm.
  destruct (copy_list f (r :: l) h) as [l' h1]. destruct Hm as (Hh1 & F & HF1 & Hd). by apply (stands_slice S h h1 l' vs F).
Qed.

Lemma makes_convert_slice `{!Stored (list R) obj} `{!Stored (list R') obj} `{!Value R V} `{!Value R' V}
    (f : R → heap → R' * heap) h0 (s : rslice R) vs F :
  (∀ r v F, stands h0 r v F → makes h0 (f r) v) → stands h0 s vs F →
  makes (R:=rslice R') h0 (convert_slice f s) vs.
Proof.
  intros Hf Hs. apply (makes_over_empty (R:=rslice R')). eapply makes_over_convert_slice; [|set_solver|done].
  intros r v G _ Hr. apply makes_over_empty. by eapply Hf.
Qed.

(** ** Sequences of copies

    What holds while a structure of [h0] is copied, having started in [hb]
    and come to [hc]. *)
Lemma copy_next `{!Value R V} h0 (m : heap → R * heap) v hb hc : makes h0 m v → h0 ⊆ hc → hb ⊆ hc →
  let '(r, h') := m hc in h0 ⊆ h' ∧ hb ⊆ h' ∧ hc ⊆ h' ∧ ∃ F, stands h' r v F ∧ F ## dom hb.
Proof.
  intros Hm H0 Hb. specialize (Hm hc H0). destruct (m hc) as [r h']. destruct Hm as (Hc & F & HF & Hd).
  split_and!; [by etrans|by etrans|done|]. exists F. split; [done|]. apply subseteq_dom in Hb. set_solver.
Qed.

(** Data in the closure of what stands for something. *)
Lemma stands_part `{!Value R V} h (r : R) : reach h r ⊆ dom h → stands h r (view h r) (reach h r).
Proof. done. Qed.

Lemma makes_nothing `{!Value R V} h0 (r : R) v : stands h0 r v ∅ → makes h0 (λ h, (r, h)) v.
Proof. intros Hr h Hh. split; [done|]. exists ∅. split; [by eapply stands_mono|set_solver]. Qed.

(** ** Data of one owner

    What others know of memory reaches none of the storage of [r]: they may
    allocate, and store whatever they like in what they know. *)
Definition private `{!Value R V} (h : heap) (r : R) (v : V) (known : gset loc) : Prop :=
  ∃ F, stands h r v F ∧ F ## known ∧ known ⊆ dom h.

Lemma private_alloc `{!Value R V} h (r : R) v known l o : l ∉ dom h → private h r v known →
  private (<[l := o]> h) r v ({[l]} ∪ known).
Proof.
  intros Hl (F & HF & Hd & Hk). pose proof HF as (_ & _ & Hr). exists F. rewrite dom_insert_L.
  split_and!; [apply stands_store; [done|set_solver]|set_solver|set_solver].
Qed.

Lemma private_store `{!Value R V} h (r : R) v known l o : l ∈ known → private h r v known →
  private (<[l := o]> h) r v known.
Proof.
  intros Hl (F & HF & Hd & Hk). exists F. rewrite dom_insert_L.
  split_and!; [apply stands_store; [done|set_solver]|done|set_solver].
Qed.

(** A copy may be handed out: it is [v'], and in no storage of [r]. *)
Lemma private_copy `{!Value R V} `{!Value R' V'} h0 h (r : R) v known (m : heap → R' * heap) v' q h' :
  private h r v known → makes h0 m v' → h0 ⊆ h → m h = (q, h') →
  private h' r v (reach h' q ∪ known) ∧ h ⊆ h' ∧
  stands h' q v' (reach h' q) ∧ reach h' q ## known ∧ reach h' q ## reach h' r.
Proof.
  intros (F & HF & Hd & Hk) Hm Hh0 E. specialize (Hm h Hh0). rewrite E in Hm. destruct Hm as (Hh & G & HG & Hfresh).
  pose proof HF as (_ & _ & HFd). pose proof HG as (<- & _ & HGd).
  pose proof (stands_mono h h' r v F HF Hh) as HF'. pose proof HF' as (<- & _ & _). apply subseteq_dom in Hh as Hdom.
  split_and!; [|done|done|set_solver|set_solver]. exists (reach h' r). split_and!; [done|set_solver|set_solver].
Qed.

(** What is made may also be kept, beside [r]. *)
Lemma private_keep `{!Value R V} `{!Value R' V'} h (r : R) v known (m : heap → R' * heap) v' q h' :
  private h r v known → makes h m v' → m h = (q, h') →
  h ⊆ h' ∧ known ⊆ dom h' ∧ view h' r = v ∧ view h' q = v' ∧
  reach h' r ∪ reach h' q ⊆ dom h' ∧ reach h' r ∪ reach h' q ## known.
Proof.
  intros Hp Hm E. pose proof Hp as (_ & _ & _ & Hk). destruct (private_copy h h r v known m v' q h' Hp Hm ltac:(done) E)
    as ((G & HG & Hd & Hk') & Hh & Hq & Hqk & _).
  destruct HG as (<- & Hv & Hr), Hq as (_ & Hq & Hqr). split_and!; [done|set_solver|done|done|set_solver|set_solver].
Qed.

Lemma private_made `{!Value R V} h0 h known (m : heap → R * heap) v q h' :
  makes h0 m v → h0 ⊆ h → known ⊆ dom h → m h = (q, h') → private h' q v known ∧ h ⊆ h'.
Proof.
  intros Hm Hh0 Hk E. specialize (Hm h Hh0). rewrite E in Hm. destruct Hm as (Hh & G & HG & Hfresh).
  split; [|done]. apply subseteq_dom in Hh. exists G. split_and!; [done|set_solver|set_solver].
Qed.

Lemma makes_from `{!Value R V} h0 h1 (m : heap → R * heap) v : makes h0 m v → h0 ⊆ h1 → makes h1 m v.
Proof. intros Hm Hh h Hh1. apply Hm. by etrans. Qed.

(** ** Overwriting *)
Lemma fill_dom `{!Stored (list A) obj} (v : A) s h : dom (fill v s h) = dom h.
Proof.
  unfold fill. destruct s as [w|]; [|done]. destruct (deref h (array w)) eqn:E; [|done].
  rewrite dom_insert_L. unfold deref in E. destruct (h !! array w) eqn:E'; [|done].
  apply elem_of_dom_2 in E'. set_solver.
Qed.

(** The elements are all [v] afterwards, however the slice is aliased. *)
Lemma fill_elements `{!Stored (list A) obj} (v : A) (s : slice A) h :
  elements_of (fill v s h) s = replicate (length (elements_of h s)) v.
Proof.
  unfold fill. destruct s as [w|]; [|done]. cbn [elements_of].
  destruct (deref h (array w)) as [l|] eqn:E; cbn [default]; [|by rewrite E; cbn; rewrite drop_nil, take_nil].
  unfold deref at 1. rewrite lookup_insert_eq. cbn [mbind option_bind]. rewrite project_inject. cbn [default].
  cbn [from_option]. unfold id. apply list_eq. intros i. set (n := length (take (slen w) (drop (off w) l))).
  assert (Hn : n = Nat.min (slen w) (length l - off w)) by (unfold n; by rewrite length_take, length_drop).
  destruct (decide (i < n)%nat) as [Hi|Hi].
  - rewrite lookup_take_lt, lookup_drop by lia.
    rewrite list_lookup_inserts by (rewrite ?length_replicate; lia).
    rewrite lookup_replicate_2 by lia. rewrite lookup_replicate_2; [done|lia].
  - rewrite (lookup_ge_None_2 (replicate n v)) by (rewrite length_replicate; lia). apply lookup_ge_None_2.
    rewrite length_take, length_drop, length_inserts. lia.
Qed.

(** What reaches another array does not notice. *)
Lemma fill_other `{!Stored (list A) obj} `{!Value R V} (v : A) (s : slice A) h r x F :
  stands h r x F → (∀ w, s = Some w → array w ∉ F) → stands (fill v s h) r x F.
Proof.
  intros Hr Hs. unfold fill. destruct s as [w|]; [|done]. destruct (deref h (array w)); [|done].
  apply stands_store; [done|by apply Hs].
Qed.
End Heap.
Notation heap obj := (gmap loc obj).

(** One copy of a sequence, made as [Hm] says; what is copied already stays. *)
Ltac copy_step Hm :=
  lazymatch goal with
  | H0 : ?h0 ⊆ ?hc, Hb : ?hb ⊆ ?hc |- let '(_, _) := (let '(_, _) := ?m ?hc in _) in _ =>
      let X := fresh "X" in let r := fresh "r" in let h' := fresh "h" in let H0' := fresh "H0" in
      let Hb' := fresh "Hb" in let Hc := fresh "Hc" in let F := fresh "F" in let S := fresh "S" in let D := fresh "D" in
      pose proof (copy_next h0 m _ hb hc Hm H0 Hb) as X; destruct (m hc) as [r h'];
      destruct X as (H0' & Hb' & Hc & F & S & D); clear H0 Hb;
      repeat match goal with
             | S' : stands hc _ _ _ |- _ => apply (stands_mono hc h') in S'; [|exact Hc]
             end;
      clear Hc
  end.
