(* ===== verification/Copies.v ===== *)
(** * Defensive copies and secrets: who shares which memory

    The structures of pkg/ctap2 and pkg/client that hold slices, maps and
    pointers, as cells of a heap (GoHeap), with the code that copies them or
    wipes them: the Clone methods, cloneCapabilities and the cache behind it,
    the conversions between the types of the facade and of CTAP2, the trace
    recorder, and secrets.go and authorization.go.  Elsewhere these data are
    immutable values; a cell stands for such a value. *)
From S2P Require Import Prelude GoErrors GoText GoEncoding Descriptors Ctap2 Manager ClientCore GoHeap.
Import Types Messages Trace Capabilities.

(** ** Cells *)
Record COSEKeyCell := MkKeyCell { kc_type : Z; kc_algorithm : Z; kc_curve : Z; kc_X : slice Z; kc_Y : slice Z }.

Record GetInfoCell := MkInfoCell {
  ic_versions : slice string;
  ic_extensions : slice string;
  ic_aaguid : slice Z;
  ic_options : mapref (gmap string bool);
  ic_maxMsgSize : Z;
  ic_pinUVAuthProtocols : slice Z;
  ic_maxCredentialCountInList : Z;
  ic_maxCredentialIDLength : Z;
  ic_transports : slice string;
  ic_algorithms : slice CredentialParameter;
  ic_maxSerializedLargeBlobArray : Z;
  ic_forcePINChange : bool;
  ic_minPINLength : Z;
  ic_firmwareVersion : Z;
  ic_maxCredBlobLength : Z;
  ic_maxRPIDsForSetMinPINLength : Z;
  ic_preferredPlatformUVAttempts : Z;
  ic_uvModality : Z;
  ic_certifications : mapref (gmap string Z);
  ic_remainingDiscoverableCredentials : Z;
  ic_vendorPrototypeConfigCommands : slice Z;
  ic_raw : ptr (gmap Z (slice Z));
}.

(** [CTAP1Capabilities]: a string is immutable. *)
Record CTAP1Cell := MkCTAP1Cell { vc_version : bytes }.
Record CapsCell := MkCapsCell {
  cc_protocols : ProtocolCapabilities;
  cc_authenticator : AuthenticatorCapabilities;
  cc_verification : VerificationCapabilities;
  cc_interaction : InteractionCapabilities;
  cc_rawCTAP1 : ptr CTAP1Cell;
  cc_rawCTAP2 : ptr GetInfoCell;
}.

(** [CredentialDescriptor] of the facade and of CTAP2: their transports are
    strings of two types. *)
Record DescriptorCell := MkDescriptorCell { dc_type : string; dc_id : slice Z; dc_transports : slice string }.
Record UserCell := MkUserCell { uc_id : slice Z; uc_name : string; uc_displayName : string }.
Record DiscoverableCell := MkDiscoverableCell {
  ec_rp : RelyingPartyEntity; ec_rpIDHash : slice Z; ec_user : UserCell; ec_credential : DescriptorCell;
  ec_credProtect : Z; ec_largeBlobKey : slice Z;
}.
Record CredentialListCell := MkListCell { lc_existing : Z; lc_maxRemaining : Z; lc_credentials : rslice DiscoverableCell }.

(** [TraceEvent] and [HIDTraceEvent]. *)
Record EventCell := MkEventCell {
  tc_direction : TraceDirection; tc_payload : slice Z; tc_redacted : bool; tc_command : Z; tc_length : Z;
}.
Record HIDEventCell := MkHIDEventCell {
  hc_direction : TraceDirection; hc_command : Z; hc_payload : slice Z; hc_redacted : bool; hc_length : Z;
}.

(** [Secret] is a slice of bytes. *)
Definition Secret : Type := slice Z.
Record UVAuthorizationCell := MkUVCell { uv_method : string; uv_PIN : Secret }.

(** ** The objects of the heap *)
Inductive object :=
  | OInts (l : list Z)
  | OStrings (l : list string)
  | OParams (l : list CredentialParameter)
  | OFlags (m : gmap string bool)
  | OCounts (m : gmap string Z)
  | ORaw (m : gmap Z (slice Z))
  | OKey (c : COSEKeyCell)
  | OInfo (c : GetInfoCell)
  | OVersion (c : CTAP1Cell)
  | OCaps (c : CapsCell)
  | ODescriptors (l : list DescriptorCell)
  | ODiscoverables (l : list DiscoverableCell)
  | OCredentialList (c : CredentialListCell)
  | OEvents (l : list EventCell)
  | OHIDEvents (l : list HIDEventCell).

#[export] Instance stored_ints : Stored (list Z) object :=
  {| inject := OInts; project o := match o with OInts l => Some l | _ => None end; project_inject a := eq_refl |}.
#[export] Instance stored_strings : Stored (list string) object :=
  {| inject := OStrings; project o := match o with OStrings l => Some l | _ => None end; project_inject a := eq_refl |}.
#[export] Instance stored_params : Stored (list CredentialParameter) object :=
  {| inject := OParams; project o := match o with OParams l => Some l | _ => None end; project_inject a := eq_refl |}.
#[export] Instance stored_flags : Stored (gmap string bool) object :=
  {| inject := OFlags; project o := match o with OFlags m => Some m | _ => None end; project_inject a := eq_refl |}.
#[export] Instance stored_counts : Stored (gmap string Z) object :=
  {| inject := OCounts; project o := match o with OCounts m => Some m | _ => None end; project_inject a := eq_refl |}.
#[export] Instance stored_raw : Stored (gmap Z (slice Z)) object :=
  {| inject := ORaw; project o := match o with ORaw m => Some m | _ => None end; project_inject a := eq_refl |}.
#[export] Instance stored_key : Stored COSEKeyCell object :=
  {| inject := OKey; project o := match o with OKey c => Some c | _ => None end; project_inject a := eq_refl |}.
#[export] Instance stored_info : Stored GetInfoCell object :=
  {| inject := OInfo; project o := match o with OInfo c => Some c | _ => None end; project_inject a := eq_refl |}.
#[export] Instance stored_version : Stored CTAP1Cell object :=
  {| inject := OVersion; project o := match o with OVersion c => Some c | _ => None end; project_inject a := eq_refl |}.
#[export] Instance stored_caps : Stored CapsCell object :=
  {| inject := OCaps; project o := match o with OCaps c => Some c | _ => None end; project_inject a := eq_refl |}.
#[export] Instance stored_descriptors : Stored (list DescriptorCell) object :=
  {| inject := ODescriptors; project o := match o with ODescriptors l => Some l | _ => None end; project_inject a := eq_refl |}.
#[export] Instance stored_discoverables : Stored (list DiscoverableCell) object :=
  {| inject := ODiscoverables; project o := match o with ODiscoverables l => Some l | _ => None end; project_inject a := eq_refl |}.
#[export] Instance stored_list : Stored CredentialListCell object :=
  {| inject := OCredentialList; project o := match o with OCredentialList c => Some c | _ => None end; project_inject a := eq_refl |}.
#[export] Instance stored_events : Stored (list EventCell) object :=
  {| inject := OEvents; project o := match o with OEvents l => Some l | _ => None end; project_inject a := eq_refl |}.
#[export] Instance stored_hid_events : Stored (list HIDEventCell) object :=
  {| inject := OHIDEvents; project o := match o with OHIDEvents l => Some l | _ => None end; project_inject a := eq_refl |}.

(** ** What a cell stands for *)
Ltac local_field h h' f :=
  let E1 := fresh in let E2 := fresh in
  match goal with
  | Ha : agree_on _ h h' |- _ =>
      destruct (value_local h h' f) as [E1 E2];
      [let l := fresh in let Hl := fresh in intros l Hl; apply Ha; set_solver|rewrite ?E1, ?E2; clear E1 E2]
  end.

#[export] Program Instance key_value : Value (obj:=object) COSEKeyCell COSEKey := {|
  reach h c := reach h (kc_X c) ∪ reach h (kc_Y c);
  view h c := MkCOSE (kc_type c) (kc_algorithm c) (kc_curve c) (view h (kc_X c)) (view h (kc_Y c));
|}.
Next Obligation. intros h h' c Ha. cbn beta in *. local_field h h' (kc_X c). by local_field h h' (kc_Y c). Qed.

#[export] Program Instance info_value : Value (obj:=object) GetInfoCell GetInfoResponse := {|
  reach h c := reach h (ic_versions c) ∪ reach h (ic_extensions c) ∪ reach h (ic_aaguid c) ∪ reach h (ic_options c)
    ∪ reach h (ic_pinUVAuthProtocols c) ∪ reach h (ic_transports c) ∪ reach h (ic_algorithms c)
    ∪ reach h (ic_certifications c) ∪ reach h (ic_vendorPrototypeConfigCommands c) ∪ reach h (ic_raw c);
  view h c :=
    MkInfoResponse
      (MkInfo (view h (ic_versions c)) (view h (ic_extensions c)) (view h (ic_aaguid c)) (view h (ic_options c))
         (ic_maxMsgSize c) (view h (ic_pinUVAuthProtocols c)) (ic_maxCredentialCountInList c)
         (ic_maxCredentialIDLength c) (view h (ic_transports c)) (view h (ic_algorithms c))
         (ic_maxSerializedLargeBlobArray c) (ic_forcePINChange c) (ic_minPINLength c) (ic_firmwareVersion c)
         (ic_maxCredBlobLength c) (ic_maxRPIDsForSetMinPINLength c) (ic_preferredPlatformUVAttempts c)
         (ic_uvModality c) (view h (ic_certifications c)) (ic_remainingDiscoverableCredentials c)
         (view h (ic_vendorPrototypeConfigCommands c)))
      (default ∅ (view h (ic_raw c)));
|}.
Next Obligation.
  intros h h' c Ha. cbn beta in *. local_field h h' (ic_versions c). local_field h h' (ic_extensions c).
  local_field h h' (ic_aaguid c). local_field h h' (ic_options c). local_field h h' (ic_pinUVAuthProtocols c).
  local_field h h' (ic_transports c). local_field h h' (ic_algorithms c). local_field h h' (ic_certifications c).
  local_field h h' (ic_vendorPrototypeConfigCommands c). by local_field h h' (ic_raw c).
Qed.

#[export] Program Instance version_value : Value (obj:=object) CTAP1Cell bytes := {| reach h c := ∅; view h c := vc_version c |}.
Next Obligation. done. Qed.

#[export] Program Instance caps_value : Value (obj:=object) CapsCell Caps := {|
  reach h c := reach h (cc_rawCTAP1 c) ∪ reach h (cc_rawCTAP2 c);
  view h c := MkCaps (cc_protocols c) (cc_authenticator c) (cc_verification c) (cc_interaction c)
                (view h (cc_rawCTAP1 c)) (view h (cc_rawCTAP2 c));
|}.
Next Obligation. intros h h' c Ha. cbn beta in *. local_field h h' (cc_rawCTAP1 c). by local_field h h' (cc_rawCTAP2 c). Qed.

#[export] Program Instance descriptor_value : Value (obj:=object) DescriptorCell CredentialDescriptor := {|
  reach h c := reach h (dc_id c) ∪ reach h (dc_transports c);
  view h c := MkCredential (dc_type c) (view h (dc_id c)) (view h (dc_transports c));
|}.
Next Obligation. intros h h' c Ha. cbn beta in *. local_field h h' (dc_id c). by local_field h h' (dc_transports c). Qed.

#[export] Program Instance user_value : Value (obj:=object) UserCell UserEntity := {|
  reach h c := reach h (uc_id c);
  view h c := MkUser (view h (uc_id c)) (uc_name c) (uc_displayName c);
|}.
Next Obligation. intros h h' c Ha. cbn beta in *. by local_field h h' (uc_id c). Qed.

#[export] Program Instance discoverable_value : Value (obj:=object) DiscoverableCell Manager.DiscoverableCredential := {|
  reach h c := reach h (ec_rpIDHash c) ∪ reach h (ec_user c) ∪ reach h (ec_credential c) ∪ reach h (ec_largeBlobKey c);
  view h c := Manager.MkDiscoverable (ec_rp c) (view h (ec_rpIDHash c)) (view h (ec_user c)) (view h (ec_credential c))
                (ec_credProtect c) (view h (ec_largeBlobKey c));
|}.
Next Obligation.
  intros h h' c Ha. cbn beta in *. local_field h h' (ec_rpIDHash c). local_field h h' (ec_user c).
  local_field h h' (ec_credential c). by local_field h h' (ec_largeBlobKey c).
Qed.

#[export] Program Instance list_cell_value : Value (obj:=object) CredentialListCell Manager.CredentialListResult := {|
  reach h c := reach h (lc_credentials c);
  view h c := Manager.MkList (lc_existing c) (lc_maxRemaining c) (view h (lc_credentials c));
|}.
Next Obligation. intros h h' c Ha. cbn beta in *. by local_field h h' (lc_credentials c). Qed.

#[export] Program Instance event_value : Value (obj:=object) EventCell TraceEvent := {|
  reach h c := reach h (tc_payload c);
  view h c := MkEvent (tc_direction c) (view h (tc_payload c)) (tc_redacted c) (tc_command c) (tc_length c);
|}.
Next Obligation. intros h h' c Ha. cbn beta in *. by local_field h h' (tc_payload c). Qed.

#[export] Program Instance hid_event_value : Value (obj:=object) HIDEventCell HIDTraceEvent := {|
  reach h c := reach h (hc_payload c);
  view h c := MkHIDEvent (hc_direction c) (hc_command c) (view h (hc_payload c)) (hc_redacted c) (hc_length c);
|}.
Next Obligation. intros h h' c Ha. cbn beta in *. by local_field h h' (hc_payload c). Qed.

Notation Heap := (heap object).

(** ** pkg/ctap2: Clone *)
Module Clones.
Definition COSEKey_Clone (key : ptr COSEKeyCell) (h : Heap) : ptr COSEKeyCell * Heap :=
  match target h key with
  | None => (None, h)
  | Some c =>
      let '(X, h) := append_nil (kc_X c) h in
      let '(Y, h) := append_nil (kc_Y c) h in
      new_ptr (MkKeyCell (kc_type c) (kc_algorithm c) (kc_curve c) X Y) h
  end.

Definition cloneRawCBORMap (raw : ptr (gmap Z (slice Z))) (h : Heap) : ptr (gmap Z (slice Z)) * Heap :=
  match target h raw with
  | None => (None, h)
  | Some m => let '(clone, h) := copy_values append_nil m h in new_ptr clone h
  end.

Definition clone_info (c : GetInfoCell) (h : Heap) : GetInfoCell * Heap :=
  let '(versions, h) := append_nil (ic_versions c) h in
  let '(extensions, h) := append_nil (ic_extensions c) h in
  let '(aaguid, h) := append_nil (ic_aaguid c) h in
  let '(options, h) := copy_map (ic_options c) h in
  let '(protocols, h) := append_nil (ic_pinUVAuthProtocols c) h in
  let '(transports, h) := append_nil (ic_transports c) h in
  let '(algorithms, h) := append_nil (ic_algorithms c) h in
  let '(certifications, h) := copy_map (ic_certifications c) h in
  let '(vendor, h) := append_nil (ic_vendorPrototypeConfigCommands c) h in
  let '(raw, h) := cloneRawCBORMap (ic_raw c) h in
  (MkInfoCell versions extensions aaguid options (ic_maxMsgSize c) protocols (ic_maxCredentialCountInList c)
     (ic_maxCredentialIDLength c) transports algorithms (ic_maxSerializedLargeBlobArray c) (ic_forcePINChange c)
     (ic_minPINLength c) (ic_firmwareVersion c) (ic_maxCredBlobLength c) (ic_maxRPIDsForSetMinPINLength c)
     (ic_preferredPlatformUVAttempts c) (ic_uvModality c) certifications
     (ic_remainingDiscoverableCredentials c) vendor raw, h).
Definition GetInfoResponse_Clone (response : ptr GetInfoCell) (h : Heap) : ptr GetInfoCell * Heap :=
  match target h response with
  | None => (None, h)
  | Some c => let '(clone, h) := clone_info c h in new_ptr clone h
  end.
End Clones.

(** ** pkg/client/capabilities.go: the cache *)
Module CapabilityCache.
Import Clones.

Definition cloneGetInfoResponse : ptr GetInfoCell → Heap → ptr GetInfoCell * Heap := GetInfoResponse_Clone.

Definition clone_version (raw : ptr CTAP1Cell) (h : Heap) : ptr CTAP1Cell * Heap :=
  match target h raw with None => (None, h) | Some c => new_ptr c h end.
Definition cloneCapabilities (caps : ptr CapsCell) (h : Heap) : ptr CapsCell * Heap :=
  match target h caps with
  | None => (None, h)
  | Some c =>
      let '(raw1, h) := clone_version (cc_rawCTAP1 c) h in
      let '(raw2, h) := cloneGetInfoResponse (cc_rawCTAP2 c) h in
      new_ptr (MkCapsCell (cc_protocols c) (cc_authenticator c) (cc_verification c) (cc_interaction c) raw1 raw2) h
  end.

(** The shape around two probed responses. *)
Definition buildCapabilities (raw1 : ptr CTAP1Cell) (raw2 : ptr GetInfoCell) (device : DeviceDescriptor)
    (h : Heap) : CapsCell :=
  let v := Capabilities.buildCapabilities (view h raw1) (view h raw2) device in
  MkCapsCell (Protocols v) (Authenticator v) (Verification v) (ICaps v) raw1 raw2.

(** What the probes bring, in memory: [decode] puts a response that the CBOR
    library decoded there. *)
Definition put_ctap2 (decode : GetInfoResponse → Heap → GetInfoCell * Heap) (probed : option GetInfoResponse)
    (h : Heap) : ptr GetInfoCell * Heap :=
  match probed with
  | Some info => let '(c, h) := decode info h in new_ptr c h
  | None => (None, h)
  end.
Definition put_ctap1 (probed : option bytes) (h : Heap) : ptr CTAP1Cell * Heap :=
  match probed with
  | Some version => new_ptr (MkCTAP1Cell version) h
  | None => (None, h)
  end.
Definition detect (decode : GetInfoResponse → Heap → GetInfoCell * Heap) (device : DeviceDescriptor)
    (probed : option bytes * option GetInfoResponse) (h : Heap) : ptr CapsCell * Heap :=
  let '(raw2, h) := put_ctap2 decode probed.2 h in
  let '(raw1, h) := put_ctap1 probed.1 h in
  new_ptr (buildCapabilities raw1 raw2 device h) h.

Definition GetCapabilities (decode : GetInfoResponse → Heap → GetInfoCell * Heap) (device : DeviceDescriptor)
    (probed : option bytes * option GetInfoResponse) (cache : ptr CapsCell) (h : Heap)
    : res (ptr CapsCell) * ptr CapsCell * Heap :=
  match cache with
  | Some _ => let '(r, h) := cloneCapabilities cache h in (Ok r, cache, h)
  | None =>
      let '(caps, h) := detect decode device probed h in
      let v := view h caps in
      if negb (from_option HasCTAP1 false v) && negb (from_option HasCTAP2 false v)
      then (Err Client.ErrNoCapableProtocol, cache, h)
      else let '(r, h) := cloneCapabilities caps h in (Ok r, caps, h)
  end.

(** The client's field, and the memory the caller can get at. *)
Record memory := MkMemory { m_heap : Heap; m_cache : ptr CapsCell; m_known : gset loc }.

(** The caller allocates and stores what it likes where it can, and calls the
    method, whose result it then knows. *)
Inductive step (decode : GetInfoResponse → Heap → GetInfoCell * Heap) (device : DeviceDescriptor) :
    memory → memory → Prop :=
  | caller_allocates m l o : l ∉ dom (m_heap m) →
      step decode device m (MkMemory (<[l := o]> (m_heap m)) (m_cache m) ({[l]} ∪ m_known m))
  | caller_stores m l o : l ∈ m_known m →
      step decode device m (MkMemory (<[l := o]> (m_heap m)) (m_cache m) (m_known m))
  | caller_asks m probed r cache h : GetCapabilities decode device probed (m_cache m) (m_heap m) = (Ok r, cache, h) →
      step decode device m (MkMemory h cache (reach h r ∪ m_known m))
  | caller_is_refused m probed e cache h : GetCapabilities decode device probed (m_cache m) (m_heap m) = (Err e, cache, h) →
      step decode device m (MkMemory h cache (m_known m)).
End CapabilityCache.

(** ** credential_types.go and credentials.go: between the facade and CTAP2 *)
Module CredentialTypes.
Definition credentialParameterToCTAP2 (parameter : CredentialParameter) : CredentialParameter :=
  MkParam (ParamType parameter) (Alg parameter).
Definition credentialParametersToCTAP2 (parameters : slice CredentialParameter) (h : Heap)
    : slice CredentialParameter * Heap :=
  match elements_of h parameters with
  | [] => (None, h)
  | l => slice_of (map credentialParameterToCTAP2 l) h
  end.

(** A string of one type converted to the other. *)
Definition convert_transports (transports : slice string) (h : Heap) : slice string * Heap :=
  match elements_of h transports with [] => (None, h) | l => slice_of l h end.

Definition credentialDescriptorToCTAP2 (descriptor : DescriptorCell) (h : Heap) : DescriptorCell * Heap :=
  let '(id, h) := append_nil (dc_id descriptor) h in
  let '(transports, h) := convert_transports (dc_transports descriptor) h in
  (MkDescriptorCell (dc_type descriptor) id transports, h).
Definition credentialDescriptorsToCTAP2 : rslice DescriptorCell → Heap → rslice DescriptorCell * Heap :=
  convert_slice credentialDescriptorToCTAP2.
Definition credentialDescriptorFromCTAP2 (descriptor : DescriptorCell) (h : Heap) : DescriptorCell * Heap :=
  let '(id, h) := append_nil (dc_id descriptor) h in
  let '(transports, h) := convert_transports (dc_transports descriptor) h in
  (MkDescriptorCell (dc_type descriptor) id transports, h).

(** The user keeps its own ID: [User: credential.User]. *)
Definition convert_discoverable (credential : DiscoverableCell) (h : Heap) : DiscoverableCell * Heap :=
  let '(hash, h) := append_nil (ec_rpIDHash credential) h in
  let '(descriptor, h) := credentialDescriptorFromCTAP2 (ec_credential credential) h in
  let '(key, h) := append_nil (ec_largeBlobKey credential) h in
  (MkDiscoverableCell (ec_rp credential) hash (ec_user credential) descriptor (ec_credProtect credential) key, h).
Definition credentialListResultFromInternal (result : ptr CredentialListCell) (h : Heap)
    : ptr CredentialListCell * Heap :=
  match target h result with
  | None => (None, h)
  | Some c =>
      let '(credentials, h) := convert_slice convert_discoverable (lc_credentials c) h in
      new_ptr (MkListCell (lc_existing c) (lc_maxRemaining c) credentials) h
  end.
End CredentialTypes.

(** ** trace.go and hid_trace.go: the recorder

    Its two slices are its own; nothing hands them out. *)
Module Recorder.
Record recorder := MkTraceRecorder { r_events : list EventCell; r_hidEvents : list HIDEventCell }.

Definition record (direction : TraceDirection) (payload : slice Z) (command : Z) (redacted : bool)
    (recorder : recorder) (h : Heap) : Recorder.recorder * Heap :=
  let length := len (elements_of h payload) in
  let '(copied, h) := if redacted then (None, h) else append_nil payload h in
  (MkTraceRecorder
     (r_events recorder ++ [MkEventCell direction copied redacted command length])
     (r_hidEvents recorder), h).
Definition recordHID (direction : TraceDirection) (command : Z) (payload : slice Z) (redacted : bool)
    (recorder : recorder) (h : Heap) : Recorder.recorder * Heap :=
  let length := len (elements_of h payload) in
  let '(copied, h) := if redacted then (None, h) else append_nil payload h in
  (MkTraceRecorder (r_events recorder)
     (r_hidEvents recorder ++ [MkHIDEventCell direction command copied redacted length]), h).

Definition copy_event (e : EventCell) (h : Heap) : EventCell * Heap :=
  let '(payload, h) := append_nil (tc_payload e) h in
  (MkEventCell (tc_direction e) payload (tc_redacted e) (tc_command e) (tc_length e), h).
Definition Events (recorder : recorder) (h : Heap) : rslice EventCell * Heap :=
  let '(l, h) := copy_list copy_event (r_events recorder) h in slice_of l h.
Definition copy_hid_event (e : HIDEventCell) (h : Heap) : HIDEventCell * Heap :=
  let '(payload, h) := append_nil (hc_payload e) h in
  (MkHIDEventCell (hc_direction e) (hc_command e) payload (hc_redacted e) (hc_length e), h).
Definition HIDEvents (recorder : recorder) (h : Heap) : rslice HIDEventCell * Heap :=
  let '(l, h) := copy_list copy_hid_event (r_hidEvents recorder) h in slice_of l h.

#[global] Program Instance recorder_value : Value (obj:=object) recorder (list TraceEvent * list HIDTraceEvent) := {|
  reach h r := reach h (r_events r) ∪ reach h (r_hidEvents r);
  view h r := (view h (r_events r), view h (r_hidEvents r));
|}.
Next Obligation. intros h h' r Ha. cbn beta in *. local_field h h' (r_events r). by local_field h h' (r_hidEvents r). Qed.

(** A recorder, and the memory its callers can get at: they allocate, store
    what they like where they can, record a payload of theirs through the
    middleware, or list the events.  [entry] is what a step records. *)
Record memory := MkMemory { m_heap : Heap; m_recorder : recorder; m_known : gset loc }.
Definition entry : Type := list TraceEvent * list HIDTraceEvent.

Inductive step : memory → entry → memory → Prop :=
  | caller_allocates m l o : l ∉ dom (m_heap m) →
      step m ([], []) (MkMemory (<[l := o]> (m_heap m)) (m_recorder m) ({[l]} ∪ m_known m))
  | caller_stores m l o : l ∈ m_known m →
      step m ([], []) (MkMemory (<[l := o]> (m_heap m)) (m_recorder m) (m_known m))
  | caller_records m direction payload command redacted r h :
      array_cell payload ⊆ m_known m →
      record direction payload command redacted (m_recorder m) (m_heap m) = (r, h) →
      step m ([event_of direction (elements_of (m_heap m) payload) command redacted], [])
        (MkMemory h r (m_known m))
  | caller_records_hid m direction command payload redacted r h :
      array_cell payload ⊆ m_known m →
      recordHID direction command payload redacted (m_recorder m) (m_heap m) = (r, h) →
      step m ([], [hid_event_of direction command (elements_of (m_heap m) payload) redacted])
        (MkMemory h r (m_known m))
  | caller_lists m s h : Events (m_recorder m) (m_heap m) = (s, h) →
      step m ([], []) (MkMemory h (m_recorder m) (reach h s ∪ m_known m))
  | caller_lists_hid m s h : HIDEvents (m_recorder m) (m_heap m) = (s, h) →
      step m ([], []) (MkMemory h (m_recorder m) (reach h s ∪ m_known m)).

Inductive run : memory → entry → memory → Prop :=
  | run_nil m : run m ([], []) m
  | run_step m m1 m' e e' : run m e m1 → step m1 e' m' → run m (e.1 ++ e'.1, e.2 ++ e'.2) m'.
End Recorder.

(** ** secrets.go and authorization.go *)
Module Secrets.
Definition NewSecret (value : slice Z) (h : Heap) : Secret * Heap :=
  if len (elements_of h value) =? 0 then (None, h) else append_nil value h.
(** [[]byte(value)] is a slice of its own. *)
Definition NewSecretString (value : string) (h : Heap) : Secret * Heap :=
  if str_empty value then (None, h)
  else let '(b, h) := slice_of (bytes_of_string value) h in NewSecret b h.
Definition Empty (secret : Secret) (h : Heap) : bool := len (elements_of (A:=Z) h secret) =? 0.
Definition Clone (secret : Secret) (h : Heap) : Secret * Heap := NewSecret secret h.
Definition wipeBytes (value : slice Z) (h : Heap) : Heap := fill 0 value h.
Definition Wipe (secret : Secret) (h : Heap) : Heap := wipeBytes secret h.

Definition DefaultUVAuthorization : UVAuthorizationCell := MkUVCell "" None.
Definition PINAuthorization (pin : string) (h : Heap) : UVAuthorizationCell * Heap :=
  let '(secret, h) := NewSecretString pin h in (MkUVCell Client.VerificationMethodPIN secret, h).
Definition SecretPINAuthorization (pin : Secret) : UVAuthorizationCell := MkUVCell Client.VerificationMethodPIN pin.
Definition BuiltInUVAuthorization : UVAuthorizationCell := MkUVCell Client.VerificationMethodBuiltInUV None.
End Secrets.
