(* ===== verification/CopyProps.v ===== *)
(** * What defensive copies promise

    A copy stands for the same value in storage that nothing else reaches:
    the Clone methods, the conversions of the facade, the trace recorder, the
    capability cache under a caller that writes where it can, and the wiping
    of secrets. *)
From S2P Require Import Prelude GoErrors GoText GoEncoding Descriptors Ctap2 Manager ClientCore GoHeap Copies.
From stdpp Require Import relations.
Import Types Messages Trace Capabilities.
#[local] Open Scope Z_scope.

Module CloneProps.
Import Clones CapabilityCache CredentialTypes.

(** The parts of what stands for a value. *)
Lemma target_stands `{!Stored R object} `{!Value R V} (h : Heap) (p : ptr R) v F r :
  stands h p v F → target h p = Some r → v = Some (view h r) ∧ stands h r (view h r) (reach h r).
Proof.
  intros (<- & <- & HF) Ht. cbn in HF |- *. rewrite Ht in HF |- *. cbn in *. split; [done|]. split_and!; [done|done|set_solver].
Qed.
Lemma target_none `{!Stored R object} `{!Value R V} (h : Heap) (p : ptr R) v F :
  stands h p v F → target h p = None → v = None.
Proof. intros (_ & <- & _) Ht. cbn. by rewrite Ht. Qed.
Lemma target_later `{!Stored R object} `{!Value R V} (h h' : Heap) (p : ptr R) v F :
  stands h p v F → h ⊆ h' → target (A:=R) h' p = target h p.
Proof.
  intros (<- & _ & HF) Hh. destruct p as [l|]; [|done]. unfold target, deref. cbn in HF |- *.
  assert (Hl : l ∈ dom h) by set_solver. apply elem_of_dom in Hl as [o Ho]. by rewrite Ho, (lookup_weaken _ _ _ _ Ho Hh).
Qed.

(** A copy of what a pointer points to, behind a pointer of its own. *)
Lemma makes_deref `{!Stored R object} `{!Value R V} (f : R → Heap → R * Heap) (h0 : Heap) (p : ptr R) v F :
  (∀ r v F, stands h0 r v F → makes h0 (f r) v) → stands h0 p v F →
  makes h0 (λ h, match target h p with None => (None, h) | Some c => let '(c, h) := f c h in new_ptr c h end : ptr R * Heap) v.
Proof.
  intros Hf Hp h Hh. rewrite (target_later _ _ _ _ _ Hp Hh). destruct (target h0 p) as [r|] eqn:Ht.
  - destruct (target_stands _ _ _ _ _ Hp Ht) as [-> Hr].
    exact (makes_ptr h0 (f r) (view h0 r) (Hf _ _ _ Hr) h Hh).
  - rewrite (target_none _ _ _ _ Hp Ht). split; [done|]. exists ∅. by split; [|set_solver].
Qed.

(** *** The Clone methods *)
Ltac open_cells :=
  cbn -[slice_value mapref_value ptr_value gmap_value list_value rslice_value union subseteq disjoint dom] in *.
(** The next field [x], copied as the lemma [L] says. *)
Ltac part x :=
  lazymatch goal with
  | H : reach ?h0 x ⊆ dom ?h0 |- _ => constr:(stands_part h0 x H)
  end.
Tactic Notation "copy_part" uconstr(L) constr(x) :=
  let S := part x in let Hm := fresh in pose proof (L _ _ _ _ S) as Hm; copy_step Hm; clear Hm.
Ltac view_rewrite := repeat match goal with H : view _ _ = _ |- _ => rewrite H; clear H end.
(** The end: the copied structure, field by field. *)
Ltac copy_done :=
  lazymatch goal with
  | H0 : ?h0 ⊆ ?hc, Hb : ?hb ⊆ ?hc |- ?hb ⊆ ?hc ∧ ∃ F, stands ?hc ?c _ F ∧ _ =>
      split; [exact Hb|]; exists (reach hc c);
      repeat match goal with S : stands hc _ _ _ |- _ => destruct S as (<- & ? & ?) end;
      open_cells; rewrite ?disjoint_union_l; split;
      [split_and!; open_cells; rewrite ?union_subseteq; [done|by view_rewrite|by split_and?]|by split_and?]
  end.

Ltac split_unions :=
  repeat match goal with H : _ ∪ _ ⊆ _ |- _ => apply union_subseteq in H as [? ?] end.
Ltac parts Hc := destruct Hc as (<- & <- & Hc); open_cells; split_unions.

Lemma makes_key_ptr p (h0 : Heap) v F : stands h0 p v F → makes h0 (COSEKey_Clone p) v.
Proof.
  intros Hp.
  assert (Hm : ∀ c v F, stands h0 c v F →
    makes h0 (λ h, let '(X, h) := append_nil (kc_X c) h in let '(Y, h) := append_nil (kc_Y c) h in
                   (MkKeyCell (kc_type c) (kc_algorithm c) (kc_curve c) X Y, h)) v).
  { clear. intros c v F Hc. parts Hc. intros h Hh. assert (Hb : h ⊆ h) by done.
    copy_part makes_append_nil (kc_X c). copy_part makes_append_nil (kc_Y c). copy_done. }
  intros h Hh. pose proof (makes_deref _ h0 p v F Hm Hp h Hh) as H. revert H. unfold COSEKey_Clone.
  cbv beta. destruct (target h p) as [c|]; [|exact id]. by destruct (append_nil (kc_X c) h) as [X h1], (append_nil (kc_Y c) h1) as [Y h2].
Qed.

Lemma makes_raw raw (h0 : Heap) v F : stands h0 raw v F → makes h0 (cloneRawCBORMap raw) v.
Proof.
  apply (makes_deref (copy_values append_nil)). intros m w G. apply makes_copy_values.
  intros s l G'. apply makes_append_nil.
Qed.

Lemma makes_info c (h0 : Heap) v F : stands h0 c v F → makes h0 (clone_info c) v.
Proof.
  intros Hc. parts Hc. intros h Hh. assert (Hb : h ⊆ h) by done. unfold clone_info.
  copy_part makes_append_nil (ic_versions c).
  copy_part makes_append_nil (ic_extensions c).
  copy_part makes_append_nil (ic_aaguid c).
  copy_part makes_copy_map (ic_options c).
  copy_part makes_append_nil (ic_pinUVAuthProtocols c).
  copy_part makes_append_nil (ic_transports c).
  copy_part makes_append_nil (ic_algorithms c).
  copy_part makes_copy_map (ic_certifications c).
  copy_part makes_append_nil (ic_vendorPrototypeConfigCommands c).
  copy_part makes_raw (ic_raw c).
  copy_done.
Qed.

Lemma makes_info_ptr p (h0 : Heap) v F : stands h0 p v F → makes h0 (GetInfoResponse_Clone p) v.
Proof. apply (makes_deref clone_info). intros. by eapply makes_info. Qed.

Lemma makes_version p (h0 : Heap) v F : stands h0 p v F → makes h0 (clone_version p) v.
Proof.
  apply (makes_deref (λ c h, (c, h))). intros c w G (_ & <- & _). by apply makes_nothing.
Qed.

Definition clone_caps (c : CapsCell) (h : Heap) : CapsCell * Heap :=
  let '(raw1, h) := clone_version (cc_rawCTAP1 c) h in
  let '(raw2, h) := cloneGetInfoResponse (cc_rawCTAP2 c) h in
  (MkCapsCell (cc_protocols c) (cc_authenticator c) (cc_verification c) (cc_interaction c) raw1 raw2, h).

Lemma makes_caps p (h0 : Heap) v F : stands h0 p v F → makes h0 (cloneCapabilities p) v.
Proof.
  intros Hp. assert (Hm : ∀ c v F, stands h0 c v F → makes h0 (clone_caps c) v).
  { clear. intros c v F Hc. parts Hc. intros h Hh. assert (Hb : h ⊆ h) by done. unfold clone_caps.
    copy_part makes_version (cc_rawCTAP1 c).
    copy_part makes_info_ptr (cc_rawCTAP2 c).
    copy_done. }
  intros h Hh. pose proof (makes_deref clone_caps h0 p v F Hm Hp h Hh) as H. unfold cloneCapabilities, clone_caps in *.
  destruct (target h p) as [c|]; [|exact H].
  by destruct (clone_version _ h) as [r1 h1], (cloneGetInfoResponse _ h1) as [r2 h2].
Qed.

(** *** credential_types.go *)
Lemma makes_transports s (h0 : Heap) l F : stands h0 s l F → makes h0 (convert_transports s) l.
Proof. exact (makes_append_nil h0 s l F). Qed.

Lemma makes_toCTAP2 c (h0 : Heap) v F : stands h0 c v F → makes h0 (credentialDescriptorToCTAP2 c) v.
Proof.
  intros Hc. parts Hc. intros h Hh. assert (Hb : h ⊆ h) by done. unfold credentialDescriptorToCTAP2.
  copy_part makes_append_nil (dc_id c).
  copy_part makes_transports (dc_transports c).
  copy_done.
Qed.

Lemma makes_descriptors s (h0 : Heap) vs F : stands h0 s vs F → makes h0 (credentialDescriptorsToCTAP2 s) vs.
Proof. apply makes_convert_slice. intros. by eapply makes_toCTAP2. Qed.

Lemma makes_parameters s (h0 : Heap) l F : stands h0 s l F → makes h0 (credentialParametersToCTAP2 s) l.
Proof.
  intros Hs h Hh. unfold credentialParametersToCTAP2. apply (stands_mono _ h) in Hs; [|done]. destruct Hs as (_ & Hv & _).
  cbn in Hv. rewrite Hv. destruct l as [|a l].
  - split; [done|]. exists ∅. by split; [|set_solver].
  - assert (map credentialParameterToCTAP2 (a :: l) = a :: l) as ->.
    { rewrite (map_ext _ id); [apply map_id|]. by intros []. }
    by apply (makes_slice_of h).
Qed.

Lemma makes_fromCTAP2 c (h0 : Heap) v F : stands h0 c v F → makes h0 (credentialDescriptorFromCTAP2 c) v.
Proof. exact (makes_toCTAP2 c h0 v F). Qed.

(** The ID of the user is the one of the original. *)
Lemma makes_discoverable c (h0 : Heap) v F S : stands h0 c v F → reach h0 (ec_user c) ⊆ S →
  makes_over S h0 (convert_discoverable c) v.
Proof.
  intros Hc HS. parts Hc. intros h Hh. assert (Hb : h ⊆ h) by done. unfold convert_discoverable.
  assert (Hd : stands h0 (ec_credential c) (view h0 (ec_credential c)) (reach h0 (ec_credential c))).
  { split_and!; [done|done|]. cbn [reach descriptor_value]. by apply union_subseteq. }
  assert (Hu : stands h0 (uc_id (ec_user c)) (view h0 (uc_id (ec_user c))) (reach h0 (uc_id (ec_user c)))) by done.
  copy_part makes_append_nil (ec_rpIDHash c).
  copy_step (makes_fromCTAP2 (ec_credential c) h0 _ _ Hd).
  copy_part makes_append_nil (ec_largeBlobKey c).
  match goal with H0 : h0 ⊆ ?hc |- _ => apply (stands_mono h0 hc) in Hu; [|done] end.
  split; [done|]. eexists. split.
  - split; [done|]. clear HS. repeat match goal with X : stands h3 _ _ _ |- _ => destruct X as (<- & ? & ?) end.
    cbn [reach view discoverable_value user_value ec_rp ec_rpIDHash ec_user ec_credential ec_credProtect ec_largeBlobKey
      uc_id uc_name uc_displayName]. rewrite !union_subseteq. split; [by view_rewrite|]. by split_and?.
  - destruct Hu as (Eu & _ & _). repeat match goal with X : stands h3 _ _ _ |- _ => destruct X as (<- & _ & _) end.
    cbn [reach discoverable_value user_value ec_rpIDHash ec_user ec_credential ec_largeBlobKey uc_id] in *. rewrite Eu. set_solver.
Qed.

(** credentialListResultFromInternal: the same list, which shares with the
    internal one the IDs of the users only. *)
Definition user_ids (h : Heap) (p : ptr CredentialListCell) : gset loc :=
  match target h p with
  | None => ∅
  | Some c => ⋃ (map (λ e, reach h (ec_user e)) (items_of h (lc_credentials c)))
  end.
Lemma makes_credential_list p (h0 : Heap) v F : stands h0 p v F →
  makes_over (user_ids h0 p) h0 (credentialListResultFromInternal p) v.
Proof.
  intros Hp h Hh. unfold credentialListResultFromInternal, user_ids. rewrite (target_later _ _ _ _ _ Hp Hh).
  destruct (target h0 p) as [c|] eqn:Ht.
  - destruct (target_stands _ _ _ _ _ Hp Ht) as [-> Hc]. set (S := ⋃ (map _ _)).
    assert (Hs : stands h0 (lc_credentials c) (view h0 (lc_credentials c)) (reach h0 (lc_credentials c)))
      by (destruct Hc as (_ & _ & Hc'); by split_and!).
    assert (HS : S ⊆ dom h0).
    { destruct Hs as (_ & _ & Hs). intros l (X & (e & -> & He)%list_elem_of_fmap & Hl)%elem_of_union_list. apply Hs.
      cbn [reach rslice_value]. apply elem_of_union_r, elem_of_union_list. exists (reach h0 e).
      split; [by apply list_elem_of_fmap_2|]. cbn in Hl |- *. set_solver. }
    assert (Hm : makes_over S h0 (convert_slice convert_discoverable (lc_credentials c)) (view h0 (lc_credentials c))).
    { eapply makes_over_convert_slice; [|exact HS|exact Hs]. intros e w G He Hw. eapply makes_discoverable; [exact Hw|].
      intros l Hl. apply elem_of_union_list. eexists. split; [|exact Hl].
      by apply (list_elem_of_fmap_2 (λ e, reach h0 (ec_user e))). }
    specialize (Hm h Hh).
    destruct (convert_slice _ _ h) as [q h1]. destruct Hm as (Hh1 & G & HG & HGS).
    unfold new_ptr. destruct (alloc _ h1) as [l h2] eqn:E. apply alloc_spec in E as (Hn & Hh2 & Hd & Hdom).
    split; [by etrans|]. exists ({[l]} ∪ G). split; [|apply subseteq_dom in Hh1; set_solver].
    eapply stands_ptr; [exact Hd|]. apply (stands_mono _ h2) in HG as (<- & Hv & HGd); [|done].
    split_and!; [done| |done]. cbn [view list_cell_value lc_existing lc_maxRemaining lc_credentials]. by rewrite Hv.
  - rewrite (target_none _ _ _ _ Hp Ht). split; [done|]. exists ∅. by split; [|set_solver].
Qed.
End CloneProps.

(** ** The cache of capabilities *)
Module CacheProps.
Import Clones CapabilityCache CloneProps.
Section Cache.
(** What the CBOR library decodes is put into storage of its own. *)
Context (decode : GetInfoResponse → Heap → GetInfoCell * Heap) (device : DeviceDescriptor).
Hypothesis decode_fresh : ∀ info, makes ∅ (decode info) info.

Lemma makes_put_ctap1 probed : makes ∅ (put_ctap1 probed) probed.
Proof.
  destruct probed as [v|]; [|by apply makes_nothing].
  apply (makes_ptr ∅ (λ h, (MkCTAP1Cell v, h))). by apply makes_nothing.
Qed.

Lemma makes_put_ctap2 probed : makes ∅ (put_ctap2 decode probed) probed.
Proof. destruct probed as [v|]; [|by apply makes_nothing]. apply (makes_ptr ∅ (decode v)), decode_fresh. Qed.

(** The structure that a first call keeps. *)
Lemma makes_detect probed :
  makes ∅ (detect decode device probed) (Some (Capabilities.buildCapabilities probed.1 probed.2 device)).
Proof.
  intros h Hh. assert (Hb : h ⊆ h) by done. unfold detect.
  copy_step (makes_put_ctap2 probed.2). copy_step (makes_put_ctap1 probed.1).
  destruct S as (<- & V2 & R2), S0 as (<- & V1 & R1). unfold new_ptr.
  destruct (alloc (buildCapabilities r0 r device h1) h1) as [l h3] eqn:E.
  apply (stands_new h h1 (buildCapabilities r0 r device h1) _ (reach h1 r0 ∪ reach h1 r)); [|by apply disjoint_union_l|done..].
  split_and!; [done| |by apply union_subseteq]. unfold buildCapabilities. rewrite V1, V2.
  cbn -[Capabilities.buildCapabilities ptr_value]. rewrite V1, V2. by destruct probed as [[]  []].
Qed.

(** Both ways through the method. *)
Lemma ask_cached probed l h known v : private h (Some l : ptr CapsCell) v known →
  ∃ r h', GetCapabilities decode device probed (Some l) h = (Ok r, Some l, h') ∧
    private h' (Some l : ptr CapsCell) v (reach h' r ∪ known) ∧ h ⊆ h' ∧
    stands h' r v (reach h' r) ∧ reach h' r ## known ∧ reach h' r ## reach h' (Some l : ptr CapsCell).
Proof.
  intros Hp. cbn [GetCapabilities]. destruct (cloneCapabilities (Some l) h) as [r h'] eqn:E. exists r, h'. split; [done|].
  pose proof Hp as (F & HF & _). exact (private_copy h h (Some l) v known _ v r h' Hp (makes_caps _ h v F HF) (reflexivity h) E).
Qed.

Lemma ask_first probed h known : known ⊆ dom h →
  let caps := Capabilities.buildCapabilities probed.1 probed.2 device in
  if negb (HasCTAP1 caps) && negb (HasCTAP2 caps)
  then ∃ h', GetCapabilities decode device probed None h = (Err Client.ErrNoCapableProtocol, None, h') ∧ h ⊆ h'
  else ∃ r l h', GetCapabilities decode device probed None h = (Ok r, Some l, h') ∧
    private h' (Some l : ptr CapsCell) (Some caps) (reach h' r ∪ known) ∧ h ⊆ h' ∧ stands h' r (Some caps) (reach h' r).
Proof.
  intros Hk caps. unfold GetCapabilities. destruct (detect decode device probed h) as [p h1] eqn:E.
  destruct (private_made ∅ h known _ _ p h1 (makes_detect probed) (map_empty_subseteq h) Hk E) as [Hp Hh1].
  pose proof Hp as (F & HF & _ & Hk1). pose proof HF as (_ & Hv & _). rewrite Hv. cbn [from_option]. fold caps.
  destruct (negb (HasCTAP1 caps) && negb (HasCTAP2 caps)); [by exists h1|].
  destruct p as [l|]; [|done]. destruct (cloneCapabilities (Some l) h1) as [r h2] eqn:E2. exists r, l, h2. split; [done|].
  destruct (private_copy h1 h1 (Some l) _ known _ _ r h2 Hp (makes_caps _ h1 _ F HF) (reflexivity h1) E2)
    as (? & ? & ? & _). split_and!; [done|by etrans|done].
Qed.

(** *** Under a caller that writes *)
Definition owned (v : option Caps) (m : memory) : Prop := private (m_heap m) (m_cache m) v (m_known m).

Lemma step_owned m m' v : step decode device m m' → owned v m → ∃ v', owned v' m' ∧ (v ≠ None → v' = v).
Proof.
  unfold owned. intros [m0 l o Hl|m0 l o Hl|m0 probed r cache h E|m0 probed e cache h E] Hp; cbn.
  - exists v. by split; [apply private_alloc|].
  - exists v. by split; [apply private_store|].
  - destruct (m_cache m0) as [l|] eqn:Hc.
    + destruct (ask_cached probed _ _ _ _ Hp) as (r' & h' & E' & Hp' & _). rewrite E in E'. simplify_eq. by exists v.
    + pose proof Hp as (F & (_ & Hv & _) & _ & Hk). pose proof (ask_first probed (m_heap m0) _ Hk) as Ha. cbv zeta in Ha.
      destruct (negb _ && negb _); [destruct Ha as (h' & E' & _)|destruct Ha as (r' & l & h' & E' & Hp' & _)];
        rewrite E in E'; simplify_eq. eexists. split; [exact Hp'|]. by intros [].
  - destruct (m_cache m0) as [l|] eqn:Hc.
    + destruct (ask_cached probed _ _ _ _ Hp) as (r' & h' & E' & _). rewrite E in E'. discriminate.
    + pose proof Hp as (F & (_ & Hv & _) & _ & Hk). pose proof (ask_first probed (m_heap m0) _ Hk) as Ha. cbv zeta in Ha.
      destruct (negb _ && negb _); [destruct Ha as (h' & E' & Hh)|destruct Ha as (r' & l & h' & E' & _)];
        rewrite E in E'; simplify_eq. exists None. split; [|by intros []]. exists ∅.
      apply subseteq_dom in Hh. split_and!; [done|set_solver|by etrans].
Qed.

Lemma steps_owned m m' v : rtc (step decode device) m m' → owned v m → ∃ v', owned v' m' ∧ (v ≠ None → v' = v).
Proof.
  intros H. revert v. induction H as [m|m m1 m' Hs _ IH]; intros v Hm; [by exists v|].
  destruct (step_owned _ _ _ Hs Hm) as (v1 & H1 & E1). destruct (IH v1 H1) as (v2 & H2 & E2). exists v2. split; [done|].
  intros Hv. rewrite <-(E1 Hv). apply E2. by rewrite (E1 Hv).
Qed.

(** C19: once a client has detected the capabilities of its authenticator, no
    sequence of stores to memory that its callers know and of further calls
    changes them: every later call of Capabilities answers the detected
    structure, in storage that nothing else has. *)
Theorem capabilities_isolated h known m m' caps :
  known ⊆ dom h → rtc (step decode device) (MkMemory h None known) m → view (m_heap m) (m_cache m) = Some caps →
  rtc (step decode device) m m' →
  view (m_heap m') (m_cache m') = Some caps ∧
  ∀ probed, ∃ r h', GetCapabilities decode device probed (m_cache m') (m_heap m') = (Ok r, m_cache m', h') ∧
    stands h' r (Some caps) (reach h' r) ∧ reach h' r ## m_known m' ∧ reach h' r ## reach h' (m_cache m').
Proof.
  intros Hk H0 Hv H1. assert (Hn : owned None (MkMemory h None known)) by (exists ∅; split_and!; [done|set_solver|done]).
  destruct (steps_owned _ _ _ H0 Hn) as (v & Hm & _). assert (v = Some caps) as -> by (destruct Hm as (F & (_ & <- & _) & _); done).
  destruct (steps_owned _ _ _ H1 Hm) as (v & Hm' & Ev). rewrite Ev in Hm' by done.
  pose proof Hm' as (F & (_ & Hv' & _) & _). split; [done|]. intros probed. unfold owned in Hm'.
  destruct (m_cache m') as [l|]; [|done]. destruct (ask_cached probed _ _ _ _ Hm') as (r & h' & E & _ & _ & Hr & Hd & Hc).
  by exists r, h'.
Qed.

(** With its responses, cache and results in memory, Capabilities does what
    the model on values does: the same result or error, and a cache that
    stands for the same structure. *)
Theorem capabilities_refine {Any W} `{!Cbor Any} (cl : Client.client W) c s probed w1 w2 (h : Heap) (cache : ptr CapsCell) F :
  Client.SDevice (Client.session cl) = device → stands h cache s.1 F → (s.1 = None → cache = None) →
  probe_ctap2 cl c s.2 = (probed.2, w1) → probe_ctap1 cl c w1 = (probed.1, w2) →
  let '(r, cache', h') := GetCapabilities decode device probed cache h in
  ∃ result w', Capabilities.GetCapabilities cl c s = Some (result, (view h' cache', w')) ∧
    match r, result with
    | Ok p, Ok caps => view h' p = Some caps
    | Err e, Err e' => e = e'
    | _, _ => False
    end.
Proof.
  intros Hdev Hs Hnil H2 H1. unfold Capabilities.GetCapabilities. destruct (s.1) as [caps|] eqn:Es.
  - destruct cache as [l|]; [|by destruct Hs as (_ & Hv & _)].
    assert (Hp : private h (Some l : ptr CapsCell) (Some caps) ∅) by (exists F; split_and!; [done|set_solver|set_solver]).
    destruct (ask_cached probed _ _ _ _ Hp) as (r & h' & E & (G & (_ & Hv & _) & _) & _ & (_ & Hr & _) & _).
    rewrite E. exists (Ok caps), s.2. split; [|exact Hr]. apply (f_equal (λ v, (v, s.2))) in Hv. by rewrite Hv, <-Es; destruct s.
  - rewrite (Hnil eq_refl), H2, H1, Hdev. pose proof (ask_first probed h ∅ (empty_subseteq _)) as Ha. cbv zeta in Ha.
    destruct (negb _ && negb _).
    + destruct Ha as (h' & -> & _). by exists (Err Client.ErrNoCapableProtocol), w2.
    + destruct Ha as (r & l & h' & -> & (G & (_ & Hv & _) & _) & _ & (_ & Hr & _)).
      eexists (Ok _), w2. split; [|exact Hr]. by rewrite Hv.
Qed.
End Cache.
End CacheProps.

(** ** The trace recorder *)
Module RecorderProps.
Import Recorder CloneProps.

Lemma makes_event e (h0 : Heap) v F : stands h0 e v F → makes h0 (copy_event e) v.
Proof.
  intros He. parts He. intros h Hh. assert (Hb : h ⊆ h) by done. unfold copy_event.
  copy_part makes_append_nil (tc_payload e). copy_done.
Qed.

Lemma makes_hid_event e (h0 : Heap) v F : stands h0 e v F → makes h0 (copy_hid_event e) v.
Proof.
  intros He. parts He. intros h Hh. assert (Hb : h ⊆ h) by done. unfold copy_hid_event.
  copy_part makes_append_nil (hc_payload e). copy_done.
Qed.

(** [make] with the length, and a loop over the elements. *)
Lemma makes_slice_copy `{!Stored (list R) object} `{!Value R V} (f : R → Heap → R * Heap) (h0 : Heap) (l : list R) vs F :
  (∀ r v F, stands h0 r v F → makes h0 (f r) v) → stands h0 l vs F →
  makes (R:=rslice R) h0 (λ h, let '(l, h) := copy_list f l h in @slice_of object R _ l h) vs.
Proof.
  intros Hf Hl. apply (makes_over_empty (R:=rslice R)). intros h Hh. pose proof (makes_copy_list f h0 l vs F Hf Hl h Hh) as Hm.
  destruct (copy_list f l h) as [l' h1]. destruct Hm as (Hh1 & G & HG & Hd). apply (stands_slice ∅ h h1 l' vs G); [done|set_solver|done].
Qed.

Lemma makes_events l (h0 : Heap) vs F : stands h0 l vs F →
  makes (R:=rslice EventCell) h0 (λ h, let '(l, h) := copy_list copy_event l h in @slice_of object EventCell _ l h) vs.
Proof. apply makes_slice_copy. intros. by eapply makes_event. Qed.
Lemma makes_hid_events l (h0 : Heap) vs F : stands h0 l vs F →
  makes (R:=rslice HIDEventCell) h0 (λ h, let '(l, h) := copy_list copy_hid_event l h in @slice_of object HIDEventCell _ l h) vs.
Proof. apply makes_slice_copy. intros. by eapply makes_hid_event. Qed.

(** The bytes of an event, unless they are redacted. *)
Lemma makes_payload (h0 : Heap) (payload : slice Z) (redacted : bool) : array_cell payload ⊆ dom h0 →
  makes (R:=slice Z) h0 (λ h, if redacted then (None, h) else append_nil payload h) (if redacted then [] else elements_of h0 payload).
Proof.
  intros Hp. destruct redacted; [by apply makes_nothing|]. by apply (makes_append_nil h0 payload _ (array_cell payload)).
Qed.

Lemma record_private direction (payload : slice Z) command redacted r h evs hids known r' h' :
  array_cell payload ⊆ known → private h r (evs, hids) known →
  record direction payload command redacted r h = (r', h') →
  private h' r' (evs ++ [event_of direction (elements_of h payload) command redacted], hids) known.
Proof.
  intros Hp Hr E. pose proof Hr as (_ & _ & _ & Hk0).
  pose proof (makes_payload h payload redacted ltac:(set_solver)) as Hm. unfold record in E.
  destruct (if redacted then _ else _) as [copied h1] eqn:E1. injection E as <- <-.
  destruct (private_keep h r _ known _ _ copied h1 Hr Hm E1) as (_ & Hk & Hv & Hq & Hrd & Hd).
  injection Hv as Hev Hhid. exists (reach h1 r ∪ reach h1 (copied : slice Z)). split; [split_and!|by split]; [| |done].
  - cbn. rewrite map_app, union_list_app_L. cbn. set_solver.
  - cbn -[elements_of] in *. rewrite map_app. cbn -[elements_of]. unfold event_of. by rewrite Hev, Hhid, <-Hq.
Qed.

Lemma record_hid_private direction command (payload : slice Z) redacted r h evs hids known r' h' :
  array_cell payload ⊆ known → private h r (evs, hids) known →
  recordHID direction command payload redacted r h = (r', h') →
  private h' r' (evs, hids ++ [hid_event_of direction command (elements_of h payload) redacted]) known.
Proof.
  intros Hp Hr E. pose proof Hr as (_ & _ & _ & Hk0).
  pose proof (makes_payload h payload redacted ltac:(set_solver)) as Hm. unfold recordHID in E.
  destruct (if redacted then _ else _) as [copied h1] eqn:E1. injection E as <- <-.
  destruct (private_keep h r _ known _ _ copied h1 Hr Hm E1) as (_ & Hk & Hv & Hq & Hrd & Hd).
  injection Hv as Hev Hhid. exists (reach h1 r ∪ reach h1 (copied : slice Z)). split; [split_and!|by split]; [| |done].
  - cbn. rewrite map_app, union_list_app_L. cbn. set_solver.
  - cbn -[elements_of] in *. rewrite map_app. cbn -[elements_of]. unfold hid_event_of. by rewrite Hev, Hhid, <-Hq.
Qed.

(** The lists of a recorder, copied. *)
Lemma makes_lists h r evs hids known : private h r (evs, hids) known → makes h (Events r) evs ∧ makes h (HIDEvents r) hids.
Proof.
  intros (F & (<- & Hv & HF) & _). injection Hv as Hev Hhid. cbn in HF.
  split; [apply (makes_events _ h _ (reach h (r_events r)))|apply (makes_hid_events _ h _ (reach h (r_hidEvents r)))];
    (split_and!; [done|done|]; cbn; set_solver).
Qed.

Lemma step_private m e m' v : step m e m' → private (m_heap m) (m_recorder m) v (m_known m) →
  private (m_heap m') (m_recorder m') (v.1 ++ e.1, v.2 ++ e.2) (m_known m').
Proof.
  destruct v as [evs hids]. intros H Hp. destruct H; cbn in *; rewrite ?app_nil_r.
  - by apply private_alloc.
  - by apply private_store.
  - by eapply record_private.
  - by eapply record_hid_private.
  - destruct (makes_lists _ _ _ _ _ Hp) as [Hm _]. exact (proj1 (private_copy _ _ _ _ _ _ _ _ _ Hp Hm (reflexivity _) H)).
  - destruct (makes_lists _ _ _ _ _ Hp) as [_ Hm]. exact (proj1 (private_copy _ _ _ _ _ _ _ _ _ Hp Hm (reflexivity _) H)).
Qed.

Lemma run_private h known e m : known ⊆ dom h → run (MkMemory h (MkTraceRecorder [] []) known) e m →
  private (m_heap m) (m_recorder m) e (m_known m).
Proof.
  intros Hk Hr. remember (MkMemory _ _ _) as m0. induction Hr as [m|m m1 m' e e' _ IH Hs]; subst.
  - exists ∅. cbn. split_and!; [split_and!; [|done|]|done|done]; set_solver.
  - specialize (IH eq_refl). by apply step_private with (v:=e) in Hs.
Qed.

(** The recorder refines the lists of trace events of the model on values:
    whatever its callers store in memory they know, the payloads they recorded
    and the lists they were given included, it holds what was recorded, in
    order, with the bytes of that time; and Events and HIDEvents answer
    exactly that, in storage that nothing else has. *)
Theorem recorder_refines h known e m (Hknown : known ⊆ dom h)
    (Hrun : run (MkMemory h (MkTraceRecorder [] []) known) e m) :
  view (m_heap m) (m_recorder m) = e ∧
  (let '(s, h') := Events (m_recorder m) (m_heap m) in stands h' s e.1 (reach h' s) ∧
     reach h' s ## m_known m ∧ reach h' s ## reach h' (m_recorder m)) ∧
  (let '(s, h') := HIDEvents (m_recorder m) (m_heap m) in stands h' s e.2 (reach h' s) ∧
     reach h' s ## m_known m ∧ reach h' s ## reach h' (m_recorder m)).
Proof.
  pose proof (run_private h known e m Hknown Hrun) as Hp. destruct e as [evs hids].
  destruct (makes_lists _ _ _ _ _ Hp) as [H1 H2]. split; [by destruct Hp as (F & (_ & Hv & _) & _)|]. split.
  - destruct (Events (m_recorder m) (m_heap m)) as [s h'] eqn:E.
    destruct (private_copy _ _ _ _ _ _ _ _ _ Hp H1 (reflexivity _) E) as (_ & _ & ? & ? & ?). done.
  - destruct (HIDEvents (m_recorder m) (m_heap m)) as [s h'] eqn:E.
    destruct (private_copy _ _ _ _ _ _ _ _ _ Hp H2 (reflexivity _) E) as (_ & _ & ? & ? & ?). done.
Qed.
End RecorderProps.

(** ** Secrets *)
Module SecretProps.
Import Secrets CloneProps.

(** Element [i] of [t] is one of the elements of [s]. *)
Definition covers (s t : slice Z) (i : nat) : bool :=
  match s, t with
  | Some w, Some u => bool_decide (array w = array u ∧ (off w ≤ off u + i)%nat ∧ (off u + i < off w + slen w)%nat)
  | _, _ => false
  end.

Lemma element_lookup (h : Heap) w i :
  elements_of (A:=Z) h (Some w) !! i = (if decide (i < slen w)%nat then default [] (deref h (array w)) !! (off w + i)%nat else None).
Proof.
  cbn. destruct (decide _).
  - by rewrite lookup_take_lt, lookup_drop by lia.
  - by rewrite lookup_take_ge by lia.
Qed.

Lemma wipe_element (s t : slice Z) (h : Heap) i x : elements_of h t !! i = Some x →
  elements_of (Wipe s h) t !! i = Some (if covers s t i then 0 else x).
Proof.
  destruct t as [u|]; [|done]. rewrite !element_lookup. destruct (decide (i < slen u)%nat) as [Hi|]; [|done]. intros Hx.
  unfold Wipe, wipeBytes, fill. destruct s as [w|]; [|exact Hx]. cbn [covers].
  destruct (deref h (array w)) as [l|] eqn:El.
  2: { rewrite bool_decide_eq_false_2; [exact Hx|]. intros [Ha _]. rewrite <-Ha, El in Hx. discriminate. }
  destruct (decide (array w = array u)) as [Ha|Ha].
  - rewrite <-Ha in *. rewrite El in Hx. cbn [default from_option] in Hx. unfold id in Hx.
    unfold deref. rewrite lookup_insert_eq. cbn [mbind option_bind]. rewrite project_inject. cbn [default from_option]. unfold id.
    pose proof (lookup_lt_Some _ _ _ Hx) as Hl.
    case_bool_decide as Hc.
    + rewrite list_lookup_inserts by (rewrite ?length_replicate, ?length_take, ?length_drop; lia).
      apply lookup_replicate_2. rewrite length_take, length_drop. lia.
    + destruct (decide (off u + i < off w)%nat) as [Hlt|Hge]; [by rewrite list_lookup_inserts_lt|].
      rewrite list_lookup_inserts_ge; [done|]. rewrite length_replicate, length_take, length_drop. lia.
  - rewrite bool_decide_eq_false_2 by tauto. unfold deref. rewrite lookup_insert_ne by done. exact Hx.
Qed.

Lemma makes_Clone s (h0 : Heap) b F : stands h0 s b F → makes h0 (Clone s) b.
Proof.
  intros Hs h Hh. pose proof (makes_append_nil h0 s b F Hs h Hh) as Hm. unfold Clone, NewSecret.
  destruct (len (elements_of h s) =? 0) eqn:E; [|exact Hm]. unfold append_nil in Hm. destruct (elements_of h s) as [|x l]; [exact Hm|].
  apply Z.eqb_eq in E. unfold len in E. cbn in E. lia.
Qed.

Lemma makes_NewSecretString pin : makes ∅ (NewSecretString pin) (bytes_of_string pin).
Proof.
  intros h Hh. unfold NewSecretString. destruct (str_empty pin) eqn:E.
  - destruct pin; [|done]. by apply (makes_nothing ∅ (None : Secret)).
  - pose proof (makes_slice_of ∅ (bytes_of_string pin) h Hh) as Hs.
    destruct (slice_of (bytes_of_string pin) h) as [b h1]. destruct Hs as (Hh1 & F & Hb & HF).
    pose proof (makes_Clone b h1 _ F Hb h1 ltac:(done)) as Hm. unfold Clone in Hm. destruct (NewSecret b h1) as [c h2].
    destruct Hm as (Hh2 & G & HG & Hd). split; [by etrans|]. exists G. split; [done|]. apply subseteq_dom in Hh1. set_solver.
Qed.

(** C20: wiping a secret overwrites every byte of it and no other: each slice of
    the same array, among them the PIN of an authorization made from the
    secret, has zeros exactly where it overlaps the secret.  A clone, the copy
    in an authorization made from a string, and whatever else lies in other
    arrays keep their value; wiping the clone leaves the secret. *)
Theorem secrets_wiped (h : Heap) (s : Secret) b F (Hs : stands h s b F) :
  uv_PIN (SecretPINAuthorization s) = s ∧
  elements_of (Wipe s h) s = replicate (length b) 0 ∧
  (∀ (t : slice Z) i x, elements_of h t !! i = Some x →
     elements_of (Wipe s h) t !! i = Some (if covers s t i then 0 else x)) ∧
  (let '(c, h1) := Clone s h in
     view (Wipe s h1) c = b ∧ Empty c (Wipe s h1) = (len b =? 0) ∧
     view (Wipe c h1) s = b ∧ view (Wipe c h1) c = replicate (length b) 0) ∧
  (∀ pin, let '(a, h1) := PINAuthorization pin h in
     view h1 (uv_PIN a) = bytes_of_string pin ∧ view (Wipe s h1) (uv_PIN a) = bytes_of_string pin ∧
     view (Wipe (uv_PIN a) h1) s = b).
Proof.
  assert (Hfar : ∀ h1 (c : Secret) v G, h ⊆ h1 → stands h1 c v G → G ## dom h →
            view h1 c = v ∧ view (Wipe s h1) c = v ∧ view (Wipe c h1) s = b).
  { intros h1 c v G Hh HG Hd. pose proof Hs as (<- & _ & HFd). pose proof HG as (<- & Hv & _). split; [done|].
    apply (stands_mono _ h1) in Hs as Hs1; [|done]. cbn in HFd, Hd.
    split; eapply fill_other; [exact HG| |exact Hs1|]; intros w ->; cbn in *; set_solver. }
  split_and!; [done| |intros t i x Hx; exact (wipe_element s t h i x Hx)| |].
  - unfold Wipe, wipeBytes. rewrite fill_elements. by destruct Hs as (_ & <- & _).
  - pose proof (makes_Clone s h b F Hs h ltac:(done)) as Hm. destruct (Clone s h) as [c h1]. destruct Hm as (Hh & G & HG & Hd).
    destruct (Hfar h1 c b G Hh HG Hd) as (Hv & H1 & H2). split_and!; [done| |done|].
    + unfold Empty. exact (f_equal (λ l, len l =? 0) H1).
    + unfold Wipe, wipeBytes. change (elements_of (fill 0 c h1) c = replicate (length b) 0). rewrite fill_elements.
      by rewrite <-Hv.
  - intros pin. unfold PINAuthorization. pose proof (makes_NewSecretString pin h (map_empty_subseteq h)) as Hm.
    destruct (NewSecretString pin h) as [c h1]. destruct Hm as (Hh & G & HG & Hd). exact (Hfar h1 c _ G Hh HG Hd).
Qed.
End SecretProps.
