(* ===== verification/CopySim.v ===== *)
(** * Runs of the code that copies

    A response decoded into memory, a caller that overwrites what it is given,
    and the theorems of CopyProps at these runs. *)
From S2P Require Import Prelude GoErrors GoText GoEncoding GoIO Descriptors Registry Ctap1 Ctap2 Manager.
From S2P Require Import ClientCore ClientFlows ClientProps GoHeap Copies CopyProps.
From stdpp Require Import relations.
Import Types Messages Trace Capabilities.
#[local] Open Scope Z_scope.

(** ** A response put into memory, every field in storage of its own *)
Definition put_slice `{!Stored (list A) object} (l : list A) (h : Heap) : slice A * Heap := slice_of l h.
Definition put_map `{Countable K} `{!Stored (gmap K A) object} (m : gmap K A) (h : Heap) : mapref (gmap K A) * Heap :=
  let '(l, h) := alloc m h in (Some l, h).
Definition put_raw (m : gmap Z bytes) (h : Heap) : ptr (gmap Z (slice Z)) * Heap :=
  let '(m, h) := copy_values put_slice m h in new_ptr m h.

Definition put_info (info : GetInfoResponse) (h : Heap) : GetInfoCell * Heap :=
  let w := Wire info in
  let '(versions, h) := put_slice (Versions w) h in
  let '(extensions, h) := put_slice (Extensions w) h in
  let '(aaguid, h) := put_slice (AAGUID w) h in
  let '(options, h) := put_map (Options w) h in
  let '(protocols, h) := put_slice (PinUVAuthProtocols w) h in
  let '(transports, h) := put_slice (InfoTransports w) h in
  let '(algorithms, h) := put_slice (Algorithms w) h in
  let '(certifications, h) := put_map (Certifications w) h in
  let '(vendor, h) := put_slice (VendorPrototypeConfigCommands w) h in
  let '(raw, h) := put_raw (Raw info) h in
  (MkInfoCell versions extensions aaguid options (MaxMsgSize w) protocols (MaxCredentialCountInList w)
     (MaxCredentialIDLength w) transports algorithms (MaxSerializedLargeBlobArray w) (ForcePINChange w)
     (MinPINLength w) (FirmwareVersion w) (MaxCredBlobLength w) (MaxRPIDsForSetMinPINLength w)
     (PreferredPlatformUVAttempts w) (UVModality w) certifications
     (RemainingDiscoverableCredentials w) vendor raw, h).

(** A list as a value that reaches no memory. *)
#[local] Instance plain_list {A} : Value (obj:=object) (list A) (list A).
Proof. refine {| reach h l := ∅; view h l := l |}. done. Defined.

Lemma makes_put_map `{Countable K} `{!Stored (gmap K A) object} (m : gmap K A) : makes ∅ (put_map m) m.
Proof.
  intros h _. unfold put_map. destruct (alloc m h) as [l h'] eqn:E. apply alloc_spec in E as (Hn & Hh & Hd & Hdom).
  split; [done|]. exists {[l]}. split; [split_and!; [done| |]|set_solver]; [cbn; by rewrite Hd|set_solver].
Qed.

Lemma makes_put_raw m : makes ∅ (put_raw m) (Some m).
Proof.
  apply (makes_ptr ∅ (copy_values put_slice m)). apply (makes_copy_values put_slice ∅ m m ∅).
  - intros l v F (_ & <- & _). apply makes_slice_of.
  - split_and!; cbn; [|by rewrite map_fmap_id|done].
    induction (map_to_list m) as [|kr l IH]; [done|]. cbn. rewrite IH. by rewrite union_empty_l_L.
Qed.

Lemma makes_put_slice `{!Stored (list A) object} (l : list A) : makes ∅ (put_slice l) l.
Proof. apply makes_slice_of. Qed.

Lemma makes_put_info info : makes ∅ (put_info info) info.
Proof.
  destruct info as [[versions extensions aaguid options ? protocols ? ? transports algorithms ? ? ? ? ? ? ? ?
                     certifications ? vendor] raw].
  intros h Hh. assert (Hb : h ⊆ h) by done. unfold put_info. cbn [Wire Raw Versions Extensions AAGUID Options
    PinUVAuthProtocols InfoTransports Algorithms Certifications VendorPrototypeConfigCommands].
  copy_step (makes_put_slice versions). copy_step (makes_put_slice extensions). copy_step (makes_put_slice aaguid).
  copy_step (makes_put_map options). copy_step (makes_put_slice protocols). copy_step (makes_put_slice transports).
  copy_step (makes_put_slice algorithms). copy_step (makes_put_map certifications). copy_step (makes_put_slice vendor).
  copy_step (makes_put_raw raw). CloneProps.copy_done.
Qed.

(** ** A client, and a caller that overwrites the options it was given *)
Import CapabilityCache.
Definition desk_device : DeviceDescriptor := MkDevice "A" KindNFC "" "Maker" "Key" "0001" 1 2.
Definition desk_info : GetInfoResponse :=
  MkInfoResponse
    (MkInfo ["FIDO_2_0"%string] [] (replicate 16 0) {["rk"%string := true]} 1200 [1; 2] 0 0 [] [] 0 false 4 0 0 0 0 0 ∅ 0 [])
    {[1 := [0x81]]}.
Definition desk_probed : option bytes * option GetInfoResponse := (None, Some desk_info).
Definition desk_caps : Caps := Capabilities.buildCapabilities None (Some desk_info) desk_device.

Definition asked : memory :=
  match GetCapabilities put_info desk_device desk_probed None ∅ with
  | (Ok r, cache, h) => MkMemory h cache (reach h r)
  | (Err _, cache, h) => MkMemory h cache ∅
  end.
(** Where the options are that the caller was given. *)
Definition given_options : mapref (gmap string bool) :=
  match GetCapabilities put_info desk_device desk_probed None ∅ with
  | (Ok r, _, h) =>
      match target h r with
      | Some c => match target h (cc_rawCTAP2 c) with Some i => ic_options i | None => None end
      | None => None
      end
  | _ => None
  end.
Definition scribbled : memory :=
  MkMemory (<[default 1%positive (given_options : option loc) := OFlags ∅]> (m_heap asked)) (m_cache asked) (m_known asked).

Lemma asked_step : step put_info desk_device (MkMemory ∅ None ∅) asked.
Proof.
  pose proof (caller_asks put_info desk_device (MkMemory ∅ None ∅) desk_probed) as H. cbn [m_heap m_cache m_known] in H.
  assert (Ha : asked = match GetCapabilities put_info desk_device desk_probed None ∅ with
                       | (Ok r, cache, h) => MkMemory h cache (reach h r ∪ ∅)
                       | (Err _, cache, h) => MkMemory h cache ∅ end) by by vm_compute.
  rewrite Ha. destruct (GetCapabilities put_info desk_device desk_probed None ∅) as [[[r|e] cache] h] eqn:E.
  - by apply H.
  - by apply (caller_is_refused put_info desk_device (MkMemory ∅ None ∅) desk_probed e).
Qed.
Lemma scribbled_step : step put_info desk_device asked scribbled.
Proof. apply caller_stores. apply (bool_decide_unpack _). by vm_compute. Qed.
Lemma asked_view : view (m_heap asked) (m_cache asked) = Some desk_caps.
Proof. by vm_compute. Qed.

Lemma capabilities_isolated_witness :
  view (m_heap scribbled) (m_cache scribbled) = Some desk_caps ∧
  ∃ r h', GetCapabilities put_info desk_device desk_probed (m_cache scribbled) (m_heap scribbled) =
    (Ok r, m_cache scribbled, h') ∧ view h' r = Some desk_caps.
Proof.
  destruct (CacheProps.capabilities_isolated put_info desk_device makes_put_info ∅ ∅ asked scribbled desk_caps
    (empty_subseteq _) (rtc_once _ _ asked_step) asked_view (rtc_once _ _ scribbled_step)) as [Hv Hask].
  split; [exact Hv|]. destruct (Hask desk_probed) as (r & h' & E & (_ & Hr & _) & _).
  exists r, h'. exact (conj E Hr).
Defined.

(** The same authenticator behind a session: it answers GetInfo only. *)
#[local] Instance desk_cbor : Cbor () := {|
  marshal_pin _ := Ok [1];
  marshal_params _ := Ok [1];
  marshal_cm _ := Ok [1];
  marshal_assertion _ := Ok [1];
  marshal_credential _ := Ok [1];
  unmarshal_pin _ := Err (EMsg "cbor");
  unmarshal_cm _ := Err (EMsg "cbor");
  unmarshal_info _ := Ok (Wire desk_info);
  unmarshal_raw _ := Ok (Raw desk_info);
  unmarshal_assertion _ := Err (EMsg "cbor");
  unmarshal_credential _ := Err (EMsg "cbor");
|}.
Definition desk_session : Client.Session nat :=
  Client.MkSession _ desk_device (λ _ req w, (match req with [4] => Ok [0; 1] | _ => Err (EMsg "no") end, S w))
    (λ w, (None, w)) None None.
Definition desk_client : Client.client nat :=
  Client.MkClient desk_session (Middleware.Chain (Client.SExchange desk_session) [])
    (Middleware.ChainHID (Client.baseHIDExchange desk_session) []) InvokeProps.default_invokers None.

Lemma capabilities_refine_witness : ∃ result w' (h' : Heap) (cache' r : ptr CapsCell),
  Capabilities.GetCapabilities desk_client Caller (None, 0%nat) = Some (result, (view h' cache', w')) ∧
  GetCapabilities put_info desk_device desk_probed None ∅ = (Ok r, cache', h') ∧
  match result with Ok caps => view h' r = Some caps | Err _ => False end.
Proof.
  pose proof (CacheProps.capabilities_refine put_info desk_device makes_put_info desk_client Caller (None, 0%nat)
    desk_probed 1%nat 2%nat ∅ None ∅ eq_refl) as H.
  cbn zeta in H. destruct (GetCapabilities put_info desk_device desk_probed None ∅) as [[[r|e] cache] h] eqn:E.
  - destruct H as (result & w' & H1 & H2); [by split_and!|done|by vm_compute|by vm_compute|]. exists result, w', h, cache, r. destruct result; [|done]. by split_and!.
  - exfalso. revert E. by vm_compute.
Defined.

(** ** A recorder, and a caller that overwrites the payload it recorded *)
Definition desk_payload : slice Z := Some (MkWindow 1%positive 0 2).
Definition desk_heap : Heap := {[1%positive := OInts [1; 2]]}.
Definition traced : Recorder.recorder * Heap :=
  Recorder.record TraceDirectionRequest desk_payload 1 false (Recorder.MkTraceRecorder [] []) desk_heap.
Definition traced_memory : Recorder.memory :=
  Recorder.MkMemory (<[1%positive := OInts [0; 0]]> traced.2) traced.1 {[1%positive]}.

Lemma traced_run :
  Recorder.run (Recorder.MkMemory desk_heap (Recorder.MkTraceRecorder [] []) {[1%positive]})
    ([event_of TraceDirectionRequest [1; 2] 1 false], []) traced_memory.
Proof.
  apply (Recorder.run_step _ (Recorder.MkMemory traced.2 traced.1 {[1%positive]}) _
    ([event_of TraceDirectionRequest [1; 2] 1 false], []) ([], [])).
  - apply (Recorder.run_step _ _ _ ([], []) ([event_of TraceDirectionRequest [1; 2] 1 false], [])
      (Recorder.run_nil _)).
    assert (E : elements_of desk_heap desk_payload = [1; 2]) by by vm_compute. rewrite <-E.
    refine (Recorder.caller_records (Recorder.MkMemory desk_heap (Recorder.MkTraceRecorder [] []) {[1%positive]})
      TraceDirectionRequest desk_payload 1 false traced.1 traced.2 _ _); [done|by vm_compute].
  - refine (Recorder.caller_stores (Recorder.MkMemory traced.2 traced.1 {[1%positive]}) 1%positive (OInts [0; 0]) _).
    by vm_compute.
Qed.

Lemma recorder_refines_witness :
  view (Recorder.m_heap traced_memory) (Recorder.m_recorder traced_memory) =
    ([event_of TraceDirectionRequest [1; 2] 1 false], []).
Proof.
  refine (proj1 (RecorderProps.recorder_refines desk_heap {[1%positive]} _ traced_memory _ traced_run)).
  by apply (bool_decide_unpack _).
Defined.

(** ** A secret, part of a larger array *)
Definition desk_secret : Secret := Some (MkWindow 1%positive 1 2).
Definition desk_array : Heap := {[1%positive := OInts [49; 50; 51; 52]]}.
Lemma secrets_wiped_witness :
  elements_of (Secrets.Wipe desk_secret desk_array) desk_secret = [0; 0] ∧
  elements_of (Secrets.Wipe desk_secret desk_array) (Some (MkWindow 1%positive 0 4) : slice Z) !! 0%nat = Some 49.
Proof.
  assert (Hs : stands (V:=bytes) desk_array desk_secret [50; 51] {[1%positive]}).
  { split_and!; [done|by vm_compute|]. by apply (bool_decide_unpack _). }
  destruct (SecretProps.secrets_wiped desk_array desk_secret [50; 51] _ Hs) as (_ & Hz & Ha & _).
  split; [exact Hz|]. apply (Ha (Some (MkWindow 1%positive 0 4)) 0%nat 49). by vm_compute.
Defined.
