(* ===== verification/PowerNative.v ===== *)
(** * The power observer, native half: src/internal/diagnostics/power/observer_darwin.c

    The reducer of power notifications, the thread that owns the registration
    and delivers the notifications, and the functions the Go half calls.  What
    the operating system answers is data of the steps ([owner_step]), so that
    every behaviour of it is a sequence of steps. *)
From S2P Require Import Prelude.

Definition u64 (x : Z) : Z := x mod 2 ^ 64.

(** ** [diagnostic_power_snapshot]: a structure of integers, by field *)
Inductive field :=
  | observer_generation | arm_generation | will_sleep_generation | powered_on_generation
  | sleep_sequence | wake_sequence | sequence
  | can_sleep_events | sleep_events | wake_events | canceled_events
  | out_of_order_events | extra_cycle_events | stale_events | ack_count | ack_errors
  | native_code | deregister_code | service_close_code
  | ready | armed | matched | closed | thread_joined | released | synthetic.
#[global] Instance field_dec : EqDecision field. Proof. solve_decision. Defined.

Definition snapshot : Type := field → Z.
#[global] Instance snapshot_insert : Insert field Z snapshot := λ f v s g, if decide (f = g) then v else s g.
(** [memset], or [calloc]. *)
Definition zeroed : snapshot := λ _, 0.
(** A field as a condition; a condition as an [int]. *)
Definition holds (s : snapshot) (f : field) : bool := negb (s f =? 0).
Definition int_of (b : bool) : Z := if b then 1 else 0.
(** [s->f++] on a [uint64_t]. *)
Definition bump (f : field) (s : snapshot) : snapshot := <[f := u64 (s f + 1)]> s.
Definition first_error (f : field) (error : Z) (s : snapshot) : snapshot :=
  if s f =? 0 then <[f := error]> s else s.

(** ** diagnostic_power_reduce *)
Definition POWER_CAN_SLEEP : Z := 1.
Definition POWER_WILL_SLEEP : Z := 2.
Definition POWER_POWERED_ON : Z := 3.
Definition POWER_WILL_NOT_SLEEP : Z := 4.

Definition acknowledged (event : Z) : bool := (event =? POWER_CAN_SLEEP) || (event =? POWER_WILL_SLEEP).

Definition count_ack (event ack_code : Z) (s : snapshot) : snapshot :=
  if acknowledged event then
    let s := bump ack_count s in
    if negb (ack_code =? 0) then first_error native_code ack_code (bump ack_errors s) else s
  else s.

Definition count_event (generation event : Z) (s : snapshot) : snapshot :=
  if event =? POWER_CAN_SLEEP then
    let s := bump can_sleep_events s in
    if (1 <? s can_sleep_events) || holds s sleep_events || holds s wake_events then bump extra_cycle_events s else s
  else if event =? POWER_WILL_SLEEP then
    let s := bump sleep_events s in
    if (s sleep_events =? 1) && negb (holds s wake_events) && negb (holds s canceled_events)
    then <[sleep_sequence := s sequence]> (<[will_sleep_generation := generation]> s)
    else bump out_of_order_events (bump extra_cycle_events s)
  else if event =? POWER_POWERED_ON then
    let s := bump wake_events s in
    if (s wake_events =? 1) && (s sleep_events =? 1) && holds s sleep_sequence && negb (holds s canceled_events)
    then <[wake_sequence := s sequence]> (<[powered_on_generation := generation]> s)
    else
      let s := bump out_of_order_events s in
      if 1 <? s wake_events then bump extra_cycle_events s else s
  else if event =? POWER_WILL_NOT_SLEEP then bump canceled_events s
  else bump out_of_order_events s.

Definition complete_cycle (s : snapshot) : bool :=
  (s sleep_events =? 1) && (s wake_events =? 1) &&
  (s will_sleep_generation =? s arm_generation) && (s powered_on_generation =? s arm_generation) &&
  holds s sleep_sequence && (s sleep_sequence <? s wake_sequence) && negb (holds s canceled_events) &&
  negb (holds s out_of_order_events) && negb (holds s extra_cycle_events) && negb (holds s stale_events) &&
  negb (holds s ack_errors).

Definition diagnostic_power_reduce (generation event ack_code : Z) (s : snapshot) : snapshot :=
  if negb (holds s armed) then s
  else if negb (generation =? s arm_generation) then <[matched := 0]> (bump stale_events s)
  else
    let s := count_event generation event (count_ack event ack_code (bump sequence s)) in
    <[matched := int_of (complete_cycle s)]> s.

(** ** The observer and its owner thread *)
Definition kIOReturnError : Z := 0xe00002bc.
Definition kIOReturnNoMemory : Z := 0xe00002bd.
Definition kIOReturnNoResources : Z := 0xe00002be.
Definition kIOMessageCanSystemSleep : Z := 0xe0000270.
Definition kIOMessageSystemWillSleep : Z := 0xe0000280.
Definition kIOMessageSystemWillNotSleep : Z := 0xe0000290.
Definition kIOMessageSystemHasPoweredOn : Z := 0xe0000300.

(** [power_registration]: which of its references are there. *)
Record registration := MkRegistration { r_generation : Z; root : bool; notifier : bool; port : bool; source : bool }.
Definition no_registration : registration := MkRegistration 0 false false false false.

(** What one notification was, and the code of its acknowledgement. *)
Record event := MkEvent { e_generation : Z; e_kind : Z; e_ack : Z }.

Record observer := MkObserver {
  o_registration : registration;
  o_snapshot : snapshot;
  stop : bool;
  arm_requested : bool;
  arm_done : bool;
  arm_error : Z;
  (** The thread function has returned. *)
  exited : bool;
  (** For the statements: the notifications since the observer was armed. *)
  delivered : list event;
}.

Definition with_snapshot (f : snapshot → snapshot) (o : observer) : observer :=
  MkObserver (o_registration o) (f (o_snapshot o)) (stop o) (arm_requested o) (arm_done o) (arm_error o)
    (exited o) (delivered o).

(** What the system answers when the thread gives up and makes a registration:
    two error codes; whether there is a root port and a run-loop source. *)
Record os_answers := MkAnswers { os_deregister : Z; os_close : Z; os_root : bool; os_source : bool }.

Definition unregister_power (a : os_answers) (o : observer) : Z * observer :=
  let r := o_registration o in
  let deregister := if notifier r then os_deregister a else 0 in
  let closed := if root r then os_close a else 0 in
  let error := if negb (deregister =? 0) then deregister else closed in
  (error,
   MkObserver no_registration
     (first_error native_code error (first_error service_close_code closed
        (first_error deregister_code deregister (o_snapshot o))))
     (stop o) (arm_requested o) (arm_done o) (arm_error o) (exited o) (delivered o)).

Definition register_power (a : os_answers) (generation : Z) (o : observer) : Z * observer :=
  let set r := MkObserver r (o_snapshot o) (stop o) (arm_requested o) (arm_done o) (arm_error o) (exited o) (delivered o) in
  if negb (os_root a) then (kIOReturnError, set (MkRegistration generation false false false false))
  else if negb (os_source a) then (kIOReturnNoMemory, set (MkRegistration generation true true true false))
  else (0, set (MkRegistration generation true true true true)).

(** power_callback, for a message and the answer of [IOAllowPowerChange]. *)
Definition event_of_message (message : Z) : option Z :=
  if message =? kIOMessageCanSystemSleep then Some POWER_CAN_SLEEP
  else if message =? kIOMessageSystemWillSleep then Some POWER_WILL_SLEEP
  else if message =? kIOMessageSystemHasPoweredOn then Some POWER_POWERED_ON
  else if message =? kIOMessageSystemWillNotSleep then Some POWER_WILL_NOT_SLEEP
  else None.
Definition power_callback (message allowed : Z) (o : observer) : observer :=
  let ack := if (message =? kIOMessageCanSystemSleep) || (message =? kIOMessageSystemWillSleep) then allowed else 0 in
  match event_of_message message with
  | None => o
  | Some event =>
      let s := o_snapshot o in
      let s := if negb (holds s armed) && negb (ack =? 0)
               then first_error native_code ack (bump ack_errors s) else s in
      let generation := r_generation (o_registration o) in
      MkObserver (o_registration o) (diagnostic_power_reduce generation event ack s) (stop o) (arm_requested o)
        (arm_done o) (arm_error o) (exited o) (delivered o ++ [MkEvent generation event ack])
  end.

(** The end of power_main. *)
Definition thread_ends (a : os_answers) (o : observer) : observer :=
  let o := (unregister_power a o).2 in
  let s := <[closed := 1]> (<[armed := 0]> (o_snapshot o)) in
  let s := <[released := int_of (negb (holds s deregister_code) && negb (holds s service_close_code))]> s in
  MkObserver (o_registration o) s (stop o) (arm_requested o) (arm_done o) (arm_error o) true (delivered o).

(** The arming of power_main; the critical sections of it have no reader in
    between, since the caller that armed waits for [arm_done]. *)
Definition thread_arms (a : os_answers) (o : observer) : Z * observer :=
  let error := o_snapshot o native_code in
  let '(error, o) := if error =? 0 then unregister_power a o else (error, o) in
  let generation := u64 (o_snapshot o arm_generation + 1) in
  let observer := o_snapshot o observer_generation in
  let error := if (generation =? 0) && (error =? 0) then kIOReturnNoResources else error in
  let '(error, o) := if error =? 0 then register_power a generation o else (error, o) in
  let '(s, delivered) :=
    if error =? 0
    then (<[armed := 1]> (<[ready := 1]> (<[arm_generation := generation]> (<[observer_generation := observer]> zeroed))), [])
    else (first_error native_code error (o_snapshot o), delivered o) in
  (error, MkObserver (o_registration o) s (stop o) false true error (exited o) delivered).

(** One turn of the loop of power_main, up to [CFRunLoopRunInMode], and one
    notification that the run loop delivers. *)
Inductive owner_step :=
  | Turn (arming ending : os_answers)
  | Deliver (message allowed : Z).

Definition owner_runs (t : owner_step) (o : observer) : observer :=
  if exited o then o
  else
    match t with
    | Turn arming ending =>
        if stop o then thread_ends ending o
        else if arm_requested o then
          let '(error, o) := thread_arms arming o in
          if error =? 0 then o else thread_ends ending o
        else o
    | Deliver message allowed =>
        if source (o_registration o) then power_callback message allowed o else o
    end.

(** What the thread does between two steps of a caller. *)
Definition batch : Type := list owner_step.
Definition run_batch (b : batch) (o : observer) : observer := foldl (λ o t, owner_runs t o) o b.

(** ** The functions of power_native.h *)
Definition EINVAL : Z := 22.
Definition EAGAIN : Z := 35.
Definition ENOMEM : Z := 12.
Definition ETIMEDOUT : Z := 60.
Definition ECANCELED : Z := 89.
Definition EPROTO : Z := 100.
Definition MAX_POWER_OBSERVERS : Z := 8.

(** The atomic counters of the library. *)
Record library := MkLibrary { observer_count : Z; next_generation : Z }.

(** The answers of [calloc] and of the three [pthread] calls. *)
Record creation := MkCreation { calloc_ok : bool; mutex_init : Z; cond_init : Z; pthread_create : Z }.

(** The thread error, the native error and the observer.  The thread has
    registered when the function returns. *)
Definition diagnostic_power_new (c : creation) (a ending : os_answers) (l : library)
    : (Z * Z * option observer) * library :=
  if MAX_POWER_OBSERVERS <=? observer_count l then ((EAGAIN, 0, None), l)
  else if negb (calloc_ok c) then ((ENOMEM, 0, None), l)
  else
    let generation := next_generation l in
    let l' := MkLibrary (observer_count l) (u64 (generation + 1)) in
    if negb (mutex_init c =? 0) then ((mutex_init c, 0, None), l')
    else if negb (cond_init c =? 0) then ((cond_init c, 0, None), l')
    else if negb (pthread_create c =? 0) then ((pthread_create c, 0, None), l')
    else
      let o := MkObserver no_registration (<[observer_generation := generation]> zeroed) false false false 0 false [] in
      let '(error, o) := register_power a 0 o in
      let o := with_snapshot (λ s, first_error native_code error (<[ready := int_of (error =? 0)]> s)) o in
      let native := o_snapshot o native_code in
      let o := if error =? 0 then o else thread_ends ending o in
      ((0, native, Some o), MkLibrary (observer_count l + 1) (u64 (generation + 1))).

(** [while (!arm_done && !closed) pthread_cond_wait]: none when the schedule
    ends before the thread has answered. *)
Fixpoint await (done : observer → bool) (schedule : list batch) (o : observer) : option (observer * list batch) :=
  if done o then Some (o, schedule)
  else match schedule with
       | [] => None
       | b :: schedule => await done schedule (run_batch b o)
       end.

Definition request_arm (o : observer) : observer :=
  MkObserver (o_registration o) (o_snapshot o) (stop o) true false (arm_error o) (exited o) (delivered o).

(** The result, the generation and the native error. *)
Definition diagnostic_power_arm (o : observer) (schedule : list batch)
    : option ((Z * Z * Z) * observer * list batch) :=
  let s := o_snapshot o in
  if negb (holds s ready) || holds s closed || stop o || holds s native_code
  then Some ((ECANCELED, 0, s native_code), o, schedule)
  else
    match await (λ o, arm_done o || holds (o_snapshot o) closed) schedule (request_arm o) with
    | None => None
    | Some (o, schedule) => Some ((0, o_snapshot o arm_generation, arm_error o), o, schedule)
    end.

(** What the wait concludes, and whether it waits at all. *)
Definition wait_code (sleep_only : bool) (s : snapshot) : Z :=
  if holds s closed then ECANCELED
  else if holds s native_code || holds s out_of_order_events || holds s extra_cycle_events || holds s stale_events
          || holds s canceled_events then EPROTO
  else if (if sleep_only then s sleep_events =? 1 else holds s matched) then 0
  else ETIMEDOUT.

(** The 20 ms are one batch, cut short by the first broadcast or not;
    [timedwait] is what the timed wait returns. *)
Definition diagnostic_power_wait (generation : Z) (sleep_only : bool) (timedwait : Z) (b : batch) (o : observer)
    : Z * observer :=
  let s := o_snapshot o in
  if (generation =? 0) || negb (s arm_generation =? generation) then (EINVAL, o)
  else
    let '(error, o) := if negb (holds s closed) && negb (holds s native_code)
                          && negb (if sleep_only then holds s sleep_events else holds s matched)
                       then (timedwait, run_batch b o) else (0, o) in
    ((if (error =? 0) || (error =? ETIMEDOUT) then wait_code sleep_only (o_snapshot o) else error), o).

Definition request_stop (o : observer) : observer :=
  MkObserver (o_registration o) (o_snapshot o) true (arm_requested o) (arm_done o) (arm_error o) (exited o) (delivered o).

(** The error of [pthread_join], or the last snapshot; the observer is freed. *)
Definition diagnostic_power_close (join : Z) (o : observer) (schedule : list batch) (l : library)
    : option ((Z * snapshot) * option observer * list batch * library) :=
  let o := request_stop o in
  if negb (join =? 0) then Some ((join, zeroed), Some o, schedule, l)
  else
    match await exited schedule o with
    | None => None
    | Some (o, schedule) =>
        let s := <[thread_joined := 1]> (o_snapshot o) in
        Some ((0, s), None, schedule,
              if holds s released then MkLibrary (observer_count l - 1) (next_generation l) else l)
    end.
