(* ===== verification/PowerObserver.v ===== *)
(** * The power observer, Go half: src/internal/diagnostics/power

    types.go, errors.go and observer_darwin.go, over the native half
    (PowerNative).  A call that blocks is given a schedule:
    what the owner thread does, batch by batch, while the call waits; it has
    no result when the schedule ends first. *)
From S2P Require Import Prelude GoErrors PowerNative.

(** ** types.go and errors.go *)
Module Power.
Record Snapshot := MkSnapshot {
  ObserverGeneration : Z; ArmGeneration : Z; WillSleepGeneration : Z; PoweredOnGeneration : Z;
  SleepSequence : Z; WakeSequence : Z;
  CanSleepEvents : Z; SleepEvents : Z; WakeEvents : Z; CanceledEvents : Z;
  OutOfOrderEvents : Z; ExtraCycleEvents : Z; StaleEvents : Z; AckCount : Z; AckErrors : Z;
  NativeCode : Z; DeregisterCode : Z; ServiceCloseCode : Z;
  Ready : bool; Armed : bool; Matched : bool; Closed : bool; ThreadJoined : bool; Released : bool; Synthetic : bool;
}.
Definition no_snapshot : Snapshot :=
  MkSnapshot 0 0 0 0 0 0 0 0 0 0 0 0 0 0 0 0 0 0 false false false false false false false.

Definition CanSleep : Z := 1.
Definition WillSleep : Z := 2.
Definition PoweredOn : Z := 3.
Definition WillNotSleep : Z := 4.

(** [Event], an input of the reducer. *)
Record Event := MkEvent { EventKind : Z; EventGeneration : Z; AckCode : Z }.

Inductive Kind :=
  | KindIO | KindClosed | KindRemoved | KindPermission | KindBusy | KindUnsupported | KindInvalidArgument
  | KindResourceLimit.

(** The errors of this package: [*Error], [errors.Join] and the error of a
    context. *)
Inductive error :=
  | PError (Op : string) (EKind : Kind) (Domain : string) (Code : Z) (Message : string) (Cause : option error)
  | PJoin (errs : list error)
  | PCtx (c : ctx_err).

Definition failure (op : string) (kind : Kind) (message : string) : error := PError op kind "" 0 message None.

(** [errors.Join] *)
Definition Join (errs : list (option error)) : option error :=
  match omap id errs with [] => None | l => Some (PJoin l) end.

(** The texts of [syscall.Errno] and of [mach_error_string]. *)
Class PowerText := { errno_text : Z → string; mach_error_string : Z → string }.

(** ** observer_darwin.go *)
Definition kIOReturnNoDevice : Z := 0xe00002c0.
Definition kIOReturnNotPrivileged : Z := 0xe00002c1.
Definition kIOReturnBadArgument : Z := 0xe00002c2.
Definition kIOReturnExclusiveAccess : Z := 0xe00002c5.
Definition kIOReturnUnsupported : Z := 0xe00002c7.
Definition kIOReturnNotOpen : Z := 0xe00002cd.
Definition kIOReturnBusy : Z := 0xe00002d5.
Definition kIOReturnOffline : Z := 0xe00002d7.
Definition kIOReturnNotPermitted : Z := 0xe00002e2.

Definition publicSnapshot (s : snapshot) : Snapshot :=
  MkSnapshot (s observer_generation) (s arm_generation) (s will_sleep_generation) (s powered_on_generation)
    (s sleep_sequence) (s wake_sequence)
    (s can_sleep_events) (s sleep_events) (s wake_events) (s canceled_events)
    (s out_of_order_events) (s extra_cycle_events) (s stale_events) (s ack_count) (s ack_errors)
    (s native_code) (s deregister_code) (s service_close_code)
    (holds s ready) (holds s armed) (holds s matched) (holds s closed) (holds s thread_joined) (holds s released)
    (holds s synthetic).

Definition reduce_events (events : list Event) (s : snapshot) : snapshot :=
  foldl (λ s e, diagnostic_power_reduce (EventGeneration e) (EventKind e) (AckCode e) s) s events.
Definition ReduceEvents (generation : Z) (events : list Event) : Snapshot :=
  let native := <[arm_generation := generation]> (<[observer_generation := 1]> (<[synthetic := 1]> zeroed)) in
  if (generation =? 0) || (256 <? len events) then publicSnapshot (<[native_code := kIOReturnBadArgument]> native)
  else publicSnapshot (reduce_events events (<[armed := 1]> (<[ready := 1]> native))).

Section Observer.
Context `{!PowerText}.

Definition pthreadError (op : string) (code : Z) : error := PError op KindIO "pthread" code (errno_text code) None.
Definition ioError (op : string) (code : Z) : error :=
  let kind :=
    if (code =? kIOReturnNoDevice) || (code =? kIOReturnOffline) then KindRemoved
    else if (code =? kIOReturnNotPrivileged) || (code =? kIOReturnNotPermitted) then KindPermission
    else if (code =? kIOReturnExclusiveAccess) || (code =? kIOReturnBusy) then KindBusy
    else if code =? kIOReturnUnsupported then KindUnsupported
    else if (code =? kIOReturnNoMemory) || (code =? kIOReturnNoResources) then KindResourceLimit
    else if code =? kIOReturnNotOpen then KindClosed
    else KindIO in
  PError op kind "iokit" code (mach_error_string code) None.

(** [Observer], without its mutex: a call is one step, and [Wait] gives way to
    others where it unlocks. *)
Record Observer := MkPower { native : option observer; last : Snapshot }.

Definition Available : bool := true.

Definition powerCleanupError (s : Snapshot) : option error :=
  Join [if negb (DeregisterCode s =? 0) then Some (ioError "power observer deregister" (DeregisterCode s)) else None;
        if negb (ServiceCloseCode s =? 0) then Some (ioError "power observer service close" (ServiceCloseCode s)) else None].

Definition Close (join : Z) (schedule : list batch) (p : Observer) (l : library)
    : option (option error * Observer * library) :=
  match native p with
  | None => Some (powerCleanupError (last p), p, l)
  | Some o =>
      match diagnostic_power_close join o schedule l with
      | None => None
      | Some ((code, s), o, _, l) =>
          if negb (code =? 0) then Some (Some (pthreadError "power observer join" code), MkPower o (last p), l)
          else Some (powerCleanupError (publicSnapshot s), MkPower None (publicSnapshot s), l)
      end
  end.

Definition New (c : creation) (a ending : os_answers) (join : Z) (schedule : list batch) (l : library)
    : option (option Observer * option error * library) :=
  match diagnostic_power_new c a ending l with
  | ((threadError, _, None), l) => Some (None, Some (pthreadError "power observer create" threadError), l)
  | ((_, nativeError, Some o), l) =>
      let p := MkPower (Some o) no_snapshot in
      if negb (nativeError =? 0) then
        match Close join schedule p l with
        | None => None
        | Some (err, _, l) => Some (None, Join [Some (ioError "power observer register" nativeError); err], l)
        end
      else Some (Some p, None, l)
  end.

Definition Arm (schedule : list batch) (p : Observer) : option (Z * option error * Observer) :=
  match native p with
  | None => Some (0, Some (failure "power observer arm" KindClosed "observer closed"), p)
  | Some o =>
      match diagnostic_power_arm o schedule with
      | None => None
      | Some ((code, generation, nativeError), o, _) =>
          let p := MkPower (Some o) (last p) in
          if negb (nativeError =? 0) then Some (0, Some (ioError "power observer arm" nativeError), p)
          else if negb (code =? 0) then Some (0, Some (pthreadError "power observer arm" code), p)
          else Some (generation, None, p)
      end
  end.

Definition snapshotLocked (p : Observer) : Snapshot * Observer :=
  match native p with
  | Some o => let s := publicSnapshot (o_snapshot o) in (s, MkPower (Some o) s)
  | None => (last p, p)
  end.

(** The owner thread runs by itself. *)
Definition owner (b : batch) (p : Observer) : Observer := MkPower (run_batch b <$> native p) (last p).

(** *** Other callers *)
Inductive call :=
  | OwnerRuns (b : batch)
  | CallArm (schedule : list batch)
  | CallSnapshot
  | CallClose (join : Z) (schedule : list batch).

Definition run_call (c : call) (x : Observer * library) : option (Observer * library) :=
  let '(p, l) := x in
  match c with
  | OwnerRuns b => Some (owner b p, l)
  | CallArm schedule => match Arm schedule p with Some (_, _, p) => Some (p, l) | None => None end
  | CallSnapshot => Some ((snapshotLocked p).2, l)
  | CallClose join schedule => match Close join schedule p l with Some (_, p, l) => Some (p, l) | None => None end
  end.
Fixpoint run_calls (calls : list call) (x : Observer * library) : option (Observer * library) :=
  match calls with
  | [] => Some x
  | c :: calls => match run_call c x with Some x => run_calls calls x | None => None end
  end.

(** One round of the loop of [wait]: what other callers do before it, whether
    the context has ended, what the timed wait returns, and what the owner
    thread does during the native wait and before the snapshot is read. *)
Record tick := MkTick {
  others : list call; ended : option ctx_err; timedwait : Z; waiting : batch; reading : batch;
}.

Definition wait_failed (code : Z) (s : Snapshot) : error :=
  if negb (NativeCode s =? 0) then ioError "power observer wait" (NativeCode s)
  else
    let kind := if code =? EINVAL then KindInvalidArgument else if code =? ECANCELED then KindClosed else KindIO in
    failure "power observer wait" kind "power event sequence did not qualify for the armed generation".

Fixpoint wait_loop (generation : Z) (sleepOnly : bool) (ticks : list tick) (x : Observer * library)
    : option (Snapshot * option error * (Observer * library)) :=
  match ticks with
  | [] => None
  | t :: ticks =>
      match run_calls (others t) x with
      | None => None
      | Some (p, l) =>
          match ended t with
          | Some e => let '(s, p) := snapshotLocked (owner (reading t) p) in Some (s, Some (PCtx e), (p, l))
          | None =>
              match native p with
              | None => Some (last p, Some (failure "power observer wait" KindClosed "observer closed"), (p, l))
              | Some o =>
                  let '(code, o) := diagnostic_power_wait generation sleepOnly (timedwait t) (waiting t) o in
                  let '(s, p) := snapshotLocked (owner (reading t) (MkPower (Some o) (last p))) in
                  if code =? 0 then Some (s, None, (p, l))
                  else if code =? ETIMEDOUT then wait_loop generation sleepOnly ticks (p, l)
                  else Some (s, Some (wait_failed code s), (p, l))
              end
          end
      end
  end.
Definition wait (ctx_nil : bool) (generation : Z) (sleepOnly : bool) (ticks : list tick) (x : Observer * library)
    : option (Snapshot * option error * (Observer * library)) :=
  if ctx_nil || (generation =? 0)
  then Some (no_snapshot, Some (failure "power observer wait" KindInvalidArgument "context and arm generation are required"), x)
  else wait_loop generation sleepOnly ticks x.
Definition Wait (ctx_nil : bool) (generation : Z) := wait ctx_nil generation false.
Definition WaitSleep (ctx_nil : bool) (generation : Z) := wait ctx_nil generation true.
End Observer.
End Power.
