(* ===== verification/PowerUnsupported.v ===== *)
(** * The power observer of other builds: src/internal/diagnostics/power/observer_unsupported.go *)
From S2P Require Import Prelude GoErrors PowerNative PowerObserver.

Module PowerUnsupported.
Import Power.
Definition Available : bool := false.
Definition unsupported : error := failure "observe" KindUnsupported "native power observation requires Darwin cgo".
Definition New : option () * option error := (None, Some unsupported).
Definition Arm : Z * option error := (0, Some unsupported).
Definition Snapshot : Power.Snapshot := no_snapshot.
Definition WaitSleep : Power.Snapshot * option error := (no_snapshot, Some unsupported).
Definition Wait : Power.Snapshot * option error := (no_snapshot, Some unsupported).
Definition Close : option error := None.
Definition ReduceEvents (generation : Z) (events : list Event) : Power.Snapshot :=
  MkSnapshot 0 0 0 0 0 0 0 0 0 0 0 0 0 0 0 kIOReturnUnsupported 0 0 false false false false false false true.
End PowerUnsupported.
