(* ===== verification/PowerDiagnostics.v ===== *)
(** * The adapter of the HID harness: src/pkg/hid/internal/darwin/power_diagnostics_darwin.go

    The shared observer under the errors of the HID driver. *)
From S2P Require Import Prelude GoErrors PowerNative PowerObserver.

Module PowerDiagnostics.
Import Power.

Definition driver_kind_of (k : Kind) : driver_kind :=
  match k with
  | KindClosed => GoErrors.KindClosed
  | KindRemoved => GoErrors.KindRemoved
  | KindPermission => GoErrors.KindPermission
  | KindBusy => GoErrors.KindBusy
  | KindUnsupported => GoErrors.KindUnsupported
  | KindInvalidArgument => GoErrors.KindInvalidArgument
  | KindResourceLimit => GoErrors.KindResourceLimit
  | KindIO => GoErrors.KindIO
  end.
Fixpoint translatePowerError (err : error) : goerror :=
  match err with
  | PError op kind domain code message cause =>
      EDriver op (driver_kind_of kind) domain code message
        (match cause with Some c => Some (translatePowerError c) | None => None end)
  | PJoin causes => EJoin (map translatePowerError causes)
  | PCtx c => ECtx c
  end.
Definition translated (err : option error) : option goerror := translatePowerError <$> err.

Definition failure (op : string) (kind : driver_kind) (message : string) : goerror := EDriver op kind "" 0 message None.

Section Adapter.
Context `{!PowerText}.

(** [PowerObserver], without the shared observer when it is a zero value. *)
Definition PowerObserver : Type := option Observer.

Definition NewPowerObserver (c : creation) (a ending : os_answers) (join : Z) (schedule : list batch) (l : library)
    : option (option PowerObserver * option goerror * library) :=
  match New c a ending join schedule l with
  | None => None
  | Some (_, Some err, l) => Some (None, translated (Some err), l)
  | Some (p, None, l) => Some (Some p, None, l)
  end.

Definition Arm (schedule : list batch) (p : PowerObserver) : option (Z * option goerror * PowerObserver) :=
  match p with
  | None => Some (0, Some (failure "power observer arm" GoErrors.KindClosed "observer closed"), p)
  | Some observer =>
      match Power.Arm schedule observer with
      | None => None
      | Some (generation, err, observer) => Some (generation, translated err, Some observer)
      end
  end.

Definition Snapshot (p : PowerObserver) : Power.Snapshot * PowerObserver :=
  match p with
  | None => (no_snapshot, p)
  | Some observer => let '(s, observer) := snapshotLocked observer in (s, Some observer)
  end.

Definition uninitializedWait (ctx_nil : bool) (ctx_Err : option ctx_err) (generation : Z) : Power.Snapshot * option goerror :=
  if ctx_nil || (generation =? 0)
  then (no_snapshot, Some (failure "power observer wait" GoErrors.KindInvalidArgument "context and arm generation are required"))
  else match ctx_Err with
       | Some e => (no_snapshot, Some (ECtx e))
       | None => (no_snapshot, Some (failure "power observer wait" GoErrors.KindClosed "observer closed"))
       end.

(** [sleepOnly] tells WaitSleep from Wait. *)
Definition Wait (ctx_nil : bool) (ctx_Err : option ctx_err) (generation : Z) (sleepOnly : bool) (ticks : list tick)
    (p : PowerObserver) (l : library) : option (Power.Snapshot * option goerror * PowerObserver * library) :=
  match p with
  | None => let '(s, err) := uninitializedWait ctx_nil ctx_Err generation in Some (s, err, p, l)
  | Some observer =>
      match (if sleepOnly then WaitSleep else Power.Wait) ctx_nil generation ticks (observer, l) with
      | None => None
      | Some (s, err, (observer, l)) => Some (s, translated err, Some observer, l)
      end
  end.

Definition Close (join : Z) (schedule : list batch) (p : PowerObserver) (l : library)
    : option (option goerror * PowerObserver * library) :=
  match p with
  | None => Some (None, p, l)
  | Some observer =>
      match Power.Close join schedule observer l with
      | None => None
      | Some (err, observer, l) => Some (translated err, Some observer, l)
      end
  end.

Definition ReducePowerEvents (generation : Z) (events : list Event) : Power.Snapshot := ReduceEvents generation events.
End Adapter.
End PowerDiagnostics.
