(* ===== verification/PowerReducer.v ===== *)
(** * The reducer of power events

    diagnostic_power_reduce recognises exactly the sequences of one sleep and
    wake cycle, by the phases of such a cycle. *)
From S2P Require Import Prelude PowerNative.
#[local] Open Scope Z_scope.

Module ReducerProps.

(** ** The reference: what a qualifying cycle is *)
Definition can_sleep_ok (g : Z) (e : event) : bool :=
  (e_kind e =? POWER_CAN_SLEEP) && (e_generation e =? g) && (e_ack e =? 0).
Definition will_sleep_ok (g : Z) (e : event) : bool :=
  (e_kind e =? POWER_WILL_SLEEP) && (e_generation e =? g) && (e_ack e =? 0).
Definition powered_on_ok (g : Z) (e : event) : bool := (e_kind e =? POWER_POWERED_ON) && (e_generation e =? g).

(** The system goes to sleep, perhaps after one question, and wakes up; every
    required acknowledgement is accepted, and nothing else happens. *)
Definition qualifies (g : Z) (es : list event) : bool :=
  match es with
  | [s; w] => will_sleep_ok g s && powered_on_ok g w
  | [c; s; w] => can_sleep_ok g c && will_sleep_ok g s && powered_on_ok g w
  | _ => false
  end.
(** The first half of it. *)
Definition asleep (g : Z) (es : list event) : bool :=
  match es with
  | [s] => will_sleep_ok g s
  | [c; s] => can_sleep_ok g c && will_sleep_ok g s
  | _ => false
  end.

(** ** The phases of a cycle *)
Inductive phase := Idle | Polled | Asleep | Cycled | Spoiled.
#[export] Instance phase_dec : EqDecision phase. Proof. solve_decision. Defined.
Definition advance (g : Z) (ph : phase) (e : event) : phase :=
  match ph with
  | Idle => if can_sleep_ok g e then Polled else if will_sleep_ok g e then Asleep else Spoiled
  | Polled => if will_sleep_ok g e then Asleep else Spoiled
  | Asleep => if powered_on_ok g e then Cycled else Spoiled
  | Cycled | Spoiled => Spoiled
  end.
Definition phase_of (g : Z) (es : list event) : phase := foldl (advance g) Idle es.

Lemma spoiled_stays g es : foldl (advance g) Spoiled es = Spoiled.
Proof. by induction es. Qed.
Lemma cycled_next g es : foldl (advance g) Cycled es = match es with [] => Cycled | _ => Spoiled end.
Proof. destruct es; [done|]. apply spoiled_stays. Qed.
Lemma can_not_will g e : can_sleep_ok g e = true → will_sleep_ok g e = false.
Proof.
  unfold can_sleep_ok, will_sleep_ok. intros ((->%Z.eqb_eq & _)%andb_prop & _)%andb_prop. done.
Qed.

Lemma asleep_next g es : foldl (advance g) Asleep es =
  match es with [] => Asleep | [w] => if powered_on_ok g w then Cycled else Spoiled | _ => Spoiled end.
Proof.
  destruct es as [|w es]; [done|]. cbn [foldl advance]. destruct (powered_on_ok g w).
  - rewrite cycled_next. by destruct es.
  - rewrite spoiled_stays. by destruct es.
Qed.
Lemma polled_next g es : foldl (advance g) Polled es =
  match es with [] => Polled | s :: es => if will_sleep_ok g s then foldl (advance g) Asleep es else Spoiled end.
Proof. destruct es as [|s es]; [done|]. cbn [foldl advance]. destruct (will_sleep_ok g s); [done|apply spoiled_stays]. Qed.

(** The phases recognise the reference. *)
Lemma phase_exact g es :
  qualifies g es = bool_decide (phase_of g es = Cycled) ∧ asleep g es = bool_decide (phase_of g es = Asleep).
Proof.
  unfold phase_of. destruct es as [|a es]; [done|]. cbn [foldl advance].
  destruct (can_sleep_ok g a) eqn:Ec.
  - rewrite polled_next. pose proof (can_not_will _ _ Ec) as Ew. destruct es as [|b es]; cbn; rewrite ?Ec, ?Ew; [done|].
    destruct (will_sleep_ok g b); [|by destruct es as [|? [|]]]. rewrite asleep_next.
    destruct es as [|w [|]]; cbn; [done|by destruct (powered_on_ok g w)|done].
  - destruct (will_sleep_ok g a) eqn:Ew.
    + rewrite asleep_next. destruct es as [|w [|x es]]; cbn; rewrite ?Ec, ?Ew; [done|by destruct (powered_on_ok g w)|].
      by destruct es.
    + rewrite spoiled_stays. by destruct es as [|w [|x [|]]]; cbn; rewrite ?Ec, ?Ew.
Qed.

(** ** The snapshot and the phase *)
Lemma put_same f v (s : snapshot) : (<[f := v]> s) f = v.
Proof. unfold insert, snapshot_insert. by rewrite decide_True. Qed.
Lemma put_other f g v (s : snapshot) : f ≠ g → (<[f := v]> s) g = s g.
Proof. intros. unfold insert, snapshot_insert. by rewrite decide_False. Qed.
Ltac fields := repeat first [rewrite put_same in *|rewrite put_other in * by discriminate].

(** The fields that count, or number, events. *)
Definition counter (f : field) : bool :=
  bool_decide (f ∈ [sequence; can_sleep_events; sleep_events; wake_events; canceled_events; out_of_order_events;
                    extra_cycle_events; stale_events; ack_count; ack_errors]).
Definition counted (n : Z) (s : snapshot) : Prop := ∀ f, counter f = true → (0 <= s f <= n).

Lemma counted_zeroed : counted 0 zeroed.
Proof. intros f _. unfold zeroed. lia. Qed.

(** No event was anything but the next of a cycle. *)
Definition clean (s : snapshot) : Prop :=
  s canceled_events = 0 ∧ s out_of_order_events = 0 ∧ s extra_cycle_events = 0 ∧ s stale_events = 0 ∧ s ack_errors = 0.

Definition in_phase (n g : Z) (s : snapshot) (ph : phase) : Prop :=
  match ph with
  | Idle => clean s ∧ s can_sleep_events = 0 ∧ s sleep_events = 0 ∧ s wake_events = 0 ∧ s matched = 0 ∧ s sequence = n
  | Polled => clean s ∧ s can_sleep_events = 1 ∧ s sleep_events = 0 ∧ s wake_events = 0 ∧ s matched = 0 ∧ s sequence = n
  | Asleep =>
      clean s ∧ s can_sleep_events <= 1 ∧ s sleep_events = 1 ∧ s wake_events = 0 ∧ s matched = 0 ∧ s sequence = n ∧
      s will_sleep_generation = g ∧ s sleep_sequence = n ∧ 0 < n
  | Cycled =>
      clean s ∧ s sleep_events = 1 ∧ s wake_events = 1 ∧ s matched = 1 ∧ s sequence = n ∧
      s will_sleep_generation = g ∧ s powered_on_generation = g ∧ 0 < s sleep_sequence < s wake_sequence
  | Spoiled => ¬ clean s ∧ s matched = 0
  end.

Definition tracks (n g : Z) (s : snapshot) (ph : phase) : Prop :=
  holds s armed = true ∧ s arm_generation = g ∧ counted n s ∧ in_phase n g s ph.

(** The kinds of events. *)
Lemma kinds k : k = POWER_CAN_SLEEP ∨ k = POWER_WILL_SLEEP ∨ k = POWER_POWERED_ON ∨ k = POWER_WILL_NOT_SLEEP ∨
  ((k =? POWER_CAN_SLEEP) = false ∧ (k =? POWER_WILL_SLEEP) = false ∧ (k =? POWER_POWERED_ON) = false ∧
   (k =? POWER_WILL_NOT_SLEEP) = false).
Proof.
  destruct (Z.eqb_spec k POWER_CAN_SLEEP), (Z.eqb_spec k POWER_WILL_SLEEP), (Z.eqb_spec k POWER_POWERED_ON),
    (Z.eqb_spec k POWER_WILL_NOT_SLEEP); tauto.
Qed.

Lemma u64_next n x : (0 <= x <= n) → n + 1 < 2 ^ 64 → u64 (x + 1) = x + 1.
Proof. intros. unfold u64. by rewrite Z.mod_small by lia. Qed.

Ltac by_kind k :=
  destruct (kinds k) as [->|[->|[->|[->|(E1 & E2 & E3 & E4)]]]]; cbn [Z.eqb Pos.eqb POWER_CAN_SLEEP POWER_WILL_SLEEP
    POWER_POWERED_ON POWER_WILL_NOT_SLEEP orb] in *; rewrite ?E1, ?E2, ?E3, ?E4 in *; cbn [orb] in *.

(** An event counts each field at most once. *)
Lemma counts_up n g k a (s : snapshot) : counted n s → n + 1 < 2 ^ 64 → ∀ f, counter f = true →
  (s f <= count_event g k (count_ack k a (bump sequence s)) f <= s f + 1).
Proof.
  intros Hs Hn f Hf. assert (Hu : ∀ f, counter f = true → u64 (s f + 1) = s f + 1) by (intros; eapply u64_next; eauto).
  unfold count_event, count_ack, acknowledged.
  by_kind k; destruct (negb (a =? 0)); unfold first_error, bump, holds;
    repeat case_match; destruct f; try discriminate Hf; fields; rewrite ?Hu by done; lia.
Qed.

Lemma complete_clean s : complete_cycle s = true → clean s.
Proof.
  unfold complete_cycle, holds. intros H.
  repeat match goal with H : _ && _ = true |- _ => apply andb_prop in H as [? ?] end.
  repeat match goal with H : negb _ = true |- _ => apply negb_true_iff in H | H : negb _ = false |- _ => apply negb_false_iff in H end.
  by split_and!; apply Z.eqb_eq.
Qed.

(** Once spoiled, a cycle stays so. *)
Lemma spoiled_kept n g k a (s : snapshot) : counted n s → n + 1 < 2 ^ 64 → ¬ clean s →
  ¬ clean (count_event g k (count_ack k a (bump sequence s))).
Proof.
  intros Hs Hn Hc Hc'. apply Hc. unfold clean in *. destruct Hc' as (H1 & H2 & H3 & H4 & H5).
  pose proof (λ f H, counts_up n g k a s Hs Hn f H) as Hu.
  pose proof (Hu canceled_events eq_refl). pose proof (Hu out_of_order_events eq_refl).
  pose proof (Hu extra_cycle_events eq_refl). pose proof (Hu stale_events eq_refl). pose proof (Hu ack_errors eq_refl).
  pose proof (Hs canceled_events eq_refl). pose proof (Hs out_of_order_events eq_refl).
  pose proof (Hs extra_cycle_events eq_refl). pose proof (Hs stale_events eq_refl). pose proof (Hs ack_errors eq_refl). lia.
Qed.

(** A current event, before [matched] is set again. *)
Definition counted_event (g k a : Z) (s : snapshot) : snapshot := count_event g k (count_ack k a (bump sequence s)).

Lemma event_keeps g k a s : counted_event g k a s armed = s armed ∧ counted_event g k a s arm_generation = s arm_generation ∧
  counted_event g k a s closed = s closed ∧ counted_event g k a s ready = s ready ∧
  counted_event g k a s observer_generation = s observer_generation.
Proof.
  unfold counted_event, count_event, count_ack, acknowledged, first_error, bump, holds.
  by_kind k; destruct (negb (a =? 0)); repeat case_match; by split_and!; fields.
Qed.

Definition unmatched_phase (n g : Z) (s : snapshot) (ph : phase) : Prop :=
  in_phase n g (<[matched := match ph with Cycled => 1 | _ => 0 end]> s) ph.

Lemma event_phase n g k a s ph : counted n s → n + 1 < 2 ^ 64 → 0 <= n → in_phase n g s ph →
  unmatched_phase (n + 1) g (counted_event g k a s) (advance g ph (MkEvent g k a)).
Proof.
  intros Hs Hn Hn0 Hp.
  assert (Hu : ∀ f, counter f = true → u64 (s f + 1) = s f + 1) by (intros; eapply u64_next; eauto).
  unfold unmatched_phase, advance, can_sleep_ok, will_sleep_ok, powered_on_ok. cbn [e_kind e_generation e_ack].
  rewrite Z.eqb_refl, !andb_true_r.
  destruct ph; cbn [in_phase] in Hp.
  5: { destruct Hp as [Hc _]. cbn. split; [|fields; done]. pose proof (spoiled_kept n g k a s Hs Hn Hc) as Hk.
       unfold counted_event. unfold clean in *. fields. exact Hk. }
  all: unfold clean in Hp; destruct_and! Hp.
  all: unfold counted_event, count_event, count_ack, acknowledged, first_error, bump, holds; by_kind k;
    destruct (a =? 0) eqn:Ea; cbn [negb andb].
  all: repeat (match goal with
    | |- context [if ?b then _ else _] => lazymatch b with context [if _ then _ else _] => fail | _ => destruct b eqn:? end
    end; cbn [andb orb negb] in * ).
  all: cbn [in_phase]; unfold clean; fields; rewrite ?Hu in * by done.
  all: clear Hu; pose proof (Hs can_sleep_events eq_refl); pose proof (Hs ack_count eq_refl); clear Hs.
  all: lia.
Qed.
End ReducerProps.
