(* ===== verification/PowerProps.v ===== *)
(** * What the power observer promises

    The reducer matches exactly the event sequences of one sleep and wake
    cycle; an observer that qualifies a cycle has seen exactly that since it
    was armed; it is torn down once, whatever is interleaved. *)
From S2P Require Import Prelude GoErrors PowerNative PowerObserver PowerReducer.
#[local] Open Scope Z_scope.

Module CycleProps.
Import ReducerProps.

Lemma matched_of_phase n g s ph : 0 < n → s arm_generation = g → counted n s → unmatched_phase n g s ph →
  in_phase n g (<[matched := int_of (complete_cycle s)]> s) ph.
Proof.
  intros Hn Hg Hs. unfold unmatched_phase.
  assert (Hc : complete_cycle s = true → clean s) by apply complete_clean.
  destruct ph; unfold in_phase, clean, int_of in *; fields.
  all: assert (Ec : complete_cycle s = true ∨ complete_cycle s = false) by (destruct (complete_cycle s); auto).
  all: destruct Ec as [Ec|Ec]; rewrite ?Ec; try tauto; unfold complete_cycle, holds in Ec; rewrite Hg in Ec; lia.
Qed.

(** The event of another registration. *)
Lemma stale_phase n g s e ph : e_generation e ≠ g → counted n s → n + 1 < 2 ^ 64 →
  in_phase (n + 1) g (<[matched := 0]> (bump stale_events s)) (advance g ph e).
Proof.
  intros Hne Hs Hn. assert (advance g ph e = Spoiled) as ->.
  { apply Z.eqb_neq in Hne. unfold advance, can_sleep_ok, will_sleep_ok, powered_on_ok. rewrite Hne, !andb_false_r.
    cbn. by destruct ph. }
  cbn [in_phase]. unfold clean, bump. fields. split; [|done]. rewrite (u64_next n) by (try apply Hs; done).
  pose proof (Hs stale_events eq_refl). lia.
Qed.

Lemma counted_put n s f v : counter f = false → counted n s → counted n (<[f := v]> s).
Proof. intros Hf Hs g Hg. rewrite put_other; [by apply Hs|]. intros ->. congruence. Qed.

Lemma reduce_tracks n g s ph e : 0 <= n → n + 1 < 2 ^ 64 → tracks n g s ph →
  tracks (n + 1) g (diagnostic_power_reduce (e_generation e) (e_kind e) (e_ack e) s) (advance g ph e).
Proof.
  intros Hn0 Hn (Ha & Hg & Hs & Hp). unfold diagnostic_power_reduce. rewrite Ha. cbn [negb].
  destruct (Z.eqb_spec (e_generation e) (s arm_generation)) as [Eg|Eg]; cbn [negb].
  - rewrite Eg, Hg. fold (counted_event g (e_kind e) (e_ack e) s).
    destruct (event_keeps g (e_kind e) (e_ack e) s) as (K1 & K2 & _).
    assert (Hc : counted (n + 1) (counted_event g (e_kind e) (e_ack e) s)).
    { intros f Hf. pose proof (counts_up n g (e_kind e) (e_ack e) s Hs Hn f Hf). pose proof (Hs f Hf). unfold counted_event. lia. }
    assert (He : advance g ph e = advance g ph (MkEvent g (e_kind e) (e_ack e))) by (rewrite <-Hg, <-Eg; by destruct e).
    unfold tracks, holds in *. fields. rewrite K1, K2. split_and!; [done|done|by apply counted_put|].
    rewrite He. apply matched_of_phase; [lia|congruence|done|]. by apply event_phase.
  - unfold tracks, holds in *. split_and!.
    + unfold bump. by fields.
    + unfold bump. by fields.
    + apply counted_put; [done|]. intros f Hf. unfold bump. destruct (decide (f = stale_events)) as [->|].
      * rewrite put_same, (u64_next n) by (try apply Hs; done). pose proof (Hs stale_events eq_refl). lia.
      * rewrite put_other by done. pose proof (Hs f Hf). lia.
    + apply stale_phase; [congruence|done|done].
Qed.

(** ** Sequences of events *)
Definition reduce_all (es : list event) (s : snapshot) : snapshot :=
  foldl (λ s e, diagnostic_power_reduce (e_generation e) (e_kind e) (e_ack e) s) s es.

Lemma reduce_all_tracks es : ∀ n g s ph, 0 <= n → n + len es < 2 ^ 64 → tracks n g s ph →
  tracks (n + len es) g (reduce_all es s) (foldl (advance g) ph es).
Proof.
  induction es as [|e es IH]; intros n g s ph Hn0 Hn Hs; cbn [reduce_all foldl].
  - change (len []) with 0. by rewrite Z.add_0_r.
  - unfold len in *. cbn [length] in *. rewrite Nat2Z.inj_succ in *.
    replace (n + Z.succ (Z.of_nat (length es))) with ((n + 1) + Z.of_nat (length es)) by lia.
    apply IH; [lia|lia|]. apply reduce_tracks; [lia|lia|done].
Qed.

Lemma tracks_matched n g s ph : tracks n g s ph → holds s matched = bool_decide (ph = Cycled).
Proof. intros (_ & _ & _ & Hp). unfold holds. destruct ph; cbn in Hp; [assert (s matched = 0) as -> by tauto..|assert (s matched = 1) as -> by tauto|assert (s matched = 0) as -> by tauto]; done. Qed.

(** A snapshot just armed. *)
Definition fresh_for (g : Z) (s : snapshot) : Prop :=
  holds s armed = true ∧ s arm_generation = g ∧ s matched = 0 ∧ ∀ f, counter f = true → s f = 0.
Lemma fresh_tracks g s : fresh_for g s → tracks 0 g s Idle.
Proof.
  intros (Ha & Hg & Hm & Hf). split_and!; [done|done|intros f H; by rewrite Hf|].
  cbn. unfold clean. split_and!; first [exact Hm|by apply Hf].
Qed.

Lemma reduced_matched g es s : fresh_for g s → len es < 2 ^ 64 → holds (reduce_all es s) matched = qualifies g es.
Proof.
  intros Hs Hn. pose proof (reduce_all_tracks es 0 g s Idle ltac:(lia) ltac:(lia) (fresh_tracks g s Hs)) as Ht.
  rewrite (tracks_matched _ _ _ _ Ht). symmetry. apply (proj1 (phase_exact g es)).
Qed.
End CycleProps.

(** ** The reducer on its own *)
Module FixtureProps.
Import ReducerProps CycleProps Power.

Definition of_fixture (e : Event) : event := PowerNative.MkEvent (EventGeneration e) (EventKind e) (AckCode e).

Lemma reduce_fixtures events s : reduce_events events s = reduce_all (map of_fixture events) s.
Proof. unfold reduce_events, reduce_all. revert s. by induction events as [|e events IH]; intros s; [|apply IH]. Qed.

(** The reducer leaves the other fields alone. *)
Lemma reduce_keeps f g k a s : f = synthetic ∨ f = observer_generation ∨ f = ready ∨ f = closed ∨ f = arm_generation ∨ f = armed →
  diagnostic_power_reduce g k a s f = s f.
Proof.
  intros Hf. unfold diagnostic_power_reduce, count_event, count_ack, acknowledged, first_error, bump, holds.
  destruct (negb (negb (s armed =? 0))); [done|]. destruct (negb (g =? s arm_generation)).
  - by destruct_or! Hf; subst f; fields.
  - by_kind k; destruct (negb (a =? 0)); repeat case_match; by destruct_or! Hf; subst f; fields.
Qed.
Lemma reduce_all_keeps f es s : f = synthetic ∨ f = observer_generation ∨ f = ready ∨ f = closed ∨ f = arm_generation ∨ f = armed →
  reduce_all es s f = s f.
Proof.
  intros Hf. unfold reduce_all. revert s. induction es as [|e es IH]; intros s; [done|]. cbn. rewrite IH. by apply reduce_keeps.
Qed.

(** The reducer of power events, which also runs in the callback, matches
    exactly the qualifying cycles: ReduceEvents reports a match if and only if
    the generation is not zero, there are at most 256 events, and the events
    are one accepted request to sleep, perhaps after one accepted question, and
    one wake-up, all of that generation; and its snapshot is always marked
    synthetic. *)
Theorem reduce_events_exact generation events :
  Matched (ReduceEvents generation events) =
    negb (generation =? 0) && (len events <=? 256) && qualifies generation (map of_fixture events) ∧
  Synthetic (ReduceEvents generation events) = true ∧
  (negb (generation =? 0) && (len events <=? 256) = false → NativeCode (ReduceEvents generation events) = kIOReturnBadArgument).
Proof.
  unfold ReduceEvents. destruct (Z.eqb_spec generation 0) as [->|Hg]; [by split_and!|].
  rewrite Z.leb_antisym. destruct (256 <? len events) eqn:El; [by split_and!|]. cbn [orb negb andb].
  set (s := <[armed := 1]> _). rewrite reduce_fixtures.
  assert (Hs : fresh_for generation s).
  { subst s. unfold fresh_for, holds. split_and!; [by fields..|]. intros f Hf. by destruct f; try discriminate Hf; fields. }
  split_and!; [|cbn [Synthetic publicSnapshot]|done].
  - cbn [Matched publicSnapshot]. apply reduced_matched; [done|]. unfold len in *. rewrite length_map. lia.
  - unfold holds. rewrite reduce_all_keeps by auto. by subst s; fields.
Qed.
End FixtureProps.

(** ** The owner thread *)
Module OwnerProps.
Import ReducerProps CycleProps FixtureProps.

(** A failed acknowledgement is a native error. *)
Definition ack_recorded (s : snapshot) : Prop := s native_code = 0 → s ack_errors = 0.

(** What holds between any two steps: until the thread has returned, the
    observer has no generation yet, or its snapshot tells the notifications of
    the current registration. *)
Definition tracked (o : observer) : Prop :=
  let s := o_snapshot o in
  holds s armed = true ∧ r_generation (o_registration o) = s arm_generation ∧ s arm_generation ≠ 0 ∧
  (len (delivered o) < 2 ^ 64 →
   tracks (len (delivered o)) (s arm_generation) s (phase_of (s arm_generation) (delivered o)) ∧ ack_recorded s).
Definition unarmed (o : observer) : Prop :=
  holds (o_snapshot o) armed = false ∧ o_snapshot o arm_generation = 0.
Definition consistent (o : observer) : Prop :=
  let s := o_snapshot o in
  holds s closed = exited o ∧
  if exited o then holds s armed = false ∧ holds s released = negb (holds s deregister_code) && negb (holds s service_close_code)
  else tracked o ∨ unarmed o.

Lemma first_error_other f g e s : f ≠ g → first_error f e s g = s g.
Proof. intros. unfold first_error. case_match; [by rewrite put_other|done]. Qed.
Lemma first_error_zero f s : first_error f 0 s f = s f.
Proof. unfold first_error. destruct (Z.eqb_spec (s f) 0) as [E|]; [by rewrite put_same|done]. Qed.
Lemma first_error_set f e s : e ≠ 0 → first_error f e s f ≠ 0.
Proof. intros. unfold first_error. destruct (Z.eqb_spec (s f) 0); [by rewrite put_same|done]. Qed.

(** [native_code] and [ack_errors] go together. *)
Lemma reduce_ack n g k a s : counted n s → n + 1 < 2 ^ 64 → ack_recorded s → ack_recorded (diagnostic_power_reduce g k a s).
Proof.
  unfold ack_recorded. intros Hs Hn Ha. unfold diagnostic_power_reduce, count_event, count_ack, acknowledged, bump, holds.
  destruct (negb (negb (s armed =? 0))); [done|]. destruct (negb (g =? s arm_generation)); [fields; done|].
  by_kind k; destruct (Z.eqb_spec a 0) as [->|Hne]; cbn [negb]; unfold first_error; repeat case_match; fields; try done; lia.
Qed.

Lemma callback_consistent message allowed o : consistent o → exited o = false → consistent (power_callback message allowed o).
Proof.
  intros Hco He. pose proof Hco as [Hc Hi]. rewrite He in Hi. unfold power_callback. destruct (event_of_message message) as [k|]; [|exact Hco].
  set (ack := if _ || _ then allowed else 0). unfold consistent. cbn [o_snapshot exited delivered o_registration]. rewrite He.
  destruct Hi as [(Ha & Hr & Hg & Ht)|(Ha & Hg)].
  - rewrite Ha. cbn [negb andb]. unfold holds at 1. rewrite reduce_keeps by tauto. split; [by rewrite He in Hc|]. left. unfold tracked, holds.
    cbn [o_snapshot delivered o_registration]. rewrite !reduce_keeps by tauto. split_and!; [done|done|done|].
    unfold len. rewrite length_app. cbn [length]. intros Hl. destruct Ht as [Ht Hk]; [unfold len; lia|].
    rewrite Nat2Z.inj_add. change (Z.of_nat 1) with 1. rewrite Hr. unfold phase_of. rewrite foldl_app. cbn [foldl].
    pose proof Ht as (_ & _ & Hcount & _). unfold len in *. split.
    + rewrite <-(reduce_keeps arm_generation (o_snapshot o arm_generation) k ack (o_snapshot o)) at 1 by tauto.
      rewrite reduce_keeps by tauto.
      apply (reduce_tracks _ _ _ _ (MkEvent (o_snapshot o arm_generation) k ack)); [lia|lia|exact Ht].
    + eapply reduce_ack; [exact Hcount|lia|done].
  - rewrite Ha. cbn [negb andb].
    set (s := if negb (ack =? 0) then _ else o_snapshot o).
    assert (Hs : ∀ f, f = armed ∨ f = closed ∨ f = arm_generation → s f = o_snapshot o f).
    { intros f Hf. subst s. destruct (negb (ack =? 0)); [|done]. unfold first_error, bump. case_match; by destruct_or! Hf; subst f; fields. }
    unfold holds. rewrite !reduce_keeps, Hs by tauto. split; [by unfold holds in Hc; rewrite He in Hc|]. right. unfold unarmed, holds.
    cbn [o_snapshot]. rewrite !reduce_keeps, !Hs by tauto. done.
Qed.

Lemma unregister_keeps a f o : f ≠ native_code → f ≠ service_close_code → f ≠ deregister_code →
  o_snapshot (unregister_power a o).2 f = o_snapshot o f.
Proof. intros. cbn. by rewrite !first_error_other by congruence. Qed.

Lemma ends_consistent a o : consistent (thread_ends a o) ∧ exited (thread_ends a o) = true.
Proof.
  split; [|done]. unfold consistent, thread_ends. cbn [o_snapshot exited]. unfold holds. fields.
  split_and!; [done|done|]. by destruct (_ && _).
Qed.

Lemma arms_consistent a o error o' : exited o = false → holds (o_snapshot o) closed = false → thread_arms a o = (error, o') →
  exited o' = false ∧ arm_done o' = true ∧ arm_error o' = error ∧ stop o' = stop o ∧
  (error = 0 →
   consistent o' ∧ fresh_for (u64 (o_snapshot o arm_generation + 1)) (o_snapshot o') ∧ delivered o' = [] ∧
   o_snapshot o native_code = 0 ∧ o_snapshot o' arm_generation = u64 (o_snapshot o arm_generation + 1) ∧
   o_snapshot o' arm_generation ≠ 0).
Proof.
  intros He Hc. unfold thread_arms. destruct (Z.eqb_spec (o_snapshot o native_code) 0) as [En|En].
  2: { pose proof (proj2 (Z.eqb_neq _ _) En) as Eb. rewrite Eb, andb_false_r, Eb. cbv beta iota zeta. rewrite Eb.
       intros [= <- <-]. by split_and!. }
  destruct (unregister_power a o) as [e1 o1] eqn:Eu.
  assert (Ho1 : exited o1 = exited o ∧ stop o1 = stop o ∧ o_snapshot o1 arm_generation = o_snapshot o arm_generation).
  { change o1 with (e1, o1).2. rewrite <-Eu. by rewrite unregister_keeps. }
  destruct Ho1 as (He1 & Hs1 & Hg1). rewrite Hg1. set (g := u64 (o_snapshot o arm_generation + 1)).
  set (e2 := if _ && _ then kIOReturnNoResources else e1).
  destruct (Z.eqb_spec e2 0) as [E2|E2].
  - assert (Hg : g ≠ 0). { subst e2. intros Hg. rewrite Hg in E2. destruct (Z.eqb_spec e1 0); cbn in E2; [discriminate|congruence]. }
    unfold register_power. destruct (negb (os_root a)); cbn -[zeroed]; [by intros [= <- <-]; cbn; rewrite He1|].
    destruct (negb (os_source a)); cbn -[zeroed]; [by intros [= <- <-]; cbn; rewrite He1|]. intros [= <- <-]. cbn.
    rewrite He1. split_and!; [done..|]. intros _.
    assert (Hf : fresh_for g (<[armed := 1]> (<[ready := 1]> (<[arm_generation := g]>
              (<[observer_generation := o_snapshot o1 observer_generation]> zeroed))))).
    { unfold fresh_for, holds. split_and!; [by fields..|]. intros f Hf. by destruct f; try discriminate Hf; fields. }
    split_and!; [|done|done|done|by fields|by fields].
    unfold consistent. cbn [o_snapshot exited]. rewrite ?He1, He. split; [unfold holds; by fields|]. left.
    unfold tracked. cbn [o_snapshot o_registration r_generation delivered]. fields. split_and!; [unfold holds; by fields|done|done|].
    intros _. split; [by apply fresh_tracks|]. unfold ack_recorded. by fields.
  - rewrite (proj2 (Z.eqb_neq _ _) E2). intros [= <- <-]. cbn. rewrite He1. by split_and!.
Qed.

Lemma owner_consistent t o : consistent o → consistent (owner_runs t o).
Proof.
  intros Ho. unfold owner_runs. destruct (exited o) eqn:He; [done|]. destruct t as [arming ending|message allowed].
  - destruct (stop o); [apply ends_consistent|]. destruct (arm_requested o); [|done].
    destruct (thread_arms arming o) as [error o'] eqn:Ea. apply arms_consistent in Ea as (_ & _ & _ & _ & Hok); [|done|].
    + destruct (Z.eqb_spec error 0) as [->|]; [by apply Hok|apply ends_consistent].
    + destruct Ho as [-> _]. done.
  - destruct (source (o_registration o)); [|done]. by apply callback_consistent.
Qed.
Lemma batch_consistent b o : consistent o → consistent (run_batch b o).
Proof. revert o. induction b as [|t b IH]; intros o Ho; [done|]. apply IH. by apply owner_consistent. Qed.
Lemma await_consistent done_ s o o' s' : consistent o → await done_ s o = Some (o', s') → consistent o' ∧ done_ o' = true.
Proof.
  revert o. induction s as [|b s IH]; intros o Ho; cbn [await]; destruct (done_ o) eqn:E; try discriminate.
  - intros [= <- <-]. done.
  - intros [= <- <-]. done.
  - apply IH. by apply batch_consistent.
Qed.

(** Setting a request changes nothing else. *)
Lemma request_consistent o : consistent o → consistent (request_arm o) ∧ consistent (request_stop o).
Proof. by intros Ho; split; destruct o. Qed.

(** *** Requests to arm *)
Definition answered (o : observer) : Prop := arm_done o = true → arm_requested o = false.
Definition idle (o : observer) : Prop := arm_requested o = false ∨ exited o = true.

Lemma thread_arms_fields a o error o' : thread_arms a o = (error, o') →
  arm_requested o' = false ∧ exited o' = exited o ∧ stop o' = stop o ∧ arm_done o' = true.
Proof.
  unfold thread_arms. intros H.
  destruct (if o_snapshot o native_code =? 0 then unregister_power a o else _) as [e1 o1] eqn:E1.
  assert (H1 : exited o1 = exited o ∧ stop o1 = stop o) 
    by (destruct (o_snapshot o native_code =? 0); [unfold unregister_power in E1|]; by injection E1 as <- <-).
  destruct (if (if _ && _ then kIOReturnNoResources else e1) =? 0 then _ else _) as [e2 o2] eqn:E2.
  assert (H2 : exited o2 = exited o1 ∧ stop o2 = stop o1).
  { destruct ((if _ && _ then kIOReturnNoResources else e1) =? 0); [|by injection E2 as <- <-].
    unfold register_power in E2. destruct (negb (os_root a)), (negb (os_source a)); by injection E2 as <- <-. }
  destruct H1 as [<- <-], H2 as [<- <-]. destruct (e2 =? 0); by injection H as <- <-.
Qed.

Lemma owner_requests t o : (answered o → answered (owner_runs t o)) ∧
  (arm_requested o = false → arm_requested (owner_runs t o) = false) ∧
  (exited o = true → exited (owner_runs t o) = true).
Proof.
  unfold owner_runs. destruct (exited o) eqn:He; [done|]. destruct t as [arming ending|message allowed].
  - destruct (stop o); [done|]. destruct (arm_requested o) eqn:Er; [|done].
    destruct (thread_arms arming o) as [error o'] eqn:Ea. apply thread_arms_fields in Ea as (Hr & _ & _ & _).
    unfold answered. destruct (error =? 0); cbn; rewrite Hr; by split_and!.
  - destruct (source (o_registration o)); [|done]. unfold power_callback. by destruct (event_of_message message).
Qed.
Lemma batch_requests b o : (answered o → answered (run_batch b o)) ∧
  (arm_requested o = false → arm_requested (run_batch b o) = false) ∧ (exited o = true → exited (run_batch b o) = true).
Proof.
  revert o. induction b as [|t b IH]; intros o; [done|]. cbn. destruct (owner_requests t o) as (H1 & H2 & H3).
  destruct (IH (owner_runs t o)) as (H4 & H5 & H6). split_and!; auto.
Qed.
Lemma await_answered done_ s o o' s' : answered o → await done_ s o = Some (o', s') → answered o'.
Proof.
  revert o. induction s as [|b s IH]; intros o Ho; cbn [await]; destruct (done_ o); try discriminate; try (by intros [= <- <-]).
  apply IH. by apply batch_requests.
Qed.

Lemma idle_batch b o : idle o → idle (run_batch b o).
Proof. intros [H|H]; [left|right]; by apply batch_requests. Qed.

(** Without a request to arm the generation stays. *)
Lemma owner_generation t o : arm_requested o = false → o_snapshot (owner_runs t o) arm_generation = o_snapshot o arm_generation.
Proof.
  intros Hr. unfold owner_runs. destruct (exited o); [done|]. rewrite Hr. destruct t as [arming ending|message allowed].
  - destruct (stop o); [|done]. unfold thread_ends. cbn [o_snapshot]. fields. by rewrite unregister_keeps.
  - destruct (source (o_registration o)); [|done]. unfold power_callback. destruct (event_of_message message); [|done].
    cbn [o_snapshot]. rewrite reduce_keeps by tauto. unfold first_error, bump. repeat case_match; by fields.
Qed.
Lemma batch_generation b o : arm_requested o = false → o_snapshot (run_batch b o) arm_generation = o_snapshot o arm_generation.
Proof.
  revert o. induction b as [|t b IH]; intros o Hr; [done|]. cbn. change (foldl _ ?o b) with (run_batch b o).
  rewrite IH by (by apply owner_requests). by apply owner_generation.
Qed.
Lemma exited_stays b o : exited o = true → run_batch b o = o.
Proof. intros He. induction b as [|t b IH]; [done|]. cbn. by replace (owner_runs t o) with o by (unfold owner_runs; by rewrite He). Qed.

(** *** The thread answers when it takes a turn *)
Definition has_turn (schedule : list batch) : Prop := Exists (Exists (λ t, ∃ arming ending, t = Turn arming ending)) schedule.
Definition settled (o : observer) : Prop := arm_done o = true ∨ exited o = true.

Lemma callback_flags m a o : let o' := power_callback m a o in
  stop o' = stop o ∧ arm_requested o' = arm_requested o ∧ arm_done o' = arm_done o ∧ exited o' = exited o.
Proof. unfold power_callback. by destruct (event_of_message m). Qed.

Lemma owner_stop t o : stop (owner_runs t o) = stop o ∧ (settled o → settled (owner_runs t o)) ∧
  (arm_requested o = true → settled (owner_runs t o) ∨ arm_requested (owner_runs t o) = true).
Proof.
  unfold owner_runs, settled. destruct (exited o) eqn:He; [by auto|]. destruct t as [arming ending|m a].
  - destruct (stop o) eqn:Hs; [by auto|]. destruct (arm_requested o) eqn:Hr; [|rewrite ?He; intuition congruence].
    destruct (thread_arms arming o) as [error o'] eqn:Ea. pose proof (thread_arms_fields _ _ _ _ Ea) as (_ & _ & Hst & Hd).
    destruct (error =? 0); cbn; intuition congruence.
  - destruct (source (o_registration o)); [|rewrite ?He; intuition congruence]. destruct (callback_flags m a o) as (-> & -> & -> & ->).
    rewrite He. auto.
Qed.

(** A turn ends a thread that is to stop, and answers a request to arm. *)
Lemma turn_answers arming ending o : (stop o = true → exited (owner_runs (Turn arming ending) o) = true) ∧
  (arm_requested o = true → settled (owner_runs (Turn arming ending) o)).
Proof.
  split; intros H.
  - unfold owner_runs. destruct (exited o) eqn:He; [done|]. by rewrite H.
  - unfold settled, owner_runs. destruct (exited o) eqn:He; [by right|]. destruct (stop o); [by right|]. rewrite H.
    destruct (thread_arms arming o) as [error o'] eqn:Ea. pose proof (thread_arms_fields _ _ _ _ Ea) as (_ & _ & _ & Hd).
    destruct (error =? 0); by left.
Qed.

Lemma await_returns (done_ : observer → bool) (waits : observer → Prop) schedule o :
  (∀ t o, consistent o → done_ o = true → done_ (owner_runs t o) = true) →
  (∀ t o, consistent o → waits o → done_ (owner_runs t o) = true ∨ waits (owner_runs t o)) →
  (∀ a e o, consistent o → waits o → done_ (owner_runs (Turn a e) o) = true) →
  consistent o → waits o → has_turn schedule → is_Some (await done_ schedule o).
Proof.
  intros Hk Hw Ht Hc Ho Hs. pose proof owner_consistent as Hoc.
  assert (Hbk : ∀ b o, consistent o → done_ o = true → done_ (run_batch b o) = true).
  { induction b as [|t b IH]; intros o1 Hc1 H1; [done|]. apply IH; [by apply Hoc|by apply Hk]. }
  assert (Hbw : ∀ b o, consistent o → waits o → done_ (run_batch b o) = true ∨ waits (run_batch b o)).
  { induction b as [|t b IH]; intros o1 Hc1 H1; [by right|]. cbn. pose proof (Hoc t o1 Hc1).
    destruct (Hw t o1 Hc1 H1); [left; by apply Hbk|by apply IH]. }
  assert (Hbt : ∀ b o, Exists (λ t, ∃ arming ending, t = Turn arming ending) b → consistent o → waits o →
            done_ (run_batch b o) = true).
  { induction b as [|t b IH]; intros o1 He Hc1 H1; [by apply Exists_nil in He|]. cbn. pose proof (Hoc t o1 Hc1).
    apply Exists_cons in He as [(a & e & ->)|He]; [apply Hbk; [done|by apply Ht]|].
    destruct (Hw t o1 Hc1 H1); [by apply Hbk|by apply IH]. }
  revert o Hc Ho. induction Hs as [b s Hb|b s Hs IH]; intros o Hc Ho; cbn [await]; destruct (done_ o); try done.
  - destruct s; cbn [await]; by rewrite Hbt.
  - pose proof (batch_consistent b o Hc). destruct (Hbw b o Hc Ho) as [Hd|Hw']; [|by apply IH].
    destruct s; cbn [await]; by rewrite Hd.
Qed.

(** *** What a wait that succeeds has seen *)
Lemma wait_seen so o g : consistent o → o_snapshot o arm_generation = g → g ≠ 0 → wait_code so (o_snapshot o) = 0 →
  len (delivered o) < 2 ^ 64 →
  if so then asleep g (delivered o) || qualifies g (delivered o) = true else qualifies g (delivered o) = true.
Proof.
  intros [Hc Hi] Hg Hg0 Hw Hn. unfold wait_code in Hw. destruct (holds (o_snapshot o) closed); [discriminate|]. rewrite <-Hc in Hi.
  destruct Hi as [(_ & _ & _ & Ht)|(_ & Hu)]; [|congruence]. specialize (Ht Hn) as [Ht Hack]. rewrite Hg in Ht.
  destruct (_ || _) eqn:Eb in Hw; [discriminate|].
  repeat match goal with H : _ || _ = false |- _ => apply orb_false_elim in H as [? ?] end.
  assert (Hclean : clean (o_snapshot o)).
  { unfold clean, holds, ack_recorded in *. split_and!; try lia. }
  destruct (phase_exact g (delivered o)) as [Eq Es]. rewrite Eq, Es. destruct Ht as (_ & _ & _ & Hp).
  destruct so.
  - destruct (Z.eqb_spec (o_snapshot o sleep_events) 1) as [E1|]; [|discriminate].
    destruct (phase_of g (delivered o)); cbn in Hp |- *; try done; destruct_and? Hp; try lia; tauto.
  - unfold holds in Hw. destruct (Z.eqb_spec (o_snapshot o matched) 0) as [|E1]; [discriminate|].
    destruct (phase_of g (delivered o)); cbn in Hp |- *; try done; destruct_and? Hp; try lia; tauto.
Qed.
End OwnerProps.

(** ** The Go half *)
Module ObserverProps.
Import ReducerProps CycleProps FixtureProps OwnerProps Power.
Section Observer.
Context `{!PowerText}.

Definition sound (p : Observer) : Prop := ∀ o, native p = Some o → consistent o ∧ idle o.

Lemma new_native c a ending l t e o l' : diagnostic_power_new c a ending l = ((t, e, Some o), l') →
  consistent o ∧ idle o ∧ delivered o = [] ∧ observer_count l' = observer_count l + 1 ∧ observer_count l < MAX_POWER_OBSERVERS.
Proof.
  unfold diagnostic_power_new. destruct (MAX_POWER_OBSERVERS <=? observer_count l) eqn:El; [done|].
  destruct (negb (calloc_ok c)); [done|]. destruct (negb (mutex_init c =? 0)); [done|].
  destruct (negb (cond_init c =? 0)); [done|]. destruct (negb (pthread_create c =? 0)); [done|].
  set (g := next_generation l). unfold register_power.
  assert (Hlt : observer_count l < MAX_POWER_OBSERVERS) by lia.
  destruct (os_root a); cbn [negb].
  1: destruct (os_source a); cbn [negb].
  1: { cbn -[zeroed first_error]. intros [= <- <- <- <-]. split_and!; [|by left|done|done|done]. unfold consistent.
       cbn [o_snapshot exited with_snapshot]. split; [unfold holds; rewrite first_error_other by done; by fields|]. right.
       unfold unarmed, holds. cbn [o_snapshot with_snapshot]. rewrite !first_error_other by done. by fields. }
  all: cbn -[zeroed first_error thread_ends]; intros [= <- <- <- <-];
    (split_and!; [apply ends_consistent|by right|done|done|done]).
Qed.

Lemma arm_native o s x o' s' : consistent o → idle o → diagnostic_power_arm o s = Some (x, o', s') → consistent o' ∧ idle o'.
Proof.
  intros Ho Hi. unfold diagnostic_power_arm. destruct (_ || _); [by intros [= <- <- <-]|].
  destruct (await _ s (request_arm o)) as [[o1 s1]|] eqn:Ea; [|done]. intros [= <- <- <-].
  assert (Han : answered (request_arm o)) by done. pose proof (await_answered _ _ _ _ _ Han Ea) as Hd.
  apply await_consistent in Ea as [Hc Hdone]; [|by apply request_consistent]. split; [done|].
  apply orb_prop in Hdone as [Hdone|Hdone]; [left; by apply Hd|right]. destruct Hc as [<- _]. done.
Qed.

Lemma wait_native g so tw b o code o' : consistent o → idle o → diagnostic_power_wait g so tw b o = (code, o') →
  consistent o' ∧ idle o' ∧
  (code = 0 → g ≠ 0 ∧ wait_code so (o_snapshot o') = 0 ∧ o_snapshot o' arm_generation = g).
Proof.
  intros Ho Hi. unfold diagnostic_power_wait. destruct (Z.eqb_spec g 0) as [|Hg]; cbn [orb]; [by intros [= <- <-]|].
  destruct (Z.eqb_spec (o_snapshot o arm_generation) g) as [Eg|]; cbn [negb]; [|by intros [= <- <-]].
  assert (Hcode : ∀ error c, (if (error =? 0) || (error =? ETIMEDOUT) then c else error) = 0 → c = 0).
  { intros error c. destruct (Z.eqb_spec error 0) as [->|]; [done|]. by destruct (error =? ETIMEDOUT). }
  destruct (_ && negb _); intros [= <- <-].
  - split_and!; [by apply batch_consistent|by apply idle_batch|]. intros Hc%Hcode. split_and!; [done|done|].
    destruct Hi as [Hi|Hi]; [by rewrite batch_generation|by rewrite exited_stays].
  - by split_and!.
Qed.

Lemma close_native j o s l x o' s' l' : consistent o → idle o → diagnostic_power_close j o s l = Some (x, o', s', l') →
  ∀ o1, o' = Some o1 → consistent o1 ∧ idle o1.
Proof.
  intros Ho Hi. unfold diagnostic_power_close. destruct (negb (j =? 0)).
  - intros [= <- <- <- <-] o1 [= <-]. split; [by apply request_consistent|done].
  - destruct (await exited s (request_stop o)) as [[o2 s2]|]; [|done]. by intros [= <- <- <- <-].
Qed.

Lemma call_sound c p l p' l' : sound p → run_call c (p, l) = Some (p', l') → sound p'.
Proof.
  intros Hp. destruct c as [b|s| |j s]; cbn [run_call].
  - intros [= <- <-] o. cbn. intros (o0 & Ho & ->)%fmap_Some. destruct (Hp _ Ho). by split; [apply batch_consistent|apply idle_batch].
  - unfold Arm. destruct (native p) as [o|] eqn:En; [|by intros [= <- <-]].
    destruct (diagnostic_power_arm o s) as [[[[[code g] n] o1] s1]|] eqn:Ea; [|done].
    destruct (Hp _ En) as [Hc Hi]. pose proof (arm_native _ _ _ _ _ Hc Hi Ea) as Ho.
    destruct (negb (n =? 0)); [|destruct (negb (code =? 0))]; intros [= <- <-]; by intros ? [= <-].
  - unfold snapshotLocked. destruct (native p) as [o|] eqn:En; intros [= <- <-]; [|done]. intros o1 [= <-]. by apply Hp.
  - unfold Close. destruct (native p) as [o|] eqn:En; [|by intros [= <- <-]].
    destruct (diagnostic_power_close j o s l) as [[[[[code sn] o1] s1] l1]|] eqn:Ec; [|done].
    destruct (Hp _ En) as [Hc Hi]. pose proof (close_native _ _ _ _ _ _ _ _ Hc Hi Ec) as Ho.
    destruct (negb (code =? 0)); intros [= <- <-]; intros o2; cbn; [apply Ho|done].
Qed.
Lemma calls_sound cs p l p' l' : sound p → run_calls cs (p, l) = Some (p', l') → sound p'.
Proof.
  revert p l. induction cs as [|c cs IH]; intros p l Hp; cbn [run_calls]; [by intros [= <- <-]|].
  destruct (run_call c (p, l)) as [[p1 l1]|] eqn:E; [|done]. apply IH. by eapply call_sound.
Qed.

Lemma new_sound c a ending j s l p e l' : New c a ending j s l = Some (Some p, e, l') → sound p ∧ e = None.
Proof.
  unfold New. destruct (diagnostic_power_new c a ending l) as [[[t n] [o|]] l1] eqn:En; [|done].
  destruct (negb (n =? 0)); [destruct (Close _ _ _ _) as [[[? ?] ?]|]; done|]. intros [= <- <- <-].
  split; [|done]. intros o1 [= <-]. apply new_native in En as (? & ? & ? & _). done.
Qed.

(** *** Waiting *)
Lemma loop_sound g so ticks : g ≠ 0 → ∀ p l s e p' l', sound p → wait_loop g so ticks (p, l) = Some (s, e, (p', l')) →
  sound p' ∧
  (e = None → ∃ o b, native p' = Some (run_batch b o) ∧ s = publicSnapshot (o_snapshot (run_batch b o)) ∧
     consistent o ∧ o_snapshot o arm_generation = g ∧ wait_code so (o_snapshot o) = 0).
Proof.
  intros Hg. induction ticks as [|t ticks IH]; intros p l s e p' l' Hp; cbn [wait_loop]; [done|].
  destruct (run_calls (others t) (p, l)) as [[p1 l1]|] eqn:Ec; [|done]. pose proof (calls_sound _ _ _ _ _ Hp Ec) as Hp1.
  pose proof (call_sound (OwnerRuns (reading t)) p1 l1 _ l1 Hp1 eq_refl) as Ho1.
  destruct (ended t) as [err|].
  - destruct (snapshotLocked (owner (reading t) p1)) as [s1 p2] eqn:Es. intros [= <- <- <- <-].
    split; [|done]. apply (call_sound CallSnapshot _ l1 p2 l1 Ho1). cbn. by rewrite Es.
  - destruct (native p1) as [o|] eqn:En; [|by intros [= <- <- <- <-]].
    destruct (Hp1 _ En) as [Hc Hi].
    destruct (diagnostic_power_wait g so (timedwait t) (waiting t) o) as [code o1] eqn:Ew.
    destruct (wait_native g so (timedwait t) (waiting t) o code o1 Hc Hi Ew) as (Hc1 & Hi1 & Hok).
    set (p2 := MkPower (Some o1) (last p1)).
    assert (Hp2 : sound p2) by (intros o2 [= <-]; done).
    pose proof (call_sound (OwnerRuns (reading t)) p2 l1 _ l1 Hp2 eq_refl) as Hp3.
    destruct (snapshotLocked (owner (reading t) p2)) as [s1 p4] eqn:Es.
    assert (Hp4 : sound p4) by (apply (call_sound CallSnapshot _ l1 p4 l1 Hp3); unfold run_call; by rewrite Es).
    unfold snapshotLocked in Es. cbn in Es. injection Es as <- <-.
    destruct (Z.eqb_spec code 0) as [->|].
    + intros [= <- <- <- <-]. split; [done|]. intros _. destruct (Hok eq_refl) as (_ & Hw & Ha). by exists o1, (reading t).
    + destruct (code =? ETIMEDOUT); [by apply IH|]. by intros [= <- <- <- <-].
Qed.

(** An observer that New made, after some calls. *)
Definition made (p : Observer) (l : library) : Prop :=
  ∃ c a ending j schedule l0 p0 l1 calls, New c a ending j schedule l0 = Some (Some p0, None, l1) ∧
    run_calls calls (p0, l1) = Some (p, l).
Lemma made_sound p l : made p l → sound p.
Proof.
  intros (c & a & ending & j & sch & l0 & p0 & l1 & calls & Hn & Hc). apply new_sound in Hn as [Hn _]. by eapply calls_sound.
Qed.

(** C29: a wait that succeeds has seen a sleep and wake cycle. Whatever else is
    called and delivered meanwhile, if Wait returns without an error for a
    generation, then at the moment that decided it the observer was armed with
    that generation and the notifications delivered since were exactly a
    qualifying cycle, each acknowledged without an error; for WaitSleep they
    were such a cycle or its first half.  The snapshot it returns is the one of
    the observer, perhaps after further notifications. *)
Theorem wait_qualifies p l ctx_nil g (so : bool) ticks s p' l' (Hmade : made p l)
    (Hwait : wait ctx_nil g so ticks (p, l) = Some (s, None, (p', l'))) :
  ∃ o b, native p' = Some (run_batch b o) ∧ s = publicSnapshot (o_snapshot (run_batch b o)) ∧
    o_snapshot o arm_generation = g ∧
    (len (delivered o) < 2 ^ 64 →
     if so then asleep g (delivered o) || qualifies g (delivered o) = true else qualifies g (delivered o) = true).
Proof.
  unfold wait in Hwait. destruct (ctx_nil || (g =? 0)) eqn:Eg; [done|]. apply orb_false_elim in Eg as [_ Eg%Z.eqb_neq].
  destruct (loop_sound g so ticks Eg _ _ _ _ _ _ (made_sound p l Hmade) Hwait) as [_ Hok].
  destruct (Hok eq_refl) as (o & b & Hn & Hs & Hc & Ha & Hw). exists o, b. split_and!; [done..|]. intros Hl. by apply wait_seen.
Qed.

(** *** Arming and closing *)
Lemma arm_returns o schedule : consistent o → has_turn schedule → is_Some (diagnostic_power_arm o schedule).
Proof.
  intros Ho Ht. unfold diagnostic_power_arm. destruct (_ || _); [done|].
  set (done_ := λ o, arm_done o || holds (o_snapshot o) closed).
  assert (Hd : ∀ o, consistent o → done_ o = true ↔ settled o).
  { intros o1 [Hc _]. unfold done_, settled. by rewrite Hc, orb_true_iff. }
  destruct (await_returns done_ (λ o, arm_requested o = true) schedule (request_arm o)) as [[o1 s1] ->]; [..|done].
  - intros t o1 Hc. pose proof (owner_consistent t o1 Hc). rewrite !Hd by done. apply owner_stop.
  - intros t o1 Hc Hr. pose proof (owner_consistent t o1 Hc). rewrite Hd by done. by apply owner_stop.
  - intros a e o1 Hc Hr. pose proof (owner_consistent (Turn a e) o1 Hc). rewrite Hd by done. by apply turn_answers.
  - by apply request_consistent.
  - done.
  - done.
Qed.

Lemma close_returns o schedule l : consistent o → exited o = true ∨ has_turn schedule →
  ∃ o1 s1, diagnostic_power_close 0 o schedule l =
    Some ((0, <[thread_joined := 1]> (o_snapshot o1)), None, s1,
          if holds (<[thread_joined := 1]> (o_snapshot o1)) released
          then MkLibrary (observer_count l - 1) (next_generation l) else l) ∧ consistent o1 ∧ exited o1 = true.
Proof.
  intros Ho Ht. unfold diagnostic_power_close. cbn [Z.eqb negb].
  assert (Hr : is_Some (await exited schedule (request_stop o))).
  { destruct Ht as [He|Ht]; [change (exited (request_stop o) = true) in He; destruct schedule; cbn [await]; by rewrite He|].
    apply (await_returns exited (λ o, stop o = true)); [| | |by apply request_consistent|done|done].
    - intros t o1 _ He. unfold owner_runs. by rewrite He.
    - intros t o1 _ Hs. right. by rewrite (proj1 (owner_stop t o1)).
    - intros a e o1 _ Hs. by apply turn_answers. }
  destruct Hr as [[o1 s1] E]. rewrite E. apply await_consistent in E as [Hc He]; [|by apply request_consistent].
  by exists o1, s1.
Qed.

(** C30: arming and closing return as soon as the owner thread takes a turn, and
    closing is final: afterwards the thread is joined, the registration is
    given up, the slot of the observer is free again unless giving it up failed,
    which is exactly when Close reports an error; and every later call reports
    the same or that the observer is closed, and changes nothing. *)
Theorem power_torn_down p l o schedule (Hmade : made p l) (Hopen : native p = Some o) (Hturn : has_turn schedule) :
  is_Some (Arm schedule p) ∧
  ∃ p' l', Close 0 schedule p l = Some (powerCleanupError (last p'), p', l') ∧
    native p' = None ∧ Closed (last p') = true ∧ ThreadJoined (last p') = true ∧
    Released (last p') = (DeregisterCode (last p') =? 0) && (ServiceCloseCode (last p') =? 0) ∧
    (powerCleanupError (last p') = None ↔ Released (last p') = true) ∧
    observer_count l' = observer_count l - (if Released (last p') then 1 else 0) ∧
    (∀ j s, Close j s p' l' = Some (powerCleanupError (last p'), p', l')) ∧
    (∀ s, ∃ e, Arm s p' = Some (0, Some e, p')) ∧
    (∀ g so t ticks, g ≠ 0 → ended t = None → others t = [] →
       ∃ e, wait false g so (t :: ticks) (p', l') = Some (last p', Some e, (p', l'))).
Proof.
  destruct (made_sound p l Hmade o Hopen) as [Hc Hi]. split.
  - unfold Arm. rewrite Hopen. destruct (arm_returns o schedule Hc Hturn) as [[[[[code g] n] o1] s1] ->].
    by destruct (negb (n =? 0)), (negb (code =? 0)).
  - destruct (close_returns o schedule l Hc (or_intror Hturn)) as (o1 & s1 & E & [Hcl Hx] & He). rewrite He in Hx, Hcl.
    destruct Hx as [_ Hrel]. unfold Close. rewrite Hopen, E. cbn [Z.eqb negb]. set (s := <[thread_joined := 1]> (o_snapshot o1)).
    assert (Hs : holds s closed = true ∧ holds s thread_joined = true ∧ holds s released = holds (o_snapshot o1) released ∧
              s deregister_code = o_snapshot o1 deregister_code ∧ s service_close_code = o_snapshot o1 service_close_code).
    { subst s. unfold holds in *. by fields. }
    destruct Hs as (Hs1 & Hs2 & Hs3 & Hs4 & Hs5).
    eexists (MkPower None (publicSnapshot s)), _. split; [reflexivity|].
    cbn [native last Closed ThreadJoined Released DeregisterCode ServiceCloseCode publicSnapshot].
    rewrite Hs1, Hs2, Hs3, Hs4, Hs5, Hrel. unfold holds. rewrite !negb_involutive. split_and!; [done|done|done|done| | |done| | ].
    + unfold powerCleanupError, Join. cbn [DeregisterCode ServiceCloseCode publicSnapshot]. rewrite Hs4, Hs5.
      by destruct (o_snapshot o1 deregister_code =? 0), (o_snapshot o1 service_close_code =? 0).
    + destruct ((o_snapshot o1 deregister_code =? 0) && _); cbn [observer_count]; lia.
    + intros sch. by eexists.
    + intros g so t ticks Hg%Z.eqb_neq Hended Hothers. unfold wait. rewrite Hg. cbn [orb wait_loop]. rewrite Hothers, Hended.
      cbn. by eexists.
Qed.
End Observer.
End ObserverProps.
