(* ===== verification/PowerSim.v ===== *)
(** * A night's sleep

    A run of the power observer: it is made, armed, told that the system goes
    to sleep and has woken up, and closed. *)
From S2P Require Import Prelude GoErrors PowerNative PowerObserver PowerReducer PowerProps.
#[local] Open Scope Z_scope.

Module PowerSim.
Import ReducerProps OwnerProps Power ObserverProps.

#[local] Instance night_text : PowerText := {| errno_text _ := "errno"; mach_error_string _ := "error" |}.

Definition granted : os_answers := MkAnswers 0 0 true true.
Definition night : library := MkLibrary 0 1.
Definition made_observer : option (option Observer * option error * library) :=
  New (MkCreation true 0 0 0) granted granted 0 [] night.
Definition start : Observer * library :=
  Eval cbv -[zeroed insert snapshot_insert] in
  match made_observer with Some (Some p, None, l) => (p, l) | _ => (MkPower None no_snapshot, night) end.
Definition armed_observer : Observer * library :=
  match run_calls [CallArm [[]; [Turn granted granted]]] start with Some x => x | None => start end.

Definition asleep_then_awake : tick :=
  MkTick [] None 0 [Deliver kIOMessageSystemWillSleep 0; Deliver kIOMessageSystemHasPoweredOn 0] [].
(** Nothing happens for a while. *)
Definition quiet_tick : tick := MkTick [CallSnapshot] None ETIMEDOUT [Turn granted granted] [].

Lemma armed_made : made armed_observer.1 armed_observer.2.
Proof.
  exists (MkCreation true 0 0 0), granted, granted, 0, [], night, start.1, start.2, [CallArm [[]; [Turn granted granted]]].
  split; [reflexivity|]. reflexivity.
Qed.

Definition woken : option (Snapshot * option error * (Observer * library)) :=
  wait false 1 false [quiet_tick; asleep_then_awake] (armed_observer.1, armed_observer.2).

Lemma wait_qualifies_witness : ∃ s p' l' o b,
  woken = Some (s, None, (p', l')) ∧ native p' = Some (run_batch b o) ∧ o_snapshot o arm_generation = 1 ∧
  (len (delivered o) < 2 ^ 64 → qualifies 1 (delivered o) = true).
Proof.
  destruct woken as [[[s [e|]] [p' l']]|] eqn:E; [exfalso; by vm_compute in E| |exfalso; by vm_compute in E].
  destruct (wait_qualifies armed_observer.1 armed_observer.2 false 1 false [quiet_tick; asleep_then_awake] s p' l'
    armed_made E) as (o & b & Hn & _ & Ha & Hq).
  exists s, p', l', o, b. split; [reflexivity|]. exact (conj Hn (conj Ha Hq)).
Defined.

(** What it has returned says so, too. *)
Lemma woken_matched : match woken with Some (s, None, _) => Matched s = true ∧ SleepEvents s = 1 | _ => False end.
Proof. by vm_compute. Qed.

Lemma power_torn_down_witness : ∃ p' l', Close 0 [[Turn granted granted]] armed_observer.1 armed_observer.2 =
    Some (powerCleanupError (last p'), p', l') ∧ native p' = None.
Proof.
  destruct (native armed_observer.1) as [o|] eqn:En; [|exfalso; by vm_compute in En].
  assert (Ht : has_turn [[Turn granted granted]]) by (apply Exists_cons_hd, Exists_cons_hd; by exists granted, granted).
  destruct (power_torn_down armed_observer.1 armed_observer.2 o [[Turn granted granted]] armed_made En Ht)
    as (_ & p' & l' & Hc & Hn & _).
  exists p', l'. exact (conj Hc Hn).
Defined.

(** A canceled sleep, and a second cycle, do not qualify. *)
Lemma reduce_night :
  Matched (ReduceEvents 7 [MkEvent CanSleep 7 0; MkEvent WillSleep 7 0; MkEvent PoweredOn 7 0]) = true ∧
  Matched (ReduceEvents 7 [MkEvent WillSleep 7 0; MkEvent PoweredOn 7 0; MkEvent WillSleep 7 0]) = false ∧
  Matched (ReduceEvents 7 [MkEvent CanSleep 7 0; MkEvent WillNotSleep 7 0; MkEvent WillSleep 7 0; MkEvent PoweredOn 7 0]) = false.
Proof. by vm_compute. Qed.
End PowerSim.
