(* ===== verification/HidPlatform.v ===== *)
(** * The HID package over a native binding

    src/pkg/hid/native_{linux,darwin,windows,unsupported}.go and the contract
    of src/pkg/hid/internal/driver: a [Platform] is what a binding provides,
    with an instance for each of the bindings.  [system] is the package
    (HidNative), the driver devices it holds and the world of the binding:
    the native calls of the package are the functions of the platform, where
    HidNative and HidConnection let them answer anything. *)
From S2P Require Import Prelude GoErrors GoIO Descriptors ReportDesc HidConnection HidNative.
From S2P Require Import LinuxInventory LinuxDevice WindowsNative WindowsInventory WindowsDevice DarwinBinding.

(** [driver.Device], and the two functions the build selects.  A native read
    may have no result: fuel that is too small. *)
Class Platform (W : Type) := {
  native_device : Type;
  platformEnumerate : bool → Filter → W → option ((NativeHID.raw_snapshot * option goerror) * W);
  platformOpen : Endpoint → M W native_device;
  device_Endpoint : native_device → Endpoint;
  device_Layout : native_device → ReportLayout;
  device_Read : nat → native_device → Z → M W Report;
  device_Write : native_device → Report → W → (outcome * option goerror) * W;
  device_Close : native_device → W → option goerror * W;
}.

Module Platforms.
Import NativeHID.

(** A snapshot of the driver whose warnings are never nil. *)
Definition raw_of (s : Snapshot) : raw_snapshot :=
  MkRaw (Endpoints s) (Complete s) (map Some (Warnings s)).

(** ** native_linux.go *)
Section Linux.
Context {W : Type} `{!LinuxFS W} `{!LinuxFd W}.

Definition linux_platform : Platform W := {|
  native_device := LinuxOpen.device;
  platformEnumerate strings _ := LinuxInventory.Enumerate strings;
  platformOpen := LinuxOpen.Open;
  device_Endpoint := LinuxOpen.d_endpoint;
  device_Layout := LinuxOpen.d_layout;
  device_Read := LinuxDevice.Read;
  device_Write := LinuxDevice.Write;
  device_Close := LinuxDevice.Close;
|}.
End Linux.

(** ** native_windows.go *)
Section Windows.
Context {W : Type} `{!Win32 W}.

(** The filter as the selector of the inventory. *)
Definition selects (filter : Filter) : WindowsInventory.selector :=
  Some (λ endpoint, Metadata.matchFilter endpoint filter).

Definition windows_platform : Platform W := {|
  native_device := WindowsDevice.device;
  platformEnumerate strings filter w :=
    match WindowsInventory.Enumerate strings (selects filter) w with
    | Some ((s, err), w) => Some ((raw_of s, err), w)
    | None => None
    end;
  platformOpen := WindowsDevice.Open;
  device_Endpoint := WindowsDevice.d_endpoint;
  device_Layout := WindowsDevice.d_layout;
  device_Read _ d wait w := Some (WindowsDevice.Read d wait w);
  device_Write := WindowsDevice.Write;
  device_Close := WindowsDevice.Close;
|}.
End Windows.

(** ** native_darwin.go *)
Section Darwin.
Context {W : Type} `{!IOHid W} `{!ErrorText}.

Definition darwin_platform : Platform W := {|
  native_device := DarwinBinding.device;
  platformEnumerate strings _ w :=
    match DarwinBinding.Enumerate strings w with
    | Some ((s, err), w) => Some ((raw_of s, err), w)
    | None => None
    end;
  platformOpen := DarwinBinding.Open;
  device_Endpoint := DarwinBinding.d_endpoint;
  device_Layout := DarwinBinding.d_layout;
  device_Read _ d wait w := Some (DarwinBinding.Read d wait w);
  device_Write := DarwinBinding.Write;
  device_Close d w := let '((err, _), w) := DarwinBinding.Close d w in (err, w);
|}.
End Darwin.

(** ** native_unsupported.go: there are no devices *)
Definition unsupported_platform {W : Type} : Platform W := {|
  native_device := Empty_set;
  platformEnumerate _ _ w := Some ((MkRaw [] false [], Some HidErr.ErrUnsupported), w);
  platformOpen _ := throw HidErr.ErrUnsupported;
  device_Endpoint d := match d with end;
  device_Layout d := match d with end;
  device_Read _ d := match d with end;
  device_Write d := match d with end;
  device_Close d := match d with end;
|}.
End Platforms.

Module HidSystem.
Import HidOp Connection Resources NativeHID.

(** The wait of the pump, in nanoseconds. *)
Definition poll_wait : Z := 100 * 1000000.

Section System.
Context {W : Type} `{!Platform W}.

(** [devices]: the driver device that each Open has turned into a connection. *)
Record system := MkSystem {
  package : native;
  devices : list (option native_device);
  world : W;
}.

Definition with_package (n : native) (s : system) : system := MkSystem n (devices s) (world s).

Definition describe (d : native_device) : device := MkDev (device_Endpoint d) (device_Layout d).

(** The worker of Open: the native open, the checks on what it answers, and
    the Close of a device that is refused or that nobody waits for. *)
Definition open_worker (i : nat) (op : open_op) (abandoned : bool) (s : system) : option system :=
  match platformOpen (requested op) (world s) with
  | None => None
  | Some (Err e, w) =>
      Some (MkSystem (open_finish i op abandoned None (Some e) None (package s)) (devices s) w)
  | Some (Ok d, w) =>
      let dev := Some (describe d) in
      match open_check (requested op) dev None, abandoned with
      | None, false =>
          Some (MkSystem (open_finish i op abandoned dev None None (package s)) (<[i := Some d]> (devices s)) w)
      | _, _ =>
          let '(closeErr, w) := device_Close d w in
          Some (MkSystem (open_finish i op abandoned dev None closeErr (package s)) (devices s) w)
      end
  end.

(** A connection goes on while its native calls, if any, are still running. *)
Definition calls_kept (c c' : connection) : Prop :=
  (pump c = PumpReading → pump c' = PumpReading) ∧
  (∀ k p, writes c !! k = Some p → worker p = WNative → ∃ p', writes c' !! k = Some p' ∧ worker p' = WNative) ∧
  (cleanup c = CleanupClosing → cleanup c' = CleanupClosing).

Inductive system_step : system → system → Prop :=
  (* Open *)
  | open_called early e s : (open_admit false early e (shared (package s))).1 = None →
      system_step s (MkSystem
        (MkNative (open_admit false early e (shared (package s))).2
           (opens (package s) ++ [MkOpen e (Opening false) 0 None]) (enums (package s)))
        (devices s ++ [None]) (world s))
  | open_works i op abandoned s s' :
      opens (package s) !! i = Some op → pc op = Opening abandoned →
      open_worker i op abandoned s = Some s' → system_step s s'
  | open_replies i op cancel s n :
      opens (package s) !! i = Some op → answer op = None → open_answer i op cancel (package s) = Some n →
      system_step s (with_package n s)
  (* A connection *)
  | conn_runs i op d c c' s :
      opens (package s) !! i = Some op → pc op = Connected d c → step c c' → calls_kept c c' →
      system_step s (with_package (conn_advance i op d c c' (package s)) s)
  | read_returns i op d c dev fuel r w s :
      opens (package s) !! i = Some op → pc op = Connected d c → pump c = PumpReading →
      devices s !! i = Some (Some dev) → device_Read fuel dev poll_wait (world s) = Some (r, w) →
      system_step s (MkSystem (conn_advance i op d c (set_pump (PumpGot r) c) (package s)) (devices s) w)
  | write_returns i op d c dev k p o err w s :
      opens (package s) !! i = Some op → pc op = Connected d c →
      writes c !! k = Some p → worker p = WNative →
      devices s !! i = Some (Some dev) → device_Write dev (report p) (world s) = ((o, err), w) →
      system_step s
        (MkSystem (conn_advance i op d c (perform_finish (Some o) err k p c) (package s)) (devices s) w)
  | close_returns i op d c dev err w s :
      opens (package s) !! i = Some op → pc op = Connected d c → cleanup c = CleanupClosing →
      devices s !! i = Some (Some dev) → device_Close dev (world s) = (err, w) →
      system_step s
        (MkSystem
           (conn_advance i op d c
              (set_cleanup CleanupDone (operationError "close" (endpoint c) err) (closeCalls c) (S (releases c)) c)
              (package s))
           (devices s) w)
  (* Enumerate *)
  | inventory_called s :
      system_step s (with_package
        (MkNative (shared (package s)) (opens (package s)) (enums (package s) ++ [EWaiting])) s)
  | inventory_cancelled i s : enums (package s) !! i = Some EWaiting →
      system_step s (with_package (set_enum i EGone (shared (package s)) (package s)) s)
  | inventory_sends i r s : enums (package s) !! i = Some EWaiting →
      enumeration_send (shared (package s)) = Some r →
      system_step s (with_package (set_enum i ESlot r (package s)) s)
  | inventory_admitted i s : enums (package s) !! i = Some ESlot →
      system_step s (with_package
        (set_enum i (match (enumeration_budget (shared (package s))).1 with None => ERunning | Some _ => EGone end)
           (enumeration_budget (shared (package s))).2 (package s)) s)
  | inventory_works i options r w s : enums (package s) !! i = Some ERunning →
      platformEnumerate (ResolveStrings options) (OFilter options) (world s) = Some (r, w) →
      system_step s
        (MkSystem (set_enum i EGone (releaseEnumeration (shared (package s))) (package s)) (devices s) w).

Definition boot (w : W) : system := MkSystem start [] w.
End System.
Arguments system W {_}.
End HidSystem.
