(* ===== verification/HidPlatformProps.v ===== *)
(** * Who owns a native device

    The contract of a native binding ([PlatformLaws]), that the bindings meet
    it, and what the HID package makes of it: at every moment the process owns
    exactly the devices of the connections that are not cleaned up. *)
From S2P Require Import Prelude GoErrors GoIO Descriptors ReportDesc HidConnection HidNative.
From S2P Require Import LinuxInventory LinuxDevice LinuxProps LinuxIO WindowsNative WindowsInventory.
From S2P Require Import WindowsDevice WindowsProps DarwinBinding DarwinProps HidPlatform.

(** [owned] are the native resources of the process, [resource] the one of a
    device.  Every call returns, reads excepted; an inventory, a read and a
    write leave nothing behind, an open leaves the resource of its device or
    nothing, and a close gives that back. *)
Class PlatformLaws {W R : Type} {platform : Platform W} `{Countable R}
    (owned : W → gset R) (resource : native_device → R) : Prop := {
  inventory_owned strings filter w :
    ∃ r w', platformEnumerate strings filter w = Some (r, w') ∧ owned w' = owned w;
  open_owned expected w :
    ∃ r w', platformOpen expected w = Some (r, w') ∧
      match r with
      | Ok d => (resource d ∉ owned w) ∧ owned w' = {[resource d]} ∪ owned w
      | Err _ => owned w' = owned w
      end;
  read_owned fuel d wait w r w' : device_Read fuel d wait w = Some (r, w') → owned w' = owned w;
  write_owned d report w : owned (device_Write d report w).2 = owned w;
  close_owned d w : owned (device_Close d w).2 = owned w ∖ {[resource d]};
}.

(** ** The bindings meet the contract *)
Module LinuxContract.
Import LinuxInventory LinuxOpen LinuxDevice LinuxOwnership LinuxInventoryProps Platforms.

(** Report I/O, added to the laws of FdLedger. *)
Class IoLedger (W : Type) `{!LinuxFS W} `{!LinuxFd W} (open_fds : W → gset Z) := {
  io_ledger :: FdLedger W open_fds;
  time_Now_fds w : open_fds (time_Now w).2 = open_fds w;
  unix_Poll_fds fd timeout w : open_fds (unix_Poll fd timeout w).2 = open_fds w;
  unix_Read_fds fd n w : open_fds (unix_Read fd n w).2 = open_fds w;
  unix_Write_fds fd buffer w : open_fds (unix_Write fd buffer w).2 = open_fds w;
}.

Section Contract.
Context {W : Type} `{!LinuxFS W} `{!LinuxFd W} (open_fds : W → gset Z) `{!IoLedger W open_fds}.

Lemma read_turn_fds d deadline w : open_fds (read_turn d deadline w).2 = open_fds w.
Proof.
  unfold read_turn.
  assert (∃ now w0, (match deadline with Some _ => time_Now w | None => (0, w) end) = (now, w0) ∧
    open_fds w0 = open_fds w) as (now & w0 & -> & H0).
  { pose proof (time_Now_fds w). destruct deadline; [|by eexists _, _]. by destruct (time_Now w); eexists _, _. }
  destruct (poll_timeout deadline now) as [timeout|]; [|done].
  pose proof (unix_Poll_fds (fd d) timeout w0) as Hp. destruct (unix_Poll _ timeout w0) as [[[n revents]|e] w1];
    cbn [snd] in Hp; [|cbn [snd]; congruence].
  repeat (case_match; [cbn [snd]; congruence|]).
  pose proof (unix_Read_fds (fd d) (NativeHID.MaxReportSize + 2) w1) as Hr.
  destruct (unix_Read _ _ w1) as [[data|e] w2]; cbn [snd] in Hr; [case_match|]; cbn [snd]; congruence.
Qed.

Lemma read_loop_fds d deadline : ∀ fuel w r w',
  read_loop fuel d deadline w = Some (r, w') → open_fds w' = open_fds w.
Proof.
  induction fuel as [|fuel IH]; intros w r w'; cbn [read_loop]; [done|].
  pose proof (read_turn_fds d deadline w) as Ht. destruct (read_turn d deadline w) as [[got|] w1]; cbn [snd] in Ht.
  - by intros [= _ <-].
  - intros H%IH. congruence.
Qed.

Lemma Read_fds fuel d wait w r w' : LinuxDevice.Read fuel d wait w = Some (r, w') → open_fds w' = open_fds w.
Proof.
  unfold LinuxDevice.Read. destruct (wait <? 0); [by intros [= _ <-]|]. pose proof (time_Now_fds w) as Ht.
  destruct (0 <? wait); [destruct (time_Now w) as [now w0]; cbn [snd] in Ht|]; intros H%read_loop_fds; congruence.
Qed.

Lemma Write_fds d report w : open_fds (LinuxDevice.Write d report w).2 = open_fds w.
Proof.
  unfold LinuxDevice.Write. case_match; [done|]. cbv zeta.
  pose proof (unix_Write_fds (fd d) (ReportID report :: Data report) w) as Hw.
  by destruct (unix_Write _ _ w) as [[n|e] w1].
Qed.

Lemma Close_fds d w : open_fds (LinuxDevice.Close d w).2 = open_fds w ∖ {[fd d]}.
Proof.
  unfold LinuxDevice.Close. pose proof (unix_Close_fds (fd d) w) as Hc. by destruct (unix_Close (fd d) w) as [[e|] w1].
Qed.

Lemma linux_contract : PlatformLaws (platform:=linux_platform) open_fds LinuxOpen.fd.
Proof.
  constructor; cbn.
  - intros strings _ w. destruct (Enumerate_returns strings w) as (r & w' & Hr). exists r, w'. split; [exact Hr|].
    pose proof (Enumerate_fds open_fds strings w) as Ho. by rewrite Hr in Ho.
  - intros expected w. destruct (openWithSystem_total nativeOpenSystem expected w) as (r & w' & Hr).
    exists r, w'. split; [exact Hr|]. exact (openWithSystem_owns open_fds _ _ _ _ _ Hr).
  - apply Read_fds.
  - apply Write_fds.
  - apply Close_fds.
Qed.
End Contract.
End LinuxContract.

Module WindowsContract.
Import WindowsNative WindowsInventory WindowsDevice WindowsOwnership WindowsIO Platforms.

Section Contract.
Context {W : Type} `{!Win32 W} (owned : W → gset (Z * Z)) (pending : W → gset Z) (written : W → list bytes).
Context `{!IoLaws owned pending written}.

Lemma windows_Read_owned d wait w : owned (WindowsDevice.Read d wait w).2 = owned w.
Proof.
  unfold WindowsDevice.Read. destruct (wait <? 0); [done|].
  pose proof (transfer_leaves owned pending written d (Size (Input (d_layout d)) + 2) None wait w) as Ht.
  destruct (transfer d _ None wait w) as [c w1]. apply Ht.
Qed.

Lemma windows_Write_owned d report w : owned (WindowsDevice.Write d report w).2 = owned w.
Proof.
  unfold WindowsDevice.Write. case_match; [done|]. cbv zeta.
  pose proof (transfer_leaves owned pending written d 0 (Some (ReportID report :: Data report)) 0 w) as Ht.
  destruct (transfer d 0 _ 0 w) as [c w1]. apply Ht.
Qed.

Lemma windows_contract : PlatformLaws (platform:=windows_platform) owned (λ d, a_handle (handle d)).
Proof.
  constructor; cbn.
  - intros strings filter w. destruct (windows_open_owned owned LinuxInventory.zero_endpoint strings (selects filter) w)
      as [_ ([s err] & w' & -> & Ho)]. by eexists _, _.
  - intros expected w. destruct (windows_open_owned owned expected true None w) as [(r & w' & -> & Hr) _].
    exists r, w'. split; [done|]. destruct r as [d|e]; [exact (proj1 Hr)|exact Hr].
  - intros _ d wait w r w' [= E]. pose proof (windows_Read_owned d wait w) as Ho. by rewrite E in Ho.
  - apply windows_Write_owned.
  - intros d w. unfold WindowsDevice.Close. pose proof (CloseHandle_owned (handle d) w) as Hc.
    by destruct (CloseHandle (handle d) w) as [[e|] w1].
Qed.
End Contract.
End WindowsContract.

Module DarwinContract.
Import DarwinBinding DarwinOwnership DarwinInventory Platforms.

Section Contract.
Context {W : Type} `{!IOHid W} `{!ErrorText} (owned : W → gset (Z * Z)) `{!StorageLaws owned}.

Lemma given_back (x : Z * Z) (S : gset (Z * Z)) : x ∉ S → ({[x]} ∪ S) ∖ {[x]} = S.
Proof. set_solver. Qed.

Lemma Enumerate_owned strings w : ∃ r w', DarwinBinding.Enumerate strings w = Some (r, w') ∧ owned w' = owned w.
Proof.
  unfold DarwinBinding.Enumerate. pose proof (enumerate_owned (owned:=owned) strings w) as Ho.
  destruct (hid_enumerate strings w) as [[[p native]|] w1]; cbn in Ho; [|by eexists _, _].
  destruct Ho as [Hnew Ho].
  assert (∃ r, collect native = Some r) as [r ->].
  { destruct (decide (inv_error native = 0)) as [He|He].
    - destruct (collect_spec native He) as (s & -> & _). by eexists.
    - unfold collect. rewrite (proj2 (Z.eqb_neq _ _) He). by eexists. }
  eexists _, _. split; [done|]. rewrite inventory_free_owned, Ho. by apply given_back.
Qed.

Lemma darwin_Read_owned d wait w : owned (DarwinBinding.Read d wait w).2 = owned w.
Proof.
  unfold DarwinBinding.Read. destruct (wait <? 0); [done|].
  pose proof (DarwinProps.read_owned (owned:=owned) (native d) wait w) as Hr.
  by destruct (hid_read (native d) wait w) as [[[status code] got] w1].
Qed.

Lemma darwin_Write_owned d report w : owned (DarwinBinding.Write d report w).2 = owned w.
Proof.
  unfold DarwinBinding.Write. case_match; [done|].
  pose proof (CBytes_owned (owned:=owned) (Data report) w) as Hb.
  destruct (CBytes (Data report) w) as [[b|] w1]; cbn in Hb; [|exact Hb]. destruct Hb as [Hnew Hb].
  pose proof (DarwinProps.write_owned (owned:=owned) (native d) (Data report) w1) as Hw.
  destruct (hid_write (native d) (Data report) w1) as [n w2]. cbn [snd] in *.
  rewrite C_free_owned, Hw, Hb. by apply given_back.
Qed.

Lemma darwin_contract : PlatformLaws (platform:=darwin_platform) owned (λ d, a_connection (native d)).
Proof.
  constructor; cbn.
  - intros strings _ w. destruct (Enumerate_owned strings w) as ([s err] & w' & -> & Ho). by eexists _, _.
  - intros expected w. destruct (darwin_open_owned owned expected w) as (r & w' & -> & Hr).
    exists r, w'. split; [done|]. destruct r as [d|e]; [exact (proj1 Hr)|exact Hr].
  - intros _ d wait w r w' [= E]. pose proof (darwin_Read_owned d wait w) as Ho. by rewrite E in Ho.
  - apply darwin_Write_owned.
  - intros d w. unfold DarwinBinding.Close. pose proof (disconnect_owned (owned:=owned) (native d) w) as Hd.
    by destruct (hid_disconnect (native d) w) as [code w1].
Qed.
End Contract.
End DarwinContract.

(** Without a binding nothing is ever owned. *)
Lemma unsupported_contract {W : Type} :
  PlatformLaws (platform:=Platforms.unsupported_platform) (λ _ : W, (∅ : gset Z)) (λ d : Empty_set, match d with end).
Proof. constructor; cbn; try done; by eexists _, _. Qed.

(** ** The package over a platform *)
Module SystemProps.
Import HidOp Connection ConnectionSafety ConnectionProps Resources NativeHID NativeFacts NativeProps HidSystem.

Section Props.
Context {W R : Type} {platform : Platform W} `{Countable R}.
Context (owned : W → gset R) (resource : native_device → R) `{!PlatformLaws owned resource}.

Implicit Types s : system W.

(** *** What a state claims *)

(** The resource of the connection an Open made, until it is cleaned up. *)
Definition claim (op : open_op) (dev : option native_device) : list R :=
  match pc op, dev with
  | Connected _ c, Some d => match cleanup c with CleanupDone => [] | _ => [resource d] end
  | _, _ => []
  end.

Fixpoint claims (ops : list open_op) (devs : list (option native_device)) : list R :=
  match ops, devs with
  | op :: ops, dev :: devs => claim op dev ++ claims ops devs
  | _, _ => []
  end.

Lemma claims_app ops devs op dev : length ops = length devs →
  claims (ops ++ [op]) (devs ++ [dev]) = claims ops devs ++ claim op dev.
Proof.
  revert devs. induction ops as [|o ops IH]; intros [|d devs] Hl; try done; cbn [claims app].
  - by rewrite app_nil_r.
  - rewrite IH by (cbn in Hl; lia). by rewrite app_assoc.
Qed.

(** Replacing one Open and its device. *)
Lemma claims_insert ops : ∀ devs i op dev op' dev',
  ops !! i = Some op → devs !! i = Some dev →
  ∃ l k, claims ops devs = l ++ claim op dev ++ k ∧
    claims (<[i := op']> ops) (<[i := dev']> devs) = l ++ claim op' dev' ++ k.
Proof.
  induction ops as [|o ops IH]; intros [|d devs] [|i] op dev op' dev' Ho Hd; try done.
  - cbn in Ho, Hd. simplify_eq. by exists [], (claims ops devs).
  - destruct (IH devs i op dev op' dev' Ho Hd) as (l & k & E & E'). exists (claim o d ++ l), k.
    cbn [claims insert list_insert]. rewrite <-!app_assoc. split; f_equal; [exact E|exact E'].
Qed.

Lemma claim_in ops : ∀ devs i op dev x,
  ops !! i = Some op → devs !! i = Some dev → x ∈ claim op dev → x ∈ claims ops devs.
Proof.
  intros devs i op dev x Ho Hd Hx. destruct (claims_insert ops devs i op dev op dev Ho Hd) as (l & k & -> & _).
  set_solver.
Qed.

(** A connection that holds its lease claims its device, and no other does. *)
Lemma claims_leases ops : ∀ devs, (∀ i op, ops !! i = Some op → op_ok op) → (length (claims ops devs) ≤ length (leases ops))%nat.
Proof.
  induction ops as [|o ops IH]; intros [|d devs] Hok; cbn [claims]; [apply Nat.le_0_l..|].
  change (leases (o :: ops)) with (lease o ++ leases ops). rewrite !length_app.
  assert (Hl : (length (claims ops devs) ≤ length (leases ops))%nat) by (apply IH; intros i; apply (Hok (S i))).
  enough (length (claim o d) ≤ length (lease o))%nat by lia.
  pose proof (Hok 0%nat o eq_refl) as Ho. unfold claim, lease, held, op_ok in *.
  destruct (pc o) as [| |dv c]; [apply Nat.le_0_l..|]. destruct d; [|apply Nat.le_0_l]. destruct Ho as (_ & _ & Hr & _).
  destruct (s_calls _ (reachable_safe _ Hr)) as [_ E]. rewrite E. by destruct (cleanup c).
Qed.

(** *** The invariant *)
Record sound (w0 : W) (s : system W) : Prop := {
  so_package : nreachable (package s);
  so_length : length (opens (package s)) = length (devices s);
  so_device : ∀ i op d c, opens (package s) !! i = Some op → pc op = Connected d c →
    ∃ dev, devices s !! i = Some (Some dev) ∧ d = describe dev;
  so_distinct : NoDup (claims (opens (package s)) (devices s));
  so_new : ∀ x, x ∈ claims (opens (package s)) (devices s) → x ∉ owned w0;
  so_owned : owned (world s) = owned w0 ∪ list_to_set (claims (opens (package s)) (devices s));
}.

Lemma sound_boot w : sound w (boot w).
Proof.
  split; cbn; try done; [apply rtc_refl|constructor|set_solver|set_solver].
Qed.

(** A step of one Open, or of its connection, that keeps what is claimed. *)
Lemma sound_keep w0 s i op op' r w : sound w0 s → opens (package s) !! i = Some op →
  nreachable (set_open i op' r (package s)) →
  (∀ d c', pc op' = Connected d c' → ∃ c, pc op = Connected d c) →
  (∀ dev, claim op' dev = claim op dev) → owned w = owned (world s) →
  sound w0 (MkSystem (set_open i op' r (package s)) (devices s) w).
Proof.
  intros [Hp Hl Hd Hn Hf Ho] Hi Hr Hc Hclaim Hw.
  destruct (lookup_lt_is_Some_2 (devices s) i) as [dev Hdev]; [rewrite <-Hl; by eapply lookup_lt_Some|].
  assert (E : claims (<[i := op']> (opens (package s))) (devices s) = claims (opens (package s)) (devices s)).
  { destruct (claims_insert _ _ i op dev op' dev Hi Hdev) as (l & k & E & E').
    rewrite (list_insert_id _ _ _ Hdev) in E'. by rewrite E, E', Hclaim. }
  split; cbn; rewrite ?E; try done.
  - by rewrite length_insert.
  - intros j o d c [(<- & <- & _)|(_ & Hj)]%list_lookup_insert_Some Hpc; [|by eapply Hd].
    destruct (Hc _ _ Hpc) as [c0 Hc0]. by eapply Hd.
  - by rewrite Hw.
Qed.

(** *** The steps *)
Lemma retire_cleanup why c : safe c → cleanup c ≠ CleanupNone → cleanup (retireLocked why c) = cleanup c.
Proof.
  intros Hs Hc. unfold retireLocked. destruct (retiring c) eqn:E; [done|]. by apply (s_clean _ Hs) in E.
Qed.

(** Cleanup ends only in the step of the goroutine that runs it. *)
Lemma step_cleanup c c' : safe c → step c c' → cleanup c ≠ CleanupClosing →
  (cleanup c' = CleanupDone ↔ cleanup c = CleanupDone).
Proof.
  intros Hs Hst Hc. destruct (step_releases c c' Hs Hst) as [Hr|[H0 H1]].
  - destruct (s_calls _ Hs) as [_ E]. destruct (s_calls _ (step_safe _ _ Hst Hs)) as [_ E'].
    rewrite E, E' in Hr. by destruct (cleanup c), (cleanup c').
  - exfalso. destruct Hst; try done; cbn in H1; try congruence.
    all: unfold pump_handle, read_admit, read_turn, dequeue, write_admit, perform_start,
      perform_finish, write_return, retireLocked in H1; repeat case_match; simplify_eq/=; congruence.
Qed.

Lemma step_claim op d c c' dev : op_ok op → pc op = Connected d c → step c c' →
  (cleanup c = CleanupClosing → cleanup c' = CleanupClosing) →
  claim (MkOpen (requested op) (Connected d c') (closes op) (answer op)) dev = claim op dev.
Proof.
  intros Hok Hpc Hst Hk. unfold op_ok in Hok. unfold claim. rewrite Hpc in *. cbn [pc].
  destruct Hok as (_ & _ & Hr & _). destruct dev as [dev|]; [|done]. pose proof (reachable_safe _ Hr) as Hs.
  assert (cleanup c = CleanupClosing ∨ cleanup c ≠ CleanupClosing) as [E|E] by (destruct (cleanup c); auto);
    [by rewrite (Hk E), E|].
  pose proof (step_cleanup c c' Hs Hst E). destruct (cleanup c), (cleanup c'); try done; naive_solver.
Qed.

Lemma sound_ok w0 s i op : sound w0 s → opens (package s) !! i = Some op → op_ok op.
Proof. intros Hs Hi. exact (a_ops _ (nreachable_accounted _ (so_package _ _ Hs)) _ _ Hi). Qed.

(** A connection that takes a step of HidConnection keeps what is claimed. *)
Lemma sound_conn w0 s i op d c c' w : sound w0 s → opens (package s) !! i = Some op → pc op = Connected d c →
  step c c' → (∀ dev, claim (MkOpen (requested op) (Connected d c') (closes op) (answer op)) dev = claim op dev) →
  owned w = owned (world s) → sound w0 (MkSystem (conn_advance i op d c c' (package s)) (devices s) w).
Proof.
  intros Hs Hi Hpc Hst Hc Hw. unfold conn_advance. apply (sound_keep w0 s i op); try done.
  - eapply rtc_r; [exact (so_package _ _ Hs)|]. by eapply (conn_steps i op d c c').
  - intros ? ? [= <- <-]. by eexists.
Qed.

Lemma sound_called w0 s early e : sound w0 s → (open_admit false early e (shared (package s))).1 = None →
  sound w0 (MkSystem
    (MkNative (open_admit false early e (shared (package s))).2
       (opens (package s) ++ [MkOpen e (Opening false) 0 None]) (enums (package s)))
    (devices s ++ [None]) (world s)).
Proof.
  intros [Hp Hl Hd Hn Hf Ho] Ha.
  split; cbn; rewrite ?claims_app by done; cbn [claim pc]; rewrite ?app_nil_r; try done.
  - eapply rtc_r; [exact Hp|]. by apply open_begins.
  - by rewrite !length_app, Hl.
  - intros j o d c [Hj|[_ Hj]]%lookup_app_Some Hpc.
    + destruct (Hd _ _ _ _ Hj Hpc) as (dev & Hj' & Hdev). exists dev. split; [|done].
      rewrite lookup_app_l; [done|]. by eapply lookup_lt_Some.
    + apply list_lookup_singleton_Some in Hj as [_ <-]. done.
Qed.

(** The two ends of an Open. *)
Lemma sound_refused w0 s i op abandoned dev err ce w : sound w0 s → opens (package s) !! i = Some op →
  pc op = Opening abandoned → open_check (requested op) dev err ≠ None ∨ abandoned = true →
  owned w = owned (world s) → sound w0 (MkSystem (open_finish i op abandoned dev err ce (package s)) (devices s) w).
Proof.
  intros Hs Hi Hpc Hc Hw.
  assert (∃ had e n r, open_finish i op abandoned dev err ce (package s) =
    set_open i (MkOpen (requested op) (Refused had e) n (answer op)) r (package s)) as (had & e & n & r & E).
  { unfold open_finish. destruct (open_check _ dev err), abandoned, dev; try (by eexists _, _, _, _);
      destruct Hc; congruence. }
  rewrite E. apply (sound_keep w0 s i op); try done.
  - rewrite <-E. eapply rtc_r; [exact (so_package _ _ Hs)|]. by apply open_finishes.
  - intros d. unfold claim. by rewrite Hpc.
Qed.

Lemma sound_connected w0 s i op d w : sound w0 s → opens (package s) !! i = Some op → pc op = Opening false →
  open_check (requested op) (Some (describe d)) None = None →
  (resource d ∉ owned (world s)) → owned w = ({[resource d]} ∪ owned (world s)) →
  sound w0 (MkSystem (open_finish i op false (Some (describe d)) None None (package s)) (<[i := Some d]> (devices s)) w).
Proof.
  intros [Hp Hl Hd Hn Hf Ho] Hi Hpc Hc Hnew Hw.
  destruct (lookup_lt_is_Some_2 (devices s) i) as [dev Hdev]; [rewrite <-Hl; by eapply lookup_lt_Some|].
  assert (Hr : nreachable (open_finish i op false (Some (describe d)) None None (package s))).
  { eapply rtc_r; [exact Hp|]. by apply open_finishes. }
  unfold open_finish in *. rewrite Hc in *. set (op' := MkOpen _ (Connected _ _) _ _) in *.
  destruct (claims_insert _ _ i op dev op' (Some d) Hi Hdev) as (l & k & E & E').
  assert (claim op dev = []) as Eop by (unfold claim; by rewrite Hpc).
  change (claim op' (Some d)) with [resource d] in E'. rewrite Eop in E. cbn [app] in E, E'.
  rewrite E in Hn, Hf, Ho. rewrite Ho in Hnew.
  split; cbn; rewrite ?E'; try done.
  - by rewrite !length_insert.
  - intros j o d0 c [(<- & <- & _)|(Hne & Hj)]%list_lookup_insert_Some Hpc'.
    + exists d. rewrite list_lookup_insert_eq by (by eapply lookup_lt_Some). subst op'. cbn in Hpc'. by simplify_eq.
    + rewrite list_lookup_insert_ne by done. by eapply Hd.
  - apply list.NoDup_app in Hn as (Hn1 & Hn2 & Hn3). clear -Hn1 Hn2 Hn3 Hnew.
    apply list.NoDup_app. split_and!; [done|set_solver|]. constructor; [set_solver|done].
  - intros x Hx. destruct (decide (x = resource d)) as [->|]; [clear -Hnew; set_solver|apply Hf; clear -Hx n; set_solver].
  - rewrite Hw, Ho, !list_to_set_app_L, list_to_set_cons. clear. set_solver.
Qed.

Lemma sound_works w0 s i op abandoned s' : sound w0 s → opens (package s) !! i = Some op →
  pc op = Opening abandoned → open_worker i op abandoned s = Some s' → sound w0 s'.
Proof.
  intros Hs Hi Hpc. unfold open_worker.
  destruct (open_owned (owned:=owned) (requested op) (world s)) as (r & w1 & -> & Hr).
  destruct r as [d|e]; [|intros [= <-]; by apply sound_refused; [..|left|]].
  assert (Hclose : ∀ ce w2, device_Close d w1 = (ce, w2) → owned w2 = owned (world s)).
  { intros ce w2 E. pose proof (close_owned (owned:=owned) d w1) as Hd. rewrite E in Hd. cbn in Hd.
    rewrite Hd, (proj2 Hr). destruct Hr as [Hn _]. clear -Hn. set_solver. }
  destruct (open_check _ _ None) as [e|] eqn:Ec; [|destruct abandoned].
  - destruct (device_Close d w1) as [ce w2]. intros [= <-]. apply sound_refused; [done..|left; by rewrite Ec|by eapply Hclose].
  - destruct (device_Close d w1) as [ce w2]. intros [= <-]. apply sound_refused; [done..|by right|by eapply Hclose].
  - intros [= <-]. by apply sound_connected; [..|apply Hr|apply Hr].
Qed.

(** The cleanup of a connection gives its device back. *)
Lemma sound_closed w0 s i op d c dev e w : sound w0 s → opens (package s) !! i = Some op → pc op = Connected d c →
  cleanup c = CleanupClosing → devices s !! i = Some (Some dev) →
  owned w = owned (world s) ∖ {[resource dev]} →
  sound w0 (MkSystem
    (conn_advance i op d c
       (set_cleanup CleanupDone (operationError "close" (endpoint c) e) (closeCalls c) (S (releases c)) c) (package s))
    (devices s) w).
Proof.
  intros Hs Hi Hpc Hcl Hdev Hw. pose proof Hs as [Hp Hl Hd Hn Hf Ho].
  assert (Hst : step c (set_cleanup CleanupDone (operationError "close" (endpoint c) e) (closeCalls c) (S (releases c)) c))
    by (by apply cleanup_ends).
  assert (Hr := rtc_r _ _ _ Hp (conn_steps i op d c _ _ Hi Hpc Hst)).
  unfold conn_advance in *. set (c' := set_cleanup _ _ _ _ c) in *. set (op' := MkOpen _ (Connected _ _) _ _) in *.
  destruct (claims_insert _ _ i op (Some dev) op' (Some dev) Hi Hdev) as (l & k & E & E').
  assert (claim op (Some dev) = [resource dev]) as Eop by (unfold claim; by rewrite Hpc, Hcl).
  change (claim op' (Some dev)) with (@nil R) in E'. rewrite Eop in E. rewrite (list_insert_id _ _ _ Hdev) in E'.
  cbn [app] in E, E'. rewrite E in Hn, Hf, Ho.
  assert (Hfresh : (resource dev ∉ owned w0) ∧ (resource dev ∉ l) ∧ (resource dev ∉ k)).
  { split; [apply Hf; clear; set_solver|]. clear -Hn. apply list.NoDup_app in Hn as (_ & H1 & H2).
    apply list.NoDup_cons in H2 as [H2 _]. set_solver. }
  split; cbn; rewrite ?E'; try done.
  - by rewrite length_insert.
  - intros j o d0 c0 [(<- & <- & _)|(_ & Hj)]%list_lookup_insert_Some Hpc'; [|by eapply Hd].
    subst op'. cbn in Hpc'. simplify_eq. by eapply Hd.
  - clear -Hn. apply list.NoDup_app in Hn as (H1 & H2 & H3). apply list.NoDup_cons in H3 as [_ H3].
    apply list.NoDup_app. split_and!; [done|set_solver|done].
  - intros x Hx. apply Hf. clear -Hx. set_solver.
  - rewrite Hw, Ho, !list_to_set_app_L, list_to_set_cons. clear -Hfresh. set_solver.
Qed.

Lemma sound_replies w0 s i op cancel n : sound w0 s → opens (package s) !! i = Some op → answer op = None →
  open_answer i op cancel (package s) = Some n → sound w0 (with_package n s).
Proof.
  intros Hs Hi Ha Hg. pose proof (so_package _ _ Hs) as Hp.
  assert (Hr := rtc_r _ _ _ Hp (open_answers i op cancel _ _ Hi Ha Hg)).
  unfold open_answer in Hg. destruct (pc op) as [ab|had e|d c] eqn:Hpc; [destruct cancel; [|done]| |]; simplify_eq;
    (apply (sound_keep w0 s i op); [done|done|done| |intros ?; unfold claim; by rewrite Hpc|done]); cbn; try done.
  intros ? ? [= <- <-]. by eexists.
Qed.

(** A step of Enumerate. *)
Lemma sound_inventory w0 s n w : sound w0 s → nstep (package s) n → opens n = opens (package s) →
  owned w = owned (world s) → sound w0 (MkSystem n (devices s) w).
Proof.
  intros [Hp Hl Hd Hn Hf Ho] Hst E Hw. split; cbn; rewrite ?E, ?Hw; try done. by eapply rtc_r.
Qed.

Lemma native_write_open c k p : safe c → writes c !! k = Some p → worker p = WNative → cleanup c ≠ CleanupClosing.
Proof.
  intros Hs Hk Hp Hc. pose proof (s_idle _ Hs (or_introl Hc)) as Hw. unfold workers in Hw.
  assert (running p = true) as Hr by (unfold running; by rewrite Hp).
  pose proof (running_pos _ _ _ Hk Hr). lia.
Qed.

Lemma sound_step w0 s s' : system_step s s' → sound w0 s → sound w0 s'.
Proof.
  intros Hst Hs. destruct Hst as [early e s Ha|i op ab s s' Hi Hpc Hw|i op cancel s n Hi Ha Hg|i op d c c' s Hi Hpc Hc Hk
    |i op d c dev fuel r w s Hi Hpc Hp Hd Hr|i op d c dev k p o err w s Hi Hpc Hk Hp Hd Hr
    |i op d c dev err w s Hi Hpc Hc Hd Hr|s|i s Hi|i r s Hi Hr|i s Hi|i options r w s Hi Hr].
  - by apply sound_called.
  - by eapply sound_works.
  - by eapply sound_replies.
  - apply sound_conn; try done. intros dev. apply (step_claim op d c); try done; [by eapply sound_ok|apply Hk].
  - apply sound_conn; try done; [by apply pump_returns| |by eapply read_owned].
    intros dev'. unfold claim. by rewrite Hpc.
  - assert (Hst : step c (perform_finish (Some o) err k p c)) by (by apply worker_finishes).
    pose proof (sound_ok _ _ _ _ Hs Hi) as Hok. pose proof Hok as Hok'. unfold op_ok in Hok'. rewrite Hpc in Hok'.
    apply sound_conn; try done.
    + intros dev'. apply (step_claim op d c); try done. intros Hc. exfalso. revert Hc.
      eapply native_write_open; [apply reachable_safe, Hok'|done|done].
    + pose proof (write_owned (owned:=owned) dev (report p) (world s)) as Ho. by rewrite Hr in Ho.
  - eapply sound_closed; try done. pose proof (close_owned (owned:=owned) dev (world s)) as Hc'. by rewrite Hr in Hc'.
  - apply sound_inventory; try done. apply enum_begins.
  - apply sound_inventory; try done. by apply enum_cancelled.
  - apply sound_inventory; try done. by apply enum_sends.
  - apply sound_inventory; try done. by apply enum_admits.
  - apply sound_inventory; try done; [by apply enum_ends|].
    destruct (inventory_owned (owned:=owned) (ResolveStrings options) (OFilter options) (world s))
      as (r' & w' & E & Ho). rewrite Hr in E. by simplify_eq.
Qed.

Definition system_reachable (w0 : W) (s : system W) : Prop := rtc system_step (boot w0) s.

Lemma reachable_sound w0 s : system_reachable w0 s → sound w0 s.
Proof.
  intros Hr. pattern s. revert s Hr. apply rtc_ind_r; [apply sound_boot|]. intros; by eapply sound_step.
Qed.

(** Reading, writing or closing. *)
Definition in_native_call (c : connection) : Prop :=
  pump c = PumpReading ∨ (∃ k p, writes c !! k = Some p ∧ worker p = WNative) ∨ cleanup c = CleanupClosing.

Lemma native_call_open c : safe c → in_native_call c → cleanup c ≠ CleanupDone.
Proof.
  intros Hs Hc Hd. assert (workers c = O) as Hw by (apply (s_idle _ Hs); by right).
  destruct Hc as [Hp|[(k & p & Hk & Hp)|Hc]]; [| |congruence].
  - unfold workers in Hw. rewrite Hp in Hw. lia.
  - unfold workers in Hw. assert (running p = true) as Hr by (unfold running; by rewrite Hp).
    pose proof (running_pos _ _ _ Hk Hr). lia.
Qed.

(** C2: the HID package over a native binding owns exactly its open
    devices.  On every interleaving of opens, reads, writes, closes,
    cancellations and inventories, whatever the binding answers, and for every
    binding that keeps the driver contract, the native resources of the process
    are those it had at the start and one for each connection whose cleanup has
    not finished, all different and new, at most 64 of them.  A read, a write
    or a close is only ever in progress on a device whose resource is owned, so
    no handle is used after it was given back, and none is given back twice.
    The worker of an Open always finishes, and once no Open holds a lease the
    process owns what it owned at the start.  The package's state is one of
    those HidNative reaches, so that its theorems hold of the composition. *)
Theorem hid_devices_owned (w0 : W) s (Hs : system_reachable w0 s) :
  nreachable (package s) ∧
  NoDup (claims (opens (package s)) (devices s)) ∧
  len (claims (opens (package s)) (devices s)) <= maxConnections ∧
  (∀ x, x ∈ claims (opens (package s)) (devices s) → x ∉ owned w0) ∧
  owned (world s) = owned w0 ∪ list_to_set (claims (opens (package s)) (devices s)) ∧
  (∀ i op d c, opens (package s) !! i = Some op → pc op = Connected d c → in_native_call c →
     ∃ dev, devices s !! i = Some (Some dev) ∧ d = describe dev ∧ resource dev ∈ owned (world s)) ∧
  (∀ i op abandoned, opens (package s) !! i = Some op → pc op = Opening abandoned →
     ∃ s', open_worker i op abandoned s = Some s') ∧
  ((∀ i op, opens (package s) !! i = Some op → held op = false) → owned (world s) = owned w0).
Proof.
  apply reachable_sound in Hs. pose proof Hs as [Hp Hl Hd Hn Hf Ho]. pose proof (nreachable_accounted _ Hp) as Hacc.
  pose proof (claims_leases (opens (package s)) (devices s) (a_ops _ Hacc)) as Hc. split_and!; try done.
  - pose proof (a_len _ Hacc). unfold len in *. lia.
  - intros i op d c Hi Hpc Hcall. destruct (Hd _ _ _ _ Hi Hpc) as (dev & Hdev & ->). exists dev.
    split_and!; [done..|]. rewrite Ho. apply elem_of_union_r, elem_of_list_to_set. eapply claim_in; [done..|].
    pose proof (a_ops _ Hacc _ _ Hi) as Hok. unfold op_ok in Hok. rewrite Hpc in Hok. unfold claim. rewrite Hpc.
    pose proof (native_call_open c (reachable_safe _ (proj1 (proj2 (proj2 Hok)))) Hcall).
    destruct (cleanup c); done || set_solver.
  - intros i op ab Hi Hpc. unfold open_worker.
    destruct (open_owned (owned:=owned) (requested op) (world s)) as ([d|e] & w1 & -> & _); [|by eexists].
    destruct (open_check _ _ None), ab; try (by eexists); destruct (device_Close d w1); by eexists.
  - intros Hh. assert (leases (opens (package s)) = []) as E.
    { clear -Hh. induction (opens (package s)) as [|o ops IH]; [done|]. change (leases (o :: ops)) with (lease o ++ leases ops).
      unfold lease. rewrite (Hh O o eq_refl). apply IH. intros i. apply (Hh (S i)). }
    rewrite E in Hc. destruct (claims _ _); [|cbn in Hc; lia]. rewrite Ho. clear. set_solver.
Qed.

End Props.
End SystemProps.
