(* ===== verification/HidPlatformSim.v ===== *)
(** * A day of the HID package on Linux

    The device of LinuxSim is opened, read, and closed: the theorem on
    ownership at that run. *)
From S2P Require Import Prelude GoErrors GoIO Descriptors ReportDesc HidConnection HidNative.
From S2P Require Import LinuxInventory LinuxDevice LinuxProps LinuxIO LinuxSim HidPlatform HidPlatformProps.

Module HidPlatformSim.
Import HidOp Connection Resources NativeHID HidSystem SystemProps LinuxContract.
Import LinuxSim.LinuxSim.

#[local] Instance host_platform : Platform host := Platforms.linux_platform.
#[local] Instance host_io : IoLedger host host_fds.
Proof.
  constructor; try (intros; reflexivity); [apply host_ledger|].
  intros file n h. cbn. repeat case_match; reflexivity.
Qed.
#[local] Instance host_laws : PlatformLaws (platform:=host_platform) host_fds LinuxOpen.fd := linux_contract host_fds.

(** Open is called, and its worker opens the device node. *)
Definition called : system host :=
  MkSystem (MkNative (open_admit false None listed initial).2 [MkOpen listed (Opening false) 0 None] []) [None] host0.
Definition connected : system host :=
  match open_worker 0 (MkOpen listed (Opening false) 0 None) false called with Some s => s | None => called end.

Definition node : native_device (Platform:=host_platform) := opened.1.
Definition dev : device := MkDev (LinuxOpen.d_endpoint opened.1) (LinuxOpen.d_layout opened.1).
Definition conn0 : connection := newConnection (EndpointID listed) (d_layout dev).
Definition op (c : connection) : open_op := MkOpen listed (Connected dev c) 0 None.

Lemma connected_run : open_worker 0 (MkOpen listed (Opening false) 0 None) false called = Some connected.
Proof.
  unfold connected. assert (match open_worker 0 (MkOpen listed (Opening false) 0 None) false called with
    Some _ => true | None => false end = true) as E by (vm_compute; reflexivity).
  by destruct (open_worker 0 (MkOpen listed (Opening false) 0 None) false called).
Qed.

Lemma connected_opens : opens (package connected) = [op conn0].
Proof. vm_compute. reflexivity. Qed.
Lemma connected_devices : devices connected = [Some node].
Proof. vm_compute. reflexivity. Qed.
Lemma connected_world : world connected = opened.2.
Proof. vm_compute. reflexivity. Qed.

(** The connection moves on: [moved] is the package afterwards. *)
Definition moved (c c' : connection) (s : system host) : native := conn_advance 0 (op c) dev c c' (package s).

(** Its pump reads a report, Close retires it, the pump stops, and the cleanup
    closes the device. *)
Definition conn1 : connection := set_pump PumpReading conn0.
Definition conn2 : connection := set_pump (PumpGot (Ok (MkReport 0 [7; 1]))) conn1.
Definition conn3 : connection := pump_handle (Ok (MkReport 0 [7; 1])) conn2.
Definition conn4 : connection := retireLocked None conn3.
Definition conn5 : connection := set_pump PumpGone conn4.
Definition conn6 : connection := set_cleanup CleanupClosing None 1 0 conn5.
Definition conn7 : connection := set_cleanup CleanupDone None 1 1 conn6.

Definition reading : system host := with_package (moved conn0 conn1 connected) connected.
Definition got : host := MkHost (host_fds opened.2) (host_names opened.2) [(1, [2; 3])].
Definition read : system host := MkSystem (moved conn1 conn2 reading) (devices reading) got.
Definition handled : system host := with_package (moved conn2 conn3 read) read.
Definition retired : system host := with_package (moved conn3 conn4 handled) handled.
Definition stopped : system host := with_package (moved conn4 conn5 retired) retired.
Definition closing : system host := with_package (moved conn5 conn6 stopped) stopped.
Definition closed : system host :=
  MkSystem (moved conn6 conn7 closing) (devices closing) (host_close (LinuxOpen.fd opened.1) got).

(** Without writes only the pump and the cleanup can be in a native call. *)
Lemma no_calls c c' : writes c = [] → pump c ≠ PumpReading → cleanup c ≠ CleanupClosing → calls_kept c c'.
Proof. intros Hw Hp Hc. split_and!; [done| |done]. intros k p Hk. by rewrite Hw in Hk. Qed.

(** A step of the connection in a state whose only Open is [op c]. *)
Lemma turn c c' s : opens (package s) = [op c] → step c c' → calls_kept c c' →
  system_step s (with_package (moved c c' s) s).
Proof. intros Hs Hst Hk. apply (conn_runs 0 (op c) dev); [by rewrite Hs|done..]. Qed.

Lemma moved_opens c c' s : opens (package s) = [op c] → opens (moved c c' s) = [op c'].
Proof. intros Hs. unfold moved, conn_advance, set_open. cbn. by rewrite Hs. Qed.

Lemma reading_opens : opens (package reading) = [op conn1].
Proof. apply moved_opens, connected_opens. Qed.

Lemma reading_reachable : system_reachable host0 reading.
Proof.
  apply (rtc_l _ _ called); [exact (open_called None listed (boot host0) eq_refl)|].
  apply (rtc_l _ _ connected); [by eapply (open_works 0); [| |exact connected_run]|].
  apply rtc_once, turn; [apply connected_opens|by apply pump_read|by apply no_calls].
Qed.

Lemma read_run : device_Read 3 node poll_wait (world reading) = Some (Ok (MkReport 0 [7; 1]), got).
Proof. cbn [world reading with_package]. rewrite connected_world. vm_compute. reflexivity. Qed.

Lemma closed_reachable : system_reachable host0 closed.
Proof.
  unfold system_reachable. transitivity reading; [exact reading_reachable|].
  pose proof reading_opens as H1. assert (H2 : opens (package read) = [op conn2]) by (by apply moved_opens).
  assert (H3 : opens (package handled) = [op conn3]) by (by apply moved_opens).
  assert (H4 : opens (package retired) = [op conn4]) by (by apply moved_opens).
  assert (H5 : opens (package stopped) = [op conn5]) by (by apply moved_opens).
  assert (H6 : opens (package closing) = [op conn6]) by (by apply moved_opens).
  apply (rtc_l _ _ read).
  { apply (read_returns 0 (op conn1) dev conn1 node 3); [by rewrite H1|done..| |exact read_run].
    cbn [devices reading with_package]. by rewrite connected_devices. }
  apply (rtc_l _ _ handled); [apply turn; [done|by apply pump_handles|by apply no_calls]|].
  apply (rtc_l _ _ retired); [apply turn; [done|by apply close_begins|by apply no_calls]|].
  apply (rtc_l _ _ stopped); [apply turn; [done|by apply pump_stop|by apply no_calls]|].
  apply (rtc_l _ _ closing); [apply turn; [done|by apply cleanup_closes|by apply no_calls]|].
  apply rtc_once. apply (close_returns 0 (op conn6) dev conn6 node None); [by rewrite H6|done..| |done].
  cbn [devices closing stopped retired handled read reading with_package]. by rewrite connected_devices.
Qed.

Lemma closed_opens : opens (package closed) = [op conn7].
Proof.
  apply (moved_opens conn6 conn7 closing), (moved_opens conn5 conn6 stopped), (moved_opens conn4 conn5 retired).
  apply (moved_opens conn3 conn4 handled), (moved_opens conn2 conn3 read), (moved_opens conn1 conn2 reading).
  exact reading_opens.
Qed.

(** While the pump reads, the device is the one resource more; when the cleanup
    is over nothing is left. *)
Lemma hid_devices_owned_witness :
  host_fds (world reading) = host_fds host0 ∪ {[LinuxOpen.fd opened.1]} ∧
  host_fds (world closed) = host_fds host0.
Proof.
  split.
  - pose proof (hid_devices_owned host_fds LinuxOpen.fd host0 reading reading_reachable) as (_ & _ & _ & _ & E & _).
    rewrite E, reading_opens. cbn [devices reading with_package]. rewrite connected_devices. reflexivity.
  - pose proof (hid_devices_owned host_fds LinuxOpen.fd host0 closed closed_reachable) as (_ & _ & _ & _ & _ & _ & _ & E).
    apply E. intros i o Hi. rewrite closed_opens in Hi. by apply list_lookup_singleton_Some in Hi as [_ <-].
Defined.
End HidPlatformSim.
