(* ===== verification/ProbeNative.v ===== *)
(** * The diagnostic probe, native half: src/pkg/hid/internal/darwin/diagnostics_darwin.c

    The probes, their references, and the writer thread of connection_darwin.c
    as it is built with HID_DIAGNOSTICS: every critical section and every run of
    thread-local code between two of them is one turn of the thread.  What the
    system answers is data of the turns. *)
From S2P Require Import Prelude GoErrors Descriptors DarwinBinding DarwinConnection.
From stdpp Require Import functions.
#[local] Open Scope Z_scope.

Module ProbeNative.
Import DarwinConnection.

Definition DIAGNOSTIC_MAX_PROBES : Z := 64.
Definition PHASE_NATIVE : Z := 1.
Definition PHASE_EXITED : Z := 2.
Definition PHASE_JOINED : Z := 4.
Definition PHASE_CLOSED : Z := 8.
Definition ENOMEM : Z := 12.
Definition EBUSY : Z := 16.
Definition EINVAL : Z := 22.
Definition EALREADY : Z := 37.
Definition ECANCELED : Z := 89.
Definition SIGURG : Z := 16.
Definition SIGUSR1 : Z := 30.
Definition NSIG : Z := 32.

(** ** The structures *)
Record hid_diagnostic_config := MkDiagnosticConfig {
  initial_urgent_blocked : bool; unrelated_blocked : bool; inject_urgent : bool; hold_native : bool;
  strict_entry : bool; cfg_setup_error : Z; cfg_restore_error : Z; cfg_native_error : Z;
}.
Definition no_config : hid_diagnostic_config := MkDiagnosticConfig false false false false false 0 0 0.

(** [hid_diagnostic_snapshot], by field. *)
Inductive field :=
  | generation | writes | native_calls | kill_attempts | kill_generation | entry_generation
  | synthetic | armed | phases | kill_error | initial_mask_error | mask_query_error
  | before_urgent | before_unrelated | critical_urgent | pending_urgent
  | after_urgent | after_unrelated | mask_restored
  | f_setup_error | f_restore_error | submitted | completed | native_error
  | writer_exited | writer_joined | device_closed | entry_confirmed
  | entry_urgent | entry_pending | entry_mask_error.
#[export] Instance field_dec : EqDecision field. Proof. solve_decision. Defined.
Definition snapshot : Type := field → Z.

(** The atomic variables of a probe; those that are also fields of the snapshot
    are copied into it when it is read. *)
Inductive atomic :=
  | a_strict_armed | a_entry_confirmed | a_entry_kill_error | a_entry_urgent | a_entry_pending
  | a_entry_mask_error | a_entry_generation | a_entry_kills.
#[export] Instance atomic_dec : EqDecision atomic. Proof. solve_decision. Defined.

(** Several fields of a structure of integers set to zero. *)
Definition clear {F} `{EqDecision F} (fs : list F) (s : F → Z) : F → Z := λ f, if decide (f ∈ fs) then 0 else s f.
Definition int_of (b : bool) : Z := if b then 1 else 0.
Definition holds {F} (s : F → Z) (f : F) : bool := negb (s f =? 0).

Record hid_diagnostic_probe := MkNativeProbe {
  references : Z; closing : bool; busy : bool; active : bool; release : bool;
  config : hid_diagnostic_config; snap : snapshot; atoms : atomic → Z;
}.

Definition with_references (n : Z) (p : hid_diagnostic_probe) : hid_diagnostic_probe :=
  MkNativeProbe n (closing p) (busy p) (active p) (release p) (config p) (snap p) (atoms p).
Definition with_snap (f : snapshot → snapshot) (p : hid_diagnostic_probe) : hid_diagnostic_probe :=
  MkNativeProbe (references p) (closing p) (busy p) (active p) (release p) (config p) (f (snap p)) (atoms p).
Definition with_atoms (f : (atomic → Z) → atomic → Z) (p : hid_diagnostic_probe) : hid_diagnostic_probe :=
  MkNativeProbe (references p) (closing p) (busy p) (active p) (release p) (config p) (snap p) (f (atoms p)).
Definition with_active (b : bool) (p : hid_diagnostic_probe) : hid_diagnostic_probe :=
  MkNativeProbe (references p) (closing p) (busy p) b (release p) (config p) (snap p) (atoms p).
Definition with_busy (b : bool) (p : hid_diagnostic_probe) : hid_diagnostic_probe :=
  MkNativeProbe (references p) (closing p) b (active p) (release p) (config p) (snap p) (atoms p).
Definition with_release (p : hid_diagnostic_probe) : hid_diagnostic_probe :=
  MkNativeProbe (references p) (closing p) (busy p) (active p) true (config p) (snap p) (atoms p).

(** Where the writer thread of a connection is; [previous] is the mask that
    [hid_diagnostic_setup] saved. *)
Inductive writer_pc :=
  | WIdle
  | WBegin
  | WMasks
  | WSetup
  | WBefore (previous : gset Z)
  | WHolding (previous : gset Z)
  | WNative (previous : gset Z)
  | WFinish (r : hid_write_result)
  | WComplete (r : hid_write_result)
  | WExited
  | WJoined.

(** A connection with what HID_DIAGNOSTICS adds to it, and its writer thread:
    the signal mask, whether SIGURG is pending, and whether the thread-local
    [current_probe] is set.  [home], for the statements, is the mask at the
    beginning of the last write. *)
Record connection := MkConn {
  base : hid_connection; c_probe : option Z; c_generation : Z; c_synthetic : bool;
  recording : bool; c_active : hid_diagnostic_config; c_before : gset Z;
  c_writer : writer_pc; c_mask : gset Z; c_pending : bool; c_current : bool; c_call : option bytes;
  home : gset Z;
}.

Definition with_base (b : hid_connection) (c : connection) : connection :=
  MkConn b (c_probe c) (c_generation c) (c_synthetic c) (recording c) (c_active c) (c_before c)
    (c_writer c) (c_mask c) (c_pending c) (c_current c) (c_call c) (home c).
Definition with_call (d : option bytes) (c : connection) : connection :=
  MkConn (base c) (c_probe c) (c_generation c) (c_synthetic c) (recording c) (c_active c) (c_before c)
    (c_writer c) (c_mask c) (c_pending c) (c_current c) d (home c).
Definition with_probe (p : option Z) (c : connection) : connection :=
  MkConn (base c) p (c_generation c) (c_synthetic c) (recording c) (c_active c) (c_before c)
    (c_writer c) (c_mask c) (c_pending c) (c_current c) (c_call c) (home c).
Definition at_pc (w : writer_pc) (c : connection) : connection :=
  MkConn (base c) (c_probe c) (c_generation c) (c_synthetic c) (recording c) (c_active c) (c_before c)
    w (c_mask c) (c_pending c) (c_current c) (c_call c) (home c).
Definition with_record (r : bool) (cfg : hid_diagnostic_config) (c : connection) : connection :=
  MkConn (base c) (c_probe c) (c_generation c) (c_synthetic c) r cfg (c_before c)
    (c_writer c) (c_mask c) (c_pending c) (c_current c) (c_call c) (home c).
Definition with_before (m : gset Z) (c : connection) : connection :=
  MkConn (base c) (c_probe c) (c_generation c) (c_synthetic c) (recording c) (c_active c) m
    (c_writer c) (c_mask c) (c_pending c) (c_current c) (c_call c) (home c).
Definition with_current (b : bool) (c : connection) : connection :=
  MkConn (base c) (c_probe c) (c_generation c) (c_synthetic c) (recording c) (c_active c) (c_before c)
    (c_writer c) (c_mask c) (c_pending c) b (c_call c) (home c).
Definition with_pending (b : bool) (c : connection) : connection :=
  MkConn (base c) (c_probe c) (c_generation c) (c_synthetic c) (recording c) (c_active c) (c_before c)
    (c_writer c) (c_mask c) b (c_current c) (c_call c) (home c).
Definition at_home (c : connection) : connection :=
  MkConn (base c) (c_probe c) (c_generation c) (c_synthetic c) (recording c) (c_active c) (c_before c)
    (c_writer c) (c_mask c) (c_pending c) (c_current c) (c_call c) (c_mask c).
(** [pthread_sigmask] that succeeds; a pending SIGURG is delivered when it is
    no longer blocked. *)
Definition with_mask (m : gset Z) (c : connection) : connection :=
  MkConn (base c) (c_probe c) (c_generation c) (c_synthetic c) (recording c) (c_active c) (c_before c)
    (c_writer c) m (c_pending c && bool_decide (SIGURG ∈ m)) (c_current c) (c_call c) (home c).

(** The static variables, and the storage. *)
Record library := MkLibrary {
  probe_count : Z; next_generation : Z; probes : gmap Z hid_diagnostic_probe; connections : gmap Z connection;
}.
Definition with_probes (m : gmap Z hid_diagnostic_probe) (l : library) : library :=
  MkLibrary (probe_count l) (next_generation l) m (connections l).
Definition with_connections (m : gmap Z connection) (l : library) : library :=
  MkLibrary (probe_count l) (next_generation l) (probes l) m.
(** A pointer that [calloc] may return. *)
Definition allocate {A} (m : gmap Z A) : Z := fresh ({[0]} ∪ dom m).

(** ** Probes *)
Definition new_probe : hid_diagnostic_probe := MkNativeProbe 1 false false false false no_config (λ _, 0) (λ _, 0).

(** The answers of [calloc] and of the two [pthread] calls.  The counter is
    taken and given back in one step. *)
Definition hid_diagnostic_probe_new (calloc_ok : bool) (mutex_init cond_init : Z) (l : library) : option Z * library :=
  if DIAGNOSTIC_MAX_PROBES <=? probe_count l then (None, l)
  else if negb calloc_ok || negb (mutex_init =? 0) || negb (cond_init =? 0) then (None, l)
  else
    let p := allocate (probes l) in
    (Some p, MkLibrary (u32 (probe_count l + 1)) (next_generation l) (<[p := new_probe]> (probes l)) (connections l)).

Definition hid_diagnostic_probe_retain (p : Z) (l : library) : library :=
  with_probes (alter (λ q, with_references (u32 (references q + 1)) q) p (probes l)) l.

Definition hid_diagnostic_probe_release (p : Z) (l : library) : library :=
  match probes l !! p with
  | None => l
  | Some q =>
      if references q =? 1
      then MkLibrary (u32 (probe_count l - 1)) (next_generation l) (delete p (probes l)) (connections l)
      else with_probes (<[p := with_references (u32 (references q - 1)) q]> (probes l)) l
  end.

Definition hid_diagnostic_generation (l : library) : Z * library :=
  (next_generation l, MkLibrary (probe_count l) (u64 (next_generation l + 1)) (probes l) (connections l)).

Definition hid_diagnostic_attach (c p : Z) (l : library) : Z * library :=
  match connections l !! c with
  | None => (0, l)
  | Some k =>
      if match c_probe k with Some _ => true | None => false end
         || write_pending (base k) || stop (base k) || negb (terminal (base k) =? 0)
      then (EBUSY, l)
      else
        let l := with_connections (<[c := with_probe (Some p) k]> (connections l)) (hid_diagnostic_probe_retain p l) in
        (0, with_probes (alter (with_snap (λ s, <[synthetic := int_of (c_synthetic k)]>
              (<[generation := c_generation k]> s))) p (probes l)) l)
  end.

Definition armed_fields : list field :=
  [mask_restored; pending_urgent; critical_urgent; initial_mask_error; mask_query_error; f_setup_error;
   f_restore_error; native_error; submitted; completed].
Definition armed_atoms : list atomic :=
  [a_entry_confirmed; a_entry_generation; a_entry_kill_error; a_entry_urgent; a_entry_pending; a_entry_mask_error].

Definition arm (cfg : hid_diagnostic_config) (q : hid_diagnostic_probe) : Z * hid_diagnostic_probe :=
  let s := snap q in
  if closing q || holds s writer_exited || holds s device_closed then (ECANCELED, q)
  else if busy q || active q || holds s armed then (EBUSY, q)
  else
    (0, MkNativeProbe (references q) (closing q) (busy q) (active q) false cfg
          (clear armed_fields (<[phases := Z.ldiff (s phases) PHASE_NATIVE]> (<[armed := 1]> s)))
          (clear armed_atoms (atoms q))).
Definition hid_diagnostic_arm (p : Z) (cfg : hid_diagnostic_config) (l : library) : Z * library :=
  match probes l !! p with
  | None => (0, l)
  | Some q => let '(error, q) := arm cfg q in (error, with_probes (<[p := q]> (probes l)) l)
  end.

Definition read_snapshot (q : hid_diagnostic_probe) : snapshot :=
  let a := atoms q in
  let s := <[entry_confirmed := a a_entry_confirmed]> (<[entry_generation := a a_entry_generation]>
             (<[entry_urgent := a a_entry_urgent]> (<[entry_pending := a a_entry_pending]>
             (<[entry_mask_error := a a_entry_mask_error]>
             (<[kill_attempts := Prelude.u64 (snap q kill_attempts + a a_entry_kills)]> (snap q)))))) in
  if holds s entry_confirmed
  then <[kill_error := a a_entry_kill_error]> (<[kill_generation := s entry_generation]> s) else s.
Definition hid_diagnostic_snapshot_read (p : Z) (l : library) : snapshot :=
  match probes l !! p with Some q => read_snapshot q | None => λ _, 0 end.

Definition hid_diagnostic_release_barrier (p : Z) (l : library) : library :=
  with_probes (alter with_release p (probes l)) l.

Definition close_probe (q : hid_diagnostic_probe) : hid_diagnostic_probe :=
  MkNativeProbe (references q) true (busy q) (active q) true (config q) (<[armed := 0]> (snap q))
    (<[a_strict_armed := 0]> (atoms q)).
Definition hid_diagnostic_probe_close (p : Z) (l : library) : library :=
  hid_diagnostic_probe_release p (with_probes (alter close_probe p (probes l)) l).

(** ** The writer thread

    [writer_main] and [protected_write], with the functions of the probe that
    they call.  A turn needs the probe of the connection, if it has one. *)

(** The answers of the system to one turn. *)
Record answers := MkAnswers {
  emptyset_error : Z; first_mask_error : Z; second_mask_error : Z; query_error : Z;
  create_error : Z; pthread_kill_error : Z; sigpending_errno : Z; set_report : Z;
}.

Definition phase (n : Z) (s : snapshot) : snapshot := <[phases := Z.lor (s phases) n]> s.
Definition bump (f : field) (s : snapshot) : snapshot := <[f := Prelude.u64 (s f + 1)]> s.

Definition failed_setup (error : Z) : hid_write_result := MkWriteResult 0 error 0 false false.

Definition begin_fields : list field := [mask_restored; pending_urgent; critical_urgent; entry_confirmed].
Definition begin_atoms : list atomic := [a_entry_confirmed; a_entry_generation; a_entry_kill_error].

(** [hid_diagnostic_begin] up to the end of its first critical section. *)
Definition begin_armed (q : hid_diagnostic_probe) : hid_diagnostic_probe :=
  with_active true (with_atoms (clear begin_atoms)
    (with_snap (λ s, clear begin_fields (<[phases := Z.ldiff (s phases) PHASE_NATIVE]> (bump writes (<[armed := 0]> s)))) q)).
Definition begin_turn (c : connection) (q : option hid_diagnostic_probe) : connection * option hid_diagnostic_probe :=
  let plain := at_pc WSetup (with_record false no_config c) in
  match q with
  | None => (plain, None)
  | Some q =>
      if negb (holds (snap q) armed) || closing q then (plain, Some q)
      else (at_pc WMasks (with_record true (config q) c), Some (begin_armed q))
  end.

(** [pthread_sigmask(SIG_BLOCK or SIG_UNBLOCK, {signal})]. *)
Definition set_blocked (blocked : bool) (signal : Z) (m : gset Z) : gset Z :=
  if blocked then {[signal]} ∪ m else m ∖ {[signal]}.

(** The rest of it. *)
Definition record_before (error : Z) (before : gset Z) (s : snapshot) : snapshot :=
  let s := <[initial_mask_error := error]> s in
  if error =? 0
  then <[before_unrelated := int_of (bool_decide (SIGUSR1 ∈ before))]>
         (<[before_urgent := int_of (bool_decide (SIGURG ∈ before))]> s)
  else s.
Definition masks_turn (a : answers) (c : connection) (q : option hid_diagnostic_probe)
    : connection * option hid_diagnostic_probe :=
  let error := first_mask_error a in
  let c := if error =? 0
           then with_mask (set_blocked (initial_urgent_blocked (c_active c)) SIGURG (c_mask c)) c else c in
  let error' := if error =? 0 then second_mask_error a else error in
  let c := if error' =? 0
           then with_mask (set_blocked (unrelated_blocked (c_active c)) SIGUSR1 (c_mask c)) c else c in
  let error'' := if error' =? 0 then query_error a else error' in
  let c := at_home (if error'' =? 0 then with_before (c_mask c) c else c) in
  (at_pc (if error'' =? 0 then WSetup else WFinish (failed_setup error'')) c,
   with_snap (record_before error'' (c_before c)) <$> q).

(** [sigemptyset], [sigaddset] and [hid_diagnostic_setup]. *)
Definition setup_turn (a : answers) (c : connection) : connection :=
  if negb (emptyset_error a =? 0) then at_pc (WFinish (failed_setup (emptyset_error a))) c
  else if recording c && negb (cfg_setup_error (c_active c) =? 0)
  then at_pc (WFinish (failed_setup (cfg_setup_error (c_active c)))) c
  else if negb (first_mask_error a =? 0) then at_pc (WFinish (failed_setup (first_mask_error a))) c
  else at_pc (WBefore (c_mask c)) (with_mask ({[SIGURG]} ∪ c_mask c) c).

(** [pthread_kill(writer, SIGURG)] *)
Definition kill_writer (error : Z) (c : connection) : connection :=
  if error =? 0 then with_pending (c_pending c || bool_decide (SIGURG ∈ c_mask c)) c else c.

(** The injector thread; the writer waits for it. *)
Definition inject (a : answers) (c : connection) (q : hid_diagnostic_probe) : connection * hid_diagnostic_probe :=
  if negb (create_error a =? 0) then (c, with_snap <[kill_error := create_error a]> q)
  else if closing q then (c, with_snap <[kill_error := ECANCELED]> q)
  else
    (kill_writer (pthread_kill_error a) c,
     with_snap (λ s, <[kill_error := pthread_kill_error a]>
       (<[kill_generation := c_generation c]> (bump kill_attempts s))) q).

(** [hid_diagnostic_before_native] up to the barrier. *)
Definition record_native (error : Z) (c : connection) (s : snapshot) : snapshot :=
  let s := <[mask_query_error := error]> s in
  let s := if error =? 0
           then <[pending_urgent := int_of (c_pending c)]>
                  (<[critical_urgent := int_of (bool_decide (SIGURG ∈ c_mask c))]> s)
           else s in
  phase PHASE_NATIVE (bump native_calls s).
Definition before_turn (a : answers) (previous : gset Z) (c : connection) (q : option hid_diagnostic_probe)
    : connection * option hid_diagnostic_probe :=
  match recording c, q with
  | true, Some q =>
      let '(c, q) := if inject_urgent (c_active c) then inject a c q else (c, q) in
      let error := if query_error a =? 0 then sigpending_errno a else query_error a in
      (at_pc (WHolding previous) c, Some (with_snap (record_native error c) q))
  | _, _ => (at_pc (WNative previous) c, q)
  end.

(** The barrier: it is not passed while it holds. *)
Definition barrier_turn (previous : gset Z) (c : connection) (q : option hid_diagnostic_probe)
    : option (connection * option hid_diagnostic_probe) :=
  match q with
  | Some q =>
      if hold_native (c_active c) && negb (release q) && negb (closing q) then None
      else Some (at_pc (WNative previous) (with_current true c),
                 Some (with_atoms <[a_strict_armed := int_of (strict_entry (c_active c) && negb (c_synthetic c))]> q))
  | None => Some (at_pc (WNative previous) c, None)
  end.

(** The device is called, unless the connection is synthetic, and the signal
    mask is restored. *)
Definition native_turn (a : answers) (previous : gset Z) (c : connection) (q : option hid_diagnostic_probe)
    : connection * option hid_diagnostic_probe :=
  let io := if c_synthetic c then cfg_native_error (c_active c) else set_report a in
  let '(c, q) := if recording c then (with_current false c, with_atoms <[a_strict_armed := 0]> <$> q) else (c, q) in
  let injected := recording c && negb (cfg_restore_error (c_active c) =? 0) in
  let restore := if injected then cfg_restore_error (c_active c) else first_mask_error a in
  let c := if restore =? 0 then with_mask previous c else c in
  (at_pc (WFinish (MkWriteResult io 0 restore true (io =? 0))) c, q).

(** hid_diagnostic_finish *)
Definition masks_equal (left right : gset Z) : bool :=
  forallb (λ signal, eqb (bool_decide (signal ∈ left)) (bool_decide (signal ∈ right))) (seqZ 1 (NSIG - 1)).
Definition record_after (error : Z) (r : hid_write_result) (c : connection) (s : snapshot) : snapshot :=
  let s := <[completed := int_of (wr_completed r)]> (<[submitted := int_of (wr_submitted r)]>
             (<[native_error := io r]> (<[f_restore_error := restore_error r]>
             (<[f_setup_error := setup_error r]> s)))) in
  if negb (error =? 0) then <[mask_query_error := error]> s
  else
    <[mask_restored := int_of (negb (holds s initial_mask_error) && masks_equal (c_mask c) (c_before c))]>
      (<[after_unrelated := int_of (bool_decide (SIGUSR1 ∈ c_mask c))]>
      (<[after_urgent := int_of (bool_decide (SIGURG ∈ c_mask c))]> s)).
Definition finish_turn (a : answers) (r : hid_write_result) (c : connection) (q : option hid_diagnostic_probe)
    : connection * option hid_diagnostic_probe :=
  (at_pc (WComplete r) c,
   if recording c then with_active false ∘ with_snap (record_after (query_error a) r c) <$> q else q).

Definition writer_exit (q : hid_diagnostic_probe) : hid_diagnostic_probe :=
  with_snap (λ s, phase PHASE_EXITED (<[writer_exited := 1]> s)) q.

(** The end of a turn of the loop of writer_main, and its wait. *)
Definition complete_turn (r : hid_write_result) (c : connection) (q : option hid_diagnostic_probe)
    : connection * option hid_diagnostic_probe :=
  let c := with_base (write_finished r (base c)) c in
  let q := with_busy false <$> q in
  if writer_dead (base c) then (at_pc WExited c, writer_exit <$> q) else (at_pc WIdle c, q).
Definition idle_turn (c : connection) (q : option hid_diagnostic_probe)
    : option (connection * option hid_diagnostic_probe) :=
  if writer_stop (base c) then Some (at_pc WExited c, writer_exit <$> q)
  else if write_pending (base c) then Some (at_pc WBegin c, q)
  else None.

Definition writer_turn (a : answers) (c : connection) (q : option hid_diagnostic_probe)
    : option (connection * option hid_diagnostic_probe) :=
  match c_writer c with
  | WIdle => idle_turn c q
  | WBegin => Some (begin_turn c q)
  | WMasks => Some (masks_turn a c q)
  | WSetup => Some (setup_turn a c, q)
  | WBefore previous => Some (before_turn a previous c q)
  | WHolding previous => barrier_turn previous c q
  | WNative previous => Some (native_turn a previous c q)
  | WFinish r => Some (finish_turn a r c q)
  | WComplete r => Some (complete_turn r c q)
  | WExited | WJoined => None
  end.

(** hid_diagnostics_native_entry, which a debugger calls on the writer thread
    where it enters the device. *)
Definition hid_diagnostics_native_entry (entry : Z) (a : answers) (c : connection) (q : option hid_diagnostic_probe)
    : Z * (connection * option hid_diagnostic_probe) :=
  match q with
  | Some p =>
      if negb (c_current c) || negb (holds (atoms p) a_strict_armed)
         || (negb (entry =? 0) && negb (entry =? c_generation c)) then (EINVAL, (c, q))
      else if holds (atoms p) a_entry_confirmed then (EALREADY, (c, Some (with_atoms <[a_entry_confirmed := 1]> p)))
      else
        let x := <[a_entry_kills := Prelude.u64 (atoms p a_entry_kills + 1)]>
                   (<[a_entry_generation := c_generation c]> (<[a_entry_confirmed := 1]> (atoms p))) in
        let x := if query_error a =? 0
                 then <[a_entry_urgent := int_of (bool_decide (SIGURG ∈ c_mask c))]> x else x in
        let c := kill_writer (pthread_kill_error a) c in
        let x := if sigpending_errno a =? 0 then <[a_entry_pending := int_of (c_pending c)]> x else x in
        let mask_error := if query_error a =? 0 then sigpending_errno a else query_error a in
        (pthread_kill_error a,
         (c, Some (with_atoms (λ _, <[a_entry_kill_error := pthread_kill_error a]>
                                     (<[a_entry_mask_error := mask_error]> x)) p)))
  | None => (EINVAL, (c, q))
  end.

(** ** Connections *)
(** The writer thread inherits the signal mask of the thread that makes it. *)
Definition new_connection (b : hid_connection) (synthetic : bool) (g : Z) (inherited : gset Z) : connection :=
  MkConn b None g synthetic false no_config ∅ WIdle inherited false false None inherited.
(** [hid_connect], when it succeeds. *)
Definition hid_connect (input output : ReportSpec) (inherited : gset Z) (l : library) : Z * library :=
  let '(g, l) := hid_diagnostic_generation l in
  let c := allocate (connections l) in
  (c, with_connections (<[c := new_connection (DarwinConnection.new_connection input output) false g inherited]> (connections l)) l).

(** The answers of [calloc] and of the three [pthread] calls, and the signal
    mask of the caller. *)
Record creation := MkCreation {
  calloc_ok : bool; mutex_init : Z; cond_init : Z; pthread_create : Z; caller_mask : gset Z;
}.

(** A connection, or an error. *)
Definition hid_diagnostic_connect (p : Z) (a : creation) (l : library) : (option Z * Z) * library :=
  if negb (calloc_ok a) then ((None, ENOMEM), l)
  else
    let '(g, l) := hid_diagnostic_generation l in
    if negb (mutex_init a =? 0) then ((None, mutex_init a), l)
    else if negb (cond_init a =? 0) then ((None, cond_init a), l)
    else
      let c := allocate (connections l) in
      let spec := MkSpec 0 64 in
      let l := with_connections (<[c := new_connection (DarwinConnection.new_connection spec spec) true g (caller_mask a)]> (connections l)) l in
      let '(error, l) := hid_diagnostic_attach c p l in
      let error := if error =? 0 then pthread_create a else error in
      if negb (error =? 0) then
        let l := match connections l !! c with
                 | Some k => match c_probe k with Some p => hid_diagnostic_probe_release p l | None => l end
                 | None => l
                 end in
        ((None, error), with_connections (delete c (connections l)) l)
      else ((Some c, 0), l).

(** What the threads of the connections do, and the callers of their other
    functions.  A step that is not enabled changes nothing. *)
Inductive event :=
  | WriterTurn (c : Z) (a : answers)
  | NativeEntry (c entry : Z) (a : answers)
  | InputArrives (c result typ id : Z) (report : bytes)
  | DeviceRemoved (c : Z)
  | CallWrite (c : Z) (data : bytes)
  | WriteReturns (c : Z)
  | Disconnects (c : Z)
  | WriterJoined (c : Z)
  | ConnectionClosed (c : Z)
  | Connects (input output : ReportSpec) (inherited : gset Z).

(** A function of a connection and of its probe, which is there as long as the
    connection refers to it (theorem probe_safe). *)
Definition on_connection (c : Z) (f : connection → option hid_diagnostic_probe → option (connection * option hid_diagnostic_probe))
    (l : library) : library :=
  match connections l !! c with
  | None => l
  | Some k =>
      match c_probe k with
      | None => match f k None with Some (k, _) => with_connections (<[c := k]> (connections l)) l | None => l end
      | Some p =>
          match probes l !! p with
          | None => l
          | Some q =>
              match f k (Some q) with
              | Some (k, Some q) => with_probes (<[p := q]> (probes l)) (with_connections (<[c := k]> (connections l)) l)
              | _ => l
              end
          end
      end
  end.

Definition only_base (f : hid_connection → hid_connection) (k : connection) (q : option hid_diagnostic_probe)
    : option (connection * option hid_diagnostic_probe) := Some (with_base (f (base k)) k, q).

(** [hid_write] up to its wait, with [hid_diagnostic_write_admit], and its end. *)
Definition call_write (data : bytes) (k : connection) (q : option hid_diagnostic_probe)
    : option (connection * option hid_diagnostic_probe) :=
  match c_call k, hid_write data (base k) with
  | Some _, _ => None
  | None, (Some _, b) => Some (with_base b k, q)
  | None, (None, b) => Some (with_call (Some data) (with_base b k), with_busy true <$> q)
  end.
Definition write_returns (k : connection) (q : option hid_diagnostic_probe)
    : option (connection * option hid_diagnostic_probe) :=
  match c_call k with
  | Some _ => if write_done (base k) then Some (with_call None k, q) else None
  | None => None
  end.

(** [hid_disconnect]: the request, the writer joined, and the end.  The supervisor
    calls it when its native calls have returned (theorem conn_driver_contract). *)
Definition disconnects (k : connection) (q : option hid_diagnostic_probe)
    : option (connection * option hid_diagnostic_probe) :=
  match c_call k with None => Some (with_base (set_stops (base k)) k, q) | Some _ => None end.
Definition writer_joins (k : connection) (q : option hid_diagnostic_probe)
    : option (connection * option hid_diagnostic_probe) :=
  match c_writer k with
  | WExited => Some (at_pc WJoined k, with_snap (λ s, phase PHASE_JOINED (<[writer_joined := 1]> s)) <$> q)
  | _ => None
  end.
Definition device_is_closed (q : hid_diagnostic_probe) : hid_diagnostic_probe :=
  with_snap (λ s, phase PHASE_CLOSED (<[device_closed := 1]> s)) q.
Definition connection_closed (c : Z) (l : library) : library :=
  match connections l !! c with
  | Some k =>
      match c_writer k with
      | WJoined =>
          let l' := with_connections (delete c (connections l)) l in
          match c_probe k with
          | Some p => hid_diagnostic_probe_release p (with_probes (alter device_is_closed p (probes l')) l')
          | None => l'
          end
      | _ => l
      end
  | None => l
  end.

Definition run_event (e : event) (l : library) : library :=
  match e with
  | WriterTurn c a => on_connection c (writer_turn a) l
  | NativeEntry c entry a =>
      on_connection c (λ k q, match c_writer k with
                              | WNative _ => Some (hid_diagnostics_native_entry entry a k q).2
                              | _ => None
                              end) l
  | InputArrives c result typ id report => on_connection c (only_base (input_callback result typ id report)) l
  | DeviceRemoved c => on_connection c (only_base removal_callback) l
  | CallWrite c data => on_connection c (call_write data) l
  | WriteReturns c => on_connection c write_returns l
  | Disconnects c => on_connection c disconnects l
  | WriterJoined c => on_connection c writer_joins l
  | ConnectionClosed c => connection_closed c l
  | Connects input output inherited => (hid_connect input output inherited l).2
  end.

(** [hid_diagnostic_wait] around its wait: whether it waits, and what it
    answers; [status] is that of the wait. *)
Definition reached (wanted : Z) (q : hid_diagnostic_probe) : bool := Z.land (snap q phases) wanted =? wanted.
Definition waits (wanted p : Z) (l : library) : bool :=
  match probes l !! p with Some q => negb (reached wanted q) && negb (closing q) | None => false end.
Definition wait_answer (wanted status p : Z) (l : library) : Z :=
  match probes l !! p with
  | Some q => if reached wanted q then 0 else if closing q then ECANCELED else if status =? 0 then ETIMEDOUT else status
  | None => ECANCELED
  end.
End ProbeNative.
