(* ===== verification/ProbeDiagnostics.v ===== *)
(** * The diagnostic probe, Go half: src/pkg/hid/internal/darwin/diagnostics_darwin.go

    Probes over the native half (ProbeNative).  [system] is the storage of the
    C side and the probes the callers hold; [action] is what any goroutine or
    thread does in one step, and a call that blocks is given the actions of the
    others for as long as it waits. *)
From S2P Require Import Prelude GoErrors GoText Descriptors DarwinBinding ProbeNative.
#[local] Open Scope Z_scope.

Module ProbeDiagnostics.
Import ProbeNative.

Record Config := MkConfig {
  InitialSIGURGBlocked : bool; BlockUnrelatedSignal : bool; InjectSIGURG : bool; HoldNative : bool;
  StrictEntry : bool; SetupError : Z; RestoreError : Z; NativeError : Z;
}.

Definition PhaseNative : Z := 1.
Definition PhaseWriterExited : Z := 2.
Definition PhaseWriterJoined : Z := 4.
Definition PhaseDeviceClosed : Z := 8.
Definition all_phases : Z := Z.lor (Z.lor PhaseNative PhaseWriterExited) (Z.lor PhaseWriterJoined PhaseDeviceClosed).

Record Snapshot := MkSnapshot {
  Generation : Z; Writes : Z; SetReportCalls : Z; KillAttempts : Z; KillGeneration : Z; EntryGeneration : Z;
  Synthetic : bool; Armed : bool; Phases : Z;
  KillError : Z; InitialMaskError : Z; MaskQueryError : Z;
  BeforeSIGURGBlocked : bool; BeforeUnrelatedBlocked : bool; CriticalSIGURGBlocked : bool; PendingSIGURG : bool;
  AfterSIGURGBlocked : bool; AfterUnrelatedBlocked : bool; MaskRestored : bool;
  SSetupError : Z; SRestoreError : Z; SNativeError : Z; Submitted : bool; Completed : bool;
  WriterExited : bool; WriterJoined : bool; DeviceClosed : bool; EntryConfirmed : bool;
  EntrySIGURGBlocked : bool; EntryPendingSIGURG : bool; EntryMaskQueryError : Z;
}.
Definition no_snapshot : Snapshot :=
  MkSnapshot 0 0 0 0 0 0 false false 0 0 0 0 false false false false false false false 0 0 0 false false
    false false false false false false 0.

(** The copy of snapshotLocked. *)
Definition public_snapshot (s : snapshot) : Snapshot :=
  MkSnapshot (s generation) (s writes) (s native_calls) (s kill_attempts) (s kill_generation) (s entry_generation)
    (holds s synthetic) (holds s armed) (u8 (s phases))
    (s kill_error) (s initial_mask_error) (s mask_query_error)
    (holds s before_urgent) (holds s before_unrelated) (holds s critical_urgent) (holds s pending_urgent)
    (holds s after_urgent) (holds s after_unrelated) (holds s mask_restored)
    (s f_setup_error) (s f_restore_error) (u32 (s native_error)) (holds s submitted) (holds s completed)
    (holds s writer_exited) (holds s writer_joined) (holds s device_closed) (holds s entry_confirmed)
    (holds s entry_urgent) (holds s entry_pending) (s entry_mask_error).

(** [Probe], without its mutex: a call is one step, and [Wait] gives way to
    others where it unlocks. *)
Record Probe := MkProbe { native : option Z; last : Snapshot }.

Definition failure (op : string) (kind : driver_kind) (message : string) : goerror := EDriver op kind "" 0 message None.

Definition MaxInt32 : Z := 2147483647.
Definition validateConfig (config : Config) : option goerror :=
  if (SetupError config <? 0) || (MaxInt32 <? SetupError config)
     || (RestoreError config <? 0) || (MaxInt32 <? RestoreError config)
  then Some (failure "diagnostic config" KindInvalidArgument "fault codes must be nonnegative native integers")
  else None.

Definition nativeConfig (config : Config) : hid_diagnostic_config :=
  MkDiagnosticConfig (InitialSIGURGBlocked config) (BlockUnrelatedSignal config) (InjectSIGURG config)
    (HoldNative config) (StrictEntry config) (SetupError config) (RestoreError config) (u32 (NativeError config)).

(** The text of [syscall.Errno]. *)
Class ErrnoText := errno_text : Z → string.

Section Probes.
Context {texts : ErrnoText}.

Definition pthreadError (op : string) (code : Z) : goerror := EDriver op KindIO "pthread" code (errno_text code) None.

Definition newProbe (a : creation) (l : library) : res Probe * library :=
  match hid_diagnostic_probe_new (calloc_ok a) (mutex_init a) (cond_init a) l with
  | (None, l) =>
      (Err (failure "diagnostic probe" KindResourceLimit "native probe allocation or 64-probe limit"), l)
  | (Some p, l) => (Ok (MkProbe (Some p) no_snapshot), l)
  end.

Definition snapshotLocked (p : Probe) (l : library) : Snapshot * Probe :=
  match native p with
  | Some n => let s := public_snapshot (hid_diagnostic_snapshot_read n l) in (s, MkProbe (Some n) s)
  | None => (last p, p)
  end.

Definition Arm (config : Config) (p : Probe) (l : library) : option goerror * library :=
  match validateConfig config with
  | Some err => (Some err, l)
  | None =>
      match native p with
      | None => (Some (failure "diagnostic arm" KindClosed "probe closed"), l)
      | Some n =>
          let s := hid_diagnostic_snapshot_read n l in
          if negb (holds s synthetic) && negb (NativeError config =? 0)
          then (Some (failure "diagnostic arm" KindInvalidArgument
                        "native result substitution requires a synthetic device"), l)
          else
            let '(code, l) := hid_diagnostic_arm n (nativeConfig config) l in
            (if negb (code =? 0) then Some (pthreadError "diagnostic arm" code) else None, l)
      end
  end.

Definition Release (p : Probe) (l : library) : library :=
  match native p with Some n => hid_diagnostic_release_barrier n l | None => l end.

Definition Close (p : Probe) (l : library) : Probe * library :=
  match native p with
  | Some n => (MkProbe None (snapshotLocked p l).1, hid_diagnostic_probe_close n l)
  | None => (p, l)
  end.

(** Closing a device that nobody else has: its writer is idle. *)
Definition no_answers : answers := MkAnswers 0 0 0 0 0 0 0 0.
Definition close_idle (c : Z) (l : library) : library :=
  foldl (λ l e, run_event e l) l [Disconnects c; WriterTurn c no_answers; ProbeNative.WriterJoined c; ConnectionClosed c].

Definition synthetic_endpoint (generation : Z) : Endpoint :=
  MkEndpoint ("diagnostic:" +:+ Strconv.Itoa generation) "" (MkField 0 false) (MkField 0 false)
    (MkField (MkUsage 0xf1d0 1) true) (MkField 0 false) BusUSB
    (MkField ""%string false) (MkField ""%string false) (MkField ""%string false).
Definition synthetic_layout : ReportLayout := MkLayout (MkSpec 0 64) (MkSpec 0 64).

Definition NewSynthetic (config : Config) (a k : creation) (l : library) : res (DarwinBinding.device * Probe) * library :=
  match validateConfig config with
  | Some err => (Err err, l)
  | None =>
      match newProbe a l with
      | (Err err, l) => (Err err, l)
      | (Ok probe, l) =>
          match native probe with
          | None => (Err (failure "" KindIO ""), l)
          | Some n =>
              match hid_diagnostic_connect n k l with
              | ((None, nativeError), l) =>
                  (Err (pthreadError "diagnostic synthetic open" nativeError), (Close probe l).2)
              | ((Some c, _), l) =>
                  let '(state, probe) := snapshotLocked probe l in
                  let d := DarwinBinding.MkDev c (synthetic_endpoint (Generation state)) synthetic_layout in
                  match Arm config probe l with
                  | (Some err, l) => (Err err, (Close probe (close_idle c l)).2)
                  | (None, l) => (Ok (d, probe), l)
                  end
              end
          end
      end
  end.

(** [None]: not an open device of the binding. *)
Definition Attach (nativeDevice : option DarwinBinding.device) (a : creation) (l : library) : res Probe * library :=
  let refused := (Err (failure "diagnostic attach" KindInvalidArgument "expected an open Darwin native device"), l) in
  match nativeDevice with
  | None => refused
  | Some d =>
      if DarwinBinding.native d =? DarwinBinding.nil then refused
      else
        match newProbe a l with
        | (Err err, l) => (Err err, l)
        | (Ok probe, l) =>
            match native probe with
            | None => (Err (failure "" KindIO ""), l)
            | Some n =>
                let '(code, l) := hid_diagnostic_attach (DarwinBinding.native d) n l in
                if negb (code =? 0)
                then (Err (pthreadError "diagnostic attach" code), (Close probe l).2)
                else (Ok probe, l)
            end
        end
  end.

(** ** The callers of the package *)
Record system := MkSystem { lib : library; handles : list Probe }.

(** A device is attached to while it is open, as the comment of Attach asks. *)
Inductive action :=
  | Event (e : event)
  | CallNewSynthetic (config : Config) (a k : creation)
  | CallAttach (d : DarwinBinding.device) (a : creation)
  | CallArm (i : nat) (config : Config)
  | CallSnapshot (i : nat)
  | CallRelease (i : nat)
  | CallClose (i : nat).

Definition on_handle (i : nat) (f : Probe → library → Probe * library) (s : system) : system :=
  match handles s !! i with
  | Some p => let '(p, l) := f p (lib s) in MkSystem l (<[i := p]> (handles s))
  | None => s
  end.

Definition run_action (x : action) (s : system) : system :=
  match x with
  | Event e => MkSystem (run_event e (lib s)) (handles s)
  | CallNewSynthetic config a k =>
      match NewSynthetic config a k (lib s) with
      | (Ok (_, p), l) => MkSystem l (handles s ++ [p])
      | (Err _, l) => MkSystem l (handles s)
      end
  | CallAttach d a =>
      match connections (lib s) !! DarwinBinding.native d with
      | None => s
      | Some _ =>
          match Attach (Some d) a (lib s) with
          | (Ok p, l) => MkSystem l (handles s ++ [p])
          | (Err _, l) => MkSystem l (handles s)
          end
      end
  | CallArm i config => on_handle i (λ p l, (p, (Arm config p l).2)) s
  | CallSnapshot i => on_handle i (λ p l, ((snapshotLocked p l).2, l)) s
  | CallRelease i => on_handle i (λ p l, (p, Release p l)) s
  | CallClose i => on_handle i Close s
  end.
Definition run_actions (xs : list action) (s : system) : system := foldl (λ s x, run_action x s) s xs.

(** While a call holds the mutex of probe [i], others cannot use it. *)
Definition excluded (i : nat) (x : action) : bool :=
  match x with
  | CallArm j _ | CallSnapshot j | CallRelease j | CallClose j => Nat.eqb i j
  | _ => false
  end.
Definition run_others (i : nat) (xs : list action) (s : system) : system :=
  run_actions (List.filter (λ x, negb (excluded i x)) xs) s.

(** ** Wait *)

(** One round of the loop: what others do before it, whether the context has
    ended, what they do during the native wait and its status, and what they do
    before the snapshot is read. *)
Record tick := MkTick {
  before : list action; ended : option ctx_err; waiting : list action; status : Z; reading : list action;
}.

Fixpoint wait_loop (i : nat) (wanted : Z) (ticks : list tick) (s : system)
    : option (Snapshot * option goerror * system) :=
  match ticks with
  | [] => None
  | t :: ticks =>
      let s := run_actions (before t) s in
      match handles s !! i with
      | None => None
      | Some p =>
          match ended t with
          | Some e =>
              let s := run_actions (reading t) s in
              match handles s !! i with
              | None => None
              | Some p => Some ((snapshotLocked p (lib s)).1, Some (ECtx e), run_action (CallSnapshot i) s)
              end
          | None =>
              match native p with
              | None => Some (last p, Some (failure "diagnostic wait" KindClosed "probe closed"), s)
              | Some n =>
                  let s := if waits wanted n (lib s) then run_others i (waiting t) s else s in
                  let code := wait_answer wanted (status t) n (lib s) in
                  let s := run_others i (reading t) s in
                  let result := (snapshotLocked p (lib s)).1 in
                  let s := run_action (CallSnapshot i) s in
                  if code =? 0 then Some (result, None, s)
                  else if code =? DarwinBinding.ETIMEDOUT then wait_loop i wanted ticks s
                  else Some (result, Some (pthreadError "diagnostic wait" code), s)
              end
          end
      end
  end.
Definition Wait (ctx_nil : bool) (i : nat) (wanted : Z) (ticks : list tick) (s : system)
    : option (Snapshot * option goerror * system) :=
  if ctx_nil || (wanted =? 0) || negb (Z.ldiff wanted all_phases =? 0)
  then Some (no_snapshot, Some (failure "diagnostic wait" KindInvalidArgument "invalid context or phase"), s)
  else wait_loop i wanted ticks s.
End Probes.
End ProbeDiagnostics.
