(* ===== verification/ProbeProps.v ===== *)
(** * What the diagnostic probe promises

    A probe lives exactly as long as somebody refers to it; a probed write is
    made with SIGURG blocked and gives the writer its mask back; and a wait that
    succeeds returns evidence of the phase it waited for, whatever threads and
    callers do in between. *)
From S2P Require Import Prelude GoErrors GoText Descriptors DarwinBinding DarwinConnection ProbeNative ProbeDiagnostics.
#[local] Open Scope Z_scope.

(** ** Who refers to a probe *)
Module LifetimeProps.
Import ProbeNative ProbeDiagnostics.

(** [hs]: the native pointers of the probes the callers have. *)
Definition held (hs : list (option Z)) (n : Z) : bool := existsb (λ h, bool_decide (h = Some n)) hs.
Definition attached (m : gmap Z connection) (n : Z) : bool :=
  existsb (λ x, bool_decide (c_probe x.2 = Some n)) (map_to_list m).

Lemma held_spec hs n : held hs n = true ↔ ∃ i, hs !! i = Some (Some n).
Proof.
  unfold held. rewrite existsb_exists. split.
  - intros (h & Hin & ->%bool_decide_eq_true). apply list_elem_of_In, list_elem_of_lookup in Hin as [i Hi]. by exists i.
  - intros [i Hi]. exists (Some n). split; [|by apply bool_decide_eq_true].
    apply list_elem_of_In, list_elem_of_lookup. by exists i.
Qed.

Lemma attached_spec m n : attached m n = true ↔ ∃ c k, m !! c = Some k ∧ c_probe k = Some n.
Proof.
  unfold attached. rewrite existsb_exists. split.
  - intros ([c k] & Hin & Hp%bool_decide_eq_true). apply list_elem_of_In, elem_of_map_to_list in Hin. by exists c, k.
  - intros (c & k & Hc & Hp). exists (c, k). split; [|by apply bool_decide_eq_true].
    by apply list_elem_of_In, elem_of_map_to_list.
Qed.

Definition unique_handles (hs : list (option Z)) : Prop :=
  ∀ i j n, hs !! i = Some (Some n) → hs !! j = Some (Some n) → i = j.
Definition unique_connections (m : gmap Z connection) : Prop :=
  ∀ c d k e n, m !! c = Some k → m !! d = Some e → c_probe k = Some n → c_probe e = Some n → c = d.

Record counted (l : library) (hs : list (option Z)) : Prop := {
  cn_size : probe_count l = Z.of_nat (size (probes l));
  cn_limit : probe_count l <= DIAGNOSTIC_MAX_PROBES;
  cn_handles : unique_handles hs;
  cn_connections : unique_connections (connections l);
  cn_references : ∀ n,
    match probes l !! n with
    | Some q => references q = int_of (held hs n) + int_of (attached (connections l) n) ∧
                (held hs n = true ∨ attached (connections l) n = true)
    | None => held hs n = false ∧ attached (connections l) n = false
    end;
}.

Lemma counted_boot g : counted (MkLibrary 0 g ∅ ∅) [].
Proof.
  by split.
Qed.

(** Changes that refer to nothing new. *)
Lemma counted_same l l' hs : counted l hs → probe_count l' = probe_count l →
  (∀ n, references <$> probes l' !! n = references <$> probes l !! n) → size (probes l') = size (probes l) →
  (∀ n, attached (connections l') n = attached (connections l) n) → unique_connections (connections l') →
  counted l' hs.
Proof.
  intros [H1 H2 H3 H4 H5] Hc Hr Hs Ha Hu. split; [congruence|congruence|done|done|].
  intros n. specialize (H5 n). specialize (Hr n). rewrite Ha.
  destruct (probes l' !! n) as [q'|], (probes l !! n) as [q|]; try done. cbn in Hr. injection Hr as Hr. by rewrite Hr.
Qed.

Lemma attached_insert m c k k' n : m !! c = Some k → c_probe k' = c_probe k → attached (<[c := k']> m) n = attached m n.
Proof.
  intros Hc Hp. apply eq_true_iff_eq. rewrite !attached_spec. split; intros (d & e & Hd & He).
  - apply lookup_insert_Some in Hd as [[<- <-]|[_ Hd]]; [exists c, k|exists d, e]; by rewrite <-?Hp.
  - destruct (decide (d = c)) as [->|Hne]; [exists c, k'; rewrite lookup_insert_eq, Hp; by simplify_eq|].
    exists d, e. by rewrite lookup_insert_ne.
Qed.

Lemma unique_insert m c k k' : m !! c = Some k → c_probe k' = c_probe k → unique_connections m →
  unique_connections (<[c := k']> m).
Proof.
  intros Hc Hp Hu d e x y n Hd He Hx Hy.
  apply lookup_insert_Some in Hd as [[<- <-]|[Hcd Hd]]; apply lookup_insert_Some in He as [[<- <-]|[Hce He]].
  - done.
  - eapply Hu; [exact Hc|exact He|by rewrite <-Hp|done].
  - symmetry. eapply Hu; [exact Hc|exact Hd|by rewrite <-Hp|done].
  - by eapply Hu.
Qed.

(** A connection and its probe that change without changing hands. *)
Lemma counted_connection l hs c k k' : counted l hs → connections l !! c = Some k → c_probe k' = c_probe k →
  counted (with_connections (<[c := k']> (connections l)) l) hs.
Proof.
  intros Hc Hk Hp. eapply (counted_same l); try done; cbn.
  - intros n. by eapply attached_insert.
  - eapply unique_insert; [done..|apply Hc].
Qed.

Lemma counted_probe l hs n q q' : counted l hs → probes l !! n = Some q → references q' = references q →
  counted (with_probes (<[n := q']> (probes l)) l) hs.
Proof.
  intros Hc Hn Hr. eapply (counted_same l); try done; cbn.
  - intros m. destruct (decide (m = n)) as [->|]; [rewrite lookup_insert_eq, Hn; cbn; by rewrite Hr|by rewrite lookup_insert_ne].
  - by rewrite map_size_insert, Hn.
  - apply Hc.
Qed.

Lemma counted_alter l hs n (f : hid_diagnostic_probe → hid_diagnostic_probe) : counted l hs →
  (∀ q, references (f q) = references q) → counted (with_probes (alter f n (probes l)) l) hs.
Proof.
  intros Hc Hf. eapply (counted_same l); try done; cbn; [|by rewrite <-!size_dom, dom_alter_L|apply Hc].
  intros m. destruct (decide (m = n)) as [->|]; [rewrite lookup_alter_eq|by rewrite lookup_alter_ne].
  destruct (probes l !! n); [cbn; by rewrite Hf|done].
Qed.

(** A step of the threads and of the other callers. *)
Lemma counted_on_connection c f l hs : counted l hs →
  (∀ k q k' q', f k q = Some (k', q') → c_probe k' = c_probe k ∧ references <$> q' = references <$> q) →
  counted (on_connection c f l) hs.
Proof.
  intros Hc Hf. unfold on_connection. destruct (connections l !! c) as [k|] eqn:Ek; [|done].
  destruct (c_probe k) as [n|] eqn:En.
  - destruct (probes l !! n) as [q|] eqn:Eq; [|done]. destruct (f k (Some q)) as [[k' [q'|]]|] eqn:E; try done.
    destruct (Hf _ _ _ _ E) as [Hk Hq]. cbn in Hq. injection Hq as Hq.
    apply (counted_probe (with_connections _ l) _ n q); [|done|done]. by eapply counted_connection.
  - destruct (f k None) as [[k' q']|] eqn:E; [|done]. destruct (Hf _ _ _ _ E) as [Hk _].
    by eapply counted_connection.
Qed.

Lemma allocate_fresh {A} (m : gmap Z A) : m !! allocate m = None ∧ allocate m ≠ 0.
Proof.
  unfold allocate. pose proof (is_fresh ({[0]} ∪ dom m)) as Hf. rewrite elem_of_union, elem_of_singleton in Hf.
  split; [apply not_elem_of_dom; tauto|tauto].
Qed.

(** A new probe, for somebody who keeps its pointer. *)
Lemma counted_new calloc mutex cond l hs : counted l hs →
  match hid_diagnostic_probe_new calloc mutex cond l with
  | (Some n, l') => counted l' (hs ++ [Some n]) ∧ probes l' !! n = Some new_probe ∧ attached (connections l') n = false ∧
      connections l' = connections l
  | (None, l') => l' = l
  end.
Proof.
  intros [H1 H2 H3 H4 H5]. unfold hid_diagnostic_probe_new.
  destruct (Z.leb_spec DIAGNOSTIC_MAX_PROBES (probe_count l)) as [|Hlt]; [done|]. destruct (_ || _); [done|].
  destruct (allocate_fresh (probes l)) as [Hf _]. set (n := allocate (probes l)) in *.
  pose proof (H5 n) as Hn. rewrite Hf in Hn. destruct Hn as [Hh Ha]. unfold DIAGNOSTIC_MAX_PROBES in *.
  assert (E : u32 (probe_count l + 1) = probe_count l + 1) by (apply u32_small; lia).
  split; [|cbn; rewrite lookup_insert_eq; done]. split; cbn; rewrite ?E.
  - rewrite map_size_insert, Hf. lia.
  - unfold DIAGNOSTIC_MAX_PROBES. lia.
  - intros i j m Hi Hj. assert (Hm : ∀ i, hs !! i = Some (Some n) → False).
    { intros k Hk. rewrite (proj2 (held_spec hs n)) in Hh by (by exists k). done. }
    apply lookup_app_Some in Hi as [Hi|[Hli Hi]]; apply lookup_app_Some in Hj as [Hj|[Hlj Hj]].
    + by eapply H3.
    + apply list_lookup_singleton_Some in Hj as [_ [= <-]]. by destruct (Hm i).
    + apply list_lookup_singleton_Some in Hi as [_ [= <-]]. by destruct (Hm j).
    + apply list_lookup_singleton_Some in Hi as [? _]. apply list_lookup_singleton_Some in Hj as [? _]. lia.
  - done.
  - intros m. unfold held. rewrite existsb_app. fold (held hs m). cbn [existsb]. rewrite orb_false_r.
    destruct (decide (m = n)) as [->|Hne].
    + rewrite lookup_insert_eq, Hh, Ha, bool_decide_eq_true_2 by done. split; [done|by left].
    + rewrite lookup_insert_ne, (bool_decide_eq_false_2 (Some n = Some m)), orb_false_r by congruence. apply H5.
Qed.

(** A caller gives its pointer up. *)
Lemma held_drop hs i n m : unique_handles hs → hs !! i = Some (Some n) →
  held (<[i := None]> hs) m = held hs m && negb (bool_decide (m = n)).
Proof.
  intros Hu Hi. apply eq_true_iff_eq. rewrite andb_true_iff, negb_true_iff, bool_decide_eq_false, !held_spec. split.
  - intros [j Hj]. apply list_lookup_insert_Some in Hj as [(_ & ? & _)|[Hne Hj]]; [done|].
    split; [by exists j|]. intros ->. apply Hne. by eapply Hu.
  - intros [[j Hj] Hm]. exists j. rewrite list_lookup_insert_ne; [done|]. intros <-. congruence.
Qed.

Lemma unique_drop hs i : unique_handles hs → unique_handles (<[i := None]> hs).
Proof.
  intros Hu a b n Ha Hb. apply list_lookup_insert_Some in Ha as [(_ & ? & _)|[_ Ha]]; [done|].
  apply list_lookup_insert_Some in Hb as [(_ & ? & _)|[_ Hb]]; [done|]. by eapply Hu.
Qed.

(** A reference released, once the holders agree. *)
Lemma counted_release l hs hs' m n : counted l hs → unique_handles hs' → unique_connections m →
  held hs n = true ∨ attached (connections l) n = true →
  int_of (held hs' n) + int_of (attached m n) = int_of (held hs n) + int_of (attached (connections l) n) - 1 →
  (∀ x, x ≠ n → held hs' x = held hs x ∧ attached m x = attached (connections l) x) →
  counted (hid_diagnostic_probe_release n (with_connections m l)) hs'.
Proof.
  intros [H1 H2 H3 H4 H5] Hu Hm Hsome Hn Ho. unfold hid_diagnostic_probe_release. cbn [probes with_connections].
  pose proof (H5 n) as Hr. destruct (probes l !! n) as [q|] eqn:Eq.
  2: { destruct Hr as [Hr1 Hr2]. destruct Hsome; congruence. }
  destruct Hr as [Hr _]. assert (Hsz : (0 < size (probes l))%nat).
  { apply Nat.neq_0_lt_0. intros E%map_size_empty_inv. by rewrite E, lookup_empty in Eq. }
  unfold DIAGNOSTIC_MAX_PROBES in *. destruct (Z.eqb_spec (references q) 1) as [E1|E1].
  - assert (E : u32 (probe_count l - 1) = probe_count l - 1) by (apply u32_small; lia).
    split; cbn; rewrite ?E; try done.
    + rewrite map_size_delete_Some by done. lia.
    + unfold DIAGNOSTIC_MAX_PROBES. lia.
    + intros x. destruct (decide (x = n)) as [->|Hne].
      * rewrite lookup_delete_eq. destruct (held hs' n), (attached m n); cbn in Hn; try done; lia.
      * rewrite lookup_delete_ne by done. destruct (Ho x Hne) as [-> ->]. apply H5.
  - assert (E : u32 (references q - 1) = references q - 1).
    { apply u32_small. destruct (held hs n), (attached (connections l) n); cbn in Hr; destruct Hsome; done || lia. }
    split; cbn; try done.
    + by rewrite map_size_insert, Eq.
    + intros x. destruct (decide (x = n)) as [->|Hne].
      * rewrite lookup_insert_eq. cbn [references with_references]. rewrite E. split; [lia|].
        destruct (held hs' n), (attached m n); try (by left); try (by right).
        destruct (held hs n), (attached (connections l) n); cbn in Hn, Hr; lia.
      * rewrite lookup_insert_ne by done. destruct (Ho x Hne) as [-> ->]. apply H5.
Qed.

Lemma counted_close l hs i n : counted l hs → hs !! i = Some (Some n) →
  counted (hid_diagnostic_probe_close n l) (<[i := None]> hs).
Proof.
  intros Hc Hi. assert (Hc' := counted_alter l hs n close_probe Hc (λ _, eq_refl)).
  unfold hid_diagnostic_probe_close. set (l' := with_probes _ l) in *.
  assert (Hn : held hs n = true) by (apply held_spec; by exists i). pose proof (held_drop hs i n n (cn_handles _ _ Hc) Hi) as Hd.
  apply (counted_release l' hs _ (connections l') n Hc').
  - apply unique_drop, Hc.
  - apply Hc'.
  - by left.
  - rewrite Hd, Hn, bool_decide_eq_true_2 by done. cbn. lia.
  - intros x Hx. rewrite (held_drop hs i n x (cn_handles _ _ Hc) Hi), bool_decide_eq_false_2 by done.
    by rewrite andb_true_r.
Qed.

Lemma attached_add m c k n x : m !! c = Some k → c_probe k = None →
  attached (<[c := with_probe (Some n) k]> m) x = attached m x || bool_decide (x = n).
Proof.
  intros Hc Hp. apply eq_true_iff_eq. rewrite orb_true_iff, bool_decide_eq_true, !attached_spec. split.
  - intros (d & e & Hd & He). apply lookup_insert_Some in Hd as [[<- <-]|[_ Hd]]; [right; cbn in He; congruence|].
    left. by exists d, e.
  - intros [(d & e & Hd & He)| ->].
    + exists d, e. rewrite lookup_insert_ne; [done|]. intros <-. congruence.
    + exists c, (with_probe (Some n) k). by rewrite lookup_insert_eq.
Qed.

Lemma unique_add m c k n : unique_connections m → m !! c = Some k → attached m n = false →
  unique_connections (<[c := with_probe (Some n) k]> m).
Proof.
  intros Hu Hc Ha d e x y z Hd He Hx Hy.
  assert (Hno : ∀ b w, m !! b = Some w → c_probe w = Some n → False).
  { intros b w Hb Hw. rewrite (proj2 (attached_spec m n)) in Ha by (by exists b, w). done. }
  apply lookup_insert_Some in Hd as [[<- <-]|[Hcd Hd]]; apply lookup_insert_Some in He as [[<- <-]|[Hce He]].
  - done.
  - cbn in Hx. simplify_eq. by destruct (Hno e y).
  - cbn in Hy. simplify_eq. by destruct (Hno d x).
  - by eapply Hu.
Qed.

(** A probe that its caller holds and no connection does is attached. *)
Lemma counted_attach l hs c n code l' : counted l hs → held hs n = true → attached (connections l) n = false →
  hid_diagnostic_attach c n l = (code, l') → counted l' hs ∧ (code ≠ 0 → l' = l).
Proof.
  intros Hc Hh Ha. unfold hid_diagnostic_attach. destruct (connections l !! c) as [k|] eqn:Ek; [|by intros [= <- <-]].
  destruct (c_probe k) eqn:Ep; [by intros [= <- <-]|]. cbn [orb].
  destruct (_ || _); [by intros [= <- <-]|]. intros [= <- <-]. split; [|done].
  match goal with |- counted (with_probes (alter ?f _ _) ?l') _ => apply (counted_alter l' hs n f); [|done] end.
  pose proof Hc as [H1 H2 H3 H4 H5]. pose proof (H5 n) as Hn. destruct (probes l !! n) as [q|] eqn:Eq.
  2: { destruct Hn. congruence. }
  destruct Hn as [Hn _]. rewrite Hh, Ha in Hn. cbn in Hn.
  split; cbn; try done.
  - by rewrite <-size_dom, dom_alter_L, size_dom.
  - by apply unique_add.
  - intros m. rewrite (attached_add _ _ _ _ _ Ek Ep). destruct (decide (m = n)) as [->|Hne].
    + rewrite lookup_alter_eq, Eq. cbn [fmap option_fmap option_map references with_references].
      rewrite Hn, Hh, Ha, bool_decide_eq_true_2 by done. split; [done|by left].
    + rewrite lookup_alter_ne, bool_decide_eq_false_2, orb_false_r by done. apply H5.
Qed.

Lemma attached_new m c b y g i n : m !! c = None → attached (<[c := new_connection b y g i]> m) n = attached m n.
Proof.
  intros Hc. apply eq_true_iff_eq. rewrite !attached_spec. split; intros (d & e & Hd & He).
  - apply lookup_insert_Some in Hd as [[_ <-]|[_ Hd]]; [done|by exists d, e].
  - exists d, e. rewrite lookup_insert_ne; [done|]. intros <-. congruence.
Qed.

Lemma unique_new m c b y g i : unique_connections m → unique_connections (<[c := new_connection b y g i]> m).
Proof.
  intros Hu d e x z n Hd He Hx Hz. apply lookup_insert_Some in Hd as [[_ <-]|[_ Hd]]; [done|].
  apply lookup_insert_Some in He as [[_ <-]|[_ He]]; [done|]. by eapply Hu.
Qed.

Lemma counted_generation l hs g l' : counted l hs → hid_diagnostic_generation l = (g, l') → counted l' hs.
Proof. intros Hc [= _ <-]. eapply (counted_same l); try done. apply Hc. Qed.

Lemma counted_new_connection l hs c b y g i : counted l hs → connections l !! c = None →
  counted (with_connections (<[c := new_connection b y g i]> (connections l)) l) hs.
Proof.
  intros Hc Hn. eapply (counted_same l); try done; cbn.
  - intros n. by apply attached_new.
  - apply unique_new, Hc.
Qed.

Lemma counted_hid_connect l hs input output inherited :
  counted l hs → counted (hid_connect input output inherited l).2 hs.
Proof.
  intros Hc. unfold hid_connect. destruct (hid_diagnostic_generation l) as [g l'] eqn:Eg.
  apply counted_new_connection; [by eapply counted_generation|apply allocate_fresh].
Qed.

(** A connection goes, with its reference. *)
Lemma attached_delete m c k x : unique_connections m → m !! c = Some k →
  attached (delete c m) x = attached m x && negb (bool_decide (c_probe k = Some x)).
Proof.
  intros Hu Hc. apply eq_true_iff_eq. rewrite andb_true_iff, negb_true_iff, bool_decide_eq_false, !attached_spec. split.
  - intros (d & e & [Hne Hd]%lookup_delete_Some & He). split; [by exists d, e|]. intros Hk. apply Hne. by eapply Hu.
  - intros [(d & e & Hd & He) Hk]. exists d, e. rewrite lookup_delete_ne; [done|]. intros <-. congruence.
Qed.

Lemma unique_delete m c : unique_connections m → unique_connections (delete c m).
Proof. intros Hu d e x y n [_ Hd]%lookup_delete_Some [_ He]%lookup_delete_Some. by eapply Hu. Qed.

Lemma counted_without l hs c k : counted l hs → connections l !! c = Some k →
  counted (match c_probe k with
           | Some n => hid_diagnostic_probe_release n (with_connections (delete c (connections l)) l)
           | None => with_connections (delete c (connections l)) l
           end) hs.
Proof.
  intros Hc Hk. pose proof (λ x, attached_delete _ _ _ x (cn_connections _ _ Hc) Hk) as Hd.
  destruct (c_probe k) as [n|] eqn:Ep.
  - assert (Ha : attached (connections l) n = true) by (apply attached_spec; by exists c, k).
    apply (counted_release l hs hs (delete c (connections l)) n Hc).
    + apply Hc.
    + apply unique_delete, Hc.
    + by right.
    + rewrite Hd, Ha, bool_decide_eq_true_2 by done. cbn. lia.
    + intros x Hx. rewrite Hd, bool_decide_eq_false_2 by congruence. by rewrite andb_true_r.
  - eapply (counted_same l); try done; cbn; [|apply unique_delete, Hc].
    intros n. by rewrite Hd, andb_true_r.
Qed.

(** *** Threads *)
Definition keeps (f : connection → option hid_diagnostic_probe → option (connection * option hid_diagnostic_probe)) : Prop :=
  ∀ k q k' q', f k q = Some (k', q') → c_probe k' = c_probe k ∧ references <$> q' = references <$> q.

Lemma writer_keeps a : keeps (writer_turn a).
Proof.
  intros k q k' q'. unfold writer_turn, idle_turn, barrier_turn. destruct (c_writer k); intros E; simplify_eq.
  - repeat case_match; simplify_eq; by (destruct q || destruct q').
  - unfold begin_turn in *. repeat case_match; by simplify_eq.
  - unfold masks_turn in *. repeat case_match; simplify_eq; by (destruct q || destruct q').
  - unfold setup_turn. by repeat case_match.
  - unfold before_turn, inject, kill_writer in *. repeat case_match; by simplify_eq.
  - repeat case_match; by simplify_eq.
  - unfold native_turn in *. repeat case_match; simplify_eq; by (destruct q || destruct q').
  - injection E as <- <-. cbn. split; [done|]. by destruct (recording k), q.
  - unfold complete_turn in *. repeat case_match; simplify_eq; by (destruct q || destruct q').
Qed.

Lemma entry_keeps entry a k q : let '(k', q') := (hid_diagnostics_native_entry entry a k q).2 in
  c_probe k' = c_probe k ∧ references <$> q' = references <$> q.
Proof.
  unfold hid_diagnostics_native_entry, kill_writer. destruct q as [p|]; [|done].
  repeat case_match; by simplify_eq/=.
Qed.

Ltac same_references :=
  repeat case_match; intros; simplify_eq;
  repeat match goal with x : option hid_diagnostic_probe |- _ => destruct x end; done.

Lemma counted_event e l hs : counted l hs → counted (run_event e l) hs.
Proof.
  intros Hc. destruct e as [c a|c entry a|c result typ id report|c|c data|c|c|c|c|input output inherited]; cbn [run_event];
    try (apply counted_on_connection; [exact Hc|]).
  - apply writer_keeps.
  - intros k q k' q'. pose proof (entry_keeps entry a k q) as He. destruct (c_writer k); try done. intros [= E]. by rewrite E in He.
  - by intros k q k' q' [= <- <-].
  - by intros k q k' q' [= <- <-].
  - intros k q k' q'. unfold call_write. same_references.
  - intros k q k' q'. unfold write_returns. same_references.
  - intros k q k' q'. unfold disconnects. same_references.
  - intros k q k' q'. unfold writer_joins. same_references.
  - unfold connection_closed. destruct (connections l !! c) as [k|] eqn:Ek; [|done].
    destruct (c_writer k); try done. destruct (c_probe k) as [n|] eqn:En.
    + pose proof (counted_without (with_probes (alter device_is_closed n (probes l)) l) hs c k) as H.
      rewrite En in H. apply H; [|done]. by apply counted_alter.
    + pose proof (counted_without l hs c k Hc Ek) as H. by rewrite En in H.
  - by apply counted_hid_connect.
Qed.

Lemma counted_events es : ∀ l hs, counted l hs → counted (foldl (λ l e, run_event e l) l es) hs.
Proof. induction es as [|e es IH]; intros l hs Hc; [done|]. by apply IH, counted_event. Qed.

(** *** Callers *)
Section Callers.
Context {texts : ErrnoText}.

Lemma counted_arm config p l hs : counted l hs → counted (Arm config p l).2 hs.
Proof.
  intros Hc. unfold Arm. destruct (validateConfig config); [done|]. destruct (native p) as [n|]; [|done].
  destruct (_ && _); [done|]. unfold hid_diagnostic_arm. destruct (probes l !! n) as [q|] eqn:Eq; [|done].
  destruct (arm (nativeConfig config) q) as [code q'] eqn:Ea.
  apply (counted_probe l hs n q q' Hc Eq). unfold arm in Ea. repeat case_match; by simplify_eq.
Qed.

Lemma counted_Close p l hs i : counted l hs → hs !! i = Some (native p) →
  counted (Close p l).2 (<[i := native (Close p l).1]> hs).
Proof.
  intros Hc Hi. unfold Close. destruct (native p) as [n|] eqn:En; cbn.
  - by apply counted_close.
  - by rewrite En, list_insert_id.
Qed.

(** A probe that its maker gives up again. *)
Lemma counted_Close_new p l hs n : counted l (hs ++ [Some n]) → native p = Some n → counted (Close p l).2 hs.
Proof.
  intros Hc Hp. pose proof (counted_Close p l _ (length hs) Hc) as H. rewrite Hp in H.
  unfold Close in *. rewrite Hp in *. cbn [fst snd native] in *.
  rewrite insert_app_r_alt, Nat.sub_diag in H by lia. cbn in H.
  assert (Hl : counted (hid_diagnostic_probe_close n l) (hs ++ [None])) by (apply H; by rewrite lookup_app_r, Nat.sub_diag by lia).
  destruct Hl as [H1 H2 H3 H4 H5]. split; try done.
  - intros i j m Hi Hj. apply (H3 i j m); by apply lookup_app_l_Some.
  - intros m. specialize (H5 m). unfold held in H5. rewrite existsb_app in H5. cbn [existsb] in H5.
    rewrite (bool_decide_eq_false_2 (None = Some m)) in H5 by done. by rewrite !orb_false_r in H5.
Qed.

Lemma newProbe_spec a l hs : counted l hs →
  match newProbe a l with
  | (Ok p, l') => ∃ n, native p = Some n ∧ counted l' (hs ++ [Some n]) ∧ attached (connections l') n = false ∧
      connections l' = connections l
  | (Err _, l') => l' = l
  end.
Proof.
  intros Hc. unfold newProbe. pose proof (counted_new (calloc_ok a) (mutex_init a) (cond_init a) l hs Hc) as Hn.
  destruct (hid_diagnostic_probe_new _ _ _ l) as [[n|] l']; [|done]. exists n. cbn. tauto.
Qed.

Lemma held_last hs n : held (hs ++ [Some n]) n = true.
Proof. apply held_spec. exists (length hs). by rewrite lookup_app_r, Nat.sub_diag by lia. Qed.

Lemma Attach_counted d a l hs : counted l hs →
  match Attach d a l with
  | (Ok p, l') => ∃ n, native p = Some n ∧ counted l' (hs ++ [Some n])
  | (Err _, l') => counted l' hs
  end.
Proof.
  intros Hc. unfold Attach. destruct d as [d|]; [|done]. destruct (_ =? DarwinBinding.nil); [done|].
  pose proof (newProbe_spec a l hs Hc) as Hn. destruct (newProbe a l) as [[p|e] l1]; [|by subst].
  destruct Hn as (n & Hp & Hc1 & Ha & _). rewrite Hp.
  destruct (hid_diagnostic_attach _ n l1) as [code l2] eqn:Eat.
  apply (counted_attach l1 _ _ _ _ _ Hc1 (held_last hs n) Ha) in Eat as [Hc2 _].
  destruct (negb (code =? 0)); [by eapply counted_Close_new|by exists n].
Qed.

Lemma connections_release n l : connections (hid_diagnostic_probe_release n l) = connections l.
Proof. unfold hid_diagnostic_probe_release. destruct (probes l !! n) as [q|]; [|done]. by case_match. Qed.
Lemma release_with_connections n m l :
  hid_diagnostic_probe_release n (with_connections m l) = with_connections m (hid_diagnostic_probe_release n l).
Proof. unfold hid_diagnostic_probe_release. cbn. destruct (probes l !! n) as [q|]; [|done]. by case_match. Qed.

Lemma connect_counted n k l hs : counted l hs → held hs n = true → attached (connections l) n = false →
  let '(_, l') := hid_diagnostic_connect n k l in counted l' hs.
Proof.
  intros Hc Hh Ha. unfold hid_diagnostic_connect. destruct (calloc_ok k); [|done]. cbn [negb].
  destruct (hid_diagnostic_generation l) as [g l1] eqn:Eg. assert (Hc1 : counted l1 hs) by (by eapply counted_generation).
  assert (Ec : connections l1 = connections l) by (by injection Eg as _ <-).
  destruct (negb (mutex_init k =? 0)); [exact Hc1|]. destruct (negb (cond_init k =? 0)); [exact Hc1|].
  set (c := allocate (connections l1)). destruct (allocate_fresh (connections l1)) as [Hf _].
  fold c in Hf. set (l2 := with_connections _ l1).
  assert (Hc2 : counted l2 hs) by (by apply counted_new_connection).
  destruct (hid_diagnostic_attach c n l2) as [code l3] eqn:Eat.
  apply (counted_attach l2 _ _ _ _ _ Hc2 Hh) in Eat as [Hc3 Hsame]; [|cbn; by rewrite attached_new, Ec].
  destruct (negb ((if code =? 0 then pthread_create k else code) =? 0)); [|exact Hc3].
  destruct (connections l3 !! c) as [x|] eqn:Ex; [pose proof (counted_without l3 hs c x Hc3 Ex) as Hw|].
  - destruct (c_probe x) as [m|]; [|done]. by rewrite connections_release, <-release_with_connections.
  - rewrite delete_id by done. by destruct l3.
Qed.

Lemma NewSynthetic_counted config a k l hs : counted l hs →
  match NewSynthetic config a k l with
  | (Ok (_, p), l') => ∃ n, native p = Some n ∧ counted l' (hs ++ [Some n])
  | (Err _, l') => counted l' hs
  end.
Proof.
  intros Hc. unfold NewSynthetic. destruct (validateConfig config); [done|].
  pose proof (newProbe_spec a l hs Hc) as Hn. destruct (newProbe a l) as [[p|e] l1]; [|by subst].
  destruct Hn as (n & Hp & Hc1 & Ha & _). rewrite Hp.
  pose proof (connect_counted n k l1 _ Hc1 (held_last hs n) Ha) as Hk.
  destruct (hid_diagnostic_connect n k l1) as [[[c|] code] l2]; [|by eapply counted_Close_new].
  unfold snapshotLocked. rewrite Hp. set (p' := MkProbe _ _).
  pose proof (counted_arm config p' l2 _ Hk) as Harm. destruct (Arm config p' l2) as [[err|] l3]; [|by exists n].
  eapply counted_Close_new; [|done]. by apply counted_events.
Qed.

Lemma counted_action x s : counted (lib s) (map native (handles s)) →
  counted (lib (run_action x s)) (map native (handles (run_action x s))).
Proof.
  intros Hc. destruct x as [e|config a k|d a|i config|i|i|i]; cbn [run_action].
  - by apply counted_event.
  - pose proof (NewSynthetic_counted config a k _ _ Hc) as Hn.
    destruct (NewSynthetic config a k (lib s)) as [[[d p]|e] l]; [|done].
    destruct Hn as (n & Hp & Hn). cbn. rewrite map_app. cbn. by rewrite Hp.
  - destruct (connections (lib s) !! _); [|done].
    pose proof (Attach_counted (Some d) a _ _ Hc) as Hn. destruct (Attach (Some d) a (lib s)) as [[p|e] l]; [|done].
    destruct Hn as (n & Hp & Hn). cbn. rewrite map_app. cbn. by rewrite Hp.
  - unfold on_handle. destruct (handles s !! i) as [p|] eqn:Ei; [|done]. cbn. rewrite list_insert_id by done.
    by apply counted_arm.
  - unfold on_handle. destruct (handles s !! i) as [p|] eqn:Ei; [|done]. unfold snapshotLocked.
    destruct (native p) as [n|] eqn:En; cbn; [|by rewrite list_insert_id].
    change (@map) with (@fmap list _). rewrite list_fmap_insert. cbn. rewrite list_insert_id; [done|].
    rewrite list_lookup_fmap, Ei. cbn. by rewrite En.
  - unfold on_handle. destruct (handles s !! i) as [p|] eqn:Ei; [|done]. cbn. rewrite list_insert_id by done.
    unfold Release. destruct (native p); [|done]. by apply counted_alter.
  - unfold on_handle. destruct (handles s !! i) as [p|] eqn:Ei; [|done].
    pose proof (counted_Close p (lib s) (map native (handles s)) i Hc) as H.
    destruct (Close p (lib s)) as [p' l'] eqn:Ec. cbn [fst snd lib handles] in *.
    rewrite <-list_fmap_insert in H. apply H. by rewrite list_lookup_fmap, Ei.
Qed.

Lemma counted_actions xs : ∀ s, counted (lib s) (map native (handles s)) →
  counted (lib (run_actions xs s)) (map native (handles (run_actions xs s))).
Proof. induction xs as [|x xs IH]; intros s Hc; [done|]. by apply IH, counted_action. Qed.
End Callers.
End LifetimeProps.

(** ** Writes *)
Module WriteProps.
Import DarwinConnection ProbeNative ProbeDiagnostics LifetimeProps.

(** Between the first critical section of a write and the last. *)
Definition mid_write (w : writer_pc) : Prop :=
  match w with WMasks | WSetup | WBefore _ | WHolding _ | WNative _ | WFinish _ => True | _ => False end.

(** From the barrier to the return of the device. *)
Definition at_device (w : writer_pc) : Prop := match w with WHolding _ | WNative _ => True | _ => False end.

(** The signal mask of the writer: SIGURG is blocked around the device, and the
    mask is [home] everywhere else, unless it could not be restored. *)
Definition masked (k : connection) : Prop :=
  match c_writer k with
  | WIdle | WBegin | WMasks | WSetup => c_mask k = home k
  | WBefore previous | WHolding previous | WNative previous => previous = home k ∧ c_mask k = {[SIGURG]} ∪ home k
  | WFinish r | WComplete r => restore_error r = 0 → c_mask k = home k
  | WExited | WJoined => True
  end.

(** A connection and its probe. *)
Record linked (k : connection) (q : option hid_diagnostic_probe) : Prop := {
  lk_mask : masked k;
  lk_pending : c_pending k = true → SIGURG ∈ c_mask k;
  lk_none : q = None → recording k = false;
  lk_active : ∀ p, q = Some p → recording k = true → mid_write (c_writer k) → active p = true;
  lk_critical : ∀ p, q = Some p → recording k = true →
    at_device (c_writer k) →
    snap p mask_query_error = 0 → snap p critical_urgent = 1;
}.

(** A probe by itself: while it is armed, PHASE_NATIVE is still to come. *)
Definition quiet (p : hid_diagnostic_probe) : Prop :=
  holds (snap p) armed = true → active p = false ∧ Z.land (snap p phases) PHASE_NATIVE = 0.

(** No phase that was reached is lost. *)
Definition more (p p' : hid_diagnostic_probe) : Prop :=
  ∀ w, Z.land (snap p phases) w = w → Z.land (snap p' phases) w = w.

#[export] Instance more_preorder : PreOrder more.
Proof. split; [by intros p w|]. intros p p' p'' H1 H2 w Hw. by apply H2, H1. Qed.

Lemma more_same p p' : snap p' phases = snap p phases → more p p'.
Proof. intros E w. by rewrite E. Qed.

Lemma more_lor p p' b : snap p' phases = Z.lor (snap p phases) b → more p p'.
Proof.
  intros E w Hw. rewrite E, Z.land_lor_distr_l, Hw. apply Z.bits_inj'. intros i Hi.
  rewrite Z.lor_spec, Z.land_spec. destruct (Z.testbit w i), (Z.testbit b i); done.
Qed.

Lemma ldiff_quiet x b : Z.land x b = 0 → Z.ldiff x b = x.
Proof.
  intros H. apply Z.bits_inj'. intros i Hi. rewrite Z.ldiff_spec.
  assert (Hb : Z.testbit (Z.land x b) i = false) by (rewrite H; apply Z.bits_0).
  rewrite Z.land_spec in Hb. destruct (Z.testbit x i), (Z.testbit b i); done.
Qed.

Lemma land_ldiff x b : Z.land (Z.ldiff x b) b = 0.
Proof.
  apply Z.bits_inj'. intros i Hi. rewrite Z.land_spec, Z.ldiff_spec, Z.bits_0.
  by destruct (Z.testbit x i), (Z.testbit b i).
Qed.

Lemma snap_same (f : field) v (s : snapshot) : <[f := v]> s f = v.
Proof. apply functions.fn_lookup_insert. Qed.
Lemma snap_other (f g : field) v (s : snapshot) : f ≠ g → <[f := v]> s g = s g.
Proof. apply functions.fn_lookup_insert_ne. Qed.

(** A connection and its probe together, and what a step makes of the phases. *)
Definition fine (k : connection) (q : option hid_diagnostic_probe) : Prop :=
  linked k q ∧ ∀ p, q = Some p → quiet p.
Definition onward (q q' : option hid_diagnostic_probe) : Prop :=
  match q, q' with Some p, Some p' => more p p' | None, None => True | _, _ => False end.

Lemma onward_refl q : onward q q.
Proof. by destruct q; cbn. Qed.

Definition steady (f : connection → option hid_diagnostic_probe → option (connection * option hid_diagnostic_probe)) : Prop :=
  ∀ k q k' q', fine k q → f k q = Some (k', q') → fine k' q' ∧ onward q q'.

(** A step that leaves the probe alone. *)
Lemma fine_connection k k' q : fine k q → masked k' → (c_pending k' = true → SIGURG ∈ c_mask k') →
  recording k' = recording k ∧ (mid_write (c_writer k') → mid_write (c_writer k)) ∧
    (at_device (c_writer k') → at_device (c_writer k) ∨ recording k = false) ∨
  recording k' = false →
  fine k' q ∧ onward q q.
Proof.
  intros [[H1 H2 H3 H4 H5] Hq] Hm Hp Hr. split; [|apply onward_refl]. split; [|done].
  destruct Hr as [(Hr & Hw & Hb)|Hr]; split; try done; rewrite Hr; try done.
  - intros p Hq' Hrec Hmid. by apply H4; [..|apply Hw].
  - intros p Hq' Hrec Hn Hz. apply H5; try done. destruct (Hb Hn); [done|congruence].
Qed.

(** One that changes a field of the probe that none of this depends on. *)
Lemma fine_probe k p p' : fine k (Some p) → active p' = active p →
  (snap p' armed = snap p armed ∨ snap p' armed = 0) →
  snap p' mask_query_error = snap p mask_query_error → snap p' critical_urgent = snap p critical_urgent →
  (∃ b, snap p' phases = Z.lor (snap p phases) b ∧ Z.land b PHASE_NATIVE = 0) →
  fine k (Some p') ∧ more p p'.
Proof.
  intros [[H1 H2 H3 H4 H5] Hq] Ha Harm Hm Hc (b & Hb & Hb0). split; [split|by eapply more_lor].
  - split; try done.
    + intros x [= <-]. rewrite Ha. by apply H4.
    + intros x [= <-]. rewrite Hm, Hc. by apply H5.
  - intros x [= <-] Hx. destruct (Hq p eq_refl) as [Hact Hph].
    + unfold holds in *. destruct Harm as [<-|Harm]; [done|]. by rewrite Harm in Hx.
    + rewrite Ha, Hb, Z.land_lor_distr_l, Hph, Hb0. done.
Qed.

Definition pending_blocked (k : connection) : Prop := c_pending k = true → SIGURG ∈ c_mask k.
Lemma pending_mask m k : pending_blocked (with_mask m k).
Proof. intros [_ H]%andb_true_iff. by apply bool_decide_eq_true in H. Qed.
Lemma pending_kill e k : pending_blocked k → pending_blocked (kill_writer e k).
Proof.
  unfold kill_writer. case_match; [|done]. intros Hk [Hb|Hb]%orb_true_iff; [by apply Hk|].
  by apply bool_decide_eq_true in Hb.
Qed.

(** A step on the two parts in turn. *)
Lemma fine_both k' q q' : fine k' q ∧ onward q q →
  (∀ p, q = Some p → fine k' q → ∃ p', q' = Some p' ∧ fine k' q' ∧ more p p') → (q = None → q' = None) →
  fine k' q' ∧ onward q q'.
Proof.
  intros [Hf _] Hs Hn. destruct q as [p|].
  - destruct (Hs p eq_refl Hf) as (p' & -> & Hf' & Hm). by split.
  - rewrite (Hn eq_refl) in *. by split.
Qed.

Lemma begin_fine k q : c_writer k = WBegin → fine k q → let '(k', q') := begin_turn k q in fine k' q' ∧ onward q q'.
Proof.
  intros Hw Hf. pose proof Hf as [[H1 H2 H3 H4 H5] Hq]. unfold masked in H1. rewrite Hw in H1.
  assert (Hplain : fine (at_pc WSetup (with_record false no_config k)) q ∧ onward q q).
  { apply fine_connection with k; try done. by right. }
  unfold begin_turn. destruct q as [p|]; [|done].
  destruct (holds (snap p) armed) eqn:Ea; [|done]. destruct (closing p); [done|]. cbn [negb orb].
  destruct (Hq p eq_refl Ea) as [Hact Hph]. split; [split|].
  - split; try done. intros x [= <-] _ _. done.
  - intros x [= <-]. done.
  - cbn. intros w Hww. change (Z.land (Z.ldiff (snap p phases) PHASE_NATIVE) w = w). by rewrite ldiff_quiet.
Qed.

Lemma masks_fine a k q : c_writer k = WMasks → fine k q → let '(k', q') := masks_turn a k q in fine k' q' ∧ onward q q'.
Proof.
  intros Hw Hf. pose proof Hf as [[H1 H2 H3 H4 H5] Hq]. unfold masks_turn. cbv zeta.
  set (c1 := if first_mask_error a =? 0 then _ else k).
  assert (P1 : pending_blocked c1 ∧ recording c1 = recording k) by (unfold c1; case_match; split; done || apply pending_mask).
  set (e1 := if first_mask_error a =? 0 then _ else _). set (c2 := if e1 =? 0 then _ else c1).
  assert (P2 : pending_blocked c2 ∧ recording c2 = recording k).
  { unfold c2. case_match; [|done]. split; [apply pending_mask|apply P1]. }
  set (e2 := if e1 =? 0 then _ else _). set (c3 := at_home _).
  assert (P3 : pending_blocked c3 ∧ recording c3 = recording k ∧ c_mask c3 = home c3) by (unfold c3; case_match; (split_and!; [exact (proj1 P2)|exact (proj2 P2)|done])).
  destruct P3 as (P3 & R3 & M3). clearbody c3. eapply fine_both.
  - apply fine_connection with k; [done| |exact P3|left]; unfold masked; cbn; rewrite ?Hw; destruct (e2 =? 0); done.
  - intros p -> Hk. eexists. split; [done|]. apply fine_probe; try done; unfold record_before; case_match; try done; try (by left).
    all: exists 0; by rewrite Z.lor_0_r.
  - by intros ->.
Qed.

Lemma setup_fine a k q : c_writer k = WSetup → fine k q → fine (setup_turn a k) q ∧ onward q q.
Proof.
  intros Hw Hf. pose proof Hf as [[H1 H2 H3 H4 H5] Hq]. unfold masked in H1. rewrite Hw in H1.
  unfold setup_turn.
  repeat case_match; (apply fine_connection with k; [exact Hf| | |left; cbn; by rewrite Hw]);
    [intros _; exact H1|exact H2|intros _; exact H1|exact H2|intros _; exact H1|exact H2| |apply pending_mask].
  split; [by rewrite H1|]. cbn. by rewrite H1.
Qed.

(** The barrier is before the device. *)
Lemma inject_fine a k p : pending_blocked k → fine k (Some p) →
  let '(k', p') := inject a k p in
  pending_blocked k' ∧ c_mask k' = c_mask k ∧ home k' = home k ∧ recording k' = recording k ∧
  active p' = active p ∧ snap p' armed = snap p armed ∧ snap p' phases = snap p phases.
Proof.
  intros Hp _. unfold inject. destruct (negb _); [done|]. destruct (closing p); [done|].
  split; [by apply pending_kill|]. unfold kill_writer. by destruct (pthread_kill_error a =? 0).
Qed.

Lemma before_fine a previous k q : c_writer k = WBefore previous → fine k q →
  let '(k', q') := before_turn a previous k q in fine k' q' ∧ onward q q'.
Proof.
  intros Hw Hf. pose proof Hf as [[H1 H2 H3 H4 H5] Hq]. unfold masked in H1. rewrite Hw in H1, H4.
  assert (Hplain : recording k = false → fine (at_pc (WNative previous) k) q ∧ onward q q).
  { intros Hr. apply fine_connection with k; try done. left. cbn. rewrite Hw. split_and!; [done|done|by right]. }
  unfold before_turn. destruct (recording k) eqn:Er; [|by apply Hplain]. destruct q as [p|]; [|by discriminate (H3 eq_refl)].
  assert (Hact : active p = true) by by apply H4. assert (Harm : holds (snap p) armed = false).
  { destruct (holds (snap p) armed) eqn:E; [|done]. destruct (Hq p eq_refl E). congruence. }
  assert (∃ k1 p1, (if inject_urgent (c_active k) then inject a k p else (k, p)) = (k1, p1) ∧
    pending_blocked k1 ∧ c_mask k1 = c_mask k ∧ home k1 = home k ∧ recording k1 = recording k ∧
    active p1 = active p ∧ snap p1 armed = snap p armed ∧ snap p1 phases = snap p phases)
    as (k1 & p1 & -> & Hp1 & Hm1 & Hh1 & Hr1 & Ha1 & Har1 & Hph1).
  { pose proof (inject_fine a k p H2 Hf) as Hi. destruct (inject_urgent _); [|by eexists _, _].
    destruct (inject a k p) as [k1 p1]. by exists k1, p1. }
  cbv zeta. set (e := if query_error a =? 0 then _ else _). clearbody e.
  assert (Hph : snap (with_snap (record_native e k1) p1) phases = Z.lor (snap p phases) PHASE_NATIVE).
  { rewrite <-Hph1. unfold record_native. by case_match. }
  split; [split; [split|]|by eapply more_lor].
  - unfold masked. cbn. by rewrite Hm1, Hh1.
  - exact Hp1.
  - done.
  - intros x [= <-] _ _. cbn. by rewrite Ha1.
  - intros x [= <-] _ _. cbn. unfold record_native. destruct (Z.eqb_spec e 0) as [->|He].
    + intros _. change (int_of (bool_decide (SIGURG ∈ c_mask k1)) = 1). rewrite bool_decide_eq_true_2; [done|].
      rewrite Hm1, (proj2 H1). set_solver.
    + intros Hz. by destruct He.
  - intros x [= <-] Hx. exfalso.
    assert (holds (snap (with_snap (record_native e k1) p1)) armed = holds (snap p) armed) as E; [|congruence].
    unfold holds. rewrite <-Har1. unfold record_native. by case_match.
Qed.

Lemma barrier_fine previous k q k' q' : c_writer k = WHolding previous → fine k q →
  barrier_turn previous k q = Some (k', q') → fine k' q' ∧ onward q q'.
Proof.
  intros Hw Hf. pose proof Hf as [[H1 H2 H3 H4 H5] Hq]. unfold masked in H1. rewrite Hw in H1.
  unfold barrier_turn. intros E. apply (fine_both k').
  - apply fine_connection with k; [exact Hf|..]; destruct q; repeat case_match; simplify_eq; try done; left; cbn; rewrite Hw;
      (split_and!; [done|done|by left]).
  - intros p -> Hk. case_match; simplify_eq. eexists. split; [done|]. apply fine_probe; try done; [by left|].
    exists 0. by rewrite Z.lor_0_r.
  - intros ->. by simplify_eq.
Qed.

Lemma native_fine a previous k q : c_writer k = WNative previous → fine k q →
  let '(k', q') := native_turn a previous k q in fine k' q' ∧ onward q q'.
Proof.
  intros Hw Hf.
  assert (∃ k1 q1, (if recording k then (with_current false k, with_atoms <[a_strict_armed := 0]> <$> q) else (k, q)) = (k1, q1) ∧
    c_writer k1 = WNative previous ∧ fine k1 q1 ∧ onward q q1) as (k1 & q1 & E & Hw1 & Hf1 & Ho).
  { destruct (recording k) eqn:Er; [|by exists k, q; split_and!; [..|apply onward_refl]].
    eexists _, _. split; [done|]. split; [done|]. apply fine_both.
    - apply fine_connection with k; [exact Hf|..]; [apply Hf|apply Hf|]. left. cbn. split_and!; [done|done|by left].
    - intros p -> Hk. eexists. split; [done|]. apply fine_probe; try done; [by left|]. exists 0. by rewrite Z.lor_0_r.
    - by intros ->. }
  unfold native_turn. cbv zeta. rewrite E. set (restore := if _ && _ then _ else _).
  pose proof Hf1 as [[H1 H2 H3 H4 H5] Hq]. unfold masked in H1. rewrite Hw1 in H1. destruct H1 as [-> Hm].
  assert (fine (at_pc (WFinish (MkWriteResult (if c_synthetic k then cfg_native_error (c_active k) else set_report a) 0 restore true
    ((if c_synthetic k then cfg_native_error (c_active k) else set_report a) =? 0)))
    (if restore =? 0 then with_mask (home k1) k1 else k1)) q1 ∧ onward q1 q1) as [Hr _]; [|by split].
  apply fine_connection with k1; [exact Hf1|..].
  - unfold masked. cbn. intros ->. done.
  - destruct (restore =? 0); [apply pending_mask|exact H2].
  - left. cbn. rewrite Hw1. destruct (restore =? 0); done.
Qed.

Lemma finish_fine a r k q : c_writer k = WFinish r → fine k q →
  let '(k', q') := finish_turn a r k q in fine k' q' ∧ onward q q'.
Proof.
  intros Hw Hf. pose proof Hf as [[H1 H2 H3 H4 H5] Hq]. unfold masked in H1. rewrite Hw in H1, H4.
  assert (Hk : fine (at_pc (WComplete r) k) q ∧ onward q q).
  { apply fine_connection with k; try done. left. cbn. by split_and!. }
  unfold finish_turn. destruct (recording k) eqn:Er; [|exact Hk]. apply (fine_both _ q); [exact Hk| |by intros ->].
  intros p -> _. eexists. split; [done|].
  assert (Harm : holds (snap p) armed = false).
  { destruct (holds (snap p) armed) eqn:E; [|done]. destruct (Hq p eq_refl E). by rewrite H4 in *. }
  set (p' := (with_active false ∘ with_snap (record_after (query_error a) r k)) p).
  assert (snap p' armed = snap p armed ∧ snap p' phases = snap p phases) as [Ha Hph].
  { subst p'. cbn. unfold record_after. by case_match. }
  split; [split|by apply more_same].
  - by split.
  - intros x [= <-] Hx. change (holds (snap p') armed = true) in Hx. unfold holds in *. rewrite Ha in Hx. congruence.
Qed.

Lemma exit_fine k p : fine k (Some p) → fine k (Some (writer_exit p)) ∧ more p (writer_exit p).
Proof. intros Hk. apply fine_probe; try done; [by left|]. by exists PHASE_EXITED. Qed.

Lemma complete_fine r k q : c_writer k = WComplete r → fine k q →
  let '(k', q') := complete_turn r k q in fine k' q' ∧ onward q q'.
Proof.
  intros Hw Hf. pose proof Hf as [[H1 H2 H3 H4 H5] Hq]. unfold masked in H1. rewrite Hw in H1.
  unfold complete_turn. cbv zeta. cbn [base with_base].
  assert (Hb : ∀ p k', fine k' (Some p) → fine k' (Some (with_busy false p)) ∧ more p (with_busy false p)).
  { intros p k' Hk. apply fine_probe; try done; [by left|]. exists 0. by rewrite Z.lor_0_r. }
  destruct (writer_dead (write_finished r (base k))) eqn:Ed.
  - apply (fine_both _ q).
    + apply fine_connection with k; try done. left. cbn. by split_and!.
    + intros p -> Hk. eexists. split; [done|]. destruct (Hb p _ Hk) as [Hk' Hm]. destruct (exit_fine _ _ Hk') as [Hk2 Hm2].
      split; [done|]. by transitivity (with_busy false p).
    + by intros ->.
  - apply (fine_both _ q).
    + apply fine_connection with k; try done; [|left; cbn; by split_and!]. unfold masked. cbn. apply H1.
      unfold write_finished, fail_locked in Ed. destruct (Z.eqb_spec (restore_error r) 0); [done|]. cbn in Ed.
      by destruct (_ =? 0).
    + intros p -> Hk. eexists. split; [done|]. by apply Hb.
    + by intros ->.
Qed.

Lemma idle_fine k q k' q' : c_writer k = WIdle → fine k q → idle_turn k q = Some (k', q') → fine k' q' ∧ onward q q'.
Proof.
  intros Hw Hf. pose proof Hf as [[H1 H2 H3 H4 H5] Hq]. unfold masked in H1. rewrite Hw in H1.
  unfold idle_turn. destruct (writer_stop (base k)); [|destruct (write_pending (base k)); [|done]]; intros [= <- <-].
  - apply (fine_both _ q); [|intros p -> Hk; eexists; split; [done|by apply exit_fine]|by intros ->].
    apply fine_connection with k; try done. left. cbn. by split_and!.
  - apply fine_connection with k; try done. left. cbn. by split_and!.
Qed.

Lemma of_pair (x : connection * option hid_diagnostic_probe) q k' q' :
  (let '(k', q') := x in fine k' q' ∧ onward q q') → Some x = Some (k', q') → fine k' q' ∧ onward q q'.
Proof. destruct x as [c d]. by intros H [= <- <-]. Qed.

Lemma writer_steady a : steady (writer_turn a).
Proof.
  intros k q k' q' Hf. unfold writer_turn. destruct (c_writer k) as [| | | |previous|previous|previous|r|r| |] eqn:Hw; try done.
  - by apply idle_fine.
  - by apply of_pair, begin_fine.
  - by apply of_pair, masks_fine.
  - intros [= <- <-]. by apply setup_fine.
  - by apply of_pair, before_fine.
  - by apply (barrier_fine previous).
  - by apply of_pair, native_fine.
  - by apply of_pair, finish_fine.
  - by apply of_pair, complete_fine.
Qed.

(** *** The other threads *)
Lemma other_connection k k' q : fine k q → c_writer k' = c_writer k → c_mask k' = c_mask k → home k' = home k →
  c_pending k' = c_pending k → recording k' = recording k → fine k' q ∧ onward q q.
Proof.
  intros Hf Hw Hm Hh Hp Hr. pose proof Hf as [[H1 H2 H3 H4 H5] Hq]. apply fine_connection with k; [exact Hf|..].
  - unfold masked in *. rewrite Hw, Hm, Hh. exact H1.
  - rewrite Hp, Hm. exact H2.
  - left. rewrite Hw. split_and!; [done|done|by left].
Qed.

Lemma atoms_fine k f p : fine k (Some p) → fine k (Some (with_atoms f p)) ∧ more p (with_atoms f p).
Proof. intros Hk. apply fine_probe; try done; [by left|]. exists 0. by rewrite Z.lor_0_r. Qed.

Lemma entry_steady entry a : steady (λ k q,
  match c_writer k with WNative _ => Some (hid_diagnostics_native_entry entry a k q).2 | _ => None end).
Proof.
  intros k q k' q' Hf. destruct (c_writer k) as [| | | | | |previous| | | |] eqn:Hw; try done. apply of_pair.
  pose proof Hf as [[H1 H2 H3 H4 H5] Hq]. unfold masked in H1. rewrite Hw in H1.
  unfold hid_diagnostics_native_entry. destruct q as [p|]; [|by split].
  destruct (_ || _); [split; [exact Hf|apply onward_refl]|].
  destruct (holds (atoms p) a_entry_confirmed); [by apply atoms_fine|]. cbv zeta. cbn [snd].
  set (k1 := kill_writer _ k). assert (Hk : fine k1 (Some p) ∧ onward (Some p) (Some p)).
  { subst k1. apply fine_connection with k; [exact Hf| |by apply pending_kill|left]; unfold kill_writer, masked;
      (destruct (pthread_kill_error a =? 0); cbn; rewrite Hw; (exact H1 || (split_and!; [done|done|by left]))). }
  apply atoms_fine, Hk.
Qed.

Lemma base_steady f : steady (only_base f).
Proof. intros k q k' q' Hf [= <- <-]. by apply (other_connection k). Qed.

Lemma call_write_steady data : steady (call_write data).
Proof.
  intros k q k' q' Hf. unfold call_write. destruct (c_call k); [done|].
  destruct (hid_write data (base k)) as [[e|] b]; intros [= <- <-]; [by apply (other_connection k)|].
  apply fine_both; [by apply (other_connection k)| |by intros ->]. intros p -> Hk. eexists. split; [done|].
  apply fine_probe; try done; [by left|]. exists 0. by rewrite Z.lor_0_r.
Qed.

Lemma write_returns_steady : steady write_returns.
Proof.
  intros k q k' q' Hf. unfold write_returns. destruct (c_call k); [|done]. destruct (write_done (base k)); [|done].
  intros [= <- <-]. by apply (other_connection k).
Qed.

Lemma disconnects_steady : steady disconnects.
Proof.
  intros k q k' q' Hf. unfold disconnects. destruct (c_call k); [done|]. intros [= <- <-]. by apply (other_connection k).
Qed.

Lemma writer_joins_steady : steady writer_joins.
Proof.
  intros k q k' q' Hf. unfold writer_joins. destruct (c_writer k) eqn:Hw; try done. intros [= <- <-].
  apply fine_both; [| |by intros ->].
  - apply fine_connection with k; try done; [apply Hf|]. left. cbn. by split_and!.
  - intros p -> Hk. eexists. split; [done|]. apply fine_probe; try done; [by left|]. by exists PHASE_JOINED.
Qed.
End WriteProps.
