(* ===== verification/ProbeSteps.v ===== *)
(** * The diagnostic probe: what every step of the threads and the callers keeps *)
From S2P Require Import Prelude GoErrors GoText Descriptors DarwinBinding DarwinConnection ProbeNative ProbeDiagnostics.
From S2P Require Import ProbeProps.
#[local] Open Scope Z_scope.

Module StepProps.
Import DarwinConnection ProbeNative ProbeDiagnostics LifetimeProps WriteProps.

(** The probe of a connection. *)
Definition view (l : library) (k : connection) : option hid_diagnostic_probe := c_probe k ≫= λ n, probes l !! n.

Record sound (l : library) : Prop := {
  sd_linked : ∀ c k, connections l !! c = Some k → linked k (view l k);
  sd_quiet : ∀ n q, probes l !! n = Some q → quiet q;
}.

(** Probe [n] stays, and what it has reached. *)
Definition tracks (n : Z) (l l' : library) : Prop :=
  ∀ q, probes l !! n = Some q → ∃ q', probes l' !! n = Some q' ∧ more q q'.

#[export] Instance tracks_preorder n : PreOrder (tracks n).
Proof.
  split; [by intros l q Hq; exists q|]. intros l l' l'' H1 H2 q Hq. destruct (H1 q Hq) as (q' & Hq' & Hm).
  destruct (H2 q' Hq') as (q'' & Hq'' & Hm'). exists q''. split; [done|by transitivity q'].
Qed.

(** A step that spares the probes of [P]. *)
Definition onto (P : Z → Prop) (l l' : library) : Prop := sound l → sound l' ∧ ∀ n, P n → tracks n l l'.

#[export] Instance onto_preorder P : PreOrder (onto P).
Proof.
  split; [by intros l Hl|]. intros l l' l'' H1 H2 Hl. destruct (H1 Hl) as [Hl' Ht]. destruct (H2 Hl') as [Hl'' Ht'].
  split; [done|]. intros n Hn. transitivity l'; auto.
Qed.

Lemma tracks_same n l l' : probes l' !! n = probes l !! n → tracks n l l'.
Proof. intros E q Hq. exists q. by rewrite E. Qed.

Lemma sound_fine l c k : sound l → connections l !! c = Some k → fine k (view l k).
Proof.
  intros [Hl Hq] Hk. split; [by eapply Hl|]. intros p Hp. unfold view in Hp. destruct (c_probe k); [|done]. by eapply Hq.
Qed.

(** Connections whose probes are looked up alike. *)
Lemma onto_connections P l m : (∀ c k, m !! c = Some k → sound l → linked k (view l k)) →
  onto P l (with_connections m l).
Proof. intros Hm Hs. split; [split|]; [|apply Hs|by intros n Hn; apply tracks_same]. intros c k Hk. by apply (Hm c). Qed.

Lemma onto_delete P l c : onto P l (with_connections (delete c (connections l)) l).
Proof. apply onto_connections. intros d k [_ Hk]%lookup_delete_Some [Hl _]. by eapply Hl. Qed.

Lemma onto_new_connection P l c b y g i :
  onto P l (with_connections (<[c := new_connection b y g i]> (connections l)) l).
Proof.
  apply onto_connections. intros d k Hk [Hl _]. apply lookup_insert_Some in Hk as [[_ <-]|[_ Hk]]; [|by eapply Hl].
  by split.
Qed.

Lemma onto_generation P l g l' : hid_diagnostic_generation l = (g, l') → onto P l l'.
Proof. intros [= _ <-] [Hl Hq]. split; [by split|by intros n Hn; apply tracks_same]. Qed.

(** A probe that changes where it stands. *)
Lemma onto_put (P : Z → Prop) l n q q' : probes l !! n = Some q → (quiet q → quiet q') →
  (∀ k, linked k (Some q) → linked k (Some q')) → (P n → more q q') →
  onto P l (with_probes (<[n := q']> (probes l)) l).
Proof.
  intros Hn Hq Hk Hm [Hl Hqs]. split; [split|]; cbn.
  - intros c k Hc. specialize (Hl c k Hc). unfold view in *. destruct (c_probe k) as [m|]; [|done]. cbn in *.
    destruct (decide (m = n)) as [->|]; [rewrite lookup_insert_eq; rewrite Hn in Hl; by apply Hk|by rewrite lookup_insert_ne].
  - intros m r Hr. apply lookup_insert_Some in Hr as [[<- <-]|[_ Hr]]; eauto.
  - intros m HP r Hr. cbn. destruct (decide (m = n)) as [->|].
    + rewrite lookup_insert_eq. exists q'. split; [done|]. simplify_eq. auto.
    + rewrite lookup_insert_ne by done. by exists r.
Qed.

Lemma onto_alter (P : Z → Prop) l n f : (∀ q, quiet q → quiet (f q)) →
  (∀ k q, linked k (Some q) → linked k (Some (f q))) → (∀ q, more q (f q)) →
  onto P l (with_probes (alter f n (probes l)) l).
Proof.
  intros Hq Hk Hm. destruct (probes l !! n) as [q|] eqn:Eq.
  - assert (alter f n (probes l) = <[n := f q]> (probes l)) as ->; [|by apply (onto_put P l n q); auto].
    apply map_eq. intros m. destruct (decide (m = n)) as [->|].
    + by rewrite lookup_alter_eq, lookup_insert_eq, Eq.
    + by rewrite lookup_alter_ne, lookup_insert_ne.
  - rewrite alter_id by (intros; congruence). by destruct l.
Qed.

(** What the callers do to a probe leaves alone what its connection relies on. *)
Lemma linked_same k q q' : linked k (Some q) → active q' = active q → snap q' mask_query_error = snap q mask_query_error →
  snap q' critical_urgent = snap q critical_urgent → linked k (Some q').
Proof.
  intros [H1 H2 H3 H4 H5] Ha Hm Hc. split; try done; intros p [= <-].
  - rewrite Ha. by apply H4.
  - rewrite Hm, Hc. by apply H5.
Qed.

Lemma onto_touch (P : Z → Prop) l n f :
  (∀ q, active (f q) = active q ∧ (snap (f q) armed = snap q armed ∨ snap (f q) armed = 0) ∧
     snap (f q) mask_query_error = snap q mask_query_error ∧ snap (f q) critical_urgent = snap q critical_urgent ∧
     ∃ b, snap (f q) phases = Z.lor (snap q phases) b ∧ Z.land b PHASE_NATIVE = 0) →
  onto P l (with_probes (alter f n (probes l)) l).
Proof.
  intros Hf. apply onto_alter.
  - intros q Hq Hx. destruct (Hf q) as (Ha & Harm & _ & _ & b & Hb & Hb0). destruct Hq as [Hact Hph].
    + unfold holds in *. destruct Harm as [<-|Harm]; [done|]. by rewrite Harm in Hx.
    + by rewrite Ha, Hb, Z.land_lor_distr_l, Hph, Hb0.
  - intros k q Hk. destruct (Hf q) as (Ha & _ & Hm & Hc & _). by apply (linked_same k q).
  - intros q. destruct (Hf q) as (_ & _ & _ & _ & b & Hb & _). by eapply more_lor.
Qed.

Ltac touches :=
  let q := fresh in intros q; split_and!; [done|first [by left|by right]|done|done|]; exists 0; by rewrite Z.lor_0_r.

Lemma onto_close P l n : onto P l (with_probes (alter close_probe n (probes l)) l).
Proof. apply onto_touch. touches. Qed.
Lemma onto_barrier P l n : onto P l (hid_diagnostic_release_barrier n l).
Proof. apply onto_touch. touches. Qed.
Lemma onto_retain P l n : onto P l (hid_diagnostic_probe_retain n l).
Proof. apply onto_touch. touches. Qed.
Lemma onto_closed P l n : onto P l (with_probes (alter device_is_closed n (probes l)) l).
Proof. apply onto_touch. intros q. split_and!; try done; [by left|]. by exists PHASE_CLOSED. Qed.

(** A reference released: who still holds the probe finds it. *)
Lemma onto_release (P : Z → Prop) l n hs : counted (hid_diagnostic_probe_release n l) hs → (∀ m, P m → held hs m = true) →
  onto P l (hid_diagnostic_probe_release n l).
Proof.
  intros Hc HP. unfold hid_diagnostic_probe_release in *. destruct (probes l !! n) as [q|] eqn:Eq; [|done].
  destruct (references q =? 1).
  - assert (Hgone : held hs n = false ∧ attached (connections l) n = false).
    { pose proof (cn_references _ _ Hc n) as H. cbn in H. by rewrite lookup_delete_eq in H. }
    intros [Hl Hq]. split; [split|]; cbn.
    + intros c k Hk. specialize (Hl c k Hk). unfold view in *. cbn. destruct (c_probe k) as [m|] eqn:Em; [|done]. cbn in *.
      rewrite lookup_delete_ne; [done|]. intros <-. destruct Hgone as [_ Hg].
      rewrite (proj2 (attached_spec _ n)) in Hg by (by exists c, k). done.
    + intros m r [_ Hr]%lookup_delete_Some. by eapply Hq.
    + intros m Hm. apply tracks_same. cbn. rewrite lookup_delete_ne; [done|]. intros <-.
      specialize (HP n Hm). destruct Hgone. congruence.
  - apply (onto_put P l n q _ Eq); [done| |by intros _ w]. intros k Hk. by apply (linked_same k q).
Qed.

Lemma onto_new P calloc mutex cond l hs : counted l hs → onto P l (hid_diagnostic_probe_new calloc mutex cond l).2.
Proof.
  intros Hc. unfold hid_diagnostic_probe_new. destruct (_ <=? _); [done|]. destruct (_ || _); [done|].
  destruct (allocate_fresh (probes l)) as [Hf _]. set (n := allocate (probes l)) in *.
  pose proof (cn_references _ _ Hc n) as Hn. rewrite Hf in Hn. destruct Hn as [_ Hn].
  intros [Hl Hq]. split; [split|]; cbn.
  - intros c k Hk. specialize (Hl c k Hk). unfold view in *. cbn. destruct (c_probe k) as [m|] eqn:Em; [|done]. cbn in *.
    rewrite lookup_insert_ne; [done|]. intros <-. rewrite (proj2 (attached_spec _ n)) in Hn by (by exists c, k). done.
  - intros m r Hr. apply lookup_insert_Some in Hr as [[_ <-]|[_ Hr]]; [done|by eapply Hq].
  - intros m Hm r Hr. cbn. rewrite lookup_insert_ne; [by exists r|]. intros <-. congruence.
Qed.

(** A probe that no connection has is attached to one that has none. *)
Lemma onto_attach P l hs c n code l' : counted l hs → attached (connections l) n = false →
  hid_diagnostic_attach c n l = (code, l') → onto P l l'.
Proof.
  intros Hc Ha. unfold hid_diagnostic_attach. destruct (connections l !! c) as [k|] eqn:Ek; [|by intros [= _ <-]].
  destruct (c_probe k) eqn:Ep; [by intros [= _ <-]|]. cbn [orb]. destruct (_ || _); [by intros [= _ <-]|].
  intros [= _ <-]. transitivity (hid_diagnostic_probe_retain n l); [apply onto_retain|].
  set (l1 := hid_diagnostic_probe_retain n l). transitivity (with_connections (<[c := with_probe (Some n) k]> (connections l)) l1).
  - apply onto_connections. intros d e He [Hl _]. apply lookup_insert_Some in He as [[_ <-]|[_ He]]; [|by apply (Hl d)].
    specialize (Hl c k Ek). unfold view in Hl. rewrite Ep in Hl. destruct Hl as [H1 H2 H3 _ _].
    specialize (H3 eq_refl). split; try done; cbn; intros; congruence.
  - apply onto_touch. touches.
Qed.

Lemma device_mid w : at_device w → mid_write w.
Proof. by destruct w. Qed.

Lemma arm_spec cfg q code q' : arm cfg q = (code, q') →
  q' = q ∨ active q = false ∧ active q' = false ∧ Z.land (snap q' phases) PHASE_NATIVE = 0.
Proof.
  unfold arm. cbv zeta. destruct (_ || holds (snap q) device_closed); [intros [= _ <-]; by left|].
  destruct (busy q || active q || _) eqn:E; intros [= _ <-]; [by left|right].
  apply orb_false_iff in E as [[_ E]%orb_false_iff _]. split_and!; [done|done|]. apply (land_ldiff (snap q phases) PHASE_NATIVE).
Qed.

Lemma onto_arm (P : Z → Prop) l n cfg : ¬ P n → onto P l (hid_diagnostic_arm n cfg l).2.
Proof.
  intros HP. unfold hid_diagnostic_arm. destruct (probes l !! n) as [q|] eqn:Eq; [|done].
  destruct (arm cfg q) as [code q'] eqn:Ea. apply arm_spec in Ea.
  apply (onto_put P l n q q' Eq); [| |done]; destruct Ea as [->|(Ha & Ha' & Hph)]; try done.
  intros k [H1 H2 H3 H4 H5]. split; try done; intros p [= <-] Hr Hw; exfalso.
  - specialize (H4 q eq_refl Hr Hw). congruence.
  - specialize (H4 q eq_refl Hr (device_mid _ Hw)). congruence.
Qed.

(** *** Threads *)
Lemma onto_on_connection P c f l hs : counted l hs → steady f → keeps f → onto P l (on_connection c f l).
Proof.
  intros Hc Hs Hk Hl. unfold on_connection. destruct (connections l !! c) as [k|] eqn:Ek; [|done].
  pose proof (sound_fine l c k Hl Ek) as Hf. unfold view in Hf. destruct (c_probe k) as [n|] eqn:En; cbn in Hf.
  - destruct (probes l !! n) as [q|] eqn:Eq; [|done]. destruct (f k (Some q)) as [[k' [q'|]]|] eqn:E; try done.
    destruct (Hs _ _ _ _ Hf E) as [[Hk' Hq'] Hm]. destruct (Hk _ _ _ _ E) as [Hp _]. destruct Hl as [Hl Hq].
    split; [split|]; cbn.
    + intros d e He. apply lookup_insert_Some in He as [[<- <-]|[Hne He]].
      * unfold view. rewrite Hp, En. cbn. by rewrite lookup_insert_eq.
      * specialize (Hl d e He). unfold view in *. cbn. destruct (c_probe e) as [m|] eqn:Em; [|done]. cbn in *.
        rewrite lookup_insert_ne; [done|]. intros <-. apply Hne. by eapply (cn_connections _ _ Hc).
    + intros m r Hr. apply lookup_insert_Some in Hr as [[<- <-]|[_ Hr]]; [by apply Hq'|by eapply Hq].
    + intros m _ r Hr. cbn. destruct (decide (m = n)) as [->|]; [rewrite lookup_insert_eq|rewrite lookup_insert_ne by done].
      * exists q'. split; [done|]. by simplify_eq.
      * by exists r.
  - destruct (f k None) as [[k' q']|] eqn:E; [|done]. destruct (Hs _ _ _ _ Hf E) as [[Hk' _] Ho].
    destruct q'; [done|]. destruct (Hk _ _ _ _ E) as [Hp _].
    apply onto_connections; [|done]. intros d e He [Hl' _]. apply lookup_insert_Some in He as [[<- <-]|[_ He]]; [|by eapply Hl'].
    unfold view. by rewrite Hp, En.
Qed.

Lemma onto_connection_closed P c l hs : counted l hs → (∀ n, P n → held hs n = true) → onto P l (connection_closed c l).
Proof.
  intros Hc HP. pose proof (counted_event (ConnectionClosed c) l hs Hc) as Hc'. cbn [run_event] in Hc'.
  unfold connection_closed in *. destruct (connections l !! c) as [k|]; [|done]. destruct (c_writer k); try done.
  transitivity (with_connections (delete c (connections l)) l); [apply onto_delete|].
  destruct (c_probe k) as [n|]; [|done].
  etransitivity; [apply (onto_closed P _ n)|]. by apply (onto_release P _ n hs).
Qed.

Lemma onto_hid_connect P input output inherited l : onto P l (hid_connect input output inherited l).2.
Proof.
  unfold hid_connect. destruct (hid_diagnostic_generation l) as [g l1] eqn:Eg.
  transitivity l1; [by eapply onto_generation|]. apply onto_new_connection.
Qed.

Lemma onto_event P e l hs : counted l hs → (∀ n, P n → held hs n = true) → onto P l (run_event e l).
Proof.
  intros Hc HP. destruct e as [c a|c entry a|c result typ id report|c|c data|c|c|c|c|input output inherited]; cbn [run_event];
    try (apply (onto_on_connection P c _ l hs Hc)).
  - apply writer_steady.
  - apply writer_keeps.
  - apply entry_steady.
  - intros k q k' q'. pose proof (entry_keeps entry a k q) as He. destruct (c_writer k); try done. intros [= E]. by rewrite E in He.
  - apply base_steady.
  - by intros k q k' q' [= <- <-].
  - apply base_steady.
  - by intros k q k' q' [= <- <-].
  - apply call_write_steady.
  - intros k q k' q'. unfold call_write. same_references.
  - apply write_returns_steady.
  - intros k q k' q'. unfold write_returns. same_references.
  - apply disconnects_steady.
  - intros k q k' q'. unfold disconnects. same_references.
  - apply writer_joins_steady.
  - intros k q k' q'. unfold writer_joins. same_references.
  - by eapply onto_connection_closed.
  - apply onto_hid_connect.
Qed.

Lemma onto_events P es : ∀ l hs, counted l hs → (∀ n, P n → held hs n = true) → onto P l (foldl (λ l e, run_event e l) l es).
Proof.
  induction es as [|e es IH]; intros l hs Hc HP; [done|]. cbn. transitivity (run_event e l); [by eapply onto_event|].
  eapply IH; [by apply counted_event|done].
Qed.

(** *** Callers *)
Section Callers.
Context {texts : ErrnoText}.

Lemma onto_Arm (P : Z → Prop) config p l : (∀ n, native p = Some n → ¬ P n) → onto P l (Arm config p l).2.
Proof.
  intros HP. unfold Arm. destruct (validateConfig config); [done|]. destruct (native p) as [n|]; [|done].
  destruct (_ && _); [done|]. destruct (hid_diagnostic_arm n (nativeConfig config) l) as [code l'] eqn:E.
  change l' with (code, l').2. rewrite <-E. apply onto_arm. by apply HP.
Qed.

Lemma onto_Close (P : Z → Prop) p l hs : counted (Close p l).2 hs → (∀ n, P n → held hs n = true) → onto P l (Close p l).2.
Proof.
  unfold Close. destruct (native p) as [n|]; [|done]. cbn. intros Hc HP.
  transitivity (with_probes (alter close_probe n (probes l)) l); [apply onto_close|by eapply onto_release].
Qed.

Lemma onto_newProbe P a l hs : counted l hs → onto P l (newProbe a l).2.
Proof.
  intros Hc. unfold newProbe. pose proof (onto_new P (calloc_ok a) (mutex_init a) (cond_init a) l hs Hc) as H.
  by destruct (hid_diagnostic_probe_new _ _ _ l) as [[n|] l'].
Qed.

Lemma onto_Attach (P : Z → Prop) d a l hs : counted l hs → (∀ n, P n → held hs n = true) → onto P l (Attach d a l).2.
Proof.
  intros Hc HP. pose proof (Attach_counted d a l hs Hc) as Hca. unfold Attach in *. destruct d as [d|]; [|done].
  destruct (_ =? DarwinBinding.nil); [done|].
  pose proof (newProbe_spec a l hs Hc) as Hn. pose proof (onto_newProbe P a l hs Hc) as Ho.
  destruct (newProbe a l) as [[p|e] l1]; [|done]. destruct Hn as (n & Hp & Hc1 & Ha & _). rewrite Hp in *.
  destruct (hid_diagnostic_attach _ n l1) as [code l2] eqn:Eat.
  transitivity l1; [exact Ho|]. transitivity l2; [by eapply onto_attach|].
  destruct (negb (code =? 0)); [by eapply onto_Close|done].
Qed.

(** A probe that is new is not one of those of [P]. *)
Lemma new_is_not (P : Z → Prop) l hs n : counted l (hs ++ [Some n]) → (∀ m, P m → held hs m = true) → ¬ P n.
Proof.
  intros Hc HP Hn. apply HP, held_spec in Hn as [i Hi]. pose proof (lookup_lt_Some _ _ _ Hi) as Hlt.
  assert (i = length hs); [|lia]. apply (cn_handles _ _ Hc i (length hs) n); [by apply lookup_app_l_Some|].
  by rewrite lookup_app_r, Nat.sub_diag by lia.
Qed.

Lemma onto_connect (P : Z → Prop) n k l hs : counted l hs → held hs n = true → attached (connections l) n = false →
  (∀ m, P m → held hs m = true) → onto P l (hid_diagnostic_connect n k l).2.
Proof.
  intros Hc Hh Ha HP. pose proof (connect_counted n k l hs Hc Hh Ha) as Hcc. unfold hid_diagnostic_connect in *.
  destruct (calloc_ok k); [|done]. cbn [negb] in *.
  destruct (hid_diagnostic_generation l) as [g l1] eqn:Eg. assert (Hc1 : counted l1 hs) by (by eapply counted_generation).
  assert (Ec : connections l1 = connections l) by (by injection Eg as _ <-).
  transitivity l1; [by eapply onto_generation|].
  destruct (negb (mutex_init k =? 0)); [done|]. destruct (negb (cond_init k =? 0)); [done|].
  set (c := allocate (connections l1)) in *. destruct (allocate_fresh (connections l1)) as [Hf _].
  fold c in Hf. set (l2 := with_connections _ l1) in *. transitivity l2; [apply onto_new_connection|].
  assert (Hc2 : counted l2 hs) by (by apply counted_new_connection).
  destruct (hid_diagnostic_attach c n l2) as [code l3] eqn:Eat.
  transitivity l3; [eapply onto_attach; [done| |done]; cbn; by rewrite attached_new, Ec|].
  destruct (negb ((if code =? 0 then pthread_create k else code) =? 0)); [|done]. cbn [snd].
  destruct (connections l3 !! c) as [x|] eqn:Ex; [|apply onto_delete].
  destruct (c_probe x) as [m|] eqn:Em; [|apply onto_delete].
  transitivity (with_connections (delete c (connections l3)) l3); [apply onto_delete|].
  rewrite connections_release, <-release_with_connections in *. by eapply onto_release.
Qed.

Lemma onto_NewSynthetic (P : Z → Prop) config a k l hs : counted l hs → (∀ n, P n → held hs n = true) →
  onto P l (NewSynthetic config a k l).2.
Proof.
  intros Hc HP. pose proof (NewSynthetic_counted config a k l hs Hc) as Hcn. unfold NewSynthetic in *.
  destruct (validateConfig config); [done|].
  pose proof (newProbe_spec a l hs Hc) as Hn. pose proof (onto_newProbe P a l hs Hc) as Ho.
  destruct (newProbe a l) as [[p|e] l1]; [|done]. destruct Hn as (n & Hp & Hc1 & Ha & _). rewrite Hp in *.
  transitivity l1; [exact Ho|].
  assert (HP1 : ∀ m, P m → held (hs ++ [Some n]) m = true).
  { intros m Hm. unfold held. rewrite existsb_app. fold (held hs m). by rewrite (HP m Hm). }
  pose proof (connect_counted n k l1 _ Hc1 (held_last hs n) Ha) as Hk.
  pose proof (onto_connect P n k l1 _ Hc1 (held_last hs n) Ha HP1) as Hok.
  destruct (hid_diagnostic_connect n k l1) as [[[c|] code] l2]; (transitivity l2; [exact Hok|]); [|by eapply onto_Close].
  unfold snapshotLocked in *. rewrite Hp in *. set (p' := MkProbe _ _) in *.
  pose proof (counted_arm config p' l2 _ Hk) as Harm.
  assert (Ho2 : onto P l2 (Arm config p' l2).2).
  { apply onto_Arm. intros m [= <-]. by eapply new_is_not. }
  destruct (Arm config p' l2) as [[err|] l3]; [|exact Ho2]. transitivity l3; [exact Ho2|].
  transitivity (close_idle c l3); [by eapply onto_events|by eapply onto_Close].
Qed.

(** What an action does not do to probe [n]: arm it, or close it. *)
Definition spares (n : Z) (hs : list (option Z)) (x : action) : Prop :=
  match x with CallArm i _ | CallClose i => hs !! i ≠ Some (Some n) | _ => True end.

Definition pointers (s : system) : list (option Z) := map native (handles s).

Lemma pointers_lookup s i : pointers s !! i = native <$> handles s !! i.
Proof. unfold pointers. apply list_lookup_fmap. Qed.

Lemma onto_action (P : Z → Prop) x s : counted (lib s) (pointers s) →
  (∀ n, P n → held (pointers s) n = true ∧ spares n (pointers s) x) → onto P (lib s) (lib (run_action x s)).
Proof.
  intros Hc HP. assert (HP1 : ∀ n, P n → held (pointers s) n = true) by (intros n Hn; by apply HP).
  destruct x as [e|config a k|d a|i config|i|i|i]; cbn [run_action].
  - by eapply onto_event.
  - pose proof (onto_NewSynthetic P config a k _ _ Hc HP1) as H.
    by destruct (NewSynthetic config a k (lib s)) as [[[d p]|e] l].
  - destruct (connections (lib s) !! _); [|done]. pose proof (onto_Attach P (Some d) a _ _ Hc HP1) as H.
    by destruct (Attach (Some d) a (lib s)) as [[p|e] l].
  - unfold on_handle. destruct (handles s !! i) as [p|] eqn:Ei; [|done]. apply onto_Arm. intros n Hn Hp.
    destruct (HP n Hp) as [_ Hs]. apply Hs. rewrite pointers_lookup, Ei. cbn. by rewrite Hn.
  - unfold on_handle. destruct (handles s !! i) as [p|] eqn:Ei; [|done]. unfold snapshotLocked. by destruct (native p).
  - unfold on_handle. destruct (handles s !! i) as [p|] eqn:Ei; [|done]. unfold Release.
    destruct (native p); [apply onto_barrier|done].
  - unfold on_handle. destruct (handles s !! i) as [p|] eqn:Ei; [|done].
    assert (Hi : pointers s !! i = Some (native p)) by (by rewrite pointers_lookup, Ei).
    pose proof (counted_Close p (lib s) (pointers s) i Hc Hi) as H.
    pose proof (λ H', onto_Close P p (lib s) _ H H') as Ho. destruct (Close p (lib s)) as [p' l'] eqn:Ec. apply Ho.
    intros n Hn. destruct (HP n Hn) as [Hh Hs]. apply held_spec in Hh as [j Hj]. apply held_spec. exists j.
    cbn in Hs. rewrite list_lookup_insert_ne; [done|]. intros <-. congruence.
Qed.

Lemma sound_actions xs : ∀ s, counted (lib s) (pointers s) → sound (lib s) →
  counted (lib (run_actions xs s)) (pointers (run_actions xs s)) ∧ sound (lib (run_actions xs s)).
Proof.
  induction xs as [|x xs IH]; intros s Hc Hs; [done|]. cbn. apply IH; [by apply counted_action|].
  apply (onto_action (λ _, False) x s Hc); done.
Qed.

(** *** Waiting *)
(** The caller's handle keeps its probe while others cannot use it. *)
Lemma handle_stays i x s : excluded i x = false → (i < length (handles s))%nat →
  handles (run_action x s) !! i = handles s !! i.
Proof.
  intros Hx Hi. assert (Hon : ∀ j f, i ≠ j → handles (on_handle j f s) !! i = handles s !! i).
  { intros j f Hj. unfold on_handle. destruct (handles s !! j) as [p|]; [|done]. destruct (f p (lib s)) as [p' l']. cbn.
    by rewrite list_lookup_insert_ne by done. }
  destruct x as [e|config a k|d a|j config|j|j|j]; cbn [run_action excluded] in *;
    try (by apply Hon, Nat.eqb_neq).
  - done.
  - destruct (NewSynthetic config a k (lib s)) as [[[d p]|e] l]; cbn; [by rewrite lookup_app_l|done].
  - destruct (connections (lib s) !! _); [|done]. destruct (Attach (Some d) a (lib s)) as [[p|e] l]; cbn; [by rewrite lookup_app_l|done].
Qed.

Lemma others_track i n xs : ∀ s p, counted (lib s) (pointers s) → sound (lib s) → handles s !! i = Some p → native p = Some n →
  let s' := run_others i xs s in
  counted (lib s') (pointers s') ∧ sound (lib s') ∧ handles s' !! i = Some p ∧ tracks n (lib s) (lib s').
Proof.
  induction xs as [|x xs IH]; intros s p Hc Hs Hi Hp; [done|]. unfold run_others. cbn [List.filter].
  destruct (excluded i x) eqn:Hx; cbn [negb]; [by apply IH|].
  change (run_actions (x :: ?ys) s) with (run_actions ys (run_action x s)). change (run_actions (List.filter _ xs) ?s) with (run_others i xs s).
  assert (Hn : pointers s !! i = Some (Some n)) by (rewrite pointers_lookup, Hi; cbn; by rewrite Hp).
  destruct (onto_action (eq n) x s Hc) as [Hs' Ht]; [|done|].
  { intros m <-. split; [apply held_spec; by exists i|]. unfold spares, excluded in *.
    destruct x as [| | |j config| | |j]; try done; intros Hj; apply Nat.eqb_neq in Hx; apply Hx; by eapply (cn_handles _ _ Hc). }
  destruct (IH (run_action x s) p) as (Hc2 & Hs2 & Hi2 & Ht2); [by apply counted_action|done| |done|].
  { rewrite handle_stays; [done|done|by eapply lookup_lt_Some]. }
  split_and!; [done..|]. transitivity (lib (run_action x s)); [by apply Ht|done].
Qed.
End Callers.
End StepProps.
