(* ===== verification/ProbeSafety.v ===== *)
(** * What the diagnostic probe promises to its callers

    The theorems, and at the end runs of a synthetic device for the
    witnesses. *)
From S2P Require Import Prelude GoErrors GoText Descriptors DarwinBinding DarwinConnection ProbeNative ProbeDiagnostics.
From S2P Require Import ProbeProps ProbeSteps.
#[local] Open Scope Z_scope.

Module ProbeSafety.
Import DarwinConnection ProbeNative ProbeDiagnostics LifetimeProps WriteProps StepProps.

(** Nothing is there when the library is loaded. *)
Definition loaded (g : Z) : system := MkSystem (MkLibrary 0 g ∅ ∅) [].

Lemma sound_loaded g : sound (lib (loaded g)).
Proof. by split. Qed.

Section Properties.
Context {texts : ErrnoText}.

Lemma reached_sound xs g : let s := run_actions xs (loaded g) in counted (lib s) (pointers s) ∧ sound (lib s).
Proof. apply sound_actions; [apply counted_boot|apply sound_loaded]. Qed.

(** C31: whatever threads and callers do, there are at most 64 probes and the counter agrees with the storage; a probe exists exactly as long as a caller or a connection has it, no two of either share one, and its reference count is the number of its holders; a writer thread is at the device only with SIGURG blocked, as its recorded mask shows, a signal is pending only where it is blocked, and an idle writer has the mask with which its last write began. *)
Theorem probe_safe xs g :
  let s := run_actions xs (loaded g) in
  let l := lib s in
  probe_count l = Z.of_nat (size (probes l)) ∧ probe_count l <= DIAGNOSTIC_MAX_PROBES ∧
  unique_handles (pointers s) ∧ unique_connections (connections l) ∧
  (∀ n, is_Some (probes l !! n) ↔
     (∃ i p, handles s !! i = Some p ∧ native p = Some n) ∨ (∃ c k, connections l !! c = Some k ∧ c_probe k = Some n)) ∧
  (∀ n q, probes l !! n = Some q → references q = int_of (held (pointers s) n) + int_of (attached (connections l) n)) ∧
  ∀ c k, connections l !! c = Some k →
    (c_pending k = true → SIGURG ∈ c_mask k) ∧
    (c_writer k = WIdle → c_mask k = home k) ∧
    (at_device (c_writer k) → SIGURG ∈ c_mask k ∧
       ∀ n q, c_probe k = Some n → probes l !! n = Some q → recording k = true →
         snap q mask_query_error = 0 → snap q critical_urgent = 1).
Proof.
  cbv zeta. destruct (reached_sound xs g) as [Hc Hs]. cbv zeta in *. set (s := run_actions xs (loaded g)) in *.
  clearbody s. destruct Hc as [H1 H2 H3 H4 H5], Hs as [Hl Hq]. split_and!; try done.
  - intros n. specialize (H5 n). rewrite <-(attached_spec _ n).
    assert (Hh : (∃ i p, handles s !! i = Some p ∧ native p = Some n) ↔ held (pointers s) n = true).
    { rewrite held_spec. split.
      - intros (i & p & Hi & Hp). exists i. rewrite pointers_lookup, Hi. cbn. by rewrite Hp.
      - intros [i Hi]. rewrite pointers_lookup in Hi. apply fmap_Some in Hi as (p & Hi & Hp). by exists i, p. }
    rewrite Hh. destruct (probes (lib s) !! n) as [q|]; [split; [tauto|by eexists]|].
    destruct H5 as [E1 E2]. rewrite E1, E2. split; [by intros [? ?]|by intros [?|?]].
  - intros n q Hn. specialize (H5 n). rewrite Hn in H5. apply H5.
  - intros c k Hk. destruct (Hl c k Hk) as [L1 L2 _ L4 L5]. split_and!; [exact L2| |].
    + intros Hw. unfold masked in L1. by rewrite Hw in L1.
    + intros Hd. split.
      * unfold masked in L1. destruct (c_writer k); try done; destruct L1 as [_ ->]; set_solver.
      * intros n q Hp Hn Hr. apply L5; [|done..]. unfold view. by rewrite Hp.
Qed.

(** *** What a snapshot shows *)
(** What the snapshot shows of the phases that were asked for. *)
Lemma phases_shown x wanted : Z.ldiff wanted all_phases = 0 → Z.land x wanted = wanted → Z.land (u8 x) wanted = wanted.
Proof.
  intros Hw Hx. rewrite <-Hx at 2. unfold u8, wrap. rewrite <-Z.land_ones by lia.
  rewrite <-Z.land_assoc, (Z.land_comm _ wanted). apply Z.bits_inj'. intros i Hi.
  rewrite !Z.land_spec. f_equal. destruct (Z.testbit wanted i) eqn:E; [cbn|done].
  assert (Hb : Z.testbit (Z.ldiff wanted all_phases) i = false) by (rewrite Hw; apply Z.bits_0).
  rewrite Z.ldiff_spec, E in Hb. cbn in Hb. apply negb_false_iff in Hb.
  destruct (Z.ltb_spec i 8) as [|Hge]; [by rewrite Z.ones_spec_low by lia|].
  change all_phases with (Z.ones 4) in Hb. by rewrite Z.ones_spec_high in Hb by lia.
Qed.

Lemma snapshot_phases s i p n q : handles s !! i = Some p → native p = Some n → probes (lib s) !! n = Some q →
  Phases (snapshotLocked p (lib s)).1 = u8 (snap q phases).
Proof.
  intros Hi Hp Hn. unfold snapshotLocked. rewrite Hp. cbn. unfold hid_diagnostic_snapshot_read. rewrite Hn.
  unfold read_snapshot. by case_match.
Qed.

(** *** A probed write *)
(** [n] turns of the writer, which the system answers alike. *)
Fixpoint turns (n : nat) (a : answers) (k : connection) (q : option hid_diagnostic_probe)
    : option (connection * option hid_diagnostic_probe) :=
  match n with
  | O => Some (k, q)
  | S n => match writer_turn a k q with Some (k, q) => turns n a k q | None => None end
  end.
Definition willing (io : Z) : answers := MkAnswers 0 0 0 0 0 0 0 io.
Definition write_mask (cfg : hid_diagnostic_config) (m : gset Z) : gset Z :=
  set_blocked (unrelated_blocked cfg) SIGUSR1 (set_blocked (initial_urgent_blocked cfg) SIGURG m).

Lemma blocked_urgent cfg m : bool_decide (SIGURG ∈ write_mask cfg m) = initial_urgent_blocked cfg.
Proof.
  unfold write_mask, set_blocked.
  destruct (unrelated_blocked cfg), (initial_urgent_blocked cfg); 
    (apply bool_decide_eq_true_2 || apply bool_decide_eq_false_2); assert (SIGURG ≠ SIGUSR1) by done; set_solver.
Qed.
Lemma blocked_unrelated cfg m : bool_decide (SIGUSR1 ∈ write_mask cfg m) = unrelated_blocked cfg.
Proof.
  unfold write_mask, set_blocked.
  destruct (unrelated_blocked cfg); (apply bool_decide_eq_true_2 || apply bool_decide_eq_false_2); set_solver.
Qed.
Lemma masks_equal_refl m : masks_equal m m = true.
Proof. apply forallb_forall. intros x _. apply eqb_reflx. Qed.


(** What the turns of the writer make of the snapshot. *)
Definition after_begin (cfg : hid_diagnostic_config) (m : gset Z) (p : hid_diagnostic_probe) : hid_diagnostic_probe :=
  with_snap (record_before 0 (write_mask cfg m)) (begin_armed p).
Definition after_injection (inject : bool) (g : Z) (s : snapshot) : snapshot :=
  if inject then <[kill_error := 0]> (<[kill_generation := g]> (bump kill_attempts s)) else s.
Definition at_native (pending : bool) (s : snapshot) : snapshot :=
  phase PHASE_NATIVE (bump native_calls
    (<[pending_urgent := int_of pending]> (<[critical_urgent := 1]> (<[mask_query_error := 0]> s)))).
Definition after_write (code : Z) (m before : gset Z) (s : snapshot) : snapshot :=
  let s := <[completed := int_of (code =? 0)]> (<[submitted := 1]> (<[native_error := code]>
             (<[f_restore_error := 0]> (<[f_setup_error := 0]> s)))) in
  <[mask_restored := int_of (negb (holds s initial_mask_error) && masks_equal m before)]>
    (<[after_unrelated := int_of (bool_decide (SIGUSR1 ∈ m))]> (<[after_urgent := int_of (bool_decide (SIGURG ∈ m))]> s)).

Lemma write_prepared io k p : c_writer k = WBegin → c_pending k = false → holds (snap p) armed = true →
  closing p = false → cfg_setup_error (config p) = 0 →
  let m := write_mask (config p) (c_mask k) in
  ∃ k', turns 3 (willing io) k (Some p) = Some (k', Some (after_begin (config p) (c_mask k) p)) ∧
    c_writer k' = WBefore m ∧ c_mask k' = {[SIGURG]} ∪ m ∧ c_before k' = m ∧ c_pending k' = false ∧ recording k' = true ∧
    c_active k' = config p ∧ c_synthetic k' = c_synthetic k ∧ c_generation k' = c_generation k.
Proof.
  intros Hw Hp Ha Hc Hs m. eexists. split.
  - cbn [turns]. unfold writer_turn at 1. rewrite Hw. unfold begin_turn. rewrite Ha, Hc. cbn [negb orb].
    unfold writer_turn at 1. cbn [c_writer at_pc]. unfold masks_turn. cbn [willing first_mask_error second_mask_error query_error Z.eqb].
    unfold writer_turn at 1. cbn [c_writer at_pc]. unfold setup_turn. cbn [willing emptyset_error first_mask_error Z.eqb negb].
    cbn [recording c_active at_pc at_home with_before with_mask with_record andb]. rewrite Hs. cbn [Z.eqb negb]. reflexivity.
  - cbn. rewrite Hp. by split_and!.
Qed.

Lemma write_enters io k p m : c_writer k = WBefore m → c_mask k = {[SIGURG]} ∪ m → c_pending k = false → recording k = true →
  closing p = false → hold_native (c_active k) && negb (release p) = false →
  ∃ k' p', turns 2 (willing io) k (Some p) = Some (k', Some p') ∧
    c_writer k' = WNative m ∧ c_mask k' = c_mask k ∧ c_before k' = c_before k ∧ recording k' = true ∧
    c_active k' = c_active k ∧ c_synthetic k' = c_synthetic k ∧
    snap p' = at_native (inject_urgent (c_active k)) (after_injection (inject_urgent (c_active k)) (c_generation k) (snap p)) ∧
    atoms p' = <[a_strict_armed := int_of (strict_entry (c_active k) && negb (c_synthetic k))]> (atoms p).
Proof.
  intros Hw Hm Hp Hr Hc Hh. assert (Hu : bool_decide (SIGURG ∈ c_mask k) = true) by (apply bool_decide_eq_true_2; set_solver).
  cbn [turns]. unfold writer_turn at 1. rewrite Hw. unfold before_turn. rewrite Hr. unfold inject. cbn [willing create_error Z.eqb negb].
  rewrite Hc. unfold kill_writer. cbn [willing pthread_kill_error query_error sigpending_errno Z.eqb]. rewrite Hp, Hu.
  destruct (inject_urgent (c_active k)) eqn:Hi; cbv zeta; unfold writer_turn at 1; cbn [c_writer at_pc];
    unfold barrier_turn; cbn [c_active at_pc with_pending release closing with_snap]; rewrite Hc, andb_true_r, Hh;
    eexists _, _; (split; [reflexivity|]); split_and!; try done;
    unfold record_native, at_native, after_injection; cbn [snap with_atoms with_snap c_pending c_mask with_pending Z.eqb];
    by rewrite ?Hp, Hu.
Qed.

Lemma write_leaves io k p m : c_writer k = WNative m → recording k = true → cfg_restore_error (c_active k) = 0 →
  let code := if c_synthetic k then cfg_native_error (c_active k) else io in
  ∃ k' p', turns 2 (willing io) k (Some p) = Some (k', Some p') ∧
    c_writer k' = WComplete (MkWriteResult code 0 0 true (code =? 0)) ∧ c_mask k' = m ∧
    snap p' = after_write code m (c_before k) (snap p) ∧ atoms p' = <[a_strict_armed := 0]> (atoms p) ∧ active p' = false.
Proof.
  intros Hw Hr Hs code.
  assert (writer_turn (willing io) k (Some p) = Some (at_pc (WFinish (MkWriteResult code 0 0 true (code =? 0)))
    (with_mask m (with_current false k)), Some (with_atoms <[a_strict_armed := 0]> p))) as E.
  { unfold writer_turn. rewrite Hw. unfold native_turn. rewrite Hr. cbn [c_active with_current willing first_mask_error set_report].
    rewrite Hs. cbn [negb Z.eqb]. rewrite andb_false_r. reflexivity. }
  cbn [turns]. rewrite E. cbn [turns]. unfold writer_turn, finish_turn. cbn [c_writer recording at_pc with_mask with_current].
  rewrite Hr. cbn [fmap option_fmap option_map]. eexists _, _. split; [reflexivity|]. by split_and!.
Qed.

Lemma turns_app a n1 n2 : ∀ k q, turns (n1 + n2) a k q =
  match turns n1 a k q with Some (k, q) => turns n2 a k q | None => None end.
Proof.
  induction n1 as [|n1 IH]; intros k q; [done|]. cbn. by destruct (writer_turn a k q) as [[k' q']|].
Qed.

(** What is read of a probe at whose last native entry nobody was. *)
Definition entry_fields : list field :=
  [entry_confirmed; entry_generation; entry_urgent; entry_pending; entry_mask_error; kill_attempts].
Lemma read_unentered q f : atoms q a_entry_confirmed = 0 → bool_decide (f ∈ entry_fields) = false → read_snapshot q f = snap q f.
Proof.
  intros Ha Hf%bool_decide_eq_false. unfold read_snapshot. cbv zeta. unfold holds. rewrite snap_same, Ha. cbn [negb Z.eqb].
  rewrite !snap_other; [done|..]; intros <-; apply Hf; by apply (bool_decide_unpack _).
Qed.
Lemma read_entry q : atoms q a_entry_confirmed = 0 → read_snapshot q entry_confirmed = 0.
Proof. intros Ha. unfold read_snapshot. cbv zeta. unfold holds. rewrite snap_same, Ha. cbn [negb Z.eqb]. by rewrite snap_same. Qed.

Lemma holds_of b : negb (int_of b =? 0) = b.
Proof. by destruct b. Qed.

(** The snapshot of the last turns. *)
Lemma snapshot_written cfg m g code s0 :
  let s := after_write code m m (at_native (inject_urgent cfg) (after_injection (inject_urgent cfg) g (record_before 0 m s0))) in
  s writes = s0 writes ∧ s native_calls = Prelude.u64 (s0 native_calls + 1) ∧ s phases = Z.lor (s0 phases) PHASE_NATIVE ∧
  s armed = s0 armed ∧ s before_urgent = int_of (bool_decide (SIGURG ∈ m)) ∧ s before_unrelated = int_of (bool_decide (SIGUSR1 ∈ m)) ∧
  s critical_urgent = 1 ∧ s pending_urgent = int_of (inject_urgent cfg) ∧
  s after_urgent = int_of (bool_decide (SIGURG ∈ m)) ∧ s after_unrelated = int_of (bool_decide (SIGUSR1 ∈ m)) ∧
  s mask_restored = 1 ∧ s initial_mask_error = 0 ∧ s mask_query_error = 0 ∧ s f_setup_error = 0 ∧ s f_restore_error = 0 ∧
  s native_error = code ∧ s submitted = 1 ∧ s completed = int_of (code =? 0).
Proof.
  assert (masks_equal m m = true) as Hm by apply masks_equal_refl.
  unfold after_write, record_before. set (u := int_of (bool_decide (SIGURG ∈ m))). set (v := int_of (bool_decide (SIGUSR1 ∈ m))).
  rewrite Hm. clearbody u v. clear Hm. unfold at_native, after_injection. destruct (inject_urgent cfg); split_and!; reflexivity.
Qed.

(** The writer thread, with a write pending, an armed probe that does not hold it and a system that grants its calls, carries the write out in seven turns; the snapshot then tells what was done: one more write and one more call of the device, the mask asked for before and after it and restored, SIGURG blocked at the device and pending there exactly when it was injected, and the outcome of the device, or on a synthetic device the outcome that was asked for. *)
Theorem probed_write_exact io k p cfg :
  c_writer k = WBegin → c_pending k = false → holds (snap p) armed = true → closing p = false → config p = cfg →
  hold_native cfg && negb (release p) = false → cfg_setup_error cfg = 0 → cfg_restore_error cfg = 0 →
  ∃ k' p', turns 7 (willing io) k (Some p) = Some (k', Some p') ∧
    let s := public_snapshot (read_snapshot p') in
    let m := write_mask cfg (c_mask k) in
    let code := if c_synthetic k then cfg_native_error cfg else io in
    c_writer k' = WComplete (MkWriteResult code 0 0 true (code =? 0)) ∧ c_mask k' = m ∧
    Writes s = Prelude.u64 (snap p writes + 1) ∧ SetReportCalls s = Prelude.u64 (snap p native_calls + 1) ∧
    Z.land (Phases s) PHASE_NATIVE = PHASE_NATIVE ∧ Armed s = false ∧ active p' = false ∧
    BeforeSIGURGBlocked s = initial_urgent_blocked cfg ∧ BeforeUnrelatedBlocked s = unrelated_blocked cfg ∧
    CriticalSIGURGBlocked s = true ∧ PendingSIGURG s = inject_urgent cfg ∧
    AfterSIGURGBlocked s = initial_urgent_blocked cfg ∧ AfterUnrelatedBlocked s = unrelated_blocked cfg ∧
    MaskRestored s = true ∧ InitialMaskError s = 0 ∧ MaskQueryError s = 0 ∧ SSetupError s = 0 ∧ SRestoreError s = 0 ∧
    SNativeError s = u32 code ∧ Submitted s = true ∧ Completed s = (code =? 0) ∧ EntryConfirmed s = false.
Proof.
  intros Hw Hp Ha Hc <- Hh Hs Hr.
  destruct (write_prepared io k p Hw Hp Ha Hc Hs) as (k1 & E1 & Hw1 & Hm1 & Hb1 & Hp1 & Hr1 & Hc1 & Hy1 & _).
  set (p1 := after_begin (config p) (c_mask k) p) in *. set (m := write_mask (config p) (c_mask k)) in *.
  destruct (write_enters io k1 p1 m Hw1 Hm1 Hp1 Hr1 Hc) as (k2 & p2 & E2 & Hw2 & Hm2 & Hb2 & Hr2 & Hc2 & Hy2 & Hs2 & Ha2);
    [by rewrite Hc1|].
  destruct (write_leaves io k2 p2 m Hw2 Hr2) as (k3 & p3 & E3 & Hw3 & Hm3 & Hs3 & Ha3 & Hact); [by rewrite Hc2, Hc1|].
  rewrite Hb2, Hb1, Hs2, Hc2, Hc1, Hy2, Hy1 in *. exists k3, p3. split.
  { change 7%nat with (3 + (2 + 2))%nat. by rewrite turns_app, E1, turns_app, E2. }
  set (code := if c_synthetic k then _ else io) in *.
  destruct (snapshot_written (config p) m (c_generation k1) code (snap (begin_armed p)))
    as (F1 & F2 & F3 & F4 & F5 & F6 & F7 & F8 & F9 & F10 & F11 & F12 & F13 & F14 & F15 & F16 & F17 & F18).
  assert (H0 : atoms p3 a_entry_confirmed = 0) by (by rewrite Ha3, Ha2).
  change (snap p1) with (record_before 0 m (snap (begin_armed p))) in Hs3. rewrite <-Hs3 in *.
  assert (Hu : bool_decide (SIGURG ∈ m) = initial_urgent_blocked (config p)) by apply blocked_urgent.
  assert (Hv : bool_decide (SIGUSR1 ∈ m) = unrelated_blocked (config p)) by apply blocked_unrelated.
  rewrite Hu in *. rewrite Hv in *.
  cbv zeta. unfold public_snapshot, holds. cbn [Writes SetReportCalls Phases Armed BeforeSIGURGBlocked BeforeUnrelatedBlocked
    CriticalSIGURGBlocked PendingSIGURG AfterSIGURGBlocked AfterUnrelatedBlocked MaskRestored InitialMaskError MaskQueryError
    SSetupError SRestoreError SNativeError Submitted Completed EntryConfirmed].
  rewrite (read_entry p3 H0), !(read_unentered p3) by done. rewrite F1, F2, F3, F4, F5, F6, F7, F8, F9, F10, F11, F12, F13, F14, F15, F16, F17, F18, !holds_of.
  split_and!; try done. apply phases_shown; [done|]. change (snap (begin_armed p) phases) with (Z.ldiff (snap p phases) PHASE_NATIVE).
  by rewrite Z.land_lor_distr_l, land_ldiff.
Qed.

(** *** Waiting *)
Definition reached_state (s : system) : Prop := counted (lib s) (pointers s) ∧ sound (lib s).

Lemma reached_actions xs s : reached_state s → reached_state (run_actions xs s).
Proof. intros [Hc Hs]. by apply sound_actions. Qed.

Lemma handles_grow x s : (length (handles s) <= length (handles (run_action x s)))%nat.
Proof.
  assert (Hon : ∀ i f, length (handles (on_handle i f s)) = length (handles s)).
  { intros i f. unfold on_handle. destruct (handles s !! i) as [p|]; [|done]. destruct (f p (lib s)) as [p' l']. cbn.
    apply length_insert. }
  destruct x as [e|config a k|d a|i config|i|i|i]; cbn [run_action]; rewrite ?Hon; try done.
  - destruct (NewSynthetic config a k (lib s)) as [[[d p]|e] l]; cbn; rewrite ?length_app; lia.
  - destruct (connections (lib s) !! _); [|done]. destruct (Attach (Some d) a (lib s)) as [[p|e] l]; cbn; rewrite ?length_app; lia.
Qed.

Lemma handles_grow_all xs : ∀ s, (length (handles s) <= length (handles (run_actions xs s)))%nat.
Proof.
  induction xs as [|x xs IH]; intros s; [done|]. etransitivity; [apply (handles_grow x)|]. apply IH.
Qed.

Lemma handle_there xs s i : (i < length (handles s))%nat → ∃ p, handles (run_actions xs s) !! i = Some p.
Proof. intros Hi. apply lookup_lt_is_Some. pose proof (handles_grow_all xs s). lia. Qed.

Lemma wait_loop_spec i wanted ticks : Z.ldiff wanted all_phases = 0 → ∀ s, reached_state s → (i < length (handles s))%nat →
  Exists (λ t, is_Some (ended t)) ticks →
  ∃ result err s', wait_loop i wanted ticks s = Some (result, err, s') ∧ reached_state s' ∧
    (err = None → Z.land (Phases result) wanted = wanted).
Proof.
  intros Hw. induction ticks as [|t ticks IH]; intros s Hs Hi Hend; [by apply Exists_nil in Hend|]. cbn [wait_loop].
  destruct (handle_there (before t) s i Hi) as [p Hp]. apply (reached_actions (before t)) in Hs.
  set (s1 := run_actions (before t) s) in *. rewrite Hp. assert (Hi1 := lookup_lt_Some _ _ _ Hp).
  destruct (ended t) as [e|] eqn:Ee.
  { destruct (handle_there (reading t) s1 i Hi1) as [p2 Hp2]. rewrite Hp2. eexists _, _, _. split; [done|].
    split; [|done]. by apply (reached_actions [CallSnapshot i]), reached_actions. }
  apply Exists_cons in Hend as [[? He]|Hend]; [congruence|].
  destruct (native p) as [n|] eqn:Hn; [|by eexists _, _, _].
  set (s2 := if waits wanted n (lib s1) then _ else s1).
  assert (H2 : reached_state s2 ∧ handles s2 !! i = Some p).
  { subst s2. destruct (waits wanted n (lib s1)); [|done].
    destruct Hs as [Hc Hs], (others_track i n (waiting t) s1 p Hc Hs Hp Hn) as (? & ? & ? & _). done. }
  destruct H2 as [[Hc2 Hs2] Hp2]. destruct (others_track i n (reading t) s2 p Hc2 Hs2 Hp2 Hn) as (Hc3 & Hs3 & Hp3 & Ht).
  set (s3 := run_others i (reading t) s2) in *.
  assert (Hs4 : reached_state (run_action (CallSnapshot i) s3)) by (by apply (reached_actions [CallSnapshot i])).
  destruct (Z.eqb_spec (wait_answer wanted (status t) n (lib s2)) 0) as [E0|E0].
  - eexists _, _, _. split; [done|]. split; [done|]. intros _.
    assert (∃ q, probes (lib s2) !! n = Some q ∧ reached wanted q = true) as (q & Hq & Hr).
    { unfold wait_answer in E0. destruct (probes (lib s2) !! n) as [q|]; [|done]. exists q. split; [done|].
      destruct (reached wanted q); [done|]. destruct (closing q); [done|]. by destruct (Z.eqb_spec (status t) 0). }
    destruct (Ht q Hq) as (q' & Hq' & Hm). erewrite snapshot_phases by done. apply phases_shown; [done|].
    apply Hm. by apply Z.eqb_eq.
  - destruct (Z.eqb_spec (wait_answer wanted (status t) n (lib s2)) DarwinBinding.ETIMEDOUT); [|by eexists _, _, _].
    apply IH; [done| |done]. pose proof (handles_grow (CallSnapshot i) s3) as Hg. apply lookup_lt_Some in Hp3. lia.
Qed.

(** C32: a wait of a caller for some of the four phases, in any state that the calls of the package and the threads reach and whatever others do meanwhile, returns once its context has ended; when it returns without an error, the snapshot it returns shows every phase it was asked for: nothing takes a phase back between the wait and the snapshot, since a write clears the phase of the device only for a probe that was armed, which has not reached it, and nobody arms the probe while the wait has it. *)
Theorem probe_wait_evidence xs g i wanted ticks :
  let s := run_actions xs (loaded g) in
  (i < length (handles s))%nat → wanted ≠ 0 → Z.ldiff wanted all_phases = 0 → Exists (λ t, is_Some (ended t)) ticks →
  ∃ result err s', Wait false i wanted ticks s = Some (result, err, s') ∧
    (err = None → Z.land (Phases result) wanted = wanted).
Proof.
  intros s Hi Hz Hw Hend. unfold Wait. destruct (Z.eqb_spec wanted 0); [done|]. rewrite Hw. cbn [orb negb Z.eqb].
  destruct (wait_loop_spec i wanted ticks Hw s (reached_sound xs g) Hi Hend) as (result & err & s' & E & _ & Hr).
  by exists result, err, s'.
Qed.
End Properties.
End ProbeSafety.

(** ** Runs of the diagnostic probe

    A synthetic device is opened, written to and waited for. *)
Module ProbeSim.
Import DarwinConnection ProbeNative ProbeDiagnostics WriteProps ProbeSafety.

Definition no_texts : ErrnoText := λ _, ""%string.
Definition created : creation := MkCreation true 0 0 0 {[SIGUSR1]}.

(** A synthetic device whose next write is made with SIGURG injected. *)
Definition opened : list action := [CallNewSynthetic (MkConfig false true true false false 0 0 0) created created].
(** The write, while the caller waits. *)
Definition written : list action :=
  Event (CallWrite 1 (replicate 64 0)) :: replicate 10 (Event (WriterTurn 1 no_answers)).
Definition rounds : list tick := [MkTick [] None written 0 []; MkTick [] (Some Canceled) [] 0 []].

(** The wait is answered in its first round. *)
Definition evidence : option (Z * bool * bool * bool) :=
  match Wait (texts := no_texts) false 0 PhaseNative rounds (run_actions (texts := no_texts) opened (loaded 1)) with
  | Some (r, None, _) => Some (Phases r, CriticalSIGURGBlocked r, PendingSIGURG r, MaskRestored r)
  | _ => None
  end.
Example wait_run : evidence = Some (PhaseNative, true, true, true).
Proof. vm_compute. reflexivity. Qed.

Lemma probe_wait_evidence_witness :
  let s := run_actions (texts := no_texts) opened (loaded 1) in
  (0 < length (handles s))%nat ∧
  ∃ result err s', Wait (texts := no_texts) false 0 PhaseNative rounds s = Some (result, err, s') ∧
    (err = None → Z.land (Phases result) PhaseNative = PhaseNative).
Proof.
  assert (0 < length (handles (run_actions (texts := no_texts) opened (loaded 1))))%nat as Hi.
  { apply Nat.ltb_lt. vm_compute. reflexivity. }
  split; [exact Hi|]. apply (probe_wait_evidence (texts := no_texts) opened 1 0 PhaseNative rounds Hi); [done|reflexivity|].
  right. left. by exists Canceled.
Defined.

(** A write of a connection whose probe injects SIGURG. *)
Definition probed : hid_diagnostic_probe :=
  MkNativeProbe 2 false true false false (MkDiagnosticConfig true false true false true 0 0 0)
    (<[armed := 1]> (λ _, 0)) (λ _, 0).
Definition writing : connection :=
  at_pc WBegin (new_connection (DarwinConnection.new_connection (MkSpec 0 64) (MkSpec 0 64)) true 7 {[SIGUSR1]}).
Lemma probed_write_exact_witness :
  ∃ k' p', turns 7 (willing 5) writing (Some probed) = Some (k', Some p') ∧
    let s := public_snapshot (read_snapshot p') in
    PendingSIGURG s = true ∧ BeforeSIGURGBlocked s = true ∧ MaskRestored s = true ∧ SNativeError s = 0.
Proof.
  destruct (probed_write_exact 5 writing probed (config probed) eq_refl eq_refl eq_refl eq_refl eq_refl eq_refl eq_refl eq_refl)
    as (k' & p' & E & H). cbv zeta in H. exists k', p'. split; [exact E|]. cbv zeta. by repeat split; apply H.
Defined.
End ProbeSim.
