(* ===== verification/ErrorTexts.v ===== *)
(** * The texts of errors: the Error methods of the packages

    [error_text] is the method Error of every error the program makes.  The
    texts of errors made outside it are their names, those of system error
    numbers a parameter (ErrnoText), and a message whose arguments the model
    leaves out has their verbs in the text.  [expand] puts the texts of
    operands in the places of the verbs %w. *)
From S2P Require Import Prelude GoErrors GoText GoEncoding GoFmt Descriptors Ctap1 Ctap2 ClientCore.

Module ErrorTexts.
Import GoFmt GoStrings.
#[local] Open Scope string_scope.
#[local] Open Scope list_scope.
#[local] Open Scope Z_scope.

(** ** The sentinels of the packages *)
Definition client_sentinels : list (string * string) :=
  [("client.ErrSessionRequired", "client: session is required");
   ("client.ErrRawInvokerRequired", "client: raw invoker is required");
   ("client.ErrMiddlewareRequired", "client: middleware is required");
   ("client.ErrInteractionHandlerRequired", "client: interaction handler is required");
   ("client.ErrTraceRecorderRequired", "client: trace recorder is required");
   ("client.ErrPINRequired", "client: pin is required");
   ("client.ErrNewPINRequired", "client: new pin is required");
   ("client.ErrNoCapableProtocol", "client: no capable protocol detected")].
Definition hid_sentinels : list (string * string) :=
  [("hid.ErrClosed", "hid: closed"); ("hid.ErrRemoved", "hid: removed");
   ("hid.ErrPermission", "hid: permission denied"); ("hid.ErrBusy", "hid: busy");
   ("hid.ErrUnsupported", "hid: unsupported"); ("hid.ErrInvalidArgument", "hid: invalid argument");
   ("hid.ErrInvalidReport", "hid: invalid report"); ("hid.ErrStaleEndpoint", "hid: stale endpoint");
   ("hid.ErrTimeout", "hid: report wait timeout"); ("hid.ErrIO", "hid: I/O failure");
   ("hid.ErrResourceLimit", "hid: resource limit")].
Definition transport_sentinels : list (string * string) :=
  [("transport.ErrDisconnected", "transport disconnected");
   ("transport.ErrPermissionDenied", "transport permission denied");
   ("transport.ErrTemporary", "transport temporary failure");
   ("transport.ErrUnsupported", "transport unsupported")].
Definition registry_sentinels : list (string * string) :=
  [("transport.errBackendRequired", "backend is required");
   ("transport.errDuplicateBackend", "backend already registered");
   ("transport.errBackendNotFound", "backend not registered")].
Definition hid_wire_sentinels : list (string * string) :=
  [("wire/hid.ErrPayloadTooLarge", "payload too large");
   ("wire/hid.errInvalidReportSize", "invalid report size");
   ("wire/hid.errInvalidCommand", "invalid HID command");
   ("wire/hid.errInvalidPacket", "invalid packet");
   ("wire/hid.errMismatchedChannel", "mismatched channel");
   ("wire/hid.errUnexpectedCommand", "unexpected command");
   ("wire/hid.errUnexpectedSeq", "unexpected continuation sequence");
   ("wire/hid.errIncompletePayload", "incomplete HID payload")].
Definition nfc_wire_sentinels : list (string * string) :=
  [("wire/nfc.errInvalidChunkSize", "invalid APDU chunk size");
   ("wire/nfc.errInvalidResponse", "invalid APDU response");
   ("wire/nfc.errStatusWord", "unexpected APDU status word");
   ("wire/nfc.errIncompleteAPDU", "incomplete APDU response")].
Definition ble_wire_sentinels : list (string * string) :=
  [("wire/ble.ErrPayloadTooLarge", "payload too large");
   ("wire/ble.errInvalidMTU", "invalid mtu");
   ("wire/ble.errInvalidFragment", "invalid fragment");
   ("wire/ble.errIncompleteValue", "incomplete BLE payload")].
Definition command_sentinels : list (string * string) :=
  [("main.errResetConfirmationRequired", "reset confirmation required")].
(** Those of the standard library. *)
Definition library_sentinels : list (string * string) :=
  [("io.EOF", "EOF"); ("hex.ErrLength", "encoding/hex: odd length hex string");
   ("strconv.ErrSyntax", "invalid syntax"); ("strconv.ErrRange", "value out of range")].

Definition sentinels : list (string * string) :=
  client_sentinels ++ hid_sentinels ++ transport_sentinels ++ registry_sentinels ++ hid_wire_sentinels
  ++ nfc_wire_sentinels ++ ble_wire_sentinels ++ command_sentinels ++ library_sentinels.
Definition sentinel_text (name : string) : string :=
  match List.find (λ p, String.eqb p.1 name) sentinels with Some p => p.2 | None => name end.

(** ** The methods, given the texts of what they show *)
Definition context_text (c : ctx_err) : string :=
  match c with Canceled => "context canceled" | DeadlineExceeded => "context deadline exceeded" end.

(** transport.Error *)
Definition transport_Error (op text : string) : string :=
  if str_empty op then "transport: " +:+ text else "transport: " +:+ op +:+ ": " +:+ text.

(** ExchangeError, HIDError and InvalidHIDCommandError of transport/usb *)
Definition stage_name (s : stage) : string :=
  match s with StageINIT => "INIT" | StagePING => "PING" | StageRequest => "request" | StageResponse => "response" end.
Definition outcome_number (o : outcome) : Z :=
  match o with OutcomeUnknown => 0 | OutcomeNotSubmitted => 1 | OutcomeCompleted => 2 end.
Definition bool_text (b : bool) : string := if b then "true" else "false".
Definition ExchangeError_Error (s : stage) (packets : Z) (o : outcome) (ambiguous : bool) (text : string) : string :=
  "transport/usb: " +:+ stage_name s +:+ " failed after " +:+ Strconv.Itoa packets +:+ " completed packets (outcome "
  +:+ Strconv.Itoa (outcome_number o) +:+ ", ambiguous " +:+ bool_text ambiguous +:+ "): " +:+ text.
Definition HIDError_Error (code : Z) : string := "transport/usb: CTAPHID error 0x" +:+ hex_padded 2 code.
Definition InvalidHIDCommandError_Error (command : Z) : string :=
  "transport/usb: invalid logical CTAPHID request command 0x" +:+ hex_padded 2 command.

(** The status words of APDUs *)
Definition StatusError_Error (sw1 sw2 : Z) : string :=
  "wire/nfc: unexpected APDU status word 0x" +:+ hex_padded 2 sw1 +:+ hex_padded 2 sw2.
Definition appletSelectionError_Error (sw1 sw2 : Z) : string :=
  "transport/nfc: FIDO applet selection failed with status 0x" +:+ hex_padded 2 sw1 +:+ hex_padded 2 sw2.

(** The statuses of authenticators *)
Definition ctap1_Error (statusWord : Z) : string :=
  "ctap1: status 0x" +:+ hex_padded 4 statusWord +:+ ": " +:+ Apdu.statusText statusWord.
Definition ctap2_Error (code : Z) : string :=
  "ctap2: status 0x" +:+ hex_padded 2 code +:+ ": " +:+ Status.statusText code.

(** NativeError, Error of hid and of hid/internal/driver *)
Definition NativeError_Error (domain : string) (code : Z) (message : string) : string :=
  "hid: " +:+ domain +:+ " 0x" +:+ hex_number code +:+ ": " +:+ message.
Definition driver_Error (op message : string) (cause : option string) : string :=
  if negb (str_empty message) then "hid native: " +:+ op +:+ ": " +:+ message
  else match cause with
       | Some text => "hid native: " +:+ op +:+ ": " +:+ text
       | None => "hid native: " +:+ op
       end.

(** Of client *)
Section Quoted.
Context {print : PrintTable}.

(** The detail of a [hid.Error] is its cause, which operationError sets. *)
Definition hid_Error (op endpoint text : string) : string :=
  if negb (str_empty endpoint) then "hid: " +:+ op +:+ " " +:+ Quote endpoint +:+ ": " +:+ text
  else "hid: " +:+ op +:+ ": " +:+ text.

Definition UnknownFamilyError_Error (family : string) : string := "protocol: unknown family " +:+ Quote family.
Definition UnsupportedProtocolError_Error (family : string) : string :=
  "client: protocol " +:+ Quote family +:+ " is not configured".
Definition DuplicateRawInvokerError_Error (family : string) : string :=
  "client: protocol " +:+ Quote family +:+ " already has a raw invoker".
Definition UnsupportedVerificationMethodError_Error (method operation : string) : string :=
  if str_empty operation then "client: verification method " +:+ Quote method +:+ " is not supported"
  else "client: verification method " +:+ Quote method +:+ " is not supported for " +:+ operation.
Definition VerificationMethodUnavailableError_Error (method operation reason : string) : string :=
  let operation := if str_empty operation then "operation" else operation in
  if negb (str_empty reason) then "client: " +:+ reason +:+ " for " +:+ operation
  else if String.eqb method Client.VerificationMethodBuiltInUV
  then "client: authenticator does not support built-in UV for " +:+ operation
  else "client: authenticator does not support verification method " +:+ Quote method +:+ " for " +:+ operation.
Definition DeviceNotFoundError_Error (id : string) : string := "client: device " +:+ Quote id +:+ " was not found".
Definition CTAP2UnavailableError_Error (id : string) : string :=
  if str_empty id then "client: authenticator does not support CTAP2"
  else "client: authenticator " +:+ Quote id +:+ " does not support CTAP2".

(** ** The text of an error *)
Class ErrnoText := errno_text : Z → string.
Context {errnos : ErrnoText}.

Definition newline_text : string := String newline "".
Fixpoint error_text (e : goerror) : string :=
  match e with
  | ESent name => sentinel_text name
  | ECtx c => context_text c
  | EForeign f => fe_name f
  | EMsg message => message
  | EFmt message operands => expand message (map error_text operands)
  | EJoin errs => String.concat newline_text (map error_text errs)
  | ETransport op e => transport_Error op (error_text e)
  | EInvalidHIDCommand command => InvalidHIDCommandError_Error command
  | EHID code => HIDError_Error code
  | ELocalWait cause => error_text cause
  | EExchange s packets o ambiguous cause => ExchangeError_Error s packets o ambiguous (error_text cause)
  | EStatus sw1 sw2 => StatusError_Error sw1 sw2
  | EAppletSelection sw1 sw2 => appletSelectionError_Error sw1 sw2
  | ECtap1 sw => ctap1_Error sw
  | ECtap2 code => ctap2_Error code
  | EErrno code => errno_text code
  | ENative domain code message => NativeError_Error domain code message
  | EHidOp op endpoint _ _ cause => hid_Error op endpoint (error_text cause)
  | EDriver op _ _ _ message cause => driver_Error op message (error_text <$> cause)
  | EUnknownFamily family => UnknownFamilyError_Error family
  | EUnsupportedProtocol family => UnsupportedProtocolError_Error family
  | EDuplicateRawInvoker family => DuplicateRawInvokerError_Error family
  | EUnsupportedMethod method operation => UnsupportedVerificationMethodError_Error method operation
  | EMethodUnavailable method operation reason => VerificationMethodUnavailableError_Error method operation reason
  | EDisposition _ reason => reason
  | EDeviceNotFound id => DeviceNotFoundError_Error id
  | ECTAP2Unavailable id => CTAP2UnavailableError_Error id
  end.
End Quoted.
End ErrorTexts.
