(* ===== verification/ErrorTextProps.v ===== *)
(** * The exit status follows the text

    classifyError of the command-line tool looks for a word in the text of an
    error; with the texts, its outcome is known for whole families of errors. *)
From S2P Require Import Prelude GoErrors GoText GoEncoding GoFmt Descriptors ErrorTexts CliApp CliCommands.

Module ErrorTextProps.
Import GoFmt GoStrings ErrorTexts Flags Errors.
#[local] Open Scope string_scope.
#[local] Open Scope list_scope.
#[local] Open Scope Z_scope.

(** ** Texts in texts *)
Definition within (sub s : string) : Prop := ∃ a b, s = (a ++ sub ++ b)%string.

Lemma append_assoc (a b c : string) : ((a ++ b) ++ c = a ++ (b ++ c))%string.
Proof. induction a as [|x a IH]; [done|exact (f_equal (String x) IH)]. Qed.
Lemma append_nil_r (a : string) : (a ++ "" = a)%string.
Proof. induction a as [|x a IH]; [done|exact (f_equal (String x) IH)]. Qed.

#[export] Instance within_preorder : PreOrder within.
Proof.
  split; [intros s; exists "", ""; by rewrite append_nil_r|].
  intros r s t (a & b & ->) (c & d & ->). exists (c ++ a)%string, (b ++ d)%string. by rewrite !append_assoc.
Qed.
Lemma within_l sub a s : within sub s → within sub (a ++ s).
Proof. intros Hs. transitivity s; [done|]. exists a, "". by rewrite append_nil_r. Qed.
Lemma within_r sub a s : within sub s → within sub (s ++ a).
Proof. intros Hs. transitivity s; [done|]. by exists "", a. Qed.

Lemma within_concat sep sub s l : s ∈ l → within sub s → within sub (String.concat sep l).
Proof.
  intros Hin Hs. induction l as [|t l IH]; [by apply elem_of_nil in Hin|].
  apply elem_of_cons in Hin as [<-|Hin]; destruct l as [|u l].
  - done.
  - by apply within_r.
  - by apply elem_of_nil in Hin.
  - apply within_l, within_l. by apply IH.
Qed.

(** The verbs of a format. *)
Fixpoint verbs (format : string) : nat :=
  match format with
  | String "%" (String "w" rest) => S (verbs rest)
  | String _ rest => verbs rest
  | "" => 0%nat
  end%string.

Lemma expand_within n : ∀ format texts i s, (String.length format <= n)%nat → texts !! i = Some s → (i < verbs format)%nat →
  within s (expand format texts).
Proof.
  induction n as [|n IH]; intros format texts i s Hn Hi Hlt; (destruct format as [|c rest]; [simpl in Hlt; lia|]); [simpl in Hn; lia|].
  destruct (String.prefix "%w" (String c rest)) eqn:Hp.
  - destruct rest as [|d rest]; [by destruct c as [[] [] [] [] [] [] [] []]|].
    apply String.prefix_correct in Hp. cbn in Hp. injection Hp as -> -> _. cbn [verbs] in Hlt.
    destruct texts as [|t texts]; [done|]. cbn [expand]. destruct i as [|i]; cbn in Hi.
    + injection Hi as ->. by apply within_r.
    + apply within_l. apply (IH _ _ i); [cbn in Hn; lia|done|lia].
  - assert (verbs (String c rest) = verbs rest ∧ expand (String c rest) texts = String c (expand rest texts)) as [Ev Ee].
    { destruct rest as [|d rest]; [by destruct c as [[] [] [] [] [] [] [] []], texts|].
      destruct (decide (c = "%"%char)) as [->|]; [destruct (decide (d = "w"%char)) as [->|]|].
      - by destruct rest.
      - destruct d as [[] [] [] [] [] [] [] []]; by destruct texts.
      - destruct c as [[] [] [] [] [] [] [] []]; by destruct texts. }
    rewrite Ee. rewrite Ev in Hlt. apply (within_l s (String c "")). apply (IH _ _ i); [cbn in Hn; lia|done|done].
Qed.
(** ** Errors that show an error *)
Inductive shows : goerror → goerror → Prop :=
  | shows_it e : shows e e
  | shows_transport op e c : shows e c → shows (ETransport op e) c
  | shows_wait e c : shows e c → shows (ELocalWait e) c
  | shows_exchange s n o b e c : shows e c → shows (EExchange s n o b e) c
  | shows_hid op endpoint kind native e c : shows e c → shows (EHidOp op endpoint kind native e) c
  | shows_driver op kind domain code e c : shows e c → shows (EDriver op kind domain code "" (Some e)) c
  | shows_join es e c : e ∈ es → shows e c → shows (EJoin es) c
  | shows_fmt format es i e c : es !! i = Some e → (i < verbs format)%nat → shows e c → shows (EFmt format es) c.

Section Texts.
Context {print : PrintTable} {errnos : ErrnoText}.
#[local] Instance texts : ErrorText := error_text.

Lemma shows_within e c : shows e c → within (error_text c) (error_text e).
Proof.
  induction 1 as [e|op e c _ IH|e c _ IH|s n o b e c _ IH|op ep k nat e c _ IH|op k d x e c _ IH|es e c Hin _ IH|f es i e c Hi Hlt _ IH].
  - done.
  - cbn. unfold transport_Error. destruct (str_empty op); repeat apply within_l; done.
  - done.
  - cbn. unfold ExchangeError_Error. repeat apply within_l. done.
  - cbn. unfold hid_Error. destruct (negb (str_empty ep)); repeat apply within_l; done.
  - cbn. unfold driver_Error. cbn. repeat apply within_l. done.
  - cbn. apply within_concat with (error_text e); [|done]. by apply list_elem_of_fmap_2.
  - cbn. transitivity (error_text e); [done|]. eapply expand_within; [done| |done]. rewrite list_lookup_fmap, Hi. done.
Qed.

(** *** The word *)
Lemma ToLower_app a b : ToLower (a ++ b) = (ToLower a ++ ToLower b)%string.
Proof. induction a as [|x a IH]; [done|exact (f_equal (String (lower x)) IH)]. Qed.

Lemma Contains_prefix sub s : Contains (sub ++ s) sub = true.
Proof. unfold Contains. pose proof (HasPrefix_app sub s) as Hp. by destruct (sub ++ s)%string; cbn [Cut]; rewrite Hp. Qed.

Lemma Contains_cons c s sub : Contains s sub = true → Contains (String c s) sub = true.
Proof.
  unfold Contains. cbn [Cut]. destruct (HasPrefix _ _); [done|]. by destruct (Cut s sub) as [[x y]|].
Qed.

Lemma Contains_skip c a s sub : HasPrefix (String c (a ++ s)) sub = false →
  Contains (String c a ++ s) sub = Contains (a ++ s) sub.
Proof.
  intros Hp. change (String c a ++ s)%string with (String c (a ++ s)). unfold Contains. cbn [Cut]. rewrite Hp.
  by destruct (Cut (a ++ s) sub) as [[x y]|].
Qed.

Lemma Contains_within sub s : within sub s → Contains s sub = true.
Proof.
  intros (a & b & ->). induction a as [|c a IH]; [exact (Contains_prefix sub b)|]. exact (Contains_cons c _ _ IH).
Qed.

Lemma lower_within sub s : within sub s → within (ToLower sub) (ToLower s).
Proof. intros (a & b & ->). exists (ToLower a), (ToLower b). by rewrite !ToLower_app. Qed.

(** What an authenticator answered, by its status. *)
Definition answered (c : goerror) : Prop :=
  match c with ECtap1 _ | ECtap2 _ | EHID _ => True | _ => False end.

Lemma answered_ctap c : answered c → within "ctap" (ToLower (error_text c)).
Proof.
  destruct c; try done; intros _; cbn [error_text].
  - unfold HIDError_Error. rewrite ToLower_app. apply within_r. by exists "transport/usb: ", "hid error 0x".
  - unfold ctap1_Error. rewrite ToLower_app. apply within_r. by exists "", "1: status 0x".
  - unfold ctap2_Error. rewrite ToLower_app. apply within_r. by exists "", "2: status 0x".
Qed.

Lemma answered_status e c : shows e c → answered c → As CliApp.as_not_found e = None → is_deadline e = false →
  classifyError e = exitProtocol.
Proof.
  intros Hs Hc Hn Hd. unfold classifyError. rewrite Hn, Hd. rewrite Contains_within; [done|].
  transitivity (ToLower (error_text c)); [by apply answered_ctap|]. by apply lower_within, shows_within.
Qed.

(** *** Flags *)
(** A message of the tool about a value: only the value can have the word. *)
Lemma flag_status (prefix value : string) :
  prefix ∈ ["unsupported protocol "; "invalid command "; "invalid binary value "]%string →
  classifyError (EMsg (prefix ++ Quote value)) =
    if Contains (ToLower (Quote value)) "ctap" then exitProtocol else exitGeneralError.
Proof.
  intros Hp. unfold classifyError. cbn [As CliApp.as_not_found is_deadline].
  change (GoErrors.Error (EMsg (prefix ++ Quote value))) with (prefix ++ Quote value)%string.
  assert (Contains (ToLower (prefix ++ Quote value)) "ctap" = Contains (ToLower (Quote value)) "ctap") as ->.
  { rewrite ToLower_app. generalize (ToLower (Quote value)). intros t. rewrite !elem_of_cons, elem_of_nil in Hp.
    destruct Hp as [->|[->|[->|[]]]];
      match goal with |- context [ToLower ?p] => let q := eval vm_compute in (ToLower p) in change (ToLower p) with q end;
      by repeat rewrite Contains_skip by reflexivity. }
  by destruct (Contains _ _).
Qed.
(** C37: the exit status of the tool by the texts of errors. An error that shows, through any wrapping, what an authenticator answered exits with 5 - unless a device was not found (3) or a deadline has passed (4), which take precedence - a wrong or blocked PIN and a refused user verification included, for which the instructions of the tool document the status 6. A value that a flag of the raw, trace, register and authenticate commands does not take exits with 1, or with 5 when its quotation has the letters ctap, as in a protocol ctap3, and never with the documented 2; a missing command byte exits with 1, and a missing PIN with 2. *)
Theorem exit_status_by_text :
  (∀ e c, shows e c → answered c → As CliApp.as_not_found e = None → is_deadline e = false → classifyError e = exitProtocol) ∧
  (∀ value e, parseProtocol value = Err e →
     classifyError e = if Contains (ToLower (Quote value)) "ctap" then exitProtocol else exitGeneralError) ∧
  (∀ value e, parseCommand value = Err e → value ≠ "" →
     classifyError e = if Contains (ToLower (Quote value)) "ctap" then exitProtocol else exitGeneralError) ∧
  (∀ value e, decodeBinary value = Err e →
     classifyError e = if Contains (ToLower (Quote value)) "ctap" then exitProtocol else exitGeneralError) ∧
  (∃ e, parseCommand "" = Err e ∧ classifyError e = exitGeneralError) ∧
  (∃ e, parseProtocol "ctap3" = Err e ∧ classifyError e = exitProtocol) ∧
  classifyError (ESent "client.ErrPINRequired") = exitUsageError ∧ exitUsageError = 2 ∧ exitProtocol = 5.
Proof.
  split; [exact answered_status|]. split_and!; try done.
  - intros value e. unfold parseProtocol. destruct (_ || _); [done|]. destruct (String.eqb _ _); [done|].
    intros [= <-]. apply flag_status. by left.
  - intros value e. unfold parseCommand, str_empty. destruct (String.eqb_spec value ""); [done|].
    intros E _. assert (e = EMsg ("invalid command " ++ Quote value)) as -> by (repeat case_match; by simplify_eq).
    apply flag_status. right. by left.
  - intros value e. unfold decodeBinary. destruct (str_empty value); [done|]. intros E.
    assert (e = EMsg ("invalid binary value " ++ Quote value)) as -> by (repeat case_match; by simplify_eq).
    apply flag_status. do 2 right. by left.
  - eexists. split; [reflexivity|]. reflexivity.
  - eexists. split; [reflexivity|]. reflexivity.
Qed.
End Texts.
End ErrorTextProps.
